(* ===== verification/_CoqProject ===== *)
-Q . S2P
Prelude.v
Domain.v
ChainABI.v
Merkle.v
Heap.v
BestFirst.v
Evidence.v
TrustView.v
Registry.v
Reorg.v
Planner.v
PathProof.v
Coordinator.v
Receipt.v
Indexer.v
Envelope.v
Submission.v
Store.v
GraphStore.v
PlanStore.v
ProofStore.v
LiveStore.v
Tables.v
TransactionStore.v
System.v
IndexerStore.v
IndexerApply.v
RemoteValidator.v
Mailbox.v
ChainReader.v
Node.v
Wiring.v
Scenario.v
Operational.v
ClientRuns.v
OperationalRuns.v
Executor.v
ExecutorRuns.v
ReplayView.v
ReplaySearch.v
ReplayCoordinator.v
ReplayRepository.v
ReplayNames.v
ReplayHeight.v
ReplayTrace.v
ReplayPreflight.v
NodeScenario.v
ExecutorScenario.v
ReplayScenario.v
ReplayTraceScenario.v
