(* ===== verification/Prelude.v ===== *)
(** * TrustMap prototype: a verification library

    TrustMap lets a contract on a home chain accept facts about blocks of other
    chains.  Gateways record, on every chain, the TrustRoots they have verified
    in a Merkle tree; a recorded TrustRoot of chain B on chain A is a directed
    dependency A -> B.  A MapNode (Go, src/Mapnode) collects these dependencies
    in a graph, the TrustView, and answers a verification request for a source
    block either with a path of dependencies from the home chain's TrustRoot
    down to that block (a PathProof, checked on chain by recomputing Merkle
    roots) or, when no path exists or the path is dearer, with a direct
    verification.

    ** The parts of the program and their models

    - src/internal/domain, src/internal/proof: chain identifiers and heights as
      big-endian 256-bit words, leaf hashes, the incremental Merkle tree and the
      verification of recursive paths.  Domain.v, Merkle.v.
    - src/Mapnode/evidence: content addresses and life cycle of the logs the
      graph rests on.  Evidence.v.
    - src/Mapnode/trustview: nodes, edges, views, verified dependencies, RPC
      observations, snapshot identifiers.  TrustView.v.
    - src/Mapnode/registry, src/internal/directprofile: deployments, signing
      authority, calibrated cost of direct verification.  Registry.v.
    - src/Mapnode/reorg: the canonical cursor of a chain.  Reorg.v.
    - src/Mapnode/planner: reachability and shortest path over a sealed
      snapshot, the choice between path and direct verification.  Planner.v,
      on Heap.v (container/heap, as the source uses it) and BestFirst.v (the
      invariant of a best-first search over an abstract priority queue).
    - src/Mapnode/proof: assembling a PathProof from stored material and
      verifying it.  PathProof.v.
    - src/Mapnode/coordinator: the durable request state machine.
      Coordinator.v.
    - src/Mapnode/store: the SQLite tables as a record of maps and the
      repositories over them.  Store.v (schema, evidence, requests),
      GraphStore.v (trust graph, snapshots, observations), PlanStore.v,
      ProofStore.v, LiveStore.v (live chains and canonical cursors, with the
      chain catalogue of src/Mapnode/chain); Tables.v adds the tables of the
      live node, with TransactionStore.v (submissions, execution work),
      IndexerStore.v and IndexerApply.v (the tables of the confirmed indexer),
      Mailbox.v (evidence inbox and outbox, activation of remote evidence).
    - src/Mapnode/chain: reading the TrustRoot of a chain at a canonical block
      that is deep enough.  ChainReader.v.
    - src/Mapnode/chainabi: decoding of the Gateway's events, calls and their
      results.  ChainABI.v.
    - src/Mapnode/indexer: the check of a verification receipt (Receipt.v) and
      the confirmed event indexer, from the logs of confirmed blocks to the
      blocks handed to the store (Indexer.v, against the interfaces of the RPC
      client and of the store).
    - src/Mapnode/evidence, the validator of evidence that arrives by gossip:
      RemoteValidator.v.
    - src/Mapnode/p2p: the envelopes in which evidence is gossiped and the
      record of a rejected one.  Envelope.v.
    - src/Mapnode/executor: transaction submissions, their identifier and life
      cycle (Submission.v); the home root guard, the submitter with its
      recovery, the proofs of direct plans, and the step of the request worker
      (Executor.v).
    - src/Mapnode/app: the application, its gates and guarded operations, and
      the workers that run on it.  Operational.v.
    - src/Mapnode/replay, the offline replay of recorded events under four
      settings: ReplayView.v (the graph of blocks and its treaps of heights),
      ReplaySearch.v (the search with its reused memory, on Heap.v and
      BestFirst.v), ReplayCoordinator.v (baselines, checkpoints, [Process] and
      [Restore]), ReplayRepository.v (tables, verification, recovery and the run
      of a setting), ReplayNames.v, ReplayHeight.v and ReplayTrace.v (from the
      rows of a file to numbered events), ReplayPreflight.v (the check of a trace
      before it is replayed).

    These parts are put together three times.  System.v: all transactions of
    the core tables, reachable databases and what holds of them.  Wiring.v: the
    repositories as the instances of the interfaces of the planner, the builder
    and the coordinator, as app.go wires them.  Node.v: every transaction of a
    live node, on all tables.  ClientRuns.v shows that the indexer, the
    validator and the coordinator move any state only by the calls they make;
    OperationalRuns.v and ExecutorRuns.v use it for the application and the
    request worker, whose runs are runs of the node.  Scenario.v,
    NodeScenario.v and ExecutorScenario.v evaluate concrete federations, from
    the first observation to a PathProof, from the event of a request to its
    confirmed transaction and the edge another node activates, and the step of
    the request worker; they provide the witnesses.  The replay stands alone;
    ReplayScenario.v and ReplayTraceScenario.v evaluate it.

    A definition has the name of the Go function or type it translates, with
    the receiver where a bare name would be ambiguous ([ChainID_Validate] for
    the method [Validate] of [ChainID]); a Go struct is a record with the same
    fields, prefixed where Rocq needs distinct names.

    ** Conventions

    - [res E A] is a Go result [(A, error)]; the errors of a package are an
      inductive type with the sentinel errors of the source, plus one
      constructor per error the source makes on the spot.
    - A [[32]byte] array is a vector of 32 bytes, a slice is a list; [*big.Int]
      is [option Z] (nil is [None]), a nil-able time or cost an [option].
      Unsigned machine integers are [Z] in their range, with [wrap64] where the
      code can wrap around and the range as a named condition where it matters.
    - Functions that read the clock take [now] as an argument, or read it from
      the state when they read it several times (Indexer.v).
    - Code that calls out many times is a computation [M S Ev F A]: state,
      error, and the record of the calls that matter (Coordinator.v,
      Indexer.v).
    - Keccak-256 (go-ethereum's crypto package) is a parameter [keccak256]; no
      theorem assumes that it has no collisions.  A theorem on identifiers says
      "equal, or keccak maps these two different encodings to one digest".
      Theorems on reachable databases assume that it never returns the all-zero
      digest, which the code uses as "absent"; the witnesses instantiate it
      with [sample_hash].
    - Go maps are [gmap]s; where the source ranges over a map, the model takes
      one order and the theorem shows that the result does not depend on it.
    - A loop that is not structural takes fuel; the fuel given by the callers
      (one more than the number of edges for the two searches, four turns for
      [Coordinator.Process], the number of blocks up to the safe head for
      [Indexer.Step], the number of nodes to read a path back in ReplaySearch.v)
      is proved to be enough: [OutOfFuel] and [Panic] never occur.  [live] in
      ReplayRepository.v is no fuel: the context of a run is cancelled after as
      many events.
    - A repository method is one transaction: it fails and changes nothing, or
      returns the database after its commit.  Uniqueness, CHECK and trigger
      constraints of migrations.go are tests that make it fail.

    ** What the theorems show

    - Cryptographic layer: the incremental tree refines the complete tree;
      witnesses and paths are complete and binding (Merkle.v).
    - Identifiers determine what they name (Evidence.v, TrustView.v, Planner.v).
    - Life cycles: evidence is active only after verification and confirmation,
      requests are planned only after the evidence gate (Evidence.v,
      Coordinator.v, and for the stored rows System.v).
    - Planning: the search returns the preferred path, without wrap-around; the
      decision is the right one for every snapshot (Planner.v).
    - Storage: in every reachable database the graph is consistent and backed
      by active evidence, snapshots are the live graph at their revision, plans
      and proofs are content-addressed, bound to sealed snapshots and never
      rewritten; PathProofs round-trip (System.v).
    - Chain data: event decoders accept exactly the canonical encodings
      (ChainABI.v), envelopes round-trip (Envelope.v), a verification receipt
      is accepted exactly when it is one the Gateway contract can produce
      (Receipt.v), a block is prepared from such a receipt only, and a step of
      the indexer hands over a chain of buried blocks, one by one, and degrades
      its cursor exactly for deterministic failures (Indexer.v).
    - Live chains are the configured ones, cursors follow one chain
      (LiveStore.v, System.v).
    - Chain readings: an observed TrustRoot is bound to a canonical buried block
      (ChainReader.v), remote evidence is accepted exactly with the receipt,
      request and block behind it (RemoteValidator.v).
    - Processing: [Process] always ends, can be interrupted anywhere and
      resumed, and what it returns is backed by the database (Coordinator.v
      against an interface, Wiring.v for the real repositories).
    - The node: in every reachable database of all tables a confirmed submission
      is backed by an indexed receipt, the TrustView can be proved edge by edge,
      the mailboxes are explained and nothing accepted is lost (Node.v).
    - The application: the indexer, the worker of remote evidence, the
      coordinator and the request worker change the database by transactions of
      the node only, whatever the chains answer; a closed gate stops them and a
      deterministic failure closes it for good (OperationalRuns.v).
    - Transactions: the guard passes exactly the expected root, a submission is
      guarded, saved and sent in this order, and whatever the request worker
      sends is stored (ExecutorRuns.v).
    - Replay: the search returns a least-cost route whatever its memory held, an
      event is charged the least of the direct cost and the routes (ReplaySearch.v,
      ReplayCoordinator.v), a decision is restored exactly as it was taken, and a
      run interrupted anywhere resumes to the result of one that was not
      (ReplayRepository.v); a trace is prepared exactly from its readable rows
      (ReplayTrace.v, ReplayHeight.v), and replayed to its end once the preflight
      accepts it (ReplayPreflight.v).
    - Defects: the unique log of request transitions refuses the second retry
      of a request (Store.v, [repeated_transition_refused]); a request that is
      already planned cannot be resumed once the home chain has a new head
      (ExecutorRuns.v, [resume_needs_its_snapshot]); a dependency of a chain on
      itself would make the TrustView fail (Node.v, [poisoned_view]); the
      preflight of a replay does not see the sums that the search computes
      (ReplayTraceScenario.v, [preflight_misses_search]).

    ** Not modelled

    Network I/O (HTTP server, libp2p gossip; an RPC client is an interface that
    may answer anything), the command line, configuration files and the
    deployment tools, opening and closing the application; the migration
    runner and failures of the SQL driver; nil receivers and missing
    dependencies, which constructors of the program exclude; polling loops,
    timers, goroutines and mutexes (a section under a mutex is one
    transaction).  Signatures, the serialisation of transactions, ABI packing,
    SHA-256, peer identifiers and hexadecimal parsing belong to libraries and
    are parameters.  Of the replay, the reading of CSV and YAML, time and float
    parsing and JSON are parameters, and the export, golden files and
    fingerprints are left out. *)

From stdpp Require Export prelude strings gmap vector countable sorting.
From Stdlib Require Export ZArith Lia.
From Stdlib Require Import Strings.Byte.

#[global] Open Scope Z_scope.

(** ** Results of fallible Go code

    A Go function returning [(T, error)] is a [res E T]: [Err e] when the
    error is non-nil (the other results are then the zero values the source
    returns beside the error), [Ok v] otherwise. *)

Inductive res (E A : Type) : Type :=
| Ok (a : A)
| Err (e : E).
Arguments Ok {E A} a.
Arguments Err {E A} e.

Definition res_bind {E A B} (k : A → res E B) (m : res E A) : res E B :=
  match m with Ok a => k a | Err e => Err e end.

Definition map_err {E F A} (f : E → F) (m : res E A) : res F A :=
  match m with Ok a => Ok a | Err e => Err (f e) end.

Definition is_ok {E A} (m : res E A) : bool :=
  match m with Ok _ => true | Err _ => false end.

#[export] Instance res_mret E : MRet (res E) := λ A a, Ok a.
#[export] Instance res_mbind E : MBind (res E) := λ A B k m, res_bind k m.

#[export] Instance res_eq_dec `{EqDecision E, EqDecision A} : EqDecision (res E A).
Proof. solve_decision. Defined.

Lemma bind_Ok {E A B} (m : res E A) (k : A → res E B) b :
  m ≫= k = Ok b ↔ ∃ a, m = Ok a ∧ k a = Ok b.
Proof. destruct m; cbn; naive_solver. Qed.

Lemma Ok_inj {E A} (a b : A) : @Ok E A a = Ok b → a = b.
Proof. by intros [= ->]. Qed.

Lemma map_err_Ok {E F A} (f : E → F) (m : res E A) a :
  map_err f m = Ok a ↔ m = Ok a.
Proof. destruct m; cbn; naive_solver. Qed.

Lemma bind_bool {E A} (b : bool) (e : E) (m : res E A) a :
  (if b then Err e else m) = Ok a → b = false ∧ m = Ok a.
Proof. by destruct b. Qed.

(** ** Machine integers *)

Definition MaxUint64 : Z := 18446744073709551615.
Definition MaxUint32 : Z := 4294967295.
Definition MaxInt64 : Z := 9223372036854775807.

(** [wrap64] is the value of an unsigned 64-bit operation whose mathematical
    result is its argument. *)
Definition wrap64 (z : Z) : Z := z mod 2 ^ 64.

(** The conversion [uint32(z)]. *)
Definition wrap32 (z : Z) : Z := z mod 2 ^ 32.

Definition u64 (z : Z) : Prop := 0 ≤ z ≤ MaxUint64.
Definition u32 (z : Z) : Prop := 0 ≤ z ≤ MaxUint32.
Definition u8 (z : Z) : Prop := 0 ≤ z ≤ 255.

#[export] Instance u64_dec z : Decision (u64 z).
Proof. unfold u64. apply _. Defined.

Lemma wrap64_small z : u64 z → wrap64 z = z.
Proof. unfold u64, wrap64, MaxUint64. intros. apply Z.mod_small. lia. Qed.

Lemma wrap64_range z : u64 (wrap64 z).
Proof.
  unfold u64, wrap64, MaxUint64.
  pose proof (Z.mod_pos_bound z (2 ^ 64)). lia.
Qed.

(** [len x] in Go is an [int]; it is non-negative and far below [2^63]. *)
Definition zlen {A} (l : list A) : Z := Z.of_nat (length l).

Lemma zlen_nonneg {A} (l : list A) : 0 ≤ zlen l.
Proof. unfold zlen. lia. Qed.

Lemma zlen_app {A} (l k : list A) : zlen (l ++ k) = zlen l + zlen k.
Proof. unfold zlen. rewrite length_app. lia. Qed.

Lemma zlen_nil_iff {A} (l : list A) : zlen l = 0 ↔ l = [].
Proof. unfold zlen. destruct l; cbn; split; intros; [done|done|lia|done]. Qed.

(** ** Bytes, byte slices and fixed-size arrays *)

Abbreviation byte := Corelib.Init.Byte.byte.
Abbreviation bytes := (list byte).

#[export] Instance byte_eq_dec : EqDecision byte := Byte.byte_eq_dec.
#[export] Program Instance byte_countable : Countable byte :=
  inj_countable Byte.to_N Byte.of_N _.
Next Obligation. intros b. apply Byte.of_to_N. Qed.

(** A Go [[n]byte] array is a vector; the comparison [==] of Go arrays is
    equality of vectors. *)
Abbreviation bytes32 := (vec byte 32).
Abbreviation address := (vec byte 20).

Definition byte_val (b : byte) : Z := Z.of_N (Byte.to_N b).

(** [byte(v)]: the conversion keeps the low eight bits. *)
Definition byte_of_Z (z : Z) : byte :=
  default x00 (Byte.of_N (Z.to_N (z mod 256))).

(** The zero value of a [[n]byte] array. *)
Definition zero_array (n : nat) : vec byte n := vreplicate n x00.
Definition zero32 : bytes32 := zero_array 32.
Definition zero_address : address := zero_array 20.

Arguments zero_array : simpl never.
Arguments zero32 : simpl never.
Arguments zero_address : simpl never.

(** Big-endian encoding of the low [8 * n] bits of [z] into an array
    ([binary.BigEndian.PutUint64] for [n = 8], [big.Int.FillBytes] for the
    values that fit). *)
Fixpoint be_vec (n : nat) (z : Z) : vec byte n :=
  match n with
  | O => [#]
  | S m => byte_of_Z (z / 256 ^ Z.of_nat m) ::: be_vec m z
  end.

Definition be_bytes (n : nat) (z : Z) : bytes := vec_to_list (be_vec n z).

(** [new(big.Int).SetBytes(b)]: the big-endian value of a byte slice. *)
Definition be_value (l : bytes) : Z :=
  foldl (λ acc b, acc * 256 + byte_val b) 0 l.

(** [bytes.Compare] restricted to its sign: lexicographic order. *)
Fixpoint bytes_compare (l k : bytes) : comparison :=
  match l, k with
  | [], [] => Eq
  | [], _ :: _ => Lt
  | _ :: _, [] => Gt
  | a :: l', b :: k' =>
      match byte_val a ?= byte_val b with
      | Eq => bytes_compare l' k'
      | c => c
      end
  end.

(** [[]byte(s)] for a Go string. *)
Definition bytes_of_string (s : string) : bytes := String.list_byte_of_string s.

(** [appendLengthPrefixed]/[binary.BigEndian.PutUint32(uint32(len))]: the
    32-bit length prefix wraps for slices of four gigabytes or more. *)
Definition length_prefixed (value : bytes) : bytes :=
  be_bytes 4 (zlen value) ++ value.

(** ** Lemmas on bytes *)

Lemma byte_val_range b : 0 ≤ byte_val b < 256.
Proof.
  unfold byte_val. pose proof (Byte.to_N_bounded b). lia.
Qed.

Lemma byte_of_Z_val b : byte_of_Z (byte_val b) = b.
Proof.
  unfold byte_of_Z, byte_val.
  rewrite Z.mod_small by (pose proof (byte_val_range b); unfold byte_val in *; lia).
  by rewrite N2Z.id, Byte.of_to_N.
Qed.

Lemma byte_val_of_Z z : byte_val (byte_of_Z z) = z mod 256.
Proof.
  unfold byte_of_Z, byte_val.
  pose proof (Z.mod_pos_bound z 256 ltac:(lia)) as Hb.
  destruct (Byte.of_N _) eqn:E; cbn.
  - apply Byte.to_of_N in E. rewrite E. lia.
  - apply Byte.of_N_None_iff in E. lia.
Qed.

#[export] Instance byte_val_inj : Inj (=) (=) byte_val.
Proof. intros x y H. by rewrite <-(byte_of_Z_val x), <-(byte_of_Z_val y), H. Qed.

Lemma length_be_bytes n z : length (be_bytes n z) = n.
Proof. apply length_vec_to_list. Qed.

Lemma be_value_app l k :
  be_value (l ++ k) = be_value l * 256 ^ zlen k + be_value k.
Proof.
  unfold be_value, zlen. rewrite foldl_app.
  generalize (foldl (λ acc b, acc * 256 + byte_val b) 0 l) as a.
  induction k as [|b k IH] using rev_ind; intros a; cbn.
  - lia.
  - rewrite !foldl_app, IH, length_app, Nat2Z.inj_add, Z.pow_add_r by lia. cbn. lia.
Qed.

Lemma be_value_cons b k : be_value (b :: k) = byte_val b * 256 ^ zlen k + be_value k.
Proof.
  change (b :: k) with ([b] ++ k). by rewrite be_value_app.
Qed.

Lemma be_value_range l : 0 ≤ be_value l < 256 ^ zlen l.
Proof.
  induction l as [|b l IH]; [done|].
  rewrite be_value_cons. pose proof (byte_val_range b).
  change (b :: l) with ([b] ++ l). rewrite zlen_app, Z.pow_add_r by (unfold zlen; lia).
  change (256 ^ zlen [b]) with 256. nia.
Qed.

Lemma be_value_be_bytes n z : be_value (be_bytes n z) = z mod 256 ^ Z.of_nat n.
Proof.
  induction n as [|n IH].
  { cbn. by rewrite Z.mod_1_r. }
  unfold be_bytes in *. cbn [be_vec].
  rewrite vec_to_list_cons, be_value_cons, IH, byte_val_of_Z.
  unfold zlen. rewrite length_vec_to_list.
  rewrite Nat2Z.inj_succ, Z.pow_succ_r by lia.
  rewrite (Z.mul_comm 256), Z.rem_mul_r by lia. lia.
Qed.

Lemma be_vec_value n (v : vec byte n) : be_vec n (be_value v) = v.
Proof.
  induction v as [|b n v IH]; [done|]. cbn [be_vec].
  rewrite vec_to_list_cons, be_value_cons. unfold zlen. rewrite length_vec_to_list.
  pose proof (be_value_range v) as Hr. unfold zlen in Hr. rewrite length_vec_to_list in Hr.
  f_equal.
  - rewrite Z.div_add_l, Z.div_small, Z.add_0_r by lia. apply byte_of_Z_val.
  - apply vec_to_list_inj2.
    rewrite <-IH at 2. clear IH. revert Hr. generalize (be_value v) as z.
    intros z Hz. clear v. change (vec_to_list (be_vec n ?x)) with (be_bytes n x).
    assert (∀ m z k, (m ≤ n)%nat → be_vec m (k * 256 ^ Z.of_nat n + z) = be_vec m z) as Hm.
    { induction m as [|m IHm]; intros z' k Hle; [done|]. cbn [be_vec].
      rewrite IHm by lia. f_equal. unfold byte_of_Z. do 3 f_equal.
      replace (Z.of_nat n) with (Z.of_nat m + (1 + (Z.of_nat n - Z.of_nat m - 1))) by lia.
      rewrite !Z.pow_add_r by lia.
      replace (k * (256 ^ Z.of_nat m * (256 ^ 1 * 256 ^ (Z.of_nat n - Z.of_nat m - 1))) + z')
        with ((k * 256 ^ (Z.of_nat n - Z.of_nat m - 1) * 256) * 256 ^ Z.of_nat m + z') by ring.
      rewrite Z.div_add_l by lia. by rewrite Z.add_comm, Z_mod_plus_full. }
    unfold be_bytes. by rewrite Hm.
Qed.

(** Arrays as map keys: the key is the big-endian value. *)
#[export] Program Instance array_countable n : Countable (vec byte n) := {
  encode v := Z.to_pos (be_value v + 1);
  decode p := Some (be_vec n (Z.pos p - 1))
}.
Next Obligation.
  intros n v. cbn. pose proof (be_value_range v).
  rewrite Z2Pos.id, Z.add_simpl_r by lia. by rewrite be_vec_value.
Qed.

Lemma be_bytes_inj n z z' :
  0 ≤ z < 256 ^ Z.of_nat n → 0 ≤ z' < 256 ^ Z.of_nat n →
  be_bytes n z = be_bytes n z' → z = z'.
Proof.
  intros Hz Hz' H%(f_equal be_value).
  rewrite !be_value_be_bytes, !Z.mod_small in H; lia.
Qed.

Lemma be_value_vec_inj n (v w : vec byte n) :
  be_value (vec_to_list v) = be_value (vec_to_list w) → v = w.
Proof. intros H. by rewrite <-(be_vec_value _ v), <-(be_vec_value _ w), H. Qed.

Lemma be_vec_list n (l : bytes) : length l = n → vec_to_list (be_vec n (be_value l)) = l.
Proof.
  intros <-. pose proof (be_vec_value _ (list_to_vec l)) as H.
  rewrite vec_to_list_to_vec in H. by rewrite H, vec_to_list_to_vec.
Qed.

Lemma be_vec_0 n : be_vec n 0 = zero_array n.
Proof. induction n as [|n IH]; [done|]. cbn. by rewrite IH, Zdiv_0_l. Qed.

Arguments be_vec : simpl never.
Arguments be_bytes : simpl never.
Arguments be_value : simpl never.
Arguments length_prefixed : simpl never.

(** ** [bytes.Compare] is a total order *)

Lemma bytes_compare_refl l : bytes_compare l l = Eq.
Proof. induction l as [|b l IH]; cbn; [done|]. by rewrite Z.compare_refl. Qed.

Lemma bytes_compare_eq l k : bytes_compare l k = Eq ↔ l = k.
Proof.
  split; [|intros ->; apply bytes_compare_refl].
  revert k. induction l as [|a l IH]; intros [|b k]; cbn; try done.
  destruct (Z.compare_spec (byte_val a) (byte_val b)) as [He| |]; try done.
  intros H%IH. apply byte_val_inj in He. congruence.
Qed.

Lemma bytes_compare_antisym l k : bytes_compare k l = CompOpp (bytes_compare l k).
Proof.
  revert k. induction l as [|a l IH]; intros [|b k]; cbn; try done.
  rewrite (Z.compare_antisym (byte_val a)).
  destruct (byte_val a ?= byte_val b); cbn; auto.
Qed.

Lemma bytes_compare_lt_trans l k m :
  bytes_compare l k = Lt → bytes_compare k m = Lt → bytes_compare l m = Lt.
Proof.
  revert k m. induction l as [|a l IH]; intros [|b k] [|c m]; cbn; try done.
  destruct (Z.compare_spec (byte_val a) (byte_val b));
    destruct (Z.compare_spec (byte_val b) (byte_val c)); try done;
    destruct (Z.compare_spec (byte_val a) (byte_val c)); try done; try lia.
  eauto.
Qed.

(** ** Tactics of the development *)

(** Invert a hypothesis stating that guarded, sequenced code returned [Ok]. *)
Ltac res_cases H :=
  repeat lazymatch type of H with
  | Ok _ = Ok _ => injection H as H
  | Err _ = Ok _ => discriminate H
  | Ok _ = Err _ => discriminate H
  | Err _ = Err _ => injection H as H
  | mbind _ _ = Ok _ => apply bind_Ok in H as (? & ? & H)
  | map_err _ _ = Ok _ => apply map_err_Ok in H
  | context [if ?b then _ else _] => destruct b eqn:?
  | context [match ?x with _ => _ end] => destruct x eqn:?
  end.

(** Split an equality of concatenations whose pieces have known lengths. *)
Ltac length_tac :=
  by rewrite ?length_vec_to_list, ?length_be_bytes, ?length_app.

Ltac split_apps H :=
  repeat (apply app_inj_1 in H as [? H]; [|length_tac]).

(** Turn boolean tests of the code into propositions. *)
Ltac bool_to_prop :=
  repeat match goal with
  | H : bool_decide _ = true |- _ => apply bool_decide_eq_true_1 in H
  | H : bool_decide _ = false |- _ => apply bool_decide_eq_false_1 in H
  | H : (_ || _) = false |- _ => apply orb_false_iff in H as [? ?]
  | H : (_ && _) = true |- _ => apply andb_true_iff in H as [? ?]
  | H : negb _ = false |- _ => apply negb_false_iff in H
  | H : negb _ = true |- _ => apply negb_true_iff in H
  | H : (_ <? _) = true |- _ => apply Z.ltb_lt in H
  | H : (_ <? _) = false |- _ => apply Z.ltb_ge in H
  | H : (_ <=? _) = true |- _ => apply Z.leb_le in H
  | H : (_ <=? _) = false |- _ => apply Z.leb_gt in H
  | H : (_ =? _) = true |- _ => apply Z.eqb_eq in H
  | H : (_ =? _) = false |- _ => apply Z.eqb_neq in H
  end.

(** Hints: the range and length facts that close the side conditions. *)
Create HintDb trustmap.
Create Rewrite HintDb trustmap.
#[export] Hint Resolve byte_val_range be_value_range wrap64_range zlen_nonneg
  bytes_compare_refl length_be_bytes : trustmap.
#[export] Hint Rewrite length_be_bytes @length_vec_to_list @length_app
  be_value_be_bytes be_vec_value bytes_compare_refl : trustmap.

(** ** Equality tests of the source

    Go's [==] on arrays, strings and structs of them. *)
Notation "x =?= y" := (bool_decide (x = y)) (at level 70, no associativity).
Notation "x ≠?= y" := (negb (bool_decide (x = y))) (at level 70, no associativity).

(** ** Length-prefixed encodings are prefix-free *)

Lemma length_prefixed_inj v w r s :
  zlen v < 2 ^ 32 → zlen w < 2 ^ 32 →
  length_prefixed v ++ r = length_prefixed w ++ s → v = w ∧ r = s.
Proof.
  unfold length_prefixed. intros Hv Hw H. rewrite <-!(assoc_L (++)) in H.
  apply app_inj_1 in H as [He H]; [|length_tac].
  apply be_bytes_inj in He; [|unfold zlen in *; cbn; lia..].
  apply app_inj_1 in H; [done|]. unfold zlen in He. lia.
Qed.

(** Concatenations of equally many arrays of one size. *)
Lemma mjoin_vec_inj {n} (l k : list (vec byte n)) r s :
  length l = length k →
  mjoin (vec_to_list <$> l) ++ r = mjoin (vec_to_list <$> k) ++ s → l = k ∧ r = s.
Proof.
  revert k. induction l as [|v l IH]; intros [|w k] Hlen H; try done.
  cbn in Hlen, H. rewrite <-!(assoc_L (++)) in H.
  apply app_inj_1 in H as [Hv H]; [|length_tac]. apply vec_to_list_inj2 in Hv.
  destruct (IH k ltac:(lia) H). by subst.
Qed.

Lemma bytes_of_string_inj s t : bytes_of_string s = bytes_of_string t → s = t.
Proof.
  unfold bytes_of_string. intros H.
  by rewrite <-(String.string_of_list_byte_of_string s), H,
    String.string_of_list_byte_of_string.
Qed.

(** ** Sorting by an identifier

    [sort.Slice(s, func(i, j) { bytes.Compare(key(s[i]), key(s[j])) < 0 })]:
    the slices the program sorts have pairwise distinct identifiers, for which
    every sorting algorithm returns the same slice ([sorted_by_unique]). *)

Definition key_lt {A} (key : A → bytes) (a b : A) : Prop :=
  bytes_compare (key a) (key b) = Lt.

Definition key_le {A} (key : A → bytes) (a b : A) : Prop :=
  bytes_compare (key a) (key b) ≠ Gt.

#[export] Instance key_le_dec {A} (key : A → bytes) a b : Decision (key_le key a b).
Proof. unfold key_le. apply _. Defined.

Definition sort_by {A} (key : A → bytes) (l : list A) : list A :=
  merge_sort (key_le key) l.

#[export] Instance key_lt_trans {A} (key : A → bytes) : Transitive (key_lt key).
Proof. intros x y z. apply bytes_compare_lt_trans. Qed.

#[export] Instance key_lt_antisymm {A} (key : A → bytes) : AntiSymm (=) (key_lt key).
Proof.
  intros x y Hxy Hyx. unfold key_lt in *. rewrite bytes_compare_antisym, Hxy in Hyx. done.
Qed.

#[export] Instance key_le_total {A} (key : A → bytes) : Total (key_le key).
Proof.
  intros x y. unfold key_le. rewrite (bytes_compare_antisym (key x) (key y)).
  destruct (bytes_compare (key x) (key y)); cbn; auto.
Qed.

#[export] Instance key_le_trans {A} (key : A → bytes) : Transitive (key_le key).
Proof.
  intros x y z. unfold key_le. intros Hxy Hyz.
  destruct (bytes_compare (key x) (key y)) eqn:Exy; [|clear Hxy|done].
  - apply bytes_compare_eq in Exy. by rewrite Exy.
  - destruct (bytes_compare (key y) (key z)) eqn:Eyz; [|clear Hyz|done].
    + apply bytes_compare_eq in Eyz. by rewrite <-Eyz, Exy.
    + by rewrite (bytes_compare_lt_trans _ _ _ Exy Eyz).
Qed.

Lemma sort_by_perm {A} (key : A → bytes) l : sort_by key l ≡ₚ l.
Proof. apply merge_sort_Permutation. Qed.

Lemma key_lt_le_distinct {A} (key : A → bytes) l :
  NoDup (key <$> l) → StronglySorted (key_le key) l → StronglySorted (key_lt key) l.
Proof.
  induction l as [|a l IH]; cbn; intros Hd Hs; [constructor|].
  apply NoDup_cons in Hd as [Hna Hd]. apply StronglySorted_inv in Hs as [Hs Ha].
  constructor; [by auto|]. apply Forall_forall. intros b Hb.
  rewrite Forall_forall in Ha. specialize (Ha b Hb). unfold key_le, key_lt in *.
  destruct (bytes_compare (key a) (key b)) eqn:E; [|done|done].
  apply bytes_compare_eq in E. destruct Hna. rewrite E. by apply list_elem_of_fmap_2.
Qed.

Lemma sort_by_sorted {A} (key : A → bytes) l :
  NoDup (key <$> l) → StronglySorted (key_lt key) (sort_by key l).
Proof.
  intros Hd. apply key_lt_le_distinct; [|apply StronglySorted_merge_sort; apply _].
  by rewrite sort_by_perm.
Qed.

Lemma key_lt_sorted_NoDup {A} (key : A → bytes) l :
  StronglySorted (key_lt key) l → NoDup l.
Proof.
  induction 1 as [|a l Hs IH Ha]; constructor; [|done].
  intros Hin. rewrite Forall_forall in Ha. specialize (Ha a Hin).
  unfold key_lt in Ha. by rewrite bytes_compare_refl in Ha.
Qed.

Lemma sorted_by_unique {A} (key : A → bytes) l k :
  StronglySorted (key_lt key) l → StronglySorted (key_lt key) k →
  (∀ a, a ∈ l ↔ a ∈ k) → l = k.
Proof.
  intros Hl Hk He. eapply StronglySorted_unique; [apply _|done|done|].
  apply NoDup_Permutation; eauto using key_lt_sorted_NoDup.
Qed.

Lemma Forall_snoc {A} {P : A → Prop} {l : list A} {a} :
  Forall P l → P a → Forall P (l ++ [a]).
Proof. intros Hl Ha. apply Forall_app. by rewrite Forall_singleton. Qed.

(** ** Maps filled from a slice, keyed by an identifier of the element *)

Lemma NoDup_keys_filter {A K} (key : A → K) (f : A → bool) l :
  NoDup (key <$> l) → NoDup (key <$> List.filter f l).
Proof.
  induction l as [|a l IH]; cbn; [done|]. intros [Hn Hd]%NoDup_cons.
  destruct (f a); [|by apply IH]. apply NoDup_cons. split; [|by apply IH].
  intros (b & Hb & [Hin _]%list_elem_of_In%filter_In)%list_elem_of_fmap. apply Hn. rewrite Hb.
  by apply list_elem_of_fmap_2, list_elem_of_In.
Qed.

Lemma NoDup_array_keys {A n} (key : A → vec byte n) l :
  NoDup (key <$> l) → NoDup ((λ a, vec_to_list (key a)) <$> l).
Proof.
  induction l as [|a l IH]; cbn; [constructor|]. intros [Hn Hd]%NoDup_cons.
  apply NoDup_cons. split; [|by apply IH].
  intros (b & Hb%vec_to_list_inj2 & Hin)%list_elem_of_fmap. apply Hn. rewrite Hb.
  by apply list_elem_of_fmap_2.
Qed.

Section Keyed.
Context {K A : Type} `{Countable K} (key : A → K).

(** [m] holds exactly the elements of [l], each under its key; it exists
    only when elements with the same key are equal. *)
Definition indexes (m : gmap K A) (l : list A) : Prop :=
  ∀ i a, m !! i = Some a ↔ a ∈ l ∧ key a = i.

Definition map_values (m : gmap K A) : list A := (map_to_list m).*2.

Lemma indexes_empty : indexes ∅ [].
Proof. intros i a. rewrite lookup_empty, elem_of_nil. naive_solver. Qed.

Lemma indexes_functional m l a b :
  indexes m l → a ∈ l → b ∈ l → key a = key b → a = b.
Proof.
  intros Hm Ha Hb He. assert (m !! key a = Some a) by (by apply Hm).
  assert (m !! key a = Some b) by (by apply Hm). congruence.
Qed.

Lemma indexes_insert m l a :
  indexes m l → m !! key a = None → indexes (<[key a := a]> m) (l ++ [a]).
Proof.
  intros Hm Hn i b. rewrite elem_of_app, list_elem_of_singleton.
  destruct (decide (key a = i)) as [<-|Hne].
  - rewrite lookup_insert_eq. split; [naive_solver|].
    intros [[Hb| ->] He]; [|done]. assert (m !! key a = Some b) by (by apply Hm).
    congruence.
  - rewrite lookup_insert_ne by done. rewrite (Hm i b). naive_solver.
Qed.

Lemma indexes_again m l a :
  indexes m l → m !! key a = Some a → indexes m (l ++ [a]).
Proof.
  intros Hm Hs i b. rewrite elem_of_app, list_elem_of_singleton, (Hm i b).
  apply Hm in Hs. naive_solver.
Qed.

Lemma indexes_conflict m l a b rest m' :
  indexes m l → m !! key a = Some b → a ≠ b → ¬ indexes m' (l ++ a :: rest).
Proof.
  intros Hm Hb%Hm Hne Hm'. apply Hne.
  eapply (indexes_functional m'); [done|set_solver|set_solver|naive_solver].
Qed.

Lemma indexes_exists l :
  (∀ a b, a ∈ l → b ∈ l → key a = key b → a = b) → ∃ m, indexes m l.
Proof.
  induction l as [|a l IH] using rev_ind; intros Hf; [exists ∅; apply indexes_empty|].
  destruct IH as [m Hm]; [set_solver|].
  destruct (m !! key a) as [b|] eqn:Hb; [|eauto using indexes_insert].
  exists m. apply indexes_again; [done|]. apply Hm in Hb as Hin.
  rewrite Hb. f_equal. apply Hf; [set_solver|set_solver|naive_solver].
Qed.

Lemma elem_of_map_values m l a : indexes m l → a ∈ map_values m ↔ a ∈ l.
Proof.
  intros Hm. unfold map_values. rewrite list_elem_of_fmap. split.
  - intros ([i b] & -> & Hin). apply elem_of_map_to_list, Hm in Hin. naive_solver.
  - intros Ha. exists (key a, a). split; [done|].
    apply elem_of_map_to_list, Hm. naive_solver.
Qed.

Lemma indexes_values m :
  (∀ i a, m !! i = Some a → key a = i) → indexes m (map_values m).
Proof.
  intros Hk i a. unfold map_values. rewrite list_elem_of_fmap. split.
  - intros Ha. split; [|by apply Hk]. exists (i, a). by rewrite elem_of_map_to_list.
  - intros [([j b] & -> & Hin%elem_of_map_to_list) <-]. by rewrite <-(Hk _ _ Hin) in Hin.
Qed.

Lemma map_values_keys m l : indexes m l → NoDup (key <$> map_values m).
Proof.
  intros Hm. unfold map_values.
  assert (key <$> (map_to_list m).*2 = (map_to_list m).*1) as ->.
  - rewrite <-list_fmap_compose. apply list_fmap_ext. intros j [i a] Hin.
    apply list_elem_of_lookup_2, elem_of_map_to_list, Hm in Hin. cbn. naive_solver.
  - apply NoDup_fst_map_to_list.
Qed.
End Keyed.

(** ** Blank strings

    [strings.TrimSpace(s) == ""]: the string is a sequence of UTF-8 encodings
    of the code points with the Unicode property White_Space (U+0009 to
    U+000D, U+0020, U+0085, U+00A0, U+1680, U+2000 to U+200A, U+2028, U+2029,
    U+202F, U+205F and U+3000). *)

Fixpoint blank_bytes (l : bytes) : bool :=
  match l with
  | [] => true
  | (x09 | x0a | x0b | x0c | x0d | x20) :: r => blank_bytes r
  | xc2 :: (x85 | xa0) :: r => blank_bytes r
  | xe1 :: x9a :: x80 :: r => blank_bytes r
  | xe2 :: x80 :: (x80 | x81 | x82 | x83 | x84 | x85 | x86 | x87 | x88 | x89 | x8a
                   | xa8 | xa9 | xaf) :: r => blank_bytes r
  | xe2 :: x81 :: x9f :: r => blank_bytes r
  | xe3 :: x80 :: x80 :: r => blank_bytes r
  | _ => false
  end.

Definition blank (s : string) : bool := blank_bytes (bytes_of_string s).

(** ** Computations with state, errors and a trace

    A method with a receiver or a database, calls that may fail, and effects
    whose order matters: from a state to a result, the state left behind and
    the effects recorded on the way, the oldest first. *)

Definition M (S Ev F A : Type) : Type := S → res F A * S * list Ev.

Section Traced.
Context {S Ev : Type}.

Definition M_ret {F A} (a : A) : M S Ev F A := λ s, (Ok a, s, []).
Definition M_fail {F A} (e : F) : M S Ev F A := λ s, (Err e, s, []).
Definition M_bind {F A B} (m : M S Ev F A) (k : A → M S Ev F B) : M S Ev F B :=
  λ s, match m s with
       | (Ok a, s', log) => let '(r, s'', log') := k a s' in (r, s'', log ++ log')
       | (Err e, s', log) => (Err e, s', log)
       end.

(** [if err != nil { return handle(err) }]. *)
Definition M_catch {F G A} (m : M S Ev F A) (handle : F → M S Ev G A) : M S Ev G A :=
  λ s, match m s with
       | (Ok a, s', log) => (Ok a, s', log)
       | (Err e, s', log) => let '(r, s'', log') := handle e s' in (r, s'', log ++ log')
       end.

Definition M_lift {F A} (r : res F A) : M S Ev F A := λ s, (r, s, []).

(** An operation that leaves no record, and one that is recorded. *)
Definition M_call {F A} (op : S → res F A * S) : M S Ev F A :=
  λ s, let '(r, s') := op s in (r, s', []).
Definition M_record {F A} (ev : Ev) (op : S → res F A * S) : M S Ev F A :=
  λ s, let '(r, s') := op s in (r, s', [ev]).

(** Whatever the state, the result and the record satisfy [Q]. *)
Definition emits {F A} (m : M S Ev F A) (Q : res F A → list Ev → Prop) : Prop :=
  ∀ s, Q (m s).1.1 (m s).2.

End Traced.

#[export] Instance M_mbind S Ev F : MBind (M S Ev F) := λ A B k m, M_bind m k.

Section TracedLemmas.
Context {S Ev F : Type}.

Lemma emits_ret {A} (a : A) (Q : res F A → list Ev → Prop) :
  Q (Ok a) [] → emits (M_ret a : M S Ev F A) Q.
Proof. by intros H s. Qed.

Lemma emits_fail {A} (e : F) (Q : res F A → list Ev → Prop) :
  Q (Err e) [] → emits (M_fail e : M S Ev F A) Q.
Proof. by intros H s. Qed.

Lemma emits_lift {A} (r : res F A) (Q : res F A → list Ev → Prop) :
  Q r [] → emits (M_lift r : M S Ev F A) Q.
Proof. by intros H s. Qed.

Lemma emits_call {A} (op : S → res F A * S) (Q : res F A → list Ev → Prop) :
  (∀ s, Q (op s).1 []) → emits (M_call op) Q.
Proof. intros H s. unfold M_call. specialize (H s). by destruct (op s). Qed.

Lemma emits_record {A} ev (op : S → res F A * S) (Q : res F A → list Ev → Prop) :
  (∀ r, Q r [ev]) → emits (M_record ev op) Q.
Proof. intros H s. unfold M_record. by destruct (op s). Qed.

Lemma emits_weaken {A} (m : M S Ev F A) (P Q : res F A → list Ev → Prop) :
  emits m P → (∀ r log, P r log → Q r log) → emits m Q.
Proof. intros Hm HPQ s. apply HPQ, Hm. Qed.

Lemma emits_bind {A B} (m : M S Ev F A) (k : A → M S Ev F B)
    (P : res F A → list Ev → Prop) (Q : res F B → list Ev → Prop) :
  emits m P → (∀ e log, P (Err e) log → Q (Err e) log) →
  (∀ a log, P (Ok a) log → emits (k a) (λ r log', Q r (log ++ log'))) →
  emits (m ≫= k) Q.
Proof.
  intros Hm He Hk s. specialize (Hm s). unfold mbind, M_mbind, M_bind.
  destruct (m s) as [[[a|e] s'] log]; cbn in *; [|by apply He].
  specialize (Hk a log Hm s'). by destruct (k a s') as [[r s''] log'].
Qed.

Lemma emits_catch {G A} (m : M S Ev G A) (handle : G → M S Ev F A)
    (P : res G A → list Ev → Prop) (Q : res F A → list Ev → Prop) :
  emits m P → (∀ a log, P (Ok a) log → Q (Ok a) log) →
  (∀ e log, P (Err e) log → emits (handle e) (λ r log', Q r (log ++ log'))) →
  emits (M_catch m handle) Q.
Proof.
  intros Hm Ha Hk s. specialize (Hm s). unfold M_catch.
  destruct (m s) as [[[a|e] s'] log]; cbn in *; [by apply Ha|].
  specialize (Hk e log Hm s'). by destruct (handle e s') as [[r s''] log'].
Qed.

(** A successful run of a sequence is a successful run of each part. *)
Lemma M_bind_Ok {A B} (m : M S Ev F A) (k : A → M S Ev F B) s b s' log :
  (m ≫= k) s = (Ok b, s', log) →
  ∃ a s1 log1 log2, m s = (Ok a, s1, log1) ∧ k a s1 = (Ok b, s', log2) ∧ log = log1 ++ log2.
Proof.
  unfold mbind, M_mbind, M_bind. destruct (m s) as [[[a|e] s1] log1]; [|done].
  destruct (k a s1) as [[r s2] log2] eqn:Hk. intros [= -> -> <-]. by exists a, s1, log1, log2.
Qed.

Lemma M_lift_Ok {A} (r : res F A) s a s' (log : list Ev) :
  (M_lift r : M S Ev F A) s = (Ok a, s', log) → r = Ok a ∧ s' = s ∧ log = [].
Proof. by intros [= -> -> <-]. Qed.

Lemma M_call_Ok {A} (op : S → res F A * S) s a s' (log : list Ev) :
  M_call op s = (Ok a, s', log) → op s = (Ok a, s') ∧ log = [].
Proof. unfold M_call. destruct (op s). by intros [= -> -> <-]. Qed.

Lemma M_bind_bool {A} (b : bool) (x y : M S Ev F A) s a s' log :
  (if b then x else y) s = (Ok a, s', log) → (∀ s1 log1 s2, x s1 ≠ (Ok a, s2, log1)) →
  b = false ∧ y s = (Ok a, s', log).
Proof. destruct b; [|done]. intros H Hx. by destruct (Hx _ _ _ H). Qed.

End TracedLemmas.

(** *** What a computation does to its state

    [keeps R P m]: a run of [m] whose records satisfy [P] moves the state along
    [R], whatever its result.  [keeping] takes a sequence apart. *)
Definition keeps {S Ev F A} (R : S → S → Prop) (P : Ev → Prop) (m : M S Ev F A) : Prop :=
  ∀ s, Forall P (m s).2 → R s (m s).1.2.

Section Keeping.
Context {S Ev F : Type} (R : S → S → Prop) `{!PreOrder R} (P : Ev → Prop).

Lemma keeps_ret {A} (a : A) : keeps R P (M_ret a : M S Ev F A).
Proof. intros s _. cbn. reflexivity. Qed.

Lemma keeps_fail {A} (e : F) : keeps R P (M_fail e : M S Ev F A).
Proof. intros s _. cbn. reflexivity. Qed.

Lemma keeps_lift {A} (r : res F A) : keeps R P (M_lift r : M S Ev F A).
Proof. intros s _. cbn. reflexivity. Qed.

Lemma keeps_call {A} (op : S → res F A * S) :
  (∀ s, R s (op s).2) → keeps R P (M_call op : M S Ev F A).
Proof. intros H s _. unfold M_call. specialize (H s). by destruct (op s). Qed.

Lemma keeps_record {A} ev (op : S → res F A * S) :
  (P ev → ∀ s, R s (op s).2) → keeps R P (M_record ev op : M S Ev F A).
Proof.
  intros H s. unfold M_record. destruct (op s) as [r s'] eqn:E. cbn.
  intros [Hev _]%Forall_cons. specialize (H Hev s). by rewrite E in H.
Qed.

Lemma keeps_bind {A B} (m : M S Ev F A) (k : A → M S Ev F B) :
  keeps R P m → (∀ a, keeps R P (k a)) → keeps R P (m ≫= k).
Proof.
  intros Hm Hk s. specialize (Hm s). unfold mbind, M_mbind, M_bind.
  destruct (m s) as [[[a|e] s'] log]; cbn in *; [|done].
  specialize (Hk a s'). destruct (k a s') as [[r s''] log']; cbn in *.
  intros [H1 H2]%Forall_app. by transitivity s'; auto.
Qed.

Lemma keeps_catch {G A} (m : M S Ev G A) (handle : G → M S Ev F A) :
  keeps R P m → (∀ e, keeps R P (handle e)) → keeps R P (M_catch m handle).
Proof.
  intros Hm Hk s. specialize (Hm s). unfold M_catch.
  destruct (m s) as [[[a|e] s'] log]; cbn in *; [done|].
  specialize (Hk e s'). destruct (handle e s') as [[r s''] log']; cbn in *.
  intros [H1 H2]%Forall_app. by transitivity s'; auto.
Qed.
End Keeping.

Create HintDb keeps.

Ltac keeping :=
  repeat first
    [ progress cbn zeta
    | apply keeps_ret; exact _
    | apply keeps_fail; exact _
    | apply keeps_lift; exact _
    | solve [auto with keeps nocore]
    | apply keeps_bind; [exact _| |intros ?]
    | apply keeps_catch; [exact _| |intros ?]
    | match goal with
      | |- keeps _ _ (match ?x with _ => _ end) => destruct x
      | |- keeps _ _ (let '(_, _) := ?x in _) => destruct x
      end ].

(** A computation that records nothing. *)
Definition silent {S Ev F A} (m : M S Ev F A) : Prop := emits m (λ _ log, log = []).

Section Silence.
Context {S Ev F : Type}.

Lemma silent_bind {A B} (m : M S Ev F A) (k : A → M S Ev F B) :
  silent m → (∀ a, silent (k a)) → silent (m ≫= k).
Proof.
  intros Hm Hk. apply (emits_bind _ _ (λ _ log, log = [])); [done|done|].
  intros a log ->. exact (Hk a).
Qed.

Lemma silent_catch {G A} (m : M S Ev G A) (handle : G → M S Ev F A) :
  silent m → (∀ e, silent (handle e)) → silent (M_catch m handle).
Proof.
  intros Hm Hk. apply (emits_catch _ _ (λ _ log, log = [])); [done|done|].
  intros e log ->. exact (Hk e).
Qed.

(** After a silent part, only the rest is recorded. *)
Lemma emits_after {A B} (m : M S Ev F A) (k : A → M S Ev F B) Q :
  silent m → (∀ e, Q (Err e) []) → (∀ a, emits (k a) Q) → emits (m ≫= k) Q.
Proof.
  intros Hm He Hk. apply (emits_bind _ _ (λ _ log, log = [])); [done| |].
  - intros e log ->. apply He.
  - intros a log ->. exact (Hk a).
Qed.
End Silence.

(** ** A toy hash for closed examples

    The bytes, read as one number after a leading 1, cut into digits of 61 bits
    that are added up (the residue modulo the prime 2^61 - 1), plus one: never
    zero.  Only the witnesses evaluate it, so it is written to be cheap. *)
Fixpoint digit_sum (fuel : nat) (z : Z) : Z :=
  match fuel with
  | O => z
  | Datatypes.S k => if z <? 2 ^ 61 then z
                     else Z.land z (2 ^ 61 - 1) + digit_sum k (Z.shiftr z 61)
  end.

Definition sample_hash (l : bytes) : bytes32 :=
  be_vec 32 (1 + digit_sum (length l) (foldl (λ acc b, 256 * acc + byte_val b) 1 l)
                 mod (2 ^ 61 - 1)).

Lemma sample_hash_nonzero l : sample_hash l ≠ zero32.
Proof.
  unfold sample_hash. intros H%(f_equal (λ v : bytes32, be_value v)). revert H.
  change (vec_to_list (be_vec ?n ?z)) with (be_bytes n z). rewrite be_value_be_bytes.
  match goal with |- context [?x mod (2 ^ 61 - 1)] => pose proof (Z.mod_pos_bound x (2 ^ 61 - 1) ltac:(lia)) as Hb;
    revert Hb; generalize (x mod (2 ^ 61 - 1)) end.
  intros z Hz H. change (256 ^ Z.of_nat 32) with (2 ^ 256) in H.
  rewrite Z.mod_small in H by lia. change (be_value zero32) with 0 in H. lia.
Qed.

(** The value of a computation known to succeed. *)
Definition default_ok {E A} (default : A) (m : res E A) : A :=
  match m with Ok a => a | Err _ => default end.

Lemma default_ok_eq {E A} (d : A) (m : res E A) : is_ok m = true → m = Ok (default_ok d m).
Proof. by destruct m. Qed.
