(* ===== verification/Domain.v ===== *)
(** * internal/domain: identifiers, dependencies, witnesses and their hashes

    [ChainID], [BlockHeight], [RequestID] and [common.Hash] are [[32]byte]
    arrays in the source and [bytes32] here; a [*big.Int] argument is an
    [option Z] ([None] for the nil pointer).  The keccak-256 function of
    go-ethereum is a parameter of every definition that hashes. *)

From S2P Require Import Prelude.

Module Domain.

Abbreviation ChainID := bytes32.
Abbreviation BlockHeight := bytes32.
Abbreviation RequestID := bytes32.
Abbreviation Hash := bytes32.
Abbreviation Address := address.

Inductive error :=
| ErrZeroChainID
| ErrZeroBlockHash
| ErrEmptyWitness
| ErrNilUint256
| ErrNegativeUint256
| ErrUint256Overflow.

#[export] Instance error_eq_dec : EqDecision error.
Proof. solve_decision. Defined.

(** [big.Int.BitLen]: bit length of the absolute value. *)
Definition bit_len (z : Z) : Z := if z =? 0 then 0 else Z.log2 (Z.abs z) + 1.

Definition uint256FromUint64 (value : Z) : bytes32 :=
  zero_array 24 +++ be_vec 8 value.

Definition uint256FromBig (value : option Z) : res error bytes32 :=
  match value with
  | None => Err ErrNilUint256
  | Some v =>
      if Z.sgn v <? 0 then Err ErrNegativeUint256
      else if 256 <? bit_len v then Err ErrUint256Overflow
      else Ok (be_vec 32 v)
  end.

Definition ChainID_Validate (id : ChainID) : res error unit :=
  if id =?= zero32 then Err ErrZeroChainID else Ok tt.

Definition NewChainID (value : Z) : res error ChainID :=
  let chainID := uint256FromUint64 value in
  _ ← ChainID_Validate chainID; Ok chainID.

Definition NewChainIDFromBig (value : option Z) : res error ChainID :=
  encoded ← uint256FromBig value;
  _ ← ChainID_Validate encoded;
  Ok encoded.

Definition ChainID_BigInt (id : ChainID) : Z := be_value id.

Definition NewBlockHeight (value : Z) : res error BlockHeight :=
  Ok (uint256FromUint64 value).

Definition NewBlockHeightFromBig (value : option Z) : res error BlockHeight :=
  encoded ← uint256FromBig value; Ok encoded.

Definition BlockHeight_BigInt (height : BlockHeight) : Z := be_value height.

Record Dependency := mkDependency {
  SourceChainID : ChainID;
  SourceHeight : BlockHeight;
  SourceBlockHash : Hash;
  SourceTrustRoot : Hash
}.

#[export] Instance Dependency_eq_dec : EqDecision Dependency.
Proof. solve_decision. Defined.

Definition Dependency_Validate (dependency : Dependency) : res error unit :=
  _ ← ChainID_Validate dependency.(SourceChainID);
  if dependency.(SourceBlockHash) =?= zero32 then Err ErrZeroBlockHash else Ok tt.

Definition NewDependency (chain : ChainID) (height : BlockHeight)
    (blockHash trustRoot : Hash) : res error Dependency :=
  let dependency := mkDependency chain height blockHash trustRoot in
  _ ← Dependency_Validate dependency; Ok dependency.

(** The witness keeps its fields private; [Siblings] returns a copy, which a
    list value is. *)
Record MembershipWitness := mkWitness {
  LeafIndex : Z;
  Siblings : list Hash
}.

#[export] Instance MembershipWitness_eq_dec : EqDecision MembershipWitness.
Proof. solve_decision. Defined.

Definition MembershipWitness_Validate (witness : MembershipWitness) : res error unit :=
  if zlen witness.(Siblings) =? 0 then Err ErrEmptyWitness else Ok tt.

Definition NewMembershipWitness (leafIndex : Z) (siblings : list Hash)
    : res error MembershipWitness :=
  let witness := mkWitness leafIndex siblings in
  _ ← MembershipWitness_Validate witness; Ok witness.

Section Hashing.
Context (keccak256 : bytes → Hash).

Definition LeafHash (sourceTrustRoot sourceBlockHash : Hash) : Hash :=
  keccak256 (sourceTrustRoot ++ sourceBlockHash).

Definition DependencyKey_encoding (dependency : Dependency) : bytes :=
  dependency.(SourceChainID) ++ dependency.(SourceHeight)
    ++ dependency.(SourceBlockHash) ++ dependency.(SourceTrustRoot).

Definition DependencyKey (dependency : Dependency) : Hash :=
  keccak256 (DependencyKey_encoding dependency).
End Hashing.

(** ** Lemmas *)

Lemma bit_len_le_256 v : 0 ≤ v → bit_len v ≤ 256 ↔ v < 2 ^ 256.
Proof.
  unfold bit_len. intros Hv. destruct (Z.eqb_spec v 0) as [->|Hne]; [lia|].
  rewrite Z.abs_eq by lia. rewrite Z.log2_lt_pow2 by lia. lia.
Qed.

Lemma uint256FromBig_spec v :
  uint256FromBig (Some v) =
    if v <? 0 then Err ErrNegativeUint256
    else if 2 ^ 256 <=? v then Err ErrUint256Overflow
    else Ok (be_vec 32 v).
Proof.
  cbn [uint256FromBig].
  destruct (Z.ltb_spec v 0) as [H|H]; destruct (Z.ltb_spec (Z.sgn v) 0); try lia; [done|].
  pose proof (bit_len_le_256 v H).
  destruct (Z.ltb_spec 256 (bit_len v)); destruct (Z.leb_spec (2 ^ 256) v); try done; lia.
Qed.

Lemma be_value_be_vec32 v : 0 ≤ v < 2 ^ 256 → be_value (be_vec 32 v) = v.
Proof.
  intros. change (vec_to_list (be_vec 32 v)) with (be_bytes 32 v).
  rewrite be_value_be_bytes. apply Z.mod_small.
  change (256 ^ Z.of_nat 32) with (2 ^ 256). lia.
Qed.

Lemma be_vec32_zero v : 0 ≤ v < 2 ^ 256 → be_vec 32 v = zero32 ↔ v = 0.
Proof.
  intros Hv. split.
  - intros H. rewrite <-(be_value_be_vec32 v Hv), H. done.
  - intros ->. apply be_vec_0.
Qed.

Lemma uint256FromUint64_list v :
  vec_to_list (uint256FromUint64 v) = replicate 24 Byte.x00 ++ be_bytes 8 v.
Proof. exact (vec_to_list_app (zero_array 24) (be_vec 8 v)). Qed.

Lemma uint256FromUint64_value v : u64 v → be_value (uint256FromUint64 v) = v.
Proof.
  intros Hv. rewrite uint256FromUint64_list, be_value_app.
  change (be_value (replicate 24 Byte.x00)) with 0.
  rewrite be_value_be_bytes, Z.mod_small; [lia|].
  unfold u64, MaxUint64 in Hv. change (256 ^ Z.of_nat 8) with (2 ^ 64). lia.
Qed.

Lemma uint256FromUint64_be v : u64 v → uint256FromUint64 v = be_vec 32 v.
Proof.
  intros Hv. apply be_value_vec_inj. rewrite uint256FromUint64_value by done.
  rewrite be_value_be_vec32; [done|]. unfold u64, MaxUint64 in Hv. lia.
Qed.

Lemma ChainID_Validate_ok id : ChainID_Validate id = Ok tt ↔ id ≠ zero32.
Proof. unfold ChainID_Validate. case_bool_decide; naive_solver. Qed.

(** ** Theorems *)

(** Every [*big.Int] is either turned into a chain ID whose [BigInt] is the
    same number, or rejected with the sentinel error of its defect: nil,
    negative, more than 256 bits, or zero. *)
Theorem NewChainIDFromBig_spec (value : option Z) :
  match NewChainIDFromBig value with
  | Ok id => ∃ v, value = Some v ∧ 0 < v < 2 ^ 256 ∧ ChainID_BigInt id = v
  | Err ErrNilUint256 => value = None
  | Err ErrNegativeUint256 => ∃ v, value = Some v ∧ v < 0
  | Err ErrUint256Overflow => ∃ v, value = Some v ∧ 2 ^ 256 ≤ v
  | Err ErrZeroChainID => value = Some 0
  | Err _ => False
  end.
Proof.
  unfold NewChainIDFromBig. destruct value as [v|]; [|done].
  rewrite uint256FromBig_spec.
  destruct (Z.ltb_spec v 0); [cbn; eauto|].
  destruct (Z.leb_spec (2 ^ 256) v); [cbn; eauto|].
  cbn -[be_vec]. unfold ChainID_Validate.
  pose proof (be_vec32_zero v ltac:(lia)) as Hz.
  case_bool_decide as Hd; cbn -[be_vec].
  - apply Hz in Hd. by subst.
  - exists v. unfold ChainID_BigInt. rewrite be_value_be_vec32 by lia.
    assert (v ≠ 0) by (intros ->; by apply Hd, be_vec_0). repeat split; lia.
Qed.

(** [BigInt] followed by [NewChainIDFromBig] restores every valid chain ID. *)
Theorem ChainID_roundtrip (id : ChainID) :
  id ≠ zero32 → NewChainIDFromBig (Some (ChainID_BigInt id)) = Ok id.
Proof.
  intros Hid. unfold NewChainIDFromBig, ChainID_BigInt. rewrite uint256FromBig_spec.
  pose proof (be_value_range id) as Hr. unfold zlen in Hr. rewrite length_vec_to_list in Hr.
  change (256 ^ Z.of_nat 32) with (2 ^ 256) in Hr.
  destruct (Z.ltb_spec (be_value id) 0); [lia|].
  destruct (Z.leb_spec (2 ^ 256) (be_value id)); [lia|].
  cbn -[be_vec]. rewrite be_vec_value.
  by rewrite (proj2 (ChainID_Validate_ok id) Hid).
Qed.

Lemma ChainID_roundtrip_witness :
  NewChainIDFromBig (Some (ChainID_BigInt (be_vec 32 11155111))) = Ok (be_vec 32 11155111).
Proof.
  apply (ChainID_roundtrip (be_vec 32 11155111)).
  exact (bool_decide_eq_false_1 (be_vec 32 11155111 = zero32) eq_refl).
Defined.

(** The key encoding loses nothing: dependencies with equal encodings are
    equal, so two different dependencies share a key only if keccak collides
    on their two encodings. *)
Lemma DependencyKey_encoding_inj d e :
  DependencyKey_encoding d = DependencyKey_encoding e → d = e.
Proof.
  unfold DependencyKey_encoding. intros H. split_apps H.
  destruct d, e; cbn in *. f_equal; by apply vec_to_list_inj2.
Qed.

End Domain.
