(* ===== verification/ChainABI.v ===== *)
(** * Mapnode/chainabi: Gateway events and contract calls

    gateway_events.go, gateway_calls.go, direct_proof.go.  A [types.Log] of
    go-ethereum is a record with the fields the program reads.

    The packing of call arguments ([abi.Arguments.Pack] and [Unpack] of
    go-ethereum) is a parameter of the encoders; the decoders of events and of
    call results are the program's own. *)

From S2P Require Import Prelude Domain.
Import Domain.
From Stdlib Require Import Strings.Byte.

Module ChainABI.

Record Log := mkLog {
  log_Address : Address;
  Topics : list Hash;
  Data : bytes;
  log_BlockNumber : Z;
  log_TxHash : Hash;
  log_TxIndex : Z;
  log_BlockHash : Hash;
  log_Index : Z;
  Removed : bool
}.

#[export] Instance Log_eq_dec : EqDecision Log.
Proof. solve_decision. Defined.

Definition VerificationRequestedTopic : Hash :=
  be_vec 32 0x6e4486cba7e09fd23bd6d6edc0fc893ff7f02d9266d863047e298f7b132ee71a.
Definition TrustRootUpdatedTopic : Hash :=
  be_vec 32 0xa2f90931b38050126801af291616bf523773603805893f350031b8b3cdf182a2.
Definition DependencyRecordedTopic : Hash :=
  be_vec 32 0x26fe4056692e22cb6515b58329b35b50d71b7605c18b7bcaf3bacdf8297245f5.
Definition RequestResolvedTopic : Hash :=
  be_vec 32 0x9e14f05723283ecafaae8f806553da1d3df582379f2502195bc237b3902da290.
Definition DirectVerificationSucceededTopic : Hash :=
  be_vec 32 0xf823b7a644bb08196389f4340810ad3d39e780aa8e99daf540a4622416ab28ba.
Definition PathVerificationSucceededTopic : Hash :=
  be_vec 32 0x068d0b8a6ae7f5a6b9ec3c158eb348081e3e4ce74b6d9d5294584f3bf6ec103f.

(** ** Events *)

Record VerificationSucceeded := mkSucceeded {
  vs_RequestID : RequestID;
  vs_SourceChainID : ChainID;
  vs_SourceHeight : BlockHeight;
  vs_SourceBlockHash : Hash;
  vs_SourceTrustRoot : Hash;
  vs_DependencyKey : Hash;
  vs_Path : bool;
  vs_HopCount : option Z
}.

Record VerificationRequested := mkRequested {
  vr_RequestID : RequestID;
  vr_Requester : Address;
  vr_SourceChainID : ChainID;
  vr_SourceHeight : BlockHeight;
  vr_SourceBlockHash : Hash;
  vr_RequesterNonce : bytes32
}.

Record TrustRootUpdated := mkUpdated {
  tu_RequestID : RequestID;
  tu_LeafIndex : Z;
  tu_Leaf : Hash;
  tu_OldTrustRoot : Hash;
  tu_NewTrustRoot : Hash;
  tu_IsAnchor : bool
}.

Record DependencyRecorded := mkRecorded {
  dr_DependencyKey : Hash;
  dr_RequestID : RequestID;
  dr_SourceChainID : ChainID;
  dr_SourceHeight : BlockHeight;
  dr_SourceBlockHash : Hash;
  dr_SourceTrustRoot : Hash;
  dr_LeafIndex : Z
}.

Record RequestResolved := mkResolved {
  rr_RequestID : RequestID;
  rr_Requester : Address;
  rr_DependencyKey : Hash;
  rr_NewDependency : bool;
  rr_HomeTrustRoot : Hash
}.

Inductive error :=
| ErrEventLayout
| ErrUint32Overflows
| ErrBoolNotCanonical
| ErrAddressNotCanonical
| ErrUnsupportedSuccess
| ErrHopCount
| ErrEventDomain (e : Domain.error)
| ErrResultWord
| ErrResultNotCanonical
| ErrDirectProof.

#[export] Instance error_eq_dec : EqDecision error.
Proof. solve_decision. Defined.

(** [common.BytesToHash] and [common.BytesToAddress] keep the last bytes and
    pad on the left. *)
Definition BytesToHash (b : bytes) : Hash := be_vec 32 (be_value b).
Definition BytesToAddress (b : bytes) : Address := be_vec 20 (be_value b).

Definition zero_bytes (l : bytes) : bool := forallb (λ b, b =?= x00) l.

Definition word (data : bytes) (index : nat) : bytes := take 32 (drop (index * 32) data).

Definition wordUint32 (value : bytes) : res error Z :=
  if negb (zero_bytes (take 28 value)) then Err ErrUint32Overflows
  else Ok (be_value (drop 28 value)).

Definition topicUint32 (value : Hash) : res error Z := wordUint32 value.

Definition wordBool (value : bytes) : res error bool :=
  match wordUint32 value with
  | Err _ => Err ErrBoolNotCanonical
  | Ok parsed => if 1 <? parsed then Err ErrBoolNotCanonical else Ok (parsed =? 1)
  end.

Definition topicAddress (value : Hash) : res error Address :=
  if negb (zero_bytes (take 12 value)) then Err ErrAddressNotCanonical
  else Ok (BytesToAddress (drop 12 value)).

Definition requireEvent (log : Log) (topic : Hash) (topics words : nat) : res error unit :=
  if negb (bool_decide (length log.(Topics) = topics))
     || negb (bool_decide (length log.(Data) = (words * 32)%nat))
     || negb (bool_decide (hd_error log.(Topics) = Some topic))
  then Err ErrEventLayout else Ok tt.

(** [log.Topics[i]], in range once [requireEvent] has succeeded. *)
Definition topic (log : Log) (i : nat) : Hash := default zero32 (log.(Topics) !! i).

Definition topic_chain (log : Log) (i : nat) : res error ChainID :=
  map_err ErrEventDomain (NewChainIDFromBig (Some (be_value (topic log i)))).

(** [height, _ := NewBlockHeightFromBig(...)]: a word is always in range. *)
Definition word_height (log : Log) (i : nat) : BlockHeight :=
  default_ok zero32 (NewBlockHeightFromBig (Some (be_value (word log.(Data) i)))).

Definition word_hash (log : Log) (i : nat) : Hash := BytesToHash (word log.(Data) i).

Definition ParseVerificationRequested (log : Log) : res error VerificationRequested :=
  _ ← requireEvent log VerificationRequestedTopic 4 3;
  chainID ← topic_chain log 3;
  requester ← topicAddress (topic log 2);
  Ok (mkRequested (topic log 1) requester chainID (word_height log 0) (word_hash log 1)
        (word_hash log 2)).

Definition ParseTrustRootUpdated (log : Log) : res error TrustRootUpdated :=
  _ ← requireEvent log TrustRootUpdatedTopic 3 4;
  leafIndex ← topicUint32 (topic log 2);
  isAnchor ← wordBool (word log.(Data) 3);
  Ok (mkUpdated (topic log 1) leafIndex (word_hash log 0) (word_hash log 1) (word_hash log 2)
        isAnchor).

Definition ParseDependencyRecorded (log : Log) : res error DependencyRecorded :=
  _ ← requireEvent log DependencyRecordedTopic 4 4;
  chainID ← topic_chain log 3;
  leafIndex ← wordUint32 (word log.(Data) 3);
  Ok (mkRecorded (topic log 1) (topic log 2) chainID (word_height log 0) (word_hash log 1)
        (word_hash log 2) leafIndex).

Definition ParseRequestResolved (log : Log) : res error RequestResolved :=
  _ ← requireEvent log RequestResolvedTopic 4 2;
  requester ← topicAddress (topic log 2);
  newDependency ← wordBool (word log.(Data) 0);
  Ok (mkResolved (topic log 1) requester (topic log 3) newDependency (word_hash log 1)).

Definition ParseVerificationSucceeded (log : Log) : res error VerificationSucceeded :=
  layout ← match hd_error log.(Topics) with
           | Some t =>
               if t =?= DirectVerificationSucceededTopic then Ok (t, 4%nat, false)
               else if t =?= PathVerificationSucceededTopic then Ok (t, 5%nat, true)
               else Err ErrUnsupportedSuccess
           | None => Err ErrUnsupportedSuccess
           end;
  let '(t, words, path) := layout in
  _ ← requireEvent log t 3 words;
  chainID ← topic_chain log 2;
  height ← map_err ErrEventDomain
             (NewBlockHeightFromBig (Some (be_value (word log.(Data) 0))));
  let hops := be_value (word log.(Data) 3) in
  if path && (hops =? 0) then Err ErrHopCount
  else
    Ok (mkSucceeded (topic log 1) chainID height (word_hash log 1) (word_hash log 2)
          (word_hash log (words - 1)) path (if path then Some hops else None)).

(** ** Results of contract calls *)

Definition DecodeHashResult (encoded : bytes) : res error Hash :=
  if negb (zlen encoded =? 32) then Err ErrResultWord else Ok (BytesToHash encoded).

Definition DecodeCurrentTrustRootResult (encoded : bytes) : res error Hash :=
  if negb (zlen encoded =? 32) then Err ErrResultWord else Ok (BytesToHash encoded).

Definition DecodeBoolResult (encoded : bytes) : res error bool :=
  if negb (zlen encoded =? 32) then Err ErrResultWord
  else if negb (zero_bytes (take 31 encoded)) then Err ErrResultNotCanonical
  else
    match drop 31 encoded with
    | [x00] => Ok false
    | [x01] => Ok true
    | _ => Err ErrResultNotCanonical
    end.

Definition DecodeAddressResult (encoded : bytes) : res error Address :=
  if negb (zlen encoded =? 32) then Err ErrResultWord
  else if negb (zero_bytes (take 12 encoded)) then Err ErrResultNotCanonical
  else Ok (BytesToAddress (drop 12 encoded)).

Definition DecodeUint32Result (encoded : bytes) : res error Z :=
  if negb (zlen encoded =? 32) then Err ErrResultWord
  else if negb (zero_bytes (take 28 encoded)) then Err ErrResultNotCanonical
  else Ok (be_value (drop 28 encoded)).

Definition DecodeUint256Result (encoded : bytes) : res error Z :=
  if negb (zlen encoded =? 32) then Err ErrResultWord else Ok (be_value encoded).

(** ** Calls *)

Record SolidityWitness := mkSolidityWitness {
  sw_LeafIndex : Z;
  sw_Siblings : list Hash
}.

Record PathCallProof := mkPathCall {
  pc_BaseTrustRoot : Hash;
  pc_BlockHashes : list Hash;
  pc_Witnesses : list SolidityWitness
}.

(** The argument types of the calls. *)
Inductive argument :=
| ABytes32 (value : bytes32)
| AUint256 (value : Z)
| ABytes (value : bytes)
| ABytesArray (values : list bytes)
| ABytes32Array (values : list bytes32)
| AWitnessArray (values : list SolidityWitness).

Definition selector (n : Z) : bytes := be_bytes 4 n.
Definition verifyDirectAndRecordSelector : bytes := selector 0xbb17a440.
Definition verifyPathAndRecordSelector : bytes := selector 0xf8a3c25c.
Definition attestationDigestSelector : bytes := selector 0x329757ef.
Definition requestResolvedSelector : bytes := selector 0x44632cf3.
Definition hasTrustRootUpdateAtBlockSelector : bytes := selector 0x11e9d3cd.
Definition directVerifierSelector : bytes := selector 0xd85ac10a.
Definition verifierGatewaySelector : bytes := selector 0x116191b6.
Definition authorizedSignerCountSelector : bytes := selector 0xe3a05324.
Definition authorizedSignerSelector : bytes := selector 0xa2b84460.
Definition signatureChecksSelector : bytes := selector 0xf49675b7.
Definition hashRoundsSelector : bytes := selector 0x1b3ee237.
Definition currentTrustRootSelector : bytes := selector 0x789aea64.

Definition nonNilBig (value : option Z) : Z := default 0 value.

Section Calls.
Context (pack : list argument → bytes).
Context (unpack : bytes → option (bytes32 * list bytes)).

Definition encodeCall (selector : bytes) (arguments : list argument) : bytes :=
  selector ++ pack arguments.

Definition EncodeDirectProof (sourceTrustRoot : Hash) (signatures : list bytes) : bytes :=
  pack [ABytes32 sourceTrustRoot; ABytesArray signatures].

Definition DecodeDirectProof (encoded : bytes) : res error (Hash * list bytes) :=
  match unpack encoded with Some values => Ok values | None => Err ErrDirectProof end.

Definition EncodeVerifyDirectAndRecordCall (requestID : RequestID) (proof : bytes) : bytes :=
  encodeCall verifyDirectAndRecordSelector [ABytes32 requestID; ABytes proof].

Definition EncodeVerifyPathAndRecordCall (requestID : RequestID) (proof : PathCallProof)
    : bytes :=
  encodeCall verifyPathAndRecordSelector
    [ABytes32 requestID; ABytes32 proof.(pc_BaseTrustRoot);
     ABytes32Array proof.(pc_BlockHashes); AWitnessArray proof.(pc_Witnesses)].

Definition EncodeAttestationDigestCall (sourceChainID sourceHeight : option Z)
    (sourceBlockHash sourceTrustRoot : Hash) : bytes :=
  encodeCall attestationDigestSelector
    [AUint256 (nonNilBig sourceChainID); AUint256 (nonNilBig sourceHeight);
     ABytes32 sourceBlockHash; ABytes32 sourceTrustRoot].

Definition EncodeRequestResolvedCall (requestID : RequestID) : bytes :=
  encodeCall requestResolvedSelector [ABytes32 requestID].

Definition EncodeHasTrustRootUpdateAtBlockCall (blockNumber : option Z) : bytes :=
  encodeCall hasTrustRootUpdateAtBlockSelector [AUint256 (nonNilBig blockNumber)].

Definition EncodeDirectVerifierCall : bytes := directVerifierSelector.
Definition EncodeVerifierGatewayCall : bytes := verifierGatewaySelector.
Definition EncodeAuthorizedSignerCountCall : bytes := authorizedSignerCountSelector.
Definition EncodeSignatureChecksCall : bytes := signatureChecksSelector.
Definition EncodeHashRoundsCall : bytes := hashRoundsSelector.

Definition EncodeAuthorizedSignerCall (index : option Z) : bytes :=
  encodeCall authorizedSignerSelector [AUint256 (nonNilBig index)].
End Calls.

Definition EncodeCurrentTrustRootCall : bytes := currentTrustRootSelector.

(** ** The canonical encoding of an event

    What the Gateway emits: topics and 32-byte words. *)

Definition concat_words (words : list bytes32) : bytes := mjoin (vec_to_list <$> words).

Definition address_word (a : Address) : bytes32 := be_vec 32 (be_value a).
Definition uint_word (n : Z) : bytes32 := be_vec 32 n.
Definition bool_word (b : bool) : bytes32 := be_vec 32 (if b then 1 else 0).

Definition encodes (log : Log) (topics : list Hash) (words : list bytes32) : Prop :=
  log.(Topics) = topics ∧ log.(Data) = concat_words words.

Definition requested_log (log : Log) (e : VerificationRequested) : Prop :=
  encodes log
    [VerificationRequestedTopic; e.(vr_RequestID); address_word e.(vr_Requester);
     e.(vr_SourceChainID)]
    [e.(vr_SourceHeight); e.(vr_SourceBlockHash); e.(vr_RequesterNonce)] ∧
  e.(vr_SourceChainID) ≠ zero32.

Definition updated_log (log : Log) (e : TrustRootUpdated) : Prop :=
  encodes log [TrustRootUpdatedTopic; e.(tu_RequestID); uint_word e.(tu_LeafIndex)]
    [e.(tu_Leaf); e.(tu_OldTrustRoot); e.(tu_NewTrustRoot); bool_word e.(tu_IsAnchor)] ∧
  u32 e.(tu_LeafIndex).

Definition recorded_log (log : Log) (e : DependencyRecorded) : Prop :=
  encodes log
    [DependencyRecordedTopic; e.(dr_DependencyKey); e.(dr_RequestID); e.(dr_SourceChainID)]
    [e.(dr_SourceHeight); e.(dr_SourceBlockHash); e.(dr_SourceTrustRoot);
     uint_word e.(dr_LeafIndex)] ∧
  e.(dr_SourceChainID) ≠ zero32 ∧ u32 e.(dr_LeafIndex).

Definition resolved_log (log : Log) (e : RequestResolved) : Prop :=
  encodes log
    [RequestResolvedTopic; e.(rr_RequestID); address_word e.(rr_Requester); e.(rr_DependencyKey)]
    [bool_word e.(rr_NewDependency); e.(rr_HomeTrustRoot)].

Definition succeeded_log (log : Log) (e : VerificationSucceeded) : Prop :=
  e.(vs_SourceChainID) ≠ zero32 ∧
  match e.(vs_Path), e.(vs_HopCount) with
  | false, None =>
      encodes log [DirectVerificationSucceededTopic; e.(vs_RequestID); e.(vs_SourceChainID)]
        [e.(vs_SourceHeight); e.(vs_SourceBlockHash); e.(vs_SourceTrustRoot);
         e.(vs_DependencyKey)]
  | true, Some hops =>
      0 < hops < 2 ^ 256 ∧
      encodes log [PathVerificationSucceededTopic; e.(vs_RequestID); e.(vs_SourceChainID)]
        [e.(vs_SourceHeight); e.(vs_SourceBlockHash); e.(vs_SourceTrustRoot); uint_word hops;
         e.(vs_DependencyKey)]
  | _, _ => False
  end.

(** ** Lemmas *)

Lemma zero_bytes_spec l : zero_bytes l = true ↔ be_value l = 0.
Proof.
  induction l as [|b l IH]; [done|]. cbn [zero_bytes forallb].
  rewrite be_value_cons, andb_true_iff. change (forallb _ l) with (zero_bytes l).
  rewrite IH, bool_decide_eq_true.
  pose proof (be_value_range l). pose proof (byte_val_range b).
  assert (0 < 256 ^ zlen l) by (apply Z.pow_pos_nonneg; unfold zlen; lia).
  split.
  - intros [-> Hl]. rewrite Hl. done.
  - intros Heq. assert (byte_val b = 0) as Hb by nia. split; [|nia].
    rewrite <-(byte_of_Z_val b), Hb. done.
Qed.

(** Reading the last bytes of a word whose first bytes are zero. *)
Lemma leading_zeros (l : bytes) (a : nat) n :
  (a ≤ length l)%nat →
  zero_bytes (take a l) = true ∧ be_value (drop a l) = n ↔
  be_value l = n ∧ n < 256 ^ Z.of_nat (length l - a).
Proof.
  intros Ha. rewrite zero_bytes_spec.
  assert (be_value l = be_value (take a l) * 256 ^ zlen (drop a l) + be_value (drop a l)) as Hl
    by (rewrite <-be_value_app, take_drop; done).
  pose proof (be_value_range (drop a l)) as Hr. pose proof (be_value_range (take a l)) as Ht.
  unfold zlen in Hl, Hr. rewrite length_drop in Hl, Hr. rewrite Hl.
  set (m := 256 ^ _) in *. split.
  - intros [-> <-]. lia.
  - intros [<- Hlt]. assert (be_value (take a l) = 0) as -> by nia. lia.
Qed.

Lemma word_value (w : bytes32) n : 0 ≤ n < 2 ^ 256 → be_value w = n ↔ w = uint_word n.
Proof.
  intros Hn. split.
  - intros <-. unfold uint_word. by rewrite be_vec_value.
  - intros ->. by apply be_value_be_vec32.
Qed.

Lemma wordUint32_Ok (w : bytes32) n : wordUint32 w = Ok n ↔ u32 n ∧ w = uint_word n.
Proof.
  unfold wordUint32, u32, MaxUint32.
  pose proof (leading_zeros (vec_to_list w) 28 n) as H. rewrite length_vec_to_list in H.
  specialize (H ltac:(lia)). change (256 ^ Z.of_nat (32 - 28)) with 4294967296 in H.
  pose proof (be_value_range (vec_to_list w)) as Hr.
  destruct (zero_bytes _); cbn [negb].
  - split.
    + intros [= Hd]. destruct (proj1 H (conj eq_refl Hd)) as [Hv Hlt].
      split; [lia|]. apply word_value; lia.
    + intros [Hn Hw]. apply word_value in Hw; [|lia]. by destruct (proj2 H) as [_ ->]; [lia|].
  - split; [done|]. intros [Hn Hw]. apply word_value in Hw; [|lia].
    by destruct (proj2 H) as [? _]; [lia|].
Qed.

Lemma wordBool_Ok (w : bytes32) b : wordBool w = Ok b ↔ w = bool_word b.
Proof.
  unfold wordBool. destruct (wordUint32 w) as [n|e] eqn:He.
  - apply wordUint32_Ok in He as [Hn ->]. unfold u32, MaxUint32 in Hn. unfold bool_word.
    assert (∀ k, 0 ≤ k < 2 → uint_word n = be_vec 32 k ↔ n = k) as Hinj.
    { intros k Hk. rewrite <-word_value by lia. unfold uint_word. rewrite be_value_be_vec32; lia. }
    destruct (Z.ltb_spec 1 n); rewrite Hinj by (destruct b; lia).
    + split; [done|destruct b; lia].
    + destruct b, (Z.eqb_spec n 1); split; intros; try done; lia.
  - split; [done|]. intros ->. exfalso. destruct b.
    + by rewrite (proj2 (wordUint32_Ok (bool_word true) 1)) in He.
    + by rewrite (proj2 (wordUint32_Ok (bool_word false) 0)) in He.
Qed.

Lemma address_value (a : Address) : 0 ≤ be_value a < 2 ^ 160.
Proof.
  pose proof (be_value_range (vec_to_list a)) as H. unfold zlen in H.
  rewrite length_vec_to_list in H. exact H.
Qed.

Lemma topicAddress_Ok (w : bytes32) a : topicAddress w = Ok a ↔ w = address_word a.
Proof.
  unfold topicAddress, BytesToAddress, address_word.
  pose proof (leading_zeros (vec_to_list w) 12 (be_value a)) as H. rewrite length_vec_to_list in H.
  specialize (H ltac:(lia)). change (256 ^ Z.of_nat (32 - 12)) with (2 ^ 160) in H.
  pose proof (address_value a) as Ha. change (be_vec 32 (be_value a)) with (uint_word (be_value a)).
  rewrite <-word_value by lia.
  destruct (zero_bytes _); cbn [negb]; [|split; [done|intros Hw; by destruct (proj2 H (conj Hw (proj2 Ha))) as [? _]]].
  split.
  - intros [= <-]. apply H. split; [done|]. change (vec_to_list (be_vec 20 ?z)) with (be_bytes 20 z).
    rewrite be_value_be_bytes, Z.mod_small; [done|].
    pose proof (be_value_range (drop 12 (vec_to_list w))) as Hr. unfold zlen in Hr.
    rewrite length_drop, length_vec_to_list in Hr. exact Hr.
  - intros Hw. destruct (proj2 H (conj Hw (proj2 Ha))) as [_ ->]. by rewrite be_vec_value.
Qed.

(** *** Words of the data *)

Lemma concat_words_cons (w : bytes32) ws : concat_words (w :: ws) = w ++ concat_words ws.
Proof. done. Qed.

Lemma length_concat_words ws : length (concat_words ws) = (length ws * 32)%nat.
Proof.
  induction ws as [|w ws IH]; [done|].
  rewrite concat_words_cons, length_app, length_vec_to_list, IH. cbn. lia.
Qed.

Lemma word_concat ws : ∀ i w, ws !! i = Some w → word (concat_words ws) i = vec_to_list w.
Proof.
  unfold word. induction ws as [|v ws IH]; intros i w Hi; [done|].
  rewrite concat_words_cons. destruct i as [|i]; cbn in Hi.
  - injection Hi as ->. change (0 * 32)%nat with 0%nat. rewrite drop_0.
    apply take_app_length'. by rewrite length_vec_to_list.
  - rewrite drop_app_ge by (rewrite length_vec_to_list; lia). rewrite length_vec_to_list.
    replace (S i * 32 - 32)%nat with (i * 32)%nat by lia. by apply IH.
Qed.

Lemma words_of k : ∀ d : bytes, length d = (k * 32)%nat → ∃ ws, length ws = k ∧ d = concat_words ws.
Proof.
  induction k as [|k IH]; intros d Hd.
  - exists []. split; [done|]. by apply nil_length_inv.
  - destruct (IH (drop 32 d)) as (ws & Hl & He); [rewrite length_drop; lia|].
    exists (be_vec 32 (be_value (take 32 d)) :: ws). split; [cbn; by rewrite Hl|].
    rewrite concat_words_cons, <-He, be_vec_list by (rewrite length_take; lia).
    by rewrite take_drop.
Qed.

Lemma BytesToHash_word (w : bytes32) : BytesToHash w = w.
Proof. unfold BytesToHash. by rewrite be_vec_value. Qed.

Lemma height_word (w : bytes32) : NewBlockHeightFromBig (Some (be_value w)) = Ok w.
Proof.
  unfold NewBlockHeightFromBig. rewrite uint256FromBig_spec.
  pose proof (be_value_range (vec_to_list w)) as Hr. unfold zlen in Hr.
  rewrite length_vec_to_list in Hr. change (256 ^ Z.of_nat 32) with (2 ^ 256) in Hr.
  rewrite (proj2 (Z.ltb_ge _ _)), (proj2 (Z.leb_gt _ _)) by lia. cbn. by rewrite be_vec_value.
Qed.

Lemma chain_word (w : bytes32) c :
  NewChainIDFromBig (Some (be_value w)) = Ok c ↔ w = c ∧ c ≠ zero32.
Proof.
  pose proof (height_word w) as Hw. unfold NewBlockHeightFromBig in Hw. unfold NewChainIDFromBig.
  destruct (uint256FromBig _) as [v|]; [|done]. cbn in Hw. injection Hw as ->.
  cbn. unfold ChainID_Validate. case_bool_decide; cbn; naive_solver.
Qed.

Lemma requireEvent_Ok log t topics words :
  requireEvent log t topics words = Ok tt ↔
  length log.(Topics) = topics ∧ hd_error log.(Topics) = Some t ∧
  ∃ ws, length ws = words ∧ log.(Data) = concat_words ws.
Proof.
  unfold requireEvent. split.
  - intros [H _]%bind_bool. bool_to_prop. split_and!; [done|done|]. by apply words_of.
  - intros (-> & -> & ws & <- & ->). rewrite length_concat_words. by rewrite !bool_decide_eq_true_2.
Qed.

(** A log with the given layout: its topics one by one, its data word by word. *)
Lemma requireEvent_inv log t topics words :
  requireEvent log t topics words = Ok tt →
  ∃ ts ws, log.(Topics) = t :: ts ∧ S (length ts) = topics ∧ length ws = words ∧
    log.(Data) = concat_words ws.
Proof.
  intros (Hl & Hh & ws & Hw & Hd)%requireEvent_Ok. destruct (Topics log) as [|t' ts]; [done|].
  injection Hh as ->. by exists ts, ws.
Qed.

Lemma requireEvent_layout log t ts ws :
  encodes log (t :: ts) ws → requireEvent log t (S (length ts)) (length ws) = Ok tt.
Proof. intros [Ht Hd]. apply requireEvent_Ok. rewrite Ht. split_and!; [done|done|]. by exists ws. Qed.

(** Reads a field of a log whose layout is known. *)
#[local] Ltac read_words Ht Hd :=
  unfold topic_chain, word_height, word_hash, topic, topicUint32 in *;
  rewrite ?Ht, ?Hd in *; cbn [lookup list_lookup default from_option id] in *;
  repeat match goal with
    | H : context [word (concat_words ?ws) ?i] |- _ =>
        erewrite (word_concat ws i) in H by reflexivity
    | |- context [word (concat_words ?ws) ?i] =>
        erewrite (word_concat ws i) by reflexivity
    end;
  rewrite ?BytesToHash_word, ?height_word in *; cbn [default_ok map_err] in *.

#[local] Ltac open_layout ts ws :=
  repeat (destruct ts as [|? ts]; try discriminate);
  repeat (destruct ws as [|? ws]; try discriminate).

Lemma ParseRequestResolved_Ok log e : ParseRequestResolved log = Ok e ↔ resolved_log log e.
Proof.
  unfold ParseRequestResolved, resolved_log. split.
  - intros ([] & (ts & ws & Ht & Hl & Hw & Hd)%requireEvent_inv & H)%bind_Ok.
    open_layout ts ws. read_words Ht Hd.
    apply bind_Ok in H as (a & ->%topicAddress_Ok & H). apply bind_Ok in H as (b & ->%wordBool_Ok & H).
    injection H as <-. by split.
  - intros Hlog. pose proof (requireEvent_layout _ _ _ _ Hlog) as HE. cbn [length] in HE. rewrite HE.
    destruct Hlog as [Ht Hd]. read_words Ht Hd. cbn [mbind res_mbind res_bind].
    rewrite (proj2 (topicAddress_Ok _ _) eq_refl). cbn [mbind res_mbind res_bind].
    rewrite (proj2 (wordBool_Ok _ _) eq_refl). by destruct e.
Qed.

Lemma ParseDependencyRecorded_Ok log e : ParseDependencyRecorded log = Ok e ↔ recorded_log log e.
Proof.
  unfold ParseDependencyRecorded, recorded_log. split.
  - intros ([] & (ts & ws & Ht & Hl & Hw & Hd)%requireEvent_inv & H)%bind_Ok.
    open_layout ts ws. read_words Ht Hd.
    apply bind_Ok in H as (c & (<- & Hc)%map_err_Ok%chain_word & H).
    apply bind_Ok in H as (n & (Hn & ->)%wordUint32_Ok & H). injection H as <-. by split.
  - intros (Hlog & Hc & Hn). pose proof (requireEvent_layout _ _ _ _ Hlog) as HE.
    cbn [length] in HE. rewrite HE. destruct Hlog as [Ht Hd]. read_words Ht Hd.
    cbn [mbind res_mbind res_bind].
    rewrite (proj2 (chain_word _ (dr_SourceChainID e)) (conj eq_refl Hc)).
    cbn [mbind res_mbind res_bind map_err].
    rewrite (proj2 (wordUint32_Ok _ (dr_LeafIndex e)) (conj Hn eq_refl)). by destruct e.
Qed.

Lemma ParseTrustRootUpdated_Ok log e : ParseTrustRootUpdated log = Ok e ↔ updated_log log e.
Proof.
  unfold ParseTrustRootUpdated, updated_log. split.
  - intros ([] & (ts & ws & Ht & Hl & Hw & Hd)%requireEvent_inv & H)%bind_Ok.
    open_layout ts ws. read_words Ht Hd.
    apply bind_Ok in H as (n & (Hn & ->)%wordUint32_Ok & H).
    apply bind_Ok in H as (b & ->%wordBool_Ok & H). injection H as <-. by split.
  - intros (Hlog & Hn). pose proof (requireEvent_layout _ _ _ _ Hlog) as HE.
    cbn [length] in HE. rewrite HE. destruct Hlog as [Ht Hd]. read_words Ht Hd.
    cbn [mbind res_mbind res_bind].
    rewrite (proj2 (wordUint32_Ok _ (tu_LeafIndex e)) (conj Hn eq_refl)).
    cbn [mbind res_mbind res_bind].
    rewrite (proj2 (wordBool_Ok _ (tu_IsAnchor e)) eq_refl). by destruct e.
Qed.

Lemma ParseVerificationRequested_Ok log e :
  ParseVerificationRequested log = Ok e ↔ requested_log log e.
Proof.
  unfold ParseVerificationRequested, requested_log. split.
  - intros ([] & (ts & ws & Ht & Hl & Hw & Hd)%requireEvent_inv & H)%bind_Ok.
    open_layout ts ws. read_words Ht Hd.
    apply bind_Ok in H as (c & (<- & Hc)%map_err_Ok%chain_word & H).
    apply bind_Ok in H as (a & ->%topicAddress_Ok & H). injection H as <-. by split.
  - intros (Hlog & Hc). pose proof (requireEvent_layout _ _ _ _ Hlog) as HE.
    cbn [length] in HE. rewrite HE. destruct Hlog as [Ht Hd]. read_words Ht Hd.
    cbn [mbind res_mbind res_bind].
    rewrite (proj2 (chain_word _ (vr_SourceChainID e)) (conj eq_refl Hc)).
    cbn [mbind res_mbind res_bind map_err].
    rewrite (proj2 (topicAddress_Ok _ (vr_Requester e)) eq_refl). by destruct e.
Qed.

Lemma hop_word (w : bytes32) : be_value w ≠ 0 → 0 < be_value w < 2 ^ 256.
Proof.
  intros Hne. pose proof (be_value_range (vec_to_list w)) as Hr. unfold zlen in Hr.
  rewrite length_vec_to_list in Hr. change (256 ^ Z.of_nat 32) with (2 ^ 256) in Hr. lia.
Qed.

Lemma topics_differ : DirectVerificationSucceededTopic ≠ PathVerificationSucceededTopic.
Proof.
  intros H%(f_equal (λ v, be_value (vec_to_list v))).
  unfold DirectVerificationSucceededTopic, PathVerificationSucceededTopic in H.
  rewrite !be_value_be_vec32 in H by lia. discriminate H.
Qed.

Lemma ParseVerificationSucceeded_Ok log e :
  ParseVerificationSucceeded log = Ok e ↔ succeeded_log log e.
Proof.
  unfold ParseVerificationSucceeded, succeeded_log. split.
  - intros ([[t words] path] & Hlay & H)%bind_Ok.
    apply bind_Ok in H as ([] & (ts & ws & Ht & Hl & Hw & Hd)%requireEvent_inv & H).
    rewrite Ht in Hlay. cbn [hd_error] in Hlay.
    case_bool_decide; [|case_bool_decide; [|done]]; injection Hlay as <- <-; subst t;
      open_layout ts ws; cbn [Nat.sub andb] in H; read_words Ht Hd;
      apply bind_Ok in H as (c & (<- & Hc)%map_err_Ok%chain_word & H);
      apply bind_Ok in H as (h & [= <-] & H).
    + injection H as <-. by split.
    + apply bind_bool in H as [Hh%Z.eqb_neq [= <-]]. cbn.
      split_and!; [done|by apply hop_word..|]. apply hop_word in Hh.
      unfold encodes. cbn. unfold uint_word. rewrite be_vec_value. by split.
  - intros (Hc & He). destruct e as [rid c h bh tr key path hops].
    cbn [vs_RequestID vs_SourceChainID vs_SourceHeight vs_SourceBlockHash vs_SourceTrustRoot
      vs_DependencyKey vs_Path vs_HopCount] in *.
    destruct path, hops as [hops|]; try done; [destruct He as [Hh Hlog]|rename He into Hlog];
      pose proof (requireEvent_layout _ _ _ _ Hlog) as HE; cbn [length] in HE;
      destruct Hlog as [Ht Hd]; rewrite Ht; cbn [hd_error].
    + rewrite (bool_decide_eq_false_2 (PathVerificationSucceededTopic = _))
        by (intros Hx; by apply topics_differ).
      rewrite bool_decide_eq_true_2 by done. cbn [mbind res_mbind res_bind]. rewrite HE.
      cbn [mbind res_mbind res_bind Nat.sub]. read_words Ht Hd.
      rewrite (proj2 (chain_word _ c) (conj eq_refl Hc)). cbn [mbind res_mbind res_bind map_err andb].
      unfold uint_word. rewrite be_value_be_vec32, (proj2 (Z.eqb_neq _ _)) by lia. done.
    + rewrite bool_decide_eq_true_2 by done. cbn [mbind res_mbind res_bind]. rewrite HE.
      cbn [mbind res_mbind res_bind Nat.sub]. read_words Ht Hd.
      by rewrite (proj2 (chain_word _ c) (conj eq_refl Hc)).
Qed.

(** ** Theorems *)

(** C40. The event parsers accept exactly the canonical encodings the Gateway
    emits: a log parses to an event if and only if its topics and its data
    words are those of the event, every field in its range, with no slack in
    padding, length or topic count.  So two logs with equal topics and data
    parse alike, and a parsed event determines its log. *)
Theorem gateway_events_canonical (log : Log) :
  (∀ e, ParseVerificationRequested log = Ok e ↔ requested_log log e) ∧
  (∀ e, ParseTrustRootUpdated log = Ok e ↔ updated_log log e) ∧
  (∀ e, ParseDependencyRecorded log = Ok e ↔ recorded_log log e) ∧
  (∀ e, ParseRequestResolved log = Ok e ↔ resolved_log log e) ∧
  (∀ e, ParseVerificationSucceeded log = Ok e ↔ succeeded_log log e).
Proof.
  split_and!; intros e; [apply ParseVerificationRequested_Ok|apply ParseTrustRootUpdated_Ok
    |apply ParseDependencyRecorded_Ok|apply ParseRequestResolved_Ok|apply ParseVerificationSucceeded_Ok].
Qed.

End ChainABI.
