(* ===== verification/Merkle.v ===== *)
(** * internal/proof: fixed-depth Merkle trees and recursive path verification

    [HashPair], [ZeroHashes], [RootFromWitness], [VerifyPath] (merkle.go) and
    the lazily updated [IncrementalTree] (incremental.go), with the abstract
    tree they implement: the complete binary tree of a list of leaves padded
    with the zero leaf. *)

From S2P Require Import Prelude Domain.

Module Merkle.
Import Domain.

Inductive error :=
| ErrInvalidTreeDepth
| ErrInvalidSiblingCount
| ErrLeafIndexOutOfRange
| ErrEmptyPath
| ErrPathLengthMismatch
| ErrFinalRootMismatch
| ErrTreeFull.

#[export] Instance error_eq_dec : EqDecision error.
Proof. solve_decision. Defined.

Definition MaxTreeDepth : Z := 32.

(** Reading a slot of a [[]common.Hash] that the code knows to be in range. *)
Definition hash_at (l : list Hash) (i : nat) : Hash := default zero32 (l !! i).

Definition validateDepth (depth : Z) : res error unit :=
  if (depth =? 0) || (MaxTreeDepth <? depth) then Err ErrInvalidTreeDepth else Ok tt.

Section Tree.
Context (keccak256 : bytes → Hash).

Definition HashPair (left right : Hash) : Hash := keccak256 (left ++ right).

(** [zeros[level] = HashPair(zeros[level-1], zeros[level-1])]. *)
Fixpoint zero_levels (n : nat) (previous : Hash) : list Hash :=
  match n with
  | O => []
  | S m => let zero := HashPair previous previous in zero :: zero_levels m zero
  end.

Definition ZeroHashes (depth : Z) : res error (list Hash) :=
  _ ← validateDepth depth;
  Ok (zero32 :: zero_levels (Z.to_nat depth) zero32).

(** The loop of [RootFromWitness] over the siblings, bottom up. *)
Fixpoint witness_loop (root : Hash) (index : Z) (siblings : list Hash) : Hash :=
  match siblings with
  | [] => root
  | sibling :: rest =>
      let root' := if Z.land index 1 =? 0 then HashPair root sibling
                   else HashPair sibling root in
      witness_loop root' (Z.shiftr index 1) rest
  end.

Definition RootFromWitness (leaf : Hash) (leafIndex : Z) (siblings : list Hash)
    (expectedDepth : Z) : res error Hash :=
  _ ← validateDepth expectedDepth;
  if negb (zlen siblings =? expectedDepth) then Err ErrInvalidSiblingCount
  else
    let capacity := Z.shiftl 1 expectedDepth in
    if capacity <=? leafIndex then Err ErrLeafIndexOutOfRange
    else Ok (witness_loop leaf leafIndex siblings).

(** The loop of [VerifyPath]; an error of a hop is wrapped with its number
    and keeps its sentinel. *)
Fixpoint path_loop (root : Hash) (blockHashes : list Hash)
    (witnesses : list MembershipWitness) (expectedDepth : Z) : res error Hash :=
  match blockHashes, witnesses with
  | blockHash :: blockHashes', witness :: witnesses' =>
      let leaf := LeafHash keccak256 root blockHash in
      root' ← RootFromWitness leaf witness.(LeafIndex) witness.(Siblings) expectedDepth;
      path_loop root' blockHashes' witnesses' expectedDepth
  | _, _ => Ok root
  end.

Definition VerifyPath (baseTrustRoot : Hash) (blockHashes : list Hash)
    (witnesses : list MembershipWitness) (expectedHomeRoot : Hash)
    (expectedDepth : Z) : res error unit :=
  _ ← validateDepth expectedDepth;
  if zlen blockHashes =? 0 then Err ErrEmptyPath
  else if negb (zlen blockHashes =? zlen witnesses) then Err ErrPathLengthMismatch
  else
    root ← path_loop baseTrustRoot blockHashes witnesses expectedDepth;
    if root ≠?= expectedHomeRoot then Err ErrFinalRootMismatch else Ok tt.

Record IncrementalTree := mkTree {
  depth : Z;
  capacity : Z;
  nextIndex : Z;
  frontier : list Hash;
  zeros : list Hash;
  root : Hash
}.

Definition NewIncrementalTree (depth : Z) : res error IncrementalTree :=
  zeros ← ZeroHashes depth;
  Ok (mkTree depth (Z.shiftl 1 depth) 0 (replicate (Z.to_nat depth) zero32) zeros
        (hash_at zeros (Z.to_nat depth))).

(** [for level := 0; level < depth; level++], on [n] remaining levels. *)
Fixpoint append_loop (n level : nat) (index : Z) (node : Hash)
    (zeros frontier : list Hash) : Hash * list Hash :=
  match n with
  | O => (node, frontier)
  | S m =>
      if Z.land index 1 =? 0 then
        append_loop m (S level) (Z.shiftr index 1)
          (HashPair node (hash_at zeros level)) zeros (<[level := node]> frontier)
      else
        append_loop m (S level) (Z.shiftr index 1)
          (HashPair (hash_at frontier level) node) zeros frontier
  end.

Definition Append (tree : IncrementalTree) (leaf : Hash) : res error IncrementalTree :=
  if tree.(capacity) <=? tree.(nextIndex) then Err ErrTreeFull
  else
    let '(node, frontier') :=
      append_loop (Z.to_nat tree.(depth)) 0 tree.(nextIndex) leaf
        tree.(zeros) tree.(frontier) in
    Ok (mkTree tree.(depth) tree.(capacity) (wrap64 (tree.(nextIndex) + 1))
          frontier' tree.(zeros) node).

(** Appending leaves one after the other. *)
Fixpoint AppendAll (tree : IncrementalTree) (leaves : list Hash) : res error IncrementalTree :=
  match leaves with
  | [] => Ok tree
  | leaf :: rest => tree' ← Append tree leaf; AppendAll tree' rest
  end.

(** ** Abstract specification: the complete tree of a list of leaves *)

(** The [i]-th node of level [k] over the leaf function [f]. *)
Fixpoint node (f : Z → Hash) (k : nat) (i : Z) : Hash :=
  match k with
  | O => f i
  | S k' => HashPair (node f k' (2 * i)) (node f k' (2 * i + 1))
  end.

Definition leaf_at (leaves : list Hash) (i : Z) : Hash := hash_at leaves (Z.to_nat i).

Definition merkle_root (d : Z) (leaves : list Hash) : Hash :=
  node (leaf_at leaves) (Z.to_nat d) 0.

(** Sibling of [index] at each of [n] levels, from level [k] up. *)
Fixpoint sibling_path (f : Z → Hash) (n k : nat) (index : Z) : list Hash :=
  match n with
  | O => []
  | S m => node f k (Z.lxor index 1) :: sibling_path f m (S k) (Z.shiftr index 1)
  end.

Definition witness_for (d : Z) (leaves : list Hash) (index : Z) : MembershipWitness :=
  mkWitness index (sibling_path (leaf_at leaves) (Z.to_nat d) 0 index).

(** A chain of committed dependencies: each root is bound, together with a
    block hash, into a leaf of the next root. *)
Inductive trust_chain (d : Z) : Hash → list Hash → list MembershipWitness → Hash → Prop :=
| trust_chain_nil r : trust_chain d r [] [] r
| trust_chain_cons r blockHash index leaves blockHashes witnesses home :
    0 ≤ index < 2 ^ d →
    leaf_at leaves index = LeafHash keccak256 r blockHash →
    trust_chain d (merkle_root d leaves) blockHashes witnesses home →
    trust_chain d r (blockHash :: blockHashes)
      (witness_for d leaves index :: witnesses) home.

(** The byte strings hashed while a witness, or a whole path, is checked. *)
Fixpoint witness_inputs (root : Hash) (index : Z) (siblings : list Hash) : list bytes :=
  match siblings with
  | [] => []
  | sibling :: rest =>
      let input := if Z.land index 1 =? 0 then root ++ sibling else sibling ++ root in
      input :: witness_inputs (keccak256 input) (Z.shiftr index 1) rest
  end.

Fixpoint path_inputs (root : Hash) (blockHashes : list Hash)
    (witnesses : list MembershipWitness) : list bytes :=
  match blockHashes, witnesses with
  | blockHash :: blockHashes', witness :: witnesses' =>
      let leaf := LeafHash keccak256 root blockHash in
      (root ++ blockHash)
        :: witness_inputs leaf witness.(LeafIndex) witness.(Siblings)
        ++ path_inputs (witness_loop leaf witness.(LeafIndex) witness.(Siblings))
             blockHashes' witnesses'
  | _, _ => []
  end.

(** Two runs exhibit a keccak collision when they hash different inputs to
    the same digest at the same step. *)
Definition collision_between (run1 run2 : list bytes) : Prop :=
  ∃ (a b : bytes), (a, b) ∈ zip run1 run2 ∧ a ≠ b ∧ keccak256 a = keccak256 b.

(** ** Lemmas on indices *)

Lemma land_1_even index : (Z.land index 1 =? 0) = Z.even index.
Proof.
  change 1 with (Z.ones 1). rewrite Z.land_ones by lia. change (2 ^ 1) with 2.
  rewrite Zmod_even. by destruct (Z.even index).
Qed.

Lemma shiftr_1 index : Z.shiftr index 1 = index / 2.
Proof. by rewrite Z.shiftr_div_pow2 by lia. Qed.

Lemma even_split index :
  index = 2 * (index / 2) + (if Z.even index then 0 else 1).
Proof.
  pose proof (Zmod_even index). pose proof (Z.div_mod index 2 ltac:(lia)).
  destruct (Z.even index); lia.
Qed.

Lemma lxor_1 index :
  Z.lxor index 1 = 2 * (index / 2) + (if Z.even index then 1 else 0).
Proof.
  assert (∀ k, Z.lxor (2 * k) 1 = 2 * k + 1) as H0.
  { intros k. symmetry. apply Z.add_nocarry_lxor.
    change 1 with (Z.ones 1). rewrite Z.land_ones by lia.
    change (2 ^ 1) with 2. rewrite Z.mul_comm. apply Z.mod_mul. lia. }
  pose proof (even_split index) as He. destruct (Z.even index).
  - rewrite He at 1. by rewrite Z.add_0_r, H0.
  - rewrite He at 1. rewrite <-(H0 (index / 2)), Z.lxor_assoc.
    rewrite Z.lxor_nilpotent, Z.lxor_0_r. lia.
Qed.

Lemma capacity_pow d : 0 ≤ d → Z.shiftl 1 d = 2 ^ d.
Proof. intros. rewrite Z.shiftl_mul_pow2 by lia. lia. Qed.

Lemma validateDepth_ok d : 0 ≤ d → validateDepth d = Ok tt ↔ 1 ≤ d ≤ 32.
Proof.
  unfold validateDepth, MaxTreeDepth. intros.
  destruct (Z.eqb_spec d 0), (Z.ltb_spec 32 d); cbn; split; try done; lia.
Qed.

(** ** Lemmas on the abstract tree *)

Lemma node_ext f g k : ∀ i,
  (∀ j, i * 2 ^ Z.of_nat k ≤ j < (i + 1) * 2 ^ Z.of_nat k → f j = g j) →
  node f k i = node g k i.
Proof.
  induction k as [|k IH]; intros i H; cbn [node].
  - apply H. cbn. lia.
  - rewrite Nat2Z.inj_succ, Z.pow_succ_r in H by lia.
    f_equal; apply IH; intros j Hj; apply H; lia.
Qed.

(** Two complementary nodes hash to their parent. *)
Lemma node_parent f k index :
  (if Z.even index
   then HashPair (node f k index) (node f k (Z.lxor index 1))
   else HashPair (node f k (Z.lxor index 1)) (node f k index))
  = node f (S k) (index / 2).
Proof.
  cbn [node]. rewrite lxor_1. pose proof (even_split index) as He.
  destruct (Z.even index); repeat f_equal; lia.
Qed.

Lemma node_zero k i : node (λ _, zero32) k i = hash_at (zero32 :: zero_levels k zero32) k.
Proof.
  assert (∀ m z n, hash_at (z :: zero_levels (m + n) z) m
                   = Nat.iter m (λ h, HashPair h h) z) as Hz.
  { induction m as [|m IH]; intros z n; [done|].
    cbn -[hash_at]. change (hash_at (z :: ?l) (S m)) with (hash_at l m).
    rewrite IH. clear. induction m; cbn; [done|]. by f_equal. }
  pose proof (Hz k zero32 0%nat) as H. rewrite Nat.add_0_r in H. rewrite H. clear.
  revert i. induction k as [|k IH]; intros i; cbn; [done|]. by rewrite !IH.
Qed.

Lemma zero_levels_at k n :
  (k ≤ n)%nat →
  hash_at (zero32 :: zero_levels n zero32) k = node (λ _, zero32) k 0.
Proof.
  intros Hk. rewrite node_zero.
  assert (∀ m n z, (m ≤ n)%nat → (z :: zero_levels n z) !! m = (z :: zero_levels m z) !! m) as H.
  { clear. induction m as [|m IH]; intros n z Hle; [done|].
    destruct n as [|n]; [lia|]. cbn. apply IH. lia. }
  unfold hash_at. by rewrite H.
Qed.

Lemma length_zero_levels n z : length (zero_levels n z) = n.
Proof. revert z. induction n; intros; cbn; auto. Qed.

Lemma leaf_at_snoc_last leaves leaf : leaf_at (leaves ++ [leaf]) (zlen leaves) = leaf.
Proof.
  unfold leaf_at, hash_at, zlen. rewrite Nat2Z.id.
  by rewrite lookup_app_r, Nat.sub_diag by lia.
Qed.

Lemma leaf_at_snoc_lt leaves leaf j :
  0 ≤ j < zlen leaves → leaf_at (leaves ++ [leaf]) j = leaf_at leaves j.
Proof.
  unfold leaf_at, hash_at, zlen. intros. by rewrite lookup_app_l by lia.
Qed.

Lemma leaf_at_beyond leaves j : zlen leaves ≤ j → leaf_at leaves j = zero32.
Proof.
  unfold leaf_at, hash_at, zlen. intros. by rewrite lookup_ge_None_2 by lia.
Qed.

(** ** The witness loop computes ancestors *)

Lemma witness_loop_node f n : ∀ k index,
  witness_loop (node f k index) index (sibling_path f n k index)
  = node f (k + n) (index / 2 ^ Z.of_nat n).
Proof.
  induction n as [|n IH]; intros k index; cbn [sibling_path witness_loop].
  - by rewrite Nat.add_0_r, Z.div_1_r.
  - rewrite land_1_even, node_parent, shiftr_1, IH.
    rewrite Nat.add_succ_r, Nat2Z.inj_succ, Z.pow_succ_r by lia.
    by rewrite Z.div_div by lia.
Qed.

Lemma length_sibling_path f n k index : length (sibling_path f n k index) = n.
Proof. revert k index. induction n; intros; cbn; auto. Qed.

Lemma RootFromWitness_ok leaf index siblings d r :
  0 ≤ d →
  RootFromWitness leaf index siblings d = Ok r ↔
  1 ≤ d ≤ 32 ∧ zlen siblings = d ∧ index < 2 ^ d ∧ r = witness_loop leaf index siblings.
Proof.
  intros Hd. unfold RootFromWitness. rewrite capacity_pow by done.
  pose proof (validateDepth_ok d Hd) as Hv.
  destruct (validateDepth d) as [[]|] eqn:E; cbn -[zlen Z.pow].
  - assert (1 ≤ d ≤ 32) by tauto.
    destruct (Z.eqb_spec (zlen siblings) d); cbn -[Z.pow]; [|naive_solver].
    destruct (Z.leb_spec (2 ^ d) index); naive_solver lia.
  - split; [done|]. intros [H _]. by apply Hv in H.
Qed.

(** ** Appending maintains the frontier *)

(** What the frontier stores after [n] appends over the leaf function [f]. *)
Definition frontier_ok (f : Z → Hash) (d : nat) (n : Z) (frontier : list Hash) : Prop :=
  length frontier = d ∧
  ∀ k, (k < d)%nat → Z.odd (n / 2 ^ Z.of_nat k) = true →
    hash_at frontier k = node f k (n / 2 ^ Z.of_nat k - 1).

Lemma div_pow2_succ n k : n / 2 ^ Z.of_nat k / 2 = n / 2 ^ Z.of_nat (S k).
Proof.
  rewrite Nat2Z.inj_succ, Z.pow_succ_r by lia.
  by rewrite Z.div_div, (Z.mul_comm 2) by lia.
Qed.

Section AppendStep.
Context (f g : Z → Hash) (d : nat) (n : Z) (frontier zeros : list Hash).
Hypothesis n_nonneg : 0 ≤ n.
Hypothesis below : ∀ j, 0 ≤ j < n → f j = g j.
Hypothesis above : ∀ j, n < j → g j = zero32.
Hypothesis zeros_ok : ∀ k, (k < d)%nat → hash_at zeros k = node (λ _, zero32) k 0.
Hypothesis frontier_inv : frontier_ok f d n frontier.

Lemma append_step_node level :
  (level < d)%nat →
  let a := n / 2 ^ Z.of_nat level in
  (if Z.even a then HashPair (node g level a) (hash_at zeros level)
   else HashPair (hash_at frontier level) (node g level a))
  = node g (S level) (n / 2 ^ Z.of_nat (S level)).
Proof.
  intros Hlevel a. destruct frontier_inv as [Hlen Hf].
  assert (a * 2 ^ Z.of_nat level ≤ n < (a + 1) * 2 ^ Z.of_nat level) as Ha.
  { subst a. pose proof (Z.div_mod n (2 ^ Z.of_nat level) ltac:(lia)).
    pose proof (Z.mod_pos_bound n (2 ^ Z.of_nat level) ltac:(lia)). nia. }
  pose proof (node_parent g level a) as Hp. rewrite lxor_1 in Hp.
  pose proof (even_split a) as Hs.
  rewrite <-(div_pow2_succ n level : a / 2 = _), <-Hp.
  destruct (Z.even a) eqn:He; f_equal.
  - rewrite zeros_ok by lia. rewrite node_zero, <-(node_zero level (2 * (a / 2) + 1)).
    apply node_ext. intros j Hj. symmetry. apply above. nia.
  - assert (Z.odd a = true) as Ho by (by rewrite <-Z.negb_even, He).
    rewrite (Hf level Hlevel Ho). fold a.
    replace (2 * (a / 2) + 0) with (a - 1) by lia. apply node_ext.
    intros j Hj. apply below.
    assert (0 ≤ a) by (subst a; apply Z.div_pos; lia).
    assert (a ≠ 0) by (intros Hz; by rewrite Hz in Ho).
    assert (0 ≤ (a - 1) * 2 ^ Z.of_nat level) by (apply Z.mul_nonneg_nonneg; lia).
    nia.
Qed.

(** The loop ends on the ancestor at level [d] and has stored, at every
    level where the index is even, the node just computed. *)
Lemma append_loop_spec m : ∀ level fr,
  (level + m = d)%nat → length fr = d →
  (∀ k, (level ≤ k)%nat → hash_at fr k = hash_at frontier k) →
  let '(top, fr') := append_loop m level (n / 2 ^ Z.of_nat level)
                       (node g level (n / 2 ^ Z.of_nat level)) zeros fr in
  top = node g d (n / 2 ^ Z.of_nat d) ∧ length fr' = d ∧
  ∀ k, (k < d)%nat →
    hash_at fr' k =
      if bool_decide (level ≤ k)%nat && Z.even (n / 2 ^ Z.of_nat k)
      then node g k (n / 2 ^ Z.of_nat k) else hash_at fr k.
Proof.
  induction m as [|m IH]; intros level fr Hm Hlen Hfr; cbn [append_loop].
  { rewrite Nat.add_0_r in Hm. subst level. split_and!; [done|done|].
    intros k Hk. by rewrite bool_decide_eq_false_2 by lia. }
  pose proof (append_step_node level ltac:(lia)) as Hstep. cbn zeta in Hstep.
  rewrite land_1_even, shiftr_1, div_pow2_succ.
  destruct (Z.even (n / 2 ^ Z.of_nat level)) eqn:He.
  - rewrite Hstep.
    specialize (IH (S level) (<[level:=node g level (n / 2 ^ Z.of_nat level)]> fr)).
    assert (∀ k, k ≠ level →
      hash_at (<[level:=node g level (n / 2 ^ Z.of_nat level)]> fr) k = hash_at fr k) as Hne.
    { intros k Hk. unfold hash_at. by rewrite list_lookup_insert_ne. }
    destruct (append_loop _ _ _ _ _ _) as [top fr'].
    destruct IH as (Htop & Hlen' & Hk); [lia|by rewrite length_insert| |].
    { intros k Hk. rewrite Hne by lia. apply Hfr. lia. }
    split_and!; [done|done|]. intros k Hkd. rewrite Hk by done.
    destruct (decide (k = level)) as [->|Hkl].
    + rewrite bool_decide_eq_false_2, bool_decide_eq_true_2 by lia. cbn.
      rewrite He. unfold hash_at. by rewrite list_lookup_insert_eq by lia.
    + rewrite Hne by done.
      destruct (decide (level ≤ k)%nat);
        [rewrite !bool_decide_eq_true_2 by lia|rewrite !bool_decide_eq_false_2 by lia]; done.
  - rewrite Hfr by lia. rewrite Hstep. specialize (IH (S level) fr).
    destruct (append_loop _ _ _ _ _ _) as [top fr'].
    destruct IH as (Htop & Hlen' & Hk); [lia|done| |].
    { intros k Hk. apply Hfr. lia. }
    split_and!; [done|done|]. intros k Hkd. rewrite Hk by done.
    destruct (decide (k = level)) as [->|Hkl].
    + by rewrite He, !andb_false_r.
    + destruct (decide (level ≤ k)%nat);
        [rewrite !bool_decide_eq_true_2 by lia|rewrite !bool_decide_eq_false_2 by lia]; done.
Qed.

Lemma div_succ_cases k :
  ((n + 1) / 2 ^ Z.of_nat k = n / 2 ^ Z.of_nat k) ∨
  ((n + 1) / 2 ^ Z.of_nat k = n / 2 ^ Z.of_nat k + 1).
Proof.
  set (p := 2 ^ Z.of_nat k). assert (0 < p) by (subst p; lia).
  pose proof (Z.div_mod n p ltac:(lia)). pose proof (Z.mod_pos_bound n p ltac:(lia)).
  destruct (decide (n mod p + 1 < p)).
  - left. symmetry. apply Z.div_unique_pos with (n mod p + 1); lia.
  - right. symmetry. apply Z.div_unique_pos with 0; lia.
Qed.

Lemma append_frontier fr' :
  length fr' = d →
  (∀ k, (k < d)%nat →
    hash_at fr' k = if Z.even (n / 2 ^ Z.of_nat k)
                    then node g k (n / 2 ^ Z.of_nat k) else hash_at frontier k) →
  frontier_ok g d (n + 1) fr'.
Proof.
  intros Hlen Hk. split; [done|]. intros k Hkd Hodd. rewrite Hk by done.
  destruct (div_succ_cases k) as [Heq|Heq]; rewrite Heq in *.
  - rewrite <-Z.negb_odd, Hodd. cbn. destruct frontier_inv as [_ Hf].
    rewrite Hf by done. apply node_ext. intros j Hj. apply below.
    set (a := n / 2 ^ Z.of_nat k) in *.
    assert (0 ≤ a) by (subst a; apply Z.div_pos; lia).
    assert (a ≠ 0) by (intros Hz; by rewrite Hz in Hodd).
    assert (0 ≤ (a - 1) * 2 ^ Z.of_nat k) by (apply Z.mul_nonneg_nonneg; lia).
    pose proof (Z.div_mod n (2 ^ Z.of_nat k) ltac:(lia)).
    pose proof (Z.mod_pos_bound n (2 ^ Z.of_nat k) ltac:(lia)). nia.
  - rewrite Z.odd_add, Bool.xorb_true_r in Hodd.
    rewrite <-Z.negb_odd, Hodd. f_equal. lia.
Qed.
End AppendStep.

(** ** The incremental tree implements the abstract tree *)

(** The state of a tree into which exactly [leaves] were appended. *)
Definition represents (d : Z) (leaves : list Hash) (tree : IncrementalTree) : Prop :=
  1 ≤ d ≤ 32 ∧
  tree.(depth) = d ∧ tree.(capacity) = 2 ^ d ∧
  tree.(nextIndex) = zlen leaves ∧ zlen leaves ≤ 2 ^ d ∧
  tree.(zeros) = zero32 :: zero_levels (Z.to_nat d) zero32 ∧
  frontier_ok (leaf_at leaves) (Z.to_nat d) (zlen leaves) tree.(frontier) ∧
  tree.(root) = merkle_root d leaves.

Lemma NewIncrementalTree_represents d :
  1 ≤ d ≤ 32 → ∃ tree, NewIncrementalTree d = Ok tree ∧ represents d [] tree.
Proof.
  intros Hd. unfold NewIncrementalTree, ZeroHashes.
  rewrite (proj2 (validateDepth_ok d ltac:(lia)) Hd). cbn -[Z.to_nat Z.pow hash_at].
  eexists. split; [reflexivity|]. rewrite capacity_pow by lia.
  unfold represents, zlen; cbn -[Z.to_nat Z.pow hash_at zero_levels].
  split_and!; try done; try lia.
  - split; [by rewrite length_replicate|]. intros k Hk. by rewrite Zdiv_0_l.
  - rewrite zero_levels_at by lia. unfold merkle_root. apply node_ext. done.
Qed.

Lemma Append_refines d leaves tree leaf :
  represents d leaves tree →
  match Append tree leaf with
  | Ok tree' => zlen leaves < 2 ^ d ∧ represents d (leaves ++ [leaf]) tree'
  | Err e => e = ErrTreeFull ∧ zlen leaves = 2 ^ d
  end.
Proof.
  intros (Hd & Hdep & Hcap & Hnext & Hle & Hz & Hf & Hr). unfold Append.
  rewrite Hcap, Hnext. destruct (Z.leb_spec (2 ^ d) (zlen leaves)); [split; [done|lia]|].
  pose proof (append_loop_spec (leaf_at leaves) (leaf_at (leaves ++ [leaf])) (Z.to_nat d)
    (zlen leaves) tree.(frontier) tree.(zeros) (zlen_nonneg _)) as Hloop.
  rewrite Hdep. specialize (λ H1 H2 H3 H4, Hloop H1 H2 H3 H4 (Z.to_nat d) 0%nat tree.(frontier)).
  assert (leaf_at (leaves ++ [leaf]) (zlen leaves) = leaf) as Hleaf
    by apply leaf_at_snoc_last.
  change (2 ^ Z.of_nat 0) with 1 in Hloop. rewrite Z.div_1_r in Hloop.
  cbn [node] in Hloop. rewrite Hleaf in Hloop.
  destruct (append_loop _ _ _ _ _ _) as [top fr'].
  assert (2 ^ d ≤ 2 ^ 32) as Hp by (apply Z.pow_le_mono_r; lia).
  destruct Hloop as (Htop & Hlen & Hk); try done.
  - intros j Hj. by rewrite leaf_at_snoc_lt.
  - intros j Hj. apply leaf_at_beyond. rewrite zlen_app. change (zlen [leaf]) with 1. lia.
  - intros k Hk. rewrite Hz. apply zero_levels_at. lia.
  - apply Hf.
  - split; [lia|]. unfold represents; cbn [depth capacity nextIndex zeros frontier root].
    rewrite zlen_app. change (zlen [leaf]) with 1.
    split_and!; try done; try lia.
    + apply wrap64_small. unfold u64, MaxUint64. pose proof (zlen_nonneg leaves). lia.
    + eapply append_frontier with (f := leaf_at leaves) (frontier := tree.(frontier)).
      * apply zlen_nonneg.
      * intros j Hj. by rewrite leaf_at_snoc_lt.
      * exact Hf.
      * done.
      * intros k Hkd. by rewrite Hk, bool_decide_eq_true_2 by lia.
    + rewrite Htop. unfold merkle_root. rewrite Z2Nat.id by lia.
      rewrite Z.div_small; [done|]. pose proof (zlen_nonneg leaves). lia.
Qed.

Lemma AppendAll_refines d : ∀ more leaves tree,
  represents d leaves tree → zlen leaves + zlen more ≤ 2 ^ d →
  ∃ tree', AppendAll tree more = Ok tree' ∧ represents d (leaves ++ more) tree'.
Proof.
  induction more as [|leaf more IH]; intros leaves tree Ht Hlen; cbn [AppendAll].
  { exists tree. by rewrite app_nil_r. }
  change (zlen (leaf :: more)) with (Z.of_nat (S (length more))) in Hlen.
  pose proof (Append_refines d leaves tree leaf Ht) as H.
  destruct (Append tree leaf) as [tree'|e]; [|unfold zlen in *; lia].
  destruct H as [_ Ht']. destruct (IH _ _ Ht') as (t & He & Hr).
  { rewrite zlen_app. change (zlen [leaf]) with 1. unfold zlen in *. lia. }
  exists t. split; [exact He|]. by rewrite <-(assoc_L (++)) in Hr.
Qed.

(** ** Theorems on trees *)

(** C19. For every depth the contract allows and every list of leaves that
    fits, the incremental tree accepts them all, and its root is the root of
    the complete tree over those leaves padded with zero leaves; one more
    leaf on a full tree is refused with [ErrTreeFull]. *)
Theorem incremental_tree_refines (d : Z) (leaves : list Hash) (extra : Hash) :
  1 ≤ d ≤ 32 → zlen leaves ≤ 2 ^ d →
  ∃ tree, (tree0 ← NewIncrementalTree d; AppendAll tree0 leaves) = Ok tree ∧
    tree.(root) = merkle_root d leaves ∧ tree.(nextIndex) = zlen leaves ∧
    (zlen leaves = 2 ^ d → Append tree extra = Err ErrTreeFull).
Proof.
  intros Hd Hlen. destruct (NewIncrementalTree_represents d Hd) as (t0 & Hnew & H0).
  rewrite Hnew. destruct (AppendAll_refines d leaves [] t0 H0 Hlen) as (t & Ht & Hr).
  cbn in Hr. exists t. pose proof (Append_refines d leaves t extra Hr) as Hfull.
  destruct Hr as (_ & _ & _ & Hn & _ & _ & _ & Hroot).
  split_and!; [done|done|done|]. intros Heq.
  destruct (Append t extra) as [t'|e]; [lia|]. by destruct Hfull as [-> _].
Qed.

Lemma witness_closes (d : Z) (leaves : list Hash) (index : Z) :
  1 ≤ d ≤ 32 → 0 ≤ index < 2 ^ d →
  let w := witness_for d leaves index in
  RootFromWitness (leaf_at leaves index) w.(LeafIndex) w.(Siblings) d
  = Ok (merkle_root d leaves).
Proof.
  intros Hd Hi w. apply RootFromWitness_ok; [lia|]. subst w. cbn [LeafIndex Siblings witness_for].
  split_and!; try lia.
  - unfold zlen. rewrite length_sibling_path. lia.
  - change (leaf_at leaves index) with (node (leaf_at leaves) 0 index).
    rewrite witness_loop_node. unfold merkle_root. rewrite Nat.add_0_l.
    by rewrite Z2Nat.id, Z.div_small by lia.
Qed.

(** Completeness of membership witnesses: the sibling path of any index
    of the tree closes at the root of the tree. *)
Theorem witness_complete (d : Z) (leaves : list Hash) (index : Z) :
  1 ≤ d ≤ 32 → 0 ≤ index < 2 ^ d →
  let w := witness_for d leaves index in
  RootFromWitness (leaf_at leaves index) w.(LeafIndex) w.(Siblings) d
  = Ok (merkle_root d leaves).
Proof. apply witness_closes. Qed.

Lemma app_swap_inj (a b c e : Hash) (l : bool) :
  (if l then a ++ b else b ++ a : bytes) = (if l then c ++ e else e ++ c) → a = c ∧ b = e.
Proof.
  intros H. destruct l; apply app_inj_1 in H as [H1 H2]; try length_tac;
    split; by apply vec_to_list_inj2.
Qed.

(** Equal results of the witness loop, step by step. *)
Lemma witness_loop_binding : ∀ s1 s2 r1 r2 index,
  length s1 = length s2 →
  witness_loop r1 index s1 = witness_loop r2 index s2 →
  (r1 = r2 ∧ s1 = s2) ∨
  collision_between (witness_inputs r1 index s1) (witness_inputs r2 index s2).
Proof.
  induction s1 as [|a s1 IH]; intros [|b s2] r1 r2 index Hlen H; try done.
  { left. done. }
  cbn [witness_loop witness_inputs] in *. injection Hlen as Hlen.
  set (e := Z.land index 1 =? 0) in *.
  assert (∀ r s, (if e then HashPair r s else HashPair s r)
                 = keccak256 (if e then r ++ s else s ++ r)) as Hk by (by destruct e).
  rewrite !Hk in H. destruct (IH _ _ _ _ Hlen H) as [[Heq ->]|(x & y & Hin & Hne & Hc)].
  - destruct (decide ((if e then r1 ++ a else a ++ r1) = (if e then r2 ++ b else b ++ r2)
                      :> bytes)) as [Hd|Hd].
    + apply app_swap_inj in Hd as [-> ->]. by left.
    + right. eexists _, _. split; [by left|]. done.
  - right. exists x, y. split; [by right|]. done.
Qed.

(** Binding of membership witnesses: two witnesses for the same index
    that close at the same root have the same leaf and the same siblings,
    unless the two checks hash different inputs to the same digest at the
    same level. *)
Theorem witness_binding (leaf1 leaf2 : Hash) (index : Z) (s1 s2 : list Hash) (d : Z) (r : Hash) :
  0 ≤ d →
  RootFromWitness leaf1 index s1 d = Ok r →
  RootFromWitness leaf2 index s2 d = Ok r →
  (leaf1 = leaf2 ∧ s1 = s2) ∨
  collision_between (witness_inputs leaf1 index s1) (witness_inputs leaf2 index s2).
Proof.
  intros Hd (_ & Hl1 & _ & Hr1)%RootFromWitness_ok (_ & Hl2 & _ & Hr2)%RootFromWitness_ok; try done.
  apply witness_loop_binding; [unfold zlen in *; lia|congruence].
Qed.

(** ** Theorems on paths *)

Lemma trust_chain_path_loop d r hashes ws home :
  1 ≤ d ≤ 32 → trust_chain d r hashes ws home →
  path_loop r hashes ws d = Ok home ∧ length hashes = length ws.
Proof.
  intros Hd. induction 1 as [|r bh index leaves hashes ws home Hi Hleaf _ [IH IHl]];
    cbn [path_loop]; [done|].
  rewrite <-Hleaf, witness_closes by done. cbn. by rewrite IH, IHl.
Qed.

(** Completeness of path verification: a non-empty chain of committed
    dependencies from the base TrustRoot to the home TrustRoot is accepted. *)
Theorem VerifyPath_complete (d : Z) (base : Hash) (hashes : list Hash)
    (ws : list MembershipWitness) (home : Hash) :
  1 ≤ d ≤ 32 → hashes ≠ [] → trust_chain d base hashes ws home →
  VerifyPath base hashes ws home d = Ok tt.
Proof.
  intros Hd Hne (Hloop & Hlen)%trust_chain_path_loop; [|done].
  unfold VerifyPath. rewrite (proj2 (validateDepth_ok d ltac:(lia)) Hd). cbn -[zlen].
  destruct (Z.eqb_spec (zlen hashes) 0) as [H0%zlen_nil_iff|_]; [done|].
  unfold zlen at 1 2. rewrite Hlen, Z.eqb_refl. cbn. rewrite Hloop. cbn.
  by rewrite bool_decide_eq_true_2.
Qed.

Lemma VerifyPath_ok d base hashes ws home :
  VerifyPath base hashes ws home d = Ok tt ↔
  validateDepth d = Ok tt ∧ hashes ≠ [] ∧ length hashes = length ws ∧
  path_loop base hashes ws d = Ok home.
Proof.
  unfold VerifyPath. destruct (validateDepth d) as [[]|]; cbn -[zlen]; [|naive_solver].
  destruct (Z.eqb_spec (zlen hashes) 0) as [H0%zlen_nil_iff|H0]; [naive_solver|].
  rewrite zlen_nil_iff in H0. unfold zlen.
  destruct (Z.eqb_spec (Z.of_nat (length hashes)) (Z.of_nat (length ws))); cbn;
    [|split; [done|intros (_&_&?&_); lia]].
  destruct (path_loop base hashes ws d) as [r|]; cbn; [|naive_solver].
  case_bool_decide; cbn; split; try done; [intros _; split_and!; try done; [lia|congruence]|].
  intros (_ & _ & _ & [= ->]). done.
Qed.

Lemma collision_app (X Y X' Y' : list bytes) :
  length X = length Y →
  collision_between X Y ∨ collision_between X' Y' →
  collision_between (X ++ X') (Y ++ Y').
Proof.
  intros Hl [(x & y & Hin & Hc)|(x & y & Hin & Hc)]; exists x, y; (split; [|done]);
    rewrite zip_with_app by done; apply elem_of_app; auto.
Qed.

Lemma length_witness_inputs s : ∀ r i, length (witness_inputs r i s) = length s.
Proof. induction s; intros; cbn; auto. Qed.

Lemma path_loop_binding d : ∀ hashes1 hashes2 ws1 ws2 r1 r2 home,
  0 ≤ d →
  length hashes1 = length ws1 → length hashes2 = length ws2 →
  LeafIndex <$> ws1 = LeafIndex <$> ws2 →
  path_loop r1 hashes1 ws1 d = Ok home → path_loop r2 hashes2 ws2 d = Ok home →
  (r1 = r2 ∧ hashes1 = hashes2 ∧ ws1 = ws2) ∨
  collision_between (path_inputs r1 hashes1 ws1) (path_inputs r2 hashes2 ws2).
Proof.
  intros h1 h2 w1. revert h1 h2.
  induction w1 as [|[i1 s1] w1 IH]; intros [|b1 h1] [|b2 h2] [|[i2 s2] w2] r1 r2 home Hd
    Hl1 Hl2 Hi H1 H2; cbn in *; try done.
  { left. naive_solver congruence. }
  injection Hi as -> Hi. injection Hl1 as Hl1. injection Hl2 as Hl2.
  apply bind_Ok in H1 as (r1' & Hw1 & H1), H2 as (r2' & Hw2 & H2).
  apply RootFromWitness_ok in Hw1 as (_ & Hs1 & _ & ->), Hw2 as (_ & Hs2 & _ & ->); try done.
  assert (length s1 = length s2) as Hs by (unfold zlen in *; lia).
  destruct (IH _ _ _ _ _ _ Hd Hl1 Hl2 Hi H1 H2) as [(Heq & -> & ->)|Hc].
  - destruct (witness_loop_binding _ _ _ _ _ Hs Heq) as [[Hleaf ->]|Hc].
    + destruct (decide ((r1 ++ b1 : bytes) = r2 ++ b2)) as [Hd'|Hd'].
      * apply (app_swap_inj r1 b1 r2 b2 true) in Hd' as [-> ->]. by left.
      * right. eexists _, _. split; [by left|]. done.
    + right. apply (collision_app [_] [_]); [done|]. right.
      apply collision_app; [by rewrite !length_witness_inputs|]. by left.
  - right. apply (collision_app [_] [_]); [done|]. right.
    apply collision_app; [by rewrite !length_witness_inputs|]. by right.
Qed.

(** C18. Binding of accepted paths: two PathProof payloads accepted against
    the same home TrustRoot with the same leaf indices carry the same base
    TrustRoot, the same block hashes and the same witnesses, unless the two
    verifications hash different inputs to the same digest at the same
    step. *)
Theorem VerifyPath_binding (d : Z) (base1 base2 : Hash) (hashes1 hashes2 : list Hash)
    (ws1 ws2 : list MembershipWitness) (home : Hash) :
  0 ≤ d →
  LeafIndex <$> ws1 = LeafIndex <$> ws2 →
  VerifyPath base1 hashes1 ws1 home d = Ok tt →
  VerifyPath base2 hashes2 ws2 home d = Ok tt →
  (base1 = base2 ∧ hashes1 = hashes2 ∧ ws1 = ws2) ∨
  collision_between (path_inputs base1 hashes1 ws1) (path_inputs base2 hashes2 ws2).
Proof.
  intros Hd Hi (_ & _ & Hl1 & H1)%VerifyPath_ok (_ & _ & Hl2 & H2)%VerifyPath_ok.
  by eapply path_loop_binding.
Qed.
End Tree.

(** ** Witnesses *)

Definition sample_leaves : list Hash := [be_vec 32 11; be_vec 32 12; be_vec 32 13; be_vec 32 14].

Lemma incremental_tree_refines_witness :
  ∃ tree, (tree0 ← NewIncrementalTree sample_hash 2; AppendAll sample_hash tree0 sample_leaves)
            = Ok tree ∧
    tree.(root) = merkle_root sample_hash 2 sample_leaves ∧
    Append sample_hash tree (be_vec 32 15) = Err ErrTreeFull.
Proof.
  destruct (incremental_tree_refines sample_hash 2 sample_leaves (be_vec 32 15)
    ltac:(lia) ltac:(vm_compute; discriminate)) as (tree & H1 & H2 & _ & H3).
  exists tree. exact (conj H1 (conj H2 (H3 eq_refl))).
Defined.

Lemma witness_complete_witness :
  let w := witness_for sample_hash 2 sample_leaves 2 in
  RootFromWitness sample_hash (be_vec 32 13) w.(LeafIndex) w.(Siblings) 2
  = Ok (merkle_root sample_hash 2 sample_leaves).
Proof. exact (witness_complete sample_hash 2 sample_leaves 2 ltac:(lia) ltac:(lia)). Defined.

Lemma witness_binding_witness :
  let w := witness_for sample_hash 2 sample_leaves 2 in
  RootFromWitness sample_hash (be_vec 32 13) 2 w.(Siblings) 2
    = Ok (merkle_root sample_hash 2 sample_leaves) ∧
  ((be_vec 32 13 = be_vec 32 13 ∧ w.(Siblings) = w.(Siblings)) ∨
   collision_between sample_hash (witness_inputs sample_hash (be_vec 32 13) 2 w.(Siblings))
     (witness_inputs sample_hash (be_vec 32 13) 2 w.(Siblings))).
Proof.
  intros w.
  assert (RootFromWitness sample_hash (be_vec 32 13) 2 w.(Siblings) 2
    = Ok (merkle_root sample_hash 2 sample_leaves)) as H
    by (exact (witness_closes sample_hash 2 sample_leaves 2 ltac:(lia) ltac:(lia))).
  split; [exact H|]. exact (witness_binding sample_hash _ _ 2 _ _ 2 _ ltac:(lia) H H).
Defined.

(** A block hash bound to a TrustRoot under the only leaf of a tree of depth 1. *)
Definition sample_root : Hash := be_vec 32 21.
Definition sample_block : Hash := be_vec 32 22.
Definition sample_home : Hash :=
  merkle_root sample_hash 1 [LeafHash sample_hash sample_root sample_block].
Definition sample_path_witness : MembershipWitness :=
  witness_for sample_hash 1 [LeafHash sample_hash sample_root sample_block] 0.

Lemma VerifyPath_complete_witness :
  VerifyPath sample_hash sample_root [sample_block] [sample_path_witness] sample_home 1 = Ok tt.
Proof.
  refine (VerifyPath_complete sample_hash 1 sample_root [sample_block] [sample_path_witness]
    sample_home ltac:(lia) ltac:(discriminate) _).
  apply trust_chain_cons; [lia|reflexivity|constructor].
Defined.

(** The same source, bound at another position of a larger tree, does not get
    the same indices; with the same indices the whole payload is determined. *)
Lemma VerifyPath_binding_witness :
  VerifyPath sample_hash sample_root [sample_block] [sample_path_witness] sample_home 1 = Ok tt ∧
  ((sample_root = sample_root ∧ [sample_block] = [sample_block] ∧
    [sample_path_witness] = [sample_path_witness]) ∨
   collision_between sample_hash (path_inputs sample_hash sample_root [sample_block] [sample_path_witness])
     (path_inputs sample_hash sample_root [sample_block] [sample_path_witness])).
Proof.
  assert (VerifyPath sample_hash sample_root [sample_block] [sample_path_witness] sample_home 1
          = Ok tt) as H by (vm_compute; reflexivity).
  split; [exact H|].
  exact (VerifyPath_binding sample_hash 1 _ _ _ _ _ _ _ ltac:(lia) eq_refl H H).
Defined.

End Merkle.
