(* ===== verification/Heap.v ===== *)
(** * Go's container/heap over a slice

    Both shortest-path searches of the repository keep their frontier in a
    slice managed by [container/heap].  The three operations they use
    ([heap.Init], [heap.Push], [heap.Pop]) are modelled on the array, with the
    index arithmetic of the library, and shown to implement the interface
    [PriorityQueue] against which the searches are verified: the contents as
    a multiset, and extraction of a minimum. *)

From S2P Require Import Prelude.

Local Open Scope nat_scope.

(** ** The interface

    [less] is the [Less] method of the element type; [pq_elems] is the
    contents of the queue; [pq_inv] is what every operation maintains. *)
Class PriorityQueue (Q A : Type) (less : A → A → bool) := {
  pq_elems : Q → list A;
  pq_inv : Q → Prop;
  pq_empty : Q;
  pq_push : Q → A → Q;
  pq_pop : Q → option (A * Q);
  pq_empty_inv : pq_inv pq_empty;
  pq_empty_elems : pq_elems pq_empty = [];
  pq_push_inv q x : pq_inv q → pq_inv (pq_push q x);
  pq_push_elems q x : pq_elems (pq_push q x) ≡ₚ x :: pq_elems q;
  pq_pop_None q : pq_pop q = None ↔ pq_elems q = [];
  pq_pop_elems q x q' : pq_pop q = Some (x, q') → pq_elems q ≡ₚ x :: pq_elems q';
  pq_pop_inv q x q' : pq_inv q → pq_pop q = Some (x, q') → pq_inv q';
  pq_pop_min q x q' y :
    pq_inv q → pq_pop q = Some (x, q') → y ∈ pq_elems q' → less y x = false;
}.

Section Heap.
Context {A : Type} (less : A → A → bool).

(** [h.Less(i, j)] and [h.Swap(i, j)] on in-range indices. *)
Definition less_at (h : list A) (i j : nat) : bool :=
  match h !! i, h !! j with
  | Some x, Some y => less x y
  | _, _ => false
  end.

Definition swap (h : list A) (i j : nat) : list A :=
  match h !! i, h !! j with
  | Some x, Some y => <[i := y]> (<[j := x]> h)
  | _, _ => h
  end.

(** [up(h, j)]: the parent is [(j-1)/2], which is [0] for [j = 0] in both
    Go's truncating and Rocq's natural division. *)
Fixpoint up (fuel : nat) (h : list A) (j : nat) : list A :=
  match fuel with
  | O => h
  | S fuel' =>
      let i := (j - 1) / 2 in
      if (i =? j) || negb (less_at h j i) then h
      else up fuel' (swap h i j) i
  end.

(** [down(h, i, n)] on the first [n] slots. *)
Fixpoint down (fuel : nat) (h : list A) (i n : nat) : list A :=
  match fuel with
  | O => h
  | S fuel' =>
      let j1 := 2 * i + 1 in
      if n <=? j1 then h
      else
        let j2 := j1 + 1 in
        let j := if (j2 <? n) && less_at h j2 j1 then j2 else j1 in
        if negb (less_at h j i) then h
        else down fuel' (swap h i j) j n
  end.

(** [heap.Init]: [for i := n/2 - 1; i >= 0; i--]. *)
Fixpoint init_loop (k : nat) (h : list A) : list A :=
  match k with
  | O => h
  | S i => init_loop i (down (length h) h i (length h))
  end.

Definition heap_init (h : list A) : list A := init_loop (length h / 2) h.

Definition heap_push (h : list A) (x : A) : list A :=
  let h' := h ++ [x] in up (length h') h' (length h' - 1).

(** [heap.Pop] swaps the root with the last slot, restores the order on the
    others and removes the last slot. *)
Definition heap_pop (h : list A) : option (A * list A) :=
  match length h with
  | O => None
  | S n =>
      let h' := down n (swap h 0 n) 0 n in
      match h' !! n with
      | Some x => Some (x, take n h')
      | None => None
      end
  end.

(** ** Shape lemmas: every operation permutes the array *)

Lemma swap_lookup_oob h i j : h !! i = None ∨ h !! j = None → swap h i j = h.
Proof. unfold swap. intros [->| ->]; [done|]. by destruct (h !! i). Qed.

Lemma length_swap h i j : length (swap h i j) = length h.
Proof. unfold swap. repeat case_match; rewrite ?length_insert; done. Qed.

Lemma swap_lookup h i j k :
  i < length h → j < length h →
  swap h i j !! k = if decide (k = i) then h !! j else if decide (k = j) then h !! i else h !! k.
Proof.
  intros [x Hx]%lookup_lt_is_Some_2 [y Hy]%lookup_lt_is_Some_2. unfold swap.
  rewrite Hx, Hy. pose proof (lookup_lt_Some _ _ _ Hx). pose proof (lookup_lt_Some _ _ _ Hy).
  destruct (decide (k = i)) as [->|Hki].
  - by rewrite list_lookup_insert_eq by (rewrite length_insert; done).
  - rewrite list_lookup_insert_ne by done.
    destruct (decide (k = j)) as [->|Hkj].
    + by rewrite list_lookup_insert_eq.
    + by rewrite list_lookup_insert_ne.
Qed.

Lemma swap_perm h i j : swap h i j ≡ₚ h.
Proof.
  destruct (decide (i < length h ∧ j < length h)) as [[Hi Hj]|Hn].
  - assert (length (swap h i j) = length h) by apply length_swap.
    apply Permutation_inj. split; [done|].
    exists (λ k, if decide (k = i) then j else if decide (k = j) then i else k).
    split.
    + intros a b. repeat case_decide; subst; try done; intros; congruence.
    + intros k. rewrite swap_lookup by done. repeat case_decide; subst; done.
  - rewrite swap_lookup_oob; [done|].
    destruct (decide (i < length h)).
    + right. apply lookup_ge_None_2. lia.
    + left. apply lookup_ge_None_2. lia.
Qed.

Lemma up_perm fuel : ∀ h j, up fuel h j ≡ₚ h.
Proof.
  induction fuel as [|fuel IH]; intros h j; cbn [up]; [done|].
  case_match; [done|]. by rewrite IH, swap_perm.
Qed.

Lemma down_perm fuel : ∀ h i n, down fuel h i n ≡ₚ h.
Proof.
  induction fuel as [|fuel IH]; intros h i n; cbn [down]; [done|].
  case_match; [done|]. case_match; [done|]. by rewrite IH, swap_perm.
Qed.

(** [down] leaves the slots from [n] on alone. *)
Lemma down_lookup_ge fuel : ∀ h i n k,
  n ≤ length h → i < n → n ≤ k → down fuel h i n !! k = h !! k.
Proof.
  induction fuel as [|fuel IH]; intros h i n k Hn Hi Hk; cbn [down]; [done|].
  destruct (Nat.leb_spec n (2 * i + 1)); [done|].
  set (j := if (_ && _) then _ else _). case_match; [done|].
  assert (j < n).
  { subst j. destruct ((2 * i + 1 + 1 <? n) && _) eqn:Hb; [|lia].
    apply andb_true_iff in Hb as [Hb%Nat.ltb_lt _]. lia. }
  rewrite IH by (rewrite ?length_swap; lia).
  rewrite swap_lookup by lia. by rewrite !decide_False by lia.
Qed.

Section Order.
Hypothesis less_asym : ∀ x y, less x y = true → less y x = false.
Hypothesis less_neg_trans : ∀ x y z,
  less y x = false → less z y = false → less z x = false.

Definition parent (k : nat) : nat := (k - 1) / 2.

Lemma parent_spec k i : 0 < k → parent k = i ↔ k = 2 * i + 1 ∨ k = 2 * i + 2.
Proof.
  unfold parent. intros Hk. pose proof (Nat.div_mod_eq (k - 1) 2).
  pose proof (Nat.mod_upper_bound (k - 1) 2). lia.
Qed.

Lemma parent_lt k : 0 < k → parent k < k.
Proof. intros Hk. pose proof (proj1 (parent_spec k _ Hk) eq_refl). lia. Qed.

(** The value of slot [i] is at most the value of slot [j]. *)
Definition slot_le (h : list A) (i j : nat) : Prop := less_at h j i = false.

Lemma slot_le_trans h i j k :
  j < length h → slot_le h i j → slot_le h j k → slot_le h i k.
Proof.
  unfold slot_le, less_at. intros [y Hy]%lookup_lt_is_Some_2. rewrite Hy.
  destruct (h !! i), (h !! k); try done. apply less_neg_trans.
Qed.

Lemma slot_less_le h i j : less_at h i j = true → slot_le h i j.
Proof.
  unfold slot_le, less_at. destruct (h !! i), (h !! j); try done. apply less_asym.
Qed.

Lemma slot_le_refl h i : slot_le h i i.
Proof.
  unfold slot_le, less_at. destruct (h !! i) as [x|]; [|done].
  destruct (less x x) eqn:E; [|done]. by rewrite (less_asym _ _ E) in E.
Qed.

(** Comparisons after a swap are comparisons before it. *)
Definition swapped (i j k : nat) : nat :=
  if decide (k = i) then j else if decide (k = j) then i else k.

Lemma slot_le_swap h i j a b :
  i < length h → j < length h →
  slot_le (swap h i j) a b ↔ slot_le h (swapped i j a) (swapped i j b).
Proof.
  intros Hi Hj. unfold slot_le, less_at, swapped. rewrite !swap_lookup by done.
  repeat case_decide; done.
Qed.

(** Heap order on the slots [< n] whose parent is [>= lo]. *)
Definition heap_from (lo n : nat) (h : list A) : Prop :=
  ∀ k, 0 < k < n → lo ≤ parent k → slot_le h (parent k) k.

Definition is_heap (h : list A) : Prop := heap_from 0 (length h) h.

(** Heap order except below slot [i], whose children still dominate the
    parent of [i]. *)
Definition hole_down (lo n : nat) (h : list A) (i : nat) : Prop :=
  (∀ k, 0 < k < n → lo ≤ parent k → parent k ≠ i → slot_le h (parent k) k) ∧
  (∀ k, 0 < k < n → parent k = i → 0 < i → lo ≤ parent i → slot_le h (parent i) k).

Lemma down_child h i n :
  2 * i + 1 < n →
  let j := if (2 * i + 1 + 1 <? n) && less_at h (2 * i + 1 + 1) (2 * i + 1)
           then 2 * i + 1 + 1 else 2 * i + 1 in
  i < j < n ∧ parent j = i ∧ ∀ k, 0 < k < n → parent k = i → slot_le h j k.
Proof.
  intros Hn j. assert (i < j < n ∧ parent j = i) as [Hj Hp].
  { subst j. destruct ((2 * i + 1 + 1 <? n) && _) eqn:Hb;
      [apply andb_true_iff in Hb as [Hb%Nat.ltb_lt _]|];
      (split; [lia|]); apply parent_spec; lia. }
  split; [done|]. split; [done|]. intros k Hk Hpk. apply parent_spec in Hpk; [|lia].
  subst j. destruct (Nat.ltb_spec (2 * i + 1 + 1) n) as [H2|H2]; cbn [andb].
  - destruct (less_at h (2 * i + 1 + 1) (2 * i + 1)) eqn:E; destruct Hpk as [->| ->].
    + by apply slot_less_le.
    + replace (2 * i + 2) with (2 * i + 1 + 1) by lia. apply slot_le_refl.
    + apply slot_le_refl.
    + replace (2 * i + 2) with (2 * i + 1 + 1) by lia. exact E.
  - assert (k = 2 * i + 1) as -> by lia. apply slot_le_refl.
Qed.

Lemma down_heap lo n fuel : ∀ h i,
  n ≤ length h → lo ≤ i → n ≤ i + fuel → hole_down lo n h i →
  heap_from lo n (down fuel h i n).
Proof.
  induction fuel as [|fuel IH]; intros h i Hn Hlo Hf [Ho Hc]; cbn [down].
  { intros k Hk Hpk. apply Ho; [done|done|]. pose proof (parent_lt k). lia. }
  destruct (Nat.leb_spec n (2 * i + 1)) as [Hle|Hgt].
  { intros k Hk Hpk. apply Ho; [done|done|]. intros Hp.
    apply parent_spec in Hp; lia. }
  pose proof (down_child h i n Hgt) as Hchild. cbn zeta in Hchild.
  set (j := if _ && _ then _ else _) in *. destruct Hchild as (Hij & Hpj & Hmin).
  destruct (less_at h j i) eqn:E; cbn [negb].
  - apply IH; [by rewrite length_swap|lia|lia|].
    apply slot_less_le in E. split.
    + intros k Hk Hpk Hkj. apply slot_le_swap; [lia..|]. unfold swapped.
      destruct (decide (parent k = i)) as [Hpi|Hpi].
      * destruct (decide (k = i)) as [->|]; [pose proof (parent_lt i); lia|].
        destruct (decide (k = j)) as [->|]; [done|]. by apply Hmin.
      * rewrite (decide_False (P := parent k = j)) by done.
        destruct (decide (k = i)) as [->|]; [apply Hc; (done || lia)|].
        rewrite decide_False by (intros ->; done). by apply Ho.
    + intros k Hk Hpk Hj0 Hpj'. apply slot_le_swap; [lia..|]. unfold swapped.
      assert (j < k) by (pose proof (parent_lt k); lia).
      rewrite Hpj, decide_True by done. rewrite !decide_False by lia.
      rewrite <-Hpk. apply Ho; [done|lia|lia].
  - intros k Hk Hpk. destruct (decide (parent k = i)) as [Hpi|Hpi]; [|by apply Ho].
    rewrite Hpi. apply (slot_le_trans h i j k); [lia|exact E|by apply Hmin].
Qed.

(** Heap order except between slot [j] and its parent. *)
Definition hole_up (h : list A) (j : nat) : Prop :=
  (∀ k, 0 < k < length h → k ≠ j → slot_le h (parent k) k) ∧
  (∀ k, 0 < k < length h → parent k = j → 0 < j → slot_le h (parent j) k).

Lemma up_heap fuel : ∀ h j,
  j < length h → j < fuel → hole_up h j → is_heap (up fuel h j).
Proof.
  induction fuel as [|fuel IH]; intros h j Hj Hf [Ho Hc]; cbn [up]; [lia|].
  fold (parent j). destruct (Nat.eqb_spec (parent j) j) as [Heq|Hne]; cbn [orb].
  { intros k Hk _. destruct (decide (k = j)) as [->|]; [|by apply Ho].
    pose proof (parent_lt j). lia. }
  assert (0 < j) by (destruct j; [done|lia]). pose proof (parent_lt j).
  destruct (less_at h j (parent j)) eqn:E; cbn [negb].
  - apply IH; [rewrite length_swap; lia|lia|]. apply slot_less_le in E.
    split; intros k Hk; rewrite length_swap in Hk.
    + intros Hki. apply slot_le_swap; [lia..|]. unfold swapped.
      destruct (decide (k = j)) as [->|Hkj].
      * rewrite (decide_False (P := j = parent j)), decide_True by (done || lia).
        done.
      * rewrite (decide_False (P := k = parent j)) by done.
        destruct (decide (parent k = parent j)) as [Hpk|Hpk].
        -- apply (slot_le_trans h j (parent j) k); [lia|done|].
           rewrite <-Hpk. by apply Ho.
        -- destruct (decide (parent k = j)) as [Hpkj|]; [by apply Hc|by apply Ho].
    + intros Hpk Hp0. apply slot_le_swap; [lia..|].
      pose proof (parent_lt (parent j) Hp0). unfold swapped.
      rewrite (decide_False (P := parent (parent j) = parent j)) by lia.
      rewrite (decide_False (P := parent (parent j) = j)) by lia.
      assert (k ≠ parent j) by (pose proof (parent_lt k); lia).
      rewrite (decide_False (P := k = parent j)) by done.
      assert (slot_le h (parent (parent j)) (parent j)) by (apply Ho; lia).
      destruct (decide (k = j)) as [->|]; [done|].
      apply (slot_le_trans h _ (parent j)); [lia|done|]. rewrite <-Hpk. apply Ho; [lia|done].
  - intros k Hk _. destruct (decide (k = j)) as [->|]; [exact E|by apply Ho].
Qed.

(** ** What the three operations promise *)

Lemma is_heap_root h k : is_heap h → k < length h → slot_le h 0 k.
Proof.
  intros Hh. induction k as [k IH] using lt_wf_ind. intros Hk.
  destruct (decide (k = 0)) as [->|]; [apply slot_le_refl|].
  pose proof (parent_lt k ltac:(lia)).
  apply (slot_le_trans h 0 (parent k) k); [lia|apply IH; lia|apply Hh; lia].
Qed.

Lemma heap_push_heap h x : is_heap h → is_heap (heap_push h x).
Proof.
  intros Hh. unfold heap_push. rewrite length_app. cbn [length].
  replace (length h + 1 - 1) with (length h) by lia.
  apply up_heap; [rewrite length_app; cbn; lia|lia|].
  split; intros k Hk; rewrite length_app in Hk; cbn [length] in Hk.
  - intros Hne. pose proof (parent_lt k ltac:(lia)).
    specialize (Hh k ltac:(lia) ltac:(lia)). unfold slot_le, less_at in *.
    by rewrite !lookup_app_l by lia.
  - intros Hp. pose proof (parent_lt k ltac:(lia)). lia.
Qed.

Lemma heap_push_perm h x : heap_push h x ≡ₚ x :: h.
Proof.
  unfold heap_push. rewrite up_perm. by rewrite Permutation_app_comm.
Qed.

Lemma heap_pop_None h : heap_pop h = None ↔ h = [].
Proof.
  unfold heap_pop. destruct h as [|x h]; [done|]. cbn [length].
  set (h' := down _ _ _ _).
  assert (length h' = S (length h)) as Hl.
  { subst h'. by rewrite (Permutation_length (down_perm _ _ _ _)), length_swap. }
  destruct (lookup_lt_is_Some_2 h' (length h) ltac:(lia)) as [y ->]. done.
Qed.

Lemma heap_pop_perm h x h' : heap_pop h = Some (x, h') → h ≡ₚ x :: h'.
Proof.
  unfold heap_pop. destruct (length h) as [|n] eqn:Hl; [done|].
  set (d := down _ _ _ _). destruct (d !! n) as [y|] eqn:Hy; [|done].
  intros [= -> <-].
  assert (d ≡ₚ h) as Hd by (subst d; by rewrite down_perm, swap_perm).
  assert (length d = S n) as Hld by (by rewrite (Permutation_length Hd)).
  rewrite <-Hd. rewrite <-(take_drop_middle d n x Hy) at 1.
  rewrite drop_ge by lia. by rewrite <-Permutation_cons_append.
Qed.

Lemma heap_pop_heap h x h' :
  is_heap h → heap_pop h = Some (x, h') →
  is_heap h' ∧ ∀ y, y ∈ h' → less y x = false.
Proof.
  intros Hh Hpop. pose proof (heap_pop_perm h x h' Hpop) as Hperm. revert Hpop.
  unfold heap_pop. destruct (length h) as [|n] eqn:Hl; [done|].
  set (d := down _ _ _ _). destruct (d !! n) as [y|] eqn:Hy; [|done].
  intros [= -> <-].
  assert (length (swap h 0 n) = S n) as Hls by (by rewrite length_swap).
  assert (length d = S n) as Hld.
  { subst d. by rewrite (Permutation_length (down_perm _ _ _ _)). }
  split.
  - assert (heap_from 0 n d) as Hd.
    { apply down_heap; [lia..|]. split; intros k Hk.
      - intros _ Hp0. pose proof (parent_lt k ltac:(lia)).
        apply slot_le_swap; [lia..|]. unfold swapped.
        rewrite !decide_False by lia. apply Hh; lia.
      - intros _ Hlt. lia. }
    intros k Hk Hp. rewrite length_take in Hk. pose proof (parent_lt k ltac:(lia)).
    specialize (Hd k ltac:(lia) Hp). unfold slot_le, less_at in *.
    by rewrite !lookup_take_lt by lia.
  - assert (h !! 0 = Some x) as Hx.
    { destruct (decide (n = 0)) as [->|].
      - subst d. cbn in Hy. rewrite swap_lookup in Hy by lia.
        by rewrite decide_True in Hy by done.
      - subst d. rewrite down_lookup_ge, swap_lookup in Hy by lia.
        rewrite decide_False, decide_True in Hy by lia. done. }
    intros y Hin. assert (y ∈ h) as [k Hk]%list_elem_of_lookup.
    { rewrite Hperm. by right. }
    pose proof (is_heap_root h k Hh (lookup_lt_Some _ _ _ Hk)) as Hr.
    unfold slot_le, less_at in Hr. by rewrite Hk, Hx in Hr.
Qed.

Lemma heap_init_singleton x : heap_init [x] = [x] ∧ is_heap [x].
Proof. split; [done|]. intros k Hk. cbn in Hk. lia. Qed.

Lemma init_loop_heap k : ∀ h,
  k ≤ length h / 2 → heap_from k (length h) h →
  is_heap (init_loop k h) ∧ init_loop k h ≡ₚ h.
Proof.
  induction k as [|i IH]; intros h Hk Hh; cbn [init_loop]; [done|].
  set (d := down _ _ _ _).
  assert (d ≡ₚ h) as Hp by apply down_perm.
  pose proof (Permutation_length Hp) as Hl.
  destruct (IH d) as [H1 H2]; [rewrite Hl; lia| |].
  - rewrite Hl. apply down_heap; [lia..|]. split; intros k Hk'.
    + intros Hik Hne. apply Hh; lia.
    + intros Hpk Hi0 Hpi. pose proof (parent_lt i Hi0). lia.
  - split; [done|]. by rewrite H2.
Qed.

(** [heap.Init] establishes the heap order on any slice. *)
Lemma heap_init_heap h : is_heap (heap_init h) ∧ heap_init h ≡ₚ h.
Proof.
  apply init_loop_heap; [lia|]. intros k Hk Hp. exfalso.
  pose proof (proj1 (parent_spec k _ ltac:(lia)) eq_refl).
  pose proof (Nat.div_mod_eq (length h) 2). pose proof (Nat.mod_upper_bound (length h) 2). lia.
Qed.
End Order.
End Heap.

(** ** The slice heap is a priority queue

    [StrictWeak less] is what [container/heap] asks of [Less]. *)
Class StrictWeak {A} (less : A → A → bool) := {
  strict_weak_asym x y : less x y = true → less y x = false;
  strict_weak_neg_trans x y z : less y x = false → less z y = false → less z x = false;
}.

#[export] Program Instance heap_priority_queue {A} (less : A → A → bool) `{!StrictWeak less} :
    PriorityQueue (list A) A less := {|
  pq_elems h := h;
  pq_inv h := is_heap less h;
  pq_empty := [];
  pq_push := heap_push less;
  pq_pop := heap_pop less;
|}.
Next Obligation. intros A less ? k Hk. cbn in Hk. lia. Qed.
Next Obligation. done. Qed.
Next Obligation.
  intros. apply heap_push_heap; auto using strict_weak_asym.
  exact strict_weak_neg_trans.
Qed.
Next Obligation. intros. apply heap_push_perm. Qed.
Next Obligation. intros. apply heap_pop_None. Qed.
Next Obligation. intros. by apply heap_pop_perm with less. Qed.
Next Obligation.
  intros A less ? h x h' Hh Hp. eapply heap_pop_heap; eauto.
  - exact strict_weak_asym.
  - exact strict_weak_neg_trans.
Qed.
Next Obligation.
  intros A less ? h x h' y Hh Hp Hy. eapply heap_pop_heap; eauto.
  - exact strict_weak_asym.
  - exact strict_weak_neg_trans.
Qed.
