(* ===== verification/BestFirst.v ===== *)
(** * Best-first search: the invariant shared by the two planners

    The live planner ([shortestPath], Mapnode/planner) and the replay planner
    ([ShortestPath], Mapnode/replay) are both label-setting searches: a queue
    of (node, label) items ordered by label, the best label known per node,
    items whose label is no longer the best skipped when popped.  This file
    states the invariant of such a loop over an abstract label order and
    proves what one pop, one relaxation, success and exhaustion give.  The
    planners instantiate it with their own labels (cost, hop count and edge
    identifiers; cost only). *)

From S2P Require Import Prelude.

(** A total preorder given by a three-way comparison. *)
Class Comparison {L} (cmp : L → L → comparison) := {
  cmp_refl l : cmp l l = Eq;
  cmp_antisym l k : cmp k l = CompOpp (cmp l k);
  cmp_trans l k m : cmp l k ≠ Gt → cmp k m ≠ Gt → cmp l m ≠ Gt;
}.

Arguments cmp_refl {L} cmp {_} l.
Arguments cmp_antisym {L} cmp {_} l k.
Arguments cmp_trans {L} cmp {_} l k m.

Section Preorder.
Context {L} (cmp : L → L → comparison) `{!Comparison cmp}.

Lemma cmp_eq_sym l k : cmp l k = Eq → cmp k l = Eq.
Proof. intros H. by rewrite (cmp_antisym cmp l), H. Qed.

Lemma cmp_lt_gt l k : cmp l k = Lt ↔ cmp k l = Gt.
Proof. rewrite (cmp_antisym cmp l k). destruct (cmp l k); naive_solver. Qed.

Lemma cmp_not_lt l k : cmp l k ≠ Lt → cmp k l ≠ Gt.
Proof. by rewrite cmp_lt_gt. Qed.

Lemma cmp_eq_le l k : cmp l k = Eq → cmp l k ≠ Gt.
Proof. congruence. Qed.

Lemma cmp_lt_le l k : cmp l k = Lt → cmp l k ≠ Gt.
Proof. congruence. Qed.

Lemma cmp_lt_le_trans l k m : cmp l k = Lt → cmp k m ≠ Gt → cmp l m = Lt.
Proof.
  intros H1 H2. destruct (cmp l m) eqn:E; [|done|]; exfalso.
  - apply (cmp_trans cmp k m l) in H2; [|by rewrite (cmp_eq_sym _ _ E)].
    by apply cmp_lt_gt in H1.
  - apply cmp_lt_gt, cmp_lt_le in E. apply (cmp_trans cmp k m l) in H2; [|done].
    by apply cmp_lt_gt in H1.
Qed.
End Preorder.

(** Comparisons are built from comparisons: of a key, and lexicographically. *)

Definition cmp_on {A B} (f : A → B) (cmp : B → B → comparison) (x y : A) : comparison :=
  cmp (f x) (f y).

Definition cmp_lex {A} (c1 c2 : A → A → comparison) (x y : A) : comparison :=
  match c1 x y with Eq => c2 x y | c => c end.

#[export] Instance Z_comparison : Comparison Z.compare.
Proof.
  split.
  - apply Z.compare_refl.
  - intros. apply Z.compare_antisym.
  - intros l k m. rewrite !Z.compare_le_iff. lia.
Qed.

#[export] Instance bytes_comparison : Comparison bytes_compare.
Proof.
  split.
  - apply bytes_compare_refl.
  - intros. apply bytes_compare_antisym.
  - intros l k m. apply (key_le_trans (λ x : bytes, x) l k m).
Qed.

#[export] Instance cmp_on_comparison {A B} (f : A → B) cmp :
  Comparison cmp → Comparison (cmp_on f cmp).
Proof.
  intros Hc. split; unfold cmp_on; intros.
  - apply (cmp_refl cmp).
  - apply (cmp_antisym cmp).
  - by eapply (cmp_trans cmp).
Qed.

#[export] Instance cmp_lex_comparison {A} (c1 c2 : A → A → comparison) :
  Comparison c1 → Comparison c2 → Comparison (cmp_lex c1 c2).
Proof.
  intros H1 H2. split; unfold cmp_lex.
  - intros x. rewrite (cmp_refl c1). apply (cmp_refl c2).
  - intros x y. rewrite (cmp_antisym c1 x y). destruct (c1 x y); cbn; [|done|done].
    apply (cmp_antisym c2).
  - intros x y z Hxy Hyz.
    destruct (c1 x y) eqn:Exy; destruct (c1 y z) eqn:Eyz; try done.
    + assert (c1 x z = Eq) as ->; [|by apply (cmp_trans c2 _ y)].
      destruct (c1 x z) eqn:E; [done| |]; exfalso.
      * apply cmp_lt_gt in E; [|done]. revert E.
        apply (cmp_trans c1 _ y); [by rewrite (cmp_eq_sym c1 _ _ Eyz)|].
        by rewrite (cmp_eq_sym c1 _ _ Exy).
      * revert E. apply (cmp_trans c1 _ y); congruence.
    + assert (c1 x z = Lt) as ->; [|done].
      destruct (c1 x z) eqn:E; [| |]; [exfalso|done|exfalso].
      * apply cmp_lt_gt in Eyz; [|done]. revert Eyz. apply (cmp_trans c1 _ x); [|congruence].
        by rewrite (cmp_eq_sym c1 _ _ E).
      * revert E. apply (cmp_trans c1 _ y); congruence.
    + by rewrite (cmp_lt_le_trans c1 _ _ _ Exy) by congruence.
    + by rewrite (cmp_lt_le_trans c1 _ _ _ Exy) by congruence.
Qed.

Lemma comparison_ext {A} (c1 c2 : A → A → comparison) :
  (∀ x y, c1 x y = c2 x y) → Comparison c2 → Comparison c1.
Proof.
  intros He Hc. split; intros; rewrite ?He in *.
  - apply (cmp_refl c2).
  - apply (cmp_antisym c2).
  - by eapply (cmp_trans c2).
Qed.

Section Search.
Context {N L E : Type} `{EqDecision N}.
Context (edges : N → list E) (dst : E → N) (ext : L → E → option L).
Context (cmp : L → L → comparison) `{!Comparison cmp}.
Context (start : N) (l0 : L).

Abbreviation le l k := (cmp l k ≠ Gt).

(** Extending a smaller label is possible whenever extending a larger one
    is, gives a smaller result, and never decreases the label. *)
Hypothesis ext_mono : ∀ l k e k',
  le l k → ext k e = Some k' → ∃ l', ext l e = Some l' ∧ le l' k'.
Hypothesis ext_incr : ∀ l e l', ext l e = Some l' → le l l'.

(** [reach v l]: some path from the start to [v] has label [l]. *)
Inductive reach : N → L → Prop :=
| reach_start : reach start l0
| reach_step u l e l' :
    reach u l → e ∈ edges u → ext l e = Some l' → reach (dst e) l'.

Definition fresh (best : N → option L) (item : N * L) : Prop :=
  ∃ b, best item.1 = Some b ∧ cmp item.2 b = Eq.

#[local] Instance fresh_dec best item : Decision (fresh best item).
Proof.
  refine (match best item.1 as o return best item.1 = o → _ with
          | Some b => λ Hb, cast_if (decide (cmp item.2 b = Eq))
          | None => λ Hb, right _ end eq_refl).
  - abstract by exists b.
  - abstract (intros (b' & Hb' & ?); congruence).
  - abstract (intros (b' & Hb' & ?); congruence).
Defined.

Definition out_degrees (settled : list N) : nat :=
  sum_list_with (λ v, length (edges v)) settled.

(** State after [n] pops: [settled] nodes are final; of the node settled
    last, [cur], the edges [todo] are still to be relaxed. *)
Record search_inv (n : nat) (best : N → option L) (queue : list (N * L))
    (settled : list N) (cur : N) (todo : list E) : Prop := {
  inv_sound v b : best v = Some b → reach v b;
  inv_queue v l : (v, l) ∈ queue → ∃ b, best v = Some b ∧ le b l;
  inv_reach v l : (v, l) ∈ queue → reach v l;
  inv_cover v b : best v = Some b →
    v ∈ settled ∨ ∃ l, (v, l) ∈ queue ∧ cmp l b = Eq;
  inv_fresh_nodup : NoDup (filter (fresh best) queue).*1;
  inv_fresh_open item : item ∈ queue → fresh best item → item.1 ∉ settled;
  inv_settled_le v b u l :
    v ∈ settled → best v = Some b → (u, l) ∈ queue → le b l;
  inv_relaxed v b e l' :
    v ∈ settled → best v = Some b → e ∈ edges v → ext b e = Some l' →
    (v = cur ∧ e ∈ todo) ∨ ∃ b', best (dst e) = Some b' ∧ le b' l';
  inv_start : ∃ b, best start = Some b ∧ le b l0;
  inv_settled_nodup : NoDup settled;
  inv_settled_best v : v ∈ settled → is_Some (best v);
  inv_count : (length queue + n + length todo ≤ 1 + out_degrees settled)%nat;
}.

Lemma search_inv_init best :
  (∀ v, best v = if decide (v = start) then Some l0 else None) →
  search_inv 0 best [(start, l0)] [] start [].
Proof.
  intros Hb. assert (best start = Some l0) as Hs by (rewrite Hb; by case_decide).
  assert (∀ v b, best v = Some b → v = start ∧ b = l0) as Hinv.
  { intros v b. rewrite Hb. case_decide; naive_solver. }
  split.
  - intros v b [-> ->]%Hinv. constructor.
  - intros v l ?%list_elem_of_singleton. simplify_eq. exists l0.
    split; [done|]. by rewrite (cmp_refl cmp).
  - intros v l ?%list_elem_of_singleton. simplify_eq. constructor.
  - intros v b [-> ->]%Hinv. right. exists l0. split; [by left|apply (cmp_refl cmp)].
  - rewrite filter_cons_True, filter_nil; [repeat constructor; set_solver|].
    exists l0. split; [done|apply (cmp_refl cmp)].
  - intros ? ? ?. by apply not_elem_of_nil.
  - intros v b u l H. by apply elem_of_nil in H.
  - intros v b e l' H. by apply elem_of_nil in H.
  - exists l0. split; [done|]. by rewrite (cmp_refl cmp).
  - constructor.
  - intros v H. by apply elem_of_nil in H.
  - cbn. lia.
Qed.

Lemma search_inv_perm n best q q' settled cur todo :
  q ≡ₚ q' → search_inv n best q settled cur todo → search_inv n best q' settled cur todo.
Proof.
  intros Hp []. split; try done.
  - intros v l H. apply inv_queue0. by rewrite Hp.
  - intros v l H. apply inv_reach0. by rewrite Hp.
  - intros v b H. destruct (inv_cover0 v b H) as [|(l & Hin & ?)]; [by left|].
    right. exists l. by rewrite <-Hp.
  - by rewrite <-Hp.
  - intros item H. apply inv_fresh_open0. by rewrite Hp.
  - intros v b u l H1 H2 H3. eapply inv_settled_le0; try done. by rewrite Hp.
  - by rewrite <-(Permutation_length Hp).
Qed.

(** Popping an item whose label is no longer the best of its node. *)
Lemma search_inv_stale n best v l q settled cur :
  search_inv n best ((v, l) :: q) settled cur [] →
  ¬ fresh best (v, l) →
  search_inv (S n) best q settled cur [].
Proof.
  intros [] Hst. split; try done.
  - intros u k H. apply inv_queue0. by right.
  - intros u k H. apply inv_reach0. by right.
  - intros u b Hb. destruct (inv_cover0 u b Hb) as [|(k & Hin & Hk)]; [by left|].
    right. exists k. split; [|done]. apply elem_of_cons in Hin as [[= -> ->]|]; [|done].
    exfalso. apply Hst. by exists b.
  - by rewrite filter_cons_False in inv_fresh_nodup0.
  - intros item H. apply inv_fresh_open0. by right.
  - intros u b w k H1 H2 H3. eapply inv_settled_le0; try done. by right.
  - cbn in *. lia.
Qed.

(** Popping a minimal item that is up to date settles its node. *)
Lemma search_inv_settle n best v l q settled cur :
  search_inv n best ((v, l) :: q) settled cur [] →
  fresh best (v, l) →
  (∀ u k, (u, k) ∈ q → le l k) →
  search_inv (S n) best q (v :: settled) v (edges v) ∧
  (∀ u b, u ∈ v :: settled → best u = Some b → le b l) ∧ reach v l.
Proof.
  intros [] Hf Hmin. pose proof Hf as (bv & Hbv & Hlb). cbn in Hbv, Hlb.
  assert (v ∉ settled) as Hv by (apply (inv_fresh_open0 (v, l)); [by left|done]).
  rewrite filter_cons_True in inv_fresh_nodup0 by done.
  cbn in inv_fresh_nodup0. apply NoDup_cons in inv_fresh_nodup0 as [Hnin Hnd].
  assert (le bv l) as Hbl by (by rewrite (cmp_eq_sym _ _ _ Hlb)).
  split; [split; try done|split].
  - intros u k H. apply inv_queue0. by right.
  - intros u k H. apply inv_reach0. by right.
  - intros u b Hb. destruct (decide (u = v)) as [->|Huv]; [left; by left|].
    destruct (inv_cover0 u b Hb) as [|(k & Hin & Hk)]; [left; by right|].
    right. exists k. split; [|done]. apply elem_of_cons in Hin as [[= -> ->]|]; done.
  - intros [u k] Hin Hfr. intros [Heq|Hu]%elem_of_cons; cbn in *.
    + subst u. apply Hnin. apply list_elem_of_fmap. exists (v, k). split; [done|].
      apply list_elem_of_filter. done.
    + eapply inv_fresh_open0; [by right|done|done].
  - intros u b w k [->|Hu]%elem_of_cons Hb Hin.
    + assert (b = bv) as -> by congruence. apply (cmp_trans cmp _ l); [done|eauto].
    + eapply inv_settled_le0; try done. by right.
  - intros u b e l' [->|Hu]%elem_of_cons Hb He Hx; [by left|].
    destruct (inv_relaxed0 u b e l' Hu Hb He Hx) as [[_ H]|]; [|by right].
    by apply elem_of_nil in H.
  - by constructor.
  - intros u [->|Hu]%elem_of_cons; eauto.
  - unfold out_degrees in *. cbn in *. lia.
  - intros u b [->|Hu]%elem_of_cons Hb.
    + by assert (b = bv) as -> by congruence.
    + eapply inv_settled_le0; try done. by left.
  - apply inv_reach0. by left.
Qed.

Section Relax.
Context (n : nat) (best : N → option L) (queue : list (N * L)) (settled : list N).
Context (u : N) (l bu : L) (e : E) (todo : list E).
Hypothesis inv : search_inv n best queue settled u (e :: todo).
Hypothesis u_settled : u ∈ settled.
Hypothesis u_best : best u = Some bu.
Hypothesis u_label : cmp l bu = Eq.
Hypothesis u_reach : reach u l.
Hypothesis u_edge : e ∈ edges u.
Hypothesis settled_le_u : ∀ v b, v ∈ settled → best v = Some b → le b l.

(** The edge is skipped: it cannot be extended, or does not improve. *)
Lemma search_inv_skip :
  (∀ l', ext l e = Some l' → ∃ k, best (dst e) = Some k ∧ cmp l' k ≠ Lt) →
  search_inv n best queue settled u todo.
Proof.
  intros Hskip. destruct inv. split; try done; [|cbn in *; lia].
  intros v b e' l' Hv Hb He Hx.
  destruct (inv_relaxed0 v b e' l' Hv Hb He Hx) as [[-> Hin]|]; [|by right].
  apply elem_of_cons in Hin as [->|]; [|by left]. right.
  assert (b = bu) as -> by congruence.
  destruct (ext_mono l bu e l') as (k' & Hk' & Hle); [by rewrite u_label|done|].
  destruct (Hskip k' Hk') as (k & Hk & Hnlt). exists k. split; [done|].
  apply (cmp_trans cmp _ k'); [|done]. by apply cmp_not_lt.
Qed.

(** The edge improves the label of its target, which is pushed. *)
Lemma search_inv_push best' l' :
  ext l e = Some l' →
  (∀ k, best (dst e) = Some k → cmp l' k = Lt) →
  (∀ v, best' v = if decide (v = dst e) then Some l' else best v) →
  search_inv n best' ((dst e, l') :: queue) settled u todo ∧
  dst e ∉ settled.
Proof.
  intros Hx Himp Hbest. destruct inv.
  assert (dst e ∉ settled) as Hds.
  { intros Hin. destruct (inv_settled_best0 _ Hin) as [k Hk].
    pose proof (Himp k Hk) as Hlt. apply cmp_lt_gt in Hlt; [|done].
    apply (cmp_trans cmp k l l'); eauto. }
  split; [|done].
  assert (best' (dst e) = Some l') as Hnew by (rewrite Hbest; by rewrite decide_True).
  assert (∀ v, v ≠ dst e → best' v = best v) as Hold.
  { intros v Hv. rewrite Hbest. by rewrite decide_False. }
  assert (∀ v, v ∈ settled → best' v = best v) as Hset.
  { intros v Hv. apply Hold. by intros ->. }
  assert (∀ item, item ∈ queue → fresh best' item → item.1 ≠ dst e ∧ fresh best item) as Hfr.
  { intros [v k] Hin (b & Hb & Hk). cbn in *.
    destruct (decide (v = dst e)) as [->|Hv].
    - exfalso. destruct (inv_queue0 _ _ Hin) as (b0 & Hb0 & Hle).
      assert (b = l') as -> by congruence.
      pose proof (cmp_lt_le_trans cmp l' b0 k (Himp _ Hb0) Hle) as H.
      apply cmp_eq_sym in Hk; [|done]. congruence.
    - split; [done|]. exists b. cbn. by rewrite <-Hold. }
  assert (∀ item, item.1 ≠ dst e → fresh best item → fresh best' item) as Hfr'.
  { intros [v k] Hne (b & Hb & Hk). exists b. cbn in *. by rewrite Hold. }
  assert (∀ v b, best v = Some b → ∃ b', best' v = Some b' ∧ le b' b) as Hdecr.
  { intros v b Hb. destruct (decide (v = dst e)) as [->|Hv].
    - exists l'. split; [done|]. by rewrite (Himp b Hb).
    - exists b. rewrite Hold by done. split; [done|]. by rewrite (cmp_refl cmp). }
  split.
  - intros v b. rewrite Hbest. case_decide; [|eauto]. intros [= <-]. subst v.
    by econstructor.
  - intros v k [[= -> ->]|Hin]%elem_of_cons.
    + exists l'. split; [done|]. by rewrite (cmp_refl cmp).
    + destruct (inv_queue0 _ _ Hin) as (b & Hb & Hle).
      destruct (Hdecr v b Hb) as (b' & Hb' & Hle'). exists b'. split; [done|].
      by apply (cmp_trans cmp _ b).
  - intros v k [[= -> ->]|Hin]%elem_of_cons; [|eauto]. by econstructor.
  - intros v b Hb. destruct (decide (v = dst e)) as [->|Hv].
    + right. exists l'. assert (b = l') as -> by congruence.
      split; [by left|apply (cmp_refl cmp)].
    + rewrite Hold in Hb by done.
      destruct (inv_cover0 v b Hb) as [|(k & Hin & Hk)]; [by left|].
      right. exists k. split; [by right|done].
  - rewrite filter_cons_True by (exists l'; split; [done|apply (cmp_refl cmp)]).
    cbn. apply NoDup_cons. split.
    + intros (item & Heq & [Hf Hin]%list_elem_of_filter)%list_elem_of_fmap.
      by apply (Hfr item Hin Hf).
    + eapply sublist_NoDup; [exact inv_fresh_nodup0|].
      apply fmap_sublist. clear -Hfr. induction queue as [|item q IH]; [done|].
      assert (filter (fresh best') q `sublist_of` filter (fresh best) q) as H.
      { apply IH. intros it Hin. apply Hfr. by right. }
      destruct (decide (fresh best' item)) as [Hf|Hf].
      * rewrite filter_cons_True by done. rewrite filter_cons_True.
        -- by constructor.
        -- apply Hfr; [by left|done].
      * rewrite filter_cons_False by done. rewrite filter_cons.
        case_decide; [by constructor|done].
  - intros item [->|Hin]%elem_of_cons Hf; [done|].
    destruct (Hfr item Hin Hf) as [_ Hf']. eauto.
  - intros v b w k Hv Hb [[= -> ->]|Hin]%elem_of_cons; rewrite Hset in Hb by done.
    + apply (cmp_trans cmp _ l); eauto.
    + eauto.
  - intros v b e' k Hv Hb He Hk. rewrite Hset in Hb by done.
    destruct (inv_relaxed0 v b e' k Hv Hb He Hk) as [[-> Hin]|(b' & Hb' & Hle)].
    + apply elem_of_cons in Hin as [->|]; [|by left]. right. exists l'. split; [done|].
      assert (b = bu) as -> by congruence.
      destruct (ext_mono l bu e k) as (k' & Hk' & Hle); [by rewrite u_label|done|].
      congruence.
    + right. destruct (Hdecr _ _ Hb') as (b2 & Hb2 & Hle2). exists b2.
      split; [done|]. by apply (cmp_trans cmp _ b').
  - destruct inv_start0 as (b & Hb & Hle). destruct (Hdecr _ _ Hb) as (b2 & Hb2 & Hle2).
    exists b2. split; [done|]. by apply (cmp_trans cmp _ b).
  - done.
  - intros v Hv. rewrite Hset by done. eauto.
  - cbn in *. lia.
Qed.
End Relax.

(** ** What the invariant gives *)

(** Every reachable label is dominated by a settled label, or lies in any
    upward-closed set [M] that contains the labels of the queue. *)
Lemma search_inv_dominated n best queue settled cur (M : L → Prop) :
  search_inv n best queue settled cur [] →
  (∀ l k, M l → le l k → M k) →
  (∀ v l, (v, l) ∈ queue → M l) →
  ∀ v k, reach v k → (v ∈ settled ∧ ∃ b, best v = Some b ∧ le b k) ∨ M k.
Proof.
  intros Hinv Hup Hm.
  assert (∀ v b k, best v = Some b → le b k →
    (v ∈ settled ∧ ∃ b, best v = Some b ∧ le b k) ∨ M k) as Hcase.
  { intros v b k Hb Hle. destruct Hinv.
    destruct (inv_cover0 v b Hb) as [Hs|(l & Hin & Hl)]; [left; eauto|].
    right. apply (Hup l); [eauto|]. apply (cmp_trans cmp _ b); [|done].
    by rewrite Hl. }
  induction 1 as [|u l e l' Hr IH He Hx].
  - destruct Hinv. destruct inv_start0 as (b & Hb & Hle). eauto.
  - destruct IH as [(Hu & b & Hb & Hle)|HM].
    + destruct (ext_mono b l e l' Hle Hx) as (b1 & Hb1 & Hle1).
      destruct Hinv. destruct (inv_relaxed0 u b e b1 Hu Hb He Hb1) as [[_ H]|(b' & Hb' & Hle')].
      * by apply elem_of_nil in H.
      * eapply Hcase; [done|]. by apply (cmp_trans cmp _ b1).
    + right. apply (Hup l); [done|]. by eapply ext_incr.
Qed.

(** A popped, up-to-date minimum carries a least label of its node. *)
Lemma search_inv_optimal n best v l q settled cur :
  search_inv n best ((v, l) :: q) settled cur [] →
  fresh best (v, l) →
  (∀ u k, (u, k) ∈ q → le l k) →
  reach v l ∧ ∀ k, reach v k → le l k.
Proof.
  intros Hinv Hf Hmin. split; [destruct Hinv; apply inv_reach0; by left|].
  intros k Hk.
  destruct (search_inv_dominated _ _ _ _ _ (λ k, le l k) Hinv) with v k as [[Hv _]|]; try done.
  - intros a b Ha Hb. by apply (cmp_trans cmp _ a).
  - intros u k' [[= -> ->]|Hin]%elem_of_cons; [|eauto]. by rewrite (cmp_refl cmp).
  - exfalso. destruct Hinv. apply (inv_fresh_open0 (v, l)) in Hv; [done|by left|done].
Qed.

(** With an empty queue, every reachable node is settled. *)
Lemma search_inv_exhausted n best settled cur v k :
  search_inv n best [] settled cur [] → reach v k → v ∈ settled.
Proof.
  intros Hinv Hr.
  destruct (search_inv_dominated _ _ _ _ _ (λ _, False) Hinv) with v k as [[Hv _]|]; try done.
  intros u l H. by apply elem_of_nil in H.
Qed.

(** The number of pops is bounded by the number of edges. *)
Lemma search_inv_pops n best queue settled cur todo bound :
  search_inv n best queue settled cur todo →
  (∀ s, NoDup s → out_degrees s ≤ bound)%nat →
  (length queue + n ≤ 1 + bound)%nat.
Proof.
  intros [] Hb. specialize (Hb settled inv_settled_nodup0). lia.
Qed.
End Search.
