(* ===== verification/Evidence.v ===== *)
(** * Mapnode/evidence: locators, evidence identifiers and the evidence states

    id.go ([Locator], [ComputeID], [ComputeSyntheticID],
    [ComputeGatewayRequestID]) and state.go ([State], [Record],
    [ValidateTransition]).  States are strings in the source and here, so that
    a value read back from the database that is none of the five constants is
    represented too. *)

From S2P Require Import Prelude Domain.

Module Evidence.
Import Domain.

Abbreviation ID := bytes32.

Inductive error :=
| ErrDomain (e : Domain.error)
| ErrZeroContractAddress
| ErrZeroTransactionHash
| ErrZeroPayloadDigest
| ErrZeroGateway
| ErrZeroRequester
| ErrSyntheticFields
| ErrSyntheticCoordinates
| ErrInvalidTransition
| ErrInvalidState
| ErrInvalidReasonRequired.

#[export] Instance error_eq_dec : EqDecision error.
Proof. solve_decision. Defined.

Record Locator := mkLocator {
  ChainID : Domain.ChainID;
  ContractAddress : Address;
  BlockNumber : BlockHeight;
  BlockHash : Hash;
  TxHash : Hash;
  TxIndex : Z;
  LogIndex : Z;
  PayloadDigest : Hash
}.

#[export] Instance Locator_eq_dec : EqDecision Locator.
Proof. solve_decision. Defined.

Definition Locator_Validate (locator : Locator) : res error unit :=
  _ ← map_err ErrDomain (ChainID_Validate locator.(ChainID));
  if locator.(ContractAddress) =?= zero_address then Err ErrZeroContractAddress
  else if locator.(BlockHash) =?= zero32 then Err (ErrDomain ErrZeroBlockHash)
  else if locator.(TxHash) =?= zero32 then Err ErrZeroTransactionHash
  else if locator.(PayloadDigest) =?= zero32 then Err ErrZeroPayloadDigest
  else Ok tt.

(** An ABI word holding an address or a [uint32], right-aligned. *)
Definition address_word (a : Address) : bytes := replicate 12 Byte.x00 ++ a.
Definition putUint32Word (value : Z) : bytes := replicate 28 Byte.x00 ++ be_bytes 4 value.

(** [copy(encoded[a:b], ...)] into a zeroed array, slot after slot. *)
Definition locator_encoding (locator : Locator) : bytes :=
  locator.(ChainID) ++ address_word locator.(ContractAddress)
    ++ locator.(BlockNumber) ++ locator.(BlockHash) ++ locator.(TxHash)
    ++ putUint32Word locator.(TxIndex) ++ putUint32Word locator.(LogIndex)
    ++ locator.(PayloadDigest).

Definition synthetic_encoding (locator : Locator) : bytes :=
  locator.(ChainID) ++ address_word locator.(ContractAddress)
    ++ locator.(BlockNumber) ++ locator.(BlockHash)
    ++ replicate 96 Byte.x00 ++ locator.(PayloadDigest).

Definition request_encoding (homeChainID : Domain.ChainID) (gateway requester : Address)
    (nonceWord : bytes32) (sourceChainID : Domain.ChainID) (sourceHeight : BlockHeight)
    (sourceBlockHash : Hash) : bytes :=
  homeChainID ++ address_word gateway ++ address_word requester ++ nonceWord
    ++ sourceChainID ++ sourceHeight ++ sourceBlockHash.

Definition encodeUint256 (value : option Z) : res error bytes32 :=
  match value with
  | None => Err (ErrDomain ErrNilUint256)
  | Some v =>
      if Z.sgn v <? 0 then Err (ErrDomain ErrNegativeUint256)
      else if 256 <? bit_len v then Err (ErrDomain ErrUint256Overflow)
      else Ok (be_vec 32 v)
  end.

Section Hashing.
Context (keccak256 : bytes → Hash).

Definition ComputeID (locator : Locator) : res error ID :=
  _ ← Locator_Validate locator;
  Ok (keccak256 (locator_encoding locator)).

Definition ComputeSyntheticID (locator : Locator) : res error ID :=
  _ ← map_err ErrDomain (ChainID_Validate locator.(ChainID));
  if (locator.(ContractAddress) =?= zero_address) || (locator.(BlockHash) =?= zero32)
     || (locator.(PayloadDigest) =?= zero32)
  then Err ErrSyntheticFields
  else if (locator.(TxHash) ≠?= zero32) || negb (locator.(TxIndex) =? 0)
          || negb (locator.(LogIndex) =? 0)
  then Err ErrSyntheticCoordinates
  else Ok (keccak256 (synthetic_encoding locator)).

Definition ComputeGatewayRequestID (homeChainID : Domain.ChainID)
    (gateway requester : Address) (nonce : option Z) (sourceChainID : Domain.ChainID)
    (sourceHeight : BlockHeight) (sourceBlockHash : Hash) : res error RequestID :=
  _ ← map_err ErrDomain (ChainID_Validate homeChainID);
  if gateway =?= zero_address then Err ErrZeroGateway
  else if requester =?= zero_address then Err ErrZeroRequester
  else
    nonceWord ← encodeUint256 nonce;
    _ ← map_err ErrDomain (ChainID_Validate sourceChainID);
    if sourceBlockHash =?= zero32 then Err (ErrDomain ErrZeroBlockHash)
    else Ok (keccak256 (request_encoding homeChainID gateway requester nonceWord
                          sourceChainID sourceHeight sourceBlockHash)).
End Hashing.

(** ** Evidence states *)

Abbreviation State := string.

Definition Candidate : State := "candidate".
Definition Verified : State := "verified".
Definition Confirmed : State := "confirmed".
Definition Active : State := "active".
Definition Invalid : State := "invalid".

(** A [time.Time] is [None] for the zero time and otherwise the Unix
    nanoseconds the store keeps. *)
Abbreviation Time := (option Z).

Record EvidenceRecord := mkRecord {
  rec_ID : ID;
  rec_Locator : Locator;
  rec_State : State;
  InvalidReason : string;
  CreatedAt : Time;
  UpdatedAt : Time
}.

#[export] Instance EvidenceRecord_eq_dec : EqDecision EvidenceRecord.
Proof. solve_decision. Defined.

Definition AllStates : list State := [Candidate; Verified; Confirmed; Active; Invalid].

Definition State_Validate (state : State) : res error unit :=
  if (state =?= Candidate) || (state =?= Verified) || (state =?= Confirmed)
     || (state =?= Active) || (state =?= Invalid)
  then Ok tt else Err ErrInvalidState.

Definition legal_transition (from to : State) : bool :=
  ((from =?= Candidate) && ((to =?= Verified) || (to =?= Invalid)))
  || ((from =?= Verified) && (to =?= Confirmed))
  || ((from =?= Confirmed) && (to =?= Active)).

Definition ValidateTransition (from to : State) (reason : string) : res error bool :=
  _ ← State_Validate from;
  _ ← State_Validate to;
  if from =?= to then Ok false
  else if negb (legal_transition from to) then Err ErrInvalidTransition
  else if (to =?= Invalid) && (reason =?= "") then Err ErrInvalidReasonRequired
  else Ok true.

(** ** Specification of the life cycle *)

(** One accepted, state-changing transition. *)
Inductive evidence_step : State → State → Prop :=
| step_verify : evidence_step Candidate Verified
| step_reject : evidence_step Candidate Invalid
| step_confirm : evidence_step Verified Confirmed
| step_activate : evidence_step Confirmed Active.

(** The states visited by a run of accepted transitions, the first included. *)
Inductive evidence_run : list State → Prop :=
| run_start : evidence_run [Candidate]
| run_step trace from to :
    evidence_run (trace ++ [from]) → evidence_step from to →
    evidence_run (trace ++ [from; to]).

(** ** Lemmas *)

Lemma evidence_transition_true from to reason :
  ValidateTransition from to reason = Ok true ↔
  evidence_step from to ∧ (to = Invalid → reason ≠ "").
Proof.
  split.
  - unfold ValidateTransition. intros H.
    apply bind_Ok in H as (? & _ & H). apply bind_Ok in H as (? & _ & H).
    case_bool_decide as Hne; [done|].
    destruct (legal_transition from to) eqn:Hl; cbn in H; [|done].
    assert (evidence_step from to) as Hstep.
    { unfold legal_transition in Hl. repeat case_bool_decide; subst; cbn in Hl;
        try done; constructor. }
    split; [done|]. intros -> ->. by rewrite !bool_decide_eq_true_2 in H.
  - intros [Hs Hr]. destruct Hs; try reflexivity. unfold ValidateTransition.
    by rewrite (bool_decide_eq_false_2 (reason = "")) by auto.
Qed.

Lemma encodeUint256_domain v : encodeUint256 v = map_err ErrDomain (uint256FromBig v).
Proof. destruct v as [v|]; cbn; [|done]. by repeat case_match. Qed.

Lemma length_address_word a : length (address_word a) = 32%nat.
Proof. unfold address_word. by rewrite length_app, length_replicate, length_vec_to_list. Qed.

Lemma length_putUint32Word v : length (putUint32Word v) = 32%nat.
Proof. unfold putUint32Word. by rewrite length_app, length_replicate, length_be_bytes. Qed.

Lemma address_word_inj a b : address_word a = address_word b → a = b.
Proof. unfold address_word. intros ?%(inj (app _)). by apply vec_to_list_inj2. Qed.

Lemma putUint32Word_inj v w : u32 v → u32 w → putUint32Word v = putUint32Word w → v = w.
Proof.
  unfold putUint32Word, u32, MaxUint32. intros Hv Hw ?%(inj (app _)).
  eapply be_bytes_inj; [| |done]; change (256 ^ Z.of_nat 4) with (2 ^ 32); lia.
Qed.

Ltac word_lengths :=
  by rewrite ?length_address_word, ?length_putUint32Word, ?length_vec_to_list,
    ?length_replicate.

Ltac split_words H :=
  repeat (apply app_inj_1 in H as [? H]; [|word_lengths]);
  repeat match goal with
  | H : address_word _ = address_word _ |- _ => apply address_word_inj in H
  | H : vec_to_list _ = vec_to_list _ |- _ => apply vec_to_list_inj2 in H
  end.

Definition locator_indices_u32 (locator : Locator) : Prop :=
  u32 locator.(TxIndex) ∧ u32 locator.(LogIndex).

Lemma locator_encoding_inj l k :
  locator_indices_u32 l → locator_indices_u32 k →
  locator_encoding l = locator_encoding k → l = k.
Proof.
  intros [Ht Hl] [Ht' Hl'] H. unfold locator_encoding in H. split_words H.
  destruct l, k; cbn [ChainID ContractAddress BlockNumber BlockHash TxHash TxIndex LogIndex PayloadDigest] in *. subst.
  f_equal; by apply putUint32Word_inj.
Qed.

Lemma Locator_Validate_TxHash locator :
  Locator_Validate locator = Ok tt → locator.(TxHash) ≠ zero32.
Proof.
  unfold Locator_Validate. intros H. res_cases H; by bool_to_prop.
Qed.

(** ** Theorems *)

(** Evidence identifiers determine the log coordinate: two locators with
    the same identifier are equal, unless keccak collides on their two
    (different) ABI encodings; and an RPC observation never gets the
    identifier of a log, unless keccak collides in the same way. *)
Theorem ComputeID_binding (keccak256 : bytes → Hash) (l k : Locator) (id : ID) :
  locator_indices_u32 l → locator_indices_u32 k →
  ComputeID keccak256 l = Ok id →
  (ComputeID keccak256 k = Ok id →
     l = k ∨ (locator_encoding l ≠ locator_encoding k
              ∧ keccak256 (locator_encoding l) = keccak256 (locator_encoding k))) ∧
  (ComputeSyntheticID keccak256 k = Ok id →
     locator_encoding l ≠ synthetic_encoding k
     ∧ keccak256 (locator_encoding l) = keccak256 (synthetic_encoding k)).
Proof.
  intros Hl Hk. unfold ComputeID, ComputeSyntheticID.
  intros (? & Hv & [= Hid])%bind_Ok. split.
  - intros (? & _ & [= Hid'])%bind_Ok.
    destruct (decide (locator_encoding l = locator_encoding k)) as [He|He].
    + left. by apply locator_encoding_inj.
    + right. split; [done|congruence].
  - intros (? & _ & H)%bind_Ok. case_match; [done|]. case_match; [done|].
    injection H as Hid'. split; [|congruence].
    intros He. destruct x. apply Locator_Validate_TxHash in Hv as Htx.
    unfold locator_encoding, synthetic_encoding in He.
    change (replicate 96 Byte.x00) with
      (vec_to_list zero32 ++ replicate 32 Byte.x00 ++ replicate 32 Byte.x00) in He.
    rewrite <-!(assoc_L (++)) in He. split_words He. by subst.
Qed.

Lemma ComputeID_binding_witness :
  let l := mkLocator (be_vec 32 1) (be_vec 20 2) (be_vec 32 3) (be_vec 32 4) (be_vec 32 5) 6 7
             (be_vec 32 8) in
  ∃ id, ComputeID sample_hash l = Ok id ∧
    (l = l ∨ (locator_encoding l ≠ locator_encoding l ∧
              sample_hash (locator_encoding l) = sample_hash (locator_encoding l))).
Proof.
  intros l. exists (sample_hash (locator_encoding l)).
  assert (ComputeID sample_hash l = Ok (sample_hash (locator_encoding l))) as H
    by (vm_compute; reflexivity).
  assert (locator_indices_u32 l) as Hi by (repeat split; vm_compute; congruence).
  exact (conj H (proj1 (ComputeID_binding sample_hash l l _ Hi Hi H) H)).
Defined.

(** Life cycle of evidence: [ValidateTransition] accepts a change exactly
    when it is a step of the life cycle (with a reason for rejections), and
    any run of accepted changes that ends in [active] went through
    [candidate], [verified] and [confirmed], in that order and once each. *)
Theorem evidence_lifecycle :
  (∀ from to reason, ValidateTransition from to reason = Ok true ↔
     evidence_step from to ∧ (to = Invalid → reason ≠ "")) ∧
  (∀ trace, evidence_run (trace ++ [Active]) → trace = [Candidate; Verified; Confirmed]) ∧
  (∀ trace to, evidence_run (trace ++ [Invalid]) → ¬ evidence_step Invalid to) ∧
  (∀ to, ¬ evidence_step Active to).
Proof.
  assert (∀ t, evidence_run t →
    t = [Candidate] ∨ t = [Candidate; Invalid] ∨ t = [Candidate; Verified] ∨
    t = [Candidate; Verified; Confirmed] ∨ t = [Candidate; Verified; Confirmed; Active]) as Hruns.
  { induction 1 as [|trace from to _ IH Hs]; [by left|].
    destruct IH as [IH|[IH|[IH|[IH|IH]]]];
      [apply (app_inj_tail _ []) in IH | apply (app_inj_tail _ [_]) in IH
      |apply (app_inj_tail _ [_]) in IH | apply (app_inj_tail _ [_; _]) in IH
      |apply (app_inj_tail _ [_; _; _]) in IH];
      destruct IH as [-> ->]; inversion Hs; try discriminate; subst; auto 10. }
  split_and!.
  - apply evidence_transition_true.
  - intros trace H.
    destruct (Hruns _ H) as [E|[E|[E|[E|E]]]];
      [apply (app_inj_tail _ []) in E | apply (app_inj_tail _ [_]) in E
      |apply (app_inj_tail _ [_]) in E | apply (app_inj_tail _ [_; _]) in E
      |apply (app_inj_tail _ [_; _; _]) in E];
      destruct E as [-> E]; by try discriminate E.
  - intros _ to _ Hs. inversion Hs; discriminate.
  - intros to Hs. inversion Hs; discriminate.
Qed.

End Evidence.
