(* ===== verification/TrustView.v ===== *)
(** * Mapnode/trustview: the directed graph of trust dependencies

    trust_view.go ([NodeKey], [TrustNode], [NewTrustView]), trust_edge.go,
    membership_witness.go, verified_dependency.go, trust_root_observation.go
    and trust_view_snapshot.go ([ComputeSnapshotID]).

    [NewTrustView] collects nodes and edges in Go maps ([gmap] here), whose
    iteration order is unspecified, and sorts the collected slices by
    identifier: [map_values] stands for one iteration order and
    [sorted_by_unique] makes the result independent of it.  The [Clone]
    functions copy slices and pointers, which values do already. *)

From S2P Require Import Prelude Domain Evidence.
Import Domain.

Module TrustView.

Abbreviation NodeID := bytes32.
Abbreviation EdgeID := bytes32.
Abbreviation WitnessID := bytes32.
Abbreviation SnapshotID := bytes32.
(** [TrustRoot] is a struct with the single field [Hash]. *)
Abbreviation TrustRoot := bytes32.
Abbreviation EvidenceID := Evidence.ID.

Inductive error :=
| ErrTrustRootConflict
| ErrInvalidTrustNode
| ErrDanglingTrustEdge
| ErrInvalidTrustEdge
| ErrInvalidVerifiedDependency
| ErrDomain (e : Domain.error)
| ErrObservationFields
| ErrObservationNotConfirmed.

#[export] Instance error_eq_dec : EqDecision error.
Proof. solve_decision. Defined.

(** ** Nodes *)

Record NodeKey := mkNodeKey {
  key_ChainID : ChainID;
  key_Height : BlockHeight;
  key_BlockHash : Hash
}.

#[export] Instance NodeKey_eq_dec : EqDecision NodeKey.
Proof. solve_decision. Defined.

#[export] Program Instance NodeKey_countable : Countable NodeKey :=
  inj_countable' (λ k, (k.(key_ChainID), k.(key_Height), k.(key_BlockHash)))
                 (λ t, mkNodeKey t.1.1 t.1.2 t.2) _.
Next Obligation. by intros []. Qed.

Record TrustNode := mkTrustNode {
  node_ID : NodeID;
  node_Key : NodeKey;
  node_Root : TrustRoot;
  node_EvidenceID : EvidenceID
}.

#[export] Instance TrustNode_eq_dec : EqDecision TrustNode.
Proof. solve_decision. Defined.

(** ** Edges *)

Record TrustEdge := mkTrustEdge {
  edge_ID : EdgeID;
  edge_From : NodeID;
  edge_To : NodeID;
  edge_EvidenceID : EvidenceID;
  edge_LeafIndex : Z;
  edge_WitnessID : option WitnessID;
  PathStepCost : Z
}.

#[export] Instance TrustEdge_eq_dec : EqDecision TrustEdge.
Proof. solve_decision. Defined.

Record TrustView := mkTrustView {
  Revision : Z;
  Nodes : list TrustNode;
  Edges : list TrustEdge
}.

#[export] Instance TrustView_eq_dec : EqDecision TrustView.
Proof. solve_decision. Defined.

Definition sameWitness (left right : option WitnessID) : bool :=
  match left, right with
  | None, None => true
  | Some l, Some r => l =?= r
  | _, _ => false
  end.

Definition node_encoding (key : NodeKey) : bytes :=
  key.(key_ChainID) ++ key.(key_Height) ++ key.(key_BlockHash).

Definition edge_encoding (from to : NodeID) (evidenceID : EvidenceID) (leafIndex : Z) : bytes :=
  from ++ to ++ evidenceID ++ Evidence.putUint32Word leafIndex.

Section Hashing.
Context (keccak256 : bytes → Hash).

Definition NewTrustNode (key : NodeKey) (root : TrustRoot) (evidenceID : EvidenceID)
    : TrustNode :=
  mkTrustNode (keccak256 (node_encoding key)) key root evidenceID.

Definition TrustNode_Validate (node : TrustNode) : res error unit :=
  _ ← map_err (λ _, ErrInvalidTrustNode) (ChainID_Validate node.(node_Key).(key_ChainID));
  if (node.(node_Key).(key_BlockHash) =?= zero32) || (node.(node_ID) =?= zero32)
  then Err ErrInvalidTrustNode
  else
    let want := NewTrustNode node.(node_Key) node.(node_Root) node.(node_EvidenceID) in
    if want.(node_ID) ≠?= node.(node_ID) then Err ErrInvalidTrustNode else Ok tt.

Definition NewTrustEdge (from to : NodeID) (evidenceID : EvidenceID) (leafIndex : Z)
    (witnessID : option WitnessID) (pathStepCost : Z) : res error TrustEdge :=
  if (from =?= zero32) || (to =?= zero32) || (from =?= to) || (evidenceID =?= zero32)
     || (pathStepCost =? 0)
  then Err ErrInvalidTrustEdge
  else Ok (mkTrustEdge (keccak256 (edge_encoding from to evidenceID leafIndex))
             from to evidenceID leafIndex witnessID pathStepCost).

Definition TrustEdge_Validate (edge : TrustEdge) : res error unit :=
  match NewTrustEdge edge.(edge_From) edge.(edge_To) edge.(edge_EvidenceID)
          edge.(edge_LeafIndex) edge.(edge_WitnessID) edge.(PathStepCost) with
  | Err _ => Err ErrInvalidTrustEdge
  | Ok want => if want.(edge_ID) ≠?= edge.(edge_ID) then Err ErrInvalidTrustEdge else Ok tt
  end.

(** First loop of [NewTrustView]. *)
Fixpoint nodes_loop (nodes : list TrustNode) (byID : gmap NodeID TrustNode)
    (byKey : gmap NodeKey TrustNode) : res error (gmap NodeID TrustNode) :=
  match nodes with
  | [] => Ok byID
  | node :: rest =>
      _ ← TrustNode_Validate node;
      if match byKey !! node.(node_Key) with
         | Some previous => previous.(node_Root) ≠?= node.(node_Root)
         | None => false
         end
      then Err ErrTrustRootConflict
      else
        match byID !! node.(node_ID) with
        | Some previous =>
            if (previous.(node_Key) ≠?= node.(node_Key))
               || (previous.(node_Root) ≠?= node.(node_Root))
               || (previous.(node_EvidenceID) ≠?= node.(node_EvidenceID))
            then Err ErrTrustRootConflict
            else nodes_loop rest byID byKey
        | None =>
            nodes_loop rest (<[node.(node_ID) := node]> byID)
              (<[node.(node_Key) := node]> byKey)
        end
  end.

(** Second loop of [NewTrustView]. *)
Fixpoint edges_loop (byID : gmap NodeID TrustNode) (edges : list TrustEdge)
    (uniqueEdges : gmap EdgeID TrustEdge) : res error (gmap EdgeID TrustEdge) :=
  match edges with
  | [] => Ok uniqueEdges
  | edge :: rest =>
      _ ← TrustEdge_Validate edge;
      match byID !! edge.(edge_From) with
      | None => Err ErrDanglingTrustEdge
      | Some fromNode =>
          match byID !! edge.(edge_To) with
          | None => Err ErrDanglingTrustEdge
          | Some toNode =>
              if fromNode.(node_Key).(key_ChainID) =?= toNode.(node_Key).(key_ChainID)
              then Err ErrInvalidTrustEdge
              else
                match uniqueEdges !! edge.(edge_ID) with
                | Some previous =>
                    if (previous.(edge_From) ≠?= edge.(edge_From))
                       || (previous.(edge_To) ≠?= edge.(edge_To))
                       || (previous.(edge_EvidenceID) ≠?= edge.(edge_EvidenceID))
                       || negb (previous.(edge_LeafIndex) =? edge.(edge_LeafIndex))
                       || negb (previous.(PathStepCost) =? edge.(PathStepCost))
                       || negb (sameWitness previous.(edge_WitnessID) edge.(edge_WitnessID))
                    then Err ErrInvalidTrustEdge
                    else edges_loop byID rest uniqueEdges
                | None =>
                    edges_loop byID rest (<[edge.(edge_ID) := edge]> uniqueEdges)
                end
          end
      end
  end.

Definition NewTrustView (revision : Z) (nodes : list TrustNode) (edges : list TrustEdge)
    : res error TrustView :=
  byID ← nodes_loop nodes ∅ ∅;
  uniqueEdges ← edges_loop byID edges ∅;
  Ok (mkTrustView revision
        (sort_by (λ node, node.(node_ID)) (map_values byID))
        (sort_by (λ edge, edge.(edge_ID)) (map_values uniqueEdges))).
End Hashing.

(** ** Membership witnesses of edges *)

Record MembershipWitness := mkMembershipWitness {
  witness_ID : WitnessID;
  witness_EvidenceID : EvidenceID;
  witness_LeafIndex : Z;
  witness_Siblings : list Hash
}.

#[export] Instance MembershipWitness_eq_dec : EqDecision MembershipWitness.
Proof. solve_decision. Defined.

Definition witness_encoding (evidenceID : EvidenceID) (leafIndex : Z) (siblings : list Hash)
    : bytes :=
  evidenceID ++ be_bytes 4 leafIndex ++ mjoin (vec_to_list <$> siblings).

(** ** Verified dependencies *)

Record VerifiedDependency := mkVerifiedDependency {
  dep_RequestID : RequestID;
  dep_DependencyKey : Hash;
  dep_SourceChainID : ChainID;
  dep_SourceHeight : BlockHeight;
  dep_SourceBlockHash : Hash;
  dep_SourceTrustRoot : TrustRoot;
  dep_LeafIndex : Z;
  dep_EvidenceID : EvidenceID
}.

#[export] Instance VerifiedDependency_eq_dec : EqDecision VerifiedDependency.
Proof. solve_decision. Defined.

Definition dependency_key_encoding (chainID : ChainID) (height : BlockHeight)
    (blockHash : Hash) (root : TrustRoot) : bytes :=
  chainID ++ height ++ blockHash ++ root.

Definition payload_encoding (dependency : VerifiedDependency) : bytes :=
  dependency.(dep_DependencyKey) ++ dependency.(dep_RequestID)
    ++ dependency.(dep_SourceChainID) ++ dependency.(dep_SourceHeight)
    ++ dependency.(dep_SourceBlockHash) ++ dependency.(dep_SourceTrustRoot)
    ++ Evidence.putUint32Word dependency.(dep_LeafIndex).

(** ** Observations of TrustRoots through an RPC node *)

Record TrustRootObservationContent := mkObservationContent {
  obs_ChainID : ChainID;
  obs_Height : BlockHeight;
  obs_BlockHash : Hash;
  obs_Gateway : Address;
  obs_TrustRoot : TrustRoot;
  obs_GatewayCodeHash : Hash;
  obs_RequiredConfirmations : Z;
  obs_ConfirmedHeadHeight : BlockHeight;
  obs_ConfirmedHeadHash : Hash
}.

Record TrustRootObservation := mkObservation {
  obs_ID : bytes32;
  obs_Content : TrustRootObservationContent;
  obs_ObservedAt : Evidence.Time
}.

#[export] Instance ObservationContent_eq_dec : EqDecision TrustRootObservationContent.
Proof. solve_decision. Defined.

#[export] Instance Observation_eq_dec : EqDecision TrustRootObservation.
Proof. solve_decision. Defined.

Definition Observation_Validate (observation : TrustRootObservation) : res error unit :=
  let o := observation.(obs_Content) in
  _ ← map_err ErrDomain (ChainID_Validate o.(obs_ChainID));
  if (o.(obs_BlockHash) =?= zero32) || (o.(obs_Gateway) =?= zero_address)
     || (o.(obs_GatewayCodeHash) =?= zero32) || (o.(obs_ConfirmedHeadHash) =?= zero32)
     || (o.(obs_RequiredConfirmations) =? 0)
  then Err ErrObservationFields
  else
    let required := BlockHeight_BigInt o.(obs_Height) + o.(obs_RequiredConfirmations) in
    if BlockHeight_BigInt o.(obs_ConfirmedHeadHeight) <? required
    then Err ErrObservationNotConfirmed else Ok tt.

Definition observation_encoding (o : TrustRootObservationContent) : bytes :=
  o.(obs_ChainID) ++ o.(obs_Height) ++ o.(obs_BlockHash)
    ++ Evidence.address_word o.(obs_Gateway) ++ o.(obs_TrustRoot) ++ o.(obs_GatewayCodeHash)
    ++ uint256FromUint64 o.(obs_RequiredConfirmations)
    ++ o.(obs_ConfirmedHeadHeight) ++ o.(obs_ConfirmedHeadHash).

Definition observation_tag : bytes :=
  bytes_of_string "TrustMap/TrustRootObservation/v1" ++ [Byte.x00].

(** ** Sealed snapshots *)

Record TrustViewSnapshot := mkSnapshot {
  snap_ID : SnapshotID;
  snap_Revision : Z;
  HomeChainID : ChainID;
  HomeTrustRoot : TrustRoot;
  StartNodeID : NodeID;
  TargetNodeID : NodeID;
  Sealed : bool;
  snap_Nodes : list TrustNode;
  snap_Edges : list TrustEdge
}.

#[export] Instance TrustViewSnapshot_eq_dec : EqDecision TrustViewSnapshot.
Proof. solve_decision. Defined.

Definition snapshot_encoding (requestID : RequestID) (attempt revision : Z)
    (start target : NodeID) (expectedHomeRoot : TrustRoot) : bytes :=
  requestID ++ uint256FromUint64 attempt ++ uint256FromUint64 revision
    ++ start ++ target ++ expectedHomeRoot.

Section Identifiers.
Context (keccak256 : bytes → Hash).

Definition NewMembershipWitness (evidenceID : EvidenceID) (leafIndex : Z)
    (siblings : list Hash) : MembershipWitness :=
  mkMembershipWitness (keccak256 (witness_encoding evidenceID leafIndex siblings))
    evidenceID leafIndex siblings.

Definition ComputeDependencyKey (chainID : ChainID) (height : BlockHeight)
    (blockHash : Hash) (root : TrustRoot) : Hash :=
  keccak256 (dependency_key_encoding chainID height blockHash root).

Definition NewVerifiedDependency (requestID : RequestID) (sourceChainID : ChainID)
    (sourceHeight : BlockHeight) (sourceBlockHash : Hash) (sourceTrustRoot : TrustRoot)
    (leafIndex : Z) (evidenceID : EvidenceID) : VerifiedDependency :=
  mkVerifiedDependency requestID
    (ComputeDependencyKey sourceChainID sourceHeight sourceBlockHash sourceTrustRoot)
    sourceChainID sourceHeight sourceBlockHash sourceTrustRoot leafIndex evidenceID.

Definition ComputeDependencyRecordedPayloadDigest (dependency : VerifiedDependency) : Hash :=
  keccak256 (payload_encoding dependency).

Definition VerifiedDependency_Validate (dependency : VerifiedDependency)
    (target : TrustNode) (payloadDigest : Hash) : res error unit :=
  if (dependency.(dep_RequestID) =?= zero32) || (dependency.(dep_EvidenceID) =?= zero32)
  then Err ErrInvalidVerifiedDependency
  else
    _ ← map_err (λ _, ErrInvalidVerifiedDependency)
          (ChainID_Validate dependency.(dep_SourceChainID));
    let wantKey := ComputeDependencyKey dependency.(dep_SourceChainID)
      dependency.(dep_SourceHeight) dependency.(dep_SourceBlockHash)
      dependency.(dep_SourceTrustRoot) in
    if (dependency.(dep_DependencyKey) ≠?= wantKey)
       || (dependency.(dep_SourceChainID) ≠?= target.(node_Key).(key_ChainID))
       || (dependency.(dep_SourceHeight) ≠?= target.(node_Key).(key_Height))
       || (dependency.(dep_SourceBlockHash) ≠?= target.(node_Key).(key_BlockHash))
       || (dependency.(dep_SourceTrustRoot) ≠?= target.(node_Root))
       || (payloadDigest ≠?= ComputeDependencyRecordedPayloadDigest dependency)
    then Err ErrInvalidVerifiedDependency else Ok tt.

Definition Observation_ComputeID (observation : TrustRootObservation) : bytes32 :=
  keccak256 (observation_encoding observation.(obs_Content)).

Definition NewTrustRootObservation (content : TrustRootObservationContent)
    : res error TrustRootObservation :=
  let observation := mkObservation zero32 content None in
  _ ← Observation_Validate observation;
  Ok (mkObservation (Observation_ComputeID observation) content None).

(** The error of [ComputeSyntheticID] is dropped; the identifier is then the
    zero value. *)
Definition SyntheticEvidence (observation : TrustRootObservation)
    : Evidence.EvidenceRecord :=
  let o := observation.(obs_Content) in
  let id := Observation_ComputeID observation in
  let payload := keccak256 (observation_tag ++ id) in
  let locator := Evidence.mkLocator o.(obs_ChainID) o.(obs_Gateway) o.(obs_Height)
                   o.(obs_BlockHash) zero32 0 0 payload in
  let evidenceID := match Evidence.ComputeSyntheticID keccak256 locator with
                    | Ok evidenceID => evidenceID
                    | Err _ => zero32
                    end in
  Evidence.mkRecord evidenceID locator Evidence.Candidate ""
    observation.(obs_ObservedAt) observation.(obs_ObservedAt).

Definition Observation_TrustNode (observation : TrustRootObservation) : TrustNode :=
  let o := observation.(obs_Content) in
  NewTrustNode keccak256 (mkNodeKey o.(obs_ChainID) o.(obs_Height) o.(obs_BlockHash))
    o.(obs_TrustRoot) (SyntheticEvidence observation).(Evidence.rec_ID).

Definition ComputeSnapshotID (requestID : RequestID) (attempt revision : Z)
    (start target : NodeID) (expectedHomeRoot : TrustRoot) : SnapshotID :=
  keccak256 (snapshot_encoding requestID attempt revision start target expectedHomeRoot).
End Identifiers.

(** ** Lemmas: validation *)

Lemma TrustNode_Validate_Ok keccak256 node :
  TrustNode_Validate keccak256 node = Ok tt →
  node.(node_Key).(key_ChainID) ≠ zero32 ∧ node.(node_ID) ≠ zero32 ∧
  node.(node_ID) = keccak256 (node_encoding node.(node_Key)).
Proof.
  unfold TrustNode_Validate, ChainID_Validate. cbn. intros H. res_cases H; bool_to_prop.
  all: repeat match goal with H : map_err _ (if ?b then _ else _) = _ |- _ =>
    destruct b eqn:?; cbn in H; [discriminate H|] end; by bool_to_prop.
Qed.

Lemma TrustEdge_Validate_Ok keccak256 edge :
  TrustEdge_Validate keccak256 edge = Ok tt →
  edge.(edge_From) ≠ edge.(edge_To) ∧ edge.(PathStepCost) ≠ 0 ∧
  edge.(edge_ID) = keccak256 (edge_encoding edge.(edge_From) edge.(edge_To)
                                edge.(edge_EvidenceID) edge.(edge_LeafIndex)).
Proof.
  unfold TrustEdge_Validate, NewTrustEdge. intros H. res_cases H.
  simplify_eq/=. by bool_to_prop.
Qed.

Lemma sameWitness_spec l r : sameWitness l r = true ↔ l = r.
Proof.
  destruct l, r; cbn; try done. rewrite bool_decide_eq_true. naive_solver.
Qed.

(** ** Lemmas: the two loops of [NewTrustView] *)

Section Loops.
Context (keccak256 : bytes → Hash).

Abbreviation valid_node node := (TrustNode_Validate keccak256 node = Ok tt).
Abbreviation valid_edge edge := (TrustEdge_Validate keccak256 edge = Ok tt).

Lemma same_node n m :
  n.(node_ID) = m.(node_ID) → n.(node_Key) = m.(node_Key) →
  n.(node_Root) = m.(node_Root) → n.(node_EvidenceID) = m.(node_EvidenceID) → n = m.
Proof. destruct n, m; cbn; congruence. Qed.

Lemma node_fields_differ n m :
  n.(node_ID) = m.(node_ID) →
  (n.(node_Key) ≠?= m.(node_Key)) || (n.(node_Root) ≠?= m.(node_Root))
    || (n.(node_EvidenceID) ≠?= m.(node_EvidenceID)) = false ↔ n = m.
Proof.
  intros Hid. rewrite !orb_false_iff, !negb_false_iff, !bool_decide_eq_true.
  split; [intros [[??]?]; by apply same_node|by intros ->].
Qed.

Lemma edge_fields_differ e f :
  e.(edge_ID) = f.(edge_ID) →
  (e.(edge_From) ≠?= f.(edge_From)) || (e.(edge_To) ≠?= f.(edge_To))
    || (e.(edge_EvidenceID) ≠?= f.(edge_EvidenceID))
    || negb (e.(edge_LeafIndex) =? f.(edge_LeafIndex))
    || negb (e.(PathStepCost) =? f.(PathStepCost))
    || negb (sameWitness e.(edge_WitnessID) f.(edge_WitnessID)) = false ↔ e = f.
Proof.
  intros Hid. rewrite !orb_false_iff, !negb_false_iff, !bool_decide_eq_true,
    !Z.eqb_eq, sameWitness_spec.
  split; [destruct e, f; cbn in *; naive_solver congruence|naive_solver].
Qed.

(** The map [byKey] adds nothing to [byID]: equal keys have equal hashes. *)
Lemma byKey_conflict seen byID byKey node :
  indexes node_ID byID seen → indexes node_Key byKey seen →
  Forall (λ n, valid_node n) seen → valid_node node →
  match byKey !! node.(node_Key) with
  | Some previous => previous.(node_Root) ≠?= node.(node_Root)
  | None => false
  end = true →
  ∃ previous, byID !! node.(node_ID) = Some previous ∧ previous ≠ node.
Proof.
  intros HI HK Hv Hn Hc. destruct (byKey !! _) as [p|] eqn:Hp; [|done].
  apply HK in Hp as [Hin Hkey]. rewrite Forall_forall in Hv.
  apply negb_true_iff, bool_decide_eq_false_1 in Hc.
  exists p. split; [|congruence]. apply HI. split; [done|].
  apply Hv, TrustNode_Validate_Ok in Hin as (_ & _ & ->).
  apply TrustNode_Validate_Ok in Hn as (_ & _ & ->). by rewrite Hkey.
Qed.

Lemma nodes_loop_spec nodes seen byID byKey m :
  indexes node_ID byID seen → indexes node_Key byKey seen →
  Forall (λ n, valid_node n) seen →
  nodes_loop keccak256 nodes byID byKey = Ok m ↔
    Forall (λ n, valid_node n) nodes ∧ indexes node_ID m (seen ++ nodes).
Proof.
  revert seen byID byKey. induction nodes as [|node rest IH]; intros seen byID byKey HI HK Hv.
  - cbn. rewrite app_nil_r. split.
    + intros [= ->]. by split.
    + intros [_ Hm]. f_equal. apply map_eq. intros i.
      apply option_eq. intros n. by rewrite (HI i n), (Hm i n).
  - cbn [nodes_loop]. rewrite Forall_cons, bind_Ok.
    destruct (TrustNode_Validate keccak256 node) as [[]|] eqn:Hn; [|naive_solver].
    assert (∀ p, byID !! node_ID node = Some p → p ≠ node →
      ∀ X, ¬ (X ∧ indexes node_ID m (seen ++ node :: rest))) as Hconf.
    { intros p Hp Hne X [_ Hm]. revert Hm.
      eapply (indexes_conflict node_ID _ _ node p); [exact HI|exact Hp|by apply not_eq_sym]. }
    destruct (match byKey !! _ with Some _ => _ | _ => _ end) eqn:Hc.
    { eapply byKey_conflict in Hc as (p & Hp & Hne); [|done..].
      split; [naive_solver|]. intros H. by destruct (Hconf p ltac:(done) Hne _ H). }
    destruct (byID !! node_ID node) as [p|] eqn:Hp.
    + assert (node_ID p = node_ID node) as Hid by (by apply HI in Hp as [_ ?]).
      pose proof (node_fields_differ p node Hid) as Hd.
      destruct (_ || _ || _) eqn:Ho.
      { assert (p ≠ node) as Hne by (intros Hx; by apply Hd in Hx).
        split; [naive_solver|]. intros H. by destruct (Hconf p ltac:(done) Hne _ H). }
      assert (p = node) as -> by tauto.
      assert (byKey !! node_Key node = Some node) as Hk.
      { apply HK. by apply HI in Hp as [? _]. }
      rewrite (cons_middle node seen rest), (app_assoc seen [node] rest).
      pose proof (IH (seen ++ [node]) byID byKey (indexes_again _ _ _ _ HI Hp)
        (indexes_again _ _ _ _ HK Hk) (Forall_snoc Hv Hn)). naive_solver.
    + assert (byKey !! node_Key node = None) as Hk.
      { destruct (byKey !! node_Key node) as [p|] eqn:Hk; [|done].
        apply HK in Hk as [Hin Hkey]. rewrite Forall_forall in Hv.
        assert (byID !! node_ID node = Some p); [|congruence].
        apply HI. split; [done|].
        apply Hv, TrustNode_Validate_Ok in Hin as (_ & _ & ->).
        apply TrustNode_Validate_Ok in Hn as (_ & _ & ->). by rewrite Hkey. }
      rewrite (cons_middle node seen rest), (app_assoc seen [node] rest).
      pose proof (IH (seen ++ [node]) _ _ (indexes_insert _ _ _ _ HI Hp)
        (indexes_insert _ _ _ _ HK Hk) (Forall_snoc Hv Hn)). naive_solver.
Qed.

(** An edge joins two nodes of the view that lie on different chains. *)
Definition attached (byID : gmap NodeID TrustNode) (edge : TrustEdge) : Prop :=
  ∃ from to, byID !! edge.(edge_From) = Some from ∧ byID !! edge.(edge_To) = Some to ∧
    from.(node_Key).(key_ChainID) ≠ to.(node_Key).(key_ChainID).

Lemma edges_loop_spec byID edges seen uniqueEdges m :
  indexes edge_ID uniqueEdges seen →
  edges_loop keccak256 byID edges uniqueEdges = Ok m ↔
    Forall (λ e, valid_edge e ∧ attached byID e) edges ∧ indexes edge_ID m (seen ++ edges).
Proof.
  revert seen uniqueEdges. induction edges as [|edge rest IH]; intros seen uniqueEdges HU.
  - cbn. rewrite app_nil_r. split.
    + intros [= ->]. by split.
    + intros [_ Hm]. f_equal. apply map_eq. intros i.
      apply option_eq. intros n. by rewrite (HU i n), (Hm i n).
  - cbn [edges_loop]. rewrite Forall_cons, bind_Ok.
    destruct (TrustEdge_Validate keccak256 edge) as [[]|] eqn:He; [|naive_solver].
    unfold attached at 1.
    destruct (byID !! edge_From edge) as [f|]; [|naive_solver].
    destruct (byID !! edge_To edge) as [t|]; [|naive_solver].
    case_bool_decide as Hchain; [naive_solver|].
    destruct (uniqueEdges !! edge_ID edge) as [p|] eqn:Hp.
    + assert (edge_ID p = edge_ID edge) as Hid by (by apply HU in Hp as [_ ?]).
      pose proof (edge_fields_differ p edge Hid) as Hd.
      destruct (_ || _ || _) eqn:Ho.
      { assert (p ≠ edge) as Hne by (intros Hx; by apply Hd in Hx).
        split; [naive_solver|]. intros [_ Hm]. exfalso. revert Hm.
        eapply (indexes_conflict edge_ID _ _ edge p); [done|done|by apply not_eq_sym]. }
      assert (p = edge) as -> by tauto.
      rewrite (cons_middle edge seen rest), (app_assoc seen [edge] rest).
      pose proof (IH (seen ++ [edge]) _ (indexes_again _ _ _ _ HU Hp)). naive_solver.
    + rewrite (cons_middle edge seen rest), (app_assoc seen [edge] rest).
      pose proof (IH (seen ++ [edge]) _ (indexes_insert _ _ _ _ HU Hp)). naive_solver.
Qed.
End Loops.

(** ** What a view promises *)

Section Views.
Context (keccak256 : bytes → Hash).

(** Nodes and edges that can form one view: each well-formed on its own,
    nodes (edges) with the same identifier identical, and every edge between
    two given nodes of different chains. *)
Definition consistent_graph (nodes : list TrustNode) (edges : list TrustEdge) : Prop :=
  Forall (λ n, TrustNode_Validate keccak256 n = Ok tt) nodes ∧
  Forall (λ e, TrustEdge_Validate keccak256 e = Ok tt) edges ∧
  (∀ n m, n ∈ nodes → m ∈ nodes → n.(node_ID) = m.(node_ID) → n = m) ∧
  (∀ e f, e ∈ edges → f ∈ edges → e.(edge_ID) = f.(edge_ID) → e = f) ∧
  (∀ e, e ∈ edges → ∃ from to, from ∈ nodes ∧ to ∈ nodes ∧
     from.(node_ID) = e.(edge_From) ∧ to.(node_ID) = e.(edge_To) ∧
     from.(node_Key).(key_ChainID) ≠ to.(node_Key).(key_ChainID)).

(** The view's slices hold the given nodes and edges, without repetition and
    in increasing order of identifier. *)
Definition canonical_view (view : TrustView) (nodes : list TrustNode) (edges : list TrustEdge)
    : Prop :=
  (∀ n, n ∈ view.(Nodes) ↔ n ∈ nodes) ∧ (∀ e, e ∈ view.(Edges) ↔ e ∈ edges) ∧
  StronglySorted (key_lt (λ node : TrustNode, node.(node_ID))) view.(Nodes) ∧
  StronglySorted (key_lt (λ edge : TrustEdge, edge.(edge_ID))) view.(Edges).

Lemma canonical_view_unique v w nodes edges :
  v.(Revision) = w.(Revision) →
  canonical_view v nodes edges → canonical_view w nodes edges → v = w.
Proof.
  destruct v as [r n e], w as [r' n' e']. cbn. intros -> (Hn&He&Sn&Se) (Hn'&He'&Sn'&Se').
  cbn in *. f_equal; eapply sorted_by_unique; try done; set_solver.
Qed.
End Views.

Lemma fmap_NoDup_vec {A n} (f : A → vec byte n) l :
  NoDup (f <$> l) → NoDup ((λ a, vec_to_list (f a)) <$> l).
Proof.
  intros H. rewrite (list_fmap_compose f vec_to_list).
  apply NoDup_fmap_2; [|done]. intros v w. apply vec_to_list_inj2.
Qed.

Lemma sorted_values_canonical {A} (key : A → bytes32) (m : gmap bytes32 A) l :
  indexes key m l →
  (∀ a, a ∈ sort_by (λ x, key x) (map_values m) ↔ a ∈ l) ∧
  StronglySorted (key_lt (λ x, key x)) (sort_by (λ x, key x) (map_values m)).
Proof.
  intros Hm. split.
  - intros a. rewrite sort_by_perm. by eapply elem_of_map_values.
  - apply sort_by_sorted, fmap_NoDup_vec. by eapply map_values_keys.
Qed.

Lemma attached_nodes byID nodes edge :
  indexes node_ID byID nodes →
  attached byID edge ↔ ∃ from to, from ∈ nodes ∧ to ∈ nodes ∧
       from.(node_ID) = edge.(edge_From) ∧ to.(node_ID) = edge.(edge_To) ∧
       from.(node_Key).(key_ChainID) ≠ to.(node_Key).(key_ChainID).
Proof.
  intros HI. unfold attached. split; intros (f & t & H); exists f, t.
  - destruct H as (Hf%HI & Ht%HI & Hc). tauto.
  - split_and!; [apply HI|apply HI|]; tauto.
Qed.

Lemma NewTrustView_iff (keccak256 : bytes → Hash) (revision : Z)
    (nodes : list TrustNode) (edges : list TrustEdge) (view : TrustView) :
  NewTrustView keccak256 revision nodes edges = Ok view ↔
    consistent_graph keccak256 nodes edges ∧
    view.(Revision) = revision ∧ canonical_view view nodes edges.
Proof.
  unfold NewTrustView. split.
  - intros (byID & HI & H)%bind_Ok. apply bind_Ok in H as (uniq & HU & [= <-]).
    eapply nodes_loop_spec in HI as [Hn HI];
      [|apply indexes_empty|apply indexes_empty|apply Forall_nil_2].
    eapply edges_loop_spec in HU as [He HU]; [|apply indexes_empty].
    cbn [app] in HI, HU. rewrite Forall_forall in He.
    split_and!; [|done|].
    + split_and!; [done| | | |].
      * apply Forall_forall. naive_solver.
      * intros n m. by eapply indexes_functional.
      * intros e f. by eapply indexes_functional.
      * intros e Hin. apply (attached_nodes byID nodes e HI). naive_solver.
    + pose proof (sorted_values_canonical node_ID byID nodes HI).
      pose proof (sorted_values_canonical edge_ID uniq edges HU).
      split_and!; cbn; tauto.
  - intros ((Hn & He & Fn & Fe & Ha) & Hr & Hc).
    destruct (indexes_exists node_ID nodes Fn) as [byID HI].
    destruct (indexes_exists edge_ID edges Fe) as [uniq HU].
    apply bind_Ok. exists byID. split.
    { eapply nodes_loop_spec; [apply indexes_empty|apply indexes_empty|apply Forall_nil_2|done]. }
    apply bind_Ok. exists uniq. split.
    { eapply edges_loop_spec; [apply indexes_empty|]. split; [|done].
      rewrite !Forall_forall in *. intros e Hin. rewrite (attached_nodes byID nodes e HI). auto. }
    f_equal. eapply canonical_view_unique; [done| |done].
    pose proof (sorted_values_canonical node_ID byID nodes HI).
    pose proof (sorted_values_canonical edge_ID uniq edges HU).
    split_and!; cbn; tauto.
Qed.

(** ** Theorems *)

(** [NewTrustView] accepts exactly the consistent collections of nodes and
    edges, and what it returns is the canonical view of them: the same nodes
    and edges, once each, in increasing order of identifier.  (The canonical
    view is unique, so neither the order of the inputs, nor repetitions among
    them, nor the iteration order of Go maps can change the result.) *)
Theorem NewTrustView_spec (keccak256 : bytes → Hash) (revision : Z)
    (nodes : list TrustNode) (edges : list TrustEdge) (view : TrustView) :
  NewTrustView keccak256 revision nodes edges = Ok view ↔
    consistent_graph keccak256 nodes edges ∧
    view.(Revision) = revision ∧ canonical_view view nodes edges.
Proof. apply NewTrustView_iff. Qed.

Lemma uint256FromUint64_bytes v :
  vec_to_list (uint256FromUint64 v) = zero_array 24 ++ be_bytes 8 v.
Proof. exact (vec_to_list_app (zero_array 24) (be_vec 8 v)). Qed.

Lemma uint256FromUint64_inj v w :
  u64 v → u64 w → uint256FromUint64 v = uint256FromUint64 w → v = w.
Proof.
  unfold u64, MaxUint64. intros Hv Hw H.
  apply (f_equal vec_to_list) in H. rewrite !uint256FromUint64_bytes in H.
  apply (inj (app _)) in H. eapply (be_bytes_inj 8); [| |exact H];
    change (256 ^ Z.of_nat 8) with (2 ^ 64); lia.
Qed.

Lemma payload_encoding_inj d e :
  u32 d.(dep_LeafIndex) → u32 e.(dep_LeafIndex) →
  payload_encoding d = payload_encoding e →
  d = mkVerifiedDependency e.(dep_RequestID) e.(dep_DependencyKey) e.(dep_SourceChainID)
        e.(dep_SourceHeight) e.(dep_SourceBlockHash) e.(dep_SourceTrustRoot)
        e.(dep_LeafIndex) d.(dep_EvidenceID).
Proof.
  unfold payload_encoding. intros Hd He H. Evidence.split_words H.
  apply (f_equal (app (replicate 28 Byte.x00))), Evidence.putUint32Word_inj in H; [|done..].
  destruct d, e; cbn in *. by subst.
Qed.

Lemma snapshot_encoding_inj r a v s t h r' a' v' s' t' h' :
  u64 a → u64 v → u64 a' → u64 v' →
  snapshot_encoding r a v s t h = snapshot_encoding r' a' v' s' t' h' →
  r = r' ∧ a = a' ∧ v = v' ∧ s = s' ∧ t = t' ∧ h = h'.
Proof.
  unfold snapshot_encoding. intros ???? H. split_apps H.
  repeat match goal with
  | H : vec_to_list _ = vec_to_list _ |- _ => apply vec_to_list_inj2 in H
  end.
  split_and!; auto using uint256FromUint64_inj.
Qed.

Lemma VerifiedDependency_Validate_Ok keccak256 d target digest :
  VerifiedDependency_Validate keccak256 d target digest = Ok tt →
  d.(dep_DependencyKey) = ComputeDependencyKey keccak256 d.(dep_SourceChainID)
    d.(dep_SourceHeight) d.(dep_SourceBlockHash) d.(dep_SourceTrustRoot) ∧
  target.(node_Key) = mkNodeKey d.(dep_SourceChainID) d.(dep_SourceHeight) d.(dep_SourceBlockHash) ∧
  target.(node_Root) = d.(dep_SourceTrustRoot) ∧
  digest = ComputeDependencyRecordedPayloadDigest keccak256 d.
Proof.
  unfold VerifiedDependency_Validate. intros H. case_match; [done|].
  apply bind_Ok in H as (? & _ & H). case_match eqn:Hc; [done|]. bool_to_prop.
  destruct target as [? [] ? ?]; cbn in *. split_and!; congruence.
Qed.

(** The payload digest of a validated dependency binds the target node:
    two dependencies validated against the same digest name the same request,
    source block, TrustRoot and leaf, and their target nodes have the same key
    and the same root, unless keccak collides on their two encodings. *)
Theorem VerifiedDependency_binding (keccak256 : bytes → Hash) d e dt et digest :
  u32 d.(dep_LeafIndex) → u32 e.(dep_LeafIndex) →
  VerifiedDependency_Validate keccak256 d dt digest = Ok tt →
  VerifiedDependency_Validate keccak256 e et digest = Ok tt →
  (dt.(node_Key) = et.(node_Key) ∧ dt.(node_Root) = et.(node_Root) ∧
   d.(dep_RequestID) = e.(dep_RequestID) ∧ d.(dep_LeafIndex) = e.(dep_LeafIndex)) ∨
  (payload_encoding d ≠ payload_encoding e ∧
   keccak256 (payload_encoding d) = keccak256 (payload_encoding e)).
Proof.
  intros Hd He (_ & Kd & Rd & Dd)%VerifiedDependency_Validate_Ok
    (_ & Ke & Re & De)%VerifiedDependency_Validate_Ok.
  destruct (decide (payload_encoding d = payload_encoding e)) as [Heq|Hne].
  - left. apply payload_encoding_inj in Heq; [|done..].
    rewrite Kd, Ke, Rd, Re. rewrite Heq. by cbn.
  - right. split; [done|]. unfold ComputeDependencyRecordedPayloadDigest in *. congruence.
Qed.

(** A dependency on block 10 of chain 2, recorded at leaf 3. *)
Definition sample_dependency : VerifiedDependency :=
  NewVerifiedDependency sample_hash (be_vec 32 9) (be_vec 32 2) (be_vec 32 10) (be_vec 32 99)
    (be_vec 32 222) 3 (be_vec 32 5).
Definition sample_target : TrustNode :=
  NewTrustNode sample_hash (mkNodeKey (be_vec 32 2) (be_vec 32 10) (be_vec 32 99))
    (be_vec 32 222) (be_vec 32 6).

Lemma VerifiedDependency_binding_witness :
  let d := sample_dependency in
  let digest := ComputeDependencyRecordedPayloadDigest sample_hash d in
  VerifiedDependency_Validate sample_hash d sample_target digest = Ok tt ∧
  ((sample_target.(node_Key) = sample_target.(node_Key) ∧
    sample_target.(node_Root) = sample_target.(node_Root) ∧
    d.(dep_RequestID) = d.(dep_RequestID) ∧ d.(dep_LeafIndex) = d.(dep_LeafIndex)) ∨
   (payload_encoding d ≠ payload_encoding d ∧
    sample_hash (payload_encoding d) = sample_hash (payload_encoding d))).
Proof.
  intros d digest.
  assert (VerifiedDependency_Validate sample_hash d sample_target digest = Ok tt) as H
    by (vm_compute; reflexivity).
  assert (u32 d.(dep_LeafIndex)) as Hu by (split; vm_compute; congruence).
  exact (conj H (VerifiedDependency_binding sample_hash d d _ _ _ Hu Hu H H)).
Defined.

(** An observation that [NewTrustRootObservation] accepts is buried below
    the confirmed head by at least the required number of blocks, carries the
    identifier of its content, and its synthetic evidence has an identifier
    computed without error (the source drops that error), whatever the clock
    shows, as long as keccak does not return the all-zero digest; its node
    binds the observed chain, height, hash and root to that evidence. *)
Theorem NewTrustRootObservation_spec (keccak256 : bytes → Hash) content obs at_ :
  NewTrustRootObservation keccak256 content = Ok obs →
  keccak256 (observation_tag ++ keccak256 (observation_encoding content)) ≠ zero32 →
  let stored := mkObservation obs.(obs_ID) obs.(obs_Content) at_ in
  let evidence := SyntheticEvidence keccak256 stored in
  obs.(obs_ID) = Observation_ComputeID keccak256 stored ∧
  be_value content.(obs_Height) + content.(obs_RequiredConfirmations)
    ≤ be_value content.(obs_ConfirmedHeadHeight) ∧
  content.(obs_RequiredConfirmations) ≠ 0 ∧
  Evidence.ComputeSyntheticID keccak256 evidence.(Evidence.rec_Locator)
    = Ok evidence.(Evidence.rec_ID) ∧
  Observation_TrustNode keccak256 stored = NewTrustNode keccak256
    (mkNodeKey content.(obs_ChainID) content.(obs_Height) content.(obs_BlockHash))
    content.(obs_TrustRoot) evidence.(Evidence.rec_ID).
Proof.
  unfold NewTrustRootObservation, Observation_Validate. cbn. intros H Hpay.
  apply bind_Ok in H as (? & H & [= <-]). apply bind_Ok in H as (? & Hchain & H).
  case_match eqn:Hz; [done|]. case_match eqn:Hlt; [done|]. bool_to_prop.
  unfold BlockHeight_BigInt in *. cbn.
  split_and!; [done|lia|done| |done].
  rewrite map_err_Ok in Hchain. unfold Evidence.ComputeSyntheticID, Observation_ComputeID. cbn.
  rewrite Hchain. cbn. rewrite !bool_decide_eq_false_2 by done. done.
Qed.

Lemma NewTrustRootObservation_spec_witness :
  let content := mkObservationContent (be_vec 32 1) (be_vec 32 50) (be_vec 32 88) (be_vec 20 7)
    (be_vec 32 333) (be_vec 32 1001) 3 (be_vec 32 55) (be_vec 32 93) in
  ∃ obs, NewTrustRootObservation sample_hash content = Ok obs ∧
    obs.(obs_ID) = Observation_ComputeID sample_hash
                     (mkObservation obs.(obs_ID) obs.(obs_Content) (Some 5)).
Proof.
  intros content. eexists.
  assert (NewTrustRootObservation sample_hash content
    = Ok (mkObservation (Observation_ComputeID sample_hash (mkObservation zero32 content None))
            content None)) as H by (vm_compute; reflexivity).
  exact (conj H (proj1 (NewTrustRootObservation_spec sample_hash content _ (Some 5) H
    (sample_hash_nonzero _)))).
Defined.

End TrustView.
