(* ===== verification/Registry.v ===== *)
(** * Mapnode/registry: which chain this MapNode may sign for

    registry.go ([New], [DirectProfile], the two authority checks and
    [ComputeProfileFingerprint]) with the constants of
    internal/directprofile.  The error messages built with [fmt.Errorf] are
    constructors of [error] without their formatted arguments. *)

From S2P Require Import Prelude Domain.
Import Domain.

Module Registry.

(** internal/directprofile/profile.go *)
Definition directprofile_ID : string := "pow-spv-3m".
Definition AuthorizedSignerCount : Z := 3.
Definition directprofile_SignatureChecks : Z := 3.
Definition directprofile_HashRounds : Z := 4497.
Definition MeasuredCostGas : Z := 3000096.

Inductive error :=
| ErrHomeChainNotFound
| ErrChainNotFound
| ErrNoSignerAuthority
| ErrNoTransactionAuthority
| ErrEmptyRegistry
| ErrDomain (e : Domain.error)
| ErrChainNames
| ErrProfileIDs
| ErrDuplicateChainID
| ErrDuplicateMapNode
| ErrAuthorityMismatch
| ErrHomeCount.

#[export] Instance error_eq_dec : EqDecision error.
Proof. solve_decision. Defined.

Record DirectVerifierParameters := mkParameters {
  param_ID : string;
  AuthorizedSigners : list Address;
  SignatureChecks : Z;
  HashRounds : Z;
  MeasuredDirectCostGas : Z
}.

#[export] Instance DirectVerifierParameters_eq_dec : EqDecision DirectVerifierParameters.
Proof. solve_decision. Defined.

Record DeploymentProfile := mkDeploymentProfile {
  Configured : DirectVerifierParameters;
  Deployed : DirectVerifierParameters;
  Fingerprint : Hash
}.

#[export] Instance DeploymentProfile_eq_dec : EqDecision DeploymentProfile.
Proof. solve_decision. Defined.

Record Chain := mkChain {
  Name : string;
  chain_ID : ChainID;
  MapNodeID : string;
  Home : bool;
  SignerAuthority : bool;
  TransactionAuthority : bool;
  Profile : DeploymentProfile
}.

#[export] Instance Chain_eq_dec : EqDecision Chain.
Proof. solve_decision. Defined.

Record ValidatedDirectProfile := mkValidatedProfile {
  profile_ID : string;
  profile_Fingerprint : Hash;
  DirectCost : Z;
  Calibrated : bool
}.

#[export] Instance ValidatedDirectProfile_eq_dec : EqDecision ValidatedDirectProfile.
Proof. solve_decision. Defined.

Record Registry := mkRegistry {
  chains : gmap ChainID Chain;
  home : ChainID
}.

(** ** [New] *)

(** The guards of one iteration, in the order of the source. *)
Definition check_chain (result : Registry) (mapNodes : gset string) (chain : Chain)
    : res error unit :=
  _ ← map_err ErrDomain (ChainID_Validate chain.(chain_ID));
  if blank chain.(Name) || blank chain.(MapNodeID) then Err ErrChainNames
  else if blank chain.(Profile).(Configured).(param_ID)
          || blank chain.(Profile).(Deployed).(param_ID) then Err ErrProfileIDs
  else if bool_decide (is_Some (result.(chains) !! chain.(chain_ID))) then Err ErrDuplicateChainID
  else if bool_decide (chain.(MapNodeID) ∈ mapNodes) then Err ErrDuplicateMapNode
  else if (chain.(Home) ≠?= chain.(SignerAuthority))
          || (chain.(Home) ≠?= chain.(TransactionAuthority)) then Err ErrAuthorityMismatch
  else Ok tt.

Fixpoint new_loop (pending : list Chain) (result : Registry) (mapNodes : gset string)
    (homeCount : Z) : res error (Registry * Z) :=
  match pending with
  | [] => Ok (result, homeCount)
  | chain :: rest =>
      _ ← check_chain result mapNodes chain;
      let homeCount' := if chain.(Home) then homeCount + 1 else homeCount in
      let home' := if chain.(Home) then chain.(chain_ID) else result.(home) in
      new_loop rest (mkRegistry (<[chain.(chain_ID) := chain]> result.(chains)) home')
        ({[chain.(MapNodeID)]} ∪ mapNodes) homeCount'
  end.

Definition New (pending : list Chain) : res error Registry :=
  if zlen pending =? 0 then Err ErrEmptyRegistry
  else
    '(result, homeCount) ← new_loop pending (mkRegistry ∅ zero32) ∅ 0;
    if negb (homeCount =? 1) then Err ErrHomeCount else Ok result.

(** ** Queries *)

Definition Registry_Chain (registry : Registry) (chainID : ChainID) : option Chain :=
  registry.(chains) !! chainID.

Definition HomeChain (registry : Registry) : res error Chain :=
  match Registry_Chain registry registry.(home) with
  | None => Err ErrHomeChainNotFound
  | Some chain => Ok chain
  end.

Definition RequireTransactionAuthority (registry : Registry) (chainID : ChainID)
    : res error unit :=
  match Registry_Chain registry chainID with
  | None => Err ErrChainNotFound
  | Some chain =>
      if negb chain.(Home) || negb chain.(TransactionAuthority)
      then Err ErrNoTransactionAuthority else Ok tt
  end.

Definition RequireSignerAuthority (registry : Registry) (chainID : ChainID)
    : res error unit :=
  match Registry_Chain registry chainID with
  | None => Err ErrChainNotFound
  | Some chain =>
      if negb chain.(Home) || negb chain.(SignerAuthority)
      then Err ErrNoSignerAuthority else Ok tt
  end.

(** ** The direct verifier profile *)

Definition profile_encoding (parameters : DirectVerifierParameters) : bytes :=
  length_prefixed (bytes_of_string parameters.(param_ID))
    ++ be_bytes 4 (zlen parameters.(AuthorizedSigners))
    ++ mjoin (vec_to_list <$> parameters.(AuthorizedSigners))
    ++ be_bytes 4 parameters.(SignatureChecks)
    ++ be_bytes 4 parameters.(HashRounds)
    ++ be_bytes 8 parameters.(MeasuredDirectCostGas).

Fixpoint same_addresses (left right : list Address) : bool :=
  match left, right with
  | l :: left', r :: right' => if l ≠?= r then false else same_addresses left' right'
  | _, _ => true
  end.

Definition sameParameters (left right : DirectVerifierParameters) : bool :=
  if (left.(param_ID) ≠?= right.(param_ID))
     || negb (left.(SignatureChecks) =? right.(SignatureChecks))
     || negb (left.(HashRounds) =? right.(HashRounds))
     || negb (left.(MeasuredDirectCostGas) =? right.(MeasuredDirectCostGas))
     || negb (zlen left.(AuthorizedSigners) =? zlen right.(AuthorizedSigners))
  then false
  else same_addresses left.(AuthorizedSigners) right.(AuthorizedSigners).

(** The loop over the signers: [false] at the first zero or repeated one. *)
Fixpoint signers_loop (signers : list Address) (seen : gset Address) : bool :=
  match signers with
  | [] => true
  | signer :: rest =>
      if signer =?= zero_address then false
      else if bool_decide (signer ∈ seen) then false
      else signers_loop rest ({[signer]} ∪ seen)
  end.

Section Hashing.
Context (keccak256 : bytes → Hash).

Definition ComputeProfileFingerprint (parameters : DirectVerifierParameters) : Hash :=
  keccak256 (profile_encoding parameters).

(** The second result ([found]) is [None] against [Some]. *)
Definition DirectProfile (registry : Registry) (chainID : ChainID)
    : option ValidatedDirectProfile :=
  match Registry_Chain registry chainID with
  | None => None
  | Some chain =>
      if negb chain.(Home) || negb chain.(SignerAuthority)
         || negb chain.(TransactionAuthority) then None
      else
        let configured := chain.(Profile).(Configured) in
        let status := mkValidatedProfile configured.(param_ID)
                        chain.(Profile).(Fingerprint) 0 false in
        let computed := ComputeProfileFingerprint configured in
        if (computed ≠?= chain.(Profile).(Fingerprint))
           || negb (sameParameters configured chain.(Profile).(Deployed))
        then Some status
        else if (configured.(param_ID) ≠?= directprofile_ID)
           || negb (zlen configured.(AuthorizedSigners) =? AuthorizedSignerCount)
           || negb (configured.(SignatureChecks) =? directprofile_SignatureChecks)
           || negb (configured.(HashRounds) =? directprofile_HashRounds)
           || negb (configured.(MeasuredDirectCostGas) =? MeasuredCostGas)
        then Some status
        else if negb (signers_loop configured.(AuthorizedSigners) ∅) then Some status
        else Some (mkValidatedProfile status.(profile_ID) status.(profile_Fingerprint)
                     MeasuredCostGas true)
  end.
End Hashing.

(** ** What a registry promises *)

Definition chain_ok (chain : Chain) : Prop :=
  chain.(chain_ID) ≠ zero32 ∧
  blank chain.(Name) = false ∧ blank chain.(MapNodeID) = false ∧
  blank chain.(Profile).(Configured).(param_ID) = false ∧
  blank chain.(Profile).(Deployed).(param_ID) = false ∧
  chain.(SignerAuthority) = chain.(Home) ∧ chain.(TransactionAuthority) = chain.(Home).

(** Deployments that satisfy the one-chain/one-MapNode rule: one MapNode per
    chain, and exactly one of the chains is the home chain. *)
Definition deployment_ok (pending : list Chain) : Prop :=
  Forall chain_ok pending ∧ NoDup (chain_ID <$> pending) ∧ NoDup (MapNodeID <$> pending) ∧
  length (filter (λ c, c.(Home) = true) pending) = 1%nat.

(** ** Lemmas *)

Lemma check_chain_spec result mapNodes chain :
  check_chain result mapNodes chain = Ok tt ↔
  chain_ok chain ∧ result.(chains) !! chain.(chain_ID) = None ∧
  chain.(MapNodeID) ∉ mapNodes.
Proof.
  unfold check_chain, chain_ok, ChainID_Validate.
  destruct (bool_decide_reflect (chain_ID chain = zero32)) as [Hz|Hz]; cbn;
    [split; [done|by intros [[? _] _]]|].
  destruct (blank (Name chain)), (blank (MapNodeID chain)); cbn; try naive_solver.
  destruct (blank (param_ID (Configured (Profile chain))));
    destruct (blank (param_ID (Deployed (Profile chain)))); cbn; try naive_solver.
  rewrite eq_None_not_Some. repeat case_bool_decide; cbn; naive_solver.
Qed.

Lemma NoDup_snoc_app {A} (l : list A) a k :
  NoDup (l ++ a :: k) ↔ NoDup ((l ++ [a]) ++ k).
Proof. by rewrite <-(assoc_L (++)). Qed.

Definition loop_state (seen : list Chain) (result : Registry) (mapNodes : gset string)
    (homeCount : Z) : Prop :=
  indexes chain_ID result.(chains) seen ∧
  mapNodes = list_to_set (MapNodeID <$> seen) ∧
  homeCount = Z.of_nat (length (filter (λ c, c.(Home) = true) seen)) ∧
  (∀ c, last (filter (λ c, c.(Home) = true) seen) = Some c → result.(home) = c.(chain_ID)).

Lemma loop_state_step seen result mapNodes homeCount chain :
  loop_state seen result mapNodes homeCount →
  result.(chains) !! chain.(chain_ID) = None →
  loop_state (seen ++ [chain])
    (mkRegistry (<[chain.(chain_ID) := chain]> result.(chains))
       (if chain.(Home) then chain.(chain_ID) else result.(home)))
    ({[chain.(MapNodeID)]} ∪ mapNodes)
    (if chain.(Home) then homeCount + 1 else homeCount).
Proof.
  intros (HI & HM & HC & HH) Hn. split_and!; cbn.
  - by apply indexes_insert.
  - subst. rewrite fmap_app, list_to_set_app_L. set_solver.
  - rewrite filter_app, length_app, filter_cons, filter_nil.
    destruct (Home chain); cbn; rewrite ?Nat2Z.inj_add, HC; cbn; [done|].
    rewrite decide_False by done. cbn. lia.
  - intros c. rewrite filter_app, filter_cons, filter_nil.
    destruct (Home chain); cbn [decide].
    + rewrite decide_True by done. rewrite last_snoc. by intros [= ->].
    + rewrite decide_False, app_nil_r by done. auto.
Qed.

Lemma new_loop_spec pending : ∀ seen result mapNodes homeCount out,
  loop_state seen result mapNodes homeCount →
  new_loop pending result mapNodes homeCount = Ok out →
  Forall chain_ok pending ∧
  (NoDup (chain_ID <$> seen) → NoDup (chain_ID <$> (seen ++ pending))) ∧
  (NoDup (MapNodeID <$> seen) → NoDup (MapNodeID <$> (seen ++ pending))) ∧
  ∃ nodes, loop_state (seen ++ pending) out.1 nodes out.2.
Proof.
  induction pending as [|chain rest IH]; intros seen result mapNodes homeCount out Hst Hl.
  - cbn in Hl. injection Hl as <-. rewrite app_nil_r. eauto.
  - cbn [new_loop] in Hl. apply bind_Ok in Hl as ([] & Hc & Hl).
    apply check_chain_spec in Hc as (Hok & Hn & Hm).
    apply IH with (seen := seen ++ [chain]) in Hl; [|by apply loop_state_step].
    destruct Hl as (Hr & Hids & Hnodes & Hout). rewrite <-!(assoc_L (++)) in Hids, Hnodes, Hout.
    destruct Hst as (HI & -> & _ & _). split_and!; [by constructor| | |done].
    + intros Hd. apply Hids. rewrite fmap_app. apply NoDup_app. split_and!; [done| |apply NoDup_singleton].
      intros x (c & -> & Hc)%list_elem_of_fmap Hx%list_elem_of_singleton.
      assert (chains result !! chain_ID chain = Some c); [by apply HI|congruence].
    + intros Hd. apply Hnodes. rewrite fmap_app. apply NoDup_app. split_and!; [done| |apply NoDup_singleton].
      intros x Hx ->%list_elem_of_singleton. set_solver.
Qed.

Lemma new_loop_complete pending : ∀ seen result mapNodes homeCount,
  loop_state seen result mapNodes homeCount →
  Forall chain_ok pending → NoDup (chain_ID <$> (seen ++ pending)) →
  NoDup (MapNodeID <$> (seen ++ pending)) →
  is_ok (new_loop pending result mapNodes homeCount) = true.
Proof.
  induction pending as [|chain rest IH]; intros seen result mapNodes homeCount Hst Hok Hi Hm; [done|].
  apply Forall_cons in Hok as [Hc Hok]. cbn [new_loop].
  assert (result.(chains) !! chain.(chain_ID) = None) as Hnew.
  { destruct Hst as (HI & _). destruct (chains result !! chain_ID chain) as [c|] eqn:E; [|done].
    apply HI in E as [Hin He]. rewrite fmap_app in Hi. apply NoDup_app in Hi as (_ & Hi & _).
    destruct (Hi (chain_ID chain)); [rewrite <-He; by apply list_elem_of_fmap_2|by left]. }
  assert (check_chain result mapNodes chain = Ok tt) as ->.
  { apply check_chain_spec. destruct Hst as (HI & -> & _). split_and!; [done|done|].
    intros Hin%elem_of_list_to_set. rewrite fmap_app in Hm.
    apply NoDup_app in Hm as (_ & Hm & _). destruct (Hm _ Hin). by left. }
  cbn. apply IH with (seen := seen ++ [chain]); rewrite <-?(assoc_L (++)); try done.
  by apply loop_state_step.
Qed.

Lemma loop_state_init : loop_state [] (mkRegistry ∅ zero32) ∅ 0.
Proof. split_and!; [apply indexes_empty|done|done|done]. Qed.

Lemma New_inv pending registry :
  New pending = Ok registry →
  deployment_ok pending ∧ indexes chain_ID registry.(chains) pending ∧
  ∃ h, filter (λ c, c.(Home) = true) pending = [h] ∧ registry.(home) = h.(chain_ID).
Proof.
  unfold New. case_match eqn:Hz; [done|]. intros ([result n] & Hl & Hc)%bind_Ok.
  case_match eqn:Hn; [done|]. injection Hc as ->. bool_to_prop.
  apply (new_loop_spec _ []) in Hl as (Hok & Hi & Hm & nodes & HI & _ & HC & HH);
    [|apply loop_state_init]. cbn in *.
  destruct (filter _ pending) as [|h [|]] eqn:Hf; cbn in HC; try lia.
  split_and!; [|done|exists h; split; [done|by apply HH]].
  split_and!; [done|apply Hi; constructor|apply Hm; constructor|by rewrite Hf].
Qed.

Lemma home_in pending h :
  filter (λ c : Chain, c.(Home) = true) pending = [h] →
  h ∈ pending ∧ h.(Home) = true ∧ ∀ c, c ∈ pending → c.(Home) = true → c = h.
Proof.
  intros Hf. assert (h ∈ filter (λ c : Chain, Home c = true) pending) as Hh by (rewrite Hf; by left).
  apply list_elem_of_filter in Hh as [? ?]. split_and!; [done|done|].
  intros c Hc Hhome. apply list_elem_of_singleton. rewrite <-Hf. by apply list_elem_of_filter.
Qed.

Lemma same_addresses_eq l r : length l = length r → same_addresses l r = true ↔ l = r.
Proof.
  revert r. induction l as [|a l IH]; intros [|b r] Hlen; try done. cbn.
  case_bool_decide as Hab; cbn; [|naive_solver].
  rewrite IH by (cbn in Hlen; lia). naive_solver.
Qed.

Lemma sameParameters_eq l r : sameParameters l r = true ↔ l = r.
Proof.
  unfold sameParameters, zlen. split.
  - case_match eqn:Hc; [done|]. bool_to_prop. rewrite same_addresses_eq by lia.
    destruct l, r; cbn in *. congruence.
  - intros ->. case_match eqn:Hc; [|by apply same_addresses_eq].
    rewrite !Z.eqb_refl, bool_decide_eq_true_2 in Hc by done. done.
Qed.

Lemma signers_loop_spec signers seen :
  signers_loop signers seen = true ↔
  Forall (λ s, s ≠ zero_address ∧ s ∉ seen) signers ∧ NoDup signers.
Proof.
  revert seen. induction signers as [|s signers IH]; intros seen; cbn.
  - split; [by repeat constructor|done].
  - rewrite Forall_cons, NoDup_cons. case_bool_decide; [naive_solver|].
    case_bool_decide; [naive_solver|]. rewrite IH, !Forall_forall. set_solver.
Qed.

(** ** Theorems *)

(** [New] accepts exactly the deployments with one MapNode per chain, one
    home chain and signing authority on the home chain only; the registry it
    builds holds the given chains and names the home chain. *)
Theorem New_spec (pending : list Chain) (registry : Registry) :
  New pending = Ok registry ↔
    deployment_ok pending ∧ indexes chain_ID registry.(chains) pending ∧
    ∃ h, h ∈ pending ∧ h.(Home) = true ∧ registry.(home) = h.(chain_ID).
Proof.
  split.
  - intros (Hok & HI & h & Hf & Hh)%New_inv. split_and!; [done|done|].
    apply home_in in Hf as (? & ? & _). eauto.
  - intros (Hok & HI & h & Hin & Hh & Hhome).
    destruct (is_ok (New pending)) eqn:E.
    + destruct (New pending) as [r|] eqn:Hr; [|done]. f_equal.
      apply New_inv in Hr as (_ & HI' & h' & Hf & Hh').
      apply home_in in Hf as (_ & _ & Hu). rewrite <-(Hu h Hin Hh), <-Hhome in Hh'.
      destruct r as [m hm], registry as [m' hm']; cbn in *. subst hm'. f_equal; [|done].
      apply map_eq. intros i. apply option_eq. intros c. by rewrite (HI i c), (HI' i c).
    + exfalso. revert E. unfold New. destruct Hok as (Hc & Hi & Hm & Hone).
      destruct pending as [|c pending]; [by apply elem_of_nil in Hin|].
      change (zlen (c :: pending) =? 0) with false. cbn [negb].
      pose proof (new_loop_complete (c :: pending) [] _ _ _ loop_state_init Hc Hi Hm) as Hs.
      destruct (new_loop _ _ _ _) as [[r n]|] eqn:Hl; [|done].
      apply (new_loop_spec _ []) in Hl as (_ & _ & _ & nodes & _ & _ & HC & _);
        [|apply loop_state_init]. cbn [app fst snd] in HC. rewrite Hone in HC. by subst n.
Qed.

(** The authority boundary: in a registry built by [New], the signer and
    the transaction authority checks succeed for the home chain and for no
    other chain, the home chain can be looked up, and only the home chain has
    a direct verifier profile. *)
Theorem authority_boundary (keccak256 : bytes → Hash) (pending : list Chain)
    (registry : Registry) :
  New pending = Ok registry →
  (∀ id, RequireTransactionAuthority registry id = Ok tt ↔ id = registry.(home)) ∧
  (∀ id, RequireSignerAuthority registry id = Ok tt ↔ id = registry.(home)) ∧
  (∀ id, is_Some (DirectProfile keccak256 registry id) ↔ id = registry.(home)) ∧
  (∃ h, HomeChain registry = Ok h ∧ h ∈ pending ∧ h.(Home) = true).
Proof.
  intros ((Hok & _) & HI & h & Hf & Hh)%New_inv. apply home_in in Hf as (Hin & Hhome & Hu).
  assert (∀ id c, registry.(chains) !! id = Some c →
    c.(SignerAuthority) = c.(Home) ∧ c.(TransactionAuthority) = c.(Home) ∧
    (c.(Home) = true ↔ id = registry.(home))) as Hchain.
  { intros id c [Hc Hid]%HI. rewrite Forall_forall in Hok.
    destruct (Hok c Hc) as (_ & _ & _ & _ & _ & Hs & Ht). split_and!; [done..|].
    rewrite Hh. split; [intros ?; by rewrite <-(Hu c Hc)|].
    intros ->. by rewrite (indexes_functional _ _ _ c h HI Hc Hin). }
  assert (registry.(chains) !! registry.(home) = Some h) as Hhc by (by apply HI).
  unfold RequireTransactionAuthority, RequireSignerAuthority, DirectProfile, HomeChain, Registry_Chain.
  split_and!.
  1-3: intros id; destruct (registry.(chains) !! id) as [c|] eqn:Hc;
    [destruct (Hchain id c Hc) as (Hs & Ht & Hi); rewrite ?Hs, ?Ht, <-Hi;
     destruct (Home c); cbn; repeat case_match; naive_solver
    |split; [naive_solver|intros ->; congruence]].
  rewrite Hhc. eauto.
Qed.

(** A home chain with the reserved profile and one more chain. *)
Definition sample_parameters : DirectVerifierParameters :=
  mkParameters directprofile_ID [be_vec 20 1; be_vec 20 2; be_vec 20 3]
    directprofile_SignatureChecks directprofile_HashRounds MeasuredCostGas.

Definition sample_chain (id : Z) (name : string) (is_home : bool) : Chain :=
  mkChain name (be_vec 32 id) (String.append "mapnode-" name) is_home is_home is_home
    (mkDeploymentProfile sample_parameters sample_parameters
       (sample_hash (profile_encoding sample_parameters))).

Definition sample_pending : list Chain :=
  [sample_chain 1 "sepolia" true; sample_chain 2 "fuji" false].

Lemma sample_registry_built : ∃ registry, New sample_pending = Ok registry.
Proof.
  destruct (New sample_pending) as [registry|e] eqn:H; [by exists registry|].
  assert (is_ok (New sample_pending) = true) as Hok by (vm_compute; reflexivity).
  by rewrite H in Hok.
Qed.

Lemma authority_boundary_witness :
  ∃ registry, New sample_pending = Ok registry ∧
    RequireTransactionAuthority registry registry.(home) = Ok tt.
Proof.
  destruct sample_registry_built as [registry H]. exists registry.
  exact (conj H (proj2 (proj1 (authority_boundary sample_hash sample_pending registry H)
    registry.(home)) eq_refl)).
Defined.

(** A profile is reported as calibrated exactly when the home chain's
    configured parameters are the deployed ones, carry the fingerprint of the
    manifest, equal the reserved profile's constants and list three distinct
    non-zero signers; the reported cost is then the measured one, and it is
    zero otherwise. *)
Theorem DirectProfile_calibrated (keccak256 : bytes → Hash) (registry : Registry)
    (id : ChainID) (profile : ValidatedDirectProfile) (chain : Chain) :
  DirectProfile keccak256 registry id = Some profile →
  registry.(chains) !! id = Some chain →
  let configured := chain.(Profile).(Configured) in
  profile.(profile_ID) = configured.(param_ID) ∧
  profile.(DirectCost) = (if profile.(Calibrated) then MeasuredCostGas else 0) ∧
  (profile.(Calibrated) = true ↔
     configured = chain.(Profile).(Deployed) ∧
     keccak256 (profile_encoding configured) = chain.(Profile).(Fingerprint) ∧
     configured = mkParameters directprofile_ID configured.(AuthorizedSigners)
       directprofile_SignatureChecks directprofile_HashRounds MeasuredCostGas ∧
     zlen configured.(AuthorizedSigners) = AuthorizedSignerCount ∧
     NoDup configured.(AuthorizedSigners) ∧ zero_address ∉ configured.(AuthorizedSigners)).
Proof.
  unfold DirectProfile, Registry_Chain. intros H Hc. rewrite Hc in H. cbn.
  set (p := Configured (Profile chain)) in *.
  case_match eqn:Ha; [done|].
  assert (signers_loop p.(AuthorizedSigners) ∅ = true ↔
    NoDup p.(AuthorizedSigners) ∧ zero_address ∉ p.(AuthorizedSigners)) as Hloop.
  { rewrite signers_loop_spec, Forall_forall. split.
    - intros [Hz Hd]. split; [done|]. intros Hin. by destruct (Hz _ Hin) as [? _].
    - intros [Hd Hz]. split; [|done]. intros s Hs. split; [by intros ->|apply not_elem_of_empty]. }
  case_match eqn:H1; [injection H as <-; split_and!; try done; cbn; split; [done|]|].
  { intros (He & Hf & _). rewrite (proj2 (sameParameters_eq _ _) He) in H1.
    unfold ComputeProfileFingerprint in H1. by rewrite Hf, bool_decide_eq_true_2 in H1. }
  case_match eqn:H2; [injection H as <-; split_and!; try done; cbn; split; [done|]|].
  { intros (_ & _ & He & Hl & _). rewrite He in H2. cbn in H2.
    by rewrite Hl, bool_decide_eq_true_2 in H2. }
  case_match eqn:H3; injection H as <-; split_and!; try done; cbn; split; try done.
  { intros (_ & _ & _ & _ & Hs). rewrite (proj2 Hloop Hs) in H3. done. }
  intros _. bool_to_prop. rewrite sameParameters_eq in *. apply Hloop in H3 as [? ?].
  split_and!; try done. destruct p; cbn in *; congruence.
Qed.

Lemma DirectProfile_calibrated_witness :
  let registry := mkRegistry {[ be_vec 32 1 := sample_chain 1 "sepolia" true ]} (be_vec 32 1) in
  ∃ profile, DirectProfile sample_hash registry (be_vec 32 1) = Some profile ∧
    profile.(Calibrated) = true ∧ profile.(DirectCost) = MeasuredCostGas.
Proof.
  intros registry.
  pose (profile := mkValidatedProfile directprofile_ID
          (sample_hash (profile_encoding sample_parameters)) MeasuredCostGas true).
  assert (registry.(chains) !! be_vec 32 1 = Some (sample_chain 1 "sepolia" true)) as Hc
    by (apply lookup_singleton_eq).
  assert (DirectProfile sample_hash registry (be_vec 32 1) = Some profile) as H
    by (vm_compute; reflexivity).
  exists profile. split; [exact H|]. split; [reflexivity|].
  exact (proj1 (proj2 (DirectProfile_calibrated sample_hash registry _ profile _ H Hc))).
Defined.

End Registry.
