(* ===== verification/Reorg.v ===== *)
(** * Mapnode/reorg: the canonical cursor of a chain

    canonical_cursor.go.  Each method returns a new cursor value; [Advance]
    returns the unchanged cursor beside its error. *)

From S2P Require Import Prelude Domain.
Import Domain.

Module Reorg.

Inductive error :=
| ErrCanonicalMismatch
| ErrCursorDegraded
| ErrNonMonotonicCursor.

#[export] Instance error_eq_dec : EqDecision error.
Proof. solve_decision. Defined.

Abbreviation CursorState := string.
Definition Healthy : CursorState := "healthy".
Definition Degraded : CursorState := "degraded".

Record CanonicalBlock := mkBlock {
  block_Height : BlockHeight;
  block_Hash : Hash;
  block_ParentHash : Hash
}.

#[export] Instance CanonicalBlock_eq_dec : EqDecision CanonicalBlock.
Proof. solve_decision. Defined.

Record CanonicalCursor := mkCursor {
  cursor_ChainID : ChainID;
  cursor_Height : BlockHeight;
  cursor_Hash : Hash;
  cursor_State : CursorState;
  DegradedReason : string
}.

#[export] Instance CanonicalCursor_eq_dec : EqDecision CanonicalCursor.
Proof. solve_decision. Defined.

Definition NewCanonicalCursor (chainID : ChainID) (height : BlockHeight) (hash : Hash)
    : CanonicalCursor :=
  mkCursor chainID height hash Healthy "".

Definition Advance (cursor : CanonicalCursor) (recheckedHash : Hash) (next : CanonicalBlock)
    : CanonicalCursor * option error :=
  if cursor.(cursor_State) =?= Degraded then (cursor, Some ErrCursorDegraded)
  else if recheckedHash ≠?= cursor.(cursor_Hash) then (cursor, Some ErrCanonicalMismatch)
  else if next.(block_ParentHash) ≠?= recheckedHash then (cursor, Some ErrCanonicalMismatch)
  else
    let want := BlockHeight_BigInt cursor.(cursor_Height) + 1 in
    if negb (BlockHeight_BigInt next.(block_Height) =? want) || (next.(block_Hash) =?= zero32)
    then (cursor, Some ErrNonMonotonicCursor)
    else (mkCursor cursor.(cursor_ChainID) next.(block_Height) next.(block_Hash)
            cursor.(cursor_State) cursor.(DegradedReason), None).

(** The message of [ErrCanonicalMismatch], the default reason. *)
Definition mismatch_message : string := "persisted canonical block hash mismatch".

Definition Degrade (cursor : CanonicalCursor) (reason : string) : CanonicalCursor :=
  let reason' := if reason =?= "" then mismatch_message else reason in
  mkCursor cursor.(cursor_ChainID) cursor.(cursor_Height) cursor.(cursor_Hash)
    Degraded reason'.

(** ** Runs of a cursor *)

(** [cursor_run c blocks c']: from [c], a sequence of [Advance] calls (failing
    ones included) and [Degrade] calls, in any order, leads to [c'], having
    accepted [blocks]. *)
Inductive cursor_run (c : CanonicalCursor) : list CanonicalBlock → CanonicalCursor → Prop :=
| run_here : cursor_run c [] c
| run_advance blocks c1 rechecked next c2 :
    cursor_run c blocks c1 → Advance c1 rechecked next = (c2, None) →
    cursor_run c (blocks ++ [next]) c2
| run_refused blocks c1 rechecked next c2 e :
    cursor_run c blocks c1 → Advance c1 rechecked next = (c2, Some e) →
    cursor_run c blocks c2
| run_degrade blocks c1 reason :
    cursor_run c blocks c1 → cursor_run c blocks (Degrade c1 reason).

(** Blocks that extend the block with the given height and hash: consecutive
    heights, each one the child of the one before. *)
Fixpoint chain_from (height : Z) (hash : Hash) (blocks : list CanonicalBlock) : Prop :=
  match blocks with
  | [] => True
  | b :: rest =>
      be_value b.(block_Height) = height + 1 ∧ b.(block_ParentHash) = hash ∧
      b.(block_Hash) ≠ zero32 ∧ chain_from (height + 1) b.(block_Hash) rest
  end.

(** ** Lemmas *)

Lemma Advance_accepts c rechecked next c' :
  Advance c rechecked next = (c', None) →
  c.(cursor_State) ≠ Degraded ∧ next.(block_ParentHash) = c.(cursor_Hash) ∧
  be_value next.(block_Height) = be_value c.(cursor_Height) + 1 ∧
  next.(block_Hash) ≠ zero32 ∧
  c' = mkCursor c.(cursor_ChainID) next.(block_Height) next.(block_Hash)
         c.(cursor_State) c.(DegradedReason).
Proof.
  unfold Advance, BlockHeight_BigInt. intros H. repeat (case_match; [done|]).
  injection H as <-. bool_to_prop. split_and!; congruence || done.
Qed.

Lemma Advance_refuses c rechecked next c' e :
  Advance c rechecked next = (c', Some e) → c' = c.
Proof. unfold Advance. intros H. repeat case_match; congruence. Qed.

Lemma chain_from_snoc height hash blocks b :
  chain_from height hash (blocks ++ [b]) ↔
  chain_from height hash blocks ∧
  be_value b.(block_Height) = height + zlen blocks + 1 ∧
  b.(block_ParentHash) = default hash (block_Hash <$> last blocks) ∧
  b.(block_Hash) ≠ zero32.
Proof.
  unfold zlen. revert height hash.
  induction blocks as [|a blocks IH]; intros height hash; cbn [chain_from app].
  - cbn. rewrite Z.add_0_r. tauto.
  - rewrite IH. cbn [length]. rewrite Nat2Z.inj_succ.
    replace (height + 1 + Z.of_nat (length blocks)) with
      (height + Z.succ (Z.of_nat (length blocks))) by lia.
    destruct blocks as [|a' blocks]; [cbn; tauto|].
    rewrite (last_cons_cons a a' blocks).
    destruct (last (a' :: blocks)) eqn:El; [cbn; tauto|]. by apply last_None in El.
Qed.

Lemma cursor_run_chain c blocks c' :
  cursor_run c blocks c' →
  chain_from (be_value c.(cursor_Height)) c.(cursor_Hash) blocks ∧
  c'.(cursor_Hash) = default c.(cursor_Hash) (block_Hash <$> last blocks) ∧
  be_value c'.(cursor_Height) = be_value c.(cursor_Height) + zlen blocks ∧
  c'.(cursor_ChainID) = c.(cursor_ChainID).
Proof.
  induction 1 as [|blocks c1 rechecked next c2 _ IH HA|blocks c1 rechecked next c2 e _ IH HA
    |blocks c1 reason _ IH]; cbn.
  - unfold zlen. cbn. rewrite Z.add_0_r. done.
  - apply Advance_accepts in HA as (_ & Hp & Hh & Hz & ->).
    destruct IH as (Hc & Hl & Hz' & Hid). cbn.
    rewrite chain_from_snoc, last_snoc, zlen_app. cbn. change (zlen [next]) with 1.
    rewrite Hp, Hh, Hz'. split_and!; try done; lia.
  - by apply Advance_refuses in HA as ->.
  - done.
Qed.

Lemma degraded_stays c more c' :
  c.(cursor_State) = Degraded → cursor_run c more c' →
  more = [] ∧ c'.(cursor_State) = Degraded ∧ c'.(cursor_Hash) = c.(cursor_Hash).
Proof.
  intros Hd. induction 1 as [|blocks c1 rechecked next c2 _ IH HA
    |blocks c1 rechecked next c2 e _ IH HA|blocks c1 reason _ IH]; cbn.
  - done.
  - apply Advance_accepts in HA as (Hnd & _). by destruct IH as (_ & ? & _).
  - by apply Advance_refuses in HA as ->.
  - naive_solver.
Qed.

(** ** Theorems *)

(** However a cursor is driven, the blocks it accepted form one chain on
    top of its starting block, with consecutive heights; the cursor stands on
    the last of them, it never leaves its chain, and once degraded it accepts
    nothing more. *)
Theorem cursor_follows_one_chain (c c' : CanonicalCursor) (blocks : list CanonicalBlock) :
  cursor_run c blocks c' →
  chain_from (be_value c.(cursor_Height)) c.(cursor_Hash) blocks ∧
  c'.(cursor_Hash) = default c.(cursor_Hash) (block_Hash <$> last blocks) ∧
  be_value c'.(cursor_Height) = be_value c.(cursor_Height) + zlen blocks ∧
  c'.(cursor_ChainID) = c.(cursor_ChainID) ∧
  (∀ reason more c'', cursor_run (Degrade c' reason) more c'' →
     more = [] ∧ c''.(cursor_State) = Degraded ∧ c''.(cursor_Hash) = c'.(cursor_Hash)).
Proof.
  intros (Hc & Hl & Hz & Hid)%cursor_run_chain. split_and!; [done..|].
  intros reason more c'' Hm. by apply (degraded_stays (Degrade c' reason)).
Qed.

(** Closed instance: from height 7, two blocks are accepted, a block with the
    wrong parent is refused, and the degraded cursor stays where it is. *)
Lemma cursor_follows_one_chain_witness :
  let h (z : Z) : Hash := be_vec 32 z in
  let c := NewCanonicalCursor (h 1) (h 7) (h 70) in
  let b8 := mkBlock (h 8) (h 80) (h 70) in
  let b9 := mkBlock (h 9) (h 90) (h 80) in
  let c' := Degrade (mkCursor (h 1) (h 9) (h 90) Healthy "") "fork" in
  cursor_run c [b8; b9] c' ∧ chain_from 7 (h 70) [b8; b9].
Proof.
  intros h c b8 b9 c'.
  assert (cursor_run c [b8; b9] c') as Hrun.
  { apply run_degrade.
    apply (run_refused c _ (mkCursor (h 1) (h 9) (h 90) Healthy "") (h 90)
             (mkBlock (h 10) (h 100) (h 91)) _ ErrCanonicalMismatch); [|vm_compute; reflexivity].
    apply (run_advance c [b8] (mkCursor (h 1) (h 8) (h 80) Healthy "") (h 80) b9);
      [|vm_compute; reflexivity].
    apply (run_advance c [] c (h 70) b8); [constructor|vm_compute; reflexivity]. }
  split; [exact Hrun|].
  exact (proj1 (cursor_follows_one_chain c c' [b8; b9] Hrun)).
Defined.

End Reorg.
