(* ===== verification/Planner.v ===== *)
(** * Mapnode/planner: the choice between a path and a direct verification

    planner.go: the reachability test, the deterministic shortest-path search
    over a sealed snapshot, the plan and its content address, and
    [Planner.Plan] over the two repositories it is given.

    The frontier of the search is any [PriorityQueue] (the source uses
    container/heap, modelled in Heap.v); loops that are not structural take
    fuel, and the theorems show that the fuel used is enough.  [OutOfFuel] and
    [Panic] are not errors of the source: they stand for a loop that does not
    end and for a run-time panic (nil dereference, division by zero), and are
    shown never to occur. *)

From S2P Require Import Prelude Domain Evidence TrustView Registry Heap BestFirst.
Import Domain TrustView.

Module Planner.

Abbreviation PlanID := bytes32.
Abbreviation PlanType := string.
Abbreviation FallbackReason := string.

Definition PathPlan : PlanType := "path".
Definition DirectPlan : PlanType := "direct".
Definition UncalibratedProfile : FallbackReason := "uncalibrated_profile".
Definition NoPath : FallbackReason := "no_path".
Definition PathCostExceedsDirect : FallbackReason := "path_cost_exceeds_direct".
Definition ProofMaterialMissing : FallbackReason := "proof_material_missing".

(** Errors of the repositories are a parameter [RE]. *)
Inductive error (RE : Type) :=
| ErrSnapshotUnsealed
| ErrSnapshotEndpoint
| ErrPathCostOverflow
| ErrStaleSnapshot
| ErrInconsistentPathStepCost
| ErrPathDisappeared
| ErrDuplicateSnapshot
| ErrView (e : TrustView.error)
| ErrRepository (e : RE)
| OutOfFuel
| Panic.
Arguments ErrSnapshotUnsealed {RE}.
Arguments ErrSnapshotEndpoint {RE}.
Arguments ErrPathCostOverflow {RE}.
Arguments ErrStaleSnapshot {RE}.
Arguments ErrInconsistentPathStepCost {RE}.
Arguments ErrPathDisappeared {RE}.
Arguments ErrDuplicateSnapshot {RE}.
Arguments ErrView {RE} e.
Arguments ErrRepository {RE} e.
Arguments OutOfFuel {RE}.
Arguments Panic {RE}.

#[export] Instance error_eq_dec `{EqDecision RE} : EqDecision (error RE).
Proof. solve_decision. Defined.

Record Request := mkRequest {
  req_ID : RequestID;
  req_Attempt : Z;
  req_SnapshotID : SnapshotID;
  req_HomeChainID : ChainID
}.

Record Plan := mkPlan {
  plan_ID : PlanID;
  plan_RequestID : RequestID;
  plan_Attempt : Z;
  plan_SnapshotID : SnapshotID;
  plan_ProfileID : string;
  plan_ProfileFingerprint : Hash;
  plan_Type : PlanType;
  plan_HomeNodeID : NodeID;
  plan_TargetNodeID : NodeID;
  plan_Hops : list EdgeID;
  plan_PathStepCost : Z;
  plan_PathCost : option Z;
  plan_DirectCost : option Z;
  plan_FallbackReason : FallbackReason;
  plan_CreatedAt : Evidence.Time
}.

#[export] Instance Plan_eq_dec : EqDecision Plan.
Proof. solve_decision. Defined.

(** ** The content address of a plan *)

Definition plan_tag : bytes := bytes_of_string "TrustMap/Planner/PlanID/v1".

Definition appendUint64Word (value : Z) : bytes := uint256FromUint64 value.

(** An optional cost: a word that is zero for nil and starts with 1 otherwise. *)
Definition optional_word (value : option Z) : bytes :=
  match value with
  | None => replicate 32 Byte.x00
  | Some v => Byte.x01 :: replicate 23 Byte.x00 ++ be_bytes 8 v
  end.

Definition plan_encoding (plan : Plan) : bytes :=
  length_prefixed plan_tag ++ plan.(plan_RequestID) ++ appendUint64Word plan.(plan_Attempt)
    ++ plan.(plan_SnapshotID) ++ length_prefixed (bytes_of_string plan.(plan_ProfileID))
    ++ plan.(plan_ProfileFingerprint) ++ length_prefixed (bytes_of_string plan.(plan_Type))
    ++ plan.(plan_HomeNodeID) ++ plan.(plan_TargetNodeID)
    ++ appendUint64Word (zlen plan.(plan_Hops)) ++ mjoin (vec_to_list <$> plan.(plan_Hops))
    ++ appendUint64Word plan.(plan_PathStepCost)
    ++ optional_word plan.(plan_PathCost) ++ optional_word plan.(plan_DirectCost)
    ++ length_prefixed (bytes_of_string plan.(plan_FallbackReason)).

Definition ComputePlanID (keccak256 : bytes → Hash) (plan : Plan) : PlanID :=
  keccak256 (plan_encoding plan).

(** ** Reachability *)

Definition findSnapshotNode (snapshot : TrustViewSnapshot) (id : NodeID) : option TrustNode :=
  list_find (λ node, node.(node_ID) = id) snapshot.(snap_Nodes) ≫= λ p, Some p.2.

Definition snapshotHasNode (snapshot : TrustViewSnapshot) (id : NodeID) : bool :=
  match findSnapshotNode snapshot id with Some _ => true | None => false end.

Abbreviation Adjacency := (gmap NodeID (list TrustEdge)).

(** [edges[edge.From] = append(edges[edge.From], edge)] for every edge. *)
Definition group_edges (edges : list TrustEdge) : Adjacency :=
  foldl (λ m edge, <[edge.(edge_From) := default [] (m !! edge.(edge_From)) ++ [edge]]> m)
    ∅ edges.

Definition build_adjacency (edges : list TrustEdge) : Adjacency :=
  sort_by (λ edge : TrustEdge, edge.(edge_ID)) <$> group_edges edges.

(** [adjacency[node]]: nil for an absent key. *)
Definition out_edges (adjacency : Adjacency) (node : NodeID) : list TrustEdge :=
  default [] (adjacency !! node).

(** The inner loop of the breadth-first search. *)
Fixpoint enqueue_loop (edges : list TrustEdge) (seen : gset NodeID) (queue : list NodeID)
    : gset NodeID * list NodeID :=
  match edges with
  | [] => (seen, queue)
  | edge :: rest =>
      if bool_decide (edge.(edge_To) ∈ seen) then enqueue_loop rest seen queue
      else enqueue_loop rest ({[edge.(edge_To)]} ∪ seen) (queue ++ [edge.(edge_To)])
  end.

(** [None] when the fuel runs out. *)
Fixpoint bfs_loop (fuel : nat) (adjacency : Adjacency) (target : NodeID)
    (seen : gset NodeID) (queue : list NodeID) : option bool :=
  match queue with
  | [] => Some false
  | current :: queue' =>
      match fuel with
      | O => None
      | S fuel' =>
          if current =?= target then Some true
          else
            let '(seen', queue'') := enqueue_loop (out_edges adjacency current) seen queue' in
            bfs_loop fuel' adjacency target seen' queue''
      end
  end.

Definition directedReachability (snapshot : TrustViewSnapshot) : Adjacency * option bool :=
  let adjacency := build_adjacency snapshot.(snap_Edges) in
  (adjacency,
   bfs_loop (S (length snapshot.(snap_Edges))) adjacency snapshot.(TargetNodeID)
     {[snapshot.(StartNodeID)]} [snapshot.(StartNodeID)]).

(** ** The shortest-path search *)

(** The field [index], which only [Swap] and [Push] write, is not kept. *)
Record candidate := mkCandidate {
  cand_node : NodeID;
  cand_cost : Z;
  cand_path : list TrustEdge
}.

Fixpoint path_compare (left right : list TrustEdge) : comparison :=
  match left, right with
  | l :: left', r :: right' =>
      match bytes_compare l.(edge_ID) r.(edge_ID) with
      | Eq => path_compare left' right'
      | c => c
      end
  | _, _ => Eq
  end.

Definition compareCandidate (left right : candidate) : comparison :=
  if left.(cand_cost) <? right.(cand_cost) then Lt
  else if right.(cand_cost) <? left.(cand_cost) then Gt
  else if zlen left.(cand_path) <? zlen right.(cand_path) then Lt
  else if zlen right.(cand_path) <? zlen left.(cand_path) then Gt
  else
    match path_compare left.(cand_path) right.(cand_path) with
    | Eq => bytes_compare left.(cand_node) right.(cand_node)
    | c => c
    end.

(** [candidates.Less] *)
Definition candidate_less (left right : candidate) : bool :=
  match compareCandidate left right with Lt => true | _ => false end.

Section Search.
Context {RE Q : Type} `{PQ : !PriorityQueue Q candidate candidate_less}.

(** The relaxation of the edges of [current]. *)
Fixpoint relax_loop (current : candidate) (edges : list TrustEdge) (queue : Q)
    (best : gmap NodeID candidate) (overflowed : bool)
    : Q * gmap NodeID candidate * bool :=
  match edges with
  | [] => (queue, best, overflowed)
  | edge :: rest =>
      if MaxUint64 - edge.(PathStepCost) <? current.(cand_cost)
      then relax_loop current rest queue best true
      else
        let next := mkCandidate edge.(edge_To) (current.(cand_cost) + edge.(PathStepCost))
                      (current.(cand_path) ++ [edge]) in
        if match best !! next.(cand_node) with
           | None => true
           | Some known => candidate_less next known
           end
        then relax_loop current rest (pq_push queue next)
               (<[next.(cand_node) := next]> best) overflowed
        else relax_loop current rest queue best overflowed
  end.

Fixpoint search_loop (fuel : nat) (adjacency : Adjacency) (target : NodeID) (queue : Q)
    (best : gmap NodeID candidate) (overflowed : bool)
    : res (error RE) (list TrustEdge * Z) :=
  match pq_pop queue with
  | None => if overflowed then Err ErrPathCostOverflow else Err ErrPathDisappeared
  | Some (current, queue') =>
      match fuel with
      | O => Err OutOfFuel
      | S fuel' =>
          match best !! current.(cand_node) with
          | None => Err Panic
          | Some known =>
              if compareCandidate current known ≠?= Eq
              then search_loop fuel' adjacency target queue' best overflowed
              else if current.(cand_node) =?= target
              then Ok (current.(cand_path), current.(cand_cost))
              else
                let '(queue'', best', overflowed') :=
                  relax_loop current (out_edges adjacency current.(cand_node))
                    queue' best overflowed in
                search_loop fuel' adjacency target queue'' best' overflowed'
          end
      end
  end.
End Search.

(** ** The order of the candidates *)

Definition path_ids (path : list TrustEdge) : bytes :=
  mjoin ((λ e : TrustEdge, vec_to_list e.(edge_ID)) <$> path).

Lemma bytes_compare_app_same l k r s :
  length l = length k →
  bytes_compare (l ++ r) (k ++ s) =
    match bytes_compare l k with Eq => bytes_compare r s | c => c end.
Proof.
  revert k. induction l as [|a l IH]; intros [|b k] Hl; try done. cbn.
  cbn in Hl. rewrite IH by lia. by destruct (byte_val a ?= byte_val b).
Qed.

Lemma path_compare_ids p q :
  length p = length q → path_compare p q = bytes_compare (path_ids p) (path_ids q).
Proof.
  revert q. induction p as [|e p IH]; intros [|f q] Hl; try done. cbn in *.
  unfold path_ids in *. cbn. rewrite bytes_compare_app_same.
  - rewrite IH by lia. done.
  - by rewrite !length_vec_to_list.
Qed.

Lemma length_path_ids p : length (path_ids p) = (32 * length p)%nat.
Proof.
  induction p as [|e p IH]; [done|].
  change (path_ids (e :: p)) with (vec_to_list e.(edge_ID) ++ path_ids p).
  rewrite length_app, IH, length_vec_to_list. cbn [length]. lia.
Qed.

Lemma compareCandidate_lex x y :
  compareCandidate x y =
  cmp_lex (cmp_on cand_cost Z.compare)
    (cmp_lex (cmp_on (λ c, zlen c.(cand_path)) Z.compare)
      (cmp_lex (cmp_on (λ c, path_ids c.(cand_path)) bytes_compare)
         (cmp_on (λ c, vec_to_list c.(cand_node)) bytes_compare))) x y.
Proof.
  unfold compareCandidate, cmp_lex, cmp_on, Z.ltb.
  rewrite (Z.compare_antisym (cand_cost x) (cand_cost y)).
  destruct (cand_cost x ?= cand_cost y); [|done|done]. cbn.
  rewrite (Z.compare_antisym (zlen (cand_path x)) (zlen (cand_path y))).
  destruct (zlen (cand_path x) ?= zlen (cand_path y)) eqn:El; [|done|done]. cbn.
  apply Z.compare_eq in El. rewrite path_compare_ids; [done|]. unfold zlen in El. lia.
Qed.

#[export] Instance candidate_comparison : Comparison compareCandidate.
Proof. eapply comparison_ext; [apply compareCandidate_lex|apply _]. Qed.

#[export] Instance candidate_strict_weak : StrictWeak candidate_less.
Proof.
  unfold candidate_less. split.
  - intros x y. rewrite (cmp_antisym compareCandidate x y). by destruct (compareCandidate x y).
  - intros x y z Hyx Hzy.
    assert (∀ a b, match compareCandidate a b with Lt => true | _ => false end = false ↔
              compareCandidate b a ≠ Gt) as Hr.
    { intros a b. rewrite (cmp_antisym compareCandidate b a).
      by destruct (compareCandidate b a). }
    rewrite Hr in *. by apply (cmp_trans compareCandidate _ y).
Qed.

Definition shortestPath {RE : Type} (snapshot : TrustViewSnapshot) (adjacency : Adjacency)
    : res (error RE) (list TrustEdge * Z) :=
  let start := mkCandidate snapshot.(StartNodeID) 0 [] in
  search_loop (S (length snapshot.(snap_Edges))) adjacency snapshot.(TargetNodeID)
    (heap_init candidate_less [start]) {[start.(cand_node) := start]} false.

(** ** [Planner.Plan] *)

Definition trustedPathStepCost {RE : Type} (edges : list TrustEdge) : res (error RE) Z :=
  match edges with
  | [] => Ok 0
  | first :: rest =>
      let cost := first.(PathStepCost) in
      if cost =? 0 then Err ErrInconsistentPathStepCost
      else if forallb (λ edge, edge.(PathStepCost) =? cost) rest then Ok cost
      else Err ErrInconsistentPathStepCost
  end.

(** The content of a plan: everything but [CreatedAt]. *)
Definition same_decision (p q : Plan) : Prop :=
  p = mkPlan q.(plan_ID) q.(plan_RequestID) q.(plan_Attempt) q.(plan_SnapshotID)
        q.(plan_ProfileID) q.(plan_ProfileFingerprint) q.(plan_Type) q.(plan_HomeNodeID)
        q.(plan_TargetNodeID) q.(plan_Hops) q.(plan_PathStepCost) q.(plan_PathCost)
        q.(plan_DirectCost) q.(plan_FallbackReason) p.(plan_CreatedAt).

(** The interface [planner.PlanRepository] over a database state [S]: a
    successful [SavePlan] makes the decision available under its identifier. *)
Class PlanRepository (S RE : Type) := {
  SavePlan : Plan → S → res RE S;
  LoadPlan : PlanID → S → res RE Plan;
  load_saved plan s s' :
    SavePlan plan s = Ok s' →
    ∃ p, LoadPlan plan.(plan_ID) s' = Ok p ∧ same_decision p plan;
}.

(** [trustview.TrustNode{}] *)
Definition zero_node : TrustNode :=
  mkTrustNode zero32 (mkNodeKey zero32 zero32 zero32) zero32 zero32.

(** The checks of [Plan] on the loaded snapshot. *)
Definition check_snapshot {RE : Type} (keccak256 : bytes → Hash) (request : Request)
    (snapshot : TrustViewSnapshot) : res (error RE) unit :=
  if negb snapshot.(Sealed) then Err ErrSnapshotUnsealed
  else if (snapshot.(snap_ID) ≠?= request.(req_SnapshotID))
          || (snapshot.(HomeChainID) ≠?= request.(req_HomeChainID)) then Err ErrSnapshotEndpoint
  else if ComputeSnapshotID keccak256 request.(req_ID) request.(req_Attempt)
            snapshot.(snap_Revision) snapshot.(StartNodeID) snapshot.(TargetNodeID)
            snapshot.(HomeTrustRoot) ≠?= snapshot.(snap_ID) then Err ErrSnapshotEndpoint
  else if snapshot.(StartNodeID) =?= snapshot.(TargetNodeID) then Err ErrSnapshotEndpoint
  else if negb (snapshotHasNode snapshot snapshot.(StartNodeID))
          || negb (snapshotHasNode snapshot snapshot.(TargetNodeID)) then Err ErrSnapshotEndpoint
  else
    match NewTrustView keccak256 snapshot.(snap_Revision) snapshot.(snap_Nodes)
            snapshot.(snap_Edges) with
    | Err e => Err (ErrView e)
    | Ok validatedView =>
        if negb (zlen validatedView.(Nodes) =? zlen snapshot.(snap_Nodes))
           || negb (zlen validatedView.(Edges) =? zlen snapshot.(snap_Edges))
        then Err ErrDuplicateSnapshot
        else
          let startNode := default zero_node (findSnapshotNode snapshot snapshot.(StartNodeID)) in
          if startNode.(node_Key).(key_ChainID) ≠?= request.(req_HomeChainID)
          then Err ErrSnapshotEndpoint
          else if startNode.(node_Root) ≠?= snapshot.(HomeTrustRoot)
          then Err ErrStaleSnapshot else Ok tt
    end.

Definition set_decision (plan : Plan) (type : PlanType) (hops : list EdgeID) (step : Z)
    (pathCost directCost : option Z) (reason : FallbackReason) : Plan :=
  mkPlan plan.(plan_ID) plan.(plan_RequestID) plan.(plan_Attempt) plan.(plan_SnapshotID)
    plan.(plan_ProfileID) plan.(plan_ProfileFingerprint) type plan.(plan_HomeNodeID)
    plan.(plan_TargetNodeID) hops step pathCost directCost reason plan.(plan_CreatedAt).

(** The decision of [Plan]: the plan it hands to [persist]. *)
Definition decide_plan {RE : Type} (request : Request) (snapshot : TrustViewSnapshot)
    (found : option Registry.ValidatedDirectProfile) (now : Evidence.Time)
    : res (error RE) Plan :=
  let profile := match found with
                 | Some profile => profile
                 | None => Registry.mkValidatedProfile "unavailable" zero32 0 false
                 end in
  let plan := mkPlan zero32 request.(req_ID) request.(req_Attempt) snapshot.(snap_ID)
                profile.(Registry.profile_ID) profile.(Registry.profile_Fingerprint) ""
                snapshot.(StartNodeID) snapshot.(TargetNodeID) [] 0 None None "" now in
  if negb profile.(Registry.Calibrated)
  then Ok (set_decision plan DirectPlan [] 0 None None UncalibratedProfile)
  else
    let directCost := profile.(Registry.DirectCost) in
    pathStepCost ← trustedPathStepCost snapshot.(snap_Edges);
    match directedReachability snapshot with
    | (_, None) => Err OutOfFuel
    | (_, Some false) => Ok (set_decision plan DirectPlan [] 0 None (Some directCost) NoPath)
    | (edges, Some true) =>
        '(path, _) ← shortestPath snapshot edges;
        if pathStepCost =? 0 then Err Panic
        else if MaxUint64 `div` pathStepCost <? zlen path then Err ErrPathCostOverflow
        else
          let cost := wrap64 (zlen path * pathStepCost) in
          let hops := edge_ID <$> path in
          let decided := set_decision plan in
          if directCost <? cost
          then Ok (decided DirectPlan hops pathStepCost (Some cost) (Some directCost)
                     PathCostExceedsDirect)
          else if existsb (λ edge, edge.(edge_WitnessID) =?= None) path
          then Ok (decided DirectPlan hops pathStepCost (Some cost) (Some directCost)
                     ProofMaterialMissing)
          else Ok (decided PathPlan hops pathStepCost (Some cost) (Some directCost) "")
    end.

Definition set_plan_ID (plan : Plan) (id : PlanID) : Plan :=
  mkPlan id plan.(plan_RequestID) plan.(plan_Attempt) plan.(plan_SnapshotID)
    plan.(plan_ProfileID) plan.(plan_ProfileFingerprint) plan.(plan_Type)
    plan.(plan_HomeNodeID) plan.(plan_TargetNodeID) plan.(plan_Hops)
    plan.(plan_PathStepCost) plan.(plan_PathCost) plan.(plan_DirectCost)
    plan.(plan_FallbackReason) plan.(plan_CreatedAt).

Section Planning.
Context {S RE : Type} `{PR : !PlanRepository S RE}.
Context (keccak256 : bytes → Hash).

Definition persist (plan : Plan) (s : S) : res (error RE) (Plan * S) :=
  let plan := set_plan_ID plan (ComputePlanID keccak256 plan) in
  s' ← map_err ErrRepository (SavePlan plan s);
  loaded ← map_err ErrRepository (LoadPlan plan.(plan_ID) s');
  Ok (loaded, s').

Definition Planner_Plan (LoadTrustViewSnapshot : SnapshotID → res RE TrustViewSnapshot)
    (profiles : ChainID → option Registry.ValidatedDirectProfile) (now : Evidence.Time)
    (request : Request) (s : S) : res (error RE) (Plan * S) :=
  snapshot ← map_err ErrRepository (LoadTrustViewSnapshot request.(req_SnapshotID));
  _ ← check_snapshot keccak256 request snapshot;
  plan ← decide_plan request snapshot (profiles request.(req_HomeChainID)) now;
  persist plan s.
End Planning.

(** ** Walks of the graph *)

Section Walks.
Context (adjacency : NodeID → list TrustEdge).

(** [walk u path v]: [path] leads from [u] to [v] along edges of the graph. *)
Fixpoint walk (u : NodeID) (path : list TrustEdge) (v : NodeID) : Prop :=
  match path with
  | [] => u = v
  | e :: rest => e ∈ adjacency u ∧ walk e.(edge_To) rest v
  end.

Lemma walk_app u p q v : walk u (p ++ q) v ↔ ∃ w, walk u p w ∧ walk w q v.
Proof.
  revert u. induction p as [|e p IH]; intros u; cbn; [naive_solver|].
  rewrite IH. naive_solver.
Qed.

Lemma walk_snoc u p e v :
  walk u (p ++ [e]) v ↔ ∃ w, walk u p w ∧ e ∈ adjacency w ∧ e.(edge_To) = v.
Proof. rewrite walk_app. cbn. naive_solver. Qed.
End Walks.

Definition path_cost (path : list TrustEdge) : Z :=
  foldr (λ e acc, e.(PathStepCost) + acc) 0 path.

Lemma path_cost_app p q : path_cost (p ++ q) = path_cost p + path_cost q.
Proof. unfold path_cost. induction p as [|e p IH]; cbn; [done|]. rewrite IH. lia. Qed.

Lemma path_cost_snoc p e : path_cost (p ++ [e]) = path_cost p + e.(PathStepCost).
Proof. rewrite path_cost_app. unfold path_cost at 2. cbn. lia. Qed.

Arguments path_cost : simpl never.

(** The adjacency lists are the edges of the snapshot, grouped by source. *)

Lemma group_edges_lookup edges node :
  default [] (group_edges edges !! node) = filter (λ e, e.(edge_From) = node) edges.
Proof.
  unfold group_edges. induction edges as [|e edges IH] using rev_ind; [done|].
  rewrite foldl_app, filter_app, filter_cons, filter_nil, <-IH. cbn [foldl].
  destruct (decide (edge_From e = node)) as [<-|Hne].
  - by rewrite lookup_insert_eq.
  - rewrite lookup_insert_ne by done. by rewrite app_nil_r.
Qed.

Lemma out_edges_perm edges node :
  out_edges (build_adjacency edges) node ≡ₚ filter (λ e, e.(edge_From) = node) edges.
Proof.
  unfold out_edges, build_adjacency. rewrite lookup_fmap, <-group_edges_lookup.
  destruct (group_edges edges !! node); cbn; [apply sort_by_perm|done].
Qed.

Lemma elem_of_out_edges edges node e :
  e ∈ out_edges (build_adjacency edges) node ↔ e ∈ edges ∧ e.(edge_From) = node.
Proof. rewrite out_edges_perm, list_elem_of_filter. tauto. Qed.

Lemma out_degrees_bound edges nodes :
  NoDup nodes →
  (out_degrees (out_edges (build_adjacency edges)) nodes ≤ length edges)%nat.
Proof.
  unfold out_degrees. revert edges. induction nodes as [|v nodes IH]; intros edges Hd; [cbn; lia|].
  apply NoDup_cons in Hd as [Hv Hd]. cbn.
  rewrite (Permutation_length (out_edges_perm edges v)).
  specialize (IH (filter (λ e, edge_From e ≠ v) edges) Hd).
  assert (length (filter (λ e, edge_From e = v) edges)
    + length (filter (λ e, edge_From e ≠ v) edges) = length edges)%nat as Hs.
  { clear. induction edges as [|e edges IH]; [done|]. rewrite !filter_cons.
    destruct (decide (edge_From e = v)); [rewrite decide_False by naive_solver
      |rewrite decide_True by done]; cbn; lia. }
  rewrite <-Hs. apply Nat.add_le_mono_l. etrans; [|exact IH]. apply Nat.eq_le_incl.
  clear IH Hs. induction nodes as [|w nodes IH]; [done|]. cbn.
  apply NoDup_cons in Hd as [_ Hd]. apply not_elem_of_cons in Hv as [Hvw Hv].
  rewrite IH by done. f_equal.
  rewrite !(Permutation_length (out_edges_perm _ w)), list_filter_filter.
  f_equal. apply list_filter_iff. naive_solver.
Qed.

(** ** Breadth-first search decides reachability *)

Lemma enqueue_loop_spec edges seen queue :
  ∃ new, enqueue_loop edges seen queue = (seen ∪ list_to_set new, queue ++ new) ∧
    NoDup new ∧ (∀ x, x ∈ new → (x ∉ seen) ∧ ∃ e, e ∈ edges ∧ e.(edge_To) = x) ∧
    (∀ e, e ∈ edges → e.(edge_To) ∈ seen ∨ e.(edge_To) ∈ new).
Proof.
  revert seen queue. induction edges as [|e edges IH]; intros seen queue; cbn.
  - exists []. rewrite app_nil_r, list_to_set_nil, union_empty_r_L.
    split_and!; [done|constructor|set_solver|set_solver].
  - case_bool_decide as Hin.
    + destruct (IH seen queue) as (new & -> & Hd & Hnew & Hall). exists new. set_solver.
    + destruct (IH ({[edge_To e]} ∪ seen) (queue ++ [edge_To e])) as (new & -> & Hd & Hnew & Hall).
      exists (edge_To e :: new). rewrite <-(assoc_L (++)). cbn.
      split_and!.
      * f_equal. set_solver.
      * constructor; [|done]. intros Hx. destruct (Hnew _ Hx) as [Hns _]. set_solver.
      * intros x [->|Hx]%elem_of_cons; [set_solver|]. destruct (Hnew x Hx) as [Hns He].
        set_solver.
      * intros f [->|Hf]%elem_of_cons; [set_solver|]. destruct (Hall f Hf); set_solver.
Qed.

Section Bfs.
Context (edges : list TrustEdge) (start target : NodeID).
Abbreviation adj := (out_edges (build_adjacency edges)).

Record bfs_inv (done_ queue : list NodeID) : Prop := {
  bfs_nodup : NoDup (done_ ++ queue);
  bfs_start : start ∈ done_ ++ queue;
  bfs_reached v : v ∈ done_ ++ queue → ∃ p, walk adj start p v;
  bfs_closed v e : v ∈ done_ → e ∈ adj v → e.(edge_To) ∈ done_ ++ queue;
  bfs_target : target ∉ done_;
  bfs_small v : v ∈ done_ ++ queue → v ∈ start :: (edge_To <$> edges);
}.

Lemma bfs_inv_bound done_ queue :
  bfs_inv done_ queue → (length (done_ ++ queue) ≤ S (length edges))%nat.
Proof.
  intros [Hd _ _ _ _ Hs]. pose proof (submseteq_length _ _ (NoDup_submseteq _ _ Hd Hs)) as H.
  cbn in H. by rewrite length_fmap in H.
Qed.

Lemma bfs_inv_step done_ current queue new :
  bfs_inv done_ (current :: queue) → current ≠ target → NoDup new →
  (∀ x, x ∈ new → (x ∉ done_ ++ current :: queue) ∧ ∃ e, e ∈ adj current ∧ e.(edge_To) = x) →
  (∀ e, e ∈ adj current →
     e.(edge_To) ∈ done_ ++ current :: queue ∨ e.(edge_To) ∈ new) →
  bfs_inv (done_ ++ [current]) (queue ++ new).
Proof.
  intros [Hd Hs Hr Hc Ht Hm] Hne Hnd Hnew Hall.
  assert ((done_ ++ [current]) ++ queue ++ new = (done_ ++ current :: queue) ++ new) as Heq
    by (by rewrite <-!(assoc_L (++))).
  split; rewrite ?Heq.
  - apply NoDup_app. split_and!; [done| |done]. intros x Hx Hin. by destruct (Hnew x Hin).
  - apply elem_of_app. by left.
  - intros v [Hv|Hv]%elem_of_app; [by apply Hr|].
    destruct (Hnew v Hv) as (_ & e & He & <-). destruct (Hr current) as [p Hp]; [set_solver|].
    exists (p ++ [e]). apply walk_snoc. eauto.
  - intros v e [Hv| ->%list_elem_of_singleton]%elem_of_app He; apply elem_of_app.
    + left. eapply Hc; eauto.
    + by apply Hall.
  - intros [?|?%list_elem_of_singleton]%elem_of_app; [done|congruence].
  - intros v [Hv|Hv]%elem_of_app; [by apply Hm|].
    destruct (Hnew v Hv) as (_ & e & He & <-). right.
    apply list_elem_of_fmap_2. by apply elem_of_out_edges in He as [? _].
Qed.

Lemma bfs_loop_spec fuel : ∀ done_ queue,
  bfs_inv done_ queue → (S (length edges) ≤ fuel + length done_)%nat →
  ∃ b, bfs_loop fuel (build_adjacency edges) target (list_to_set (done_ ++ queue)) queue = Some b
    ∧ (b = true ↔ ∃ p, walk adj start p target).
Proof.
  induction fuel as [|fuel IH]; intros done_ [|current queue] Hinv Hf.
  1,3: exists false; split; [done|]; split; [done|]; intros [p Hp]; exfalso;
    destruct Hinv as [_ Hs _ Hc Ht _]; rewrite app_nil_r in *;
    assert (∀ q u, u ∈ done_ → walk adj u q target → target ∈ done_) as Hw
      by (induction q as [|e q IHq]; intros u Hu; cbn; [by intros ->|];
          intros [He Hq]; eapply IHq, Hq; by eapply Hc);
    by eapply Ht, Hw.
  - apply bfs_inv_bound in Hinv. rewrite length_app in Hinv. cbn in Hinv. lia.
  - cbn [bfs_loop]. case_bool_decide as Hcur.
    + exists true. split; [done|]. split; [|done]. intros _. subst current.
      destruct Hinv as [_ _ Hr _ _ _]. apply Hr. set_solver.
    + destruct (enqueue_loop_spec (adj current) (list_to_set (done_ ++ current :: queue)) queue)
        as (new & -> & Hnd & Hnew & Hall).
      setoid_rewrite elem_of_list_to_set in Hnew. setoid_rewrite elem_of_list_to_set in Hall.
      pose proof (bfs_inv_step _ _ _ _ Hinv Hcur Hnd Hnew Hall) as Hinv'.
      destruct (IH _ _ Hinv') as (b & Hb & Hiff); [rewrite length_app; cbn; lia|].
      exists b. split; [|done]. rewrite <-Hb. f_equal.
      rewrite <-list_to_set_app_L. f_equal. by rewrite <-!(assoc_L (++)).
Qed.
End Bfs.

Lemma directedReachability_spec snapshot :
  ∃ b, directedReachability snapshot = (build_adjacency snapshot.(snap_Edges), Some b) ∧
    (b = true ↔ ∃ p, walk (out_edges (build_adjacency snapshot.(snap_Edges)))
                       snapshot.(StartNodeID) p snapshot.(TargetNodeID)).
Proof.
  destruct (bfs_loop_spec (snap_Edges snapshot) (StartNodeID snapshot) (TargetNodeID snapshot)
    (S (length (snap_Edges snapshot))) [] [StartNodeID snapshot]) as (b & Hb & Hiff).
  - split; cbn.
    + apply NoDup_singleton.
    + by left.
    + intros v ->%list_elem_of_singleton. by exists [].
    + intros v e []%elem_of_nil.
    + apply not_elem_of_nil.
    + intros v ->%list_elem_of_singleton. by left.
  - cbn. lia.
  - exists b. split; [|done]. unfold directedReachability.
    change (list_to_set ([] ++ [StartNodeID snapshot])) with
      ({[StartNodeID snapshot]} ∪ ∅ : gset NodeID) in Hb.
    rewrite union_empty_r_L in Hb. by rewrite Hb.
Qed.

(** ** The search returns the least candidate *)

Section SearchCorrect.
Context {RE Q : Type} `{PQ : !PriorityQueue Q candidate candidate_less}.
Context (edges : list TrustEdge) (start target : NodeID).
Hypothesis costs_u64 : Forall (λ e, u64 e.(PathStepCost)) edges.

Abbreviation adj := (out_edges (build_adjacency edges)).

(** One step of a path: the candidate after an edge, if its cost fits. *)
Definition extend (c : candidate) (e : TrustEdge) : option candidate :=
  if (e.(PathStepCost) <? 0) || (MaxUint64 - e.(PathStepCost) <? c.(cand_cost)) then None
  else Some (mkCandidate e.(edge_To) (c.(cand_cost) + e.(PathStepCost)) (c.(cand_path) ++ [e])).

Definition start_candidate : candidate := mkCandidate start 0 [].

Lemma path_ids_snoc p e : path_ids (p ++ [e]) = path_ids p ++ e.(edge_ID).
Proof. unfold path_ids. rewrite fmap_app, join_app. cbn. by rewrite app_nil_r. Qed.

Lemma extend_mono (l k : candidate) e k' :
  compareCandidate l k ≠ Gt → extend k e = Some k' →
  ∃ l', extend l e = Some l' ∧ compareCandidate l' k' ≠ Gt.
Proof.
  unfold extend. intros Hle Hk. case_match eqn:Hc; [done|]. injection Hk as <-. bool_to_prop.
  assert (cand_cost l ≤ cand_cost k) as Hcost.
  { revert Hle. rewrite compareCandidate_lex. unfold cmp_lex at 1, cmp_on at 1.
    destruct (Z.compare_spec (cand_cost l) (cand_cost k)); [lia|lia|done]. }
  rewrite (proj2 (Z.ltb_ge _ _)) by lia. rewrite (proj2 (Z.ltb_ge _ _)) by lia.
  eexists. split; [done|]. revert Hle. rewrite !compareCandidate_lex.
  unfold cmp_lex, cmp_on. cbn [cand_cost cand_path cand_node]. rewrite !zlen_app, !path_ids_snoc.
  destruct (Z.compare_spec (cand_cost l) (cand_cost k)) as [He|He|He]; [| |lia].
  - rewrite He, Z.compare_refl.
    destruct (Z.compare_spec (zlen (cand_path l)) (zlen (cand_path k))) as [Hl|Hl|Hl]; [| |done].
    + rewrite Hl, Z.compare_refl. rewrite bytes_compare_app_same.
      * destruct (bytes_compare (path_ids (cand_path l)) (path_ids (cand_path k))); try done.
        by rewrite !bytes_compare_refl.
      * rewrite !length_path_ids. unfold zlen in Hl. lia.
    + intros _. destruct (Z.compare_spec (zlen (cand_path l) + zlen [e])
        (zlen (cand_path k) + zlen [e])); [lia|done|lia].
  - destruct (Z.compare_spec (cand_cost l + PathStepCost e) (cand_cost k + PathStepCost e));
      [lia|done|lia].
Qed.

Lemma extend_incr (l : candidate) e l' : extend l e = Some l' → compareCandidate l l' ≠ Gt.
Proof.
  unfold extend. intros Hk. case_match eqn:Hc; [done|]. injection Hk as <-. bool_to_prop.
  rewrite compareCandidate_lex. unfold cmp_lex, cmp_on. cbn [cand_cost cand_path cand_node]. rewrite zlen_app.
  change (zlen [e]) with 1.
  destruct (Z.compare_spec (cand_cost l) (cand_cost l + PathStepCost e)); [|done|lia].
  destruct (Z.compare_spec (zlen (cand_path l)) (zlen (cand_path l) + 1)); [lia|done|lia].
Qed.

Abbreviation reached := (reach adj edge_To extend start start_candidate).

Lemma adj_u64 u e : e ∈ adj u → u64 e.(PathStepCost).
Proof.
  intros [He _]%elem_of_out_edges. rewrite Forall_forall in costs_u64. by apply costs_u64.
Qed.

(** The labels the search handles are the walks whose cost fits in a uint64. *)
Lemma reached_walk v (c : candidate) :
  reached v c ↔ cand_node c = v ∧ walk adj start (cand_path c) v ∧
    cand_cost c = path_cost (cand_path c) ∧ cand_cost c ≤ MaxUint64.
Proof.
  split.
  - induction 1 as [|u l e l' _ IH He Hx]; [done|]. unfold extend in Hx.
    case_match eqn:Hc; [done|]. injection Hx as <-. bool_to_prop. cbn.
    destruct IH as (_ & Hw & Hcost & _). split_and!; [done| | |lia].
    + apply walk_snoc. eauto.
    + rewrite path_cost_snoc. lia.
  - destruct c as [node cost path]. cbn. intros (-> & Hw & -> & Hmax).
    revert v Hw Hmax. induction path as [|e path IH] using rev_ind; intros v Hw Hmax.
    + cbn in *. subst v. constructor.
    + apply walk_snoc in Hw as (w & Hw & He & <-). rewrite path_cost_snoc in *.
      pose proof (adj_u64 _ _ He) as Hu. unfold u64 in Hu.
      eapply (reach_step _ _ _ _ _ w (mkCandidate w (path_cost path) path)); [|done|].
      * apply IH; [done|lia].
      * unfold extend. cbn. rewrite (proj2 (Z.ltb_ge _ _)) by lia.
        by rewrite (proj2 (Z.ltb_ge _ _)) by lia.
Qed.

Definition items (queue : Q) : list (NodeID * candidate) :=
  (λ c, (cand_node c, c)) <$> pq_elems queue.

Abbreviation inv n best queue settled cur todo :=
  (search_inv adj edge_To extend compareCandidate start start_candidate
     n (λ v, best !! v) (items queue) settled cur todo).

(** As long as the overflow flag is down, every edge of a settled node could
    be followed. *)
Definition all_extended (overflowed : bool) (settled : list NodeID)
    (best : gmap NodeID candidate) (cur : NodeID) (todo : list TrustEdge) : Prop :=
  overflowed = false → ∀ v b e, v ∈ settled → best !! v = Some b → e ∈ adj v →
    (v = cur ∧ e ∈ todo) ∨ is_Some (extend b e).

Lemma items_push q c : items (pq_push q c) ≡ₚ (cand_node c, c) :: items q.
Proof. unfold items. by rewrite pq_push_elems. Qed.

Lemma extend_u64 u e (c : candidate) :
  e ∈ adj u →
  extend c e = if MaxUint64 - e.(PathStepCost) <? c.(cand_cost) then None
    else Some (mkCandidate e.(edge_To) (c.(cand_cost) + e.(PathStepCost)) (c.(cand_path) ++ [e])).
Proof.
  intros He%adj_u64. unfold extend. unfold u64 in He.
  by rewrite (proj2 (Z.ltb_ge (PathStepCost e) 0)) by lia.
Qed.

Lemma extend_same (l k : candidate) e :
  compareCandidate l k = Eq → is_Some (extend l e) → is_Some (extend k e).
Proof.
  intros Heq [l' Hl]. destruct (extend_mono k l e l') as (k' & Hk & _); [|done|eauto].
  by rewrite (cmp_eq_sym compareCandidate _ _ Heq).
Qed.

Lemma relax_loop_inv n settled (current b : candidate) :
  cand_node current ∈ settled → compareCandidate current b = Eq →
  reached (cand_node current) current →
  ∀ todo queue best overflowed,
  (∀ e, e ∈ todo → e ∈ adj (cand_node current)) →
  best !! cand_node current = Some b →
  (∀ v k, v ∈ settled → best !! v = Some k → compareCandidate k current ≠ Gt) →
  inv n best queue settled (cand_node current) todo → pq_inv queue →
  all_extended overflowed settled best (cand_node current) todo →
  ∃ queue' best' overflowed',
    relax_loop current todo queue best overflowed = (queue', best', overflowed') ∧
    inv n best' queue' settled (cand_node current) [] ∧ pq_inv queue' ∧
    all_extended overflowed' settled best' (cand_node current) [].
Proof.
  intros Hset Hb Hr. induction todo as [|e todo IH];
    intros queue best overflowed Hin Hbest Hle Hinv Hpq Hall; [by eauto 10|].
  assert (e ∈ adj (cand_node current)) as He by (apply Hin; by left).
  pose proof (extend_u64 _ _ current He) as Hx. cbn [relax_loop].
  destruct (MaxUint64 - PathStepCost e <? cand_cost current).
  - apply IH; try done; [intros; apply Hin; by right|].
    eapply (search_inv_skip _ _ _ _ _ _ extend_mono); eauto. intros l' Hl'. congruence.
  - set (next := mkCandidate _ _ _) in *. cbn [cand_node next].
    assert (all_extended overflowed settled best (cand_node current) todo) as Hall'.
    { intros Ho v k f Hv Hk Hf. destruct (Hall Ho v k f Hv Hk Hf) as [[-> Hft]|]; [|by right].
      apply elem_of_cons in Hft as [->|]; [right|by left].
      apply (extend_same current); [|by rewrite Hx]. congruence. }
    destruct (match best !! _ with Some _ => _ | None => _ end) eqn:Hc.
    + destruct (search_inv_push _ _ _ _ _ _ extend_mono extend_incr n (λ v, best !! v) (items queue) settled
        (cand_node current) current b e todo Hinv Hbest Hb Hr He Hle
        (λ v, <[edge_To e := next]> best !! v) next) as [Hinv' Hdst]; [done| | |].
      { intros k Hk. rewrite Hk in Hc. unfold candidate_less in Hc. by repeat case_match. }
      { intros v. case_decide as Hv; [subst v; by rewrite lookup_insert_eq|].
        by rewrite lookup_insert_ne. }
      assert (edge_To e ≠ cand_node current) as Hne by (intros Heq; by rewrite Heq in Hdst).
      apply IH.
      * intros; apply Hin; by right.
      * by rewrite lookup_insert_ne.
      * intros v k Hv. rewrite lookup_insert_ne by (intros Hx'; by rewrite Hx' in Hdst). by apply Hle.
      * eapply search_inv_perm; [|exact Hinv']. by rewrite items_push.
      * by apply pq_push_inv.
      * intros Ho v k f Hv. rewrite lookup_insert_ne by (intros Hx'; by rewrite Hx' in Hdst). by apply Hall'.
    + apply IH; try done; [intros; apply Hin; by right|].
      eapply (search_inv_skip _ _ _ _ _ _ extend_mono); eauto.
      intros l' Hl'. rewrite Hx in Hl'. injection Hl' as <-.
      cbn [cand_node next] in Hc. destruct (best !! edge_To e) as [k|]; [|done].
      exists k. split; [done|]. unfold candidate_less in Hc. by intros Hlt; rewrite Hlt in Hc.
Qed.

(** What each outcome of the search means. *)
Definition search_outcome (r : res (error RE) (list TrustEdge * Z)) : Prop :=
  match r with
  | Ok (path, cost) =>
      reached target (mkCandidate target cost path) ∧
      ∀ c, reached target c → compareCandidate (mkCandidate target cost path) c ≠ Gt
  | Err ErrPathCostOverflow => ∀ c, ¬ reached target c
  | Err ErrPathDisappeared => ∀ path, ¬ walk adj start path target
  | Err _ => False
  end.

Lemma exhausted_outcome n best queue settled cur overflowed :
  inv n best queue settled cur [] → pq_elems queue = [] →
  all_extended overflowed settled best cur [] → target ∉ settled →
  search_outcome (if overflowed then Err ErrPathCostOverflow else Err ErrPathDisappeared).
Proof.
  intros Hinv Hq Hall Ht. unfold items in Hinv. rewrite Hq in Hinv. cbn in Hinv.
  destruct overflowed; cbn.
  - intros c Hc. apply Ht. 
    exact (search_inv_exhausted _ _ _ _ _ _ extend_mono extend_incr _ _ _ _ _ _ Hinv Hc).
  - intros path Hw. apply Ht. destruct Hinv as [_ _ _ Hcover _ _ _ Hrel Hstart _ Hbest _].
    assert (∀ v b, best !! v = Some b → v ∈ settled) as Hs.
    { intros v b Hb. destruct (Hcover v b Hb) as [|(l & Hin & _)]; [done|].
      by apply elem_of_nil in Hin. }
    assert (∀ p u, u ∈ settled → walk adj u p target → target ∈ settled) as Hwalk.
    { induction p as [|e p IHp]; intros u Hu; cbn; [by intros ->|]. intros [He Hp].
      eapply IHp, Hp. destruct (Hbest u Hu) as [b Hb].
      destruct (Hall eq_refl u b e Hu Hb He) as [[_ []%elem_of_nil]|[b' Hb']].
      destruct (Hrel u b e b' Hu Hb He Hb') as [[_ []%elem_of_nil]|(k & Hk & _)].
      by eapply Hs. }
    destruct Hstart as (b & Hb & _). eapply Hwalk, Hw. by eapply Hs.
Qed.

Lemma popped_min queue c queue' :
  pq_inv queue → pq_pop queue = Some (c, queue') →
  ∀ u k, (u, k) ∈ items queue' → compareCandidate c k ≠ Gt.
Proof.
  intros Hpq Hpop u k (k' & Heq & Hin)%list_elem_of_fmap. simplify_eq.
  pose proof (pq_pop_min _ _ _ _ Hpq Hpop Hin) as Hl. unfold candidate_less in Hl.
  apply (cmp_not_lt compareCandidate). intros Hlt. by rewrite Hlt in Hl.
Qed.

Lemma search_loop_spec fuel : ∀ n queue best settled cur overflowed,
  inv n best queue settled cur [] → pq_inv queue →
  all_extended overflowed settled best cur [] → target ∉ settled →
  (S (length edges) ≤ fuel + n)%nat →
  search_outcome (search_loop fuel (build_adjacency edges) target queue best overflowed).
Proof.
  induction fuel as [|fuel IH]; intros n queue best settled cur overflowed Hinv Hpq Hall Ht Hf;
    cbn [search_loop]; destruct (pq_pop queue) as [[c queue']|] eqn:Hpop;
    try (apply pq_pop_None in Hpop; by eapply exhausted_outcome);
    assert (items queue ≡ₚ (cand_node c, c) :: items queue') as Hperm
      by (unfold items; by rewrite (pq_pop_elems _ _ _ Hpop)).
  { apply search_inv_pops with (bound := length edges) in Hinv;
      [|apply out_degrees_bound].
    rewrite (Permutation_length Hperm) in Hinv. cbn in Hinv. lia. }
  pose proof (popped_min _ _ _ Hpq Hpop) as Hmin.
  eapply search_inv_perm in Hinv; [|exact Hperm].
  pose proof (pq_pop_inv _ _ _ Hpq Hpop) as Hpq'.
  destruct (inv_queue _ _ _ _ _ _ _ _ _ _ _ _ Hinv (cand_node c) c) as (known & Hk & _); [by left|].
  cbn in Hk. rewrite Hk.
  destruct (bool_decide_reflect (compareCandidate c known = Eq)) as [Heq|Hne]; cbn [negb].
  - assert (fresh compareCandidate (λ v, best !! v) (cand_node c, c)) as Hfresh by (by exists known).
    case_bool_decide as Hnode.
    + destruct (search_inv_optimal _ _ _ _ _ _ extend_mono extend_incr _ _ _ _ _ _ _
        Hinv Hfresh Hmin) as [Hr Hopt]. cbn.
      assert (c = mkCandidate target (cand_cost c) (cand_path c)) as Hc
        by (destruct c; cbn in *; by subst).
      rewrite Hnode in Hr, Hopt. rewrite <-Hc. eauto.
    + destruct (search_inv_settle _ _ _ _ _ _ _ _ _ _ _ _ _ Hinv Hfresh Hmin)
        as (Hinv' & Hle & Hr).
      destruct (relax_loop_inv (S n) (cand_node c :: settled) c known ltac:(by left) Heq Hr
        (adj (cand_node c)) queue' best overflowed) as (q2 & b2 & o2 & -> & Hinv2 & Hpq2 & Hall2);
        try done.
      { intros Ho v k e [->|Hv]%elem_of_cons Hk' He; [by left|].
        destruct (Hall Ho v k e Hv Hk' He) as [[_ []%elem_of_nil]|]; by right. }
      eapply IH; eauto; [|lia]. intros [?|?]%elem_of_cons; congruence.
  - eapply IH; [|done|done|done|].
    + eapply search_inv_stale; [exact Hinv|]. intros (b & Hb & Hcmp). cbn in *. congruence.
    + lia.
Qed.
End SearchCorrect.

(** ** What the planner promises *)

(** The order in which the planner prefers paths: total cost, then number of
    hops, then the edge identifiers in sequence. *)
Definition preferred (p q : list TrustEdge) : Prop :=
  path_cost p < path_cost q ∨
  (path_cost p = path_cost q ∧
   (zlen p < zlen q ∨ (zlen p = zlen q ∧ bytes_compare (path_ids p) (path_ids q) ≠ Gt))).

(** A path of the snapshot from its start to its target. *)
Definition snapshot_path (snapshot : TrustViewSnapshot) (path : list TrustEdge) : Prop :=
  walk (λ node, filter (λ e, e.(edge_From) = node) snapshot.(snap_Edges))
    snapshot.(StartNodeID) path snapshot.(TargetNodeID).

Definition costs_in_range (snapshot : TrustViewSnapshot) : Prop :=
  Forall (λ e, u64 e.(PathStepCost)) snapshot.(snap_Edges).

Lemma preferred_compare target p q :
  compareCandidate (mkCandidate target (path_cost p) p) (mkCandidate target (path_cost q) q) ≠ Gt ↔
  preferred p q.
Proof.
  rewrite compareCandidate_lex. unfold preferred, cmp_lex, cmp_on. cbn [cand_cost cand_path cand_node].
  rewrite bytes_compare_refl.
  destruct (Z.compare_spec (path_cost p) (path_cost q)) as [He|He|He];
    [|intuition (lia || congruence)..].
  destruct (Z.compare_spec (zlen p) (zlen q)) as [Hl|Hl|Hl]; [|intuition (lia || congruence)..].
  destruct (bytes_compare (path_ids p) (path_ids q)); intuition (lia || congruence).
Qed.

Lemma walk_ext (a b : NodeID → list TrustEdge) u p v :
  (∀ n e, e ∈ a n ↔ e ∈ b n) → walk a u p v ↔ walk b u p v.
Proof.
  intros Hab. revert u. induction p as [|e p IH]; intros u; cbn; [done|]. by rewrite IH, Hab.
Qed.

Lemma snapshot_path_walk snapshot path :
  snapshot_path snapshot path ↔
  walk (out_edges (build_adjacency snapshot.(snap_Edges))) snapshot.(StartNodeID) path
    snapshot.(TargetNodeID).
Proof. apply walk_ext. intros n e. by rewrite out_edges_perm. Qed.

Lemma snapshot_path_edges snapshot path e :
  snapshot_path snapshot path → e ∈ path → e ∈ snapshot.(snap_Edges).
Proof.
  unfold snapshot_path. generalize (StartNodeID snapshot) as u.
  induction path as [|f path IH]; intros u; cbn; [set_solver|].
  intros [Hf Hw] [->|He]%elem_of_cons; [by apply list_elem_of_filter in Hf as [_ ?]|eauto].
Qed.

Lemma shortestPath_outcome {RE : Type} snapshot :
  costs_in_range snapshot →
  @search_outcome RE snapshot.(snap_Edges) snapshot.(StartNodeID) snapshot.(TargetNodeID)
    (shortestPath snapshot (build_adjacency snapshot.(snap_Edges))).
Proof.
  intros Hc. unfold shortestPath.
  replace (heap_init candidate_less _) with [mkCandidate (StartNodeID snapshot) 0 []]
    by (symmetry; apply heap_init_singleton).
  apply (search_loop_spec _ _ _ Hc) with (n := 0%nat) (settled := []) (cur := StartNodeID snapshot).
  - apply (search_inv_init _ _ _ _ _ _ extend_mono extend_incr).
    intros v. case_decide as Hv.
    + subst v. by rewrite lookup_singleton_eq.
    + by rewrite lookup_singleton_ne.
  - intros k Hk. cbn in Hk. lia.
  - intros _ v b e Hv. by apply elem_of_nil in Hv.
  - apply not_elem_of_nil.
  - lia.
Qed.

(** The decision the planner must take for a snapshot and a profile. *)
Definition right_decision (snapshot : TrustViewSnapshot)
    (found : option Registry.ValidatedDirectProfile) (plan : Plan) : Prop :=
  match found with
  | Some profile =>
      if profile.(Registry.Calibrated) then
        plan.(plan_DirectCost) = Some profile.(Registry.DirectCost) ∧
        ((plan.(plan_Type) = DirectPlan ∧ plan.(plan_FallbackReason) = NoPath ∧
          plan.(plan_Hops) = [] ∧ ∀ path, ¬ snapshot_path snapshot path) ∨
         ∃ path step,
           snapshot_path snapshot path ∧
           (∀ other, snapshot_path snapshot other → preferred path other) ∧
           plan.(plan_Hops) = edge_ID <$> path ∧ plan.(plan_PathStepCost) = step ∧
           plan.(plan_PathCost) = Some (zlen path * step) ∧ path_cost path = zlen path * step ∧
           ((profile.(Registry.DirectCost) < zlen path * step ∧
             plan.(plan_Type) = DirectPlan ∧ plan.(plan_FallbackReason) = PathCostExceedsDirect) ∨
            (zlen path * step ≤ profile.(Registry.DirectCost) ∧
             (∃ e, e ∈ path ∧ e.(edge_WitnessID) = None) ∧
             plan.(plan_Type) = DirectPlan ∧ plan.(plan_FallbackReason) = ProofMaterialMissing) ∨
            (zlen path * step ≤ profile.(Registry.DirectCost) ∧
             (∀ e, e ∈ path → is_Some e.(edge_WitnessID)) ∧
             plan.(plan_Type) = PathPlan ∧ plan.(plan_FallbackReason) = "")))
      else plan.(plan_Type) = DirectPlan ∧ plan.(plan_FallbackReason) = UncalibratedProfile
  | None => plan.(plan_Type) = DirectPlan ∧ plan.(plan_FallbackReason) = UncalibratedProfile
  end.

(** The plan answers this request on this snapshot. *)
Definition plan_for (request : Request) (snapshot : TrustViewSnapshot) (plan : Plan) : Prop :=
  plan.(plan_RequestID) = request.(req_ID) ∧ plan.(plan_Attempt) = request.(req_Attempt) ∧
  plan.(plan_SnapshotID) = snapshot.(snap_ID) ∧
  plan.(plan_HomeNodeID) = snapshot.(StartNodeID) ∧
  plan.(plan_TargetNodeID) = snapshot.(TargetNodeID).

Lemma trustedPathStepCost_spec {RE : Type} edges :
  match @trustedPathStepCost RE edges with
  | Ok c => ∀ e, e ∈ edges → e.(PathStepCost) = c ∧ c ≠ 0
  | Err e => e = ErrInconsistentPathStepCost ∧
      ¬ ∃ c, c ≠ 0 ∧ ∀ e, e ∈ edges → e.(PathStepCost) = c
  end.
Proof.
  destruct edges as [|f edges]; cbn; [set_solver|].
  destruct (Z.eqb_spec (PathStepCost f) 0) as [Hz|Hz].
  { split; [done|]. intros (c & Hc & Hall). specialize (Hall f ltac:(by left)). lia. }
  destruct (forallb _ edges) eqn:Hf.
  - intros e [->|He]%elem_of_cons; [done|]. rewrite forallb_forall in Hf.
    apply list_elem_of_In, Hf, Z.eqb_eq in He. done.
  - split; [done|]. intros (c & Hc & Hall). apply not_true_iff_false in Hf. apply Hf.
    apply forallb_forall. intros e He%list_elem_of_In. apply Z.eqb_eq.
    rewrite (Hall e), (Hall f); [done|by left|by right].
Qed.

Lemma uniform_path_cost path c :
  (∀ e, e ∈ path → e.(PathStepCost) = c) → path_cost path = zlen path * c.
Proof.
  intros Hall. induction path as [|e path IH]; [done|].
  unfold path_cost in *. cbn [foldr]. rewrite IH by set_solver.
  rewrite (Hall e) by (by left). unfold zlen. cbn [length]. lia.
Qed.

Lemma missing_witness_spec (path : list TrustEdge) :
  if existsb (λ edge, edge.(edge_WitnessID) =?= None) path
  then ∃ e, e ∈ path ∧ e.(edge_WitnessID) = None
  else ∀ e, e ∈ path → is_Some e.(edge_WitnessID).
Proof.
  destruct (existsb _ path) eqn:He.
  - apply existsb_exists in He as (e & Hin%list_elem_of_In & Hb).
    apply bool_decide_eq_true in Hb. eauto.
  - intros e Hin. apply not_eq_None_Some. intros Hn. apply not_true_iff_false in He. apply He.
    apply existsb_exists. exists e. split; [by apply list_elem_of_In|].
    by apply bool_decide_eq_true.
Qed.

Lemma shortestPath_sound {RE : Type} (snapshot : TrustViewSnapshot) :
  costs_in_range snapshot →
  match @shortestPath RE snapshot (build_adjacency snapshot.(snap_Edges)) with
  | Ok (path, cost) =>
      snapshot_path snapshot path ∧ cost = path_cost path ∧ cost ≤ MaxUint64 ∧
      ∀ other, snapshot_path snapshot other → preferred path other
  | Err ErrPathCostOverflow =>
      ∀ other, snapshot_path snapshot other → MaxUint64 < path_cost other
  | Err ErrPathDisappeared => ∀ other, ¬ snapshot_path snapshot other
  | Err _ => False
  end.
Proof.
  intros Hc. pose proof (@shortestPath_outcome RE snapshot Hc) as H.
  destruct (shortestPath _ _) as [[path cost]|[]]; cbn in H; try done;
    setoid_rewrite snapshot_path_walk; [| |done].
  - destruct H as [Hr Hopt]. apply (reached_walk _ _ Hc) in Hr as (_ & Hw & Hcost & Hmax).
    cbn in Hw, Hcost, Hmax. subst cost.
    split_and!; [done..|]. intros other Ho.
    destruct (decide (path_cost other ≤ MaxUint64)) as [Hle|Hgt]; [|left; lia].
    apply (preferred_compare (TargetNodeID snapshot)), Hopt.
    by apply (reached_walk _ _ Hc).
  - intros other Ho. destruct (decide (path_cost other ≤ MaxUint64)) as [Hle|Hgt]; [|lia].
    exfalso. apply (H (mkCandidate (TargetNodeID snapshot) (path_cost other) other)).
    by apply (reached_walk _ _ Hc).
Qed.

Lemma uniform_steps snapshot step path :
  costs_in_range snapshot → snapshot.(StartNodeID) ≠ snapshot.(TargetNodeID) →
  (∀ e, e ∈ snapshot.(snap_Edges) → e.(PathStepCost) = step ∧ step ≠ 0) →
  snapshot_path snapshot path → 0 < step ∧ path_cost path = zlen path * step.
Proof.
  intros Hc Hends Hstep Hp. split.
  - destruct path as [|e path]; [by cbn in Hp|].
    assert (e ∈ snap_Edges snapshot) as He by (eapply snapshot_path_edges; [done|by left]).
    unfold costs_in_range in Hc. rewrite Forall_forall in Hc. specialize (Hc e He).
    destruct (Hstep e He). unfold u64 in Hc. lia.
  - apply uniform_path_cost. intros e He. apply Hstep. by eapply snapshot_path_edges.
Qed.

(** The three ends of [Plan] after a path was found. *)
Lemma right_path_decision snapshot profile path step plan :
  profile.(Registry.Calibrated) = true →
  snapshot_path snapshot path →
  (∀ other, snapshot_path snapshot other → preferred path other) →
  path_cost path = zlen path * step →
  (if Registry.DirectCost profile <? zlen path * step
   then plan = (DirectPlan, PathCostExceedsDirect)
   else if existsb (λ edge, edge.(edge_WitnessID) =?= None) path
   then plan = (DirectPlan, ProofMaterialMissing) else plan = (PathPlan, "")) →
  ∀ decided,
    decided.(plan_DirectCost) = Some (Registry.DirectCost profile) →
    decided.(plan_Hops) = edge_ID <$> path → decided.(plan_PathStepCost) = step →
    decided.(plan_PathCost) = Some (zlen path * step) →
    decided.(plan_Type) = plan.1 → decided.(plan_FallbackReason) = plan.2 →
    right_decision snapshot (Some profile) decided.
Proof.
  intros Hcal Hp Hpref Hcost Hcase decided H1 H2 H3 H4 H5 H6.
  cbn. rewrite Hcal. split; [done|]. right. exists path, step. split_and!; try done.
  pose proof (missing_witness_spec path) as Hm. rewrite H5, H6.
  destruct (Z.ltb_spec (Registry.DirectCost profile) (zlen path * step));
    [|destruct (existsb _ path)]; subst plan; cbn; tauto.
Qed.

Lemma decide_plan_sound {RE : Type} (request : Request) (snapshot : TrustViewSnapshot)
    (found : option Registry.ValidatedDirectProfile) (now : Evidence.Time) :
  costs_in_range snapshot → snapshot.(StartNodeID) ≠ snapshot.(TargetNodeID) →
  match @decide_plan RE request snapshot found now with
  | Ok plan => plan_for request snapshot plan ∧ right_decision snapshot found plan
  | Err ErrInconsistentPathStepCost =>
      ¬ ∃ c, c ≠ 0 ∧ ∀ e, e ∈ snapshot.(snap_Edges) → e.(PathStepCost) = c
  | Err ErrPathCostOverflow =>
      ∀ path, snapshot_path snapshot path → MaxUint64 < path_cost path
  | Err _ => False
  end.
Proof.
  intros Hc Hends. unfold decide_plan.
  destruct found as [profile|]; cbn [Registry.Calibrated negb]; [|by cbn].
  destruct (Registry.Calibrated profile) eqn:Hcal; cbn [negb]; [|cbn; by rewrite Hcal].
  pose proof (@trustedPathStepCost_spec RE (snap_Edges snapshot)) as Hstep.
  destruct (trustedPathStepCost _) as [step|e] eqn:Ht; [|by destruct Hstep as [-> ?]].
  cbn [mbind res_mbind res_bind].
  destruct (directedReachability_spec snapshot) as (b & -> & Hb).
  destruct b.
  2: { split; [done|]. cbn. rewrite Hcal. split; [done|]. left. split_and!; try done.
       intros path Hp%snapshot_path_walk. discriminate (proj2 Hb (ex_intro _ path Hp)). }
  destruct (proj1 Hb eq_refl) as [p0 Hp0%snapshot_path_walk].
  pose proof (@shortestPath_sound RE snapshot Hc) as Hs.
  destruct (shortestPath _ _) as [[path cost]|[]]; try done; cbn [mbind res_mbind res_bind].
  2: by destruct (Hs p0).
  destruct Hs as (Hp & -> & Hmax & Hpref).
  destruct (uniform_steps snapshot step path Hc Hends Hstep Hp) as [Hpos Hpc].
  rewrite Hpc in Hmax.
  rewrite (proj2 (Z.eqb_neq step 0)) by lia.
  rewrite (proj2 (Z.ltb_ge _ _)) by (apply Z.div_le_lower_bound; lia).
  rewrite wrap64_small by (unfold u64; pose proof (zlen_nonneg path); nia).
  pose proof (right_path_decision snapshot profile path step) as Hright.
  destruct (Z.ltb_spec (Registry.DirectCost profile) (zlen path * step)) as [Hlt|Hge];
    [|destruct (existsb _ path)];
    (split; [done|by eapply Hright]).
Qed.

(** A plan whose numbers are machine integers and whose strings are shorter
    than four gigabytes. *)
Definition plan_in_range (plan : Plan) : Prop :=
  u64 plan.(plan_Attempt) ∧ u64 plan.(plan_PathStepCost) ∧ u64 (zlen plan.(plan_Hops)) ∧
  (∀ c, plan.(plan_PathCost) = Some c → u64 c) ∧ (∀ c, plan.(plan_DirectCost) = Some c → u64 c) ∧
  zlen (bytes_of_string plan.(plan_ProfileID)) < 2 ^ 32 ∧
  zlen (bytes_of_string plan.(plan_Type)) < 2 ^ 32 ∧
  zlen (bytes_of_string plan.(plan_FallbackReason)) < 2 ^ 32.

Lemma length_optional_word v : length (optional_word v) = 32%nat.
Proof.
  destruct v as [v|]; [|done]. cbn [optional_word length].
  by rewrite length_app, length_be_bytes, length_replicate.
Qed.

Lemma optional_word_inj v w :
  (∀ c, v = Some c → u64 c) → (∀ c, w = Some c → u64 c) →
  optional_word v = optional_word w → v = w.
Proof.
  intros Hv Hw H. destruct v as [v|], w as [w|]; try done. f_equal.
  specialize (Hv v eq_refl). specialize (Hw w eq_refl). unfold u64, MaxUint64 in *.
  apply (f_equal (drop 24)) in H.
  eapply (be_bytes_inj 8 v w); [| |exact H]; change (256 ^ Z.of_nat 8) with (2 ^ 64); lia.
Qed.

Lemma plan_encoding_inj p q :
  plan_in_range p → plan_in_range q → plan_encoding p = plan_encoding q →
  same_decision (set_plan_ID p (plan_ID q)) q.
Proof.
  intros (Ha & Hs & Hh & Hp & Hd & Hi & Ht & Hf) (Ha' & Hs' & Hh' & Hp' & Hd' & Hi' & Ht' & Hf') H.
  unfold plan_encoding, appendUint64Word in H.
  apply (inj (app _)) in H.
  apply app_inj_1 in H as [E1 H]; [|length_tac]. apply app_inj_1 in H as [E2 H]; [|length_tac].
  apply app_inj_1 in H as [E3 H]; [|length_tac].
  apply length_prefixed_inj in H as [E4 H]; [|done..].
  apply app_inj_1 in H as [E5 H]; [|length_tac].
  apply length_prefixed_inj in H as [E6 H]; [|done..].
  apply app_inj_1 in H as [E7 H]; [|length_tac]. apply app_inj_1 in H as [E8 H]; [|length_tac].
  apply app_inj_1 in H as [E9 H]; [|length_tac].
  apply vec_to_list_inj2, uint256FromUint64_inj in E9; [|done..].
  apply mjoin_vec_inj in H as [E10 H]; [|unfold zlen in E9; lia].
  apply app_inj_1 in H as [E11 H]; [|length_tac].
  apply app_inj_1 in H as [E12 H]; [|by rewrite !length_optional_word].
  apply app_inj_1 in H as [E13 H]; [|by rewrite !length_optional_word].
  apply (f_equal (λ l, l ++ [])), length_prefixed_inj in H as [E14 _]; [|done..].
  apply bytes_of_string_inj in E4, E6, E14. apply optional_word_inj in E12, E13; [|done..].
  apply vec_to_list_inj2 in E1, E3, E5, E7, E8.
  apply vec_to_list_inj2, uint256FromUint64_inj in E2, E11; [|done..].
  destruct p, q. unfold same_decision. cbn in *. by subst.
Qed.

Lemma check_snapshot_Ok {RE : Type} keccak256 request snapshot :
  @check_snapshot RE keccak256 request snapshot = Ok tt →
  snapshot.(StartNodeID) ≠ snapshot.(TargetNodeID) ∧
  snapshot.(Sealed) = true ∧
  snapshot.(snap_ID) = ComputeSnapshotID keccak256 request.(req_ID) request.(req_Attempt)
    snapshot.(snap_Revision) snapshot.(StartNodeID) snapshot.(TargetNodeID)
    snapshot.(HomeTrustRoot) ∧
  consistent_graph keccak256 snapshot.(snap_Nodes) snapshot.(snap_Edges) ∧
  ∃ start, findSnapshotNode snapshot snapshot.(StartNodeID) = Some start ∧
    start.(node_Key).(key_ChainID) = request.(req_HomeChainID) ∧
    start.(node_Root) = snapshot.(HomeTrustRoot).
Proof.
  unfold check_snapshot, snapshotHasNode. intros H. repeat (case_match; [done|]). bool_to_prop.
  destruct (findSnapshotNode snapshot (StartNodeID snapshot)) as [start|] eqn:Hstart; [|done].
  destruct (NewTrustView _ _ _ _) as [view|] eqn:Hview; [|done].
  apply NewTrustView_iff in Hview as (Hcons & _). repeat (case_match; [done|]).
  bool_to_prop. cbn in *. split_and!; try done. eauto.
Qed.

Section PlanningLemmas.
Context {S RE : Type} `{PR : !PlanRepository S RE}.

Lemma persist_Ok keccak256 decided (s : S) plan s' :
  persist keccak256 decided s = Ok (plan, s') →
  plan.(plan_ID) = ComputePlanID keccak256 plan ∧
  same_decision plan (set_plan_ID decided (ComputePlanID keccak256 decided)).
Proof.
  unfold persist. intros (s1 & Hsave%map_err_Ok & H)%bind_Ok.
  apply bind_Ok in H as (loaded & Hload%map_err_Ok & [= -> ->]).
  apply load_saved in Hsave as (p & Hp & Hsame). assert (p = plan) as -> by congruence.
  split; [|done]. rewrite Hsame. done.
Qed.

Lemma plan_for_same request snapshot p q id :
  same_decision p (set_plan_ID q id) → plan_for request snapshot q → plan_for request snapshot p.
Proof. unfold same_decision. by intros ->. Qed.

Lemma right_decision_same snapshot found p q id :
  same_decision p (set_plan_ID q id) →
  right_decision snapshot found q → right_decision snapshot found p.
Proof. unfold same_decision. by intros ->. Qed.
End PlanningLemmas.

(** ** Theorems *)

(** C24. Deterministic shortest path: on a snapshot whose step costs are
    uint64 values, the search ends within its fuel; a returned path leads from
    start to target, its cost is the sum of its steps without wrap-around, and
    no other path of the snapshot is preferred to it by (cost, hops, edge
    identifiers); the overflow error is returned only when the cost of every
    path exceeds the uint64 range, and the internal error only when there is
    no path at all. *)
Theorem shortestPath_spec {RE : Type} (snapshot : TrustViewSnapshot) :
  costs_in_range snapshot →
  match @shortestPath RE snapshot (build_adjacency snapshot.(snap_Edges)) with
  | Ok (path, cost) =>
      snapshot_path snapshot path ∧ cost = path_cost path ∧ cost ≤ MaxUint64 ∧
      ∀ other, snapshot_path snapshot other → preferred path other
  | Err ErrPathCostOverflow =>
      ∀ other, snapshot_path snapshot other → MaxUint64 < path_cost other
  | Err ErrPathDisappeared => ∀ other, ¬ snapshot_path snapshot other
  | Err _ => False
  end.
Proof. apply shortestPath_sound. Qed.

(** Three nodes, a direct edge and a detour of two cheaper edges. *)
Definition sample_step (id from to cost : Z) : TrustEdge :=
  mkTrustEdge (be_vec 32 id) (be_vec 32 from) (be_vec 32 to) (be_vec 32 (100 + id)) 0
    (Some (be_vec 32 (200 + id))) cost.

Definition sample_snapshot (detour : Z) : TrustViewSnapshot :=
  mkSnapshot (be_vec 32 50) 7 (be_vec 32 51) (be_vec 32 52) (be_vec 32 1) (be_vec 32 3) true []
    [sample_step 11 1 3 40; sample_step 12 1 2 detour; sample_step 13 2 3 detour].

Lemma sample_costs detour : 0 ≤ detour ≤ MaxUint64 → costs_in_range (sample_snapshot detour).
Proof. intros H. repeat constructor; cbn; unfold MaxUint64 in *; lia. Qed.

Lemma shortestPath_spec_witness :
  @shortestPath unit (sample_snapshot 15) (build_adjacency (sample_snapshot 15).(snap_Edges))
    = Ok ([sample_step 12 1 2 15; sample_step 13 2 3 15], 30) ∧
  ∀ other, snapshot_path (sample_snapshot 15) other →
    preferred [sample_step 12 1 2 15; sample_step 13 2 3 15] other.
Proof.
  pose proof (@shortestPath_spec unit (sample_snapshot 15)
    (sample_costs 15 ltac:(unfold MaxUint64; lia))) as H.
  assert (@shortestPath unit (sample_snapshot 15)
    (build_adjacency (sample_snapshot 15).(snap_Edges))
    = Ok ([sample_step 12 1 2 15; sample_step 13 2 3 15], 30)) as E by (vm_compute; reflexivity).
  rewrite E in H. exact (conj E (proj2 (proj2 (proj2 H)))).
Defined.

(** C23. The decision of [Plan]: on a snapshot with distinct endpoints and
    uint64 step costs, planning never loops, panics or reports the internal
    error.  The plan it decides on belongs to the request and the snapshot and
    is the right one: a direct plan when the profile is not calibrated or no
    path exists; otherwise the preferred path, taken when it costs at most the
    direct verification and every edge has a membership witness.  It fails
    only when the step costs are not one non-zero value, or when every path
    costs more than a uint64. *)
Theorem decide_plan_spec {RE : Type} (request : Request) (snapshot : TrustViewSnapshot)
    (found : option Registry.ValidatedDirectProfile) (now : Evidence.Time) :
  costs_in_range snapshot → snapshot.(StartNodeID) ≠ snapshot.(TargetNodeID) →
  match @decide_plan RE request snapshot found now with
  | Ok plan => plan_for request snapshot plan ∧ right_decision snapshot found plan
  | Err ErrInconsistentPathStepCost =>
      ¬ ∃ c, c ≠ 0 ∧ ∀ e, e ∈ snapshot.(snap_Edges) → e.(PathStepCost) = c
  | Err ErrPathCostOverflow =>
      ∀ path, snapshot_path snapshot path → MaxUint64 < path_cost path
  | Err _ => False
  end.
Proof. apply decide_plan_sound. Qed.

Definition sample_planner_request : Request :=
  mkRequest (be_vec 32 60) 1 (be_vec 32 50) (be_vec 32 51).

Definition sample_calibrated : Registry.ValidatedDirectProfile :=
  Registry.mkValidatedProfile "profile" (be_vec 32 61) 100 true.

Lemma decide_plan_spec_witness :
  ∃ plan, @decide_plan unit sample_planner_request (sample_snapshot 40) (Some sample_calibrated)
            (Some 9) = Ok plan ∧
    plan.(plan_Type) = PathPlan ∧ right_decision (sample_snapshot 40) (Some sample_calibrated) plan.
Proof.
  pose proof (@decide_plan_spec unit sample_planner_request (sample_snapshot 40)
    (Some sample_calibrated) (Some 9) (sample_costs 40 ltac:(unfold MaxUint64; lia))
    (bool_decide_eq_false_1 (be_vec 32 1 = be_vec 32 3) eq_refl)) as H.
  assert (match @decide_plan unit sample_planner_request (sample_snapshot 40)
                  (Some sample_calibrated) (Some 9) with
          | Ok plan => plan.(plan_Type) =?= PathPlan | Err _ => false end = true) as Ht
    by (vm_compute; reflexivity).
  destruct (decide_plan _ _ _ _) as [plan|]; [|discriminate Ht].
  exists plan. exact (conj eq_refl (conj (bool_decide_eq_true_1 _ Ht) (proj2 H))).
Defined.

(** The identifier of a plan determines the decision: two plans with the
    same identifier agree on everything but their creation time, unless keccak
    collides on their two encodings. *)
Theorem ComputePlanID_binding (keccak256 : bytes → Hash) (p q : Plan) :
  plan_in_range p → plan_in_range q →
  ComputePlanID keccak256 p = ComputePlanID keccak256 q →
  same_decision (set_plan_ID p (plan_ID q)) q ∨
  (plan_encoding p ≠ plan_encoding q ∧
   keccak256 (plan_encoding p) = keccak256 (plan_encoding q)).
Proof.
  intros Hp Hq H. destruct (decide (plan_encoding p = plan_encoding q)) as [He|He].
  - left. by apply plan_encoding_inj.
  - by right.
Qed.

Definition sample_plan (at_ : Evidence.Time) : Plan :=
  mkPlan (be_vec 32 1) (be_vec 32 60) 1 (be_vec 32 50) "profile" (be_vec 32 61) PathPlan
    (be_vec 32 1) (be_vec 32 3) [be_vec 32 11] 40 (Some 40) (Some 100) "" at_.

Lemma sample_plan_range at_ : plan_in_range (sample_plan at_).
Proof.
  assert (∀ z, bool_decide (0 ≤ z ≤ MaxUint64) = true → u64 z) as Hu
    by (intros z Hz; by apply bool_decide_eq_true in Hz).
  unfold plan_in_range, sample_plan. cbn [plan_Attempt plan_PathStepCost plan_Hops plan_PathCost
    plan_DirectCost plan_ProfileID plan_Type plan_FallbackReason].
  split; [by apply Hu|]. split; [by apply Hu|]. split; [by apply Hu|].
  split; [intros c [= <-]; by apply Hu|]. split; [intros c [= <-]; by apply Hu|]. done.
Qed.

Lemma ComputePlanID_binding_witness :
  same_decision (set_plan_ID (sample_plan (Some 9)) (be_vec 32 1)) (sample_plan (Some 77)) ∨
  (plan_encoding (sample_plan (Some 9)) ≠ plan_encoding (sample_plan (Some 77)) ∧
   sample_hash (plan_encoding (sample_plan (Some 9)))
   = sample_hash (plan_encoding (sample_plan (Some 77)))).
Proof.
  exact (ComputePlanID_binding sample_hash (sample_plan (Some 9)) (sample_plan (Some 77))
    (sample_plan_range _) (sample_plan_range _) eq_refl).
Defined.

(** C22. [Plan] end to end, against any plan repository: a returned plan was
    decided on the sealed snapshot the request names, that snapshot is a
    consistent graph whose start node carries the expected home root, and the
    plan read back from the repository is the right decision under its content
    address. *)
Theorem Planner_Plan_spec {S RE : Type} `{PR : !PlanRepository S RE}
    (keccak256 : bytes → Hash) (snapshots : SnapshotID → res RE TrustViewSnapshot)
    (profiles : ChainID → option Registry.ValidatedDirectProfile) (now : Evidence.Time)
    (request : Request) (s s' : S) (plan : Plan) snapshot :
  snapshots request.(req_SnapshotID) = Ok snapshot → costs_in_range snapshot →
  Planner_Plan keccak256 snapshots profiles now request s = Ok (plan, s') →
  plan_for request snapshot plan ∧
  right_decision snapshot (profiles request.(req_HomeChainID)) plan ∧
  plan.(plan_ID) = ComputePlanID keccak256 plan ∧
  snapshot.(Sealed) = true ∧
  snapshot.(snap_ID) = ComputeSnapshotID keccak256 request.(req_ID) request.(req_Attempt)
    snapshot.(snap_Revision) snapshot.(StartNodeID) snapshot.(TargetNodeID)
    snapshot.(HomeTrustRoot) ∧
  consistent_graph keccak256 snapshot.(snap_Nodes) snapshot.(snap_Edges) ∧
  ∃ start, findSnapshotNode snapshot snapshot.(StartNodeID) = Some start ∧
    start.(node_Key).(key_ChainID) = request.(req_HomeChainID) ∧
    start.(node_Root) = snapshot.(HomeTrustRoot).
Proof.
  intros Hload Hc. unfold Planner_Plan. rewrite Hload. cbn.
  intros ([] & Hcheck & H)%bind_Ok. apply bind_Ok in H as (decided & Hdec & H).
  apply check_snapshot_Ok in Hcheck as (Hends & Hrest).
  pose proof (@decide_plan_sound RE request snapshot (profiles (req_HomeChainID request)) now Hc Hends) as Hspec.
  rewrite Hdec in Hspec. destruct Hspec as [Hfor Hright].
  apply persist_Ok in H as (HID & Hsame).
  split_and!; [by eapply plan_for_same|by eapply right_decision_same|done|tauto..].
Qed.

End Planner.
