(* ===== verification/PathProof.v ===== *)
(** * Mapnode/proof: assembling the recursive PathProof

    builder.go, path_proof.go and path_proof_material.go.  The repository is
    the interface [ProofRepository]: the builder trusts none of what it loads,
    so the interface has no laws.  [Clone] copies slices, which values do. *)

From S2P Require Import Prelude Domain Merkle Evidence TrustView Registry Planner.
Import Domain.

Module PathProof.
Import TrustView Planner.

Abbreviation PathProofID := bytes32.

(** Errors of the repository are a parameter [RE]. *)
Inductive error (RE : Type) :=
| ErrPathProofIDMismatch
| ErrProofMaterialMissing
| ErrStaleTrustViewSnapshot
| ErrSourceBlockHashMismatch
| ErrRepository (e : RE).
Arguments ErrPathProofIDMismatch {RE}.
Arguments ErrProofMaterialMissing {RE}.
Arguments ErrStaleTrustViewSnapshot {RE}.
Arguments ErrSourceBlockHashMismatch {RE}.
Arguments ErrRepository {RE} e.

Record PathProofHop := mkHop {
  hop_PlanHopIndex : Z;
  hop_EdgeID : EdgeID;
  hop_ToNodeID : NodeID;
  hop_BlockHash : Hash;
  hop_WitnessID : WitnessID
}.

#[export] Instance PathProofHop_eq_dec : EqDecision PathProofHop.
Proof. solve_decision. Defined.

Record PathProof := mkPathProof {
  proof_ID : PathProofID;
  proof_RequestID : RequestID;
  proof_PlanID : PlanID;
  proof_SnapshotID : SnapshotID;
  BaseTrustRoot : TrustRoot;
  BlockHashes : list Hash;
  Witnesses : list Domain.MembershipWitness;
  proof_Hops : list PathProofHop;
  proof_CreatedAt : Evidence.Time
}.

#[export] Instance PathProof_eq_dec : EqDecision PathProof.
Proof. solve_decision. Defined.

Record PathProofMaterial := mkMaterial {
  mat_PlanID : PlanID;
  mat_SnapshotID : SnapshotID;
  mat_PlanHopIndex : Z;
  mat_Edge : TrustEdge;
  mat_FromNode : TrustNode;
  mat_ToNode : TrustNode;
  mat_Witness : TrustView.MembershipWitness
}.

#[export] Instance PathProofMaterial_eq_dec : EqDecision PathProofMaterial.
Proof. solve_decision. Defined.

Record BuildRequest := mkBuildRequest {
  build_PlanID : PlanID;
  SourceBlockHash : Hash;
  ExpectedHomeTrustRoot : TrustRoot
}.

(** ** The content address of a PathProof *)

Definition proof_tag : bytes := bytes_of_string "TrustMap/PathProof/ID/v1".

Definition proof_witness_encoding (witness : Domain.MembershipWitness) : bytes :=
  appendUint64Word witness.(LeafIndex) ++ appendUint64Word (zlen witness.(Siblings))
    ++ mjoin (vec_to_list <$> witness.(Siblings)).

Definition hop_encoding (hop : PathProofHop) : bytes :=
  appendUint64Word hop.(hop_PlanHopIndex) ++ hop.(hop_EdgeID) ++ hop.(hop_ToNodeID)
    ++ hop.(hop_BlockHash) ++ hop.(hop_WitnessID).

Definition proof_encoding (value : PathProof) : bytes :=
  length_prefixed proof_tag ++ value.(proof_RequestID) ++ value.(proof_PlanID)
    ++ value.(proof_SnapshotID) ++ value.(BaseTrustRoot)
    ++ appendUint64Word (zlen value.(BlockHashes))
    ++ mjoin (vec_to_list <$> value.(BlockHashes))
    ++ appendUint64Word (zlen value.(Witnesses))
    ++ mjoin (proof_witness_encoding <$> value.(Witnesses))
    ++ appendUint64Word (zlen value.(proof_Hops))
    ++ mjoin (hop_encoding <$> value.(proof_Hops)).

Definition ComputePathProofID (keccak256 : bytes → Hash) (value : PathProof) : PathProofID :=
  keccak256 (proof_encoding value).

(** ** The builder *)

Class ProofRepository (S RE : Type) := {
  LoadPathPlan : PlanID → S → res RE Plan;
  LoadTrustViewSnapshot : SnapshotID → S → res RE TrustViewSnapshot;
  LoadPathProofMaterial : PlanID → SnapshotID → Z → EdgeID → S → res RE PathProofMaterial;
  SavePathProof : PathProof → S → res RE S;
  LoadPathProof : PathProofID → S → res RE PathProof;
  (** [errors.Is(err, ErrProofMaterialMissing)] *)
  is_missing : RE → bool;
}.

Definition findNode (snapshot : TrustViewSnapshot) (id : NodeID) : option TrustNode :=
  findSnapshotNode snapshot id.

Definition sameEdge (left right : TrustEdge) : bool :=
  if (left.(edge_ID) ≠?= right.(edge_ID)) || (left.(edge_From) ≠?= right.(edge_From))
     || (left.(edge_To) ≠?= right.(edge_To)) || (left.(edge_EvidenceID) ≠?= right.(edge_EvidenceID))
     || negb (left.(edge_LeafIndex) =? right.(edge_LeafIndex))
     || negb (left.(PathStepCost) =? right.(PathStepCost))
  then false
  else sameWitness left.(edge_WitnessID) right.(edge_WitnessID).

(** The loop over the snapshot's edges stops at the first with this ID. *)
Fixpoint snapshot_has_edge (edges : list TrustEdge) (edgeID : EdgeID) (edge : TrustEdge) : bool :=
  match edges with
  | [] => false
  | e :: rest =>
      if e.(edge_ID) =?= edgeID then sameEdge e edge else snapshot_has_edge rest edgeID edge
  end.

Definition same_witness_list (left right : list Domain.MembershipWitness) (index : nat) : bool :=
  match left !! index, right !! index with
  | Some l, Some r =>
      (l.(LeafIndex) =? r.(LeafIndex)) && (zlen l.(Siblings) =? zlen r.(Siblings))
      && forallb (λ i, l.(Siblings) !! i =?= r.(Siblings) !! i) (seq 0 (length l.(Siblings)))
  | _, _ => false
  end.

Definition samePathProof (left right : PathProof) : bool :=
  if (left.(proof_ID) ≠?= right.(proof_ID)) || (left.(proof_RequestID) ≠?= right.(proof_RequestID))
     || (left.(proof_PlanID) ≠?= right.(proof_PlanID))
     || (left.(proof_SnapshotID) ≠?= right.(proof_SnapshotID))
     || (left.(BaseTrustRoot) ≠?= right.(BaseTrustRoot))
     || negb (zlen left.(BlockHashes) =? zlen right.(BlockHashes))
     || negb (zlen left.(Witnesses) =? zlen right.(Witnesses))
     || negb (zlen left.(proof_Hops) =? zlen right.(proof_Hops))
  then false
  else forallb (λ index,
         (left.(BlockHashes) !! index =?= right.(BlockHashes) !! index)
         && (left.(proof_Hops) !! index =?= right.(proof_Hops) !! index)
         && same_witness_list left.(Witnesses) right.(Witnesses) index)
       (seq 0 (length left.(BlockHashes))).

Section Building.
Context {S RE : Type} `{PR : !ProofRepository S RE}.
Context (keccak256 : bytes → Hash).

Definition validMaterial (plan : Plan) (snapshot : TrustViewSnapshot) (index : Z)
    (edgeID : EdgeID) (expectedFrom : NodeID) (material : PathProofMaterial) : bool :=
  let edge := material.(mat_Edge) in
  let witness := material.(mat_Witness) in
  if (material.(mat_PlanID) ≠?= plan.(plan_ID))
     || (material.(mat_SnapshotID) ≠?= snapshot.(snap_ID))
     || negb (material.(mat_PlanHopIndex) =? index) || (edge.(edge_ID) ≠?= edgeID)
     || (edge.(edge_From) ≠?= expectedFrom)
     || (material.(mat_FromNode).(node_ID) ≠?= edge.(edge_From))
     || (material.(mat_ToNode).(node_ID) ≠?= edge.(edge_To))
     || (edge.(edge_EvidenceID) ≠?= witness.(witness_EvidenceID))
     || negb (edge.(edge_LeafIndex) =? witness.(witness_LeafIndex))
     || match edge.(edge_WitnessID) with
        | None => true
        | Some id => id ≠?= witness.(witness_ID)
        end
     || (witness.(witness_ID) ≠?=
           (TrustView.NewMembershipWitness keccak256 witness.(witness_EvidenceID)
              witness.(witness_LeafIndex) witness.(witness_Siblings)).(witness_ID))
  then false
  else
    match findNode snapshot material.(mat_FromNode).(node_ID),
          findNode snapshot material.(mat_ToNode).(node_ID) with
    | Some from, Some to =>
        if (from ≠?= material.(mat_FromNode)) || (to ≠?= material.(mat_ToNode)) then false
        else snapshot_has_edge snapshot.(snap_Edges) edgeID edge
    | _, _ => false
    end.

(** The first loop of [Build]: the materials in plan order and the node
    reached. *)
Fixpoint load_materials (plan : Plan) (snapshot : TrustViewSnapshot) (s : S)
    (hops : list EdgeID) (index : Z) (expectedFrom : NodeID)
    : res (error RE) (list PathProofMaterial * NodeID) :=
  match hops with
  | [] => Ok ([], expectedFrom)
  | edgeID :: rest =>
      match LoadPathProofMaterial plan.(plan_ID) snapshot.(snap_ID) index edgeID s with
      | Err e => if is_missing e then Err ErrProofMaterialMissing else Err (ErrRepository e)
      | Ok material =>
          if negb (validMaterial plan snapshot index edgeID expectedFrom material)
          then Err ErrProofMaterialMissing
          else
            '(materials, last) ← load_materials plan snapshot s rest (index + 1)
                                   material.(mat_ToNode).(node_ID);
            Ok (material :: materials, last)
      end
  end.

(** The second loop of [Build], over the materials from the last one down. *)
Fixpoint assemble (reversed : list (Z * PathProofMaterial))
    : res (error RE) (list Hash * list Domain.MembershipWitness * list PathProofHop) :=
  match reversed with
  | [] => Ok ([], [], [])
  | (planIndex, material) :: rest =>
      match Domain.NewMembershipWitness material.(mat_Witness).(witness_LeafIndex)
              material.(mat_Witness).(witness_Siblings) with
      | Err _ => Err ErrProofMaterialMissing
      | Ok witness =>
          '(hashes, witnesses, hops) ← assemble rest;
          Ok (material.(mat_ToNode).(node_Key).(key_BlockHash) :: hashes, witness :: witnesses,
              mkHop planIndex material.(mat_Edge).(edge_ID) material.(mat_ToNode).(node_ID)
                material.(mat_ToNode).(node_Key).(key_BlockHash)
                material.(mat_Witness).(witness_ID) :: hops)
      end
  end.

Definition indexed {A} (l : list A) : list (Z * A) :=
  zip (Z.of_nat <$> seq 0 (length l)) l.

Definition Build (pathTreeDepth : Z) (now : Evidence.Time) (request : BuildRequest) (s : S)
    : res (error RE) (PathProof * S) :=
  plan ← map_err ErrRepository (LoadPathPlan request.(build_PlanID) s);
  if (plan.(plan_ID) ≠?= request.(build_PlanID))
     || (plan.(plan_ID) ≠?= ComputePlanID keccak256 plan)
     || (plan.(plan_Type) ≠?= PathPlan) || (zlen plan.(plan_Hops) =? 0)
  then Err ErrProofMaterialMissing
  else
    snapshot ← map_err ErrRepository (LoadTrustViewSnapshot plan.(plan_SnapshotID) s);
    if (snapshot.(snap_ID) ≠?= plan.(plan_SnapshotID)) || negb snapshot.(Sealed)
       || (snapshot.(StartNodeID) ≠?= plan.(plan_HomeNodeID))
       || (snapshot.(TargetNodeID) ≠?= plan.(plan_TargetNodeID))
    then Err ErrProofMaterialMissing
    else if snapshot.(HomeTrustRoot) ≠?= request.(ExpectedHomeTrustRoot)
    then Err ErrStaleTrustViewSnapshot
    else
      match findNode snapshot snapshot.(TargetNodeID) with
      | None => Err ErrProofMaterialMissing
      | Some target =>
          if target.(node_Key).(key_BlockHash) ≠?= request.(SourceBlockHash)
          then Err ErrSourceBlockHashMismatch
          else
            '(materials, last) ← load_materials plan snapshot s plan.(plan_Hops) 0
                                   snapshot.(StartNodeID);
            if last ≠?= snapshot.(TargetNodeID) then Err ErrProofMaterialMissing
            else
              '(hashes, witnesses, hops) ← assemble (reverse (indexed materials));
              let result := mkPathProof zero32 plan.(plan_RequestID) plan.(plan_ID)
                snapshot.(snap_ID) target.(node_Root) hashes witnesses hops now in
              if hashes !! 0%nat ≠?= Some request.(SourceBlockHash)
              then Err ErrSourceBlockHashMismatch
              else
                match Merkle.VerifyPath keccak256 result.(BaseTrustRoot) hashes witnesses
                        request.(ExpectedHomeTrustRoot) pathTreeDepth with
                | Err _ => Err ErrProofMaterialMissing
                | Ok _ =>
                    let result := mkPathProof (ComputePathProofID keccak256 result)
                      plan.(plan_RequestID) plan.(plan_ID) snapshot.(snap_ID)
                      target.(node_Root) hashes witnesses hops now in
                    s' ← map_err ErrRepository (SavePathProof result s);
                    persisted ← map_err ErrRepository (LoadPathProof result.(proof_ID) s');
                    if (persisted.(proof_ID) ≠?= ComputePathProofID keccak256 persisted)
                       || negb (samePathProof result persisted)
                    then Err ErrPathProofIDMismatch
                    else Ok (persisted, s')
                end
      end.
End Building.

(** ** Lemmas *)

Lemma sameEdge_eq l r : sameEdge l r = true → l = r.
Proof.
  unfold sameEdge. case_match eqn:Hc; [done|]. rewrite sameWitness_spec. bool_to_prop.
  destruct l, r; cbn in *. congruence.
Qed.

Lemma snapshot_has_edge_in edges id edge :
  snapshot_has_edge edges id edge = true → edge ∈ edges.
Proof.
  induction edges as [|e edges IH]; cbn; [done|]. case_bool_decide.
  - intros ->%sameEdge_eq. by left.
  - intros Hin%IH. by right.
Qed.

(** Lists that agree at every index below the common length. *)
Lemma lookup_forallb_eq `{EqDecision A} (l k : list A) :
  length l = length k →
  forallb (λ i, l !! i =?= k !! i) (seq 0 (length l)) = true → l = k.
Proof.
  intros Hlen Hf. rewrite forallb_forall in Hf. apply list_eq. intros i.
  destruct (decide (i < length l)%nat) as [Hi|Hi].
  - specialize (Hf i). rewrite bool_decide_eq_true in Hf. apply Hf, in_seq. lia.
  - rewrite !lookup_ge_None_2 by lia. done.
Qed.

Definition set_created (value : PathProof) (at_ : Evidence.Time) : PathProof :=
  mkPathProof value.(proof_ID) value.(proof_RequestID) value.(proof_PlanID)
    value.(proof_SnapshotID) value.(BaseTrustRoot) value.(BlockHashes) value.(Witnesses)
    value.(proof_Hops) at_.

(** On proofs whose three lists have one length, [samePathProof] is equality
    of everything but the creation time. *)
Lemma samePathProof_eq l r :
  length l.(Witnesses) = length l.(BlockHashes) →
  length l.(proof_Hops) = length l.(BlockHashes) →
  samePathProof l r = true → r = set_created l r.(proof_CreatedAt).
Proof.
  intros Hw Hh. unfold samePathProof, zlen. case_match eqn:Hc; [done|]. bool_to_prop.
  intros Hf. rewrite forallb_forall in Hf.
  assert (∀ i, (i < length (BlockHashes l))%nat →
    BlockHashes l !! i = BlockHashes r !! i ∧ proof_Hops l !! i = proof_Hops r !! i ∧
    Witnesses l !! i = Witnesses r !! i) as Hi.
  { intros i Hi. specialize (Hf i ltac:(apply in_seq; lia)). bool_to_prop.
    split_and!; try done. unfold same_witness_list in *.
    destruct (Witnesses l !! i) as [[li ls]|], (Witnesses r !! i) as [[ri rs]|]; try done.
    bool_to_prop. cbn in *. subst.
    match goal with H : forallb _ _ = true |- _ => apply lookup_forallb_eq in H as -> end;
      [done|unfold zlen in *; lia]. }
  destruct l as [i1 q1 p1 s1 b1 bh1 w1 h1 c1], r as [i2 q2 p2 s2 b2 bh2 w2 h2 c2].
  unfold set_created. cbn in *. subst.
  assert (∀ {A} (x y : list A), length x = length bh1 → length y = length bh1 →
    (∀ i, (i < length bh1)%nat → x !! i = y !! i) → y = x) as Hext.
  { intros A x y Hx Hy Heq. apply list_eq. intros i.
    destruct (decide (i < length bh1)%nat); [by rewrite Heq|].
    rewrite !lookup_ge_None_2 by lia. done. }
  rewrite (Hext _ bh1 bh2), (Hext _ w1 w2), (Hext _ h1 h2); try done; try lia;
    intros i Hi'; by destruct (Hi i Hi') as (?&?&?).
Qed.

Section BuildLemmas.
Context {S RE : Type} `{PR : !ProofRepository S RE}.
Context (keccak256 : bytes → Hash).

Abbreviation edges_from snapshot :=
  (λ n : NodeID, filter (λ e : TrustEdge, e.(edge_From) = n) snapshot.(snap_Edges)).

Lemma validMaterial_spec plan snapshot index edgeID from material :
  validMaterial keccak256 plan snapshot index edgeID from material = true →
  material.(mat_Edge).(edge_ID) = edgeID ∧ material.(mat_Edge).(edge_From) = from ∧
  material.(mat_ToNode).(node_ID) = material.(mat_Edge).(edge_To) ∧
  material.(mat_Edge) ∈ snapshot.(snap_Edges) ∧
  findNode snapshot material.(mat_ToNode).(node_ID) = Some material.(mat_ToNode).
Proof.
  unfold validMaterial. case_match eqn:Hc; [done|].
  destruct (findNode _ _) as [f|]; [|done].
  destruct (findNode snapshot (node_ID (mat_ToNode material))) as [t|] eqn:Ht; [|done].
  destruct ((f ≠?= _) || _) eqn:Hn; [done|]. intros H%snapshot_has_edge_in. bool_to_prop.
  split_and!; congruence || done.
Qed.

Lemma load_materials_spec plan snapshot s hops : ∀ index from materials last,
  load_materials keccak256 plan snapshot s hops index from = Ok (materials, last) →
  walk (edges_from snapshot) from (mat_Edge <$> materials) last ∧
  edge_ID <$> (mat_Edge <$> materials) = hops ∧
  Forall (λ m, findNode snapshot m.(mat_Edge).(edge_To) = Some m.(mat_ToNode)) materials.
Proof.
  induction hops as [|id hops IH]; intros index from materials last H; cbn in H.
  - injection H as <- <-. done.
  - destruct (LoadPathProofMaterial _ _ _ _ _) as [m|e]; [|by destruct (is_missing e)].
    destruct (validMaterial _ _ _ _ _ _ _) eqn:Hv; [|done]. cbn in H.
    apply bind_Ok in H as ([ms l] & Hl & [= <- <-]).
    apply validMaterial_spec in Hv as (Hid & Hfrom & Hto & Hin & Hnode).
    apply IH in Hl as (Hw & Hids & Hall). cbn. split_and!.
    + by apply list_elem_of_filter.
    + by rewrite <-Hto.
    + by rewrite Hid, Hids.
    + constructor; [by rewrite <-Hto|done].
Qed.

Lemma assemble_spec reversed hashes witnesses hops :
  @assemble RE reversed = Ok (hashes, witnesses, hops) →
  hashes = (λ p, p.2.(mat_ToNode).(node_Key).(key_BlockHash)) <$> reversed ∧
  length witnesses = length reversed ∧
  hops = (λ p, mkHop p.1 p.2.(mat_Edge).(edge_ID) p.2.(mat_ToNode).(node_ID)
                 p.2.(mat_ToNode).(node_Key).(key_BlockHash)
                 p.2.(mat_Witness).(witness_ID)) <$> reversed.
Proof.
  revert hashes witnesses hops. induction reversed as [|[i m] rest IH]; intros hashes ws hops H.
  - by injection H as <- <- <-.
  - cbn in H. destruct (Domain.NewMembershipWitness _ _) as [w|]; [|done].
    apply bind_Ok in H as ([[hs ws'] hops'] & Hr & [= <- <- <-]).
    destruct (IH _ _ _ Hr) as (-> & Hl & ->). cbn. by rewrite Hl.
Qed.

Lemma indexed_snd {A} (l : list A) : (indexed l).*2 = l.
Proof. unfold indexed. apply snd_zip. by rewrite length_fmap, length_seq. Qed.

Lemma indexed_fst {A} (l : list A) : (indexed l).*1 = Z.of_nat <$> seq 0 (length l).
Proof. unfold indexed. apply fst_zip. by rewrite length_fmap, length_seq. Qed.
End BuildLemmas.

(** The proof is the inverse of the plan: hops from the target back to the
    home node, each with its index in the plan. *)
Definition inverts_plan (plan : Plan) (value : PathProof) : Prop :=
  hop_EdgeID <$> value.(proof_Hops) = reverse plan.(plan_Hops) ∧
  hop_PlanHopIndex <$> value.(proof_Hops)
    = reverse (Z.of_nat <$> seq 0 (length plan.(plan_Hops))) ∧
  value.(BlockHashes) = hop_BlockHash <$> value.(proof_Hops) ∧
  length value.(Witnesses) = length value.(BlockHashes).

Lemma assemble_inverts {RE : Type} plan materials hashes witnesses hops id rid pid sid base at_ :
  edge_ID <$> (mat_Edge <$> materials) = plan.(plan_Hops) →
  @assemble RE (reverse (indexed materials)) = Ok (hashes, witnesses, hops) →
  inverts_plan plan (mkPathProof id rid pid sid base hashes witnesses hops at_).
Proof.
  intros Hids (-> & Hl & ->)%assemble_spec. unfold inverts_plan. cbn.
  rewrite <-!list_fmap_compose, length_fmap, Hl.
  assert (length materials = length plan.(plan_Hops)) as Hlen by (by rewrite <-Hids, !length_fmap).
  split_and!; [| |done|done].
  - rewrite <-Hids, <-!list_fmap_compose, fmap_reverse. f_equal.
    rewrite <-(indexed_snd materials) at 2. by rewrite <-list_fmap_compose.
  - rewrite fmap_reverse. f_equal. rewrite <-Hlen. apply indexed_fst.
Qed.

Lemma Build_sound {S RE : Type} `{PR : !ProofRepository S RE} (keccak256 : bytes → Hash)
    (depth : Z) (now : Evidence.Time) (request : BuildRequest) (s s' : S) (value : PathProof) :
  Build keccak256 depth now request s = Ok (value, s') →
  ∃ plan snapshot path target,
    LoadPathPlan request.(build_PlanID) s = Ok plan ∧
    LoadTrustViewSnapshot plan.(plan_SnapshotID) s = Ok snapshot ∧
    plan.(plan_ID) = ComputePlanID keccak256 plan ∧ plan.(plan_Type) = PathPlan ∧
    snapshot.(Sealed) = true ∧ snapshot.(HomeTrustRoot) = request.(ExpectedHomeTrustRoot) ∧
    snapshot_path snapshot path ∧ edge_ID <$> path = plan.(plan_Hops) ∧
    findNode snapshot snapshot.(TargetNodeID) = Some target ∧
    value.(proof_RequestID) = plan.(plan_RequestID) ∧
    value.(proof_PlanID) = request.(build_PlanID) ∧
    value.(proof_SnapshotID) = snapshot.(snap_ID) ∧
    value.(BaseTrustRoot) = target.(node_Root) ∧
    inverts_plan plan value ∧
    value.(BlockHashes) !! 0%nat = Some request.(SourceBlockHash) ∧
    value.(proof_ID) = ComputePathProofID keccak256 value ∧
    Merkle.VerifyPath keccak256 value.(BaseTrustRoot) value.(BlockHashes) value.(Witnesses)
      request.(ExpectedHomeTrustRoot) depth = Ok tt.
Proof.
  unfold Build. intros (plan & Hplan%map_err_Ok & H)%bind_Ok.
  destruct (_ || _ || _ || _) eqn:Hc1; [done|].
  apply bind_Ok in H as (snapshot & Hsnap%map_err_Ok & H).
  destruct (_ || _ || _ || _) eqn:Hc2 in H; [done|].
  destruct (_ ≠?= _) eqn:Hc3 in H; [done|].
  destruct (findNode snapshot (TargetNodeID snapshot)) as [target|] eqn:Ht; [|done].
  destruct (_ ≠?= _) eqn:Hc4 in H; [done|].
  apply bind_Ok in H as ([materials last] & Hmat & H).
  destruct (_ ≠?= _) eqn:Hc5 in H; [done|].
  apply bind_Ok in H as ([[hashes witnesses] hops] & Has & H).
  destruct (_ ≠?= _) eqn:Hc6 in H; [done|]. cbn [BaseTrustRoot] in H.
  destruct (Merkle.VerifyPath _ _ _ _ _ _) as [[]|] eqn:Hv; [|done].
  apply bind_Ok in H as (s1 & _ & H). apply bind_Ok in H as (persisted & _ & H).
  destruct (_ || _) eqn:Hc7 in H; [done|]. injection H as <- <-. bool_to_prop.
  apply load_materials_spec in Hmat as (Hw & Hids & _). subst last.
  pose proof (assemble_inverts plan materials hashes witnesses hops
    (ComputePathProofID keccak256 (mkPathProof zero32 plan.(plan_RequestID) plan.(plan_ID)
       snapshot.(snap_ID) target.(node_Root) hashes witnesses hops now))
    plan.(plan_RequestID) plan.(plan_ID) snapshot.(snap_ID) target.(node_Root) now Hids Has) as Hinv.
  match goal with H : samePathProof ?r _ = true |- _ =>
    apply samePathProof_eq in H; [|apply Hinv|] end.
  2: { destruct Hinv as (_ & _ & Hb & _). cbn in *. by rewrite Hb, length_fmap. }
  match goal with H : persisted = _ |- _ => rename H into Hp end.
  exists plan, snapshot, (mat_Edge <$> materials), target.
  rewrite Hp. unfold set_created. cbn in *.
  split_and!; congruence || done.
Qed.

(** ** Theorems *)

(** C17. What [Build] returns is a PathProof of the planned path: the plan is
    content-addressed and follows a path of its sealed snapshot from the home
    node to the target; the proof lists that path backwards, starts at the
    requested source block, is bound to the request, plan and snapshot under
    its own content address, and verifies against the expected home TrustRoot.
    No property of the repository is used. *)
Theorem Build_spec {S RE : Type} `{PR : !ProofRepository S RE} (keccak256 : bytes → Hash)
    (depth : Z) (now : Evidence.Time) (request : BuildRequest) (s s' : S) (value : PathProof) :
  Build keccak256 depth now request s = Ok (value, s') →
  ∃ plan snapshot path target,
    LoadPathPlan request.(build_PlanID) s = Ok plan ∧
    LoadTrustViewSnapshot plan.(plan_SnapshotID) s = Ok snapshot ∧
    plan.(plan_ID) = ComputePlanID keccak256 plan ∧ plan.(plan_Type) = PathPlan ∧
    snapshot.(Sealed) = true ∧ snapshot.(HomeTrustRoot) = request.(ExpectedHomeTrustRoot) ∧
    snapshot_path snapshot path ∧ edge_ID <$> path = plan.(plan_Hops) ∧
    findNode snapshot snapshot.(TargetNodeID) = Some target ∧
    value.(proof_RequestID) = plan.(plan_RequestID) ∧
    value.(proof_PlanID) = request.(build_PlanID) ∧
    value.(proof_SnapshotID) = snapshot.(snap_ID) ∧
    value.(BaseTrustRoot) = target.(node_Root) ∧
    inverts_plan plan value ∧
    value.(BlockHashes) !! 0%nat = Some request.(SourceBlockHash) ∧
    value.(proof_ID) = ComputePathProofID keccak256 value ∧
    Merkle.VerifyPath keccak256 value.(BaseTrustRoot) value.(BlockHashes) value.(Witnesses)
      request.(ExpectedHomeTrustRoot) depth = Ok tt.
Proof. apply Build_sound. Qed.

End PathProof.
