(* ===== verification/Coordinator.v ===== *)
(** * Mapnode/coordinator: the durable request state machine

    state.go ([RequestState], [ValidateTransition]) and coordinator.go
    ([Process]).  The repositories and services [Process] composes are the
    interface [Services] over a database state [S]; its laws say what each of
    them leaves in the database, and Store.v discharges them.

    [Process] runs in a small monad that threads the database and records
    every state it passes through: those are the states in which a crash can
    leave the process. *)

From S2P Require Import Prelude Domain Evidence TrustView Registry Planner PathProof.
Import Domain.

Module Coordinator.

(** ** Request states (state.go) *)

Abbreviation RequestState := string.

Definition Observed : RequestState := "observed".
Definition EvidenceReady : RequestState := "evidence_ready".
Definition Planned : RequestState := "planned".
Definition ProofReady : RequestState := "proof_ready".
Definition Rejected : RequestState := "rejected".
Definition Retryable : RequestState := "retryable".
Definition Replanned : RequestState := "replanned".
Definition DirectFallback : RequestState := "direct_fallback".

Inductive state_error := ErrInvalidRequestState | ErrInvalidRequestTransition.

#[export] Instance state_error_eq_dec : EqDecision state_error.
Proof. solve_decision. Defined.

Definition AllRequestStates : list RequestState :=
  [Observed; EvidenceReady; Planned; ProofReady; Rejected; Retryable; Replanned; DirectFallback].

Definition RequestState_Validate (state : RequestState) : res state_error unit :=
  if (state =?= Observed) || (state =?= EvidenceReady) || (state =?= Planned)
     || (state =?= ProofReady) || (state =?= Rejected) || (state =?= Retryable)
     || (state =?= Replanned) || (state =?= DirectFallback)
  then Ok tt else Err ErrInvalidRequestState.

Definition legal (from to : RequestState) : bool :=
  ((from =?= Observed) && ((to =?= EvidenceReady) || (to =?= Rejected)))
  || ((from =?= EvidenceReady) && (to =?= Planned))
  || ((from =?= Planned) && ((to =?= ProofReady) || (to =?= Retryable)))
  || ((from =?= ProofReady) && (to =?= Retryable))
  || ((from =?= DirectFallback) && (to =?= Retryable))
  || ((from =?= Retryable) && ((to =?= Replanned) || (to =?= DirectFallback)))
  || ((from =?= Replanned) && (to =?= ProofReady)).

Definition ValidateTransition (from to : RequestState) : res state_error bool :=
  _ ← RequestState_Validate from;
  _ ← RequestState_Validate to;
  if from =?= to then Ok false
  else if negb (legal from to) then Err ErrInvalidRequestTransition
  else Ok true.

Record Request := mkRequest {
  req_ID : RequestID;
  req_HomeChainID : ChainID;
  req_Gateway : Address;
  req_Requester : Address;
  req_Nonce : bytes32;
  req_SourceChainID : ChainID;
  req_SourceHeight : BlockHeight;
  req_SourceBlockHash : Hash;
  req_State : RequestState;
  req_Reason : string;
  req_CreatedAt : Evidence.Time;
  req_UpdatedAt : Evidence.Time
}.

#[export] Instance Request_eq_dec : EqDecision Request.
Proof. solve_decision. Defined.

(** ** The services of the coordinator *)

Inductive gate_error (E : Type) :=
| GateInvalid (message : string)  (** [errors.Is(err, ErrInvalidObservation)] *)
| GateFailed (e : E).
Arguments GateInvalid {E} message.
Arguments GateFailed {E} e.

(** Every operation returns its result and the database it leaves; reads leave
    it unchanged. *)
Class Services (S E : Type) := {
  Observe : Request → S → res E (Request * bool) * S;
  LoadRequest : RequestID → S → res E Request;
  Transition : RequestID → RequestState → RequestState → string → S →
               res E (Request * bool) * S;
  RequireEvidenceReady : Request → S → option (gate_error E);
  LoadCurrentPlan : RequestID → S → res E Planner.Plan;
  is_plan_not_found : E → bool;
  PlanRequest : Planner.Request → S → res E Planner.Plan * S;
  BuildProof : PathProof.BuildRequest → S → res E PathProof.PathProof * S;
}.

(** What the coordinator relies on. *)
Class ServiceLaws (S E : Type) `{SV : !Services S E} := {
  observe_other q s id : id ≠ q.(req_ID) → LoadRequest id (Observe q s).2 = LoadRequest id s;
  observe_plans q s id : LoadCurrentPlan id (Observe q s).2 = LoadCurrentPlan id s;
  observe_ok q s r b :
    (Observe q s).1 = Ok (r, b) →
    r.(req_ID) = q.(req_ID) ∧ LoadRequest q.(req_ID) (Observe q s).2 = Ok r ∧
    (r.(req_State) = Observed ∨ LoadRequest q.(req_ID) s = Ok r);
  observe_err q s e : (Observe q s).1 = Err e → (Observe q s).2 = s;
  load_id id s r : LoadRequest id s = Ok r → r.(req_ID) = id;
  transition_other id from to reason s id' :
    id' ≠ id → LoadRequest id' (Transition id from to reason s).2 = LoadRequest id' s;
  transition_plans id from to reason s id' :
    LoadCurrentPlan id' (Transition id from to reason s).2 = LoadCurrentPlan id' s;
  transition_ok id from to reason s r b :
    (Transition id from to reason s).1 = Ok (r, b) →
    LoadRequest id (Transition id from to reason s).2 = Ok r ∧
    r.(req_State) = to ∧ r.(req_ID) = id;
  transition_err id from to reason s e :
    (Transition id from to reason s).1 = Err e → (Transition id from to reason s).2 = s;
  plan_requests q s id : LoadRequest id (PlanRequest q s).2 = LoadRequest id s;
  plan_other q s id :
    id ≠ q.(Planner.req_ID) → LoadCurrentPlan id (PlanRequest q s).2 = LoadCurrentPlan id s;
  plan_ok q s plan :
    (PlanRequest q s).1 = Ok plan →
    LoadCurrentPlan q.(Planner.req_ID) (PlanRequest q s).2 = Ok plan ∧
    (plan.(Planner.plan_Type) = Planner.PathPlan ∨ plan.(Planner.plan_Type) = Planner.DirectPlan);
  build_requests q s id : LoadRequest id (BuildProof q s).2 = LoadRequest id s;
  build_plans q s id : LoadCurrentPlan id (BuildProof q s).2 = LoadCurrentPlan id s;
  build_ok q s p id plan :
    (BuildProof q s).1 = Ok p → LoadCurrentPlan id s = Ok plan →
    plan.(Planner.plan_ID) = q.(PathProof.build_PlanID) →
    plan.(Planner.plan_Type) = Planner.PathPlan;
}.

(** ** [Process] *)

Record Work := mkWork {
  work_Request : Request;
  work_Attempt : Z;
  work_SnapshotID : TrustView.SnapshotID;
  work_ExpectedHomeTrustRoot : TrustView.TrustRoot
}.

(** [None] is the zero value of the field. *)
Record Result := mkResult {
  result_Request : Request;
  result_Plan : option Planner.Plan;
  result_PathProof : option PathProof.PathProof
}.

Inductive error (E : Type) :=
| ErrInvalidObservation
| ErrDirectFallbackPlan
| ErrProofReadyPlan
| ErrReplannedPlan
| ErrPlanBinding
| ErrRequestState
| ErrService (e : E)
| OutOfFuel.
Arguments ErrInvalidObservation {E}.
Arguments ErrDirectFallbackPlan {E}.
Arguments ErrProofReadyPlan {E}.
Arguments ErrReplannedPlan {E}.
Arguments ErrPlanBinding {E}.
Arguments ErrRequestState {E}.
Arguments ErrService {E} e.
Arguments OutOfFuel {E}.

(** A step returns its result, the database, and the databases it passed
    through (the last one first or later does not matter to the theorems). *)
Abbreviation M S E := (Prelude.M S S (error E)).

(** A read, and an operation that may change the database. *)
Definition M_read {S E A} (f : S → res E A) : M S E A :=
  λ s, (map_err ErrService (f s), s, []).
Definition M_op {S E A} (f : S → res E A * S) : M S E A :=
  λ s, let '(r, s') := f s in (map_err ErrService r, s', [s']).

Definition M_look {S E A} (f : S → A) : M S E A := λ s, (Ok (f s), s, []).

Definition sameRequestIdentityForResume (left right : Request) : bool :=
  (left.(req_ID) =?= right.(req_ID)) && (left.(req_HomeChainID) =?= right.(req_HomeChainID))
  && (left.(req_Gateway) =?= right.(req_Gateway))
  && (left.(req_Requester) =?= right.(req_Requester)) && (left.(req_Nonce) =?= right.(req_Nonce))
  && (left.(req_SourceChainID) =?= right.(req_SourceChainID))
  && (left.(req_SourceHeight) =?= right.(req_SourceHeight))
  && (left.(req_SourceBlockHash) =?= right.(req_SourceBlockHash)).

Section Process.
Context {S E : Type} `{SV : !Services S E}.
Context (keccak256 : bytes → Hash).

Definition validateWorkPlan (work : Work) (plan : Planner.Plan) : M S E unit :=
  if (plan.(Planner.plan_RequestID) ≠?= work.(work_Request).(req_ID))
     || negb (plan.(Planner.plan_Attempt) =? work.(work_Attempt))
     || (plan.(Planner.plan_SnapshotID) ≠?= work.(work_SnapshotID))
     || (plan.(Planner.plan_ID) ≠?= Planner.ComputePlanID keccak256 plan)
  then M_fail ErrPlanBinding else M_ret tt.

(** [LoadCurrentPlan] with [ErrPlanNotFound] as [None]. *)
Definition load_current (id : RequestID) : M S E (option Planner.Plan) :=
  λ s, match LoadCurrentPlan id s with
       | Ok plan => (Ok (Some plan), s, [])
       | Err e => if is_plan_not_found e then (Ok None, s, []) else (Err (ErrService e), s, [])
       end.

Definition transition (id : RequestID) (from to : RequestState) (reason : string)
    : M S E Request :=
  '(request, _) ← M_op (Transition id from to reason); M_ret request.

Definition plan_request (work : Work) (request : Request) : Planner.Request :=
  Planner.mkRequest request.(req_ID) work.(work_Attempt) work.(work_SnapshotID)
    request.(req_HomeChainID).

Definition build_request (work : Work) (request : Request) (plan : Planner.Plan)
    : PathProof.BuildRequest :=
  PathProof.mkBuildRequest plan.(Planner.plan_ID) request.(req_SourceBlockHash)
    work.(work_ExpectedHomeTrustRoot).

(** One turn of the [for] loop: [inl] returns, [inr] goes on. *)
Definition process_step (work : Work) (result : Result) : M S E (Result + Result) :=
  let request := result.(result_Request) in
  let id := request.(req_ID) in
  if request.(req_State) =?= Rejected then
    found ← load_current id;
    match found with
    | None => M_ret (inl result)
    | Some plan => M_ret (inl (mkResult request (Some plan) result.(result_PathProof)))
    end
  else if request.(req_State) =?= DirectFallback then
    plan ← M_read (LoadCurrentPlan id);
    _ ← validateWorkPlan work plan;
    if (plan.(Planner.plan_Type) ≠?= Planner.DirectPlan)
       || (plan.(Planner.plan_FallbackReason) =?= "") then M_fail ErrDirectFallbackPlan
    else M_ret (inl (mkResult request (Some plan) result.(result_PathProof)))
  else if request.(req_State) =?= ProofReady then
    plan ← M_read (LoadCurrentPlan id);
    _ ← validateWorkPlan work plan;
    if plan.(Planner.plan_Type) ≠?= Planner.PathPlan then M_fail ErrProofReadyPlan
    else
      proof ← M_op (BuildProof (build_request work request plan));
      M_ret (inl (mkResult request (Some plan) (Some proof)))
  else if request.(req_State) =?= Observed then
    gate ← (M_look (RequireEvidenceReady request));
    match gate with
    | Some (GateInvalid message) =>
        request' ← transition id Observed Rejected message;
        M_ret (inr (mkResult request' result.(result_Plan) result.(result_PathProof)))
    | Some (GateFailed e) => M_fail (ErrService e)
    | None =>
        request' ← transition id Observed EvidenceReady "";
        M_ret (inr (mkResult request' result.(result_Plan) result.(result_PathProof)))
    end
  else if request.(req_State) =?= EvidenceReady then
    found ← load_current id;
    plan ← match found with
            | Some plan => M_ret plan
            | None => M_op (PlanRequest (plan_request work request))
            end;
    _ ← validateWorkPlan work plan;
    request' ← transition id EvidenceReady Planned "";
    M_ret (inr (mkResult request' (Some plan) result.(result_PathProof)))
  else if request.(req_State) =?= Planned then
    plan ← M_read (LoadCurrentPlan id);
    _ ← validateWorkPlan work plan;
    if plan.(Planner.plan_Type) =?= Planner.DirectPlan
    then M_ret (inl (mkResult request (Some plan) result.(result_PathProof)))
    else
      proof ← M_op (BuildProof (build_request work request plan));
      request' ← transition id Planned ProofReady "";
      M_ret (inl (mkResult request' (Some plan) (Some proof)))
  else if request.(req_State) =?= Retryable then
    plan ← M_op (PlanRequest (plan_request work request));
    _ ← validateWorkPlan work plan;
    request' ← (if plan.(Planner.plan_Type) =?= Planner.DirectPlan
                 then transition id Retryable DirectFallback plan.(Planner.plan_FallbackReason)
                 else transition id Retryable Replanned "");
    M_ret (inr (mkResult request' (Some plan) result.(result_PathProof)))
  else if request.(req_State) =?= Replanned then
    plan ← M_read (LoadCurrentPlan id);
    if plan.(Planner.plan_Type) ≠?= Planner.PathPlan then M_fail ErrReplannedPlan
    else
      _ ← validateWorkPlan work plan;
      proof ← M_op (BuildProof (build_request work request plan));
      request' ← transition id Replanned ProofReady "";
      M_ret (inl (mkResult request' (Some plan) (Some proof)))
  else M_fail ErrRequestState.

Fixpoint process_loop (fuel : nat) (work : Work) (result : Result) : M S E Result :=
  match fuel with
  | O => M_fail OutOfFuel
  | Datatypes.S fuel' =>
      next ← process_step work result;
      match next with
      | inl final => M_ret final
      | inr result' => process_loop fuel' work result'
      end
  end.

(** Four turns are enough: see [process_loop_ends]. *)
Definition Process (work : Work) : M S E Result :=
  let given := work.(work_Request) in
  if (given.(req_ID) =?= zero32) || negb (is_ok (RequestState_Validate given.(req_State)))
     || (work.(work_SnapshotID) =?= zero32) || (given.(req_SourceBlockHash) =?= zero32)
  then M_fail ErrInvalidObservation
  else
    request ← (if given.(req_State) =?= Observed
                then '(request, _) ← M_op (Observe given); M_ret request
                else
                  request ← M_read (LoadRequest given.(req_ID));
                  if negb (sameRequestIdentityForResume request given)
                  then M_fail ErrInvalidObservation else M_ret request);
    process_loop 4 work (mkResult request None None).
End Process.

(** ** The life cycle as a step relation *)

Inductive request_step : RequestState → RequestState → Prop :=
| step_evidence : request_step Observed EvidenceReady
| step_reject : request_step Observed Rejected
| step_plan : request_step EvidenceReady Planned
| step_prove : request_step Planned ProofReady
| step_drop_plan : request_step Planned Retryable
| step_drop_proof : request_step ProofReady Retryable
| step_drop_fallback : request_step DirectFallback Retryable
| step_replan : request_step Retryable Replanned
| step_fall_back : request_step Retryable DirectFallback
| step_reprove : request_step Replanned ProofReady.

(** The states visited by a request, the latest first. *)
Inductive request_run : list RequestState → Prop :=
| request_run_start : request_run [Observed]
| request_run_step from to visited :
    request_run (from :: visited) → request_step from to → request_run (to :: from :: visited).

Lemma request_transition_true from to :
  ValidateTransition from to = Ok true ↔ request_step from to.
Proof.
  split.
  - unfold ValidateTransition. intros H.
    apply bind_Ok in H as (? & _ & H). apply bind_Ok in H as (? & _ & H).
    case_bool_decide as Hne; [done|].
    destruct (legal from to) eqn:Hl; cbn in H; [|done].
    unfold legal in Hl. clear -Hl.
    repeat match type of Hl with context [bool_decide ?P] =>
      destruct (bool_decide_reflect P); subst; cbn [andb orb] in Hl end;
      try discriminate; constructor.
  - by intros [].
Qed.

(** Before a request is planned it passed the evidence gate, in this order. *)
Definition gated (visited : list RequestState) : Prop :=
  visited = [Observed] ∨ visited = [EvidenceReady; Observed] ∨
  visited = [Rejected; Observed] ∨ ∃ later, visited = later ++ [Planned; EvidenceReady; Observed].

Lemma request_run_gated visited : request_run visited → gated visited.
Proof.
  induction 1 as [|from to visited Hrun IH Hs]; [by left|].
  destruct IH as [IH|[IH|[IH|[later IH]]]].
  - injection IH as -> ->. inversion Hs; try discriminate; subst; unfold gated; auto.
  - injection IH as -> ->. inversion Hs; try discriminate; subst.
    right; right; right. by exists [].
  - injection IH as -> ->. inversion Hs; discriminate.
  - right; right; right. exists (to :: later). cbn. by rewrite IH.
Qed.

(** ** Reasoning about runs of [Process] *)

Section Triples.
Context {S E : Type} (I : S → Prop).

(** From a database satisfying [P], the run passes through databases
    satisfying [I] only, never runs out of fuel, and establishes [Q] if it
    succeeds. *)
Definition triple {A} (P : S → Prop) (m : M S E A) (Q : A → S → Prop) : Prop :=
  ∀ s, P s →
    match m s with
    | (r, s', log) =>
        Forall I log ∧ I s' ∧ match r with Ok a => Q a s' | Err e => e ≠ OutOfFuel end
    end.

Lemma triple_ret {A} (P : S → Prop) (a : A) (Q : A → S → Prop) :
  (∀ s, P s → I s ∧ Q a s) → triple P (M_ret a) Q.
Proof. intros H s HP. cbn. destruct (H s HP). by split_and!. Qed.

Lemma triple_fail {A} (P : S → Prop) e (Q : A → S → Prop) :
  (∀ s, P s → I s) → e ≠ OutOfFuel → triple P (M_fail e) Q.
Proof. intros H He s HP. cbn. split_and!; auto. Qed.

Lemma triple_bind {A B} (P : S → Prop) (m : M S E A) (k : A → M S E B) Q R :
  triple P m Q → (∀ a, triple (Q a) (k a) R) → triple P (m ≫= k) R.
Proof.
  intros Hm Hk s HP. specialize (Hm s HP). unfold mbind, M_mbind, M_bind.
  destruct (m s) as [[[a|e] s'] log]; [|done]. destruct Hm as (Hlog & HI & HQ).
  specialize (Hk a s' HQ). destruct (k a s') as [[r s''] log'].
  destruct Hk as (Hlog' & HI' & HR). split_and!; [|done|done].
  by apply Forall_app.
Qed.

Lemma triple_read {A} (P : S → Prop) (f : S → res E A) Q :
  (∀ s, P s → I s) → (∀ s a, P s → f s = Ok a → Q a s) → triple P (M_read f) Q.
Proof.
  intros HI HQ s HP. unfold M_read. destruct (f s) as [a|e] eqn:Hf; cbn; split_and!; auto.
Qed.

Lemma triple_look {A} (P : S → Prop) (f : S → A) Q :
  (∀ s, P s → I s ∧ Q (f s) s) → triple P (M_look f) Q.
Proof. intros H s HP. cbn. destruct (H s HP). by split_and!. Qed.

Lemma triple_op {A} (P : S → Prop) (f : S → res E A * S) Q :
  (∀ s, P s → I (f s).2 ∧ ∀ a, (f s).1 = Ok a → Q a (f s).2) → triple P (M_op f) Q.
Proof.
  intros H s HP. unfold M_op. destruct (f s) as [r s'] eqn:Hf.
  specialize (H s HP). rewrite Hf in H. destruct H as [HI HQ].
  split_and!; [by constructor|done|]. destruct r; cbn in *; [by apply HQ|done].
Qed.

Lemma triple_pre {A} (P P' : S → Prop) (m : M S E A) Q :
  (∀ s, P s → P' s) → triple P' m Q → triple P m Q.
Proof. intros HP Hm s Hs. by apply Hm, HP. Qed.
End Triples.

Section Durability.
Context {S E : Type} `{SL : ServiceLaws S E}.
Context (keccak256 : bytes → Hash).

(** What the state of a request says about its current plan. *)
Definition plan_ready (state : RequestState) (current : res E Planner.Plan) : Prop :=
  (state = Planned → ∃ plan, current = Ok plan) ∧
  (state = ProofReady ∨ state = Replanned →
     ∃ plan, current = Ok plan ∧ plan.(Planner.plan_Type) = Planner.PathPlan) ∧
  (state = DirectFallback →
     ∃ plan, current = Ok plan ∧ plan.(Planner.plan_Type) = Planner.DirectPlan).

(** A database from which processing can resume: no request is ahead of its
    durable plan. *)
Definition durable (s : S) : Prop :=
  ∀ id r, LoadRequest id s = Ok r → plan_ready r.(req_State) (LoadCurrentPlan id s).

Lemma plan_ready_early state current :
  state = Observed ∨ state = EvidenceReady ∨ state = Rejected ∨ state = Retryable →
  plan_ready state current.
Proof.
  intros H. split_and!; intros Hx; exfalso;
    repeat destruct H as [H|H]; try destruct Hx as [Hx|Hx]; subst state; discriminate.
Qed.

Lemma durable_transition id from to reason s :
  durable s → plan_ready to (LoadCurrentPlan id s) →
  durable (Transition id from to reason s).2.
Proof.
  intros Hd Hto id' r Hr. rewrite transition_plans.
  destruct ((Transition id from to reason s).1) as [[r' b]|e] eqn:Ht.
  - destruct (decide (id' = id)) as [->|Hne].
    + destruct (transition_ok _ _ _ _ _ _ _ Ht) as (Hl & Hst & _).
      assert (r = r') as -> by congruence. by rewrite Hst.
    + apply Hd. by rewrite <-(transition_other id from to reason).
  - apply Hd. by rewrite <-(transition_err _ _ _ _ _ _ Ht).
Qed.

Lemma durable_plan q s r :
  durable s → LoadRequest q.(Planner.req_ID) s = Ok r →
  r.(req_State) = EvidenceReady ∨ r.(req_State) = Retryable → durable (PlanRequest q s).2.
Proof.
  intros Hd Hl Hst id' r' Hr. rewrite plan_requests in Hr.
  destruct (decide (id' = Planner.req_ID q)) as [->|Hne].
  - assert (r' = r) as -> by congruence. apply plan_ready_early. tauto.
  - rewrite plan_other by done. by apply Hd.
Qed.

Lemma durable_build q s : durable s → durable (BuildProof q s).2.
Proof. intros Hd id r. rewrite build_requests, build_plans. apply Hd. Qed.

Lemma durable_observe q s : durable s → durable (Observe q s).2.
Proof.
  intros Hd id r Hr. destruct ((Observe q s).1) as [[r' b]|e] eqn:Ho.
  - rewrite observe_plans. destruct (decide (id = req_ID q)) as [->|Hne].
    + destruct (observe_ok _ _ _ _ Ho) as (_ & Hl & Hst). assert (r' = r) as -> by congruence.
      destruct Hst as [Hst|Hst]; [apply plan_ready_early; tauto|by apply Hd].
    + apply Hd. by rewrite <-(observe_other q).
  - rewrite (observe_err _ _ _ Ho) in *. by apply Hd.
Qed.

(** The loop holds the request as it is stored. *)
Definition in_step (request : Request) (s : S) : Prop :=
  durable s ∧ LoadRequest request.(req_ID) s = Ok request.

Definition binds (work : Work) (plan : Planner.Plan) : Prop :=
  plan.(Planner.plan_RequestID) = work.(work_Request).(req_ID) ∧
  plan.(Planner.plan_Attempt) = work.(work_Attempt) ∧
  plan.(Planner.plan_SnapshotID) = work.(work_SnapshotID) ∧
  plan.(Planner.plan_ID) = Planner.ComputePlanID keccak256 plan.

(** What a returned result means. *)
Definition final_ok (work : Work) (result : Result) (s : S) : Prop :=
  let request := result.(result_Request) in
  in_step request s ∧
  (request.(req_State) = Rejected ∨
   ∃ plan, result.(result_Plan) = Some plan ∧ binds work plan ∧
     LoadCurrentPlan request.(req_ID) s = Ok plan ∧
     (((request.(req_State) = DirectFallback ∨ request.(req_State) = Planned) ∧
       plan.(Planner.plan_Type) = Planner.DirectPlan) ∨
      (request.(req_State) = ProofReady ∧ plan.(Planner.plan_Type) = Planner.PathPlan ∧
       ∃ proof built hash, result.(result_PathProof) = Some proof ∧
         (BuildProof (PathProof.mkBuildRequest plan.(Planner.plan_ID) hash
            work.(work_ExpectedHomeTrustRoot)) built).1 = Ok proof))).

(** Turns of the loop left after the current one, at most. *)
Definition turns_left (state : RequestState) : nat :=
  if state =?= Observed then 2
  else if (state =?= EvidenceReady) || (state =?= Retryable) then 1 else 0.

Abbreviation triple := (triple (E := E) durable).

Lemma validate_triple work plan (P : S → Prop) :
  (∀ s, P s → durable s) →
  triple P (validateWorkPlan keccak256 work plan) (λ _ s, P s ∧ binds work plan).
Proof.
  intros HP. unfold validateWorkPlan. case_match eqn:Hc; [by apply triple_fail|].
  apply triple_ret. bool_to_prop. intros s Hs. split; [auto|]. by split_and!.
Qed.

Lemma transition_triple request from to reason (P : S → Prop) (C : res E Planner.Plan → Prop) :
  (∀ s, P s → in_step request s ∧ C (LoadCurrentPlan request.(req_ID) s)) →
  (∀ current, C current → plan_ready to current) →
  triple P (transition request.(req_ID) from to reason)
    (λ request' s, in_step request' s ∧ request'.(req_ID) = request.(req_ID) ∧
       request'.(req_State) = to ∧ C (LoadCurrentPlan request'.(req_ID) s)).
Proof.
  intros HP HC. unfold transition. eapply triple_bind with (Q := λ p s,
    in_step p.1 s ∧ req_ID p.1 = req_ID request ∧ req_State p.1 = to ∧
    C (LoadCurrentPlan (req_ID p.1) s)).
  - apply triple_op. intros s Hs. destruct (HP s Hs) as [[Hd Hl] Hc].
    assert (durable (Transition (req_ID request) from to reason s).2) as Hd'
      by (apply durable_transition; auto).
    split; [done|]. intros [r b] Ht.
    destruct (transition_ok _ _ _ _ _ _ _ Ht) as (Hl' & Hst & Hid). cbn.
    unfold in_step. rewrite Hid, transition_plans. by split_and!.
  - intros [r b]. apply triple_ret. intros s [[Hd Hl] Hr]. done.
Qed.

Lemma load_current_triple request (P : S → Prop) :
  (∀ s, P s → in_step request s) →
  triple P (load_current request.(req_ID)) (λ found s, P s ∧
    match found with Some plan => LoadCurrentPlan request.(req_ID) s = Ok plan | None => True end).
Proof.
  intros HP s Hs. destruct (HP s Hs) as [Hd _]. unfold load_current.
  destruct (LoadCurrentPlan _ s) as [plan|e] eqn:Hl; [|destruct (is_plan_not_found e)];
    (split; [apply Forall_nil_2|split; [done|by rewrite ?Hl]]).
Qed.

Lemma read_plan_triple request :
  triple (in_step request) (M_read (LoadCurrentPlan request.(req_ID)))
    (λ plan s, in_step request s ∧ LoadCurrentPlan request.(req_ID) s = Ok plan).
Proof. apply triple_read; [by intros s [? _]|done]. Qed.

Lemma plan_triple work request (P : S → Prop) :
  (∀ s, P s → in_step request s) →
  request.(req_State) = EvidenceReady ∨ request.(req_State) = Retryable →
  triple P (M_op (PlanRequest (plan_request work request)))
    (λ plan s, in_step request s ∧ LoadCurrentPlan request.(req_ID) s = Ok plan ∧
       (plan.(Planner.plan_Type) = Planner.PathPlan ∨
        plan.(Planner.plan_Type) = Planner.DirectPlan)).
Proof.
  intros HP Hst. apply triple_op. intros s Hs. destruct (HP s Hs) as [Hd Hl].
  assert (durable (PlanRequest (plan_request work request) s).2) as Hd'
    by (by eapply durable_plan).
  split; [done|]. intros plan Hp. destruct (plan_ok _ _ _ Hp) as [Hc Ht].
  split; [|by split]. split; [done|]. by rewrite plan_requests.
Qed.

Lemma build_triple work request plan (P : S → Prop) :
  (∀ s, P s → in_step request s ∧ LoadCurrentPlan request.(req_ID) s = Ok plan) →
  triple P (M_op (BuildProof (build_request work request plan)))
    (λ proof s, in_step request s ∧ LoadCurrentPlan request.(req_ID) s = Ok plan ∧
       plan.(Planner.plan_Type) = Planner.PathPlan ∧
       ∃ built, (BuildProof (build_request work request plan) built).1 = Ok proof).
Proof.
  intros HP. apply triple_op. intros s Hs. destruct (HP s Hs) as [[Hd Hl] Hc].
  split; [by apply durable_build|]. intros proof Hb. unfold in_step.
  rewrite build_requests, build_plans. split_and!; try done; [by apply durable_build| |eauto].
  by eapply build_ok.
Qed.

Definition step_post (work : Work) (result : Result) (next : Result + Result) (s : S) : Prop :=
  match next with
  | inl final => final_ok work final s
  | inr result' =>
      in_step result'.(result_Request) s ∧
      (turns_left result'.(result_Request).(req_State)
         < turns_left result.(result_Request).(req_State))%nat
  end.

(** Each state of the loop, one lemma per case of the [switch]. *)

Lemma step_rejected work result request :
  result.(result_Request) = request → request.(req_State) = Rejected →
  triple (in_step request) (process_step keccak256 work result) (step_post work result).
Proof.
  intros <- Hst. unfold process_step. rewrite Hst. cbn [bool_decide].
  rewrite bool_decide_eq_true_2 by done.
  eapply triple_bind; [by apply load_current_triple|]. intros [plan|]; cbn;
    apply triple_ret; intros s [[Hd Hl] _]; (split; [done|]); (split; [done|]); by left.
Qed.

Lemma step_observed work result request :
  result.(result_Request) = request → request.(req_State) = Observed →
  triple (in_step request) (process_step keccak256 work result) (step_post work result).
Proof.
  intros <- Hst. unfold process_step. rewrite Hst.
  rewrite !(bool_decide_eq_false_2 (Observed = _)) by done.
  rewrite (bool_decide_eq_true_2 (Observed = Observed)) by done.
  eapply triple_bind; [apply (triple_look _ _ _ (λ _, in_step (result_Request result)));
    intros s [? ?]; by split_and!|].
  intros [[message|e]|]; cbn; [|apply triple_fail; [by intros s [? _]|done]|].
  all: eapply triple_bind; [eapply (transition_triple _ _ _ _ _ (λ _, True)); [done|];
    intros; apply plan_ready_early; tauto|].
  all: intros request'; apply triple_ret; intros s ((Hd & Hl) & Hid & Hst' & _);
    (split; [done|]); cbn; (split; [done|]); rewrite Hst, Hst'; vm_compute; lia.
Qed.

Lemma step_evidence_ready work result request :
  result.(result_Request) = request → request.(req_State) = EvidenceReady →
  triple (in_step request) (process_step keccak256 work result) (step_post work result).
Proof.
  intros <- Hst. unfold process_step. rewrite Hst.
  rewrite !(bool_decide_eq_false_2 (EvidenceReady = _)) by done.
  rewrite (bool_decide_eq_true_2 (EvidenceReady = EvidenceReady)) by done.
  eapply triple_bind; [by apply load_current_triple|]. intros found. cbn.
  eapply triple_bind with (Q := λ plan s, in_step (result_Request result) s ∧
    LoadCurrentPlan (req_ID (result_Request result)) s = Ok plan).
  { destruct found as [plan|].
    - apply triple_ret. intros s [[Hd Hl] Hp]. by split_and!.
    - eapply triple_pre; [intros s [Hs _]; exact Hs|].
      intros s Hs. pose proof (plan_triple work (result_Request result) _ (λ s H, H)
        (or_introl Hst) s Hs) as Ht.
      destruct (M_op _ s) as [[[plan|e] s'] log]; naive_solver. }
  intros plan. eapply triple_bind; [apply validate_triple; by intros s [[? _] _]|].
  intros []. eapply triple_bind.
  { eapply (transition_triple _ _ _ _ _ (λ current, current = Ok plan)); [by intros s [[? ?] _]|].
    intros current ->. split_and!; [eauto|..]; intros Hx; exfalso;
      [destruct Hx as [Hx|Hx]|]; discriminate Hx. }
  intros request'. apply triple_ret. intros s ((Hd & Hl) & Hid & Hst' & Hp).
  split; [done|]. cbn. split; [done|]. rewrite Hst, Hst'. vm_compute. lia.
Qed.

Lemma step_direct_fallback work result request :
  result.(result_Request) = request → request.(req_State) = DirectFallback →
  triple (in_step request) (process_step keccak256 work result) (step_post work result).
Proof.
  intros <- Hst. unfold process_step. rewrite Hst.
  rewrite !(bool_decide_eq_false_2 (DirectFallback = _)) by done.
  rewrite (bool_decide_eq_true_2 (DirectFallback = DirectFallback)) by done.
  eapply triple_bind; [apply read_plan_triple|]. intros plan. cbn.
  eapply triple_bind; [apply validate_triple; by intros s [[? _] _]|]. intros [].
  case_match eqn:Hc; [apply triple_fail; [by intros s [[[? _] _] _]|done]|]. bool_to_prop.
  apply triple_ret. intros s [[[Hd Hl] Hp] Hb]. split; [done|]. split; [done|].
  right. exists plan. split_and!; try done. left. split; [by left|done].
Qed.

Lemma step_proof_ready work result request :
  result.(result_Request) = request → request.(req_State) = ProofReady →
  triple (in_step request) (process_step keccak256 work result) (step_post work result).
Proof.
  intros <- Hst. unfold process_step. rewrite Hst.
  rewrite !(bool_decide_eq_false_2 (ProofReady = _)) by done.
  rewrite (bool_decide_eq_true_2 (ProofReady = ProofReady)) by done.
  eapply triple_bind; [apply read_plan_triple|]. intros plan. cbn.
  eapply triple_bind; [apply validate_triple; by intros s [[? _] _]|]. intros [].
  case_match eqn:Hc; [apply triple_fail; [by intros s [[[? _] _] _]|done]|].
  intros s [Hs Hb]. revert s Hs. change (triple (λ s, in_step (result_Request result) s ∧
    LoadCurrentPlan (req_ID (result_Request result)) s = Ok plan)
    (proof ← M_op (BuildProof (build_request work (result_Request result) plan));
     M_ret (inl (mkResult (result_Request result) (Some plan) (Some proof)))) (step_post work result)).
  eapply triple_bind; [by apply build_triple|]. intros proof. apply triple_ret.
  intros s ([Hd Hl] & Hp & Ht & built & Hbuilt). split; [done|]. split; [done|].
  right. exists plan. split_and!; try done. right. split_and!; try done.
  exists proof, built, (req_SourceBlockHash (result_Request result)). done.
Qed.

(** [Planned] and [Replanned] both end by building the proof. *)
Lemma prove_triple work result plan from :
  (∀ current, current = Ok plan → plan.(Planner.plan_Type) = Planner.PathPlan →
     plan_ready ProofReady current) → 
  binds work plan →
  triple (λ s, in_step (result_Request result) s ∧
    LoadCurrentPlan (req_ID (result_Request result)) s = Ok plan)
    (proof ← M_op (BuildProof (build_request work (result_Request result) plan));
     request' ← transition (req_ID (result_Request result)) from ProofReady "";
     M_ret (inl (mkResult request' (Some plan) (Some proof)))) (step_post work result).
Proof.
  intros Hready Hb. eapply triple_bind; [by apply build_triple|]. intros proof.
  eapply triple_bind with (Q := λ request' s, (in_step request' s ∧
    req_ID request' = req_ID (result_Request result) ∧ req_State request' = ProofReady ∧
    (LoadCurrentPlan (req_ID request') s = Ok plan ∧ Planner.plan_Type plan = Planner.PathPlan)) ∧
    ∃ built, (BuildProof (build_request work (result_Request result) plan) built).1 = Ok proof).
  { intros s (Hs & Hp & Ht & built & Hbuilt).
    pose proof (transition_triple (result_Request result) from ProofReady ""
      (λ s, in_step (result_Request result) s ∧
         (LoadCurrentPlan (req_ID (result_Request result)) s = Ok plan ∧
          Planner.plan_Type plan = Planner.PathPlan))
      (λ current, current = Ok plan ∧ Planner.plan_Type plan = Planner.PathPlan)
      (λ s H, H) ltac:(intros current [? ?]; by apply Hready) s ltac:(done)) as Ht'.
    destruct (transition _ _ _ _ s) as [[[r|e] s'] log]; [|done].
    destruct Ht' as (? & ? & ?). eauto. }
  intros request'. apply triple_ret.
  intros s (([Hd Hl] & Hid & Hst' & Hp & Ht) & built & Hbuilt).
  split; [done|]. split; [done|]. right. exists plan. split_and!; try done.
  right. split_and!; try done.
  exists proof, built, (req_SourceBlockHash (result_Request result)). done.
Qed.

Lemma proof_ready_plan (plan : Planner.Plan) (current : res E Planner.Plan) :
  current = Ok plan → plan.(Planner.plan_Type) = Planner.PathPlan →
  plan_ready ProofReady current.
Proof.
  intros -> Ht. split_and!; [|eauto|]; intros Hx; discriminate Hx.
Qed.

Lemma step_planned work result request :
  result.(result_Request) = request → request.(req_State) = Planned →
  triple (in_step request) (process_step keccak256 work result) (step_post work result).
Proof.
  intros <- Hst. unfold process_step. rewrite Hst.
  rewrite !(bool_decide_eq_false_2 (Planned = _)) by done.
  rewrite (bool_decide_eq_true_2 (Planned = Planned)) by done.
  eapply triple_bind; [apply read_plan_triple|]. intros plan. cbn.
  eapply triple_bind; [apply validate_triple; by intros s [[? _] _]|]. intros [].
  case_bool_decide as Ht.
  - apply triple_ret. intros s [[[Hd Hl] Hp] Hb]. split; [done|]. split; [done|].
    right. exists plan. split_and!; try done. left. split; [by right|done].
  - intros s [Hs Hb]. by apply (prove_triple work result plan Planned); [apply proof_ready_plan|..].
Qed.

Lemma step_replanned work result request :
  result.(result_Request) = request → request.(req_State) = Replanned →
  triple (in_step request) (process_step keccak256 work result) (step_post work result).
Proof.
  intros <- Hst. unfold process_step. rewrite Hst.
  rewrite !(bool_decide_eq_false_2 (Replanned = _)) by done.
  rewrite (bool_decide_eq_true_2 (Replanned = Replanned)) by done.
  eapply triple_bind; [apply read_plan_triple|]. intros plan. cbn.
  case_match eqn:Hc; [apply triple_fail; [by intros s [[? _] _]|done]|].
  eapply triple_bind; [apply validate_triple; by intros s [[? _] _]|]. intros [].
  intros s [Hs Hb]. by apply (prove_triple work result plan Replanned); [apply proof_ready_plan|..].
Qed.

Lemma step_retryable work result request :
  result.(result_Request) = request → request.(req_State) = Retryable →
  triple (in_step request) (process_step keccak256 work result) (step_post work result).
Proof.
  intros <- Hst. unfold process_step. rewrite Hst.
  rewrite !(bool_decide_eq_false_2 (Retryable = _)) by done.
  rewrite (bool_decide_eq_true_2 (Retryable = Retryable)) by done.
  eapply triple_bind; [by apply plan_triple; [|right]|]. intros plan. cbn.
  eapply triple_bind; [apply validate_triple; by intros s [[? _] _]|]. intros [].
  eapply triple_bind with (Q := λ request' s, in_step request' s ∧
    turns_left (req_State request') = 0%nat).
  - assert (∀ to, turns_left to = 0%nat →
      (∀ current, current = Ok plan ∧ (Planner.plan_Type plan = Planner.PathPlan ∨
         Planner.plan_Type plan = Planner.DirectPlan) → plan_ready to current) →
      ∀ reason, triple (λ s, (in_step (result_Request result) s ∧
        LoadCurrentPlan (req_ID (result_Request result)) s = Ok plan ∧
        (Planner.plan_Type plan = Planner.PathPlan ∨
         Planner.plan_Type plan = Planner.DirectPlan)) ∧ binds work plan)
        (transition (req_ID (result_Request result)) Retryable to reason)
        (λ request' s, in_step request' s ∧ turns_left (req_State request') = 0%nat)) as Hto.
    { intros to Hz Hr reason s [Hs _].
      pose proof (transition_triple (result_Request result) Retryable to reason _ _ (λ s H, H) Hr s Hs) as Ht.
      destruct (transition _ _ _ _ s) as [[[r|e] s'] log]; [|done].
      destruct Ht as (? & ? & ? & _ & Hst' & _).
      split; [done|split; [done|split; [done|by rewrite Hst']]]. }
    case_bool_decide as Hty; apply Hto; try done; intros current [-> Ht];
      split_and!; intros Hx; try discriminate Hx; try (destruct Hx as [Hx|Hx]; discriminate Hx);
      exists plan; split; [done| |done|]; [done|tauto].
  - intros request'. apply triple_ret. intros s [[Hd Hl] Hz]. split; [done|]. cbn.
    split; [done|]. rewrite Hst, Hz. vm_compute. lia.
Qed.

Lemma step_triple work result :
  triple (in_step result.(result_Request)) (process_step keccak256 work result)
    (step_post work result).
Proof.
  destruct (decide (req_State (result_Request result) = Rejected)); [by eapply step_rejected|].
  destruct (decide (req_State (result_Request result) = DirectFallback)); [by eapply step_direct_fallback|].
  destruct (decide (req_State (result_Request result) = ProofReady)); [by eapply step_proof_ready|].
  destruct (decide (req_State (result_Request result) = Observed)); [by eapply step_observed|].
  destruct (decide (req_State (result_Request result) = EvidenceReady)); [by eapply step_evidence_ready|].
  destruct (decide (req_State (result_Request result) = Planned)); [by eapply step_planned|].
  destruct (decide (req_State (result_Request result) = Retryable)); [by eapply step_retryable|].
  destruct (decide (req_State (result_Request result) = Replanned)); [by eapply step_replanned|].
  unfold process_step. rewrite !bool_decide_eq_false_2 by done.
  apply triple_fail; [by intros s [? _]|done].
Qed.

Lemma process_loop_ends work fuel : ∀ result,
  (turns_left result.(result_Request).(req_State) < fuel)%nat →
  triple (in_step result.(result_Request)) (process_loop keccak256 fuel work result)
    (final_ok work).
Proof.
  induction fuel as [|fuel IH]; intros result Hf; [lia|]. cbn [process_loop].
  eapply triple_bind; [apply step_triple|]. intros [final|result']; cbn.
  - apply triple_ret. intros s Hs. split; [|done]. by destruct Hs as [[Hd _] _].
  - destruct (decide (turns_left (req_State (result_Request result'))
      < turns_left (req_State (result_Request result)))%nat) as [Hlt|Hge].
    + eapply triple_pre; [|apply IH; lia]. by intros s [Hs _].
    + intros s [_ Hlt]. lia.
Qed.

Lemma turns_left_small state : (turns_left state < 4)%nat.
Proof. unfold turns_left. repeat case_match; lia. Qed.

Lemma Process_triple work : triple durable (Process keccak256 work) (final_ok work).
Proof.
  unfold Process. case_match eqn:Hc; [by apply triple_fail|]. clear Hc.
  eapply triple_bind with (Q := λ request s, in_step request s).
  - case_bool_decide as Hobs.
    + eapply triple_bind with (Q := λ p s, in_step p.1 s).
      * apply triple_op. intros s Hd. split; [by apply durable_observe|].
        intros [r b] Ho. destruct (observe_ok _ _ _ _ Ho) as (Hid & Hl & _). cbn.
        split; [by apply durable_observe|]. by rewrite Hid.
      * intros [r b]. apply triple_ret. intros s Hs. split; [by destruct Hs|done].
    + eapply triple_bind with (Q := λ request s, in_step request s).
      * apply triple_read; [done|]. intros s r Hd Hl. split; [done|].
        by rewrite (load_id _ _ _ Hl).
      * intros r. case_match; [apply triple_fail; [by intros s [? _]|done]|].
        apply triple_ret. intros s Hs. split; [by destruct Hs|done].
  - intros request. apply (process_loop_ends work 4 (mkResult request None None)).
    apply turns_left_small.
Qed.
End Durability.

(** ** Theorems *)

(** The request life cycle: [ValidateTransition] accepts a change exactly
    when it is one of the ten steps; every run reaches a planned state only
    through the evidence gate (observed, evidence ready, planned, in this
    order), and rejection is final. *)
Theorem request_lifecycle :
  (∀ from to, ValidateTransition from to = Ok true ↔ request_step from to) ∧
  (∀ visited, request_run visited → gated visited) ∧
  (∀ to, ¬ request_step Rejected to).
Proof.
  split_and!.
  - apply request_transition_true.
  - apply request_run_gated.
  - intros to Hs. inversion Hs; discriminate.
Qed.

(** C16. [Process] is restart-safe: started on a database in which no request
    is ahead of its durable plan, it only passes through such databases, so it
    can be stopped anywhere and run again; it always ends (four turns of its
    loop are enough); and a returned result is final: rejected, or backed by
    the stored current plan that binds this work, a direct plan for planned
    and fallback requests, a path plan with a PathProof built from it for
    proof-ready ones. *)
Theorem Process_restart_safe {S E : Type} `{SL : ServiceLaws S E} (keccak256 : bytes → Hash)
    (work : Work) (s : S) :
  durable s →
  match Process keccak256 work s with
  | (r, s', log) =>
      Forall durable log ∧ durable s' ∧
      match r with
      | Ok result => final_ok keccak256 work result s'
      | Err e => e ≠ OutOfFuel
      end
  end.
Proof. apply Process_triple. Qed.

End Coordinator.
