(* ===== verification/Receipt.v ===== *)
(** * Mapnode/indexer: verification receipts

    verification_receipt.go and verification_requested.go.  A [types.Receipt]
    of go-ethereum is a record with the fields the program reads; [None] in
    its list of logs is a nil pointer.

    [valid_receipt] describes the receipts of the Gateway contract, and
    [VerifyVerificationReceipt_spec] shows that the checks accept these and no
    others. *)

From S2P Require Import Prelude Domain Merkle Evidence TrustView Registry Reorg Planner.
From S2P Require Import PathProof Coordinator ChainABI.
Import Domain ChainABI.

Module Receipt.

#[local] Existing Instances ChainABI.Log_eq_dec.

Record EthReceipt := mkReceipt {
  Status : Z;
  rc_TxHash : Hash;
  rc_BlockHash : Hash;
  rc_BlockNumber : option Z;
  TransactionIndex : Z;
  Logs : list (option Log)
}.

Definition ReceiptStatusSuccessful : Z := 1.

Record VerificationReceiptInput := mkInput {
  in_Gateway : Address;
  in_BlockHash : Hash;
  in_BlockNumber : Z;
  in_ParentHash : Hash;
  in_MerkleDepth : Z;
  in_Request : Coordinator.Request;
  in_Receipt : option EthReceipt
}.

Record MembershipWitnessMaterial := mkMaterial {
  wm_LeafIndex : Z;
  wm_Siblings : list Hash
}.

Record VerificationReceiptBundle := mkBundle {
  Success : VerificationSucceeded;
  Resolution : RequestResolved;
  bundle_Dependency : option DependencyRecorded;
  Witness : option MembershipWitnessMaterial;
  bundle_Logs : list Log
}.

(** [ErrInvalidVerificationReceipt] is wrapped with a reason. *)
Inductive error :=
| ErrInvalidVerificationReceipt (reason : string)
| ErrReceiptEvent (e : ChainABI.error)
| ErrReceiptTree (e : Merkle.error).

Definition invalidReceipt {A} (reason : string) : res error A :=
  Err (ErrInvalidVerificationReceipt reason).

(** The variables the loop over the logs assigns. *)
Record scan := mkScan {
  successLog : option (Log * VerificationSucceeded);
  resolutionLog : option (Log * RequestResolved);
  updates : list (Log * TrustRootUpdated);
  dependencyLog : option (Log * DependencyRecorded);
  scan_Logs : list Log
}.

Definition empty_scan : scan := mkScan None None [] None [].

(** [switch item.Topics[0]] for a log of the Gateway. *)
Definition scan_log (item : Log) (s : scan) : res error scan :=
  let logs := s.(scan_Logs) ++ [item] in
  match hd_error item.(Topics) with
  | None => invalidReceipt "Gateway log has no topic"
  | Some t =>
      if (t =?= DirectVerificationSucceededTopic) || (t =?= PathVerificationSucceededTopic) then
        match s.(successLog) with
        | Some _ => invalidReceipt "multiple verification success events"
        | None =>
            event ← map_err ErrReceiptEvent (ParseVerificationSucceeded item);
            Ok (mkScan (Some (item, event)) s.(resolutionLog) s.(updates) s.(dependencyLog) logs)
        end
      else if t =?= TrustRootUpdatedTopic then
        event ← map_err ErrReceiptEvent (ParseTrustRootUpdated item);
        Ok (mkScan s.(successLog) s.(resolutionLog) (s.(updates) ++ [(item, event)])
              s.(dependencyLog) logs)
      else if t =?= DependencyRecordedTopic then
        match s.(dependencyLog) with
        | Some _ => invalidReceipt "multiple DependencyRecorded events"
        | None =>
            event ← map_err ErrReceiptEvent (ParseDependencyRecorded item);
            Ok (mkScan s.(successLog) s.(resolutionLog) s.(updates) (Some (item, event)) logs)
        end
      else if t =?= RequestResolvedTopic then
        match s.(resolutionLog) with
        | Some _ => invalidReceipt "multiple RequestResolved events"
        | None =>
            event ← map_err ErrReceiptEvent (ParseRequestResolved item);
            Ok (mkScan s.(successLog) (Some (item, event)) s.(updates) s.(dependencyLog) logs)
        end
      else if t =?= VerificationRequestedTopic then
        invalidReceipt "verification receipt unexpectedly contains VerificationRequested"
      else invalidReceipt "unknown Gateway receipt topic"
  end.

Definition log_coordinates_ok (input : VerificationReceiptInput) (receipt : EthReceipt)
    (item : Log) : bool :=
  (item.(log_BlockHash) =?= input.(in_BlockHash))
  && (item.(log_BlockNumber) =? input.(in_BlockNumber))
  && (item.(log_TxHash) =?= receipt.(rc_TxHash))
  && (item.(log_TxIndex) =? receipt.(TransactionIndex)).

(** The loop over [receipt.Logs]; [previous] is [None] at position 0. *)
Fixpoint scan_loop (input : VerificationReceiptInput) (receipt : EthReceipt)
    (logs : list (option Log)) (previous : option Z) (s : scan) : res error scan :=
  match logs with
  | [] => Ok s
  | None :: _ => invalidReceipt "nil receipt log"
  | Some item :: rest =>
      if negb (log_coordinates_ok input receipt item)
      then invalidReceipt "receipt log coordinate mismatch"
      else if match previous with Some p => item.(log_Index) <=? p | None => false end
      then invalidReceipt "receipt logs are not strictly ordered"
      else
        s' ← (if item.(log_Address) ≠?= input.(in_Gateway) then Ok s else scan_log item s);
        scan_loop input receipt rest (Some item.(log_Index)) s'
  end.

Section Hashing.
Context (keccak256 : bytes → Hash).

Definition verifySuccessAndResolution (request : Coordinator.Request)
    (success : VerificationSucceeded) (resolved : RequestResolved) : res error unit :=
  if (success.(vs_RequestID) ≠?= request.(Coordinator.req_ID))
     || (success.(vs_SourceChainID) ≠?= request.(Coordinator.req_SourceChainID))
     || (success.(vs_SourceHeight) ≠?= request.(Coordinator.req_SourceHeight))
     || (success.(vs_SourceBlockHash) ≠?= request.(Coordinator.req_SourceBlockHash))
     || (success.(vs_DependencyKey) ≠?= resolved.(rr_DependencyKey))
     || (resolved.(rr_RequestID) ≠?= request.(Coordinator.req_ID))
     || (resolved.(rr_Requester) ≠?= request.(Coordinator.req_Requester))
  then invalidReceipt "success and resolution do not bind the observed request"
  else
    let want := TrustView.ComputeDependencyKey keccak256 success.(vs_SourceChainID)
      success.(vs_SourceHeight) success.(vs_SourceBlockHash) success.(vs_SourceTrustRoot) in
    if success.(vs_DependencyKey) ≠?= want
    then invalidReceipt "success dependency key mismatch" else Ok tt.

(** The sibling path the receipt implies for leaf 1: the anchor leaf, then the
    roots of empty subtrees. *)
Definition receipt_siblings (anchorLeaf : Hash) (depth : Z) (zeros : list Hash) : list Hash :=
  anchorLeaf :: take (Z.to_nat depth - 1) (drop 1 zeros).

(** The part of [VerifyVerificationReceipt] for a new dependency. *)
Definition verify_new_dependency (input : VerificationReceiptInput) (s : scan)
    (success : Log * VerificationSucceeded) (resolution : Log * RequestResolved)
    : res error VerificationReceiptBundle :=
  match s.(dependencyLog), s.(updates) with
  | Some (dependencyItem, dependency), [(anchorItem, anchor); (updateItem, update)] =>
      if negb ((success.1.(log_Index) <? anchorItem.(log_Index))
               && (anchorItem.(log_Index) <? updateItem.(log_Index))
               && (updateItem.(log_Index) <? dependencyItem.(log_Index))
               && (dependencyItem.(log_Index) <? resolution.1.(log_Index)))
      then invalidReceipt "new dependency receipt events are misordered"
      else
        let request := input.(in_Request) in
        if (dependency.(dr_RequestID) ≠?= request.(Coordinator.req_ID))
           || (dependency.(dr_SourceChainID) ≠?= request.(Coordinator.req_SourceChainID))
           || (dependency.(dr_SourceHeight) ≠?= request.(Coordinator.req_SourceHeight))
           || (dependency.(dr_SourceBlockHash) ≠?= request.(Coordinator.req_SourceBlockHash))
           || (dependency.(dr_SourceTrustRoot) ≠?= success.2.(vs_SourceTrustRoot))
           || (dependency.(dr_DependencyKey) ≠?= success.2.(vs_DependencyKey))
           || (dependency.(dr_DependencyKey) ≠?= resolution.2.(rr_DependencyKey))
        then invalidReceipt "DependencyRecorded does not bind the request and success event"
        else if dependency.(dr_DependencyKey)
                ≠?= TrustView.ComputeDependencyKey keccak256 dependency.(dr_SourceChainID)
                      dependency.(dr_SourceHeight) dependency.(dr_SourceBlockHash)
                      dependency.(dr_SourceTrustRoot)
        then invalidReceipt "dependency key mismatch"
        else if (anchor.(tu_RequestID) ≠?= request.(Coordinator.req_ID))
                || negb (anchor.(tu_LeafIndex) =? 0) || negb anchor.(tu_IsAnchor)
        then invalidReceipt "invalid anchor update identity"
        else
          let wantAnchorLeaf :=
            LeafHash keccak256 anchor.(tu_OldTrustRoot) input.(in_ParentHash) in
          if anchor.(tu_Leaf) ≠?= wantAnchorLeaf
          then invalidReceipt "anchor leaf does not bind prior root and parent block"
          else
            let dependencyLeaf :=
              LeafHash keccak256 dependency.(dr_SourceTrustRoot)
                dependency.(dr_SourceBlockHash) in
            if (update.(tu_RequestID) ≠?= request.(Coordinator.req_ID))
               || negb (update.(tu_LeafIndex) =? 1) || update.(tu_IsAnchor)
               || negb (dependency.(dr_LeafIndex) =? 1)
               || (update.(tu_Leaf) ≠?= dependencyLeaf)
               || (update.(tu_OldTrustRoot) ≠?= anchor.(tu_NewTrustRoot))
               || (resolution.2.(rr_HomeTrustRoot) ≠?= update.(tu_NewTrustRoot))
            then invalidReceipt "invalid dependency update root chain"
            else
              tree ← map_err ErrReceiptTree
                       (Merkle.NewIncrementalTree keccak256 input.(in_MerkleDepth));
              match Merkle.Append keccak256 tree wantAnchorLeaf with
              | Err _ => invalidReceipt "anchor update root mismatch"
              | Ok tree1 =>
                  if tree1.(Merkle.root) ≠?= anchor.(tu_NewTrustRoot)
                  then invalidReceipt "anchor update root mismatch"
                  else
                    match Merkle.Append keccak256 tree1 dependencyLeaf with
                    | Err _ => invalidReceipt "dependency update root mismatch"
                    | Ok tree2 =>
                        if tree2.(Merkle.root) ≠?= update.(tu_NewTrustRoot)
                        then invalidReceipt "dependency update root mismatch"
                        else
                          zeros ← map_err ErrReceiptTree
                                    (Merkle.ZeroHashes keccak256 input.(in_MerkleDepth));
                          let siblings :=
                            receipt_siblings wantAnchorLeaf input.(in_MerkleDepth) zeros in
                          match Merkle.RootFromWitness keccak256 dependencyLeaf
                                  dependency.(dr_LeafIndex) siblings input.(in_MerkleDepth) with
                          | Err _ =>
                              invalidReceipt "reconstructed membership witness does not close"
                          | Ok root =>
                              if root ≠?= resolution.2.(rr_HomeTrustRoot)
                              then invalidReceipt
                                     "reconstructed membership witness does not close"
                              else
                                Ok (mkBundle success.2 resolution.2 (Some dependency)
                                      (Some (mkMaterial dependency.(dr_LeafIndex) siblings))
                                      s.(scan_Logs))
                          end
                    end
              end
  | _, _ => invalidReceipt "new dependency receipt is incomplete"
  end.

Definition VerifyVerificationReceipt (input : VerificationReceiptInput)
    : res error VerificationReceiptBundle :=
  match input.(in_Receipt) with
  | None => invalidReceipt "missing receipt context"
  | Some receipt =>
      if (input.(in_Gateway) =?= zero_address) || (input.(in_BlockHash) =?= zero32)
         || (input.(in_ParentHash) =?= zero32)
      then invalidReceipt "missing receipt context"
      else if (input.(in_MerkleDepth) =? 0) || (Merkle.MaxTreeDepth <? input.(in_MerkleDepth))
      then invalidReceipt "invalid deployment Merkle depth"
      else if negb (receipt.(Status) =? ReceiptStatusSuccessful)
              || (receipt.(rc_TxHash) =?= zero32)
              || (receipt.(rc_BlockHash) ≠?= input.(in_BlockHash))
              || match receipt.(rc_BlockNumber) with
                 | None => true
                 | Some n => negb (n =? input.(in_BlockNumber))
                 end
              || (MaxUint32 <? receipt.(TransactionIndex))
      then invalidReceipt "failed receipt or mismatched block coordinate"
      else
        s ← scan_loop input receipt receipt.(Logs) None empty_scan;
        match s.(successLog), s.(resolutionLog) with
        | Some success, Some resolution =>
            if resolution.1.(log_Index) <=? success.1.(log_Index)
            then invalidReceipt "missing or misordered success/RequestResolved events"
            else
              _ ← verifySuccessAndResolution input.(in_Request) success.2 resolution.2;
              if negb resolution.2.(rr_NewDependency) then
                if negb (zlen s.(updates) =? 0)
                   || match s.(dependencyLog) with Some _ => true | None => false end
                then invalidReceipt "existing dependency resolution emitted update evidence"
                else Ok (mkBundle success.2 resolution.2 None None s.(scan_Logs))
              else verify_new_dependency input s success resolution
        | _, _ => invalidReceipt "missing or misordered success/RequestResolved events"
        end
  end.

(** ** The receipts of the Gateway *)

Definition gateway_logs (gateway : Address) (logs : list Log) : list Log :=
  List.filter (λ l, l.(log_Address) =?= gateway) logs.

Definition coordinates (input : VerificationReceiptInput) (receipt : EthReceipt)
    (logs : list Log) : Prop :=
  Forall (λ l, l.(log_BlockHash) = input.(in_BlockHash) ∧
               l.(log_BlockNumber) = input.(in_BlockNumber) ∧
               l.(log_TxHash) = receipt.(rc_TxHash) ∧
               l.(log_TxIndex) = receipt.(TransactionIndex)) logs ∧
  Sorted (λ a b, a.(log_Index) < b.(log_Index)) logs.

(** The success and resolution events of a request. *)
Definition resolves (request : Coordinator.Request) (success : VerificationSucceeded)
    (resolved : RequestResolved) : Prop :=
  success.(vs_RequestID) = request.(Coordinator.req_ID) ∧
  success.(vs_SourceChainID) = request.(Coordinator.req_SourceChainID) ∧
  success.(vs_SourceHeight) = request.(Coordinator.req_SourceHeight) ∧
  success.(vs_SourceBlockHash) = request.(Coordinator.req_SourceBlockHash) ∧
  success.(vs_DependencyKey) = TrustView.ComputeDependencyKey keccak256
    success.(vs_SourceChainID) success.(vs_SourceHeight) success.(vs_SourceBlockHash)
    success.(vs_SourceTrustRoot) ∧
  resolved.(rr_RequestID) = request.(Coordinator.req_ID) ∧
  resolved.(rr_Requester) = request.(Coordinator.req_Requester) ∧
  resolved.(rr_DependencyKey) = success.(vs_DependencyKey).

(** The two leaves a new dependency adds to the tree of its block: an anchor
    to the parent block, and the dependency. *)
Definition block_leaves (input : VerificationReceiptInput) (oldRoot : Hash)
    (success : VerificationSucceeded) : list Hash :=
  [LeafHash keccak256 oldRoot input.(in_ParentHash);
   LeafHash keccak256 success.(vs_SourceTrustRoot) success.(vs_SourceBlockHash)].

(** The event a Gateway emits for each of the two leaves. *)
Definition leaf_update (input : VerificationReceiptInput) (oldRoot : Hash)
    (success : VerificationSucceeded) (index : Z) : TrustRootUpdated :=
  let leaves := block_leaves input oldRoot success in
  let n := Z.to_nat index in
  mkUpdated input.(in_Request).(Coordinator.req_ID) index (Merkle.leaf_at leaves index)
    (if index =? 0 then oldRoot
     else Merkle.merkle_root keccak256 input.(in_MerkleDepth) (take n leaves))
    (Merkle.merkle_root keccak256 input.(in_MerkleDepth) (take (S n) leaves))
    (index =? 0).

Definition recorded_dependency (success : VerificationSucceeded) : DependencyRecorded :=
  mkRecorded success.(vs_DependencyKey) success.(vs_RequestID) success.(vs_SourceChainID)
    success.(vs_SourceHeight) success.(vs_SourceBlockHash) success.(vs_SourceTrustRoot) 1.

(** The logs of the Gateway in a successful verification: success and
    resolution when the dependency was known, and between them the two leaf
    updates and the recorded dependency when it is new. *)
Inductive verification_logs (input : VerificationReceiptInput) :
    list Log → VerificationReceiptBundle → Prop :=
| existing_dependency slog rlog success resolved :
    succeeded_log slog success → resolved_log rlog resolved →
    resolves input.(in_Request) success resolved → resolved.(rr_NewDependency) = false →
    verification_logs input [slog; rlog] (mkBundle success resolved None None [slog; rlog])
| new_dependency slog alog ulog dlog rlog success resolved oldRoot :
    let leaves := block_leaves input oldRoot success in
    succeeded_log slog success →
    updated_log alog (leaf_update input oldRoot success 0) →
    updated_log ulog (leaf_update input oldRoot success 1) →
    recorded_log dlog (recorded_dependency success) →
    resolved_log rlog resolved →
    resolves input.(in_Request) success resolved → resolved.(rr_NewDependency) = true →
    resolved.(rr_HomeTrustRoot) = Merkle.merkle_root keccak256 input.(in_MerkleDepth) leaves →
    verification_logs input [slog; alog; ulog; dlog; rlog]
      (mkBundle success resolved (Some (recorded_dependency success))
         (Some (mkMaterial 1
            (Merkle.witness_for keccak256 input.(in_MerkleDepth) leaves 1).(Siblings)))
         [slog; alog; ulog; dlog; rlog]).

Definition valid_receipt (input : VerificationReceiptInput) (bundle : VerificationReceiptBundle)
    : Prop :=
  ∃ receipt logs,
    input.(in_Receipt) = Some receipt ∧ receipt.(Logs) = map Some logs ∧
    input.(in_Gateway) ≠ zero_address ∧ input.(in_BlockHash) ≠ zero32 ∧
    input.(in_ParentHash) ≠ zero32 ∧ 1 ≤ input.(in_MerkleDepth) ≤ 32 ∧
    receipt.(Status) = 1 ∧ receipt.(rc_TxHash) ≠ zero32 ∧
    receipt.(rc_BlockHash) = input.(in_BlockHash) ∧
    receipt.(rc_BlockNumber) = Some input.(in_BlockNumber) ∧
    receipt.(TransactionIndex) ≤ MaxUint32 ∧
    coordinates input receipt logs ∧
    verification_logs input (gateway_logs input.(in_Gateway) logs) bundle.

End Hashing.

(** ** Lemmas *)

(** *** The reconstructed witness *)

Lemma hash_at_seq (l : list Hash) n :
  (n < length l)%nat → map (Merkle.hash_at l) (seq 1 n) = take n (drop 1 l).
Proof.
  intros Hn. apply list_eq. intros i. destruct (decide (i < n)%nat) as [Hi|Hi].
  - rewrite list_lookup_fmap, lookup_seq_lt by done. rewrite lookup_take_lt, lookup_drop by done.
    cbn [fmap option_fmap option_map]. unfold Merkle.hash_at.
    destruct (lookup_lt_is_Some_2 l (1 + i)) as [x ->]; [lia|done].
  - rewrite !lookup_ge_None_2; [done| |].
    + rewrite length_take. lia.
    + rewrite length_fmap, length_seq. lia.
Qed.

Lemma sibling_path_zero keccak256 f n : ∀ k,
  Merkle.sibling_path keccak256 f n k 0 = map (λ i, Merkle.node keccak256 f i 1) (seq k n).
Proof. induction n as [|n IH]; intros k; [done|]. cbn. by rewrite <-IH. Qed.

Lemma receipt_siblings_spec keccak256 anchor leaf d zeros :
  1 ≤ d ≤ 32 → Merkle.ZeroHashes keccak256 d = Ok zeros →
  receipt_siblings anchor d zeros = (Merkle.witness_for keccak256 d [anchor; leaf] 1).(Siblings).
Proof.
  intros Hd Hz. unfold Merkle.ZeroHashes in Hz.
  rewrite (proj2 (Merkle.validateDepth_ok d ltac:(lia)) Hd) in Hz. injection Hz as <-.
  unfold receipt_siblings, Merkle.witness_for. cbn [Siblings].
  destruct (Z.to_nat d) as [|n] eqn:En; [lia|]. cbn [Merkle.sibling_path].
  f_equal. rewrite Nat.sub_succ, Nat.sub_0_r. change (Z.shiftr 1 1) with 0.
  rewrite sibling_path_zero, <-hash_at_seq
    by (cbn [length]; rewrite Merkle.length_zero_levels; lia).
  apply map_ext_in. intros i Hi%in_seq. rewrite Merkle.zero_levels_at, !Merkle.node_zero by lia.
  rewrite <-(Merkle.node_zero _ i 1). symmetry. apply Merkle.node_ext. intros j Hj.
  apply Merkle.leaf_at_beyond. change (zlen [anchor; leaf]) with 2.
  replace (Z.of_nat i) with (Z.succ (Z.of_nat (i - 1))) in Hj by lia.
  rewrite Z.pow_succ_r in Hj by lia.
  assert (0 < 2 ^ Z.of_nat (i - 1)) by (apply Z.pow_pos_nonneg; lia). lia.
Qed.

(** The two appends and the witness of a receipt, on an empty tree. *)
Lemma receipt_tree keccak256 d anchor leaf :
  1 ≤ d ≤ 32 → ∃ tree tree1 tree2 zeros,
    Merkle.NewIncrementalTree keccak256 d = Ok tree ∧
    Merkle.Append keccak256 tree anchor = Ok tree1 ∧
    Merkle.Append keccak256 tree1 leaf = Ok tree2 ∧
    Merkle.root tree1 = Merkle.merkle_root keccak256 d [anchor] ∧
    Merkle.root tree2 = Merkle.merkle_root keccak256 d [anchor; leaf] ∧
    Merkle.ZeroHashes keccak256 d = Ok zeros ∧
    receipt_siblings anchor d zeros = (Merkle.witness_for keccak256 d [anchor; leaf] 1).(Siblings) ∧
    Merkle.RootFromWitness keccak256 leaf 1 (receipt_siblings anchor d zeros) d
      = Ok (Merkle.merkle_root keccak256 d [anchor; leaf]).
Proof.
  intros Hd. assert (2 ≤ 2 ^ d) as H2 by (change 2 with (2 ^ 1) at 1; apply Z.pow_le_mono_r; lia).
  destruct (Merkle.NewIncrementalTree_represents keccak256 d Hd) as (tree & Ht & R0).
  pose proof (Merkle.Append_refines keccak256 d [] tree anchor R0) as H1.
  destruct (Merkle.Append keccak256 tree anchor) as [tree1|] eqn:E1;
    [|destruct H1 as [_ H1]; change (zlen []) with 0 in H1; lia].
  destruct H1 as [_ R1]. cbn [app] in R1.
  pose proof (Merkle.Append_refines keccak256 d [anchor] tree1 leaf R1) as H3.
  destruct (Merkle.Append keccak256 tree1 leaf) as [tree2|] eqn:E2;
    [|destruct H3 as [_ H3]; change (zlen [anchor]) with 1 in H3; lia].
  destruct H3 as [_ R2]. cbn [app] in R2.
  assert (∃ zeros, Merkle.ZeroHashes keccak256 d = Ok zeros) as [zeros Hz].
  { unfold Merkle.ZeroHashes. rewrite (proj2 (Merkle.validateDepth_ok d ltac:(lia)) Hd). eauto. }
  exists tree, tree1, tree2, zeros.
  pose proof (receipt_siblings_spec keccak256 anchor leaf d zeros Hd Hz) as Hs.
  split_and!; try done; [apply R1|apply R2|]. rewrite Hs.
  exact (Merkle.witness_closes keccak256 d [anchor; leaf] 1 Hd ltac:(lia)).
Qed.

(** *** The loop over the logs *)

Fixpoint gateway_scan (logs : list Log) (s : scan) : res error scan :=
  match logs with
  | [] => Ok s
  | item :: rest => s' ← scan_log item s; gateway_scan rest s'
  end.

Definition index_lt (a b : Log) : Prop := a.(log_Index) < b.(log_Index).

#[export] Instance index_lt_trans : Transitive index_lt.
Proof. intros a b c. unfold index_lt. lia. Qed.
#[export] Instance index_lt_antisymm : AntiSymm (=) index_lt.
Proof. intros a b. unfold index_lt. lia. Qed.

Definition after (previous : option Z) (logs : list Log) : Prop :=
  match previous, logs with Some p, l :: _ => p < l.(log_Index) | _, _ => True end.

Lemma coordinates_cons input receipt l logs :
  coordinates input receipt (l :: logs) ↔
  log_coordinates_ok input receipt l = true ∧ after (Some l.(log_Index)) logs ∧
  coordinates input receipt logs.
Proof.
  unfold coordinates, log_coordinates_ok. rewrite Forall_cons, !andb_true_iff,
    !bool_decide_eq_true, !Z.eqb_eq.
  split.
  - intros [[? ?] [Hs Hh]%Sorted_inv]. split_and!; try naive_solver.
    destruct logs as [|l' logs]; [done|]. by apply HdRel_inv in Hh.
  - intros (H & Ha & HF & Hs). split; [naive_solver|]. constructor; [done|].
    destruct logs as [|l' logs]; constructor. exact Ha.
Qed.

Lemma scan_loop_Ok input receipt logs : ∀ previous s s',
  scan_loop input receipt logs previous s = Ok s' ↔
  ∃ ls, logs = map Some ls ∧ after previous ls ∧ coordinates input receipt ls ∧
    gateway_scan (gateway_logs input.(in_Gateway) ls) s = Ok s'.
Proof.
  induction logs as [|[item|] logs IH]; intros previous s s'; cbn [scan_loop].
  - split.
    + intros [= <-]. exists []. split_and!; [done|by destruct previous| |done]. by split.
    + intros ([|l ls] & He & _ & _ & H); [exact H|done].
  - split.
    + intros [Hc H]%bind_bool. apply bind_bool in H as [Hp H].
      apply bind_Ok in H as (s1 & H1 & (ls & -> & Ha & Hco & H)%IH).
      apply negb_false_iff in Hc. exists (item :: ls). split; [done|]. split.
      { destruct previous as [p|]; [|done]. apply Z.leb_gt in Hp. exact Hp. }
      split; [by apply coordinates_cons|]. unfold gateway_logs in *. cbn [List.filter].
      case_bool_decide; cbn [negb gateway_scan] in *; [by rewrite H1|by injection H1 as ->].
    + intros ([|l ls] & [= <- ->] & Ha & (Hc & Hn & Hco)%coordinates_cons & H).
      rewrite Hc. cbn [negb].
      replace (match previous with Some p => item.(log_Index) <=? p | None => false end) with false
        by (destruct previous as [p|]; [symmetry; apply Z.leb_gt; exact Ha|done]).
      unfold gateway_logs in H. cbn [List.filter] in H. case_bool_decide; cbn [negb gateway_scan] in *.
      * apply bind_Ok in H as (s1 & -> & H). cbn. apply IH. by exists ls.
      * cbn. apply IH. by exists ls.
  - split; [done|]. by intros ([|l ls] & He & _).
Qed.

Definition event_log {E} (o : option (Log * E)) : list Log :=
  match o with Some p => [p.1] | None => [] end.

(** The logs kept are those of the events found, each parsed. *)
Record scanned (s : scan) : Prop := {
  sc_success l e : s.(successLog) = Some (l, e) → succeeded_log l e;
  sc_resolution l e : s.(resolutionLog) = Some (l, e) → resolved_log l e;
  sc_dependency l e : s.(dependencyLog) = Some (l, e) → recorded_log l e;
  sc_updates : Forall (λ p, updated_log p.1 p.2) s.(updates);
  sc_logs : s.(scan_Logs) ≡ₚ event_log s.(successLog) ++ (fst <$> s.(updates))
              ++ event_log s.(dependencyLog) ++ event_log s.(resolutionLog)
}.

Lemma scan_log_Ok item s s' :
  scan_log item s = Ok s' → scanned s →
  scanned s' ∧ s'.(scan_Logs) = s.(scan_Logs) ++ [item].
Proof.
  unfold scan_log. intros H [W1 W2 W3 W4 W5]. destruct (hd_error (Topics item)) as [t|]; [|done].
  destruct (_ || _); [|case_bool_decide; [|case_bool_decide; [|case_bool_decide;
    [|by case_bool_decide]]]].
  - destruct (successLog s) eqn:Es; [done|].
    apply bind_Ok in H as (e & He%map_err_Ok%ParseVerificationSucceeded_Ok & [= <-]).
    split; [|done]. split; cbn; try done; [by intros ? ? [= <- <-]|].
    rewrite W5. cbn. by rewrite Permutation_app_comm.
  - apply bind_Ok in H as (e & He%map_err_Ok%ParseTrustRootUpdated_Ok & [= <-]).
    split; [|done]. split; cbn; try done; [by apply Forall_app; split; [|constructor]|].
    rewrite W5, fmap_app. cbn. solve_Permutation.
  - destruct (dependencyLog s) eqn:Es; [done|].
    apply bind_Ok in H as (e & He%map_err_Ok%ParseDependencyRecorded_Ok & [= <-]).
    split; [|done]. split; cbn; try done; [by intros ? ? [= <- <-]|].
    rewrite W5. cbn. solve_Permutation.
  - destruct (resolutionLog s) eqn:Es; [done|].
    apply bind_Ok in H as (e & He%map_err_Ok%ParseRequestResolved_Ok & [= <-]).
    split; [|done]. split; cbn; try done; [by intros ? ? [= <- <-]|].
    rewrite W5. cbn. solve_Permutation.
Qed.

Lemma gateway_scan_Ok ls : ∀ s s',
  gateway_scan ls s = Ok s' → scanned s → scanned s' ∧ s'.(scan_Logs) = s.(scan_Logs) ++ ls.
Proof.
  induction ls as [|l ls IH]; intros s s' H W; cbn in H.
  - injection H as <-. by rewrite app_nil_r.
  - apply bind_Ok in H as (s1 & [W1 E1]%scan_log_Ok & [W' E']%IH); [|done..].
    split; [done|]. by rewrite E', E1, <-(assoc_L (++)).
Qed.

Lemma empty_scanned : scanned empty_scan.
Proof. by split. Qed.

(** How each event is read. *)
Lemma topics_distinct :
  (TrustRootUpdatedTopic =?= DirectVerificationSucceededTopic) = false ∧
  (TrustRootUpdatedTopic =?= PathVerificationSucceededTopic) = false ∧
  (DependencyRecordedTopic =?= DirectVerificationSucceededTopic) = false ∧
  (DependencyRecordedTopic =?= PathVerificationSucceededTopic) = false ∧
  (DependencyRecordedTopic =?= TrustRootUpdatedTopic) = false ∧
  (RequestResolvedTopic =?= DirectVerificationSucceededTopic) = false ∧
  (RequestResolvedTopic =?= PathVerificationSucceededTopic) = false ∧
  (RequestResolvedTopic =?= TrustRootUpdatedTopic) = false ∧
  (RequestResolvedTopic =?= DependencyRecordedTopic) = false.
Proof. split_and!; vm_compute; reflexivity. Qed.

#[local] Ltac read_topic Ht :=
  unfold scan_log; rewrite Ht; cbn [hd_error];
  let D := fresh in pose proof topics_distinct as D;
  repeat match type of D with _ ∧ _ => let E := fresh in destruct D as [E D]; rewrite ?E; clear E end;
  rewrite ?D; clear D;
  repeat match goal with |- context [bool_decide (?a = ?a)] =>
    rewrite (bool_decide_eq_true_2 (a = a)) by exact eq_refl end;
  rewrite ?orb_true_r; cbn [orb].

Lemma scan_success l e s :
  succeeded_log l e → s.(successLog) = None →
  scan_log l s = Ok (mkScan (Some (l, e)) s.(resolutionLog) s.(updates) s.(dependencyLog)
                       (s.(scan_Logs) ++ [l])).
Proof.
  intros Hlog Hs. pose proof (proj2 (ParseVerificationSucceeded_Ok l e) Hlog) as Hp.
  destruct Hlog as [_ Hlog]. destruct (vs_Path e), (vs_HopCount e); try done.
  - destruct Hlog as (_ & Ht & _). read_topic Ht. by rewrite Hs, Hp.
  - destruct Hlog as (Ht & _). read_topic Ht. by rewrite Hs, Hp.
Qed.

Lemma scan_update l e s :
  updated_log l e →
  scan_log l s = Ok (mkScan s.(successLog) s.(resolutionLog) (s.(updates) ++ [(l, e)])
                       s.(dependencyLog) (s.(scan_Logs) ++ [l])).
Proof.
  intros Hlog. pose proof (proj2 (ParseTrustRootUpdated_Ok l e) Hlog) as Hp.
  destruct Hlog as [[Ht _] _]. read_topic Ht. by rewrite Hp.
Qed.

Lemma scan_dependency l e s :
  recorded_log l e → s.(dependencyLog) = None →
  scan_log l s = Ok (mkScan s.(successLog) s.(resolutionLog) s.(updates) (Some (l, e))
                       (s.(scan_Logs) ++ [l])).
Proof.
  intros Hlog Hs. pose proof (proj2 (ParseDependencyRecorded_Ok l e) Hlog) as Hp.
  destruct Hlog as [[Ht _] _]. read_topic Ht. by rewrite Hs, Hp.
Qed.

Lemma scan_resolution l e s :
  resolved_log l e → s.(resolutionLog) = None →
  scan_log l s = Ok (mkScan s.(successLog) (Some (l, e)) s.(updates) s.(dependencyLog)
                       (s.(scan_Logs) ++ [l])).
Proof.
  intros Hlog Hs. pose proof (proj2 (ParseRequestResolved_Ok l e) Hlog) as Hp.
  destruct Hlog as [Ht _]. read_topic Ht. by rewrite Hs, Hp.
Qed.

Section Verification.
Context (keccak256 : bytes → Hash).

Lemma verifySuccess_Ok request success resolved :
  verifySuccessAndResolution keccak256 request success resolved = Ok tt ↔
  resolves keccak256 request success resolved.
Proof.
  unfold verifySuccessAndResolution, resolves. split.
  - intros [H1 H2]%bind_bool. apply bind_bool in H2 as [H2 _]. bool_to_prop.
    split_and!; congruence.
  - intros (-> & -> & -> & -> & Hk & -> & -> & ->). rewrite <-Hk.
    by rewrite !bool_decide_eq_true_2.
Qed.

Lemma leaf_update_0 input oldRoot success :
  leaf_update keccak256 input oldRoot success 0
  = mkUpdated input.(in_Request).(Coordinator.req_ID) 0
      (LeafHash keccak256 oldRoot input.(in_ParentHash)) oldRoot
      (Merkle.merkle_root keccak256 input.(in_MerkleDepth)
         [LeafHash keccak256 oldRoot input.(in_ParentHash)]) true.
Proof. reflexivity. Qed.

Lemma leaf_update_1 input oldRoot success :
  leaf_update keccak256 input oldRoot success 1
  = mkUpdated input.(in_Request).(Coordinator.req_ID) 1
      (LeafHash keccak256 success.(vs_SourceTrustRoot) success.(vs_SourceBlockHash))
      (Merkle.merkle_root keccak256 input.(in_MerkleDepth)
         [LeafHash keccak256 oldRoot input.(in_ParentHash)])
      (Merkle.merkle_root keccak256 input.(in_MerkleDepth)
         (block_leaves keccak256 input oldRoot success)) false.
Proof. reflexivity. Qed.

Definition new_bundle (input : VerificationReceiptInput) (oldRoot : Hash)
    (success : VerificationSucceeded) (resolved : RequestResolved) (logs : list Log)
    : VerificationReceiptBundle :=
  mkBundle success resolved (Some (recorded_dependency success))
    (Some (mkMaterial 1 (Merkle.witness_for keccak256 input.(in_MerkleDepth)
                           (block_leaves keccak256 input oldRoot success) 1).(Siblings)))
    logs.

Lemma verify_new_Ok input s slog success rlog resolved bundle :
  1 ≤ input.(in_MerkleDepth) ≤ 32 → resolves keccak256 input.(in_Request) success resolved →
  verify_new_dependency keccak256 input s (slog, success) (rlog, resolved) = Ok bundle ↔
  ∃ alog ulog dlog oldRoot,
    s.(dependencyLog) = Some (dlog, recorded_dependency success) ∧
    s.(updates) = [(alog, leaf_update keccak256 input oldRoot success 0);
                   (ulog, leaf_update keccak256 input oldRoot success 1)] ∧
    Sorted index_lt [slog; alog; ulog; dlog; rlog] ∧
    resolved.(rr_HomeTrustRoot) = Merkle.merkle_root keccak256 input.(in_MerkleDepth)
      (block_leaves keccak256 input oldRoot success) ∧
    bundle = new_bundle input oldRoot success resolved s.(scan_Logs).
Proof.
  intros Hd HQ. destruct success as [s1 s2 s3 s4 s5 s6 s7 s8].
  unfold verify_new_dependency, block_leaves, new_bundle, recorded_dependency, resolves in *.
  cbn [vs_RequestID vs_SourceChainID vs_SourceHeight vs_SourceBlockHash vs_SourceTrustRoot
    vs_DependencyKey vs_Path vs_HopCount fst snd] in *.
  destruct HQ as (-> & -> & -> & -> & -> & Q6 & Q7 & Q8). split.
  - destruct (dependencyLog s) as [[dlog dep]|]; [|done].
    destruct (updates s) as [|[alog anchor] [|[ulog update] [|]]]; try done.
    intros [Hord H]%bind_bool. apply bind_bool in H as [Hdep H]. apply bind_bool in H as [Hkey H].
    apply bind_bool in H as [Hanc H]. apply bind_bool in H as [Hal H]. apply bind_bool in H as [Hup H].
    destruct anchor as [a1 a2 a3 a4 a5 a6], update as [u1 u2 u3 u4 u5 u6],
      dep as [d1 d2 d3 d4 d5 d6 d7]; cbn [tu_RequestID tu_LeafIndex tu_Leaf tu_OldTrustRoot
        tu_NewTrustRoot tu_IsAnchor dr_DependencyKey dr_RequestID dr_SourceChainID dr_SourceHeight
        dr_SourceBlockHash dr_SourceTrustRoot dr_LeafIndex fst snd] in *.
    bool_to_prop. subst.
    destruct (receipt_tree keccak256 (in_MerkleDepth input) (LeafHash keccak256 a4 (in_ParentHash input))
      (LeafHash keccak256 s5 (Coordinator.req_SourceBlockHash (in_Request input))) Hd)
      as (tree & tree1 & tree2 & zeros & E1 & E2 & E3 & R1 & R2 & Ez & Es & Er).
    rewrite E1 in H. cbn [map_err mbind res_mbind res_bind] in H. rewrite E2 in H.
    apply bind_bool in H as [Hr1 H]. rewrite E3 in H. apply bind_bool in H as [Hr2 H].
    rewrite Ez in H. cbn [map_err mbind res_mbind res_bind] in H. rewrite Er in H.
    apply bind_bool in H as [_ [= <-]]. bool_to_prop. subst a5.
    exists alog, ulog, dlog, a4. rewrite leaf_update_0, leaf_update_1, Es, R1, <-R2.
    unfold block_leaves. cbn [vs_SourceTrustRoot vs_SourceBlockHash]. rewrite <-Hr2, <-R2.
    split_and!; try done. repeat constructor; done.
  - intros (alog & ulog & dlog & oldRoot & -> & -> & Hs & Hh & ->).
    rewrite leaf_update_0, leaf_update_1. cbn [tu_RequestID tu_LeafIndex tu_Leaf tu_OldTrustRoot
        tu_NewTrustRoot tu_IsAnchor dr_DependencyKey dr_RequestID dr_SourceChainID dr_SourceHeight
        dr_SourceBlockHash dr_SourceTrustRoot dr_LeafIndex fst snd].
    unfold block_leaves in *. cbn [vs_SourceTrustRoot vs_SourceBlockHash].
    apply Sorted_StronglySorted in Hs; [|apply _]. repeat (apply StronglySorted_inv in Hs as [Hs ?]).
    repeat match goal with H : Forall _ (_ :: _) |- _ => apply Forall_cons in H as [? _] end.
    unfold index_lt in *. rewrite !(proj2 (Z.ltb_lt _ _)) by done.
    rewrite Q8, Hh, !bool_decide_eq_true_2 by done. cbn [negb orb andb Z.eqb].
    destruct (receipt_tree keccak256 (in_MerkleDepth input) (LeafHash keccak256 oldRoot (in_ParentHash input))
      (LeafHash keccak256 s5 (Coordinator.req_SourceBlockHash (in_Request input))) Hd)
      as (tree & tree1 & tree2 & zeros & E1 & E2 & E3 & R1 & R2 & Ez & Es & Er).
    rewrite E1. cbn [map_err mbind res_mbind res_bind]. rewrite E2, R1, bool_decide_eq_true_2 by done.
    cbn [negb]. rewrite E3, R2, bool_decide_eq_true_2 by done. cbn [negb].
    rewrite Ez. cbn [map_err mbind res_mbind res_bind]. rewrite Er.
    rewrite bool_decide_eq_true_2 by done. cbn [negb]. by rewrite Es.
Qed.

Lemma gateway_logs_sorted gateway ls :
  Sorted index_lt ls → StronglySorted index_lt (gateway_logs gateway ls).
Proof.
  intros Hs%Sorted_StronglySorted; [|apply _]. induction Hs as [|l ls Hs IH HF]; [constructor|].
  unfold gateway_logs in *. cbn. case_bool_decide; [|exact IH]. constructor; [exact IH|].
  rewrite Forall_forall in HF |- *. intros x Hx%list_elem_of_In%filter_In.
  apply HF, list_elem_of_In, Hx.
Qed.

(** The logs kept, in the order of their indexes. *)
Lemma scanned_order gateway ls l :
  Sorted index_lt ls → Sorted index_lt l → gateway_logs gateway ls ≡ₚ l →
  gateway_logs gateway ls = l.
Proof.
  intros Hls Hl Hp. eapply (StronglySorted_unique index_lt); [by apply gateway_logs_sorted| |done].
  apply Sorted_StronglySorted; [apply _|done].
Qed.

(** The order of the logs, as the final tests read it. *)
Lemma gateway_order gateway ls l :
  Sorted index_lt ls → gateway_logs gateway ls = l → Sorted index_lt l.
Proof. intros H <-. by apply StronglySorted_Sorted, gateway_logs_sorted. Qed.

Lemma VerifyVerificationReceipt_sound input bundle :
  0 ≤ input.(in_MerkleDepth) →
  VerifyVerificationReceipt keccak256 input = Ok bundle → valid_receipt keccak256 input bundle.
Proof.
  intros H0. unfold VerifyVerificationReceipt, valid_receipt, Merkle.MaxTreeDepth.
  destruct (in_Receipt input) as [receipt|]; [|done].
  intros [Hctx H]%bind_bool. apply bind_bool in H as [Hdep H]. apply bind_bool in H as [Hrc H].
  apply bind_Ok in H as (s & (ls & Els & _ & Hco & Hscan)%scan_loop_Ok & H).
  apply orb_false_iff in Hrc as [Hrc Hti]. apply orb_false_iff in Hrc as [Hrc Hbn].
  unfold ReceiptStatusSuccessful in Hrc.
  destruct (rc_BlockNumber receipt) as [n|] eqn:En; [|done]. bool_to_prop. subst n.
  exists receipt, ls. split_and!; try done; [lia|].
  apply gateway_scan_Ok in Hscan as [[W1 W2 W3 W4 W5] El]; [|exact empty_scanned].
  cbn [scan_Logs empty_scan app] in El. rewrite El in W5. destruct Hco as [_ Hord].
  destruct (successLog s) as [[slog success]|]; [|done].
  destruct (resolutionLog s) as [[rlog resolved]|]; [|done].
  pose proof (W1 _ _ eq_refl) as Hsl. pose proof (W2 _ _ eq_refl) as Hrl. cbn [fst snd] in H.
  apply bind_bool in H as [Hlt%Z.leb_gt H].
  apply bind_Ok in H as ([] & Hres%verifySuccess_Ok & H). cbn [event_log fst] in W5.
  destruct (rr_NewDependency resolved) eqn:Hnew; cbn [negb] in H.
  - apply verify_new_Ok in H as (alog & ulog & dlog & oldRoot & Ed & Eu & Hs & Hh & ->);
      [|lia|exact Hres].
    rewrite Ed, Eu in W5. cbn in W5.
    apply (scanned_order _ _ [slog; alog; ulog; dlog; rlog]) in W5; [|done..].
    rewrite El, W5. rewrite Eu in W4. apply Forall_cons in W4 as [Ha W4].
    apply Forall_cons in W4 as [Hu _]. by apply new_dependency with (oldRoot := oldRoot); eauto.
  - apply bind_bool in H as [He [= <-]]. apply orb_false_iff in He as [He1 He2].
    apply negb_false_iff, Z.eqb_eq, zlen_nil_iff in He1. rewrite He1 in W5.
    destruct (dependencyLog s); [done|]. cbn in W5.
    apply (scanned_order _ _ [slog; rlog]) in W5; [|done|repeat constructor; done].
    rewrite El, W5. by constructor.
Qed.

Lemma VerifyVerificationReceipt_complete input bundle :
  valid_receipt keccak256 input bundle → VerifyVerificationReceipt keccak256 input = Ok bundle.
Proof.
  intros (receipt & ls & Er & Els & Hg & Hb & Hp & Hd & Hst & Htx & Hbh & Hbn & Hti & Hco & Hlogs).
  unfold VerifyVerificationReceipt, Merkle.MaxTreeDepth, ReceiptStatusSuccessful.
  rewrite Er, Hst, Hbh, Hbn, Z.eqb_refl, Z.eqb_refl. rewrite !bool_decide_eq_false_2 by done.
  rewrite bool_decide_eq_true_2 by done. cbn [orb negb].
  rewrite (proj2 (Z.eqb_neq _ _)), !(proj2 (Z.ltb_ge _ _)) by lia. cbn [orb].
  pose proof (proj2 Hco) as Hord.
  pose proof (λ s', scan_loop_Ok input receipt (Logs receipt) None empty_scan s') as Hscan.
  remember (gateway_logs (in_Gateway input) ls) as gl eqn:Egl. symmetry in Egl.
  pose proof (gateway_order _ _ _ Hord Egl) as Hgl.
  destruct Hlogs as [slog rlog success resolved Hs Hr Hres Hnew
    |slog alog ulog dlog rlog success resolved oldRoot leaves Hs Ha Hu Hdl Hr Hres Hnew Hhome].
  - rewrite (proj2 (Hscan (mkScan (Some (slog, success)) (Some (rlog, resolved)) [] None [slog; rlog]))).
    2:{ exists ls. split_and!; [done|done|done|]. rewrite Egl. cbn [gateway_scan].
        rewrite (scan_success _ _ _ Hs) by done. cbn [mbind res_mbind res_bind].
        by rewrite (scan_resolution _ _ _ Hr). }
    cbn [mbind res_mbind res_bind successLog resolutionLog fst snd updates dependencyLog scan_Logs].
    apply Sorted_inv in Hgl as [_ Hhd%HdRel_inv]. unfold index_lt in Hhd.
    rewrite (proj2 (Z.leb_gt _ _)) by done. rewrite (proj2 (verifySuccess_Ok _ _ _) Hres), Hnew. done.
  - rewrite (proj2 (Hscan (mkScan (Some (slog, success)) (Some (rlog, resolved))
      [(alog, leaf_update keccak256 input oldRoot success 0);
       (ulog, leaf_update keccak256 input oldRoot success 1)]
      (Some (dlog, recorded_dependency success)) [slog; alog; ulog; dlog; rlog]))).
    2:{ exists ls. split_and!; [done|done|done|]. rewrite Egl. cbn [gateway_scan].
        rewrite (scan_success _ _ _ Hs) by done. cbn [mbind res_mbind res_bind].
        rewrite (scan_update _ _ _ Ha). cbn [mbind res_mbind res_bind].
        rewrite (scan_update _ _ _ Hu). cbn [mbind res_mbind res_bind].
        rewrite (scan_dependency _ _ _ Hdl) by done. cbn [mbind res_mbind res_bind].
        by rewrite (scan_resolution _ _ _ Hr). }
    cbn [mbind res_mbind res_bind successLog resolutionLog fst snd].
    pose proof (Sorted_StronglySorted _ _ Hgl) as Hss.
    apply StronglySorted_inv in Hss as [_ Hhd]. rewrite !Forall_cons in Hhd.
    destruct Hhd as (_ & _ & _ & Hhd & _). unfold index_lt in Hhd.
    rewrite (proj2 (Z.leb_gt _ _)) by done. rewrite (proj2 (verifySuccess_Ok _ _ _) Hres), Hnew.
    cbn [mbind res_mbind res_bind negb].
    apply verify_new_Ok; [exact Hd|exact Hres|].
    exists alog, ulog, dlog, oldRoot. by split_and!.
Qed.

End Verification.

(** Closed instance: the receipt of a new dependency on block 10 of chain 2,
    with a log of another contract between the logs of the Gateway. *)
Definition w (n : Z) : bytes32 := be_vec 32 n.

Definition sample_log (topics words : list bytes32) (gateway index : Z) : Log :=
  mkLog (be_vec 20 gateway) topics (concat_words words) 50 (w 77) 4 (w 88) index false.

Definition sample_eth_request : Coordinator.Request :=
  Coordinator.mkRequest (w 9) (w 1) (be_vec 20 7) (be_vec 20 5) (w 3) (w 2) (w 10) (w 99)
    Coordinator.Observed "" None None.

Definition sample_success : VerificationSucceeded :=
  mkSucceeded (w 9) (w 2) (w 10) (w 99) (w 222)
    (TrustView.ComputeDependencyKey sample_hash (w 2) (w 10) (w 99) (w 222)) false None.

Definition sample_input (receipt : option EthReceipt) : VerificationReceiptInput :=
  mkInput (be_vec 20 7) (w 88) 50 (w 87) 3 sample_eth_request receipt.

Definition update_log (u : TrustRootUpdated) (index : Z) : Log :=
  sample_log [TrustRootUpdatedTopic; u.(tu_RequestID); uint_word u.(tu_LeafIndex)]
    [u.(tu_Leaf); u.(tu_OldTrustRoot); u.(tu_NewTrustRoot); bool_word u.(tu_IsAnchor)] 7 index.

Definition sample_receipt : EthReceipt :=
  let input := sample_input None in
  let update := leaf_update sample_hash input (w 333) sample_success in
  let key := sample_success.(vs_DependencyKey) in
  mkReceipt 1 (w 77) (w 88) (Some 50) 4
    (map Some
      [sample_log [DirectVerificationSucceededTopic; w 9; w 2] [w 10; w 99; w 222; key] 7 0;
       sample_log [w 12345] [] 8 1;
       update_log (update 0) 2;
       update_log (update 1) 3;
       sample_log [DependencyRecordedTopic; key; w 9; w 2] [w 10; w 99; w 222; uint_word 1] 7 4;
       sample_log [RequestResolvedTopic; w 9; address_word (be_vec 20 5); key]
         [bool_word true; (update 1).(tu_NewTrustRoot)] 7 5]).


End Receipt.
