(* ===== verification/Indexer.v ===== *)
(** * Mapnode/indexer: the confirmed event indexer

    confirmed_event_indexer.go and verification_requested.go: from the logs of
    confirmed blocks to [ConfirmedBlock] values, one per block, handed to the
    store in order.

    The chain (JSON-RPC, with the clock) and the store are the classes
    [EventRPC] and [OperationalStore] over a state [S], which holds the store
    and whatever the answers of the network depend on.  A [types.Header] is a
    record with its number, parent and hash; [observations] is the same store
    and is present.  Polling ([Run]) repeats [Step] and is not modelled. *)

From S2P Require Import Prelude Domain Merkle Evidence TrustView Registry Reorg Planner.
From S2P Require Import PathProof Coordinator ChainABI Receipt.
Import Domain ChainABI.

Module Indexer.

#[local] Existing Instances ChainABI.Log_eq_dec TrustView.NodeKey_eq_dec TrustView.TrustNode_eq_dec
  Coordinator.Request_eq_dec Reorg.CanonicalCursor_eq_dec.

(** ** Data *)

Record IndexedGatewayLog := mkGatewayLog {
  gl_Address : Address;
  gl_BlockNumber : Z;
  gl_BlockHash : Hash;
  gl_TxHash : Hash;
  gl_TxIndex : Z;
  gl_LogIndex : Z;
  EventTopic : Hash;
  ContentDigest : Hash;
  gl_Topics : list Hash;
  gl_Data : bytes
}.

#[export] Instance IndexedGatewayLog_eq_dec : EqDecision IndexedGatewayLog.
Proof. solve_decision. Defined.

Record VerificationReceiptRecord := mkReceiptRecord {
  vrr_TxHash : Hash;
  vrr_BlockNumber : Z;
  vrr_BlockHash : Hash;
  vrr_TxIndex : Z;
  vrr_RequestID : RequestID
}.

#[export] Instance VerificationReceiptRecord_eq_dec : EqDecision VerificationReceiptRecord.
Proof. solve_decision. Defined.

Record RequestResolutionRecord := mkResolutionRecord {
  res_RequestID : RequestID;
  res_TxHash : Hash;
  res_DependencyKey : Hash;
  res_NewDependency : bool;
  res_HomeTrustRoot : Hash;
  res_LogIndex : Z
}.

#[export] Instance RequestResolutionRecord_eq_dec : EqDecision RequestResolutionRecord.
Proof. solve_decision. Defined.

Record DependencyMaterialization := mkMaterialization {
  mat_Dependency : TrustView.VerifiedDependency;
  mat_Evidence : Evidence.EvidenceRecord;
  mat_Witness : TrustView.MembershipWitness;
  mat_From : TrustView.TrustNode;
  mat_To : TrustView.TrustNode;
  mat_Edge : TrustView.TrustEdge
}.

Record ConfirmedBlock := mkConfirmedBlock {
  cb_ChainID : ChainID;
  cb_Gateway : Address;
  Number : Z;
  cb_Hash : Hash;
  cb_ParentHash : Hash;
  ExpectedCursor : Reorg.CanonicalCursor;
  cb_Logs : list IndexedGatewayLog;
  Requests : list Coordinator.Request;
  Receipts : list VerificationReceiptRecord;
  Resolutions : list RequestResolutionRecord;
  Dependencies : list DependencyMaterialization;
  MerkleDepth : Z;
  PathStepCostGas : Z
}.

Record ConfirmedEventIndexerConfig := mkConfig {
  cfg_ChainID : ChainID;
  cfg_Gateway : Address;
  cfg_GatewayCodeHash : Hash;
  cfg_DeploymentBlock : BlockHeight;
  Confirmations : Z;
  MaxBlockRange : Z;
  cfg_MerkleDepth : Z;
  cfg_PathStepCostGas : Z
}.

Record Header := mkHeader {
  header_Number : option Z;
  header_Hash : Hash;
  header_ParentHash : Hash
}.

Record StepResult := mkStepResult {
  Head : Z;
  SafeHead : Z;
  BlocksApplied : Z;
  LogsProcessed : Z
}.

(** Why a step cannot go on.  [Transient] is [transientPreparationError]
    ([None] for a receipt the node does not have yet). *)
Inductive failure (E : Type) :=
| Transient (e : option E)
| Malformed (reason : string)
| MalformedHeader (number : Z)         (** [ErrMalformedRPCContent] *)
| FailEvent (e : ChainABI.error)
| FailReceipt (e : Receipt.error)
| FailEvidence (e : Evidence.error)
| FailTrustView (e : TrustView.error)
| FailObservation (e : E)
| FailStore (e : E)
| FailRPC (e : E).
Arguments Transient {E} e.
Arguments Malformed {E} reason.
Arguments MalformedHeader {E} number.
Arguments FailEvent {E} e.
Arguments FailReceipt {E} e.
Arguments FailEvidence {E} e.
Arguments FailTrustView {E} e.
Arguments FailObservation {E} e.
Arguments FailStore {E} e.
Arguments FailRPC {E} e.

(** What [Step] returns.  [ErrDeterministicIndexing] has the error of
    [DegradeIndexerCursor] beside its cause; [OutOfFuel] is not an error of
    the code and is never returned. *)
Inductive step_error (E : Type) :=
| StepFailed (e : failure E)
| ErrIndexerDegraded
| ErrDeterministicIndexing (cause : failure E) (persist : option E)
| OutOfFuel.
Arguments StepFailed {E} e.
Arguments ErrIndexerDegraded {E}.
Arguments ErrDeterministicIndexing {E} cause persist.
Arguments OutOfFuel {E}.

(** [NewConfirmedEventIndexer], without the nil checks. *)
Definition NewConfirmedEventIndexer (config : ConfirmedEventIndexerConfig) : bool :=
  is_ok (ChainID_Validate config.(cfg_ChainID))
  && negb ((config.(cfg_Gateway) =?= zero_address) || (config.(cfg_GatewayCodeHash) =?= zero32)
           || (config.(Confirmations) =? 0) || (config.(MaxBlockRange) =? 0)
           || (config.(cfg_MerkleDepth) =? 0) || (32 <? config.(cfg_MerkleDepth))
           || (config.(cfg_PathStepCostGas) =? 0)).

(** ** The chain and the store *)

Class EventRPC (S E : Type) := {
  rpc_BlockNumber : S → res E Z * S;
  rpc_ChainID : S → res E (option Z) * S;
  rpc_HeaderByNumber : Z → S → res E (option Header) * S;
  rpc_CodeAtHash : Address → Hash → S → res E bytes * S;
  rpc_FilterLogs : Z → Z → Address → S → res E (list Log) * S;
  rpc_TransactionReceipt : Hash → S → res E (option Receipt.EthReceipt) * S;
  time_Now : S → Evidence.Time * S
}.

Class OperationalStore (S E : Type) := {
  LoadIndexerCursor : ChainID → S → res E (option Reorg.CanonicalCursor) * S;
  InitializeIndexerCursor : Reorg.CanonicalCursor → S → res E unit * S;
  MarkIndexerValidated : Reorg.CanonicalCursor → S → res E unit * S;
  LoadIndexerRequest : RequestID → S → res E (option Coordinator.Request) * S;
  ObserveExpectedTrustRoot :
    ChainID → BlockHeight → Hash → Hash → S → res E TrustView.TrustNode * S;
  ApplyIndexerBlock : ConfirmedBlock → S → res E bool * S;
  DegradeIndexerCursor : ChainID → string → S → res E unit * S;
  deterministic_store : E → bool;        (** [errors.Is(err, ErrDeterministicStore)] *)
  deterministic_observation : E → bool   (** [errors.Is(err, ErrDeterministicObservation)] *)
}.

(** The calls that change the store's account of the chain. *)
Inductive event :=
| Initialized (cursor : Reorg.CanonicalCursor)
| Applied (block : ConfirmedBlock)
| Validated (cursor : Reorg.CanonicalCursor)
| Degraded (reason : string).

(** A call whose errors are wrapped, and the same when it is recorded. *)
Definition call {S E F A} (wrap : E → F) (op : S → res E A * S) : M S event F A :=
  M_call (λ s, let '(r, s') := op s in (map_err wrap r, s')).
Definition record {S E F A} (wrap : E → F) (ev : event) (op : S → res E A * S) : M S event F A :=
  M_record ev (λ s, let '(r, s') := op s in (map_err wrap r, s')).

Definition transient {E} (e : E) : failure E := Transient (Some e).

(** ** Logs *)

Definition supportedTopic (topic : Hash) : bool :=
  (topic =?= VerificationRequestedTopic) || (topic =?= TrustRootUpdatedTopic)
  || (topic =?= DependencyRecordedTopic) || (topic =?= RequestResolvedTopic).

Definition log_ok (gateway : Address) (from to : Z) (item : Log) : bool :=
  negb (item.(Removed) || (item.(log_Address) ≠?= gateway) || (item.(log_BlockNumber) <? from)
        || (to <? item.(log_BlockNumber)) || (item.(log_BlockHash) =?= zero32)
        || (item.(log_TxHash) =?= zero32) || (MaxUint32 <? item.(log_TxIndex))
        || (MaxUint32 <? item.(log_Index))
        || match hd_error item.(Topics) with None => true | Some t => negb (supportedTopic t) end).

(** The order of [sort.Slice]: block, transaction, log. *)
Definition log_key (item : Log) : bytes :=
  be_bytes 8 item.(log_BlockNumber) ++ be_bytes 8 item.(log_TxIndex) ++ be_bytes 8 item.(log_Index).

Definition same_coordinate (a b : Log) : bool :=
  (a.(log_BlockNumber) =? b.(log_BlockNumber)) && (a.(log_TxIndex) =? b.(log_TxIndex))
  && (a.(log_Index) =? b.(log_Index)).

Fixpoint duplicate_neighbours (logs : list Log) : bool :=
  match logs with
  | a :: ((b :: _) as rest) => same_coordinate a b || duplicate_neighbours rest
  | _ => false
  end.

Definition wrong_log : string := "eth_getLogs returned wrong address, topic, or coordinate".
Definition duplicate_log : string := "duplicate Gateway log coordinate".

Definition validateAndSortLogs {E} (logs : list Log) (gateway : Address) (from to : Z)
    : res (failure E) (list Log) :=
  if negb (forallb (log_ok gateway from to) logs) then Err (Malformed wrong_log)
  else
    let sorted := sort_by log_key logs in
    if duplicate_neighbours sorted then Err (Malformed duplicate_log) else Ok sorted.

Definition containsExactLog (logs : list Log) (want : Log) : bool :=
  existsb (λ item,
    (item.(log_Address) =?= want.(log_Address))
    && (item.(log_BlockNumber) =? want.(log_BlockNumber))
    && (item.(log_BlockHash) =?= want.(log_BlockHash))
    && (item.(log_TxHash) =?= want.(log_TxHash))
    && (item.(log_TxIndex) =? want.(log_TxIndex)) && (item.(log_Index) =? want.(log_Index))
    && (item.(Data) =?= want.(Data)) && (item.(Topics) =?= want.(Topics))) logs.

(** [map[logCoordinate]struct{}] as the list of its keys. *)
Definition coordinate (item : Log) : Hash * Z * Z :=
  (item.(log_TxHash), item.(log_TxIndex), item.(log_Index)).

Section Preparing.
Context (keccak256 : bytes → Hash).

Definition rawLog (item : Log) : IndexedGatewayLog :=
  mkGatewayLog item.(log_Address) item.(log_BlockNumber) item.(log_BlockHash)
    item.(log_TxHash) (wrap32 item.(log_TxIndex)) (wrap32 item.(log_Index)) (topic item 0)
    (keccak256 (concat_words item.(Topics) ++ item.(Data))) item.(Topics) item.(Data).

Definition VerificationRequestedEvent {E} (log : Log) (homeChainID : ChainID)
    (gateway : Address) (at_ : Evidence.Time) : res (failure E) Coordinator.Request :=
  event ← map_err FailEvent (ParseVerificationRequested log);
  want ← map_err FailEvidence
    (Evidence.ComputeGatewayRequestID keccak256 homeChainID gateway event.(vr_Requester)
       (Some (be_value event.(vr_RequesterNonce))) event.(vr_SourceChainID)
       event.(vr_SourceHeight) event.(vr_SourceBlockHash));
  if want ≠?= event.(vr_RequestID)
  then Err (Malformed "VerificationRequested request ID mismatch")
  else
    Ok (Coordinator.mkRequest event.(vr_RequestID) homeChainID gateway event.(vr_Requester)
          event.(vr_RequesterNonce) event.(vr_SourceChainID) event.(vr_SourceHeight)
          event.(vr_SourceBlockHash) Coordinator.Observed "" at_ at_).

(** The variables the first loop of [prepareBlock] assigns. *)
Record collected := mkCollected {
  col_Logs : list IndexedGatewayLog;
  requests_by_id : gmap RequestID Coordinator.Request;
  col_Requests : list Coordinator.Request;
  verificationTxs : gmap Hash Log
}.

(** Every log of the receipt the indexer asked for was in [eth_getLogs]. *)
Fixpoint consume_logs {E} (logs : list Log) (bundle : list Log) (consumed : list (Hash * Z * Z))
    : res (failure E) (list (Hash * Z * Z)) :=
  match bundle with
  | [] => Ok consumed
  | item :: rest =>
      if supportedTopic (topic item 0) then
        if negb (containsExactLog logs item)
        then Err (Malformed "receipt Gateway event is absent from eth_getLogs result")
        else consume_logs logs rest (coordinate item :: consumed)
      else consume_logs logs rest consumed
  end.

Definition unbound_update (consumed : list (Hash * Z * Z)) (item : Log) : bool :=
  ((topic item 0 =?= TrustRootUpdatedTopic) || (topic item 0 =?= DependencyRecordedTopic)
   || (topic item 0 =?= RequestResolvedTopic))
  && negb (bool_decide (coordinate item ∈ consumed)).

(** [evidence.ID{1}] *)
Definition placeholder_evidence : Evidence.ID := be_vec 32 (2 ^ 248).

Context {S E : Type} `{RPC : !EventRPC S E} `{ST : !OperationalStore S E}.

(** [time.Now().UTC()] *)
Definition now : M S event (failure E) Evidence.Time :=
  M_call (λ s, let '(t, s') := time_Now s in (Ok t, s')).

Definition collect_log (config : ConfirmedEventIndexerConfig) (hash : Hash) (item : Log)
    (c : collected) : M S event (failure E) collected :=
  if item.(log_BlockHash) ≠?= hash
  then M_fail (Malformed "Gateway log block hash does not match canonical header")
  else
    let logs := c.(col_Logs) ++ [rawLog item] in
    if topic item 0 =?= VerificationRequestedTopic then
      at_ ← now;
      request ← M_lift (VerificationRequestedEvent item config.(cfg_ChainID)
                          config.(cfg_Gateway) at_);
      if match c.(requests_by_id) !! request.(Coordinator.req_ID) with
         | Some previous => previous ≠?= request
         | None => false
         end
      then M_fail (Malformed "conflicting VerificationRequested events")
      else
        M_ret (mkCollected logs
                 (<[request.(Coordinator.req_ID) := request]> c.(requests_by_id))
                 (c.(col_Requests) ++ [request]) c.(verificationTxs))
    else if topic item 0 =?= RequestResolvedTopic then
      M_ret (mkCollected logs c.(requests_by_id) c.(col_Requests)
               (<[item.(log_TxHash) := item]> c.(verificationTxs)))
    else M_ret (mkCollected logs c.(requests_by_id) c.(col_Requests) c.(verificationTxs)).

Fixpoint collect_logs (config : ConfirmedEventIndexerConfig) (hash : Hash) (logs : list Log)
    (c : collected) : M S event (failure E) collected :=
  match logs with
  | [] => M_ret c
  | item :: rest => c' ← collect_log config hash item c; collect_logs config hash rest c'
  end.

(** The end points of a dependency, as hash-bound observations.  (A bundle
    with a dependency has a witness: without one the code would panic.) *)
Definition observe_root (chainID : ChainID) (height : BlockHeight) (blockHash root : Hash)
    : M S event (failure E) TrustView.TrustNode :=
  call (λ e, if deterministic_observation e then FailObservation e else transient e)
    (ObserveExpectedTrustRoot chainID height blockHash root).

Definition materialize (config : ConfirmedEventIndexerConfig)
    (number : Z) (hash : Hash) (receipt : Receipt.EthReceipt)
    (bundle : Receipt.VerificationReceiptBundle) (recorded : DependencyRecorded)
    : M S event (failure E) DependencyMaterialization :=
  let root := recorded.(dr_SourceTrustRoot) in
  let unbound := TrustView.NewVerifiedDependency keccak256 recorded.(dr_RequestID)
    recorded.(dr_SourceChainID) recorded.(dr_SourceHeight) recorded.(dr_SourceBlockHash) root
    recorded.(dr_LeafIndex) zero32 in
  match List.find (λ item, topic item 0 =?= DependencyRecordedTopic)
          bundle.(Receipt.bundle_Logs), bundle.(Receipt.Witness) with
  | Some dependencyLog, Some material =>
      let digest := TrustView.ComputeDependencyRecordedPayloadDigest keccak256 unbound in
      let height := uint256FromUint64 number in
      let locator := Evidence.mkLocator config.(cfg_ChainID) config.(cfg_Gateway) height hash
        receipt.(Receipt.rc_TxHash) (wrap32 receipt.(Receipt.TransactionIndex))
        (wrap32 dependencyLog.(log_Index)) digest in
      evidenceID ← M_lift (map_err FailEvidence (Evidence.ComputeID keccak256 locator));
      let dependency := TrustView.NewVerifiedDependency keccak256 recorded.(dr_RequestID)
        recorded.(dr_SourceChainID) recorded.(dr_SourceHeight) recorded.(dr_SourceBlockHash)
        root recorded.(dr_LeafIndex) evidenceID in
      let key := TrustView.mkNodeKey recorded.(dr_SourceChainID) recorded.(dr_SourceHeight)
        recorded.(dr_SourceBlockHash) in
      _ ← M_lift (map_err FailTrustView
            (TrustView.VerifiedDependency_Validate keccak256 dependency
               (TrustView.NewTrustNode keccak256 key root placeholder_evidence) digest));
      to ← observe_root recorded.(dr_SourceChainID) recorded.(dr_SourceHeight)
             recorded.(dr_SourceBlockHash) root;
      let homeRoot := bundle.(Receipt.Resolution).(rr_HomeTrustRoot) in
      from ← observe_root config.(cfg_ChainID) height hash homeRoot;
      if (to.(TrustView.node_Key) ≠?= key) || (to.(TrustView.node_Root) ≠?= root)
         || (from.(TrustView.node_Key)
               ≠?= TrustView.mkNodeKey config.(cfg_ChainID) height hash)
         || (from.(TrustView.node_Root) ≠?= homeRoot)
      then M_fail (Malformed "TrustRoot observation content mismatch")
      else
        let witness := TrustView.NewMembershipWitness keccak256 evidenceID
          material.(Receipt.wm_LeafIndex) material.(Receipt.wm_Siblings) in
        edge ← M_lift (map_err FailTrustView
          (TrustView.NewTrustEdge keccak256 from.(TrustView.node_ID) to.(TrustView.node_ID)
             evidenceID recorded.(dr_LeafIndex) (Some witness.(TrustView.witness_ID))
             config.(cfg_PathStepCostGas)));
        at_ ← now;
        M_ret (mkMaterialization dependency
                 (Evidence.mkRecord evidenceID locator Evidence.Candidate "" at_ at_)
                 witness from to edge)
  | _, _ => M_fail (Malformed "verified bundle lost DependencyRecorded coordinate")
  end.

(** The body of the loop over [verificationTxs], which has at most one turn. *)
Definition prepare_verification (config : ConfirmedEventIndexerConfig)
    (header : Header) (number : Z) (logs : list Log) (c : collected) (txHash : Hash)
    (resolvedLog : Log)
    : M S event (failure E) (VerificationReceiptRecord * RequestResolutionRecord
                       * list DependencyMaterialization * list (Hash * Z * Z)) :=
  resolved ← M_lift (map_err FailEvent (ParseRequestResolved resolvedLog));
  request ← match c.(requests_by_id) !! resolved.(rr_RequestID) with
             | Some request => M_ret request
             | None =>
                 found ← call transient
                           (LoadIndexerRequest resolved.(rr_RequestID));
                 match found with
                 | Some request => M_ret request
                 | None => M_fail (Malformed "RequestResolved references an unobserved request")
                 end
             end;
  found ← call transient (rpc_TransactionReceipt txHash);
  match found with
  | None => M_fail (Transient None)
  | Some receipt =>
      bundle ← M_lift (map_err FailReceipt
        (Receipt.VerifyVerificationReceipt keccak256
           (Receipt.mkInput config.(cfg_Gateway) header.(header_Hash) number
              header.(header_ParentHash) config.(cfg_MerkleDepth) request (Some receipt))));
      consumed ← M_lift (consume_logs logs bundle.(Receipt.bundle_Logs) []);
      let resolution := bundle.(Receipt.Resolution) in
      let receiptRecord := mkReceiptRecord receipt.(Receipt.rc_TxHash) number
        header.(header_Hash) (wrap32 receipt.(Receipt.TransactionIndex))
        request.(Coordinator.req_ID) in
      let resolutionRecord := mkResolutionRecord request.(Coordinator.req_ID)
        receipt.(Receipt.rc_TxHash) resolution.(rr_DependencyKey)
        resolution.(rr_NewDependency) resolution.(rr_HomeTrustRoot)
        (wrap32 resolvedLog.(log_Index)) in
      match bundle.(Receipt.bundle_Dependency) with
      | None => M_ret (receiptRecord, resolutionRecord, [], consumed)
      | Some recorded =>
          material ← materialize config number header.(header_Hash) receipt bundle recorded;
          M_ret (receiptRecord, resolutionRecord, [material], consumed)
      end
  end.

Definition prepareBlock (config : ConfirmedEventIndexerConfig)
    (cursor : Reorg.CanonicalCursor) (header : Header) (logs : list Log) : M S event (failure E) ConfirmedBlock :=
  let number := default 0 header.(header_Number) in
  c ← collect_logs config header.(header_Hash) logs (mkCollected [] ∅ [] ∅);
  let block receipts resolutions dependencies :=
    mkConfirmedBlock config.(cfg_ChainID) config.(cfg_Gateway) number header.(header_Hash)
      header.(header_ParentHash) cursor c.(col_Logs) c.(col_Requests) receipts resolutions
      dependencies config.(cfg_MerkleDepth) config.(cfg_PathStepCostGas) in
  out ← match map_to_list c.(verificationTxs) with
         | [] => M_ret ([], [], [], [])
         | [(txHash, resolvedLog)] =>
             v ← prepare_verification config header number logs c txHash resolvedLog;
             let '(receipt, resolution, dependencies, consumed) := v in
             M_ret ([receipt], [resolution], dependencies, consumed)
         | _ => M_fail (Malformed
                  "multiple verification transactions in one experiment block are unsupported")
         end;
  let '(receipts, resolutions, dependencies, consumed) := out in
  if existsb (unbound_update consumed) logs
  then M_fail (Malformed "unbound verification update log")
  else M_ret (block receipts resolutions dependencies).

(** *** One step *)

(** The texts of the errors, which [%v] prints into the reason. *)
Context (error_text : failure E → string).

Definition failClosed {A} (config : ConfirmedEventIndexerConfig) (cause : failure E)
    : M S event (step_error E) A :=
  let reason := ("deterministic confirmed event indexing failure: " ++ error_text cause)%string in
  λ s, let '(r, s') := DegradeIndexerCursor config.(cfg_ChainID) reason s in
       (Err (ErrDeterministicIndexing cause match r with Ok _ => None | Err e => Some e end),
        s', [Degraded reason]).

Definition header (number : Z) : M S event (failure E) Header :=
  found ← call transient (rpc_HeaderByNumber number);
  match found with
  | None => M_fail (MalformedHeader number)
  | Some header =>
      match header.(header_Number) with
      | None => M_fail (MalformedHeader number)
      | Some n =>
          if (n <? 0) || (MaxUint64 <? n) || negb (n =? number)
          then M_fail (MalformedHeader number) else M_ret header
      end
  end.

Definition validateDeployment (config : ConfirmedEventIndexerConfig) (hash : Hash)
    : M S event (failure E) unit :=
  chainID ← call transient rpc_ChainID;
  if match chainID with
     | None => true
     | Some id => negb (id =? ChainID_BigInt config.(cfg_ChainID))
     end
  then M_fail (Malformed "home RPC chain ID mismatch")
  else
    code ← call transient (rpc_CodeAtHash config.(cfg_Gateway) hash);
    if (zlen code =? 0) || (keccak256 code ≠?= config.(cfg_GatewayCodeHash))
    then M_fail (Malformed "hash-bound Gateway code hash mismatch")
    else M_ret tt.

Definition classifyRPCError {A} (config : ConfirmedEventIndexerConfig) (err : failure E)
    : M S event (step_error E) A :=
  match err with
  | MalformedHeader _ => failClosed config err
  | _ => M_fail (StepFailed err)
  end.

(** [errors.As(err, &transient)], else fail closed. *)
Definition prepared_or_closed {A} (config : ConfirmedEventIndexerConfig) (err : failure E)
    : M S event (step_error E) A :=
  match err with Transient _ => M_fail (StepFailed err) | _ => failClosed config err end.

(** [errors.Is(err, ErrDeterministicStore)]: fail closed, else return [err]. *)
Definition store_failed {A} (config : ConfirmedEventIndexerConfig) (err : failure E)
    : M S event (step_error E) A :=
  match err with
  | FailStore e => if deterministic_store e then failClosed config err else M_fail (StepFailed err)
  | _ => M_fail (StepFailed err)
  end.

Definition read_header (config : ConfirmedEventIndexerConfig) (number : Z)
    : M S event (step_error E) Header :=
  M_catch (header number) (classifyRPCError config).

Definition cursor_number (cursor : Reorg.CanonicalCursor) : Z :=
  BlockHeight_BigInt cursor.(Reorg.cursor_Height).

Definition not_canonical : string := "persisted cursor hash is no longer canonical".

(** The cursor is still on the chain. *)
Definition recheck (config : ConfirmedEventIndexerConfig) (cursor : Reorg.CanonicalCursor)
    : M S event (step_error E) unit :=
  rechecked ← read_header config (cursor_number cursor);
  if rechecked.(header_Hash) ≠?= cursor.(Reorg.cursor_Hash)
  then failClosed config (Malformed not_canonical) else M_ret tt.

Definition validate_or_close (config : ConfirmedEventIndexerConfig) (hash : Hash)
    : M S event (step_error E) unit :=
  M_catch (validateDeployment config hash) (prepared_or_closed config).

(** [LoadIndexerCursor], and the cursor at the deployment block when there is
    none; [true] when it existed. *)
Definition load_or_initialize (config : ConfirmedEventIndexerConfig)
    : M S event (step_error E) (Reorg.CanonicalCursor * bool) :=
  found ← call (λ e, StepFailed (FailStore e)) (LoadIndexerCursor config.(cfg_ChainID));
  match found with
  | Some cursor => M_ret (cursor, true)
  | None =>
      header ← read_header config (BlockHeight_BigInt config.(cfg_DeploymentBlock));
      _ ← validate_or_close config header.(header_Hash);
      let cursor := Reorg.NewCanonicalCursor config.(cfg_ChainID) config.(cfg_DeploymentBlock)
        header.(header_Hash) in
      _ ← M_catch (record FailStore (Initialized cursor) (InitializeIndexerCursor cursor))
            (store_failed config);
      M_ret (cursor, false)
  end.

Definition check_cursor (config : ConfirmedEventIndexerConfig) (cursor : Reorg.CanonicalCursor)
    : M S event (step_error E) unit :=
  if cursor.(Reorg.cursor_State) =?= Reorg.Degraded then M_fail ErrIndexerDegraded
  else if MaxUint64 <? cursor_number cursor
  then failClosed config (Malformed "cursor height exceeds HTTP indexer range")
  else if (cursor.(Reorg.cursor_ChainID) ≠?= config.(cfg_ChainID))
          || (cursor.(Reorg.cursor_State) ≠?= Reorg.Healthy)
          || (cursor.(Reorg.cursor_Hash) =?= zero32)
          || (cursor_number cursor <? BlockHeight_BigInt config.(cfg_DeploymentBlock))
  then failClosed config
         (Malformed "persisted cursor is malformed or outside the trusted deployment")
  else M_ret tt.

(** The body of the loop over the blocks of a range. *)
Definition index_block (config : ConfirmedEventIndexerConfig) (logs : list Log) (number : Z)
    (cursor : Reorg.CanonicalCursor)
    : M S event (step_error E) (Reorg.CanonicalCursor * bool * Z) :=
  _ ← recheck config cursor;
  header ← read_header config number;
  if header.(header_ParentHash) ≠?= cursor.(Reorg.cursor_Hash)
  then failClosed config (Malformed "next confirmed block parent does not match cursor")
  else
    block ← M_catch (prepareBlock config cursor header
                       (filter (λ item, item.(log_BlockNumber) = number) logs))
              (prepared_or_closed config);
    changed ← M_catch (record FailStore (Applied block) (ApplyIndexerBlock block))
                (store_failed config);
    M_ret (Reorg.NewCanonicalCursor config.(cfg_ChainID) (uint256FromUint64 number)
             header.(header_Hash), changed, zlen block.(cb_Logs)).

(** An error of a step comes with the result so far. *)
Definition at_result {A} (result : StepResult) (m : M S event (step_error E) A)
    : M S event (StepResult * step_error E) A :=
  M_catch m (λ e, M_fail (result, e)).

Definition count_block (result : StepResult) (changed : bool) (logs : Z) : StepResult :=
  mkStepResult result.(Head) result.(SafeHead)
    (wrap64 (result.(BlocksApplied) + if changed then 1 else 0))
    (wrap64 (result.(LogsProcessed) + logs)).

(** [for number := rangeStart; number <= rangeEnd; number++] *)
Fixpoint index_blocks (config : ConfirmedEventIndexerConfig) (fuel : nat) (logs : list Log)
    (number rangeEnd : Z) (cursor : Reorg.CanonicalCursor) (result : StepResult)
    : M S event (StepResult * step_error E) (Reorg.CanonicalCursor * StepResult) :=
  if rangeEnd <? number then M_ret (cursor, result)
  else match fuel with
  | O => M_fail (result, OutOfFuel)
  | Datatypes.S fuel' =>
      v ← at_result result (index_block config logs number cursor);
      let '(cursor', changed, n) := v in
      index_blocks config fuel' logs (wrap64 (number + 1)) rangeEnd cursor'
        (count_block result changed n)
  end.

Definition range_end (config : ConfirmedEventIndexerConfig) (rangeStart safeHead : Z) : Z :=
  let rangeEnd := wrap64 (rangeStart + config.(MaxBlockRange) - 1) in
  if (rangeEnd <? rangeStart) || (safeHead <? rangeEnd) then safeHead else rangeEnd.

(** [for rangeStart := start; start != 0 && rangeStart <= result.SafeHead;] *)
Fixpoint index_ranges (config : ConfirmedEventIndexerConfig) (fuel : nat)
    (start rangeStart : Z) (cursor : Reorg.CanonicalCursor) (result : StepResult)
    : M S event (StepResult * step_error E) (Reorg.CanonicalCursor * StepResult) :=
  if (start =? 0) || (result.(SafeHead) <? rangeStart) then M_ret (cursor, result)
  else match fuel with
  | O => M_fail (result, OutOfFuel)
  | Datatypes.S fuel' =>
      let rangeEnd := range_end config rangeStart result.(SafeHead) in
      logs ← at_result result (call (λ e, StepFailed (FailRPC e))
               (rpc_FilterLogs rangeStart rangeEnd config.(cfg_Gateway)));
      sorted ← at_result result
        (M_catch (M_lift (validateAndSortLogs logs config.(cfg_Gateway) rangeStart rangeEnd))
           (failClosed config));
      v ← index_blocks config fuel sorted rangeStart rangeEnd cursor result;
      let '(cursor', result') := v in
      if rangeEnd =? MaxUint64 then M_ret (cursor', result')
      else index_ranges config fuel' start (wrap64 (rangeEnd + 1)) cursor' result'
  end.

(** Enough turns of the loops for the blocks up to the safe head. *)
Definition step_fuel (start safeHead : Z) : nat := Z.to_nat (safeHead + 1 - start).

(** The part of [Step] after the cursor has been loaded. *)
Definition step_from (config : ConfirmedEventIndexerConfig) (validated : bool)
    (result : StepResult) (cursor : Reorg.CanonicalCursor) (exists_ : bool)
    : M S event (StepResult * step_error E) (StepResult * bool) :=
  _ ← at_result result (check_cursor config cursor);
  if result.(SafeHead) <? cursor_number cursor then M_ret (result, validated)
  else
    _ ← at_result result
          (if validated then M_ret tt
           else
             _ ← recheck config cursor;
             if exists_ then validate_or_close config cursor.(Reorg.cursor_Hash) else M_ret tt);
    let start := wrap64 (cursor_number cursor + 1) in
    v ← index_ranges config (step_fuel start result.(SafeHead)) start start cursor result;
    let '(cursor', result') := v in
    _ ← at_result result'
          (if validated then M_ret tt
           else M_catch (record FailStore (Validated cursor') (MarkIndexerValidated cursor'))
                  (store_failed config));
    M_ret (result', true).

(** [Step]: the result, and the value of [indexer.validated]. *)
Definition Step (config : ConfirmedEventIndexerConfig) (validated : bool)
    : M S event (StepResult * step_error E) (StepResult * bool) :=
  head ← call (λ e, (mkStepResult 0 0 0 0, StepFailed (FailRPC e))) rpc_BlockNumber;
  if head <? config.(Confirmations) then M_ret (mkStepResult head 0 0 0, validated)
  else
    let safeHead := head - config.(Confirmations) in
    let result := mkStepResult head safeHead 0 0 in
    let deployment := BlockHeight_BigInt config.(cfg_DeploymentBlock) in
    if (MaxUint64 <? deployment) || (safeHead <? deployment) then M_ret (result, validated)
    else
      v ← at_result result (load_or_initialize config);
      let '(cursor, exists_) := v in
      step_from config validated result cursor exists_.

(** ** The protocol of a step *)

Definition cursor_of (b : ConfirmedBlock) : Reorg.CanonicalCursor :=
  Reorg.NewCanonicalCursor b.(cb_ChainID) (uint256FromUint64 b.(Number)) b.(cb_Hash).

(** The cursor after the blocks. *)
Definition after (cursor : Reorg.CanonicalCursor) (blocks : list ConfirmedBlock)
    : Reorg.CanonicalCursor :=
  foldl (λ _ b, cursor_of b) cursor blocks.

(** [b] is the block after [cursor]: the next height, the child of its block. *)
Record next_block (config : ConfirmedEventIndexerConfig) (limit : Z)
    (cursor : Reorg.CanonicalCursor) (b : ConfirmedBlock) : Prop := {
  nb_chain : b.(cb_ChainID) = config.(cfg_ChainID);
  nb_gateway : b.(cb_Gateway) = config.(cfg_Gateway);
  nb_expected : b.(ExpectedCursor) = cursor;
  nb_number : b.(Number) = cursor_number cursor + 1;
  nb_parent : b.(cb_ParentHash) = cursor.(Reorg.cursor_Hash);
  nb_limit : b.(Number) ≤ limit
}.

(** Blocks that follow [cursor] one after the other, up to [limit]. *)
Fixpoint extends (config : ConfirmedEventIndexerConfig) (limit : Z)
    (cursor : Reorg.CanonicalCursor) (blocks : list ConfirmedBlock) : Prop :=
  match blocks with
  | [] => True
  | b :: rest => next_block config limit cursor b ∧ extends config limit (cursor_of b) rest
  end.

(** The last call for an error: the cursor is degraded exactly for a
    deterministic failure. *)
Definition failed (e : step_error E) (log : list event) : Prop :=
  match e with
  | ErrDeterministicIndexing cause _ =>
      log = [Degraded ("deterministic confirmed event indexing failure: "
                       ++ error_text cause)%string]
  | OutOfFuel => False
  | _ => log = []
  end.

Record usable (config : ConfirmedEventIndexerConfig) (cursor : Reorg.CanonicalCursor)
    : Prop := {
  us_chain : cursor.(Reorg.cursor_ChainID) = config.(cfg_ChainID);
  us_state : cursor.(Reorg.cursor_State) = Reorg.Healthy;
  us_hash : cursor.(Reorg.cursor_Hash) ≠ zero32;
  us_height : BlockHeight_BigInt config.(cfg_DeploymentBlock) ≤ cursor_number cursor
}.

Definition opening (config : ConfirmedEventIndexerConfig) (cursor : Reorg.CanonicalCursor)
    (log : list event) : Prop :=
  log = [] ∨
  ∃ hash, cursor = Reorg.NewCanonicalCursor config.(cfg_ChainID) config.(cfg_DeploymentBlock) hash ∧
          log = [Initialized cursor].

(** The calls a step makes, for its result: nothing to do; all blocks up to
    the safe head; or a stop at some point on the way. *)
Inductive protocol (config : ConfirmedEventIndexerConfig) (validated : bool) :
    res (StepResult * step_error E) (StepResult * bool) → list event → Prop :=
| protocol_idle result : protocol config validated (Ok (result, validated)) []
| protocol_done result cursor init blocks :
    opening config cursor init → usable config cursor →
    extends config (result.(Head) - config.(Confirmations)) cursor blocks →
    cursor_number (after cursor blocks) + config.(Confirmations) = result.(Head) →
    protocol config validated (Ok (result, true))
      (init ++ (Applied <$> blocks) ++ if validated then [] else [Validated (after cursor blocks)])
| protocol_stopped result e cursor init blocks ending log :
    opening config cursor init →
    (blocks = [] ∨ usable config cursor) →
    extends config (result.(Head) - config.(Confirmations)) cursor blocks →
    (ending = [] ∨ (validated = false ∧ usable config cursor
       ∧ cursor_number (after cursor blocks) + config.(Confirmations) = result.(Head)
       ∧ ending = [Validated (after cursor blocks)])) →
    failed e log →
    protocol config validated (Err (result, e)) (init ++ (Applied <$> blocks) ++ ending ++ log).

(** ** What a prepared block is *)

Definition is_update (item : Log) : Prop :=
  topic item 0 = TrustRootUpdatedTopic ∨ topic item 0 = DependencyRecordedTopic
  ∨ topic item 0 = RequestResolvedTopic.

(** The records made for a dependency of a verified receipt: the evidence is
    the one of its log, the nodes and the edge are those of the dependency and
    of the block. *)
Record materialised (config : ConfirmedEventIndexerConfig) (number : Z) (hash : Hash)
    (receipt : Receipt.EthReceipt) (bundle : Receipt.VerificationReceiptBundle)
    (recorded : DependencyRecorded) (m : DependencyMaterialization) : Prop := {
  mt_dependency : m.(mat_Dependency) =
    TrustView.NewVerifiedDependency keccak256 recorded.(dr_RequestID)
      recorded.(dr_SourceChainID) recorded.(dr_SourceHeight) recorded.(dr_SourceBlockHash)
      recorded.(dr_SourceTrustRoot) recorded.(dr_LeafIndex) m.(mat_Evidence).(Evidence.rec_ID);
  mt_evidence :
    Evidence.ComputeID keccak256 m.(mat_Evidence).(Evidence.rec_Locator)
      = Ok m.(mat_Evidence).(Evidence.rec_ID);
  mt_state : m.(mat_Evidence).(Evidence.rec_State) = Evidence.Candidate;
  mt_locator : ∃ l,
    l ∈ bundle.(Receipt.bundle_Logs) ∧ topic l 0 = DependencyRecordedTopic ∧
    m.(mat_Evidence).(Evidence.rec_Locator) =
      Evidence.mkLocator config.(cfg_ChainID) config.(cfg_Gateway) (uint256FromUint64 number)
        hash receipt.(Receipt.rc_TxHash) (wrap32 receipt.(Receipt.TransactionIndex))
        (wrap32 l.(log_Index))
        (TrustView.ComputeDependencyRecordedPayloadDigest keccak256 m.(mat_Dependency));
  mt_to :
    m.(mat_To).(TrustView.node_Key) =
      TrustView.mkNodeKey recorded.(dr_SourceChainID) recorded.(dr_SourceHeight)
        recorded.(dr_SourceBlockHash) ∧
    m.(mat_To).(TrustView.node_Root) = recorded.(dr_SourceTrustRoot);
  mt_from :
    m.(mat_From).(TrustView.node_Key) =
      TrustView.mkNodeKey config.(cfg_ChainID) (uint256FromUint64 number) hash ∧
    m.(mat_From).(TrustView.node_Root)
      = bundle.(Receipt.Resolution).(rr_HomeTrustRoot);
  mt_edge :
    TrustView.NewTrustEdge keccak256 m.(mat_From).(TrustView.node_ID)
      m.(mat_To).(TrustView.node_ID) m.(mat_Evidence).(Evidence.rec_ID)
      recorded.(dr_LeafIndex) (Some m.(mat_Witness).(TrustView.witness_ID))
      config.(cfg_PathStepCostGas) = Ok m.(mat_Edge)
}.

(** The verification transaction of a block. *)
Record verification (config : ConfirmedEventIndexerConfig) (header : Header) (logs : list Log)
    (b : ConfirmedBlock) (request : Coordinator.Request) (receipt : Receipt.EthReceipt)
    (bundle : Receipt.VerificationReceiptBundle) : Prop := {
  vf_verified :
    Receipt.VerifyVerificationReceipt keccak256
      (Receipt.mkInput config.(cfg_Gateway) header.(header_Hash) b.(Number)
         header.(header_ParentHash) config.(cfg_MerkleDepth) request (Some receipt)) = Ok bundle;
  vf_listed : Forall (λ l, supportedTopic (topic l 0) → containsExactLog logs l)
                bundle.(Receipt.bundle_Logs);
  vf_updates : ∀ item, item ∈ logs → is_update item →
    ∃ l, l ∈ bundle.(Receipt.bundle_Logs) ∧ coordinate l = coordinate item;
  vf_receipts : b.(Receipts) =
    [mkReceiptRecord receipt.(Receipt.rc_TxHash) b.(Number) header.(header_Hash)
       (wrap32 receipt.(Receipt.TransactionIndex)) request.(Coordinator.req_ID)];
  vf_resolutions : ∃ l, l ∈ logs ∧ topic l 0 = RequestResolvedTopic ∧
    let resolution := bundle.(Receipt.Resolution) in
    b.(Resolutions) =
      [mkResolutionRecord request.(Coordinator.req_ID) receipt.(Receipt.rc_TxHash)
         resolution.(rr_DependencyKey) resolution.(rr_NewDependency)
         resolution.(rr_HomeTrustRoot) (wrap32 l.(log_Index))];
  vf_dependencies :
    match bundle.(Receipt.bundle_Dependency) with
    | None => b.(Dependencies) = []
    | Some recorded => ∃ m, b.(Dependencies) = [m] ∧
        materialised config b.(Number) header.(header_Hash) receipt bundle recorded m
    end
}.

Record prepared (config : ConfirmedEventIndexerConfig) (cursor : Reorg.CanonicalCursor)
    (header : Header) (logs : list Log) (b : ConfirmedBlock) : Prop := {
  pb_number : b.(Number) = default 0 header.(header_Number);
  pb_hash : b.(cb_Hash) = header.(header_Hash);
  pb_next : b.(cb_ChainID) = config.(cfg_ChainID) ∧ b.(cb_Gateway) = config.(cfg_Gateway)
    ∧ b.(ExpectedCursor) = cursor ∧ b.(cb_ParentHash) = header.(header_ParentHash);
  pb_logs : b.(cb_Logs) = rawLog <$> logs;
  pb_canonical : Forall (λ l, l.(log_BlockHash) = header.(header_Hash)) logs;
  pb_requests :
    Forall2 (λ l r, ∃ at_ : Evidence.Time,
               VerificationRequestedEvent l config.(cfg_ChainID) config.(cfg_Gateway) at_
               = (Ok r : res (failure E) _))
      (filter (λ l, topic l 0 = VerificationRequestedTopic) logs) b.(Requests);
  pb_verification :
    (Forall (λ l, ¬ is_update l) logs ∧ b.(Receipts) = [] ∧ b.(Resolutions) = []
     ∧ b.(Dependencies) = [])
    ∨ ∃ request receipt bundle, verification config header logs b request receipt bundle
}.

(** A stage of a step: what it records when it succeeds, and before it fails. *)
Definition stage {A} (good : A → list event → Prop) (on_way : list event → Prop)
    (r : res (step_error E) A) (log : list event) : Prop :=
  match r with
  | Ok a => good a log
  | Err e => ∃ before ending, log = before ++ ending ∧ on_way before ∧ failed e ending
  end.

Definition quiet {A} (P : A → Prop) : res (step_error E) A → list event → Prop :=
  stage (λ a log, log = [] ∧ P a) (λ log, log = []).

(** ** Lemmas on the stages *)

Lemma failClosed_stage {A} config cause (good : A → list event → Prop) (on_way : list event → Prop) :
  on_way [] → emits (failClosed config cause) (stage good on_way).
Proof.
  intros Hw s. unfold failClosed. destruct (DegradeIndexerCursor _ _ s) as [r s']. cbn.
  by exists [], [Degraded ("deterministic confirmed event indexing failure: "
                           ++ error_text cause)%string].
Qed.

Lemma fail_stage {A} (e : step_error E) (good : A → list event → Prop) (on_way : list event → Prop) :
  on_way [] → failed e [] → emits (M_fail e : M S event _ A) (stage good on_way).
Proof. intros Hw He. apply emits_fail. by exists [], []. Qed.

Lemma stage_bind {A B} (m : M S event (step_error E) A) (k : A → M S event (step_error E) B)
    (goodA : A → list event → Prop) (wayA : list event → Prop)
    (good : B → list event → Prop) (way : list event → Prop) :
  emits m (stage goodA wayA) → (∀ log, wayA log → way log) →
  (∀ a log, goodA a log → emits (k a) (λ r log', stage good way r (log ++ log'))) →
  emits (m ≫= k) (stage good way).
Proof.
  intros Hm Hw Hk. apply (emits_bind _ _ _ _ Hm).
  - intros e log (before & ending & -> & Hb & He). exists before, ending. auto.
  - intros a log Ha. by apply Hk.
Qed.

Lemma quiet_bind {A B} (m : M S event (step_error E) A) (k : A → M S event (step_error E) B)
    (P : A → Prop) (good : B → list event → Prop) (way : list event → Prop) :
  emits m (quiet P) → way [] → (∀ a, P a → emits (k a) (stage good way)) →
  emits (m ≫= k) (stage good way).
Proof.
  intros Hm Hw Hk. apply (stage_bind _ _ _ _ _ _ Hm); [by intros log ->|].
  intros a log [-> Ha]. by apply Hk.
Qed.

(** The branches of a guard. *)
Ltac take_guard :=
  match goal with |- emits (if ?b then _ else _) _ => destruct b eqn:? end;
  [first [by apply fail_stage | by apply failClosed_stage | by apply emits_fail]|].

Lemma call_silent {F A} (wrap : E → F) (op : S → res E A * S) : silent (call wrap op).
Proof. by apply emits_call. Qed.

Lemma catch_records {A} (m : M S event (failure E) A)
    (handle : failure E → M S event (step_error E) A) (P : A → Prop) :
  emits m (λ r log, log = [] ∧ ∀ a, r = Ok a → P a) →
  (∀ e, emits (handle e) (quiet P)) →
  emits (M_catch m handle) (quiet P).
Proof.
  intros Hm Hh. apply (emits_catch _ _ _ _ Hm).
  - intros a log [-> Ha]. split; [done|]. by apply Ha.
  - intros e log [-> _]. apply Hh.
Qed.

Lemma classify_stage {A} config e (good : A → list event → Prop) (way : list event → Prop) :
  way [] → emits (classifyRPCError config e) (stage good way).
Proof. intros Hw. destruct e; by apply fail_stage || apply failClosed_stage. Qed.

Lemma prepared_stage {A} config e (good : A → list event → Prop) (way : list event → Prop) :
  way [] → emits (prepared_or_closed config e) (stage good way).
Proof. intros Hw. destruct e; by apply fail_stage || apply failClosed_stage. Qed.

Lemma store_failed_stage {A} config e (good : A → list event → Prop) (way : list event → Prop) :
  way [] → emits (store_failed config e) (stage good way).
Proof.
  intros Hw. unfold store_failed.
  destruct e; try case_match; by apply fail_stage || apply failClosed_stage.
Qed.

(** A recorded call of the store. *)
Lemma record_stage {A} config ev (op : S → res E A * S) :
  emits (M_catch (record FailStore ev op) (store_failed config))
    (stage (λ _ log, log = [ev]) (λ log, log = [ev])).
Proof.
  apply (emits_catch _ _ (λ _ log, log = [ev])).
  - by apply emits_record.
  - by intros a log ->.
  - intros e log ->.
    eapply emits_weaken; [by apply (store_failed_stage config e (λ _ _, False) (λ log, log = []))|].
    intros [a|e'] log; [done|]. intros (before & ending & -> & -> & He). by exists [ev], ending.
Qed.

Lemma header_emits number :
  emits (header number) (λ r log, log = [] ∧ ∀ h, r = Ok h → h.(header_Number) = Some number).
Proof.
  unfold header. eapply emits_bind; [apply call_silent|by intros e log ->|].
  intros found log ->. cbn [app].
  repeat case_match; try (by apply emits_fail).
  apply emits_ret. split; [done|]. intros h' [= <-]. bool_to_prop. congruence.
Qed.

Lemma read_header_stage config number :
  emits (read_header config number) (quiet (λ h, h.(header_Number) = Some number)).
Proof.
  apply catch_records; [apply header_emits|]. intros e. by apply classify_stage.
Qed.

Lemma recheck_stage config cursor : emits (recheck config cursor) (quiet (λ _, True)).
Proof.
  unfold recheck. eapply quiet_bind; [apply read_header_stage|done|]. intros h _.
  take_guard. by apply emits_ret.
Qed.

Lemma validate_stage config hash : emits (validate_or_close config hash) (quiet (λ _, True)).
Proof.
  unfold validate_or_close, validateDeployment. apply catch_records.
  - eapply emits_bind; [apply call_silent|by intros e log ->|]. intros id log ->. cbn [app].
    take_guard.
    eapply emits_bind; [apply call_silent|by intros e log ->|]. intros code log' ->. cbn [app].
    take_guard. by apply emits_ret.
  - intros e. by apply prepared_stage.
Qed.

Lemma check_cursor_stage config cursor :
  emits (check_cursor config cursor) (quiet (λ _, usable config cursor)).
Proof.
  unfold check_cursor. do 3 take_guard.
  apply emits_ret. bool_to_prop. split; [done|]. split; try done.
Qed.

(** ** Preparing a block *)

(** A part that records nothing, with what holds of its result. *)
Definition yields {F A} (m : M S event F A) (P : A → Prop) : Prop :=
  emits m (λ r log, log = [] ∧ ∀ a, r = Ok a → P a).

Lemma yields_ret {F A} (a : A) (P : A → Prop) : P a → yields (M_ret a : M S event F A) P.
Proof. intros Ha. apply emits_ret. split; [done|]. by intros ? [= <-]. Qed.

Lemma yields_fail {F A} (e : F) (P : A → Prop) : yields (M_fail e : M S event F A) P.
Proof. by apply emits_fail. Qed.

Lemma yields_lift {F A} (r : res F A) : yields (M_lift r) (λ a, r = Ok a).
Proof. by apply emits_lift. Qed.

Lemma yields_call {F A} (wrap : E → F) (op : S → res E A * S) :
  yields (call wrap op) (λ _, True).
Proof. by apply emits_call. Qed.

Lemma yields_bind {F A B} (m : M S event F A) (k : A → M S event F B) P Q :
  yields m P → (∀ a, P a → yields (k a) Q) → yields (m ≫= k) Q.
Proof.
  intros Hm Hk. apply (emits_bind _ _ _ _ Hm).
  - by intros e log [-> _].
  - intros a log [-> Ha]. by apply Hk, Ha.
Qed.

Lemma yields_weaken {F A} (m : M S event F A) (P Q : A → Prop) :
  yields m P → (∀ a, P a → Q a) → yields m Q.
Proof.
  intros Hm HPQ. apply (emits_weaken _ _ _ Hm). intros r log [-> Hr]. split; auto.
Qed.

Lemma yields_now : yields now (λ _, True).
Proof. apply emits_call. intros s. by destruct (time_Now s). Qed.

Lemma consume_logs_Ok logs bundle consumed0 consumed :
  consume_logs logs bundle consumed0 = (Ok consumed : res (failure E) _) →
  Forall (λ l, supportedTopic (topic l 0) → containsExactLog logs l) bundle ∧
  ∀ c, c ∈ consumed → c ∈ consumed0 ∨ ∃ l, l ∈ bundle ∧ coordinate l = c.
Proof.
  revert consumed0. induction bundle as [|l bundle IH]; intros consumed0; cbn [consume_logs].
  - intros [= <-]. split; [done|]. by left.
  - destruct (supportedTopic (topic l 0)) eqn:Hs.
    + destruct (containsExactLog logs l) eqn:Hc; [|done].
      intros [HF Hin]%IH. split; [constructor; [by rewrite Hc|done]|].
      intros c [Hc'|(l' & Hl' & <-)]%Hin.
      * apply elem_of_cons in Hc' as [->|Hc']; [|by left]. right. exists l.
        split; [apply list_elem_of_here|done].
      * right. exists l'. split; [by apply list_elem_of_further|done].
    + intros [HF Hin]%IH. split.
      { constructor; [by rewrite Hs|done]. }
      intros c [Hc'|(l' & Hl' & <-)]%Hin; [by left|].
      right. exists l'. split; [by apply list_elem_of_further|done].
Qed.

Lemma unbound_update_false consumed item :
  unbound_update consumed item = false → is_update item → coordinate item ∈ consumed.
Proof.
  unfold unbound_update, is_update. intros H Hu.
  apply andb_false_iff in H as [H|H]; bool_to_prop; [|done].
  destruct Hu as [?|[?|?]]; contradiction.
Qed.

(** What the first loop of [prepareBlock] leaves. *)
Record collecting (config : ConfirmedEventIndexerConfig) (hash : Hash) (logs : list Log)
    (c c' : collected) : Prop := {
  cl_logs : c'.(col_Logs) = c.(col_Logs) ++ (rawLog <$> logs);
  cl_canonical : Forall (λ l, l.(log_BlockHash) = hash) logs;
  cl_requests : ∃ rs, c'.(col_Requests) = c.(col_Requests) ++ rs ∧
    Forall2 (λ l r, ∃ at_ : Evidence.Time,
               VerificationRequestedEvent l config.(cfg_ChainID) config.(cfg_Gateway) at_
               = (Ok r : res (failure E) _))
      (filter (λ l, topic l 0 = VerificationRequestedTopic) logs) rs;
  cl_resolved : ∀ tx l, c'.(verificationTxs) !! tx = Some l →
    c.(verificationTxs) !! tx = Some l ∨ (l ∈ logs ∧ topic l 0 = RequestResolvedTopic)
}.

Lemma collecting_refl config hash c : collecting config hash [] c c.
Proof.
  split; [by rewrite app_nil_r|constructor| |by left].
  exists []. by rewrite app_nil_r.
Qed.

Lemma collecting_cons config hash l logs c c1 c2 :
  collecting config hash [l] c c1 → collecting config hash logs c1 c2 →
  collecting config hash (l :: logs) c c2.
Proof.
  intros [Hl1 Hc1 (rs1 & Hr1 & HF1) Hv1] [Hl2 Hc2 (rs2 & Hr2 & HF2) Hv2]. split.
  - by rewrite Hl2, Hl1, <-app_assoc.
  - by apply Forall_app_2 with (l1 := [l]).
  - exists (rs1 ++ rs2). split; [by rewrite Hr2, Hr1, <-app_assoc|].
    change (l :: logs) with ([l] ++ logs). rewrite filter_app. by apply Forall2_app.
  - intros tx x [H|[Hin Ht]]%Hv2.
    + apply Hv1 in H as [H|[Hin Ht]]; [by left|]. right. split; [|done].
      apply list_elem_of_singleton in Hin as ->. apply list_elem_of_here.
    + right. split; [by apply list_elem_of_further|done].
Qed.

Lemma collect_log_yields config hash l c :
  yields (collect_log config hash l c) (collecting config hash [l] c).
Proof.
  unfold collect_log. destruct (log_BlockHash l ≠?= hash) eqn:Hh; [by apply yields_fail|].
  bool_to_prop. assert (HF : Forall (λ x, log_BlockHash x = hash) [l]) by by constructor.
  destruct (topic l 0 =?= VerificationRequestedTopic) eqn:Hv.
  - bool_to_prop. eapply yields_bind; [apply yields_now|]. intros at_ _.
    eapply yields_bind; [apply yields_lift|]. intros request Hreq.
    destruct (match _ with Some _ => _ | None => _ end); [by apply yields_fail|].
    apply yields_ret. split; try done.
    + exists [request]. split; [done|]. rewrite filter_cons_True by done.
      constructor; [by exists at_|]. by rewrite filter_nil.
    + by left.
  - bool_to_prop. destruct (topic l 0 =?= RequestResolvedTopic) eqn:Hr; apply yields_ret;
      (split; [done|done|exists []; rewrite app_nil_r, filter_cons_False by done; by split|]);
      cbn [verificationTxs].
    + bool_to_prop. intros tx x [[_ <-]|[_ H]]%lookup_insert_Some; [|by left].
      right. split; [apply list_elem_of_here|done].
    + by left.
Qed.

Lemma collect_logs_yields config hash logs c :
  yields (collect_logs config hash logs c) (collecting config hash logs c).
Proof.
  revert c. induction logs as [|l logs IH]; intros c; cbn [collect_logs].
  - apply yields_ret, collecting_refl.
  - eapply yields_bind; [apply collect_log_yields|]. intros c1 Hc1.
    eapply yields_weaken; [apply IH|]. intros c2. by apply collecting_cons.
Qed.

Lemma materialize_yields config number hash receipt bundle recorded :
  yields (materialize config number hash receipt bundle recorded)
    (materialised config number hash receipt bundle recorded).
Proof.
  unfold materialize. destruct (List.find _ _) as [l|] eqn:Hl; [|by apply yields_fail].
  destruct (Receipt.Witness bundle) as [material|]; [|by apply yields_fail].
  apply find_some in Hl as [Hin Ht]. bool_to_prop.
  eapply yields_bind; [apply yields_lift|]. intros evidenceID Hid%map_err_Ok.
  eapply yields_bind; [apply yields_lift|]. intros _ _.
  eapply yields_bind; [apply yields_call|]. intros to _.
  eapply yields_bind; [apply yields_call|]. intros from _.
  destruct (_ || _) eqn:Hobs; [by apply yields_fail|]. bool_to_prop.
  eapply yields_bind; [apply yields_lift|]. intros edge Hedge%map_err_Ok.
  eapply yields_bind; [apply yields_now|]. intros at_ _.
  apply yields_ret. split; try done.
  exists l. split; [by apply list_elem_of_In|]. by split.
Qed.

(** What [prepare_verification] returns is the part of [verification] that
    concerns its records. *)
Lemma prepare_verification_yields config header number logs c tx l :
  l ∈ logs → topic l 0 = RequestResolvedTopic →
  yields (prepare_verification config header number logs c tx l)
    (λ '(receipt, resolution, dependencies, consumed), ∀ b,
       b.(Number) = number → b.(Receipts) = [receipt] → b.(Resolutions) = [resolution] →
       b.(Dependencies) = dependencies → existsb (unbound_update consumed) logs = false →
       ∃ request receipt bundle, verification config header logs b request receipt bundle).
Proof.
  intros Hl Ht. unfold prepare_verification.
  eapply yields_bind; [apply yields_lift|]. intros resolved _.
  eapply (yields_bind _ _ (λ _, True)).
  { destruct (_ !! _); [by apply yields_ret|].
    eapply yields_bind; [apply yields_call|]. intros [request|] _; [by apply yields_ret|].
    by apply yields_fail. }
  intros request _.
  eapply yields_bind; [apply yields_call|]. intros [receipt|] _; [|by apply yields_fail].
  eapply yields_bind; [apply yields_lift|]. intros bundle Hbundle%map_err_Ok.
  eapply yields_bind; [apply yields_lift|]. intros consumed' [Hlisted Hin]%consume_logs_Ok.
  assert (Hup : existsb (unbound_update consumed') logs = false →
    ∀ item, item ∈ logs → is_update item →
      ∃ l', l' ∈ Receipt.bundle_Logs bundle ∧ coordinate l' = coordinate item).
  { intros Hex item Hitem Hu.
    destruct (unbound_update consumed' item) eqn:Hun.
    - apply not_true_iff_false in Hex. destruct Hex. apply existsb_exists.
      exists item. split; [by apply list_elem_of_In|done].
    - apply (unbound_update_false _ _ Hun), Hin in Hu as [[]%not_elem_of_nil|Hu]. done. }
  destruct (Receipt.bundle_Dependency bundle) as [recorded|] eqn:Hdep.
  - eapply yields_bind; [apply materialize_yields|]. intros m Hm. apply yields_ret.
    intros b <- Hr Hs Hd Hex. exists request, receipt, bundle. split; try done.
    + by apply Hup.
    + by exists l.
    + rewrite Hdep. by exists m.
  - apply yields_ret.
    intros b <- Hr Hs Hd Hex. exists request, receipt, bundle. split; try done.
    + by apply Hup.
    + by exists l.
    + by rewrite Hdep.
Qed.

Lemma prepareBlock_yields config cursor header logs :
  yields (prepareBlock config cursor header logs) (prepared config cursor header logs).
Proof.
  unfold prepareBlock. eapply yields_bind; [apply collect_logs_yields|].
  intros c [Hlogs Hcanon (rs & Hrs & HF) Hres].
  pose (ok := λ '(receipts, resolutions, dependencies, consumed),
    existsb (unbound_update consumed) logs = false →
    let b := mkConfirmedBlock (cfg_ChainID config) (cfg_Gateway config)
      (default 0 (header_Number header)) (header_Hash header) (header_ParentHash header) cursor
      (col_Logs c) (col_Requests c) receipts resolutions dependencies (cfg_MerkleDepth config)
      (cfg_PathStepCostGas config) in
    (Forall (λ l, ¬ is_update l) logs ∧ b.(Receipts) = [] ∧ b.(Resolutions) = []
     ∧ b.(Dependencies) = [])
    ∨ ∃ request receipt bundle, verification config header logs b request receipt bundle).
  apply (yields_bind _ _ ok).
  - destruct (map_to_list (verificationTxs c)) as [|[tx l] [|? ?]] eqn:Hm; [| |by apply yields_fail].
    + apply yields_ret. intros Hex. left. split; [|done].
      apply Forall_forall. intros item Hitem Hu. apply not_true_iff_false in Hex.
      apply Hex, existsb_exists. exists item. split; [by apply list_elem_of_In|].
      destruct (unbound_update [] item) eqn:Hun; [done|].
      by apply (unbound_update_false _ _ Hun), not_elem_of_nil in Hu.
    + assert (Hl : verificationTxs c !! tx = Some l).
      { apply elem_of_map_to_list. rewrite Hm. apply list_elem_of_here. }
      apply Hres in Hl as [Hl|[Hin Ht]]; [by cbn in Hl; apply lookup_empty_Some in Hl|].
      eapply yields_bind; [by apply prepare_verification_yields|].
      intros [[[receipt resolution] dependencies] consumed] Hok. apply yields_ret.
      intros Hex. right. by apply Hok.
  - intros [[[receipts resolutions] dependencies] consumed] Hok. cbn [ok] in Hok.
    destruct (existsb _ _) eqn:Hex; [by apply yields_fail|]. apply yields_ret.
    split; try done; cbn; [by rewrite Hrs|by apply Hok].
Qed.

(** ** The loops of a step *)

Definition below (limit : Z) : Prop := 0 ≤ limit < MaxUint64.

Lemma cursor_of_number b : u64 b.(Number) → cursor_number (cursor_of b) = b.(Number).
Proof. intros H. unfold cursor_number, BlockHeight_BigInt. by apply uint256FromUint64_value. Qed.

Lemma cursor_number_nonneg cursor : 0 ≤ cursor_number cursor.
Proof. apply be_value_range. Qed.

Lemma extends_app config limit cursor blocks more :
  extends config limit cursor blocks → extends config limit (after cursor blocks) more →
  extends config limit cursor (blocks ++ more).
Proof.
  revert cursor. induction blocks as [|b blocks IH]; intros cursor; cbn; [done|].
  intros [Hb Hblocks] Hmore. split; [done|]. by apply IH.
Qed.

Lemma after_app cursor blocks more : after cursor (blocks ++ more) = after (after cursor blocks) more.
Proof. apply foldl_app. Qed.

(** Between two points of the loops: the blocks applied on the way. *)
Definition ran (config : ConfirmedEventIndexerConfig) (limit : Z)
    (cursor : Reorg.CanonicalCursor) (blocks : list ConfirmedBlock) (log : list event) : Prop :=
  log = Applied <$> blocks ∧ extends config limit cursor blocks.

Lemma ran_app config limit cursor blocks log more log' :
  ran config limit cursor blocks log → ran config limit (after cursor blocks) more log' →
  ran config limit cursor (blocks ++ more) (log ++ log').
Proof.
  intros [-> H1] [-> H2]. split; [by rewrite fmap_app|]. by apply extends_app.
Qed.

Lemma ran_nil config limit cursor : ran config limit cursor [] [].
Proof. done. Qed.

Lemma index_block_stage config logs cursor number limit :
  number = cursor_number cursor + 1 → number ≤ limit → below limit →
  emits (index_block config logs number cursor)
    (stage (λ '(cursor', _, _) log, ∃ b, ran config limit cursor [b] log ∧ cursor' = cursor_of b)
       (λ log, ∃ blocks, ran config limit cursor blocks log)).
Proof.
  intros Hn Hlimit Hbelow. pose proof (cursor_number_nonneg cursor).
  assert (Hnil : ∃ blocks, ran config limit cursor blocks []) by by exists [].
  unfold index_block. eapply quiet_bind; [apply recheck_stage|done|]. intros _ _.
  eapply quiet_bind; [apply read_header_stage|done|]. intros h Hh.
  take_guard. bool_to_prop.
  eapply quiet_bind; [|done|].
  { apply catch_records; [apply prepareBlock_yields|]. intros e. by apply prepared_stage. }
  intros b [Hbn Hbh (Hbc & Hbg & Hbe & Hbp) _ _ _ _]. rewrite Hh in Hbn. cbn in Hbn.
  assert (Hran : ran config limit cursor [b] [Applied b]).
  { split; [done|]. split; [|done]. split; try done; try lia. congruence. }
  eapply stage_bind; [apply record_stage|intros log ->; by exists [b]|].
  intros changed log ->. apply emits_ret. exists b. split; [done|].
  unfold cursor_of. by rewrite Hbc, Hbn, Hbh.
Qed.

(** A stage of the loops, whose errors carry the result so far. *)
Definition loop_stage {A} (config : ConfirmedEventIndexerConfig) (limit : Z)
    (cursor : Reorg.CanonicalCursor) (result : StepResult)
    (good : A → StepResult → Reorg.CanonicalCursor → Prop)
    (r : res (StepResult * step_error E) (A * StepResult)) (log : list event) : Prop :=
  match r with
  | Ok (a, result') => ∃ blocks, ran config limit cursor blocks log ∧
      result'.(Head) = result.(Head) ∧ result'.(SafeHead) = result.(SafeHead) ∧
      good a result' (after cursor blocks)
  | Err (result', e) => ∃ blocks before ending, log = before ++ ending ∧
      ran config limit cursor blocks before ∧ failed e ending ∧
      result'.(Head) = result.(Head) ∧ result'.(SafeHead) = result.(SafeHead)
  end.

Lemma at_result_emits {A} (m : M S event (step_error E) A) result
    (good : A → list event → Prop) (way : list event → Prop) :
  emits m (stage good way) →
  emits (at_result result m) (λ r log, match r with
    | Ok a => good a log
    | Err (result', e) => result' = result ∧
        ∃ before ending, log = before ++ ending ∧ way before ∧ failed e ending
    end).
Proof.
  intros Hm. apply (emits_catch _ _ _ _ Hm); [done|].
  intros e log H. apply emits_fail. by rewrite app_nil_r.
Qed.

Lemma index_blocks_stage config fuel logs number rangeEnd limit cursor result :
  number = cursor_number cursor + 1 → number ≤ rangeEnd + 1 → rangeEnd ≤ limit → below limit →
  rangeEnd + 1 - number ≤ Z.of_nat fuel →
  emits (index_blocks config fuel logs number rangeEnd cursor result)
    (loop_stage config limit cursor result
       (λ cursor' _ final, cursor' = final ∧ cursor_number final = rangeEnd)).
Proof.
  revert number cursor result. induction fuel as [|fuel IH];
    intros number cursor result Hn Hend Hlimit Hbelow Hfuel; cbn [index_blocks];
    pose proof (cursor_number_nonneg cursor);
    (destruct (Z.ltb_spec rangeEnd number);
       [apply emits_ret; exists []; cbn; split_and!; [by split|done..|lia]|]); [lia|].
  eapply emits_bind.
  - apply at_result_emits, (index_block_stage _ _ _ _ limit); [done|lia|done].
  - intros [result' e] log [-> (before & ending & -> & (blocks & Hran) & He)].
    by exists blocks, before, ending.
  - intros [[cursor' changed] n] log (b & Hran & ->).
    destruct (proj2 Hran) as [Hb _]. pose proof (nb_number _ _ _ _ Hb).
    assert (Hu : u64 b.(Number)) by (unfold u64, below in *; lia).
    rewrite wrap64_small by (unfold u64, below in *; lia).
    eapply emits_weaken.
    + apply IH; [|lia..|done|lia]. rewrite cursor_of_number by done. lia.
    + intros [[a result']|[result' e]] log'; cbn [loop_stage].
      * intros (blocks & Hmore & Hh & Hs & Hgood). exists ([b] ++ blocks).
        split; [by apply ran_app|]. done.
      * intros (blocks & before & ending & -> & Hmore & He & Hh & Hs).
        exists ([b] ++ blocks), (log ++ before), ending.
        split; [by rewrite app_assoc|]. split; [by apply ran_app|]. done.
Qed.

Lemma at_result_quiet {A B} (m : M S event (step_error E) A)
    (k : A → M S event (StepResult * step_error E) (B * StepResult)) result (P : A → Prop)
    config limit cursor (good : B → StepResult → Reorg.CanonicalCursor → Prop) :
  emits m (quiet P) →
  (∀ a, P a → emits (k a) (loop_stage config limit cursor result good)) →
  emits (at_result result m ≫= k) (loop_stage config limit cursor result good).
Proof.
  intros Hm Hk. eapply emits_bind.
  - by eapply at_result_emits.
  - intros [result' e] log [-> (before & ending & -> & -> & He)].
    by exists [], [], ending.
  - intros a log [-> Ha]. by apply Hk.
Qed.

Lemma loop_stage_app {A} config limit cursor blocks log0 result0 result
    (good : A → StepResult → Reorg.CanonicalCursor → Prop)
    (m : M S event (StepResult * step_error E) (A * StepResult)) :
  ran config limit cursor blocks log0 →
  result.(Head) = result0.(Head) → result.(SafeHead) = result0.(SafeHead) →
  emits m (loop_stage config limit (after cursor blocks) result good) →
  emits m (λ r log, loop_stage config limit cursor result0 good r (log0 ++ log)).
Proof.
  intros Hran Hh0 Hs0 Hm. apply (emits_weaken _ _ _ Hm).
  intros [[a result']|[result' e]] log; cbn [loop_stage].
  - intros (more & Hmore & Hh & Hs & Hgood). exists (blocks ++ more).
    rewrite after_app. split_and!; [by apply ran_app|congruence..|done].
  - intros (more & before & ending & -> & Hmore & He & Hh & Hs).
    exists (blocks ++ more), (log0 ++ before), ending.
    split_and!; [by rewrite app_assoc|by apply ran_app|done|congruence..].
Qed.

Lemma range_end_bounds config rangeStart safeHead :
  0 < config.(MaxBlockRange) → u64 config.(MaxBlockRange) →
  0 ≤ rangeStart ≤ safeHead → below safeHead →
  rangeStart ≤ range_end config rangeStart safeHead ≤ safeHead.
Proof. intros H1 H2 H3 H4. unfold range_end. repeat case_match; bool_to_prop; lia. Qed.

Lemma index_ranges_stage config fuel start rangeStart limit cursor result :
  0 < config.(MaxBlockRange) → u64 config.(MaxBlockRange) →
  start ≠ 0 → result.(SafeHead) = limit → below limit →
  rangeStart = cursor_number cursor + 1 → rangeStart ≤ limit + 1 →
  limit + 1 - rangeStart ≤ Z.of_nat fuel →
  emits (index_ranges config fuel start rangeStart cursor result)
    (loop_stage config limit cursor result
       (λ cursor' _ final, cursor' = final ∧ cursor_number final = limit)).
Proof.
  intros Hrange Hu Hstart. revert rangeStart cursor result.
  induction fuel as [|fuel IH]; intros rangeStart cursor result Hs Hlimit Hn Hle Hfuel;
    cbn [index_ranges]; pose proof (cursor_number_nonneg cursor);
    rewrite (proj2 (Z.eqb_neq start 0) Hstart), Hs; cbn [orb];
    (destruct (Z.ltb_spec limit rangeStart);
       [apply emits_ret; exists []; cbn; split_and!; [by split|done..|lia]|]); [lia|].
  pose proof (range_end_bounds config rangeStart limit Hrange Hu ltac:(lia) Hlimit) as [Hlo Hhi].
  eapply (at_result_quiet _ _ _ (λ _, True)).
  { apply emits_call. intros s. destruct (rpc_FilterLogs _ _ _ s) as [[?|e] s']; cbn; [done|].
    by exists [], []. }
  intros logs _. eapply (at_result_quiet _ _ _ (λ _, True)).
  { eapply catch_records; [|intros e; by apply failClosed_stage]. by apply emits_lift. }
  intros sorted _. eapply emits_bind.
  - apply (index_blocks_stage _ _ _ _ _ limit); [lia..|done|lia].
  - done.
  - intros [cursor' result'] log (blocks & Hran & Hh & Hsafe & -> & Hfinal).
    destruct (Z.eqb_spec (range_end config rangeStart limit) MaxUint64);
      [unfold below in *; lia|].
    apply (loop_stage_app _ _ _ _ _ _ result' _ _ Hran Hh Hsafe).
    rewrite wrap64_small by (unfold u64, below in *; lia).
    apply IH; [lia|done|lia..].
Qed.

Lemma load_stage config :
  emits (load_or_initialize config)
    (stage (λ '(cursor, _) log, opening config cursor log)
       (λ log, ∃ cursor, opening config cursor log)).
Proof.
  assert (Hnil : ∃ cursor, opening config cursor []).
  { exists (Reorg.NewCanonicalCursor config.(cfg_ChainID) config.(cfg_DeploymentBlock) zero32).
    by left. }
  unfold load_or_initialize. eapply (quiet_bind _ _ (λ _, True)); [|done|].
  { apply emits_call. intros s. destruct (LoadIndexerCursor _ s) as [[?|e] s']; cbn; [done|].
    by exists [], []. }
  intros [cursor|] _; [by apply emits_ret; left|].
  eapply quiet_bind; [apply read_header_stage|done|]. intros h _.
  eapply quiet_bind; [apply validate_stage|done|]. intros _ _.
  set (cursor := Reorg.NewCanonicalCursor _ _ _).
  assert (Hopen : opening config cursor [Initialized cursor]) by (right; by eexists).
  eapply stage_bind; [apply record_stage|intros log ->; by exists cursor|].
  intros _ log ->. by apply emits_ret.
Qed.

(** What [step_from] returns and records, from a cursor. *)
Definition from_cursor (config : ConfirmedEventIndexerConfig) (validated : bool)
    (result0 : StepResult) (cursor : Reorg.CanonicalCursor)
    (r : res (StepResult * step_error E) (StepResult * bool)) (log : list event) : Prop :=
  match r with
  | Ok (result, v) =>
      (log = [] ∧ v = validated ∧ result0.(SafeHead) < cursor_number cursor) ∨
      (v = true ∧ usable config cursor ∧ result.(Head) = result0.(Head) ∧
       ∃ blocks, extends config result0.(SafeHead) cursor blocks ∧
         cursor_number (after cursor blocks) = result0.(SafeHead) ∧
         log = (Applied <$> blocks)
               ++ if validated then [] else [Validated (after cursor blocks)])
  | Err (result, e) => result.(Head) = result0.(Head) ∧
      ∃ blocks ending last, (blocks = [] ∨ usable config cursor) ∧
        extends config result0.(SafeHead) cursor blocks ∧
        (ending = [] ∨ (validated = false ∧ usable config cursor
           ∧ cursor_number (after cursor blocks) = result0.(SafeHead)
           ∧ ending = [Validated (after cursor blocks)])) ∧
        failed e last ∧ log = (Applied <$> blocks) ++ ending ++ last
  end.

Lemma step_from_stage config validated result cursor exists_ :
  0 < config.(MaxBlockRange) → u64 config.(MaxBlockRange) → below result.(SafeHead) →
  emits (step_from config validated result cursor exists_)
    (from_cursor config validated result cursor).
Proof.
  intros Hrange Hu Hbelow. pose proof (cursor_number_nonneg cursor).
  unfold step_from. eapply emits_bind; [apply at_result_emits, check_cursor_stage| |].
  { intros [result' e] log [-> (before & last & -> & -> & He)]. split; [done|].
    exists [], [], last. cbn. auto. }
  intros _ log [-> Hus]. destruct (Z.ltb_spec result.(SafeHead) (cursor_number cursor)).
  { apply emits_ret. by left. }
  eapply (emits_bind _ _ (λ r log, match r with Ok _ => log = [] | Err (result', e) =>
            result' = result ∧ failed e log end)).
  { eapply emits_weaken.
    - apply at_result_emits. destruct validated.
      + apply (emits_ret _ (quiet (λ _, True))). by split.
      + eapply quiet_bind; [apply recheck_stage|done|]. intros _ _. destruct exists_.
        * apply validate_stage.
        * by apply emits_ret.
    - intros [[]|[result' e]] log; [by intros [-> _]|].
      by intros [-> (before & last & -> & -> & He)]. }
  { intros [result' e] log [-> He]. split; [done|]. exists [], [], log. cbn. auto 10. }
  intros _ log ->. rewrite wrap64_small by (unfold u64, below in *; lia).
  eapply emits_bind.
  { apply (index_ranges_stage _ _ _ _ result.(SafeHead)); unfold step_fuel; try done; lia. }
  { intros [result' e] log (blocks & before & last & -> & [-> Hext] & He & Hh & _).
    split; [done|]. exists blocks, [], last. cbn. auto 10. }
  intros [cursor' result'] log (blocks & [-> Hext] & Hh & Hs & -> & Hfinal). cbn [app].
  destruct validated.
  { apply emits_ret. right. split_and!; [done..|]. exists blocks. by rewrite app_nil_r. }
  eapply emits_bind; [apply at_result_emits, record_stage| |].
  - intros [result'' e] log [-> (before & last & -> & -> & He)]. split; [done|].
    exists blocks, [Validated (after cursor blocks)], last.
    split_and!; [by right|done|by right|done|done].
  - intros _ log ->. apply emits_ret. right. split_and!; [done..|]. by exists blocks.
Qed.

Lemma protocol_from config validated result0 cursor init r log :
  opening config cursor init → result0.(SafeHead) = result0.(Head) - config.(Confirmations) →
  (init ≠ [] → cursor_number cursor ≤ result0.(SafeHead)) →
  from_cursor config validated result0 cursor r log → protocol config validated r (init ++ log).
Proof.
  intros Hopen Hsafe Hinit. destruct r as [[result v]|[result e]]; cbn [from_cursor].
  - intros [(-> & -> & Hlt)|(-> & Hus & Hh & blocks & Hext & Hfinal & ->)].
    + destruct init as [|ev init]; [constructor|]. specialize (Hinit ltac:(done)). lia.
    + apply protocol_done; [done..| |]; rewrite Hh; [by rewrite <-Hsafe|lia].
  - intros (Hh & blocks & ending & last & Hus & Hext & Hend & He & ->).
    apply (protocol_stopped config validated result e cursor init blocks); try done.
    + by rewrite Hh, <-Hsafe.
    + destruct Hend as [?|(? & ? & ? & ?)]; [by left|right]. split_and!; try done. lia.
Qed.


(** C35. Every block handed over is what the chain says: its logs are the logs
    of [eth_getLogs], all from the canonical block; its requests are those whose
    identifier recomputes; and either no log updates the tree, or all updates
    belong to one receipt that passes the verification, whose dependency, if it
    has one, is recorded with the evidence, nodes and edge it determines. *)
Theorem prepareBlock_spec config cursor header logs s b s' log :
  prepareBlock config cursor header logs s = (Ok b, s', log) →
  log = [] ∧ prepared config cursor header logs b.
Proof.
  intros H. pose proof (prepareBlock_yields config cursor header logs s) as [Hlog Hb].
  rewrite H in Hlog, Hb. split; [done|]. by apply Hb.
Qed.

End Preparing.

(** *** A chain for the closed instances

    Blocks 48 to 52; block 50 holds the verification receipt of
    [Receipt.sample_receipt], block 49 the event of a request.  The state is the
    stored cursor. *)

Definition sample_config : ConfirmedEventIndexerConfig :=
  mkConfig (Receipt.w 1) (be_vec 20 7) (sample_hash [Byte.x01]) (be_vec 32 48) 2 1 3 30713.

Definition sample_header (number : Z) : Header :=
  mkHeader (Some number) (Receipt.w (number + 38)) (Receipt.w (number + 37)).

Definition requested_id : RequestID :=
  default_ok zero32
    (Evidence.ComputeGatewayRequestID sample_hash (Receipt.w 1) (be_vec 20 7) (be_vec 20 5)
       (Some 4) (Receipt.w 2) (Receipt.w 11) (Receipt.w 98)).

Definition requested : Log :=
  mkLog (be_vec 20 7) [VerificationRequestedTopic; requested_id; address_word (be_vec 20 5);
                       Receipt.w 2]
    (concat_words [Receipt.w 11; Receipt.w 98; Receipt.w 4]) 49 (Receipt.w 70) 0
    (Receipt.w 87) 0 false.

Definition sample_logs : list Log :=
  requested :: filter (λ l, l.(log_Address) = be_vec 20 7 ∧ supportedTopic (topic l 0))
                 (omap id Receipt.sample_receipt.(Receipt.Logs)).

#[export] Instance sample_rpc : EventRPC (option Reorg.CanonicalCursor) string := {
  rpc_BlockNumber s := (Ok 52, s);
  rpc_ChainID s := (Ok (Some 1), s);
  rpc_HeaderByNumber number s := (Ok (Some (sample_header number)), s);
  rpc_CodeAtHash _ _ s := (Ok [Byte.x01], s);
  rpc_FilterLogs from to _ s :=
    (Ok (filter (λ l, from ≤ l.(log_BlockNumber) ≤ to) sample_logs), s);
  rpc_TransactionReceipt _ s := (Ok (Some Receipt.sample_receipt), s);
  time_Now s := (Some 5, s)
}.

#[export] Instance sample_store : OperationalStore (option Reorg.CanonicalCursor) string := {
  LoadIndexerCursor _ s := (Ok s, s);
  InitializeIndexerCursor cursor _ := (Ok tt, Some cursor);
  MarkIndexerValidated _ s := (Ok tt, s);
  LoadIndexerRequest _ s := (Ok (Some Receipt.sample_eth_request), s);
  ObserveExpectedTrustRoot chainID height hash root s :=
    (Ok (TrustView.NewTrustNode sample_hash (TrustView.mkNodeKey chainID height hash) root
           placeholder_evidence), s);
  ApplyIndexerBlock b _ := (Ok true, Some (cursor_of b));
  DegradeIndexerCursor _ _ s := (Ok tt, s);
  deterministic_store _ := false;
  deterministic_observation _ := false
}.

Definition sample_run :=
  Step sample_hash (λ _, "error"%string) sample_config false None.

Definition sample_block :=
  prepareBlock sample_hash sample_config
    (Reorg.NewCanonicalCursor (Receipt.w 1) (be_vec 32 49) (Receipt.w 87)) (sample_header 50)
    (tail sample_logs) None.


Lemma prepareBlock_spec_witness :
  ∃ b, length b.(Dependencies) = 1%nat ∧
    prepared (E := string) sample_hash sample_config
      (Reorg.NewCanonicalCursor (Receipt.w 1) (be_vec 32 49) (Receipt.w 87)) (sample_header 50)
      (tail sample_logs) b.
Proof.
  assert (match sample_block.1.1 with Ok b => length b.(Dependencies) | Err _ => 0%nat end = 1%nat)
    as Hone by (vm_compute; reflexivity).
  destruct sample_block as [[[b|e] s'] log] eqn:Hrun; [|discriminate Hone].
  exists b. split; [exact Hone|].
  exact (proj2 (prepareBlock_spec sample_hash sample_config _ _ _ _ _ _ _ Hrun)).
Defined.

End Indexer.
