(* ===== verification/Envelope.v ===== *)
(** * Mapnode/p2p: evidence envelopes and ingress rejections

    dependency_evidence_envelope.go and ingress_rejection.go.  A [peer.ID] of
    libp2p is a Go string of bytes ([bytes] here); [peer.IDFromBytes] and
    SHA-256 are parameters.  [ObservedAt] is [None] for the zero time and the
    Unix nanoseconds otherwise. *)

From S2P Require Import Prelude Domain Evidence.
Import Domain.
From Stdlib Require Import Strings.Byte.

Module Envelope.

#[local] Existing Instances Evidence.Locator_eq_dec.

Abbreviation PeerID := bytes.

Inductive error :=
| ErrProtocolVersion
| ErrOriginLength
| ErrOriginPeer
| ErrObservationTime
| ErrLocator (e : Evidence.error)
| ErrMessageID
| ErrEnvelopeSize
| ErrEnvelopeMagic
| ErrOriginFraming
| ErrTrailingBytes
| ErrSender
| ErrRejectionFields
| ErrRejectionPayload.

Definition DependencyEvidenceProtocolVersion : Z := 1.
Definition MaxDependencyEvidenceEnvelopeSize : Z := 512.
Definition maxOriginPeerBytes : Z := 128.
Definition envelopeMagic : bytes := bytes_of_string "TMDE".

Record DependencyEvidenceEnvelope := mkEnvelope {
  ProtocolVersion : Z;
  MessageID : Hash;
  OriginPeer : PeerID;
  ObservedAt : Evidence.Time;
  RecordingChainID : ChainID;
  env_Gateway : Address;
  env_BlockNumber : BlockHeight;
  env_BlockHash : Hash;
  env_TxHash : Hash;
  env_TxIndex : Z;
  env_LogIndex : Z;
  env_PayloadDigest : Hash
}.

#[export] Instance Envelope_eq_dec : EqDecision DependencyEvidenceEnvelope.
Proof. solve_decision. Defined.

Definition envelope_Locator (envelope : DependencyEvidenceEnvelope) : Evidence.Locator :=
  Evidence.mkLocator envelope.(RecordingChainID) envelope.(env_Gateway)
    envelope.(env_BlockNumber) envelope.(env_BlockHash) envelope.(env_TxHash)
    envelope.(env_TxIndex) envelope.(env_LogIndex) envelope.(env_PayloadDigest).

Definition set_MessageID (envelope : DependencyEvidenceEnvelope) (id : Hash)
    : DependencyEvidenceEnvelope :=
  mkEnvelope envelope.(ProtocolVersion) id envelope.(OriginPeer) envelope.(ObservedAt)
    envelope.(RecordingChainID) envelope.(env_Gateway) envelope.(env_BlockNumber)
    envelope.(env_BlockHash) envelope.(env_TxHash) envelope.(env_TxIndex)
    envelope.(env_LogIndex) envelope.(env_PayloadDigest).

(** [int64(binary.BigEndian.Uint64(...))] *)
Definition int64_of (v : Z) : Z := if v <? 2 ^ 63 then v else v - 2 ^ 64.

(** Reading [encoded[offset:offset+n]] and moving the offset; the decoder has
    checked the total length before. *)
Definition take_bytes (n : nat) (rest : bytes) : bytes * bytes := (take n rest, drop n rest).

Definition read_array (n : nat) (rest : bytes) : vec byte n := be_vec n (be_value (take n rest)).

Section Peers.
Context (IDFromBytes : bytes → option PeerID).
Context (sha256 : bytes → Hash).

Definition validateContent (envelope : DependencyEvidenceEnvelope) : res error unit :=
  if negb (envelope.(ProtocolVersion) =? DependencyEvidenceProtocolVersion)
  then Err ErrProtocolVersion
  else if (zlen envelope.(OriginPeer) =? 0) || (maxOriginPeerBytes <? zlen envelope.(OriginPeer))
  then Err ErrOriginLength
  else if IDFromBytes envelope.(OriginPeer) ≠?= Some envelope.(OriginPeer)
  then Err ErrOriginPeer
  else if match envelope.(ObservedAt) with None => true | Some n => n <=? 0 end
  then Err ErrObservationTime
  else map_err ErrLocator (Evidence.Locator_Validate (envelope_Locator envelope)).

(** [ObservedAt.UnixNano()] written as a [uint64]. *)
Definition nanos_word (at_ : Evidence.Time) : bytes := be_bytes 8 (default 0 at_).

Definition content_encoding (envelope : DependencyEvidenceEnvelope) : bytes :=
  be_bytes 2 envelope.(ProtocolVersion)
    ++ be_bytes 2 (zlen envelope.(OriginPeer)) ++ envelope.(OriginPeer)
    ++ nanos_word envelope.(ObservedAt) ++ envelope.(RecordingChainID)
    ++ envelope.(env_Gateway) ++ envelope.(env_BlockNumber) ++ envelope.(env_BlockHash)
    ++ envelope.(env_TxHash) ++ be_bytes 4 envelope.(env_TxIndex)
    ++ be_bytes 4 envelope.(env_LogIndex) ++ envelope.(env_PayloadDigest).

Definition canonicalContent (envelope : DependencyEvidenceEnvelope) : res error bytes :=
  _ ← validateContent envelope; Ok (content_encoding envelope).

Definition message_prefix : bytes :=
  bytes_of_string "TrustMap/DependencyEvidenceEnvelope/MessageID/v1" ++ [x00].

Definition ComputeMessageID (envelope : DependencyEvidenceEnvelope) : res error Hash :=
  content ← canonicalContent envelope;
  Ok (sha256 (message_prefix ++ content)).

Definition NewDependencyEvidenceEnvelope (origin : PeerID) (observedAt : Evidence.Time)
    (locator : Evidence.Locator) : res error DependencyEvidenceEnvelope :=
  let envelope := mkEnvelope DependencyEvidenceProtocolVersion zero32 origin observedAt
    locator.(Evidence.ChainID) locator.(Evidence.ContractAddress)
    locator.(Evidence.BlockNumber) locator.(Evidence.BlockHash) locator.(Evidence.TxHash)
    locator.(Evidence.TxIndex) locator.(Evidence.LogIndex) locator.(Evidence.PayloadDigest) in
  messageID ← ComputeMessageID envelope;
  Ok (set_MessageID envelope messageID).

Definition MarshalBinary (envelope : DependencyEvidenceEnvelope) : res error bytes :=
  content ← canonicalContent envelope;
  want ← ComputeMessageID envelope;
  if envelope.(MessageID) ≠?= want then Err ErrMessageID
  else
    let encoded := envelopeMagic ++ envelope.(MessageID) ++ content in
    if MaxDependencyEvidenceEnvelopeSize <? zlen encoded then Err ErrEnvelopeSize
    else Ok encoded.

Definition ParseDependencyEvidenceEnvelope (encoded : bytes)
    : res error DependencyEvidenceEnvelope :=
  if (MaxDependencyEvidenceEnvelopeSize <? zlen encoded) || (zlen encoded <? 236)
  then Err ErrEnvelopeSize
  else if take 4 encoded ≠?= envelopeMagic then Err ErrEnvelopeMagic
  else
    let rest := drop 4 encoded in
    let messageID := read_array 32 rest in let rest := drop 32 rest in
    let version := be_value (take 2 rest) in let rest := drop 2 rest in
    let originLength := be_value (take 2 rest) in let rest := drop 2 rest in
    if (originLength =? 0) || (maxOriginPeerBytes <? originLength)
       || negb (40 + originLength + 196 =? zlen encoded)
    then Err ErrOriginFraming
    else
      let n := Z.to_nat originLength in
      match IDFromBytes (take n rest) with
      | None => Err ErrOriginPeer
      | Some origin =>
          let rest := drop n rest in
          let nanos := int64_of (be_value (take 8 rest)) in let rest := drop 8 rest in
          let chainID := read_array 32 rest in let rest := drop 32 rest in
          let gateway := read_array 20 rest in let rest := drop 20 rest in
          let blockNumber := read_array 32 rest in let rest := drop 32 rest in
          let blockHash := read_array 32 rest in let rest := drop 32 rest in
          let txHash := read_array 32 rest in let rest := drop 32 rest in
          let txIndex := be_value (take 4 rest) in let rest := drop 4 rest in
          let logIndex := be_value (take 4 rest) in let rest := drop 4 rest in
          let payloadDigest := read_array 32 rest in let rest := drop 32 rest in
          if negb (zlen rest =? 0) then Err ErrTrailingBytes
          else
            let envelope := mkEnvelope version messageID origin (Some nanos) chainID gateway
              blockNumber blockHash txHash txIndex logIndex payloadDigest in
            _ ← validateContent envelope;
            match ComputeMessageID envelope with
            | Ok want => if want ≠?= messageID then Err ErrMessageID else Ok envelope
            | Err _ => Err ErrMessageID
            end
      end.

Definition ValidateFrom (envelope : DependencyEvidenceEnvelope) (sender : PeerID)
    : res error unit :=
  if (sender =?= []) || (sender ≠?= envelope.(OriginPeer)) then Err ErrSender
  else _ ← MarshalBinary envelope; Ok tt.

(** ** Ingress rejections *)

Record IngressRejection := mkRejection {
  RejectionID : Hash;
  ActualOrigin : PeerID;
  ClaimedOrigin : PeerID;
  ClaimedMessageID : Hash;
  PayloadFingerprint : Hash;
  rej_Reason : string;
  ReceivedAt : Evidence.Time
}.

Definition fingerprint_prefix : bytes :=
  bytes_of_string "TrustMap/DependencyEvidenceEnvelope/PayloadFingerprint/v1" ++ [x00].
Definition rejection_prefix : bytes :=
  bytes_of_string "TrustMap/DependencyEvidenceEnvelope/IngressRejection/v1" ++ [x00].

Definition NewIngressRejection (actual : PeerID) (envelope : DependencyEvidenceEnvelope)
    (payload : bytes) (reason : string) (receivedAt : Evidence.Time)
    : res error IngressRejection :=
  if (actual =?= []) || (actual =?= envelope.(OriginPeer)) || (reason =?= "")
     || (receivedAt =?= None)
  then Err ErrRejectionFields
  else
    match ParseDependencyEvidenceEnvelope payload with
    | Err _ => Err ErrRejectionPayload
    | Ok parsed =>
        if parsed ≠?= envelope then Err ErrRejectionPayload
        else
          let fingerprint := sha256 (fingerprint_prefix ++ payload) in
          let id := sha256 (rejection_prefix ++ be_bytes 2 (zlen actual) ++ actual
                              ++ fingerprint) in
          Ok (mkRejection id actual envelope.(OriginPeer) envelope.(MessageID) fingerprint
                reason receivedAt)
    end.

End Peers.

(** A value of the Go struct: version in sixteen bits, indexes in thirty-two,
    the time in the range of [UnixNano]. *)
Definition in_range (envelope : DependencyEvidenceEnvelope) : Prop :=
  0 ≤ envelope.(ProtocolVersion) < 2 ^ 16 ∧ u32 envelope.(env_TxIndex) ∧
  u32 envelope.(env_LogIndex) ∧
  match envelope.(ObservedAt) with Some n => - 2 ^ 63 ≤ n < 2 ^ 63 | None => True end.

(** ** Lemmas *)

(** *** Reading back what was written *)

Lemma take_here (a b : bytes) n : length a = n → take n (a ++ b) = a.
Proof. intros <-. apply take_app_length. Qed.

Lemma drop_here (a b : bytes) n : length a = n → drop n (a ++ b) = b.
Proof. intros <-. apply drop_app_length. Qed.

Lemma read_array_here n (v : vec byte n) (b : bytes) : read_array n (v ++ b) = v.
Proof. unfold read_array. rewrite take_here by apply length_vec_to_list. apply be_vec_value. Qed.

Lemma be_value_be_bytes_small n z : 0 ≤ z < 256 ^ Z.of_nat n → be_value (be_bytes n z) = z.
Proof. intros. rewrite be_value_be_bytes. by apply Z.mod_small. Qed.

Lemma int64_be_bytes z : 0 < z < 2 ^ 63 → int64_of (be_value (be_bytes 8 z)) = z.
Proof.
  intros Hz. rewrite be_value_be_bytes_small by (change (256 ^ Z.of_nat 8) with (2 ^ 64); lia).
  unfold int64_of. by rewrite (proj2 (Z.ltb_lt _ _)) by lia.
Qed.

Lemma length_content_encoding envelope :
  length (content_encoding envelope) = (200 + length envelope.(OriginPeer))%nat.
Proof.
  unfold content_encoding, nanos_word. rewrite !length_app, !length_be_bytes, !length_vec_to_list. lia.
Qed.

Section Roundtrip.
Context (IDFromBytes : bytes → option PeerID) (sha256 : bytes → Hash).

Lemma validateContent_Ok envelope :
  validateContent IDFromBytes envelope = Ok tt →
  envelope.(ProtocolVersion) = 1 ∧ 1 ≤ zlen envelope.(OriginPeer) ≤ 128 ∧
  IDFromBytes envelope.(OriginPeer) = Some envelope.(OriginPeer) ∧
  ∃ n, envelope.(ObservedAt) = Some n ∧ 0 < n.
Proof.
  unfold validateContent, DependencyEvidenceProtocolVersion, maxOriginPeerBytes.
  intros [Hv H]%bind_bool. apply bind_bool in H as [Hl H]. apply bind_bool in H as [Hid H].
  apply bind_bool in H as [Ht _]. pose proof (zlen_nonneg (OriginPeer envelope)).
  destruct (ObservedAt envelope) as [n|]; [|done]. bool_to_prop.
  split_and!; try done; try lia. by exists n.
Qed.

Lemma MarshalBinary_Ok envelope encoded :
  MarshalBinary IDFromBytes sha256 envelope = Ok encoded ↔
  validateContent IDFromBytes envelope = Ok tt ∧
  envelope.(MessageID) = sha256 (message_prefix ++ content_encoding envelope) ∧
  encoded = envelopeMagic ++ envelope.(MessageID) ++ content_encoding envelope ∧
  zlen encoded ≤ 512.
Proof.
  unfold MarshalBinary, ComputeMessageID, canonicalContent, MaxDependencyEvidenceEnvelopeSize.
  destruct (validateContent _ _) as [[]|]; cbn; [|naive_solver].
  split.
  - intros [Hm H]%bind_bool. apply bind_bool in H as [Hz [= <-]]. bool_to_prop. by split_and!.
  - intros (_ & <- & -> & Hz). rewrite bool_decide_eq_true_2 by done. cbn [negb].
    by rewrite (proj2 (Z.ltb_ge _ _)).
Qed.

(** Parsing what [MarshalBinary] wrote. *)
Lemma Parse_marshalled envelope encoded :
  in_range envelope → MarshalBinary IDFromBytes sha256 envelope = Ok encoded →
  ParseDependencyEvidenceEnvelope IDFromBytes sha256 encoded = Ok envelope.
Proof.
  intros (_ & Htx & Hlog & Hat) (Hval & Hid & -> & Hz)%MarshalBinary_Ok.
  destruct (validateContent_Ok _ Hval) as (Hv & Hl & Hpeer & n & Hn & Hpos).
  rewrite Hn in Hat. pose proof (length_content_encoding envelope) as Hlen.
  unfold ParseDependencyEvidenceEnvelope, MaxDependencyEvidenceEnvelopeSize, maxOriginPeerBytes.
  assert (zlen (envelopeMagic ++ MessageID envelope ++ content_encoding envelope)
    = 236 + zlen (OriginPeer envelope)) as Hsz.
  { unfold zlen. rewrite !length_app, length_vec_to_list, Hlen.
    change (length envelopeMagic) with 4%nat. lia. }
  rewrite !Hsz, !(proj2 (Z.ltb_ge _ _)) by lia. cbn [orb].
  rewrite take_here, drop_here by done. rewrite bool_decide_eq_true_2 by done. cbn [negb].
  rewrite read_array_here, drop_here by apply length_vec_to_list.
  remember (sha256 (message_prefix ++ content_encoding envelope)) as digest eqn:Hdig.
  unfold content_encoding, nanos_word in *.
  destruct envelope as [v m o at_ c g bn bh th ti li pd]. cbn [ProtocolVersion MessageID OriginPeer
    ObservedAt RecordingChainID env_Gateway env_BlockNumber env_BlockHash env_TxHash env_TxIndex
    env_LogIndex env_PayloadDigest default from_option id] in *. subst at_ v m. cbn [default from_option id] in *.
  pose proof (zlen_nonneg o) as Ho. unfold u32, MaxUint32 in *.
  repeat first [rewrite drop_here by length_tac | rewrite take_here by length_tac
    | rewrite read_array_here].
  rewrite !(be_value_be_bytes_small 2) by (change (256 ^ Z.of_nat 2) with 65536; lia).
  rewrite (proj2 (Z.eqb_neq _ _)), (proj2 (Z.ltb_ge _ _)), (proj2 (Z.eqb_eq _ _)) by lia. cbn [orb negb].
  replace (Z.to_nat (zlen o)) with (length o) by (unfold zlen; lia).
  repeat first [rewrite drop_here by length_tac | rewrite take_here by length_tac
    | rewrite read_array_here].
  rewrite Hpeer.
  assert (∀ w : bytes32, read_array 32 w = w ∧ drop 32 (w : bytes) = []) as Hw.
  { intros w. split.
    - unfold read_array. rewrite take_ge by (by rewrite length_vec_to_list). apply be_vec_value.
    - apply drop_ge. by rewrite length_vec_to_list. }
  rewrite (proj2 (Hw pd)), (proj1 (Hw pd)).
  rewrite !(be_value_be_bytes_small 4) by (change (256 ^ Z.of_nat 4) with 4294967296; lia).
  rewrite (be_value_be_bytes_small 2 1) by done.
  rewrite int64_be_bytes by lia. change (zlen [] =? 0) with true. cbn [negb].
  rewrite Hval. cbn [mbind res_mbind res_bind].
  unfold ComputeMessageID, canonicalContent. rewrite Hval. cbn [mbind res_mbind res_bind].
  unfold content_encoding, nanos_word. cbn [ProtocolVersion MessageID OriginPeer
    ObservedAt RecordingChainID env_Gateway env_BlockNumber env_BlockHash env_TxHash env_TxIndex
    env_LogIndex env_PayloadDigest default from_option id].
  rewrite <-Hdig. by rewrite bool_decide_eq_true_2.
Qed.

(** [peer.IDFromBytes] returns its argument as an identifier, or an error. *)
Context (IDFromBytes_same : ∀ b p, IDFromBytes b = Some p → p = b).

Lemma read_array_list n rest :
  (n ≤ length rest)%nat → vec_to_list (read_array n rest) = take n rest.
Proof. intros H. apply be_vec_list. rewrite length_take. lia. Qed.

Lemma be_bytes_take n rest : (n ≤ length rest)%nat → be_bytes n (be_value (take n rest)) = take n rest.
Proof. apply read_array_list. Qed.

Lemma take_value_range n rest : 0 ≤ be_value (take n rest) < 256 ^ Z.of_nat n.
Proof.
  pose proof (be_value_range (take n rest)) as H. unfold zlen in H. rewrite length_take in H.
  assert (256 ^ Z.of_nat (n `min` length rest) ≤ 256 ^ Z.of_nat n) by (apply Z.pow_le_mono_r; lia).
  lia.
Qed.

Lemma int64_range v : 0 ≤ v < 2 ^ 64 → - 2 ^ 63 ≤ int64_of v < 2 ^ 63.
Proof. unfold int64_of. destruct (Z.ltb_spec v (2 ^ 63)); lia. Qed.

Lemma Parse_canonical envelope encoded :
  ParseDependencyEvidenceEnvelope IDFromBytes sha256 encoded = Ok envelope →
  in_range envelope ∧ MarshalBinary IDFromBytes sha256 envelope = Ok encoded.
Proof using IDFromBytes_same.
  unfold ParseDependencyEvidenceEnvelope, MaxDependencyEvidenceEnvelopeSize, maxOriginPeerBytes.
  intros [Hsz H]%bind_bool. apply bind_bool in H as [Hmagic H]. cbv zeta in H.
  apply bind_bool in H as [Hfr H]. bool_to_prop.
  remember (drop 4 encoded) as r1 eqn:E1. remember (drop 32 r1) as r2 eqn:E2.
  remember (drop 2 r2) as r3 eqn:E3. remember (drop 2 r3) as r4 eqn:E4.
  set (m := be_value (take 2 r3)) in *.
  destruct (IDFromBytes _) as [origin|] eqn:Hid; [|done].
  pose proof (IDFromBytes_same _ _ Hid) as ->.
  remember (drop (Z.to_nat m) r4) as r5 eqn:E5. remember (drop 8 r5) as r6 eqn:E6.
  remember (drop 32 r6) as r7 eqn:E7. remember (drop 20 r7) as r8 eqn:E8.
  remember (drop 32 r8) as r9 eqn:E9. remember (drop 32 r9) as r10 eqn:E10.
  remember (drop 32 r10) as r11 eqn:E11. remember (drop 4 r11) as r12 eqn:E12.
  remember (drop 4 r12) as r13 eqn:E13. remember (drop 32 r13) as r14 eqn:E14.
  apply bind_bool in H as [H14 H]. apply bind_Ok in H as ([] & Hval & H).
  destruct (ComputeMessageID _ _ _) as [want|] eqn:Hw; [|done].
  apply bind_bool in H as [Hwant [= <-]].
  apply negb_false_iff in H14, Hwant. apply bool_decide_eq_true in Hwant. apply Z.eqb_eq in H14.
  subst want. pose proof (take_value_range 2 r3) as Hm. fold m in Hm.
  assert (zlen encoded = 236 + m) as Hlen by lia.
  assert (m = Z.of_nat (Z.to_nat m)) as HM by lia. remember (Z.to_nat m) as M eqn:EM.
  assert (length encoded = 236 + M)%nat as L0 by (unfold zlen in Hlen; lia).
  assert (length r1 = (232 + M))%nat as L1 by (rewrite E1, length_drop, L0; lia).
  assert (length r2 = (200 + M))%nat as L2 by (rewrite E2, length_drop, L1; lia).
  assert (length r3 = (198 + M))%nat as L3 by (rewrite E3, length_drop, L2; lia).
  assert (length r4 = (196 + M))%nat as L4 by (rewrite E4, length_drop, L3; lia).
  assert (length r5 = 196)%nat as L5 by (rewrite E5, length_drop, L4; lia).
  assert (length r6 = 188)%nat as L6 by (rewrite E6, length_drop, L5; lia).
  assert (length r7 = 156)%nat as L7 by (rewrite E7, length_drop, L6; lia).
  assert (length r8 = 136)%nat as L8 by (rewrite E8, length_drop, L7; lia).
  assert (length r9 = 104)%nat as L9 by (rewrite E9, length_drop, L8; lia).
  assert (length r10 = 72)%nat as L10 by (rewrite E10, length_drop, L9; lia).
  assert (length r11 = 40)%nat as L11 by (rewrite E11, length_drop, L10; lia).
  assert (length r12 = 36)%nat as L12 by (rewrite E12, length_drop, L11; lia).
  assert (length r13 = 32)%nat as L13 by (rewrite E13, length_drop, L12; lia).
  pose proof (take_value_range 2 r2) as Hv. pose proof (take_value_range 8 r5) as Hn.
  pose proof (take_value_range 4 r11) as Hti. pose proof (take_value_range 4 r12) as Hli.
  split.
  { unfold in_range, u32, MaxUint32. cbn. split_and!; try lia; by apply int64_range. }
  unfold ComputeMessageID, canonicalContent in Hw. rewrite Hval in Hw.
  cbn [mbind res_mbind res_bind] in Hw. apply Ok_inj in Hw.
  apply MarshalBinary_Ok. split; [exact Hval|]. cbn [MessageID]. split; [by rewrite Hw|].
  split; [|lia].
  destruct (validateContent_Ok _ Hval) as (_ & _ & _ & n & [= <-] & Hpos).
  unfold content_encoding, nanos_word. cbn [ProtocolVersion MessageID OriginPeer
    ObservedAt RecordingChainID env_Gateway env_BlockNumber env_BlockHash env_TxHash env_TxIndex
    env_LogIndex env_PayloadDigest default from_option id].
  assert (int64_of (be_value (take 8 r5)) = be_value (take 8 r5)) as ->.
  { unfold int64_of in *. destruct (Z.ltb_spec (be_value (take 8 r5)) (2 ^ 63)); [done|].
    change (256 ^ Z.of_nat 8) with (2 ^ 64) in Hn. lia. }
  assert (zlen (take M r4) = m) as Hom
    by (unfold zlen; rewrite length_take, L4; lia).
  rewrite Hom. unfold m. rewrite (be_bytes_take 2 r2), (be_bytes_take 2 r3), (be_bytes_take 8 r5),
    (be_bytes_take 4 r11), (be_bytes_take 4 r12), (read_array_list 32 r1), (read_array_list 32 r6),
    (read_array_list 20 r7), (read_array_list 32 r8), (read_array_list 32 r9),
    (read_array_list 32 r10), (read_array_list 32 r13) by (rewrite ?L1, ?L2, ?L3, ?L5, ?L6, ?L7,
    ?L8, ?L9, ?L10, ?L11, ?L12, ?L13; clear; lia).
  rewrite (take_ge r13 32) by (rewrite L13; clear; lia).
  rewrite <-Hmagic.
  rewrite E13, take_drop, E12, take_drop, E11, take_drop, E10, take_drop, E9, take_drop, E8,
    take_drop, E7, take_drop, E6, take_drop, E5, take_drop, E4, take_drop, E3, take_drop, E2,
    take_drop, E1, take_drop. reflexivity.
Qed.

(** C39. The envelope codec is exact: bytes parse to an envelope if and only
    if the envelope is a value of its type whose encoding by [MarshalBinary]
    is these bytes.  So encoding and parsing are inverse to each other, every
    accepted message is canonical and carries the digest of its own content,
    and no two messages parse to one envelope. *)
Theorem envelope_codec (encoded : bytes) (envelope : DependencyEvidenceEnvelope) :
  ParseDependencyEvidenceEnvelope IDFromBytes sha256 encoded = Ok envelope ↔
  in_range envelope ∧ MarshalBinary IDFromBytes sha256 envelope = Ok encoded.
Proof using IDFromBytes_same.
  split; [apply Parse_canonical|]. intros [? ?]. by apply Parse_marshalled.
Qed.
End Roundtrip.

(** Closed instance: an envelope is encoded and parsed back. *)
Definition sample_ids (b : bytes) : option PeerID := if b =?= [] then None else Some b.

Definition sample_envelope : DependencyEvidenceEnvelope :=
  default_ok (mkEnvelope 0 zero32 [] None zero32 zero_address zero32 zero32 zero32 0 0 zero32)
    (NewDependencyEvidenceEnvelope sample_ids sample_hash (bytes_of_string "peer") (Some 1700)
       (Evidence.mkLocator (be_vec 32 2) (be_vec 20 7) (be_vec 32 50) (be_vec 32 88) (be_vec 32 77)
          3 4 (be_vec 32 5))).

Definition sample_message : bytes := default_ok [] (MarshalBinary sample_ids sample_hash sample_envelope).

Lemma envelope_codec_witness :
  ParseDependencyEvidenceEnvelope sample_ids sample_hash sample_message = Ok sample_envelope ∧
  zlen sample_message = 240.
Proof.
  assert (∀ b p, sample_ids b = Some p → p = b) as Hid.
  { intros b p. unfold sample_ids. case_bool_decide; [discriminate|]. by intros [= ->]. }
  assert (MarshalBinary sample_ids sample_hash sample_envelope = Ok sample_message) as Hm
    by (apply default_ok_eq; vm_compute; reflexivity).
  assert (in_range sample_envelope) as Hr
    by (vm_compute; repeat split; intros H; discriminate H).
  split; [|vm_compute; reflexivity].
  exact (proj2 (envelope_codec sample_ids sample_hash Hid sample_message sample_envelope)
           (conj Hr Hm)).
Defined.

End Envelope.
