(* ===== verification/Submission.v ===== *)
(** * Mapnode/executor: transaction submissions

    transaction_submission.go: the durable record of a signed transaction, its
    content address and its life cycle.  A [*big.Int] is an [option Z], a nil
    [ProofID] or [SubmittedAt] is [None]; [Clone] copies slices and pointers,
    which values do already. *)

From S2P Require Import Prelude Domain Evidence TrustView Registry Reorg Planner PathProof.
Import Domain.
From Stdlib Require Import Strings.Byte.

Module Submission.

Abbreviation SubmissionID := bytes32.
Abbreviation ExecutionState := string.

Inductive error :=
| ErrSubmissionIDMismatch
| ErrInvalidSubmission
| ErrInvalidTransition.

#[export] Instance error_eq_dec : EqDecision error.
Proof. solve_decision. Defined.

Definition Prepared : ExecutionState := "prepared".
Definition Submitted : ExecutionState := "submitted".
Definition Confirmed : ExecutionState := "confirmed".
Definition Retryable : ExecutionState := "retryable".
Definition Reverted : ExecutionState := "reverted".
Definition Superseded : ExecutionState := "superseded".

Record TransactionSubmission := mkSubmission {
  sub_ID : SubmissionID;
  sub_RequestID : RequestID;
  sub_Attempt : Z;
  sub_PlanID : Planner.PlanID;
  sub_PlanType : string;
  sub_SnapshotID : TrustView.SnapshotID;
  sub_ProofID : option PathProof.PathProofID;
  sub_HomeChainID : ChainID;
  sub_Gateway : Address;
  Sender : Address;
  Nonce : Z;
  CalldataHash : Hash;
  RawSignedTx : bytes;
  sub_TxHash : Hash;
  MaxFeePerGas : option Z;
  MaxPriorityFeePerGas : option Z;
  GasLimit : Z;
  sub_State : ExecutionState;
  sub_Reason : string;
  sub_CreatedAt : Evidence.Time;
  sub_UpdatedAt : Evidence.Time;
  SubmittedAt : Evidence.Time
}.

#[export] Instance TransactionSubmission_eq_dec : EqDecision TransactionSubmission.
Proof. solve_decision. Defined.

Record ConfirmedTransactionReceipt := mkConfirmed {
  ct_SubmissionID : SubmissionID;
  ct_RequestID : RequestID;
  ct_TxHash : Hash;
  ct_BlockNumber : Z;
  ct_BlockHash : Hash;
  ct_Status : Z;
  ct_Confirmations : Z;
  ConfirmedAt : Evidence.Time
}.

Definition appendUint64 (value : Z) : bytes := be_bytes 8 value.

(** A value outside of 256 bits is written as zero. *)
Definition big_word (value : option Z) : Z :=
  match value with
  | Some v => if (0 <=? Z.sgn v) && (bit_len v <=? 256) then v else 0
  | None => 0
  end.

Definition appendBigWord (value : option Z) : bytes := be_bytes 32 (big_word value).

Definition proof_word (proofID : option PathProof.PathProofID) : bytes :=
  match proofID with None => [x00] | Some id => x01 :: id end.

Definition submission_tag : bytes := bytes_of_string "TrustMap/TransactionSubmission/ID/v1".

Definition submission_encoding (submission : TransactionSubmission) : bytes :=
  length_prefixed submission_tag ++ submission.(sub_RequestID)
    ++ appendUint64 submission.(sub_Attempt) ++ submission.(sub_PlanID)
    ++ length_prefixed (bytes_of_string submission.(sub_PlanType))
    ++ submission.(sub_SnapshotID) ++ proof_word submission.(sub_ProofID)
    ++ submission.(sub_HomeChainID) ++ submission.(sub_Gateway) ++ submission.(Sender)
    ++ appendUint64 submission.(Nonce) ++ submission.(CalldataHash)
    ++ length_prefixed submission.(RawSignedTx) ++ submission.(sub_TxHash)
    ++ appendBigWord submission.(MaxFeePerGas)
    ++ appendBigWord submission.(MaxPriorityFeePerGas) ++ appendUint64 submission.(GasLimit).

Definition MaxRawSize : Z := 1024 * 1024.

(** [MaxFeePerGas] and [MaxPriorityFeePerGas] of a type 2 transaction. *)
Definition fees_valid (maxFee priority : option Z) : bool :=
  match maxFee, priority with
  | Some fee, Some tip =>
      (0 <? Z.sgn fee) && (0 <=? Z.sgn tip) && (tip <=? fee) && (bit_len fee <=? 256)
      && (bit_len tip <=? 256)
  | _, _ => false
  end.

Section Hashing.
Context (keccak256 : bytes → Hash).

Definition ComputeSubmissionID (submission : TransactionSubmission) : SubmissionID :=
  keccak256 (submission_encoding submission).

Definition ValidatePrepared (submission : TransactionSubmission) : res error unit :=
  if (submission.(sub_RequestID) =?= zero32) || (submission.(sub_PlanID) =?= zero32)
     || (submission.(sub_SnapshotID) =?= zero32)
     || negb (is_ok (ChainID_Validate submission.(sub_HomeChainID)))
     || (submission.(sub_Gateway) =?= zero_address) || (submission.(Sender) =?= zero_address)
     || (submission.(CalldataHash) =?= zero32) || (submission.(sub_TxHash) =?= zero32)
     || (zlen submission.(RawSignedTx) =? 0) || (MaxRawSize <? zlen submission.(RawSignedTx))
     || (submission.(GasLimit) =? 0)
     || negb (fees_valid submission.(MaxFeePerGas) submission.(MaxPriorityFeePerGas))
     || (submission.(sub_State) ≠?= Prepared) || (submission.(sub_Reason) ≠?= "")
  then Err ErrInvalidSubmission
  else if (if submission.(sub_PlanType) =?= Planner.PathPlan
           then bool_decide (submission.(sub_ProofID) = None)
           else (submission.(sub_PlanType) ≠?= Planner.DirectPlan)
                || (submission.(sub_ProofID) ≠?= None))
  then Err ErrInvalidSubmission
  else if submission.(sub_ID) ≠?= ComputeSubmissionID submission then Err ErrSubmissionIDMismatch
  else if keccak256 submission.(RawSignedTx) ≠?= submission.(sub_TxHash)
  then Err ErrInvalidSubmission else Ok tt.
End Hashing.

Definition legal (from to : ExecutionState) : bool :=
  ((from =?= Prepared) && ((to =?= Submitted) || (to =?= Retryable) || (to =?= Reverted)
                           || (to =?= Superseded)))
  || ((from =?= Submitted) && ((to =?= Confirmed) || (to =?= Retryable) || (to =?= Reverted)
                               || (to =?= Superseded)))
  || ((from =?= Retryable) && ((to =?= Submitted) || (to =?= Reverted) || (to =?= Superseded))).

Definition ValidateExecutionTransition (from to : ExecutionState) : res error unit :=
  if (from =?= to) || negb (legal from to) then Err ErrInvalidTransition else Ok tt.

(** ** The life cycle of a submission *)

Inductive execution_step : ExecutionState → ExecutionState → Prop :=
| step_submit : execution_step Prepared Submitted
| step_unsent : execution_step Prepared Retryable
| step_prepared_reverted : execution_step Prepared Reverted
| step_prepared_superseded : execution_step Prepared Superseded
| step_confirm : execution_step Submitted Confirmed
| step_retry : execution_step Submitted Retryable
| step_reverted : execution_step Submitted Reverted
| step_superseded : execution_step Submitted Superseded
| step_resubmit : execution_step Retryable Submitted
| step_retryable_reverted : execution_step Retryable Reverted
| step_retryable_superseded : execution_step Retryable Superseded.

(** ** Lemmas *)

Lemma ValidateExecutionTransition_Ok from to :
  ValidateExecutionTransition from to = Ok tt ↔ execution_step from to.
Proof.
  split.
  - unfold ValidateExecutionTransition. intros [[_ H]%orb_false_iff _]%bind_bool.
    apply negb_false_iff in H. unfold legal in H.
    repeat match type of H with context [bool_decide ?P] =>
      destruct (bool_decide_reflect P); subst; cbn [andb orb] in H end;
      try discriminate; constructor.
  - by intros [].
Qed.

(** Fields of a value of the Go struct. *)
Definition in_range (s : TransactionSubmission) : Prop :=
  u64 s.(sub_Attempt) ∧ u64 s.(Nonce) ∧ u64 s.(GasLimit) ∧
  zlen (bytes_of_string s.(sub_PlanType)) < 2 ^ 32 ∧ zlen s.(RawSignedTx) < 2 ^ 32 ∧
  fees_valid s.(MaxFeePerGas) s.(MaxPriorityFeePerGas) = true.

(** What the identifier covers: everything but state, reason and times. *)
Definition same_content (s t : TransactionSubmission) : Prop :=
  s = mkSubmission s.(sub_ID) t.(sub_RequestID) t.(sub_Attempt) t.(sub_PlanID)
        t.(sub_PlanType) t.(sub_SnapshotID) t.(sub_ProofID) t.(sub_HomeChainID)
        t.(sub_Gateway) t.(Sender) t.(Nonce) t.(CalldataHash) t.(RawSignedTx) t.(sub_TxHash)
        t.(MaxFeePerGas) t.(MaxPriorityFeePerGas) t.(GasLimit) s.(sub_State) s.(sub_Reason)
        s.(sub_CreatedAt) s.(sub_UpdatedAt) s.(SubmittedAt).

Lemma fees_in_range fee tip :
  fees_valid fee tip = true →
  ∃ f t, fee = Some f ∧ tip = Some t ∧ 0 ≤ f < 2 ^ 256 ∧ 0 ≤ t < 2 ^ 256 ∧
    big_word fee = f ∧ big_word tip = t.
Proof.
  destruct fee as [f|], tip as [t|]; cbn [fees_valid]; try done. intros H.
  repeat (apply andb_true_iff in H as [H ?]). apply Z.ltb_lt in H.
  repeat match goal with Hb : (_ <=? _) = true |- _ => apply Z.leb_le in Hb end.
  assert (0 < f) by lia. assert (0 ≤ t) by lia.
  pose proof (proj1 (bit_len_le_256 f ltac:(lia)) ltac:(lia)).
  pose proof (proj1 (bit_len_le_256 t ltac:(lia)) ltac:(lia)).
  exists f, t. split_and!; try done; try lia; unfold big_word.
  - by rewrite (proj2 (Z.leb_le _ _)), (proj2 (Z.leb_le (bit_len f) _)) by lia.
  - by rewrite (proj2 (Z.leb_le _ _)), (proj2 (Z.leb_le (bit_len t) _)) by lia.
Qed.

Lemma proof_word_inj p q r s : proof_word p ++ r = proof_word q ++ s → p = q ∧ r = s.
Proof.
  destruct p as [p|], q as [q|]; cbn; intros H; try discriminate.
  - apply (inj (cons x01)) in H. apply app_inj_1 in H as [Hp H]; [|length_tac].
    apply vec_to_list_inj2 in Hp. by subst.
  - apply (inj (cons x00)) in H. done.
Qed.

Lemma appendUint64_inj a b : u64 a → u64 b → appendUint64 a = appendUint64 b → a = b.
Proof. unfold u64, MaxUint64. intros. by apply (be_bytes_inj 8); [lia|lia|]. Qed.

Lemma submission_encoding_inj s t :
  in_range s → in_range t → submission_encoding s = submission_encoding t → same_content s t.
Proof.
  intros (Ha & Hn & Hg & Ht & Hr & Hf) (Ha' & Hn' & Hg' & Ht' & Hr' & Hf') H.
  apply fees_in_range in Hf as (f & p & Ef & Ep & Hfr & Hpr & Bf & Bp).
  apply fees_in_range in Hf' as (f' & p' & Ef' & Ep' & Hfr' & Hpr' & Bf' & Bp').
  unfold submission_encoding, appendBigWord in H. apply (inj (app _)) in H.
  apply app_inj_1 in H as [E1 H]; [|length_tac]. apply app_inj_1 in H as [E2 H]; [|length_tac].
  apply app_inj_1 in H as [E3 H]; [|length_tac].
  apply length_prefixed_inj in H as [E4 H]; [|done..].
  apply app_inj_1 in H as [E5 H]; [|length_tac]. apply proof_word_inj in H as [E6 H].
  apply app_inj_1 in H as [E7 H]; [|length_tac]. apply app_inj_1 in H as [E8 H]; [|length_tac].
  apply app_inj_1 in H as [E9 H]; [|length_tac]. apply app_inj_1 in H as [E10 H]; [|length_tac].
  apply app_inj_1 in H as [E11 H]; [|length_tac].
  apply length_prefixed_inj in H as [E12 H]; [|done..].
  apply app_inj_1 in H as [E13 H]; [|length_tac]. apply app_inj_1 in H as [E14 H]; [|length_tac].
  apply app_inj_1 in H as [E15 E16]; [|length_tac].
  apply appendUint64_inj in E2, E10, E16; [|done..].
  apply be_bytes_inj in E14, E15; [|lia..]. apply bytes_of_string_inj in E4.
  apply vec_to_list_inj2 in E1, E3, E5, E7, E8, E9, E11, E13.
  rewrite Bf, Bf' in E14. rewrite Bp, Bp' in E15. unfold same_content.
  destruct s, t; cbn [sub_ID sub_RequestID sub_Attempt sub_PlanID sub_PlanType sub_SnapshotID
    sub_ProofID sub_HomeChainID sub_Gateway Sender Nonce CalldataHash RawSignedTx sub_TxHash
    MaxFeePerGas MaxPriorityFeePerGas GasLimit] in *. subst. reflexivity.
Qed.

(** ** Theorems *)

(** The identifier of a submission determines what is sent: two
    submissions with one identifier agree on request, attempt, plan, proof,
    sender, nonce, fees and the signed bytes, unless keccak collides on their
    two encodings. *)
Theorem ComputeSubmissionID_binding (keccak256 : bytes → Hash) (s t : TransactionSubmission) :
  in_range s → in_range t →
  ComputeSubmissionID keccak256 s = ComputeSubmissionID keccak256 t →
  same_content s t ∨
  (submission_encoding s ≠ submission_encoding t ∧
   keccak256 (submission_encoding s) = keccak256 (submission_encoding t)).
Proof.
  intros Hs Ht H. destruct (decide (submission_encoding s = submission_encoding t)) as [He|He].
  - left. by apply submission_encoding_inj.
  - by right.
Qed.

Definition sample_submission (state : ExecutionState) : TransactionSubmission :=
  mkSubmission (be_vec 32 1) (be_vec 32 9) 1 (be_vec 32 11) Planner.DirectPlan (be_vec 32 12)
    None (be_vec 32 1) (be_vec 20 7) (be_vec 20 5) 3 (be_vec 32 13) [x02; x01] (be_vec 32 77)
    (Some 40) (Some 2) 21000 state "" None None None.

Lemma ComputeSubmissionID_binding_witness :
  same_content (sample_submission Prepared) (sample_submission Submitted) ∨
  (submission_encoding (sample_submission Prepared) ≠ submission_encoding (sample_submission Submitted) ∧
   sample_hash (submission_encoding (sample_submission Prepared))
   = sample_hash (submission_encoding (sample_submission Submitted))).
Proof.
  assert (∀ state, in_range (sample_submission state)) as Hr.
  { intros state. unfold in_range, u64, MaxUint64. cbn. split_and!; try done; lia. }
  exact (ComputeSubmissionID_binding sample_hash (sample_submission Prepared)
    (sample_submission Submitted) (Hr _) (Hr _) eq_refl).
Defined.

End Submission.
