(* ===== verification/Store.v ===== *)
(** * Mapnode/store: tables, evidence and requests

    The SQLite database as a record of tables ([DB]), with the schema of
    migrations.go: a primary key is the key of a [gmap], and the other
    uniqueness, CHECK and trigger constraints that an operation can violate
    are tests that make it fail ([ErrConstraint]).  A repository method runs
    in one transaction: it returns [Err] and leaves the database as it was, or
    [Ok] with the database after the commit.  Failures of the SQL driver
    itself are not modelled.

    repository.go: [EvidenceRepository] and [RequestRepository].  [now] is
    [time.Now().UTC().UnixNano()]; a time is [None] when it is the zero
    [time.Time]. *)

From S2P Require Import Prelude Domain Evidence TrustView Registry Reorg Planner PathProof.
From S2P Require Import Coordinator.
Import Domain.

Module Store.

Inductive error :=
| ErrRecordNotFound
| ErrRecordConflict
| ErrConcurrentUpdate
| ErrInactiveEvidence
| ErrGraphConflict
| ErrEvidenceBinding
| ErrStalePlanningAttempt
| ErrConstraint
| ErrColumnLength
| ErrInitialState
| ErrEvidence (e : Evidence.error)
| ErrRequestState (e : Coordinator.state_error)
| ErrTrustView (e : TrustView.error)
| ErrRange
| ErrRevisionExhausted
| ErrInvalidWitness
| ErrSnapshotEndpoints
| ErrPlanNotFound
| ErrPlanIDMismatch
| ErrPlanFields
| ErrSnapshotUnsealed
| ErrSnapshotEndpoint
| ErrIncompleteDeployment
| ErrDegradeReason
| ErrProofMaterialMissing
| ErrPathProofNotFound
| ErrPathProofIDMismatch.

#[local] Existing Instances Evidence.Locator_eq_dec Evidence.EvidenceRecord_eq_dec
  Coordinator.Request_eq_dec TrustView.Observation_eq_dec TrustView.ObservationContent_eq_dec.

(** ** Tables *)

(** chain_registry.go: [Chain]; live_chain_repository.go: a row of [live_chains];
    the three columns of the deployment are bound together. *)
Record LiveChain := mkLiveChain {
  lc_Name : string;
  lc_ChainID : ChainID;
  lc_HTTPRPC : string;
  lc_Confirmations : Z;
  lc_DeploymentManifest : string;
  lc_Home : bool
}.

Record ValidatedLiveChain := mkValidated {
  vlc_Chain : LiveChain;
  vlc_Gateway : Address;
  vlc_GatewayCodeHash : Hash;
  vlc_DeploymentBlock : BlockHeight;
  vlc_ValidatedAt : Evidence.Time
}.

#[export] Instance LiveChain_eq_dec : EqDecision LiveChain.
Proof. solve_decision. Defined.

(** A row of [proofs] with its rows of [proof_hops]; the block hashes and
    witnesses of the proof are read from the snapshot. *)
Record ProofRow := mkProofRow {
  row_ProofID : PathProof.PathProofID;
  row_RequestID : RequestID;
  row_PlanID : Planner.PlanID;
  row_SnapshotID : TrustView.SnapshotID;
  row_BaseTrustRoot : TrustView.TrustRoot;
  row_CreatedAt : Z;
  row_Hops : list PathProof.PathProofHop
}.

(** The witness of an edge is a row with its siblings in order; a snapshot row
    holds its nodes and edges; a plan or proof row its hops in order.  An
    observation row also holds the evidence identifier it was stored with. *)
Record DB := mkDB {
  evidence : gmap Evidence.ID Evidence.EvidenceRecord;
  evidence_transitions : list (Evidence.ID * Evidence.State * Evidence.State * string * Z);
  requests : gmap RequestID Coordinator.Request;
  request_transitions :
    list (RequestID * Coordinator.RequestState * Coordinator.RequestState * string * Z);
  revision : Z;
  trust_nodes : gmap TrustView.NodeID TrustView.TrustNode;
  trust_edges : gmap TrustView.EdgeID (TrustView.TrustEdge * bool);
  membership_witnesses : gmap Evidence.ID TrustView.MembershipWitness;
  observations : gmap bytes32 (Evidence.ID * TrustView.TrustRootObservation);
  live_chains : gmap ChainID ValidatedLiveChain;
  canonical_cursors : gmap ChainID Reorg.CanonicalCursor;
  snapshots : gmap TrustView.SnapshotID TrustView.TrustViewSnapshot;
  plans : gmap Planner.PlanID Planner.Plan;
  current_plan : gmap RequestID Planner.PlanID;
  proofs : gmap PathProof.PathProofID ProofRow
}.

Definition empty_db : DB := mkDB ∅ [] ∅ [] 0 ∅ ∅ ∅ ∅ ∅ ∅ ∅ ∅ ∅ ∅.

Definition set_evidence (db : DB) m l : DB :=
  mkDB m l db.(requests) db.(request_transitions) db.(revision) db.(trust_nodes)
    db.(trust_edges) db.(membership_witnesses) db.(observations) db.(live_chains)
    db.(canonical_cursors) db.(snapshots) db.(plans) db.(current_plan) db.(proofs).

Definition set_requests (db : DB) m l : DB :=
  mkDB db.(evidence) db.(evidence_transitions) m l db.(revision) db.(trust_nodes)
    db.(trust_edges) db.(membership_witnesses) db.(observations) db.(live_chains)
    db.(canonical_cursors) db.(snapshots) db.(plans) db.(current_plan) db.(proofs).

Definition set_graph (db : DB) rev nodes edges witnesses : DB :=
  mkDB db.(evidence) db.(evidence_transitions) db.(requests) db.(request_transitions) rev
    nodes edges witnesses db.(observations) db.(live_chains) db.(canonical_cursors)
    db.(snapshots) db.(plans) db.(current_plan) db.(proofs).

Definition set_observations (db : DB) m : DB :=
  mkDB db.(evidence) db.(evidence_transitions) db.(requests) db.(request_transitions)
    db.(revision) db.(trust_nodes) db.(trust_edges) db.(membership_witnesses) m
    db.(live_chains) db.(canonical_cursors) db.(snapshots) db.(plans) db.(current_plan)
    db.(proofs).

Definition set_chains (db : DB) chains cursors : DB :=
  mkDB db.(evidence) db.(evidence_transitions) db.(requests) db.(request_transitions)
    db.(revision) db.(trust_nodes) db.(trust_edges) db.(membership_witnesses)
    db.(observations) chains cursors db.(snapshots) db.(plans) db.(current_plan) db.(proofs).

Definition set_snapshots (db : DB) m : DB :=
  mkDB db.(evidence) db.(evidence_transitions) db.(requests) db.(request_transitions)
    db.(revision) db.(trust_nodes) db.(trust_edges) db.(membership_witnesses)
    db.(observations) db.(live_chains) db.(canonical_cursors) m db.(plans)
    db.(current_plan) db.(proofs).

Definition set_plans (db : DB) m c : DB :=
  mkDB db.(evidence) db.(evidence_transitions) db.(requests) db.(request_transitions)
    db.(revision) db.(trust_nodes) db.(trust_edges) db.(membership_witnesses)
    db.(observations) db.(live_chains) db.(canonical_cursors) db.(snapshots) m c
    db.(proofs).

Definition set_proofs (db : DB) m : DB :=
  mkDB db.(evidence) db.(evidence_transitions) db.(requests) db.(request_transitions)
    db.(revision) db.(trust_nodes) db.(trust_edges) db.(membership_witnesses)
    db.(observations) db.(live_chains) db.(canonical_cursors) db.(snapshots) db.(plans)
    db.(current_plan) m.

(** A row of a table that satisfies a test ([SELECT ... WHERE ...]). *)
Definition find_row {K A} `{Countable K} (m : gmap K A) (test : A → bool) : option A :=
  match List.find (λ p, test p.2) (map_to_list m) with
  | Some p => Some p.2
  | None => None
  end.

(** [normalizedTimes] followed by [toUnix]. *)
Definition normalizedTimes (createdAt updatedAt : Evidence.Time) (now : Z) : Z * Z :=
  let created := default now createdAt in
  (created, default created updatedAt).

(** ** Evidence *)

Definition with_times (record : Evidence.EvidenceRecord) (times : Z * Z)
    : Evidence.EvidenceRecord :=
  Evidence.mkRecord record.(Evidence.rec_ID) record.(Evidence.rec_Locator)
    record.(Evidence.rec_State) record.(Evidence.InvalidReason) (Some times.1) (Some times.2).

Definition loadByLocator (db : DB) (locator : Evidence.Locator) : option Evidence.EvidenceRecord :=
  find_row db.(evidence) (λ r, r.(Evidence.rec_Locator) =?= locator).

Definition LoadEvidence (db : DB) (id : Evidence.ID) : res error Evidence.EvidenceRecord :=
  match db.(evidence) !! id with Some r => Ok r | None => Err ErrRecordNotFound end.

Definition ObserveEvidence (keccak256 : bytes → Hash) (now : Z)
    (record : Evidence.EvidenceRecord) (db : DB)
    : res error (Evidence.EvidenceRecord * bool * DB) :=
  if (record.(Evidence.rec_State) ≠?= Evidence.Candidate)
     || (record.(Evidence.InvalidReason) ≠?= "") then Err ErrInitialState
  else
    wantID ← map_err ErrEvidence (Evidence.ComputeID keccak256 record.(Evidence.rec_Locator));
    if record.(Evidence.rec_ID) ≠?= wantID then Err ErrRecordConflict
    else
      let times := normalizedTimes record.(Evidence.CreatedAt) record.(Evidence.UpdatedAt) now in
      let row := with_times record times in
      if negb ((0 <? times.1) && (0 <? times.2)) then Err ErrConstraint
      else
        match db.(evidence) !! record.(Evidence.rec_ID),
              loadByLocator db record.(Evidence.rec_Locator) with
        | None, None =>
            Ok (row, true,
                set_evidence db (<[record.(Evidence.rec_ID) := row]> db.(evidence))
                  db.(evidence_transitions))
        | None, Some _ => Err ErrRecordConflict
        | Some persisted, _ =>
            if (persisted.(Evidence.rec_ID) ≠?= record.(Evidence.rec_ID))
               || (persisted.(Evidence.rec_Locator) ≠?= record.(Evidence.rec_Locator))
            then Err ErrRecordConflict
            else Ok (persisted, false, db)
        end.

(** Trigger prevent_observation_evidence_update. *)
Definition evidence_observed (db : DB) (id : Evidence.ID) : bool :=
  bool_decide (is_Some (find_row db.(observations) (λ o, o.1 =?= id))).

Definition TransitionEvidence (now : Z) (id : Evidence.ID) (expectedFrom to : Evidence.State)
    (at_ : Evidence.Time) (reason : string) (db : DB)
    : res error (Evidence.EvidenceRecord * bool * DB) :=
  requestedChange ← map_err ErrEvidence (Evidence.ValidateTransition expectedFrom to reason);
  current ← LoadEvidence db id;
  if current.(Evidence.rec_State) =?= to then Ok (current, false, db)
  else if current.(Evidence.rec_State) ≠?= expectedFrom then Err ErrConcurrentUpdate
  else if negb requestedChange then Ok (current, false, db)
  else
    let changed := default now at_ in
    let invalidReason := if to =?= Evidence.Invalid then reason else "" in
    if negb (0 <? changed) || evidence_observed db id
       || existsb (λ t, match t with (i, f, t', _, _) =>
                      (i =?= id) && (f =?= expectedFrom) && (t' =?= to) end)
            db.(evidence_transitions)
    then Err ErrConstraint
    else
      let updated := Evidence.mkRecord current.(Evidence.rec_ID) current.(Evidence.rec_Locator)
                       to invalidReason current.(Evidence.CreatedAt) (Some changed) in
      Ok (updated, true,
          set_evidence db (<[id := updated]> db.(evidence))
            (db.(evidence_transitions) ++ [(id, expectedFrom, to, reason, changed)])).

(** ** Requests *)

Definition set_request_times (request : Coordinator.Request) (times : Z * Z)
    : Coordinator.Request :=
  Coordinator.mkRequest request.(Coordinator.req_ID) request.(Coordinator.req_HomeChainID)
    request.(Coordinator.req_Gateway) request.(Coordinator.req_Requester)
    request.(Coordinator.req_Nonce) request.(Coordinator.req_SourceChainID)
    request.(Coordinator.req_SourceHeight) request.(Coordinator.req_SourceBlockHash)
    request.(Coordinator.req_State) request.(Coordinator.req_Reason)
    (Some times.1) (Some times.2).

Definition set_request_state (request : Coordinator.Request) (state : Coordinator.RequestState)
    (reason : string) (changed : Z) : Coordinator.Request :=
  Coordinator.mkRequest request.(Coordinator.req_ID) request.(Coordinator.req_HomeChainID)
    request.(Coordinator.req_Gateway) request.(Coordinator.req_Requester)
    request.(Coordinator.req_Nonce) request.(Coordinator.req_SourceChainID)
    request.(Coordinator.req_SourceHeight) request.(Coordinator.req_SourceBlockHash)
    state reason request.(Coordinator.req_CreatedAt) (Some changed).

Definition sameRequestFields (left right : Coordinator.Request) : bool :=
  (left.(Coordinator.req_HomeChainID) =?= right.(Coordinator.req_HomeChainID))
  && (left.(Coordinator.req_Gateway) =?= right.(Coordinator.req_Gateway))
  && (left.(Coordinator.req_Requester) =?= right.(Coordinator.req_Requester))
  && (left.(Coordinator.req_Nonce) =?= right.(Coordinator.req_Nonce))
  && (left.(Coordinator.req_SourceChainID) =?= right.(Coordinator.req_SourceChainID))
  && (left.(Coordinator.req_SourceHeight) =?= right.(Coordinator.req_SourceHeight))
  && (left.(Coordinator.req_SourceBlockHash) =?= right.(Coordinator.req_SourceBlockHash)).

Definition sameRequestIdentity (left right : Coordinator.Request) : bool :=
  (left.(Coordinator.req_ID) =?= right.(Coordinator.req_ID)) && sameRequestFields left right.

Definition loadByFields (db : DB) (request : Coordinator.Request) : option Coordinator.Request :=
  find_row db.(requests) (λ r, sameRequestFields r request).

Definition LoadRequest (db : DB) (id : RequestID) : res error Coordinator.Request :=
  match db.(requests) !! id with Some r => Ok r | None => Err ErrRecordNotFound end.

Definition request_id (keccak256 : bytes → Hash) (request : Coordinator.Request)
    : res Evidence.error RequestID :=
  Evidence.ComputeGatewayRequestID keccak256 request.(Coordinator.req_HomeChainID)
    request.(Coordinator.req_Gateway) request.(Coordinator.req_Requester)
    (Some (be_value request.(Coordinator.req_Nonce))) request.(Coordinator.req_SourceChainID)
    request.(Coordinator.req_SourceHeight) request.(Coordinator.req_SourceBlockHash).

Definition ObserveRequest (keccak256 : bytes → Hash) (now : Z)
    (request : Coordinator.Request) (db : DB)
    : res error (Coordinator.Request * bool * DB) :=
  if request.(Coordinator.req_State) ≠?= Coordinator.Observed then Err ErrInitialState
  else
    wantID ← map_err ErrEvidence (request_id keccak256 request);
    if request.(Coordinator.req_ID) ≠?= wantID then Err ErrRecordConflict
    else
      let times := normalizedTimes request.(Coordinator.req_CreatedAt)
                     request.(Coordinator.req_UpdatedAt) now in
      let row := set_request_times request times in
      if negb ((0 <? times.1) && (0 <? times.2)) then Err ErrConstraint
      else
        match db.(requests) !! request.(Coordinator.req_ID), loadByFields db request with
        | None, None =>
            Ok (row, true,
                set_requests db (<[request.(Coordinator.req_ID) := row]> db.(requests))
                  db.(request_transitions))
        | None, Some _ => Err ErrRecordConflict
        | Some persisted, _ =>
            if negb (sameRequestIdentity persisted request) then Err ErrRecordConflict
            else Ok (persisted, false, db)
        end.

(** The transition log is UNIQUE on (request, from, to). *)
Definition transition_logged (db : DB) (id : RequestID) (from to : Coordinator.RequestState)
    : bool :=
  existsb (λ t, match t with (i, f, t', _, _) =>
             (i =?= id) && (f =?= from) && (t' =?= to) end) db.(request_transitions).

Definition TransitionRequest (now : Z) (id : RequestID)
    (expectedFrom to : Coordinator.RequestState) (at_ : Evidence.Time) (reason : string)
    (db : DB) : res error (Coordinator.Request * bool * DB) :=
  requestedChange ← map_err ErrRequestState (Coordinator.ValidateTransition expectedFrom to);
  current ← LoadRequest db id;
  if current.(Coordinator.req_State) =?= to then Ok (current, false, db)
  else if current.(Coordinator.req_State) ≠?= expectedFrom then Err ErrConcurrentUpdate
  else if negb requestedChange then Ok (current, false, db)
  else
    let changed := default now at_ in
    if negb (0 <? changed) || transition_logged db id expectedFrom to then Err ErrConstraint
    else
      let updated := set_request_state current to reason changed in
      Ok (updated, true,
          set_requests db (<[id := updated]> db.(requests))
            (db.(request_transitions) ++ [(id, expectedFrom, to, reason, changed)])).

(** ** What the tables promise *)

(** [history step s steps t]: the list of steps leads from [s] to [t]. *)
Inductive history {St : Type} (step : St → St → Prop) (s : St) : list (St * St) → St → Prop :=
| history_nil : history step s [] s
| history_snoc steps f t :
    history step s steps f → step f t → history step s (steps ++ [(f, t)]) t.

(** The state changes logged for a key, oldest first. *)
Definition steps_of {K St : Type} `{EqDecision K} (log : list (K * St * St * string * Z)) (k : K)
    : list (St * St) :=
  omap (λ t, match t with (i, f, t', _, _) => if i =?= k then Some (f, t') else None end) log.

Definition logged_steps (db : DB) (id : RequestID)
    : list (Coordinator.RequestState * Coordinator.RequestState) :=
  steps_of db.(request_transitions) id.

Definition logged_evidence (db : DB) (id : Evidence.ID) : list (Evidence.State * Evidence.State) :=
  steps_of db.(evidence_transitions) id.

Record requests_wf (keccak256 : bytes → Hash) (db : DB) : Prop := {
  wf_identity id r : db.(requests) !! id = Some r →
    r.(Coordinator.req_ID) = id ∧ request_id keccak256 r = Ok id;
  wf_history id r : db.(requests) !! id = Some r →
    history Coordinator.request_step Coordinator.Observed (logged_steps db id)
      r.(Coordinator.req_State);
  wf_once id : NoDup (logged_steps db id);
  wf_unlogged id : db.(requests) !! id = None → logged_steps db id = [];
  wf_fields id1 id2 r1 r2 : db.(requests) !! id1 = Some r1 → db.(requests) !! id2 = Some r2 →
    sameRequestFields r1 r2 = true → id1 = id2;
}.

(** An evidence row is stored under the identifier of its locator, that of a
    log or that of an RPC observation. *)
Definition evidence_identity (keccak256 : bytes → Hash) (id : Evidence.ID)
    (r : Evidence.EvidenceRecord) : Prop :=
  r.(Evidence.rec_ID) = id ∧
  (Evidence.ComputeID keccak256 r.(Evidence.rec_Locator) = Ok id ∨
   Evidence.ComputeSyntheticID keccak256 r.(Evidence.rec_Locator) = Ok id).

Record evidence_wf (keccak256 : bytes → Hash) (db : DB) : Prop := {
  ev_identity id r : db.(evidence) !! id = Some r → evidence_identity keccak256 id r;
  ev_history id r : db.(evidence) !! id = Some r →
    history Evidence.evidence_step Evidence.Candidate (logged_evidence db id)
      r.(Evidence.rec_State);
  ev_reason id r : db.(evidence) !! id = Some r →
    (r.(Evidence.rec_State) = Evidence.Invalid ↔ r.(Evidence.InvalidReason) ≠ "");
  ev_unlogged id : db.(evidence) !! id = None → logged_evidence db id = [];
  ev_locator id1 id2 r1 r2 : db.(evidence) !! id1 = Some r1 → db.(evidence) !! id2 = Some r2 →
    r1.(Evidence.rec_Locator) = r2.(Evidence.rec_Locator) → id1 = id2;
}.

(** ** Lemmas *)

Lemma find_row_Some {K A} `{Countable K} (m : gmap K A) test a :
  find_row m test = Some a → test a = true ∧ ∃ k, m !! k = Some a.
Proof.
  unfold find_row. destruct (List.find _ _) as [[k b]|] eqn:Hf; [|done].
  intros [= ->]. apply find_some in Hf as [Hin Ht]. split; [done|].
  exists k. by apply elem_of_map_to_list, list_elem_of_In.
Qed.

Lemma find_row_None {K A} `{Countable K} (m : gmap K A) test :
  find_row m test = None → ∀ k a, m !! k = Some a → test a = false.
Proof.
  unfold find_row. destruct (List.find _ _) as [[k b]|] eqn:Hf; [done|].
  intros _ k a Hk. apply (find_none _ _ Hf (k, a)), list_elem_of_In.
  by apply elem_of_map_to_list.
Qed.

Lemma sameRequestFields_spec l r :
  sameRequestFields l r = true ↔
  l.(Coordinator.req_HomeChainID) = r.(Coordinator.req_HomeChainID) ∧
  l.(Coordinator.req_Gateway) = r.(Coordinator.req_Gateway) ∧
  l.(Coordinator.req_Requester) = r.(Coordinator.req_Requester) ∧
  l.(Coordinator.req_Nonce) = r.(Coordinator.req_Nonce) ∧
  l.(Coordinator.req_SourceChainID) = r.(Coordinator.req_SourceChainID) ∧
  l.(Coordinator.req_SourceHeight) = r.(Coordinator.req_SourceHeight) ∧
  l.(Coordinator.req_SourceBlockHash) = r.(Coordinator.req_SourceBlockHash).
Proof. unfold sameRequestFields. rewrite !andb_true_iff, !bool_decide_eq_true. tauto. Qed.

Lemma sameRequestFields_sym l r : sameRequestFields l r = true → sameRequestFields r l = true.
Proof. rewrite !sameRequestFields_spec. by intros (-> & -> & -> & -> & -> & -> & ->). Qed.

Lemma sameRequestFields_trans l m r :
  sameRequestFields l m = true → sameRequestFields m r = true → sameRequestFields l r = true.
Proof. rewrite !sameRequestFields_spec. by intros (-> & -> & -> & -> & -> & -> & ->). Qed.

Lemma request_id_same_fields keccak256 l r :
  sameRequestFields l r = true → request_id keccak256 l = request_id keccak256 r.
Proof.
  intros (H1 & H2 & H3 & H4 & H5 & H6 & H7)%sameRequestFields_spec.
  unfold request_id. by rewrite H1, H2, H3, H4, H5, H6, H7.
Qed.

Lemma steps_of_logged {K St} `{EqDecision K, EqDecision St} (log : list (K * St * St * string * Z))
    id from to :
  existsb (λ t, match t with (i, f, t', _, _) =>
             (i =?= id) && (f =?= from) && (t' =?= to) end) log = true ↔
  (from, to) ∈ steps_of log id.
Proof.
  unfold steps_of. rewrite existsb_exists, list_elem_of_omap. split.
  - intros ([[[[i f] t] reason] at_] & Hin & Ht).
    apply andb_true_iff in Ht as [Ht H3]. apply andb_true_iff in Ht as [H1 H2].
    apply bool_decide_eq_true in H1, H2, H3. subst.
    exists (id, from, to, reason, at_). split; [by apply list_elem_of_In|].
    by rewrite bool_decide_eq_true_2.
  - intros ([[[[i f] t] reason] at_] & Hin & Ht). case_bool_decide as Hi; [|done].
    injection Ht as -> ->. subst i. exists (id, from, to, reason, at_).
    split; [by apply list_elem_of_In|]. by rewrite !bool_decide_eq_true_2.
Qed.

Lemma transition_logged_spec db id from to :
  transition_logged db id from to = true ↔ (from, to) ∈ logged_steps db id.
Proof. apply steps_of_logged. Qed.

Lemma steps_of_snoc {K St} `{EqDecision K} (log : list (K * St * St * string * Z))
    id from to reason changed id' :
  steps_of (log ++ [(id, from, to, reason, changed)]) id'
  = if decide (id = id') then steps_of log id' ++ [(from, to)] else steps_of log id'.
Proof.
  unfold steps_of. rewrite omap_app. cbn.
  case_bool_decide; [by rewrite decide_True|]. by rewrite decide_False, app_nil_r.
Qed.

(** The effect of a successful transition. *)
Lemma TransitionRequest_Ok now id from to at_ reason db r b db' :
  TransitionRequest now id from to at_ reason db = Ok (r, b, db') →
  r.(Coordinator.req_State) = to ∧
  ((b = false ∧ db' = db ∧ db.(requests) !! id = Some r) ∨
   (b = true ∧ Coordinator.request_step from to ∧ transition_logged db id from to = false ∧
    ∃ current changed, db.(requests) !! id = Some current ∧
      current.(Coordinator.req_State) = from ∧
      r = set_request_state current to reason changed ∧
      db' = set_requests db (<[id := r]> db.(requests))
              (db.(request_transitions) ++ [(id, from, to, reason, changed)]))).
Proof.
  unfold TransitionRequest. intros (change & Hv%map_err_Ok & H)%bind_Ok.
  apply bind_Ok in H as (current & Hl & H). unfold LoadRequest in Hl.
  destruct (requests db !! id) as [c|] eqn:Hc; [|done]. injection Hl as ->.
  case_bool_decide as Hto; [injection H as <- <- <-; auto|].
  case_bool_decide as Hfrom; cbn in H; [|done].
  destruct change; cbn in H.
  - destruct (negb (0 <? default now at_) || _) eqn:Hk; [done|]. injection H as <- <- <-.
    apply orb_false_iff in Hk as [_ Hk]. split; [done|]. right.
    apply Coordinator.request_transition_true in Hv. split_and!; try done.
    exists current, (default now at_). by split_and!.
  - injection H as <- <- <-. exfalso. apply Hto. rewrite Hfrom.
    unfold Coordinator.ValidateTransition in Hv.
    apply bind_Ok in Hv as (? & _ & Hv). apply bind_Ok in Hv as (? & _ & Hv).
    case_bool_decide; [done|]. by destruct (Coordinator.legal from to).
Qed.

Lemma ObserveRequest_Ok keccak256 now request db r b db' :
  ObserveRequest keccak256 now request db = Ok (r, b, db') →
  r.(Coordinator.req_ID) = request.(Coordinator.req_ID) ∧
  sameRequestFields r request = true ∧
  request_id keccak256 request = Ok request.(Coordinator.req_ID) ∧
  ((b = false ∧ db' = db ∧ db.(requests) !! request.(Coordinator.req_ID) = Some r) ∨
   (b = true ∧ r.(Coordinator.req_State) = Coordinator.Observed ∧
    db.(requests) !! request.(Coordinator.req_ID) = None ∧
    (∀ id r', db.(requests) !! id = Some r' → sameRequestFields r' request = false) ∧
    db' = set_requests db (<[request.(Coordinator.req_ID) := r]> db.(requests))
            db.(request_transitions))).
Proof.
  unfold ObserveRequest. case_bool_decide as Hst; cbn [negb]; [|done].
  intros (want & Hid%map_err_Ok & H)%bind_Ok.
  case_bool_decide as Hwant; cbn [negb] in H; [|done]. subst want.
  destruct (negb _) eqn:Hk in H; [done|].
  destruct (requests db !! Coordinator.req_ID request) as [p|] eqn:Hp.
  - destruct (sameRequestIdentity p request) eqn:Hs; cbn in H; [|done].
    injection H as <- <- <-. unfold sameRequestIdentity in Hs.
    apply andb_true_iff in Hs as [Hi Hs]. apply bool_decide_eq_true in Hi.
    split_and!; try done. left. by split_and!.
  - destruct (loadByFields db request) eqn:Hf; [done|]. injection H as <- <- <-.
    split_and!; try done; [by apply sameRequestFields_spec|].
    right. split_and!; try done. by apply find_row_None.
Qed.

Lemma logged_steps_snoc db m id from to reason changed id' :
  logged_steps (set_requests db m (db.(request_transitions) ++ [(id, from, to, reason, changed)])) id'
  = if decide (id = id') then logged_steps db id' ++ [(from, to)] else logged_steps db id'.
Proof. apply steps_of_snoc. Qed.

Lemma observe_wf keccak256 now request db r b db' :
  requests_wf keccak256 db → ObserveRequest keccak256 now request db = Ok (r, b, db') →
  requests_wf keccak256 db'.
Proof.
  intros Hwf (Hid & Hs & Hk & [(_ & -> & _)|(_ & Hst & Hnone & Hfresh & ->)])%ObserveRequest_Ok; [done|].
  destruct Hwf as [W1 W2 W3 W4 W5]. split; cbn [requests set_requests].
  - intros id r' [[<- <-]|[Hne Hl]]%lookup_insert_Some; [|by apply W1].
    split; [done|]. by rewrite (request_id_same_fields _ _ _ Hs).
  - intros id r' [[<- <-]|[Hne Hl]]%lookup_insert_Some.
    + change (logged_steps _ _) with (logged_steps db (Coordinator.req_ID request)).
      rewrite W4, Hst by done. constructor.
    + by apply W2.
  - intros id. apply W3.
  - intros id [Hl _]%lookup_insert_None. by apply W4.
  - intros id1 id2 r1 r2 H1 H2 Hf.
    apply lookup_insert_Some in H1 as [[<- <-]|[Hn1 H1]];
      apply lookup_insert_Some in H2 as [[<- <-]|[Hn2 H2]]; try done.
    + pose proof (Hfresh _ _ H2) as Hx.
      by rewrite (sameRequestFields_trans _ _ _ (sameRequestFields_sym _ _ Hf) Hs) in Hx.
    + pose proof (Hfresh _ _ H1) as Hx. by rewrite (sameRequestFields_trans _ _ _ Hf Hs) in Hx.
    + by eapply W5.
Qed.

Lemma transition_wf keccak256 now id from to at_ reason db r b db' :
  requests_wf keccak256 db → TransitionRequest now id from to at_ reason db = Ok (r, b, db') →
  requests_wf keccak256 db'.
Proof.
  intros Hwf (Hto & [(_ & -> & _)|(_ & Hstep & Hlog & c & changed & Hc & Hfrom & -> & ->)])%TransitionRequest_Ok;
    [done|].
  destruct Hwf as [W1 W2 W3 W4 W5]. split.
  - cbn [requests set_requests].
    intros id' r' [[<- <-]|[Hne Hl]]%lookup_insert_Some; [|by apply W1].
    destruct (W1 _ _ Hc) as [Hid Hreq]. done.
  - intros id' r' Hl. rewrite logged_steps_snoc.
    cbn [requests set_requests] in Hl. apply lookup_insert_Some in Hl as [[<- <-]|[Hne Hl]].
    + rewrite decide_True by done. constructor; [|done]. rewrite <-Hfrom. by apply W2.
    + rewrite decide_False by done. by apply W2.
  - intros id'. rewrite logged_steps_snoc. case_decide as Hi; [|by apply W3]. subst id'.
    apply NoDup_app. split_and!; [by apply W3| |apply NoDup_singleton].
    intros x Hx ->%list_elem_of_singleton. apply transition_logged_spec in Hx. congruence.
  - intros id' Hl. rewrite logged_steps_snoc. cbn [requests set_requests] in Hl.
    apply lookup_insert_None in Hl as [Hl Hne]. rewrite decide_False by done.
    by apply W4.
  - intros id1 id2 r1 r2 H1 H2 Hf.
    assert (∀ x, sameRequestFields x (set_request_state c to reason changed) = sameRequestFields x c) as E1
      by done.
    assert (∀ x, sameRequestFields (set_request_state c to reason changed) x = sameRequestFields c x) as E2
      by done.
    cbn [requests set_requests] in H1, H2.
    apply lookup_insert_Some in H1 as [[<- <-]|[Hn1 H1]];
      apply lookup_insert_Some in H2 as [[<- <-]|[Hn2 H2]]; rewrite ?E1, ?E2 in Hf; try done;
      by eapply W5.
Qed.

Lemma empty_requests_wf keccak256 : requests_wf keccak256 empty_db.
Proof. split; try done. intros id. constructor. Qed.

(** The ten steps of the life cycle. *)
Definition all_steps : list (Coordinator.RequestState * Coordinator.RequestState) :=
  [(Coordinator.Observed, Coordinator.EvidenceReady); (Coordinator.Observed, Coordinator.Rejected);
   (Coordinator.EvidenceReady, Coordinator.Planned); (Coordinator.Planned, Coordinator.ProofReady);
   (Coordinator.Planned, Coordinator.Retryable); (Coordinator.ProofReady, Coordinator.Retryable);
   (Coordinator.DirectFallback, Coordinator.Retryable); (Coordinator.Retryable, Coordinator.Replanned);
   (Coordinator.Retryable, Coordinator.DirectFallback); (Coordinator.Replanned, Coordinator.ProofReady)].

Lemma request_step_listed from to : Coordinator.request_step from to → (from, to) ∈ all_steps.
Proof. intros Hs. destruct Hs; vm_compute; repeat (left; reflexivity || right); set_solver. Qed.

Lemma history_listed s steps t :
  history Coordinator.request_step s steps t → steps ⊆ all_steps.
Proof.
  induction 1 as [|steps f t Hh IH Hs]; [intros x []%elem_of_nil|].
  intros x [Hx| ->%list_elem_of_singleton]%elem_of_app; [by apply IH|by apply request_step_listed].
Qed.

Lemma history_bound s steps t :
  history Coordinator.request_step s steps t → NoDup steps → (length steps ≤ 10)%nat.
Proof.
  intros Hh Hd. change 10%nat with (length all_steps).
  apply submseteq_length, NoDup_submseteq; [done|]. by eapply history_listed.
Qed.

(** ** Lemmas: evidence *)

(** Rows of the transition log that record [steps] of one key. *)
Definition log_steps {K St : Type} (id : K) (steps : list (St * St)) (reason : string) (at_ : Z)
    : list (K * St * St * string * Z) :=
  (λ s, (id, s.1, s.2, reason, at_)) <$> steps.

Lemma steps_of_log {K St} `{EqDecision K} (log : list (K * St * St * string * Z)) id steps reason
    at_ id' :
  steps_of (log ++ log_steps id steps reason at_) id'
  = if decide (id = id') then steps_of log id' ++ steps else steps_of log id'.
Proof.
  induction steps as [|[f t] steps IH] using rev_ind; cbn.
  - rewrite !app_nil_r. by destruct (decide _).
  - unfold log_steps in *. rewrite fmap_app, (assoc_L (++)). cbn [fmap list_fmap fst snd].
    rewrite steps_of_snoc, IH. destruct (decide _); [by rewrite (assoc_L (++))|done].
Qed.

(** Inserting a row whose state its logged steps explain. *)
Lemma evidence_insert_wf keccak256 db r steps reason at_ :
  evidence_wf keccak256 db →
  evidence_identity keccak256 r.(Evidence.rec_ID) r →
  db.(evidence) !! r.(Evidence.rec_ID) = None →
  (∀ id r', db.(evidence) !! id = Some r' →
     r'.(Evidence.rec_Locator) ≠ r.(Evidence.rec_Locator)) →
  history Evidence.evidence_step Evidence.Candidate steps r.(Evidence.rec_State) →
  (r.(Evidence.rec_State) = Evidence.Invalid ↔ r.(Evidence.InvalidReason) ≠ "") →
  evidence_wf keccak256
    (set_evidence db (<[r.(Evidence.rec_ID) := r]> db.(evidence))
       (db.(evidence_transitions) ++ log_steps r.(Evidence.rec_ID) steps reason at_)).
Proof.
  intros [W1 W2 W3 W4 W5] Hid Hnone Hfresh Hsteps Hreason. unfold logged_evidence in *.
  split; unfold logged_evidence; cbn [evidence evidence_transitions set_evidence].
  - intros id r' [[<- <-]|[Hne Hl]]%lookup_insert_Some; auto.
  - intros id r' [[<- <-]|[Hne Hl]]%lookup_insert_Some; rewrite steps_of_log.
    + by rewrite decide_True, W4.
    + rewrite decide_False by done. auto.
  - intros id r' [[<- <-]|[Hne Hl]]%lookup_insert_Some; eauto.
  - intros id [Hl Hne]%lookup_insert_None. rewrite steps_of_log, decide_False by done. auto.
  - intros id1 id2 r1 r2 H1 H2 He.
    apply lookup_insert_Some in H1 as [[<- <-]|[Hn1 H1]];
      apply lookup_insert_Some in H2 as [[<- <-]|[Hn2 H2]]; try done; [| |by eapply W5].
    + by destruct (Hfresh _ _ H2).
    + by destruct (Hfresh _ _ H1).
Qed.

Lemma ObserveEvidence_Ok keccak256 now record db r b db' :
  ObserveEvidence keccak256 now record db = Ok (r, b, db') →
  Evidence.ComputeID keccak256 record.(Evidence.rec_Locator) = Ok r.(Evidence.rec_ID) ∧
  r.(Evidence.rec_ID) = record.(Evidence.rec_ID) ∧
  r.(Evidence.rec_Locator) = record.(Evidence.rec_Locator) ∧
  ((b = false ∧ db' = db ∧ db.(evidence) !! r.(Evidence.rec_ID) = Some r) ∨
   (b = true ∧ r.(Evidence.rec_State) = Evidence.Candidate ∧ r.(Evidence.InvalidReason) = "" ∧
    db.(evidence) !! r.(Evidence.rec_ID) = None ∧
    (∀ id r', db.(evidence) !! id = Some r' →
       r'.(Evidence.rec_Locator) ≠ r.(Evidence.rec_Locator)) ∧
    db' = set_evidence db (<[r.(Evidence.rec_ID) := r]> db.(evidence))
            (db.(evidence_transitions) ++ log_steps r.(Evidence.rec_ID) [] "" 0))).
Proof.
  unfold ObserveEvidence. case_bool_decide as Hst; cbn [negb orb]; [|done].
  case_bool_decide as Hre; cbn [negb orb]; [|done].
  intros (want & Hid%map_err_Ok & H)%bind_Ok.
  case_bool_decide as Hwant; cbn [negb] in H; [|done]. subst want.
  destruct (negb _) eqn:Hk in H; [done|].
  destruct (evidence db !! Evidence.rec_ID record) as [p|] eqn:Hp.
  - destruct (bool_decide (Evidence.rec_ID p = Evidence.rec_ID record)) eqn:H1; [|done].
    destruct (bool_decide (Evidence.rec_Locator p = Evidence.rec_Locator record)) eqn:H2; [|done].
    cbn in H. injection H as <- <- <-. apply bool_decide_eq_true in H1, H2.
    rewrite H1. split_and!; try done. left. by split_and!.
  - destruct (loadByLocator db _) eqn:Hf; [done|]. injection H as <- <- <-.
    split_and!; try done. right. split_and!; try done.
    + intros id r' Hl Heq. pose proof (find_row_None _ _ Hf _ _ Hl) as Hx. cbn in Heq.
      by apply bool_decide_eq_false in Hx.
    + cbn. by rewrite app_nil_r.
Qed.

Lemma observe_evidence_wf keccak256 now record db r b db' :
  evidence_wf keccak256 db → ObserveEvidence keccak256 now record db = Ok (r, b, db') →
  evidence_wf keccak256 db'.
Proof.
  intros Hwf (Hid & Hr & Hl & [(_ & -> & _)|(_ & Hs & Hre & Hn & Hf & ->)])%ObserveEvidence_Ok;
    [done|].
  apply evidence_insert_wf; try done.
  - split; [done|]. left. by rewrite Hl.
  - rewrite Hs. constructor.
  - by rewrite Hs, Hre.
Qed.

Lemma TransitionEvidence_Ok now id from to at_ reason db r b db' :
  TransitionEvidence now id from to at_ reason db = Ok (r, b, db') →
  r.(Evidence.rec_State) = to ∧
  ((b = false ∧ db' = db ∧ db.(evidence) !! id = Some r) ∨
   (b = true ∧ Evidence.evidence_step from to ∧ evidence_observed db id = false ∧
    ∃ current changed, db.(evidence) !! id = Some current ∧
      current.(Evidence.rec_State) = from ∧
      r = Evidence.mkRecord current.(Evidence.rec_ID) current.(Evidence.rec_Locator) to
            r.(Evidence.InvalidReason) current.(Evidence.CreatedAt) (Some changed) ∧
      (to = Evidence.Invalid ↔ r.(Evidence.InvalidReason) ≠ "") ∧
      db' = set_evidence db (<[id := r]> db.(evidence))
              (db.(evidence_transitions) ++ log_steps id [(from, to)] reason changed))).
Proof.
  unfold TransitionEvidence. intros (change & Hv%map_err_Ok & H)%bind_Ok.
  apply bind_Ok in H as (current & Hl & H). unfold LoadEvidence in Hl.
  destruct (evidence db !! id) as [c|] eqn:Hc; [|done]. injection Hl as ->.
  case_bool_decide as Hto; [injection H as <- <- <-; auto|].
  case_bool_decide as Hfrom; cbn [negb] in H; [|done].
  destruct change; cbn [negb] in H.
  - destruct (negb (0 <? default now at_) || _ || _) eqn:Hk; [done|]. injection H as <- <- <-.
    apply orb_false_iff in Hk as [Hk _]. apply orb_false_iff in Hk as [_ Hk].
    apply Evidence.evidence_transition_true in Hv as [Hs Hr].
    split; [done|]. right. split_and!; try done.
    exists current, (default now at_). cbn. split_and!; try done.
    case_bool_decide; naive_solver.
  - exfalso. apply Hto. rewrite Hfrom.
    unfold Evidence.ValidateTransition in Hv.
    apply bind_Ok in Hv as (? & _ & Hv). apply bind_Ok in Hv as (? & _ & Hv).
    case_bool_decide; [done|]. destruct (negb (Evidence.legal_transition from to)); [done|].
    by destruct (_ && _).
Qed.

Lemma transition_evidence_wf keccak256 now id from to at_ reason db r b db' :
  evidence_wf keccak256 db → TransitionEvidence now id from to at_ reason db = Ok (r, b, db') →
  evidence_wf keccak256 db'.
Proof.
  intros Hwf (Hto & [(_ & -> & _)|(_ & Hstep & _ & c & changed & Hc & Hfrom & Hr & Hre & ->)])%TransitionEvidence_Ok;
    [done|].
  destruct Hwf as [W1 W2 W3 W4 W5].
  assert (Evidence.rec_Locator r = Evidence.rec_Locator c) as Hloc by (by rewrite Hr).
  split; unfold logged_evidence; cbn [evidence evidence_transitions set_evidence].
  - intros id' r' [[<- <-]|[Hne Hl]]%lookup_insert_Some; [|by apply W1].
    destruct (W1 _ _ Hc). unfold evidence_identity. rewrite Hloc. by rewrite Hr.
  - intros id' r' [[<- <-]|[Hne Hl]]%lookup_insert_Some; rewrite steps_of_log.
    + rewrite decide_True, Hto by done. constructor; [|done]. rewrite <-Hfrom. by apply W2.
    + rewrite decide_False by done. by apply W2.
  - intros id' r' [[<- <-]|[Hne Hl]]%lookup_insert_Some; [by rewrite Hto|by eapply W3].
  - intros id' [Hl Hne]%lookup_insert_None. rewrite steps_of_log, decide_False by done.
    by apply W4.
  - intros id1 id2 r1 r2 H1 H2 He.
    apply lookup_insert_Some in H1 as [[<- <-]|[Hn1 H1]];
      apply lookup_insert_Some in H2 as [[<- <-]|[Hn2 H2]]; try done; [| |by eapply W5].
    + eapply W5; [exact Hc|exact H2|congruence].
    + eapply W5; [exact H1|exact Hc|congruence].
Qed.

(** Active evidence stays: no operation on evidence changes an active row. *)
Lemma observe_evidence_active keccak256 now record db r b db' id e :
  ObserveEvidence keccak256 now record db = Ok (r, b, db') →
  db.(evidence) !! id = Some e → db'.(evidence) !! id = Some e.
Proof.
  intros (_ & _ & _ & [(_ & -> & _)|(_ & _ & _ & Hn & _ & ->)])%ObserveEvidence_Ok He; [done|].
  cbn. rewrite lookup_insert_ne; [done|]. intros <-. congruence.
Qed.

Lemma transition_evidence_active now id from to at_ reason db r b db' id' e :
  TransitionEvidence now id from to at_ reason db = Ok (r, b, db') →
  db.(evidence) !! id' = Some e → e.(Evidence.rec_State) = Evidence.Active →
  db'.(evidence) !! id' = Some e.
Proof.
  intros (_ & [(_ & -> & _)|(_ & Hs & _ & c & changed & Hc & Hf & _ & _ & ->)])%TransitionEvidence_Ok
    He Ha; [done|].
  cbn. rewrite lookup_insert_ne; [done|]. intros <-. simplify_eq. rewrite Ha in Hs. inversion Hs.
Qed.

Lemma empty_evidence_wf keccak256 : evidence_wf keccak256 empty_db.
Proof. by split. Qed.

(** ** Properties *)

(** Because the log is unique on (request, from, to), a step that a request
    has taken once is refused when the request comes back to the same state:
    the second time, [Transition] fails and changes nothing, although the step
    is legal and the request is in the expected state. *)
Theorem repeated_transition_refused (db : DB) id r from to now at_ reason :
  db.(requests) !! id = Some r → r.(Coordinator.req_State) = from →
  Coordinator.request_step from to → (from, to) ∈ logged_steps db id →
  TransitionRequest now id from to at_ reason db = Err ErrConstraint.
Proof.
  intros Hr Hf Hs Hlog. unfold TransitionRequest, LoadRequest.
  rewrite (proj2 (Coordinator.request_transition_true from to)) by done. cbn. rewrite Hr. cbn.
  rewrite Hf, (bool_decide_eq_true_2 (from = from)) by done. cbn.
  rewrite bool_decide_eq_false_2 by (destruct Hs; discriminate).
  apply transition_logged_spec in Hlog as ->. by rewrite orb_true_r.
Qed.

(** ** A concrete request *)

Definition sample_address (n : Z) : Address := be_vec 20 n.

Definition sample_request : Coordinator.Request := Eval vm_compute in
  let fields id := Coordinator.mkRequest id (be_vec 32 1) (sample_address 7) (sample_address 8)
                     (be_vec 32 5) (be_vec 32 2) (be_vec 32 10) (be_vec 32 99)
                     Coordinator.Observed "" None None in
  match request_id sample_hash (fields zero32) with Ok id => fields id | Err _ => fields zero32 end.

(** Take a request through a list of steps at time 1. *)
Fixpoint walk_request (id : RequestID)
    (steps : list (Coordinator.RequestState * Coordinator.RequestState)) (db : DB)
    : res error DB :=
  match steps with
  | [] => Ok db
  | (f, t) :: rest =>
      out ← TransitionRequest 1 id f t None "" db;
      walk_request id rest out.2
  end.

(** A request that was retried once and whose new plan went stale again. *)
Definition retried_request : DB :=
  match
    (out ← ObserveRequest sample_hash 1 sample_request empty_db;
     walk_request sample_request.(Coordinator.req_ID)
       [(Coordinator.Observed, Coordinator.EvidenceReady);
        (Coordinator.EvidenceReady, Coordinator.Planned);
        (Coordinator.Planned, Coordinator.ProofReady);
        (Coordinator.ProofReady, Coordinator.Retryable);
        (Coordinator.Retryable, Coordinator.Replanned);
        (Coordinator.Replanned, Coordinator.ProofReady)] out.2)
  with
  | Ok db => db
  | Err _ => empty_db
  end.

(** The second stale plan cannot be marked retryable. *)
Lemma repeated_transition_refused_witness :
  Coordinator.req_State <$> retried_request.(requests) !! sample_request.(Coordinator.req_ID)
    = Some Coordinator.ProofReady ∧
  TransitionRequest 2 sample_request.(Coordinator.req_ID) Coordinator.ProofReady
    Coordinator.Retryable None "home root changed" retried_request = Err ErrConstraint.
Proof.
  assert (Coordinator.req_State <$>
    retried_request.(requests) !! sample_request.(Coordinator.req_ID)
    = Some Coordinator.ProofReady) as Hs by (vm_compute; reflexivity).
  split; [exact Hs|].
  destruct (requests retried_request !! Coordinator.req_ID sample_request) as [r|] eqn:Hr;
    [|discriminate Hs].
  injection Hs as Hs.
  apply (repeated_transition_refused _ _ r); [exact Hr|exact Hs|constructor|].
  apply (bool_decide_eq_true_1 _). vm_compute. reflexivity.
Defined.

End Store.
