(* ===== verification/GraphStore.v ===== *)
(** * Mapnode/store: the trust graph and its snapshots

    trust_view_repository.go ([TrustViewRepository]) and
    trust_root_observation_repository.go ([TrustRootObservationRepository])
    over the tables of [Store.DB].  Clock readings that only fill a column are
    left out; the stored edge carries no witness, which a query joins from
    [membership_witnesses]. *)

From S2P Require Import Prelude Domain Evidence TrustView Registry Reorg Planner PathProof.
From S2P Require Import Coordinator Store.
Import Domain TrustView Store.

Module GraphStore.

#[local] Existing Instances TrustView.error_eq_dec TrustView.NodeKey_eq_dec
  TrustView.NodeKey_countable TrustView.TrustNode_eq_dec TrustView.TrustEdge_eq_dec
  TrustView.MembershipWitness_eq_dec TrustView.Observation_eq_dec
  TrustView.ObservationContent_eq_dec TrustView.TrustViewSnapshot_eq_dec
  Evidence.Locator_eq_dec Evidence.EvidenceRecord_eq_dec Store.LiveChain_eq_dec.

Definition MaxInt64 : Z := 2 ^ 63 - 1.

(** ** Queries *)

Definition is_active (db : DB) (id : Evidence.ID) : bool :=
  match db.(evidence) !! id with
  | Some r => r.(Evidence.rec_State) =?= Evidence.Active
  | None => false
  end.

(** [... JOIN evidence e ... WHERE e.state='active' ORDER BY n.node_id] *)
Definition active_nodes (db : DB) : list TrustNode :=
  sort_by (λ node, node.(node_ID))
    (List.filter (λ n, is_active db n.(node_EvidenceID)) (map_values db.(trust_nodes))).

Definition with_witness (db : DB) (edge : TrustEdge) : TrustEdge :=
  mkTrustEdge edge.(edge_ID) edge.(edge_From) edge.(edge_To) edge.(edge_EvidenceID)
    edge.(edge_LeafIndex)
    (witness_ID <$> db.(membership_witnesses) !! edge.(edge_EvidenceID)) edge.(PathStepCost).

(** [... WHERE g.active=1 AND e.state='active' ORDER BY edge_id], with the
    witness of the edge's evidence. *)
Definition active_edges (db : DB) : list TrustEdge :=
  sort_by (λ edge, edge.(edge_ID))
    (map (λ p, with_witness db p.1)
       (List.filter (λ p, p.2 && is_active db p.1.(edge_EvidenceID))
          (map_values db.(trust_edges)))).

Definition RequireEvidenceReady (request : Coordinator.Request) (db : DB) : option error :=
  let count := zlen (List.filter (λ n,
    (n.(node_Key).(key_ChainID) =?= request.(Coordinator.req_SourceChainID))
    && (n.(node_Key).(key_Height) =?= request.(Coordinator.req_SourceHeight))
    && (n.(node_Key).(key_BlockHash) =?= request.(Coordinator.req_SourceBlockHash))
    && is_active db n.(node_EvidenceID)) (map_values db.(trust_nodes))) in
  if negb (count =? 1) then Some ErrInactiveEvidence else None.

Definition loadActiveEvidence (db : DB) (id : Evidence.ID) : res error Evidence.EvidenceRecord :=
  match db.(evidence) !! id with
  | None => Err ErrInactiveEvidence
  | Some record =>
      if record.(Evidence.rec_State) ≠?= Evidence.Active then Err ErrInactiveEvidence
      else Ok record
  end.

Definition loadActiveTrustNode (db : DB) (id : NodeID) : res error TrustNode :=
  match db.(trust_nodes) !! id with
  | Some node =>
      if is_active db node.(node_EvidenceID) then Ok node else Err ErrRecordNotFound
  | None => Err ErrRecordNotFound
  end.

Definition evidenceLocatorMatchesNode (locator : Evidence.Locator) (node : TrustNode) : bool :=
  (locator.(Evidence.ChainID) =?= node.(node_Key).(key_ChainID))
  && (locator.(Evidence.BlockNumber) =?= node.(node_Key).(key_Height))
  && (locator.(Evidence.BlockHash) =?= node.(node_Key).(key_BlockHash)).

(** ** Mutations of the graph *)

(** The insert fails when the node identifier is taken or the trigger
    require_active_evidence_for_trust_node_insert fires. *)
Definition mergeTrustNode (node : TrustNode) (db : DB) : res error (bool * DB) :=
  match find_row db.(trust_nodes) (λ n, n.(node_Key) =?= node.(node_Key)) with
  | Some previous =>
      if previous.(node_ID) ≠?= node.(node_ID) then Err ErrGraphConflict
      else if previous.(node_Root) ≠?= node.(node_Root) then Err (ErrTrustView ErrTrustRootConflict)
      else if previous.(node_EvidenceID) ≠?= node.(node_EvidenceID) then Err ErrGraphConflict
      else Ok (false, db)
  | None =>
      if bool_decide (is_Some (db.(trust_nodes) !! node.(node_ID)))
         || negb (is_active db node.(node_EvidenceID))
      then Err ErrConstraint
      else Ok (true, set_graph db db.(revision) (<[node.(node_ID) := node]> db.(trust_nodes))
                       db.(trust_edges) db.(membership_witnesses))
  end.

(** Triggers require_active_evidence_for_trust_edge_insert and ..._update, the
    foreign keys and the CHECK on the cost. *)
Definition edge_allowed (db : DB) (edge : TrustEdge) : bool :=
  is_active db edge.(edge_EvidenceID) && negb (evidence_observed db edge.(edge_EvidenceID))
  && bool_decide (is_Some (db.(trust_nodes) !! edge.(edge_From)))
  && bool_decide (is_Some (db.(trust_nodes) !! edge.(edge_To)))
  && (0 <=? edge.(PathStepCost)) && (edge.(PathStepCost) <=? MaxInt64).

Definition stored_edge (edge : TrustEdge) : TrustEdge :=
  mkTrustEdge edge.(edge_ID) edge.(edge_From) edge.(edge_To) edge.(edge_EvidenceID)
    edge.(edge_LeafIndex) None edge.(PathStepCost).

Definition put_edge (edge : TrustEdge) (db : DB) : res error (bool * DB) :=
  if edge_allowed db edge
  then Ok (true, set_graph db db.(revision) db.(trust_nodes)
                   (<[edge.(edge_ID) := (stored_edge edge, true)]> db.(trust_edges))
                   db.(membership_witnesses))
  else Err ErrConstraint.

Definition mergeTrustEdge (edge : TrustEdge) (db : DB) : res error (bool * DB) :=
  match (db.(trust_edges) !! edge.(edge_ID) : option (TrustEdge * bool)) with
  | Some (previous, active) =>
      if (previous.(edge_From) ≠?= edge.(edge_From)) || (previous.(edge_To) ≠?= edge.(edge_To))
         || (previous.(edge_EvidenceID) ≠?= edge.(edge_EvidenceID))
         || negb (previous.(edge_LeafIndex) =? edge.(edge_LeafIndex))
         || negb (previous.(PathStepCost) =? edge.(PathStepCost))
      then Err ErrGraphConflict
      else if active then Ok (false, db)
      else put_edge edge db
  | None =>
      match find_row db.(trust_edges) (λ p, p.1.(edge_EvidenceID) =?= edge.(edge_EvidenceID)) with
      | Some _ => Err ErrGraphConflict
      | None => put_edge edge db
      end
  end.

Definition bumpGraphRevision (db : DB) : res error DB :=
  if db.(revision) <? MaxInt64
  then Ok (set_graph db (db.(revision) + 1) db.(trust_nodes) db.(trust_edges)
             db.(membership_witnesses))
  else Err ErrRevisionExhausted.

Section Hashing.
Context (keccak256 : bytes → Hash).

Definition CurrentTrustView (db : DB) : res error TrustView :=
  map_err ErrTrustView
    (NewTrustView keccak256 db.(revision) (active_nodes db) (active_edges db)).

Definition MergeActiveTrustEdge (from to : TrustNode) (edge : TrustEdge)
    (dependency : VerifiedDependency) (db : DB) : res error (bool * DB) :=
  _ ← map_err ErrTrustView (TrustNode_Validate keccak256 from);
  _ ← map_err ErrTrustView (TrustNode_Validate keccak256 to);
  _ ← map_err ErrTrustView (TrustEdge_Validate keccak256 edge);
  if (edge.(edge_From) ≠?= from.(node_ID)) || (edge.(edge_To) ≠?= to.(node_ID))
  then Err (ErrTrustView ErrInvalidTrustEdge)
  else if from.(node_Key).(key_ChainID) =?= to.(node_Key).(key_ChainID)
  then Err (ErrTrustView ErrInvalidTrustEdge)
  else if MaxInt64 <? edge.(PathStepCost) then Err ErrRange
  else
    fromEvidence ← loadActiveEvidence db from.(node_EvidenceID);
    toEvidence ← loadActiveEvidence db to.(node_EvidenceID);
    edgeEvidence ← loadActiveEvidence db edge.(edge_EvidenceID);
    if negb (evidenceLocatorMatchesNode fromEvidence.(Evidence.rec_Locator) from)
       || negb (evidenceLocatorMatchesNode toEvidence.(Evidence.rec_Locator) to)
       || negb (evidenceLocatorMatchesNode edgeEvidence.(Evidence.rec_Locator) from)
       || (dependency.(dep_EvidenceID) ≠?= edge.(edge_EvidenceID))
       || negb (edge.(edge_LeafIndex) =? dependency.(dep_LeafIndex))
    then Err ErrEvidenceBinding
    else
      _ ← map_err (λ _, ErrEvidenceBinding)
            (VerifiedDependency_Validate keccak256 dependency to
               edgeEvidence.(Evidence.rec_Locator).(Evidence.PayloadDigest));
      out1 ← mergeTrustNode from db;
      out2 ← mergeTrustNode to out1.2;
      out3 ← mergeTrustEdge edge out2.2;
      let changed := out1.1 || out2.1 || out3.1 in
      if changed
      then db' ← bumpGraphRevision out3.2; Ok (true, db')
      else Ok (false, out3.2).

Definition SaveMembershipWitness (witness : MembershipWitness) (db : DB)
    : res error (bool * DB) :=
  let want := NewMembershipWitness keccak256 witness.(witness_EvidenceID)
                witness.(witness_LeafIndex) witness.(witness_Siblings) in
  if (witness.(witness_ID) ≠?= want.(witness_ID)) || (zlen witness.(witness_Siblings) =? 0)
  then Err ErrInvalidWitness
  else
    _ ← loadActiveEvidence db witness.(witness_EvidenceID);
    match find_row db.(trust_edges)
            (λ p, (p.1.(edge_EvidenceID) =?= witness.(witness_EvidenceID)) && p.2) with
    | None => Err ErrEvidenceBinding
    | Some (edge, _) =>
        if negb (edge.(edge_LeafIndex) =? witness.(witness_LeafIndex))
        then Err ErrEvidenceBinding
        else
          match db.(membership_witnesses) !! witness.(witness_EvidenceID) with
          | Some existing =>
              if (existing.(witness_ID) ≠?= witness.(witness_ID))
                 || negb (existing.(witness_LeafIndex) =? witness.(witness_LeafIndex))
                 || (existing.(witness_Siblings) ≠?= witness.(witness_Siblings))
              then Err ErrGraphConflict
              else Ok (false, db)
          | None =>
              if bool_decide (is_Some (find_row db.(membership_witnesses)
                   (λ w, w.(witness_ID) =?= witness.(witness_ID))))
              then Err ErrConstraint
              else
                db' ← bumpGraphRevision
                        (set_graph db db.(revision) db.(trust_nodes) db.(trust_edges)
                           (<[witness.(witness_EvidenceID) := witness]>
                              db.(membership_witnesses)));
                Ok (true, db')
          end
    end.
End Hashing.

(** ** Snapshots *)

Record TrustViewSnapshotRequest := mkSnapshotRequest {
  sr_RequestID : RequestID;
  sr_Attempt : Z;
  sr_HomeChainID : ChainID;
  sr_ExpectedHomeTrustRoot : TrustRoot;
  sr_StartNodeID : NodeID;
  sr_TargetNodeID : NodeID
}.

(** A row of [snapshot_nodes] has no evidence column. *)
Definition snapshot_node (node : TrustNode) : TrustNode :=
  mkTrustNode node.(node_ID) node.(node_Key) node.(node_Root) zero32.

(** Foreign keys of [snapshot_edges]: the end points are nodes of the snapshot
    and a witness has the leaf index of its edge. *)
Definition snapshot_edge_allowed (db : DB) (nodes : list TrustNode) (edge : TrustEdge) : bool :=
  existsb (λ n, n.(node_ID) =?= edge.(edge_From)) nodes
  && existsb (λ n, n.(node_ID) =?= edge.(edge_To)) nodes
  && match db.(membership_witnesses) !! edge.(edge_EvidenceID) with
     | Some w => w.(witness_LeafIndex) =? edge.(edge_LeafIndex)
     | None => true
     end.

Definition loadSnapshot (db : DB) (id : SnapshotID) : res error TrustViewSnapshot :=
  match db.(snapshots) !! id with Some s => Ok s | None => Err ErrRecordNotFound end.

Section Snapshots.
Context (keccak256 : bytes → Hash).

(** Insert, materialise, seal, load. *)
Definition materialize (request : TrustViewSnapshotRequest) (id : SnapshotID) (db : DB)
    : res error (TrustViewSnapshot * DB) :=
  let nodes := map snapshot_node (active_nodes db) in
  let edges := active_edges db in
  if negb (forallb (snapshot_edge_allowed db nodes) edges) then Err ErrConstraint
  else if negb (existsb (λ n, n.(node_ID) =?= request.(sr_StartNodeID)) nodes)
          || negb (existsb (λ n, n.(node_ID) =?= request.(sr_TargetNodeID)) nodes)
  then Err (ErrTrustView ErrDanglingTrustEdge)
  else
    let snapshot := mkSnapshot id db.(revision) request.(sr_HomeChainID)
      request.(sr_ExpectedHomeTrustRoot) request.(sr_StartNodeID) request.(sr_TargetNodeID)
      true nodes edges in
    Ok (snapshot, set_snapshots db (<[id := snapshot]> db.(snapshots))).

Definition CreateTrustViewSnapshot (request : TrustViewSnapshotRequest) (db : DB)
    : res error (TrustViewSnapshot * DB) :=
  if MaxInt64 <? request.(sr_Attempt) then Err ErrRange
  else if request.(sr_StartNodeID) =?= request.(sr_TargetNodeID) then Err ErrSnapshotEndpoints
  else
    persistedRequest ← LoadRequest db request.(sr_RequestID);
    if persistedRequest.(Coordinator.req_HomeChainID) ≠?= request.(sr_HomeChainID)
    then Err ErrRecordConflict
    else
      start ← loadActiveTrustNode db request.(sr_StartNodeID);
      target ← loadActiveTrustNode db request.(sr_TargetNodeID);
      if (start.(node_Key).(key_ChainID) ≠?= request.(sr_HomeChainID))
         || (start.(node_Root) ≠?= request.(sr_ExpectedHomeTrustRoot))
      then Err (ErrTrustView ErrTrustRootConflict)
      else if (target.(node_Key).(key_ChainID)
                 ≠?= persistedRequest.(Coordinator.req_SourceChainID))
              || (target.(node_Key).(key_Height)
                    ≠?= persistedRequest.(Coordinator.req_SourceHeight))
              || (target.(node_Key).(key_BlockHash)
                    ≠?= persistedRequest.(Coordinator.req_SourceBlockHash))
      then Err ErrEvidenceBinding
      else
        let id := ComputeSnapshotID keccak256 request.(sr_RequestID) request.(sr_Attempt)
          db.(revision) request.(sr_StartNodeID) request.(sr_TargetNodeID)
          request.(sr_ExpectedHomeTrustRoot) in
        match loadSnapshot db id with
        | Ok existing => Ok (existing, db)
        | Err ErrRecordNotFound => materialize request id db
        | Err e => Err e
        end.
End Snapshots.

(** ** Observations of TrustRoots *)

Definition sameObservationTarget (left right : TrustRootObservation) : bool :=
  let l := left.(obs_Content) in let r := right.(obs_Content) in
  (l.(obs_ChainID) =?= r.(obs_ChainID)) && (l.(obs_Height) =?= r.(obs_Height))
  && (l.(obs_BlockHash) =?= r.(obs_BlockHash)) && (l.(obs_Gateway) =?= r.(obs_Gateway))
  && (l.(obs_TrustRoot) =?= r.(obs_TrustRoot))
  && (l.(obs_GatewayCodeHash) =?= r.(obs_GatewayCodeHash))
  && (l.(obs_RequiredConfirmations) =? r.(obs_RequiredConfirmations)).

Definition same_tuple (left right : TrustRootObservation) : bool :=
  let l := left.(obs_Content) in let r := right.(obs_Content) in
  (l.(obs_ChainID) =?= r.(obs_ChainID)) && (l.(obs_Height) =?= r.(obs_Height))
  && (l.(obs_BlockHash) =?= r.(obs_BlockHash)) && (l.(obs_Gateway) =?= r.(obs_Gateway)).

Definition loadLiveChain (db : DB) (id : ChainID) : res error ValidatedLiveChain :=
  match db.(live_chains) !! id with Some c => Ok c | None => Err ErrRecordNotFound end.

(** Evidence states an observation goes through in its transaction. *)
Definition observation_steps : list (Evidence.State * Evidence.State) :=
  [(Evidence.Candidate, Evidence.Verified); (Evidence.Verified, Evidence.Confirmed);
   (Evidence.Confirmed, Evidence.Active)].

Definition observation_reason : string := "TrustRootObservation RPC validation".

Section Observations.
Context (keccak256 : bytes → Hash).

(** [scanTrustRootObservation] *)
Definition scan_observation (row : Evidence.ID * TrustRootObservation)
    : res error TrustRootObservation :=
  let '(evidenceID, observation) := row in
  if (observation.(obs_ID) ≠?= Observation_ComputeID keccak256 observation)
     || (evidenceID ≠?= (SyntheticEvidence keccak256 observation).(Evidence.rec_ID))
  then Err ErrRecordConflict else Ok observation.

Definition loadTrustRootObservation (db : DB) (id : bytes32) : res error TrustRootObservation :=
  match db.(observations) !! id with
  | Some row => scan_observation row
  | None => Err ErrRecordNotFound
  end.

Definition loadTrustRootObservationByTuple (db : DB) (observation : TrustRootObservation)
    : res error TrustRootObservation :=
  match find_row db.(observations) (λ row, same_tuple row.2 observation) with
  | Some row => scan_observation row
  | None => Err ErrRecordNotFound
  end.

(** The inserts of [Save] for an observation seen for the first time.  The log
    has no row for evidence that is not in its table (foreign key). *)
Definition insert_observation (observation : TrustRootObservation) (at_ : Z) (db : DB)
    : res error (TrustRootObservation * TrustNode * bool * DB) :=
  let record := SyntheticEvidence keccak256 observation in
  let id := record.(Evidence.rec_ID) in
  if bool_decide (is_Some (db.(evidence) !! id))
     || bool_decide (is_Some (loadByLocator db record.(Evidence.rec_Locator)))
     || negb (0 <? at_)
  then Err ErrConstraint
  else
    let active := Evidence.mkRecord id record.(Evidence.rec_Locator) Evidence.Active ""
                    (Some at_) (Some at_) in
    let db1 := set_evidence db (<[id := active]> db.(evidence))
      (db.(evidence_transitions) ++ log_steps id observation_steps observation_reason at_) in
    let db2 := set_observations db1
      (<[observation.(obs_ID) := (id, observation)]> db1.(observations)) in
    let node := Observation_TrustNode keccak256 observation in
    out ← mergeTrustNode node db2;
    db3 ← bumpGraphRevision out.2;
    Ok (observation, node, true, db3).

Definition SaveObservation (now : Z) (given : TrustRootObservation) (db : DB)
    : res error (TrustRootObservation * TrustNode * bool * DB) :=
  _ ← map_err ErrTrustView (Observation_Validate given);
  if given.(obs_ID) ≠?= Observation_ComputeID keccak256 given then Err ErrRecordConflict
  else if MaxInt64 <? given.(obs_Content).(obs_RequiredConfirmations) then Err ErrRange
  else
    let at_ := default now given.(obs_ObservedAt) in
    let observation := mkObservation given.(obs_ID) given.(obs_Content) (Some at_) in
    match loadTrustRootObservation db observation.(obs_ID) with
    | Ok persisted =>
        if (persisted.(obs_ID) ≠?= observation.(obs_ID))
           || (persisted.(obs_Content) ≠?= observation.(obs_Content))
        then Err ErrRecordConflict
        else Ok (persisted, Observation_TrustNode keccak256 persisted, false, db)
    | Err ErrRecordNotFound =>
        match loadTrustRootObservationByTuple db observation with
        | Ok persisted =>
            if negb (sameObservationTarget persisted observation) then Err ErrRecordConflict
            else Ok (persisted, Observation_TrustNode keccak256 persisted, false, db)
        | Err ErrRecordNotFound =>
            live ← loadLiveChain db observation.(obs_Content).(obs_ChainID);
            if negb (bool_decide (is_Some live.(vlc_ValidatedAt)))
               || (live.(vlc_Gateway) ≠?= observation.(obs_Content).(obs_Gateway))
               || (live.(vlc_GatewayCodeHash)
                     ≠?= observation.(obs_Content).(obs_GatewayCodeHash))
               || negb (live.(vlc_Chain).(lc_Confirmations)
                          =? observation.(obs_Content).(obs_RequiredConfirmations))
            then Err ErrRecordConflict
            else insert_observation observation at_ db
        | Err e => Err e
        end
    | Err e => Err e
    end.
End Observations.

(** ** What the graph tables promise *)

Definition edge_in_graph (keccak256 : bytes → Hash) (db : DB) (e : TrustEdge) : Prop :=
  TrustEdge_Validate keccak256 e = Ok tt ∧ e.(edge_WitnessID) = None ∧
  is_active db e.(edge_EvidenceID) = true ∧ evidence_observed db e.(edge_EvidenceID) = false ∧
  0 ≤ e.(PathStepCost) ≤ MaxInt64 ∧
  ∃ from to, db.(trust_nodes) !! e.(edge_From) = Some from ∧
    db.(trust_nodes) !! e.(edge_To) = Some to ∧
    from.(node_Key).(key_ChainID) ≠ to.(node_Key).(key_ChainID).

Record graph_wf (keccak256 : bytes → Hash) (db : DB) : Prop := {
  g_node id n : db.(trust_nodes) !! id = Some n →
    n.(node_ID) = id ∧ TrustNode_Validate keccak256 n = Ok tt ∧
    is_active db n.(node_EvidenceID) = true;
  g_edge id e active : db.(trust_edges) !! id = Some (e, active) →
    active = true ∧ e.(edge_ID) = id ∧ edge_in_graph keccak256 db e;
  g_evidence id1 id2 p1 p2 :
    db.(trust_edges) !! id1 = Some p1 → db.(trust_edges) !! id2 = Some p2 →
    p1.1.(edge_EvidenceID) = p2.1.(edge_EvidenceID) → id1 = id2;
  g_witness ev w : db.(membership_witnesses) !! ev = Some w →
    w = NewMembershipWitness keccak256 ev w.(witness_LeafIndex) w.(witness_Siblings) ∧
    w.(witness_Siblings) ≠ [] ∧
    ∃ id e, db.(trust_edges) !! id = Some (e, true) ∧ e.(edge_EvidenceID) = ev ∧
      e.(edge_LeafIndex) = w.(witness_LeafIndex);
  g_revision : 0 ≤ db.(revision) ≤ MaxInt64
}.

(** A stored snapshot: sealed, bound to its identifier, consistent, and equal
    to the live graph as long as the revision has not moved. *)
Record snapshot_ok (keccak256 : bytes → Hash) (db : DB) (s : TrustViewSnapshot) : Prop := {
  so_sealed : s.(Sealed) = true;
  so_distinct : s.(StartNodeID) ≠ s.(TargetNodeID);
  so_revision : 0 ≤ s.(snap_Revision) ≤ db.(revision);
  so_binding : ∃ rid attempt, 0 ≤ attempt ≤ MaxInt64 ∧
    s.(snap_ID) = ComputeSnapshotID keccak256 rid attempt s.(snap_Revision) s.(StartNodeID)
      s.(TargetNodeID) s.(HomeTrustRoot);
  so_consistent : consistent_graph keccak256 s.(snap_Nodes) s.(snap_Edges);
  so_nodes : StronglySorted (key_lt (λ n : TrustNode, n.(node_ID))) s.(snap_Nodes);
  so_edges : StronglySorted (key_lt (λ e : TrustEdge, e.(edge_ID))) s.(snap_Edges);
  so_costs e : e ∈ s.(snap_Edges) → 0 ≤ e.(PathStepCost) ≤ MaxInt64;
  so_start : ∃ n, n ∈ s.(snap_Nodes) ∧ n.(node_ID) = s.(StartNodeID) ∧
    n.(node_Key).(key_ChainID) = s.(HomeChainID) ∧ n.(node_Root) = s.(HomeTrustRoot);
  so_target : ∃ n, n ∈ s.(snap_Nodes) ∧ n.(node_ID) = s.(TargetNodeID);
  so_current : s.(snap_Revision) = db.(revision) →
    s.(snap_Nodes) = map snapshot_node (active_nodes db) ∧ s.(snap_Edges) = active_edges db
}.

Definition snapshots_wf (keccak256 : bytes → Hash) (db : DB) : Prop :=
  ∀ id s, db.(snapshots) !! id = Some s → s.(snap_ID) = id ∧ snapshot_ok keccak256 db s.

(** Observation rows carry their own identifiers. *)
Definition observations_wf (keccak256 : bytes → Hash) (db : DB) : Prop :=
  ∀ id ev o, db.(observations) !! id = Some (ev, o) →
    o.(obs_ID) = id ∧ id = Observation_ComputeID keccak256 o ∧
    ev = (SyntheticEvidence keccak256 o).(Evidence.rec_ID) ∧
    Observation_Validate o = Ok tt ∧ is_active db ev = true ∧
    let node := Observation_TrustNode keccak256 o in
    db.(trust_nodes) !! node.(node_ID) = Some node.

(** ** Lemmas: reading the graph *)

Lemma is_active_spec db id :
  is_active db id = true ↔
  ∃ r, db.(evidence) !! id = Some r ∧ r.(Evidence.rec_State) = Evidence.Active.
Proof.
  unfold is_active. destruct (evidence db !! id) as [r|]; [|naive_solver].
  rewrite bool_decide_eq_true. naive_solver.
Qed.

Lemma loadActiveEvidence_Ok db id r :
  loadActiveEvidence db id = Ok r → db.(evidence) !! id = Some r ∧ is_active db id = true.
Proof.
  unfold loadActiveEvidence, is_active. destruct (evidence db !! id) as [r'|]; [|done].
  case_bool_decide as Ha; cbn; [|done]. by intros [= ->].
Qed.

Lemma loadActiveTrustNode_Ok db id n :
  loadActiveTrustNode db id = Ok n → db.(trust_nodes) !! id = Some n.
Proof.
  unfold loadActiveTrustNode. destruct (trust_nodes db !! id); [|done].
  case_match; [|done]. congruence.
Qed.

Lemma validate_with_witness keccak256 db e :
  TrustEdge_Validate keccak256 (with_witness db e) = TrustEdge_Validate keccak256 e.
Proof. unfold TrustEdge_Validate, NewTrustEdge. cbn. by destruct (_ || _). Qed.

Section Reading.
Context (keccak256 : bytes → Hash) (db : DB) (WF : graph_wf keccak256 db).

Lemma nodes_indexed : indexes node_ID db.(trust_nodes) (map_values db.(trust_nodes)).
Proof using WF. apply indexes_values. intros i n H. by apply (g_node _ _ WF). Qed.

Lemma edges_indexed :
  indexes (λ p : TrustEdge * bool, p.1.(edge_ID)) db.(trust_edges)
    (map_values db.(trust_edges)).
Proof using WF. apply indexes_values. intros i [e a] H. by apply (g_edge _ _ WF) in H as (_ & <- & _). Qed.

Lemma elem_of_active_nodes n :
  n ∈ active_nodes db ↔ db.(trust_nodes) !! n.(node_ID) = Some n.
Proof using WF.
  unfold active_nodes. rewrite sort_by_perm, list_elem_of_In, filter_In, <-list_elem_of_In.
  rewrite (nodes_indexed (node_ID n) n). split; [naive_solver|].
  intros [Hin _]. split; [done|]. assert (trust_nodes db !! node_ID n = Some n) as Hl
    by (by apply nodes_indexed). by apply (g_node _ _ WF) in Hl as (_ & _ & ?).
Qed.

Lemma active_nodes_sorted :
  StronglySorted (key_lt (λ n : TrustNode, n.(node_ID))) (active_nodes db).
Proof using WF.
  apply sort_by_sorted, NoDup_array_keys, NoDup_keys_filter.
  eapply map_values_keys, nodes_indexed.
Qed.

Lemma elem_of_active_edges e :
  e ∈ active_edges db ↔
  ∃ e0, db.(trust_edges) !! e.(edge_ID) = Some (e0, true) ∧ e = with_witness db e0.
Proof using WF.
  unfold active_edges. rewrite sort_by_perm, list_elem_of_fmap. split.
  - intros ([e0 a] & -> & [Hin Ha]%list_elem_of_In%filter_In).
    apply andb_true_iff in Ha as [Ha _]. cbn in Ha. subst a. exists e0. split; [|done].
    apply edges_indexed. split; [by apply list_elem_of_In|done].
  - intros (e0 & Hl & ->). exists (e0, true). split; [done|].
    apply list_elem_of_In, filter_In. rewrite <-list_elem_of_In.
    pose proof (g_edge _ _ WF _ _ _ Hl) as (_ & _ & Hg). split; [|cbn; apply Hg].
    eapply (proj1 (edges_indexed _ _)), Hl.
Qed.

Lemma active_edges_sorted :
  StronglySorted (key_lt (λ e : TrustEdge, e.(edge_ID))) (active_edges db).
Proof using WF.
  apply sort_by_sorted, NoDup_array_keys.
  change (map ?f ?l) with (f <$> l). rewrite <-list_fmap_compose.
  apply (NoDup_keys_filter (λ p : TrustEdge * bool, edge_ID p.1)).
  eapply map_values_keys, edges_indexed.
Qed.

Lemma active_graph_consistent :
  consistent_graph keccak256 (active_nodes db) (active_edges db).
Proof using WF.
  split; [|split; [|split; [|split]]].
  - apply Forall_forall. intros n Hn%elem_of_active_nodes. by apply (g_node _ _ WF) in Hn as (_ & ? & _).
  - apply Forall_forall. intros e (e0 & Hl & ->)%elem_of_active_edges.
    apply (g_edge _ _ WF) in Hl as (_ & _ & <- & _).
    apply validate_with_witness.
  - intros n m Hn%elem_of_active_nodes Hm%elem_of_active_nodes He. rewrite He in Hn. congruence.
  - intros e f (e0 & Hl & ->)%elem_of_active_edges (f0 & Hm & ->)%elem_of_active_edges He.
    cbn in *. rewrite He in Hl. congruence.
  - intros e (e0 & Hl & ->)%elem_of_active_edges.
    apply (g_edge _ _ WF) in Hl as (_ & _ & _ & _ & _ & _ & _ & from & to & Hf & Ht & Hne).
    exists from, to. rewrite !elem_of_active_nodes.
    destruct (g_node _ _ WF _ _ Hf) as (-> & _). destruct (g_node _ _ WF _ _ Ht) as (-> & _).
    by split_and!.
Qed.

Lemma CurrentTrustView_total :
  CurrentTrustView keccak256 db
  = Ok (mkTrustView db.(revision) (active_nodes db) (active_edges db)).
Proof using WF.
  unfold CurrentTrustView. apply map_err_Ok, NewTrustView_iff. cbn.
  split; [apply active_graph_consistent|]. split; [done|]. split_and!; try done.
  - apply active_nodes_sorted.
  - apply active_edges_sorted.
Qed.
End Reading.

(** ** Lemmas: the mutations keep the invariants *)

Lemma bump_Ok db db' :
  bumpGraphRevision db = Ok db' →
  db.(revision) < MaxInt64 ∧
  db' = set_graph db (db.(revision) + 1) db.(trust_nodes) db.(trust_edges)
          db.(membership_witnesses).
Proof.
  unfold bumpGraphRevision. destruct (Z.ltb_spec (revision db) MaxInt64); [|done].
  by intros [= <-].
Qed.

Lemma mergeTrustNode_Ok keccak256 node db b db' :
  graph_wf keccak256 db → mergeTrustNode node db = Ok (b, db') →
  (b = false ∧ db' = db ∧ db.(trust_nodes) !! node.(node_ID) = Some node) ∨
  (b = true ∧ db.(trust_nodes) !! node.(node_ID) = None ∧
   is_active db node.(node_EvidenceID) = true ∧
   db' = set_graph db db.(revision) (<[node.(node_ID) := node]> db.(trust_nodes))
           db.(trust_edges) db.(membership_witnesses)).
Proof.
  intros WF. unfold mergeTrustNode. destruct (find_row _ _) as [p|] eqn:Hf.
  - apply find_row_Some in Hf as (Hk & id & Hl). apply bool_decide_eq_true in Hk.
    repeat (case_bool_decide; cbn; [|done]). intros [= <- <-]. left. split_and!; try done.
    destruct (g_node _ _ WF _ _ Hl) as (Hid & _). subst id.
    destruct node, p; cbn in *; congruence.
  - destruct (bool_decide _ || _) eqn:Hc; [done|]. intros [= <- <-]. right.
    apply orb_false_iff in Hc as [Hn Ha]. apply bool_decide_eq_false, eq_None_not_Some in Hn.
    apply negb_false_iff in Ha. by split_and!.
Qed.

(** Inserting a valid, fresh node with active evidence. *)
Lemma insert_node_wf keccak256 node db :
  graph_wf keccak256 db → TrustNode_Validate keccak256 node = Ok tt →
  is_active db node.(node_EvidenceID) = true → db.(trust_nodes) !! node.(node_ID) = None →
  graph_wf keccak256
    (set_graph db db.(revision) (<[node.(node_ID) := node]> db.(trust_nodes))
       db.(trust_edges) db.(membership_witnesses)).
Proof.
  intros [W1 W2 W3 W4 W5] Hv Ha Hn. split; cbn [trust_nodes trust_edges membership_witnesses
    revision set_graph]; [| |exact W3|exact W4|exact W5].
  - intros id n [[<- <-]|[Hne Hl]]%lookup_insert_Some; [done|]. by apply W1.
  - intros id e a He. destruct (W2 _ _ _ He) as (Hact & Hid & H1 & H2 & H3 & H4 & H5 & f & t & Hf & Ht & Hne).
    split; [done|]. split; [done|]. split; [done|]. split_and!; try done; [lia|lia|].
    exists f, t. cbn. split_and!; [| |done]; (rewrite lookup_insert_ne; [done|congruence]).
Qed.

Lemma mergeTrustNode_wf keccak256 node db b db' :
  graph_wf keccak256 db → TrustNode_Validate keccak256 node = Ok tt →
  mergeTrustNode node db = Ok (b, db') →
  graph_wf keccak256 db' ∧ db'.(trust_nodes) !! node.(node_ID) = Some node ∧
  (∀ id n, db.(trust_nodes) !! id = Some n → db'.(trust_nodes) !! id = Some n).
Proof.
  intros WF Hv [(_ & -> & Hl)|(_ & Hn & Ha & ->)]%(mergeTrustNode_Ok keccak256); [done| |done].
  split; [by apply insert_node_wf|]. cbn. rewrite lookup_insert_eq. split; [done|].
  intros id n Hl. rewrite lookup_insert_ne; [done|congruence].
Qed.

Lemma edge_allowed_spec db edge :
  edge_allowed db edge = true ↔
  is_active db edge.(edge_EvidenceID) = true ∧
  evidence_observed db edge.(edge_EvidenceID) = false ∧
  is_Some (db.(trust_nodes) !! edge.(edge_From)) ∧ is_Some (db.(trust_nodes) !! edge.(edge_To)) ∧
  0 ≤ edge.(PathStepCost) ≤ MaxInt64.
Proof.
  unfold edge_allowed. rewrite !andb_true_iff, negb_true_iff, !bool_decide_eq_true, !Z.leb_le.
  tauto.
Qed.

Lemma mergeTrustEdge_Ok keccak256 edge db b db' :
  graph_wf keccak256 db → mergeTrustEdge edge db = Ok (b, db') →
  (b = false ∧ db' = db ∧ db.(trust_edges) !! edge.(edge_ID) = Some (stored_edge edge, true)) ∨
  (b = true ∧ db.(trust_edges) !! edge.(edge_ID) = None ∧ edge_allowed db edge = true ∧
   (∀ id p, db.(trust_edges) !! id = Some p →
      p.1.(edge_EvidenceID) ≠ edge.(edge_EvidenceID)) ∧
   db' = set_graph db db.(revision) db.(trust_nodes)
           (<[edge.(edge_ID) := (stored_edge edge, true)]> db.(trust_edges))
           db.(membership_witnesses)).
Proof.
  intros WF. unfold mergeTrustEdge.
  destruct (trust_edges db !! edge_ID edge) as [[p a]|] eqn:Hl.
  - destruct (g_edge _ _ WF _ _ _ Hl) as (-> & Hid & _ & Hw & _).
    case_match eqn:Hc; [done|]. intros [= <- <-]. left. split_and!; try done.
    do 2 f_equal. unfold stored_edge. bool_to_prop. destruct p, edge; cbn in *; congruence.
  - destruct (find_row _ _) as [p|] eqn:Hf; [done|]. unfold put_edge.
    destruct (edge_allowed db edge) eqn:Ha; [|done]. intros [= <- <-]. right. split_and!; try done.
    intros id p Hp He. pose proof (find_row_None _ _ Hf _ _ Hp) as Hx.
    by apply bool_decide_eq_false in Hx.
Qed.

Lemma validate_stored_edge keccak256 e :
  TrustEdge_Validate keccak256 (stored_edge e) = TrustEdge_Validate keccak256 e.
Proof. unfold TrustEdge_Validate, NewTrustEdge. cbn. by destruct (_ || _). Qed.

Lemma mergeTrustEdge_wf keccak256 edge db b db' from to :
  graph_wf keccak256 db → TrustEdge_Validate keccak256 edge = Ok tt →
  db.(trust_nodes) !! edge.(edge_From) = Some from →
  db.(trust_nodes) !! edge.(edge_To) = Some to →
  from.(node_Key).(key_ChainID) ≠ to.(node_Key).(key_ChainID) →
  mergeTrustEdge edge db = Ok (b, db') →
  graph_wf keccak256 db' ∧ db'.(trust_edges) !! edge.(edge_ID) = Some (stored_edge edge, true).
Proof.
  intros WF Hv Hf Ht Hne [(_ & -> & Hl)|(_ & Hn & Ha & Hev & ->)]%(mergeTrustEdge_Ok keccak256);
    [done| |done].
  cbn. rewrite lookup_insert_eq. split; [|done].
  destruct WF as [W1 W2 W3 W4 W5]. apply edge_allowed_spec in Ha as (Ha & Ho & _ & _ & Hc).
  split; cbn [trust_nodes trust_edges membership_witnesses revision set_graph];
    [exact W1| | | |exact W5].
  - intros id e a [[<- [= <- <-]]|[Hne' Hl]]%lookup_insert_Some; [|by apply W2].
    split; [done|]. split; [done|]. split; [by rewrite validate_stored_edge|].
    split_and!; try done; [apply Hc|apply Hc|]. by exists from, to.
  - intros id1 id2 p1 p2 H1 H2 He.
    apply lookup_insert_Some in H1 as [[<- <-]|[Hn1 H1]];
      apply lookup_insert_Some in H2 as [[<- <-]|[Hn2 H2]]; try done; [| |by eapply W3].
    + by destruct (Hev _ _ H2).
    + by destruct (Hev _ _ H1).
  - intros ev w Hw. destruct (W4 _ _ Hw) as (Hnw & Hs & id & e & He & Hee & Hle).
    split; [done|]. split; [done|]. exists id, e. split; [|done].
    rewrite lookup_insert_ne; [done|]. congruence.
Qed.

(** Same graph tables, same live graph. *)
Lemma active_graph_ext keccak256 db db' :
  graph_wf keccak256 db → graph_wf keccak256 db' →
  db'.(trust_nodes) = db.(trust_nodes) → db'.(trust_edges) = db.(trust_edges) →
  db'.(membership_witnesses) = db.(membership_witnesses) →
  active_nodes db' = active_nodes db ∧ active_edges db' = active_edges db.
Proof.
  intros W W' Hn He Hw. split; eapply sorted_by_unique;
    eauto using active_nodes_sorted, active_edges_sorted.
  - intros n. by rewrite (elem_of_active_nodes _ _ W), (elem_of_active_nodes _ _ W'), Hn.
  - intros e. rewrite (elem_of_active_edges _ _ W), (elem_of_active_edges _ _ W'), He.
    unfold with_witness. by rewrite Hw.
Qed.

Lemma snapshots_wf_same keccak256 db db' :
  graph_wf keccak256 db → graph_wf keccak256 db' → db'.(snapshots) = db.(snapshots) →
  db'.(trust_nodes) = db.(trust_nodes) → db'.(trust_edges) = db.(trust_edges) →
  db'.(membership_witnesses) = db.(membership_witnesses) → db'.(revision) = db.(revision) →
  snapshots_wf keccak256 db → snapshots_wf keccak256 db'.
Proof.
  intros W W' Hs Hn He Hw Hr WS id s Hl. rewrite Hs in Hl.
  destruct (WS _ _ Hl) as [Hid []]. split; [done|].
  destruct (active_graph_ext _ _ _ W W' Hn He Hw) as [Hna Hea].
  split; rewrite ?Hr, ?Hna, ?Hea; done.
Qed.

(** A mutation of the graph moves the revision past every snapshot. *)
Lemma snapshots_wf_bump keccak256 db db' :
  db'.(snapshots) = db.(snapshots) → db.(revision) < db'.(revision) →
  snapshots_wf keccak256 db → snapshots_wf keccak256 db'.
Proof.
  intros Hs Hr WS id s Hl. rewrite Hs in Hl. destruct (WS _ _ Hl) as [Hid []].
  split; [done|]. split; try done; lia.
Qed.

Lemma observations_wf_mono keccak256 db db' :
  db'.(observations) = db.(observations) →
  (∀ id, is_active db id = true → is_active db' id = true) →
  (∀ id n, db.(trust_nodes) !! id = Some n → db'.(trust_nodes) !! id = Some n) →
  observations_wf keccak256 db → observations_wf keccak256 db'.
Proof.
  intros Ho Ha Hn WO id ev o Hl. rewrite Ho in Hl. destruct (WO _ _ _ Hl) as (? & ? & ? & ? & ? & ?).
  split_and!; auto.
Qed.

(** The invariant of this file. *)
Record trust_wf (keccak256 : bytes → Hash) (db : DB) : Prop := {
  t_graph : graph_wf keccak256 db;
  t_snapshots : snapshots_wf keccak256 db;
  t_observations : observations_wf keccak256 db
}.

Lemma set_revision_wf keccak256 db rev :
  0 ≤ rev ≤ MaxInt64 → graph_wf keccak256 db →
  graph_wf keccak256 (set_graph db rev db.(trust_nodes) db.(trust_edges) db.(membership_witnesses)).
Proof. intros Hr [W1 W2 W3 W4 _]. by split. Qed.

Lemma bump_wf keccak256 db db' :
  graph_wf keccak256 db → bumpGraphRevision db = Ok db' → graph_wf keccak256 db'.
Proof.
  intros W [Hlt ->]%bump_Ok. pose proof (g_revision _ _ W). apply set_revision_wf; [lia|done].
Qed.

(** Only the graph tables differ. *)
Definition graph_only (db db' : DB) : Prop :=
  db' = set_graph db db'.(revision) db'.(trust_nodes) db'.(trust_edges)
          db'.(membership_witnesses).

Lemma graph_only_trans db1 db2 db3 : graph_only db1 db2 → graph_only db2 db3 → graph_only db1 db3.
Proof. unfold graph_only. by intros -> ->. Qed.

Lemma graph_only_refl db : graph_only db db.
Proof. by destruct db. Qed.

Lemma mergeTrustNode_only keccak256 node db b db' :
  graph_wf keccak256 db → mergeTrustNode node db = Ok (b, db') →
  graph_only db db' ∧ db'.(revision) = db.(revision) ∧ (b = false → db' = db).
Proof.
  intros W [(-> & -> & _)|(-> & _ & _ & ->)]%(mergeTrustNode_Ok keccak256); [| |done].
  - split; [apply graph_only_refl|done].
  - by split_and!.
Qed.

Lemma mergeTrustEdge_only keccak256 edge db b db' :
  graph_wf keccak256 db → mergeTrustEdge edge db = Ok (b, db') →
  graph_only db db' ∧ db'.(revision) = db.(revision) ∧ (b = false → db' = db) ∧
  db'.(trust_nodes) = db.(trust_nodes).
Proof.
  intros W [(-> & -> & _)|(-> & _ & _ & _ & ->)]%(mergeTrustEdge_Ok keccak256); [| |done].
  - split; [apply graph_only_refl|done].
  - by split_and!.
Qed.

(** A mutation either leaves the database as it is, or bumps the revision. *)
Definition bumped (db db' : DB) (changed : bool) : Prop :=
  graph_only db db' ∧
  (if changed then db.(revision) < db'.(revision) else db' = db) ∧
  (∀ id n, db.(trust_nodes) !! id = Some n → db'.(trust_nodes) !! id = Some n).

Lemma bumped_wf keccak256 db db' changed :
  bumped db db' changed → graph_wf keccak256 db' → trust_wf keccak256 db →
  trust_wf keccak256 db'.
Proof.
  intros (Ho & Hc & Hn) W' [W WS WO]. destruct changed; [|by subst].
  split; [done| |].
  - eapply snapshots_wf_bump; [|done..]. by rewrite Ho.
  - eapply observations_wf_mono; [| |done..]; by rewrite Ho.
Qed.

Lemma bumped_bump db db1 db2 :
  graph_only db db1 →
  (∀ id n, db.(trust_nodes) !! id = Some n → db1.(trust_nodes) !! id = Some n) →
  bumpGraphRevision db1 = Ok db2 → db1.(revision) = db.(revision) → bumped db db2 true.
Proof.
  intros O Hn [_ ->]%bump_Ok Hr. split; [|split; [cbn; lia|done]].
  eapply graph_only_trans; [exact O|]. done.
Qed.

Lemma MergeActiveTrustEdge_wf keccak256 from to edge dependency db b db' :
  graph_wf keccak256 db →
  MergeActiveTrustEdge keccak256 from to edge dependency db = Ok (b, db') →
  graph_wf keccak256 db' ∧ bumped db db' b ∧
  db'.(trust_nodes) !! from.(node_ID) = Some from ∧
  db'.(trust_nodes) !! to.(node_ID) = Some to ∧
  db'.(trust_edges) !! edge.(edge_ID) = Some (stored_edge edge, true).
Proof.
  intros W. unfold MergeActiveTrustEdge.
  intros ([] & Hvf%map_err_Ok & H)%bind_Ok. apply bind_Ok in H as ([] & Hvt%map_err_Ok & H).
  apply bind_Ok in H as ([] & Hve%map_err_Ok & H).
  case_match eqn:Hends; [done|]. case_bool_decide as Hchain; [done|]. case_match; [done|].
  apply bind_Ok in H as (fe & _ & H). apply bind_Ok in H as (te & _ & H).
  apply bind_Ok in H as (ee & _ & H). case_match; [done|].
  apply bind_Ok in H as ([] & _ & H).
  apply bind_Ok in H as ([b1 db1] & Hm1 & H). apply bind_Ok in H as ([b2 db2] & Hm2 & H).
  apply bind_Ok in H as ([b3 db3] & Hm3 & H). cbn in Hm1, Hm2, Hm3, H.
  apply orb_false_iff in Hends as [Hf Ht].
  apply negb_false_iff, bool_decide_eq_true in Hf, Ht.
  destruct (mergeTrustNode_wf _ _ _ _ _ W Hvf Hm1) as (W1 & L1 & M1).
  destruct (mergeTrustNode_wf _ _ _ _ _ W1 Hvt Hm2) as (W2 & L2 & M2).
  destruct (mergeTrustEdge_wf _ _ _ _ _ from to W2 Hve ltac:(rewrite Hf; auto)
    ltac:(rewrite Ht; auto) Hchain Hm3) as (W3 & L3).
  destruct (mergeTrustNode_only _ _ _ _ _ W Hm1) as (O1 & R1 & E1).
  destruct (mergeTrustNode_only _ _ _ _ _ W1 Hm2) as (O2 & R2 & E2).
  destruct (mergeTrustEdge_only _ _ _ _ _ W2 Hm3) as (O3 & R3 & E3 & N3).
  assert (graph_only db db3) as O by eauto using graph_only_trans.
  assert (∀ id n, db.(trust_nodes) !! id = Some n → db3.(trust_nodes) !! id = Some n) as Hmono
    by (rewrite N3; auto).
  assert (db3.(trust_nodes) !! from.(node_ID) = Some from) as Lf by (rewrite N3; auto).
  assert (db3.(trust_nodes) !! to.(node_ID) = Some to) as Lt by (rewrite N3; auto).
  destruct (b1 || b2 || b3) eqn:Hb.
  - apply bind_Ok in H as (db4 & Hbump & [= <- <-]).
    split; [by eapply bump_wf|]. split; [by apply (bumped_bump db db3); [| | |congruence]|].
    by apply bump_Ok in Hbump as [_ ->].
  - injection H as <- <-. apply orb_false_iff in Hb as [Hb ->]. apply orb_false_iff in Hb as [-> ->].
    split; [done|]. split; [|done]. split; [done|]. split; [|done].
    by rewrite E3, E2, E1.
Qed.

Lemma SaveMembershipWitness_wf keccak256 w db b db' :
  graph_wf keccak256 db → SaveMembershipWitness keccak256 w db = Ok (b, db') →
  graph_wf keccak256 db' ∧ bumped db db' b ∧
  db'.(membership_witnesses) !! w.(witness_EvidenceID) = Some w ∧
  db'.(trust_edges) = db.(trust_edges).
Proof.
  intros W. unfold SaveMembershipWitness. intros [Hid H]%bind_bool.
  apply orb_false_iff in Hid as [Hid Hs]. apply negb_false_iff, bool_decide_eq_true in Hid.
  apply Z.eqb_neq in Hs. apply bind_Ok in H as (ee & _ & H).
  destruct (find_row _ _) as [[e a]|] eqn:Hf; [|done].
  apply find_row_Some in Hf as (He & eid & Hl). cbn in He. apply andb_true_iff in He as [He ->].
  apply bool_decide_eq_true in He. apply bind_bool in H as [Hleaf H].
  apply negb_false_iff, Z.eqb_eq in Hleaf.
  assert (w = NewMembershipWitness keccak256 (witness_EvidenceID w) (witness_LeafIndex w)
                (witness_Siblings w)) as Hw
    by (destruct w; unfold NewMembershipWitness in *; cbn in *; congruence).
  destruct (membership_witnesses db !! witness_EvidenceID w) as [old|] eqn:Hold.
  - apply bind_bool in H as [Hsame H]. injection H as <- <-.
    apply orb_false_iff in Hsame as [Hsame H3]. apply orb_false_iff in Hsame as [H1 H2].
    apply negb_false_iff, bool_decide_eq_true in H1, H3. apply negb_false_iff, Z.eqb_eq in H2.
    split; [done|]. split; [split; [apply graph_only_refl|done]|]. split; [|done].
    rewrite Hold. f_equal. destruct (g_witness _ _ W _ _ Hold) as (Ho & _). rewrite Ho, Hw.
    by rewrite H2, H3.
  - apply bind_bool in H as [_ H]. apply bind_Ok in H as (db4 & Hb & [= <- <-]).
    set (db1 := set_graph db (revision db) (trust_nodes db) (trust_edges db)
      (<[witness_EvidenceID w := w]> (membership_witnesses db))) in *.
    assert (graph_wf keccak256 db1) as W1.
    { destruct W as [W1 W2 W3 W4 W5]. split; [exact W1|exact W2|exact W3| |exact W5].
      intros ev w'. cbn [membership_witnesses set_graph db1].
      intros [[<- <-]|[Hne Hl']]%lookup_insert_Some; [|by apply W4].
      split; [done|]. split; [by intros ?%zlen_nil_iff|]. by exists eid, e. }
    split; [by eapply bump_wf|]. split; [by apply (bumped_bump db db1)|].
    apply bump_Ok in Hb as [_ ->]. cbn. by rewrite lookup_insert_eq.
Qed.

(** ** Lemmas: evidence and observations *)

Lemma evidence_observed_spec db ev :
  evidence_observed db ev = true ↔
  ∃ oid row, db.(observations) !! oid = Some row ∧ row.1 = ev.
Proof.
  unfold evidence_observed. rewrite bool_decide_eq_true. split.
  - intros [row (Ht & oid & Hl)%find_row_Some]. apply bool_decide_eq_true in Ht. eauto.
  - intros (oid & row & Hl & He). destruct (find_row _ _) eqn:Hf; [eauto|].
    pose proof (find_row_None _ _ Hf _ _ Hl) as Hx. by apply bool_decide_eq_false in Hx.
Qed.

(** The graph tables stay, active evidence stays active, and evidence of an
    edge does not become that of an observation. *)
Lemma graph_wf_evidence keccak256 db db' :
  graph_wf keccak256 db →
  db' = set_observations (set_evidence db db'.(evidence) db'.(evidence_transitions))
          db'.(observations) →
  (∀ id, is_active db id = true → is_active db' id = true) →
  (∀ id, is_active db id = true → evidence_observed db id = false →
     evidence_observed db' id = false) →
  graph_wf keccak256 db'.
Proof.
  intros [W1 W2 W3 W4 W5] Heq Ha Ho. rewrite Heq. split; [| |exact W3|exact W4|exact W5].
  - intros id n Hl. destruct (W1 _ _ Hl) as (? & ? & Hact). split; [done|]. split; [done|].
    apply Ha in Hact. by rewrite Heq in Hact.
  - intros id e a Hl. destruct (W2 _ _ _ Hl) as (? & ? & Hv & ? & Hact & Hobs & Hrest).
    split; [done|]. split; [done|]. split; [done|]. split; [done|].
    pose proof (Ha _ Hact) as Hact'. pose proof (Ho _ Hact Hobs) as Hobs'.
    rewrite Heq in Hact', Hobs'. by split.
Qed.

Lemma trust_wf_evidence keccak256 db db' :
  trust_wf keccak256 db →
  db' = set_observations (set_evidence db db'.(evidence) db'.(evidence_transitions))
          db'.(observations) →
  (∀ id, is_active db id = true → is_active db' id = true) →
  (∀ id, is_active db id = true → evidence_observed db id = false →
     evidence_observed db' id = false) →
  graph_wf keccak256 db' ∧ snapshots_wf keccak256 db'.
Proof.
  intros [W WS WO] Heq Ha Ho. pose proof (graph_wf_evidence _ _ _ W Heq Ha Ho) as W'.
  split; [done|]. eapply snapshots_wf_same; [exact W|exact W'|..|exact WS]; by rewrite Heq.
Qed.

Lemma evidence_op_wf keccak256 db m l :
  trust_wf keccak256 db →
  (∀ id r, db.(evidence) !! id = Some r → r.(Evidence.rec_State) = Evidence.Active →
     m !! id = Some r) →
  trust_wf keccak256 (set_evidence db m l).
Proof.
  intros WT Hm. set (db' := set_evidence db m l).
  assert (∀ id, is_active db id = true → is_active db' id = true) as Ha.
  { intros id (r & Hl & Hs)%is_active_spec. apply is_active_spec. exists r. auto. }
  destruct (trust_wf_evidence _ _ db' WT) as [W' WS']; [by destruct db|done|done|].
  split; [done..|]. destruct WT as [_ _ WO]. by apply (observations_wf_mono _ db).
Qed.

Lemma ObserveEvidence_trust keccak256 now record db r b db' :
  trust_wf keccak256 db → ObserveEvidence keccak256 now record db = Ok (r, b, db') →
  trust_wf keccak256 db'.
Proof.
  intros WT H. assert (∀ id e, evidence db !! id = Some e → evidence db' !! id = Some e) as Hact
    by (intros id e; by apply (observe_evidence_active _ _ _ _ _ _ _ _ _ H)).
  apply ObserveEvidence_Ok in H as (_ & _ & _ & [(_ & -> & _)|(_ & _ & _ & _ & _ & ->)]); [done|].
  apply evidence_op_wf; [done|]. intros id e He Ha. by apply Hact.
Qed.

Lemma TransitionEvidence_trust keccak256 now id from to at_ reason db r b db' :
  trust_wf keccak256 db → TransitionEvidence now id from to at_ reason db = Ok (r, b, db') →
  trust_wf keccak256 db'.
Proof.
  intros WT H.
  assert (∀ id e, evidence db !! id = Some e → Evidence.rec_State e = Evidence.Active →
    evidence db' !! id = Some e) as Hact
    by (intros id' e; by apply (transition_evidence_active _ _ _ _ _ _ _ _ _ _ _ _ H)).
  apply TransitionEvidence_Ok in H as (_ & [(_ & -> & _)|(_ & _ & _ & c & ch & _ & _ & _ & _ & ->)]);
    [done|].
  apply evidence_op_wf; [done|]. intros id' e He Ha. by apply Hact.
Qed.

Section ObservationLemmas.
Context (keccak256 : bytes → Hash) (keccak_nonzero : ∀ l, keccak256 l ≠ zero32).

(** The evidence an observation stands for has a synthetic identifier, and
    its node is valid. *)
Lemma SyntheticEvidence_id o :
  Observation_Validate o = Ok tt →
  Evidence.ComputeSyntheticID keccak256 (SyntheticEvidence keccak256 o).(Evidence.rec_Locator)
  = Ok (SyntheticEvidence keccak256 o).(Evidence.rec_ID).
Proof using keccak_nonzero.
  unfold Observation_Validate. intros ([] & Hchain%map_err_Ok & [Hz _]%bind_bool)%bind_Ok.
  bool_to_prop. unfold SyntheticEvidence. cbn. unfold Evidence.ComputeSyntheticID. cbn.
  rewrite Hchain. cbn. by rewrite !bool_decide_eq_false_2 by auto.
Qed.

Lemma Observation_TrustNode_valid o :
  Observation_Validate o = Ok tt →
  TrustNode_Validate keccak256 (Observation_TrustNode keccak256 o) = Ok tt.
Proof using keccak_nonzero.
  unfold Observation_Validate. intros ([] & Hchain%map_err_Ok & [Hz _]%bind_bool)%bind_Ok.
  bool_to_prop. unfold TrustNode_Validate, Observation_TrustNode. cbn. rewrite Hchain. cbn.
  rewrite !bool_decide_eq_false_2 by auto. cbn. by rewrite bool_decide_eq_true_2.
Qed.

Lemma Validate_content o o' :
  o.(obs_Content) = o'.(obs_Content) → Observation_Validate o = Observation_Validate o'.
Proof. unfold Observation_Validate. by intros ->. Qed.

(** Identifier, evidence identifier and node depend on the content only. *)
Lemma ComputeID_content o o' :
  o.(obs_Content) = o'.(obs_Content) →
  Observation_ComputeID keccak256 o = Observation_ComputeID keccak256 o' ∧
  (SyntheticEvidence keccak256 o).(Evidence.rec_ID)
    = (SyntheticEvidence keccak256 o').(Evidence.rec_ID) ∧
  Observation_TrustNode keccak256 o = Observation_TrustNode keccak256 o'.
Proof.
  intros H. unfold Observation_TrustNode, SyntheticEvidence, Observation_ComputeID. cbn.
  by rewrite H.
Qed.
Lemma scan_observation_Ok row o :
  scan_observation keccak256 row = Ok o → row.2 = o.
Proof. destruct row as [ev o']. cbn. case_match; [done|]. by intros [= ->]. Qed.

(** A first save: the evidence becomes active, the node enters the graph. *)
Lemma insert_observation_wf o at_ db o' node b db' :
  evidence_wf keccak256 db → trust_wf keccak256 db →
  Observation_Validate o = Ok tt → o.(obs_ID) = Observation_ComputeID keccak256 o →
  o.(obs_ObservedAt) = Some at_ →
  insert_observation keccak256 o at_ db = Ok (o', node, b, db') →
  evidence_wf keccak256 db' ∧ trust_wf keccak256 db' ∧ o' = o ∧ b = true ∧
  node = Observation_TrustNode keccak256 o ∧
  db' = set_graph (set_observations (set_evidence db db'.(evidence) db'.(evidence_transitions))
          db'.(observations)) db'.(revision) db'.(trust_nodes) db'.(trust_edges)
          db'.(membership_witnesses) ∧
  (∃ ev, db'.(observations) !! o.(obs_ID) = Some (ev, o)).
Proof using keccak_nonzero.
  intros EV WT Hval Hoid Hat. unfold insert_observation.
  set (rec := SyntheticEvidence keccak256 o). set (id := Evidence.rec_ID rec).
  intros [Hc H]%bind_bool. apply orb_false_iff in Hc as [Hc _].
  apply orb_false_iff in Hc as [Hnone Hloc].
  apply bool_decide_eq_false, eq_None_not_Some in Hnone, Hloc.
  set (act := Evidence.mkRecord id _ _ _ _ _) in H.
  set (db1 := set_evidence db _ _) in H. set (db2 := set_observations db1 _) in H.
  apply bind_Ok in H as ([b3 db3] & Hm & H). apply bind_Ok in H as (db4 & Hb & [= <- <- <- <-]).
  cbn [snd] in Hb.
  assert (evidence_wf keccak256 db1) as EV1.
  { apply (evidence_insert_wf keccak256 db act); [done| |done| | |done].
    - split; [done|]. right. by apply SyntheticEvidence_id.
    - intros id' r' Hl He. pose proof (find_row_None _ _ Hloc _ _ Hl) as Hx.
      by apply bool_decide_eq_false in Hx.
    - change observation_steps with
        ((([] ++ [(Evidence.Candidate, Evidence.Verified)])
          ++ [(Evidence.Verified, Evidence.Confirmed)])
          ++ [(Evidence.Confirmed, Evidence.Active)]).
      repeat constructor. }
  assert (∀ ev, is_active db ev = true → ev ≠ id) as Hfresh.
  { intros ev (r & Hl & _)%is_active_spec ->. congruence. }
  assert (∀ ev, is_active db ev = true → is_active db2 ev = true) as Ha.
  { intros ev Hev. pose proof (Hfresh _ Hev). revert Hev. unfold is_active.
    cbn [evidence db2 db1 set_observations set_evidence]. by rewrite lookup_insert_ne. }
  destruct (trust_wf_evidence keccak256 db db2 WT) as [W2 WS2]; [done|done| |].
  { intros ev Hev Hobs. apply not_true_iff_false. intros (oid & row & Hl & He)%evidence_observed_spec.
    cbn [observations db2 db1 set_observations set_evidence] in Hl.
    apply lookup_insert_Some in Hl as [[_ <-]|[_ Hl]]; [by apply (Hfresh ev)|].
    rewrite (proj2 (evidence_observed_spec db ev)) in Hobs; [done|eauto]. }
  pose proof (Observation_TrustNode_valid o Hval) as Hnv.
  destruct (mergeTrustNode_wf _ _ _ _ _ W2 Hnv Hm) as (W3 & L3 & M3).
  destruct (mergeTrustNode_only _ _ _ _ _ W2 Hm) as (O3 & R3 & _).
  pose proof (bump_wf _ _ _ W3 Hb) as W4. apply bump_Ok in Hb as [_ ->].
  unfold graph_only in O3.
  split; [by rewrite O3; destruct EV1|].
  split; [|split_and!; [done..|by rewrite O3|rewrite O3; eexists; apply lookup_insert_eq]].
  split; [done| |].
  - apply (snapshots_wf_bump _ db); [by rewrite O3|cbn; rewrite R3; cbn; lia|apply WT].
  - assert (∀ ev, is_active db2 ev = is_active db3 ev) as Ha3 by (intros; by rewrite O3).
    intros oid ev p Hl. cbn [observations set_graph] in Hl. rewrite O3 in Hl.
    cbn [observations set_graph db2 set_observations] in Hl.
    apply lookup_insert_Some in Hl as [[<- [= <- <-]]|[_ Hl]].
    + split_and!; try done. change (is_active db3 id = true). rewrite <-Ha3.
      apply is_active_spec. exists act. split; [apply lookup_insert_eq|done].
    + destruct (t_observations _ _ WT _ _ _ Hl) as (? & ? & ? & ? & Hact & Hn).
      split_and!; try done; [|by apply M3].
      change (is_active db3 ev = true). rewrite <-Ha3. by apply Ha.
Qed.

(** What a save returns is in the database: a row with the target of the
    given observation, and its node in the graph. *)
Lemma SaveObservation_wf now given db o node b db' :
  evidence_wf keccak256 db → trust_wf keccak256 db →
  SaveObservation keccak256 now given db = Ok (o, node, b, db') →
  evidence_wf keccak256 db' ∧ trust_wf keccak256 db' ∧
  db' = set_graph (set_observations (set_evidence db db'.(evidence) db'.(evidence_transitions))
          db'.(observations)) db'.(revision) db'.(trust_nodes) db'.(trust_edges)
          db'.(membership_witnesses) ∧
  (b = false → db' = db) ∧
  sameObservationTarget o given = true ∧ node = Observation_TrustNode keccak256 o ∧
  ∃ oid ev, db'.(observations) !! oid = Some (ev, o).
Proof using keccak_nonzero.
  intros EV WT. unfold SaveObservation.
  intros ([] & Hval%map_err_Ok & H)%bind_Ok. apply bind_bool in H as [Hid H].
  apply negb_false_iff, bool_decide_eq_true in Hid. apply bind_bool in H as [_ H].
  set (obs := mkObservation _ _ _) in H.
  assert (∀ p, obs_Content p = obs_Content given → sameObservationTarget p given = true) as Hsame.
  { intros p Hp. unfold sameObservationTarget. rewrite Hp, !bool_decide_eq_true_2, Z.eqb_refl by done.
    done. }
  assert (db = set_graph (set_observations (set_evidence db db.(evidence)
    db.(evidence_transitions)) db.(observations)) db.(revision) db.(trust_nodes)
    db.(trust_edges) db.(membership_witnesses)) as Hdb by (by destruct db).
  destruct (loadTrustRootObservation keccak256 db (obs_ID obs)) as [p|[]] eqn:Hl1; try done.
  - apply bind_bool in H as [Hc H]. injection H as <- <- <- <-. apply orb_false_iff in Hc as [_ Hc].
    apply negb_false_iff, bool_decide_eq_true in Hc.
    unfold loadTrustRootObservation in Hl1. destruct (observations db !! _) as [[ev q]|] eqn:Hq;
      [|done]. apply scan_observation_Ok in Hl1. cbn in Hl1. subst q.
    split_and!; [done|apply WT..|done|done|by apply Hsame|done|eauto].
  - destruct (loadTrustRootObservationByTuple keccak256 db obs) as [p|[]] eqn:Hl2; try done.
    + apply bind_bool in H as [Hc H]. injection H as <- <- <- <-. apply negb_false_iff in Hc.
      unfold loadTrustRootObservationByTuple in Hl2.
      destruct (find_row _ _) as [[ev q]|] eqn:Hq; [|done].
      apply scan_observation_Ok in Hl2. cbn in Hl2. subst q.
      apply find_row_Some in Hq as (_ & oid & Hq).
      split_and!; [done|apply WT..|done|done|exact Hc|done|eauto].
    + apply bind_Ok in H as (live & _ & H). apply bind_bool in H as [_ H].
      apply insert_observation_wf in H as (H1 & H2 & -> & -> & -> & H4 & ev & H5); try done.
      * split_and!; [done|apply H2..|exact H4|done|by apply Hsame|done|eauto].
Qed.

Lemma insert_observation_mono o at_ db o' node b db' :
  trust_wf keccak256 db →
  insert_observation keccak256 o at_ db = Ok (o', node, b, db') →
  Observation_Validate o = Ok tt →
  (∀ id e, db.(evidence) !! id = Some e → db'.(evidence) !! id = Some e) ∧
  (∀ id n, db.(trust_nodes) !! id = Some n → db'.(trust_nodes) !! id = Some n) ∧
  db.(revision) ≤ db'.(revision).
Proof.
  intros WT. unfold insert_observation.
  set (rec := SyntheticEvidence keccak256 o). set (id := Evidence.rec_ID rec).
  intros [Hc H]%bind_bool Hval. apply orb_false_iff in Hc as [Hc _].
  apply orb_false_iff in Hc as [Hnone _].
  apply bool_decide_eq_false, eq_None_not_Some in Hnone.
  apply bind_Ok in H as ([b3 db3] & Hm & H). apply bind_Ok in H as (db4 & Hb & [= <- <- <- <-]).
  apply bump_Ok in Hb as [_ ->]. cbn [snd] in *.
  unfold mergeTrustNode in Hm. cbn [trust_nodes set_observations set_evidence] in Hm.
  assert (∀ id' e, evidence db !! id' = Some e →
    <[id:=Evidence.mkRecord id (Evidence.rec_Locator rec) Evidence.Active "" (Some at_) (Some at_)]>
      (evidence db) !! id' = Some e) as He.
  { intros id' e He. rewrite lookup_insert_ne; [done|congruence]. }
  destruct (find_row _ _) as [p|] eqn:Hf.
  - apply bind_bool in Hm as [_ Hm]. apply bind_bool in Hm as [_ Hm].
    apply bind_bool in Hm as [_ [= <- <-]]. cbn. split_and!; [exact He|done|lia].
  - apply bind_bool in Hm as [Hc [= <- <-]]. cbn. split_and!; [exact He| |lia].
    apply orb_false_iff in Hc as [Hn _]. apply bool_decide_eq_false, eq_None_not_Some in Hn.
    intros id' n Hl. rewrite lookup_insert_ne; [done|]. intros <-. revert Hn. cbn. congruence.
Qed.

Lemma SaveObservation_mono now given db o node b db' :
  trust_wf keccak256 db → SaveObservation keccak256 now given db = Ok (o, node, b, db') →
  (∀ id e, db.(evidence) !! id = Some e → db'.(evidence) !! id = Some e) ∧
  (∀ id n, db.(trust_nodes) !! id = Some n → db'.(trust_nodes) !! id = Some n) ∧
  db.(revision) ≤ db'.(revision).
Proof.
  intros WT. unfold SaveObservation. intros ([] & Hval%map_err_Ok & H)%bind_Ok.
  apply bind_bool in H as [_ H]. apply bind_bool in H as [_ H].
  destruct (loadTrustRootObservation _ _ _) as [p|[]]; try done.
  - apply bind_bool in H as [_ [= <- <- <- <-]]. by split_and!.
  - destruct (loadTrustRootObservationByTuple _ _ _) as [p|[]]; try done.
    + apply bind_bool in H as [_ [= <- <- <- <-]]. by split_and!.
    + apply bind_Ok in H as (live & _ & H). apply bind_bool in H as [_ H].
      apply insert_observation_mono in H as (He & Hn & Hr); [|done|exact Hval].
      by split_and!.
Qed.

(** Edges and witnesses stay. *)
Lemma insert_observation_edges o at_ db o' node b db' :
  insert_observation keccak256 o at_ db = Ok (o', node, b, db') →
  db'.(trust_edges) = db.(trust_edges) ∧ db'.(membership_witnesses) = db.(membership_witnesses).
Proof.
  unfold insert_observation. intros [_ H]%bind_bool.
  apply bind_Ok in H as ([b3 db3] & Hm & H). apply bind_Ok in H as (db4 & Hb & [= <- <- <- <-]).
  apply bump_Ok in Hb as [_ ->]. cbn [snd] in *. unfold mergeTrustNode in Hm.
  destruct (find_row _ _) as [p|].
  - apply bind_bool in Hm as [_ Hm]. apply bind_bool in Hm as [_ Hm].
    by apply bind_bool in Hm as [_ [= <- <-]].
  - by apply bind_bool in Hm as [_ [= <- <-]].
Qed.

Lemma SaveObservation_edges now given db o node b db' :
  SaveObservation keccak256 now given db = Ok (o, node, b, db') →
  db'.(trust_edges) = db.(trust_edges) ∧ db'.(membership_witnesses) = db.(membership_witnesses).
Proof.
  unfold SaveObservation. intros ([] & _ & H)%bind_Ok.
  apply bind_bool in H as [_ H]. apply bind_bool in H as [_ H].
  destruct (loadTrustRootObservation _ _ _) as [p|[]]; try done.
  - by apply bind_bool in H as [_ [= <- <- <- <-]].
  - destruct (loadTrustRootObservationByTuple _ _ _) as [p|[]]; try done.
    + by apply bind_bool in H as [_ [= <- <- <- <-]].
    + apply bind_Ok in H as (live & _ & H). apply bind_bool in H as [_ H].
      by apply insert_observation_edges in H.
Qed.
End ObservationLemmas.


(** ** Lemmas: snapshots *)

Lemma snapshot_node_valid keccak256 n :
  TrustNode_Validate keccak256 (snapshot_node n) = TrustNode_Validate keccak256 n.
Proof. done. Qed.

Lemma sorted_map_snapshot l :
  StronglySorted (key_lt (λ n : TrustNode, n.(node_ID))) l →
  StronglySorted (key_lt (λ n : TrustNode, n.(node_ID))) (map snapshot_node l).
Proof.
  induction 1 as [|n l Hs IH Hn]; cbn; constructor; [done|].
  apply Forall_map. eapply Forall_impl; [exact Hn|]. done.
Qed.

Lemma snapshot_graph_consistent keccak256 nodes edges :
  consistent_graph keccak256 nodes edges →
  consistent_graph keccak256 (map snapshot_node nodes) edges.
Proof.
  intros (H1 & H2 & H3 & H4 & H5). split; [|split; [done|split; [|split; [done|]]]].
  - by apply Forall_map.
  - intros n m (n' & -> & Hn)%list_elem_of_fmap (m' & -> & Hm)%list_elem_of_fmap He.
    by rewrite (H3 n' m').
  - intros e (f & t & Hf & Ht & ? & ? & ?)%H5. exists (snapshot_node f), (snapshot_node t).
    split_and!; try done; by apply list_elem_of_fmap_2.
Qed.

Section SnapshotLemmas.
Context (keccak256 : bytes → Hash) (db : DB) (WT : trust_wf keccak256 db).

Let W : graph_wf keccak256 db := t_graph _ _ WT.

Lemma has_active_node id n :
  db.(trust_nodes) !! id = Some n →
  existsb (λ n, n.(node_ID) =?= id) (map snapshot_node (active_nodes db)) = true.
Proof using WT.
  intros Hl. destruct (g_node _ _ W _ _ Hl) as (<- & _). apply existsb_exists.
  exists (snapshot_node n). split; [|by apply bool_decide_eq_true].
  apply in_map, list_elem_of_In. by apply (elem_of_active_nodes keccak256).
Qed.

(** The foreign keys never stop a snapshot. *)
Lemma snapshot_edges_allowed :
  forallb (snapshot_edge_allowed db (map snapshot_node (active_nodes db))) (active_edges db)
  = true.
Proof using WT.
  apply forallb_forall. intros e (e0 & Hl & ->)%list_elem_of_In%(elem_of_active_edges keccak256);
    [|done].
  destruct (g_edge _ _ W _ _ _ Hl) as (_ & Hid & _ & _ & _ & _ & _ & f & t & Hf & Ht & _).
  unfold snapshot_edge_allowed. cbn. rewrite (has_active_node _ _ Hf), (has_active_node _ _ Ht).
  cbn. destruct (membership_witnesses db !! edge_EvidenceID e0) as [w|] eqn:Hw; [|done].
  destruct (g_witness _ _ W _ _ Hw) as (_ & _ & id & e & He & Hev & Hleaf).
  assert (id = edge_ID e0) as -> by (by eapply (g_evidence _ _ W _ _ (e, true) (e0, true))).
  apply Z.eqb_eq. cbn in Hl. congruence.
Qed.

Lemma materialize_Ok request id start target s db' rid attempt :
  db.(trust_nodes) !! request.(sr_StartNodeID) = Some start →
  db.(trust_nodes) !! request.(sr_TargetNodeID) = Some target →
  start.(node_Key).(key_ChainID) = request.(sr_HomeChainID) →
  start.(node_Root) = request.(sr_ExpectedHomeTrustRoot) →
  request.(sr_StartNodeID) ≠ request.(sr_TargetNodeID) →
  0 ≤ attempt ≤ MaxInt64 →
  id = ComputeSnapshotID keccak256 rid attempt db.(revision) request.(sr_StartNodeID)
         request.(sr_TargetNodeID) request.(sr_ExpectedHomeTrustRoot) →
  materialize request id db = Ok (s, db') →
  db' = set_snapshots db (<[id := s]> db.(snapshots)) ∧
  s = mkSnapshot id db.(revision) request.(sr_HomeChainID) request.(sr_ExpectedHomeTrustRoot)
        request.(sr_StartNodeID) request.(sr_TargetNodeID) true
        (map snapshot_node (active_nodes db)) (active_edges db) ∧
  snapshot_ok keccak256 db s.
Proof using WT.
  intros Hs Ht Hc Hr Hne Hat Hid. unfold materialize. rewrite snapshot_edges_allowed.
  rewrite (has_active_node _ _ Hs), (has_active_node _ _ Ht). cbn. intros [= <- <-].
  split; [done|]. split; [done|].
  destruct (g_node _ _ W _ _ Hs) as (Hsid & _). destruct (g_node _ _ W _ _ Ht) as (Htid & _).
  pose proof (g_revision _ _ W).
  split; cbn; try done.
  - lia.
  - eauto.
  - by apply snapshot_graph_consistent, active_graph_consistent.
  - by eapply sorted_map_snapshot, active_nodes_sorted.
  - by eapply active_edges_sorted.
  - intros e He. apply (elem_of_active_edges keccak256) in He as (e0 & Hl & ->); [|done]. cbn.
    by destruct (g_edge _ _ W _ _ _ Hl) as (_ & _ & _ & _ & _ & _ & ? & _).
  - exists (snapshot_node start). split_and!; try done.
    apply list_elem_of_fmap_2, (elem_of_active_nodes keccak256); [done|]. by rewrite Hsid.
  - exists (snapshot_node target). split; [|done].
    apply list_elem_of_fmap_2, (elem_of_active_nodes keccak256); [done|]. by rewrite Htid.
Qed.
End SnapshotLemmas.

(** The snapshot of the live graph that a request asks for. *)
Definition live_snapshot (keccak256 : bytes → Hash) (request : TrustViewSnapshotRequest) (db : DB)
    : TrustViewSnapshot :=
  mkSnapshot
    (ComputeSnapshotID keccak256 request.(sr_RequestID) request.(sr_Attempt) db.(revision)
       request.(sr_StartNodeID) request.(sr_TargetNodeID) request.(sr_ExpectedHomeTrustRoot))
    db.(revision) request.(sr_HomeChainID) request.(sr_ExpectedHomeTrustRoot)
    request.(sr_StartNodeID) request.(sr_TargetNodeID) true
    (map snapshot_node (active_nodes db)) (active_edges db).

(** Keccak takes the encoding of the request and another snapshot encoding to
    the same identifier. *)
Definition snapshot_collision (keccak256 : bytes → Hash) (request : TrustViewSnapshotRequest)
    (db : DB) : Prop :=
  let asked := snapshot_encoding request.(sr_RequestID) request.(sr_Attempt) db.(revision)
    request.(sr_StartNodeID) request.(sr_TargetNodeID) request.(sr_ExpectedHomeTrustRoot) in
  ∃ s rid attempt, db.(snapshots) !! keccak256 asked = Some s ∧
    let stored := snapshot_encoding rid attempt s.(snap_Revision) s.(StartNodeID)
      s.(TargetNodeID) s.(HomeTrustRoot) in
    asked ≠ stored ∧ keccak256 asked = keccak256 stored.

Lemma existing_snapshot_live keccak256 db request start s :
  trust_wf keccak256 db → 0 ≤ request.(sr_Attempt) ≤ MaxInt64 →
  db.(trust_nodes) !! request.(sr_StartNodeID) = Some start →
  start.(node_Key).(key_ChainID) = request.(sr_HomeChainID) →
  db.(snapshots) !! (live_snapshot keccak256 request db).(snap_ID) = Some s →
  s = live_snapshot keccak256 request db ∨ snapshot_collision keccak256 request db.
Proof.
  intros WT Hat Hstart Hchain Hl. pose proof (g_revision _ _ (t_graph _ _ WT)) as Hrev.
  destruct (t_snapshots _ _ WT _ _ Hl) as [Hid OK].
  destruct (so_binding _ _ _ OK) as (rid & attempt & Hat' & Hbind).
  pose proof (so_revision _ _ _ OK) as Hsr. unfold MaxInt64 in *.
  destruct (decide (snapshot_encoding request.(sr_RequestID) request.(sr_Attempt) db.(revision)
    request.(sr_StartNodeID) request.(sr_TargetNodeID) request.(sr_ExpectedHomeTrustRoot)
    = snapshot_encoding rid attempt s.(snap_Revision) s.(StartNodeID) s.(TargetNodeID)
        s.(HomeTrustRoot))) as [He|Hne].
  - left. apply snapshot_encoding_inj in He as (_ & _ & Hr & Hs & Ht & Hh);
      [|unfold u64, MaxUint64; lia..].
    destruct (so_current _ _ _ OK (eq_sym Hr)) as [Hn Hed].
    destruct (so_start _ _ _ OK) as (n & Hin & Hnid & Hnc & _).
    assert (s.(HomeChainID) = request.(sr_HomeChainID)) as Hhome.
    { rewrite Hn in Hin. apply list_elem_of_fmap in Hin as (n' & -> & Hin).
      apply (elem_of_active_nodes keccak256) in Hin; [|apply WT].
      cbn in Hnid, Hnc. rewrite Hnid, <-Hs in Hin. congruence. }
    pose proof (so_sealed _ _ _ OK) as Hsealed. unfold live_snapshot in *. cbn in Hid, Hl.
    destruct s; cbn in *. congruence.
  - right. exists s, rid, attempt. split; [exact Hl|]. split; [done|].
    change (ComputeSnapshotID keccak256 rid attempt s.(snap_Revision) s.(StartNodeID)
      s.(TargetNodeID) s.(HomeTrustRoot)) with
      (keccak256 (snapshot_encoding rid attempt s.(snap_Revision) s.(StartNodeID)
      s.(TargetNodeID) s.(HomeTrustRoot))) in Hbind. rewrite <-Hbind, Hid. done.
Qed.

Lemma CreateTrustViewSnapshot_sound keccak256 db request s db' :
  trust_wf keccak256 db → 0 ≤ request.(sr_Attempt) →
  CreateTrustViewSnapshot keccak256 request db = Ok (s, db') →
  trust_wf keccak256 db' ∧
  (db' = db ∨ (db.(snapshots) !! s.(snap_ID) = None ∧
               db' = set_snapshots db (<[s.(snap_ID) := s]> db.(snapshots)))) ∧
  db'.(snapshots) !! s.(snap_ID) = Some s ∧
  s.(snap_ID) = (live_snapshot keccak256 request db).(snap_ID) ∧
  (s = live_snapshot keccak256 request db ∨ snapshot_collision keccak256 request db).
Proof.
  intros WT Hat0. unfold CreateTrustViewSnapshot. intros [Hat H]%bind_bool.
  apply Z.ltb_ge in Hat. apply bind_bool in H as [Hne H]. apply bool_decide_eq_false in Hne.
  apply bind_Ok in H as (r & Hr & H). apply bind_bool in H as [_ H].
  apply bind_Ok in H as (start & Hs%loadActiveTrustNode_Ok & H).
  apply bind_Ok in H as (target & Ht%loadActiveTrustNode_Ok & H).
  apply bind_bool in H as [Hroot H]. apply orb_false_iff in Hroot as [Hch Hroot].
  apply negb_false_iff, bool_decide_eq_true in Hch, Hroot. apply bind_bool in H as [_ H].
  fold (live_snapshot keccak256 request db) in H.
  set (id := ComputeSnapshotID _ _ _ _ _ _ _) in H. unfold loadSnapshot in H.
  destruct (snapshots db !! id) as [e|] eqn:Hl.
  - injection H as <- <-. destruct (t_snapshots _ _ WT _ _ Hl) as [Hid _].
    split; [done|]. split; [by left|]. rewrite Hid. split; [done|]. split; [done|].
    by eapply existing_snapshot_live.
  - eapply (materialize_Ok keccak256 db WT _ id start target _ _ (sr_RequestID request)
      (sr_Attempt request)) in H as (-> & Hsn & OK); try done.
    assert (s = live_snapshot keccak256 request db) as Hlive by exact Hsn.
    assert (s.(snap_ID) = id) as Hsid by (by rewrite Hlive). rewrite Hsid. cbn.
    split; [|rewrite lookup_insert_eq; by auto 10].
    destruct WT as [W WS WO].
    assert (graph_wf keccak256 (set_snapshots db (<[id:=s]> (snapshots db)))) as W' by (by destruct W).
    split; [done| |done]. intros id' s'. cbn [snapshots set_snapshots]. intros [[<- <-]|[Hn Hs']]%lookup_insert_Some.
    + split; [done|]. by destruct OK.
    + destruct (WS _ _ Hs') as [? []]. by split.
Qed.

(** What the store seals, the planner accepts. *)
Lemma check_stored_snapshot {RE : Type} keccak256 db (request : Planner.Request) s :
  snapshot_ok keccak256 db s →
  request.(Planner.req_SnapshotID) = s.(snap_ID) →
  request.(Planner.req_HomeChainID) = s.(HomeChainID) →
  s.(snap_ID) = ComputeSnapshotID keccak256 request.(Planner.req_ID)
    request.(Planner.req_Attempt) s.(snap_Revision) s.(StartNodeID) s.(TargetNodeID)
    s.(HomeTrustRoot) →
  @Planner.check_snapshot RE keccak256 request s = Ok tt.
Proof.
  intros [] Hid Hhome Hbind. unfold Planner.check_snapshot, Planner.snapshotHasNode.
  assert (∀ id, (∃ n, n ∈ snap_Nodes s ∧ node_ID n = id) →
    ∃ n, Planner.findSnapshotNode s id = Some n ∧ n ∈ snap_Nodes s ∧ node_ID n = id) as Hfind.
  { intros id (n & Hin & He). unfold Planner.findSnapshotNode.
    destruct (list_find _ (snap_Nodes s)) as [[j m]|] eqn:Hf.
    - apply list_find_Some in Hf as (Hm & Hmid & _). exists m.
      split; [done|]. split; [by eapply list_elem_of_lookup_2|done].
    - apply list_find_None in Hf. rewrite Forall_forall in Hf. by destruct (Hf _ Hin). }
  destruct so_start0 as (sn & Hsn & Hsid & Hsc & Hsr).
  destruct (Hfind s.(StartNodeID)) as (f & Hf & Hfin & Hfid); [eauto|].
  destruct (Hfind s.(TargetNodeID)) as (t & Ht & _ & _); [done|].
  assert (f = sn) as -> by (destruct so_consistent0 as (_ & _ & Hu & _); apply Hu; congruence).
  rewrite so_sealed0, Hid, Hhome, <-Hbind, Hf, Ht. cbn.
  rewrite !bool_decide_eq_true_2, (bool_decide_eq_false_2 (_ = _)) by done. cbn.
  assert (NewTrustView keccak256 s.(snap_Revision) s.(snap_Nodes) s.(snap_Edges)
    = Ok (mkTrustView s.(snap_Revision) s.(snap_Nodes) s.(snap_Edges))) as ->.
  { apply NewTrustView_iff. split; [done|]. split; [done|]. by split_and!. }
  cbn. rewrite !Z.eqb_refl. cbn. by rewrite Hsc, Hsr, !bool_decide_eq_true_2.
Qed.

End GraphStore.
