(* ===== verification/PlanStore.v ===== *)
(** * Mapnode/store: plans

    plan_repository.go over the tables of [Store.DB].  A plan row holds its
    hops in order, so the stored hop count is their number.  The repository is
    an instance of the planner's interface [Planner.PlanRepository]. *)

From S2P Require Import Prelude Domain Evidence TrustView Registry Reorg Planner PathProof.
From S2P Require Import Coordinator Store GraphStore.
Import Domain TrustView Planner Store GraphStore.

Module PlanStore.

#[local] Existing Instances TrustView.TrustNode_eq_dec TrustView.TrustEdge_eq_dec
  Planner.Plan_eq_dec.

(** ** Operations *)

Definition cost_overflows (value : option Z) : bool :=
  match value with Some v => MaxInt64 <? v | None => false end.

(** The errors of this function are distinguished by their messages only. *)
Definition validatePlanForStorage (plan : Plan) : bool :=
  if (plan.(plan_ID) =?= zero32) || (plan.(plan_RequestID) =?= zero32)
     || (plan.(plan_SnapshotID) =?= zero32) || (plan.(plan_HomeNodeID) =?= zero32)
     || (plan.(plan_TargetNodeID) =?= zero32) || (plan.(plan_ProfileID) =?= "") then false
  else if (MaxInt64 <? plan.(plan_Attempt)) || (MaxInt64 <? plan.(plan_PathStepCost)) then false
  else if existsb cost_overflows [plan.(plan_PathCost); plan.(plan_DirectCost)] then false
  else if
    (if 0 <? zlen plan.(plan_Hops) then
       (plan.(plan_PathStepCost) =? 0)
       || match plan.(plan_PathCost) with
          | None => true
          | Some cost =>
              (MaxUint64 / plan.(plan_PathStepCost) <? zlen plan.(plan_Hops))
              || negb (cost =? zlen plan.(plan_Hops) * plan.(plan_PathStepCost))
          end
     else bool_decide (is_Some plan.(plan_PathCost)) || negb (plan.(plan_PathStepCost) =? 0))
  then false
  else if plan.(plan_Type) =?= PathPlan then
    negb ((zlen plan.(plan_Hops) =? 0) || negb (bool_decide (is_Some plan.(plan_PathCost)))
          || negb (bool_decide (is_Some plan.(plan_DirectCost)))
          || (plan.(plan_FallbackReason) ≠?= ""))
  else if plan.(plan_Type) =?= DirectPlan then plan.(plan_FallbackReason) ≠?= ""
  else false.

Definition sameOptionalCost (left right : option Z) : bool :=
  match left, right with
  | None, None => true
  | Some l, Some r => l =? r
  | _, _ => false
  end.

Definition samePlanDecision (left right : Plan) : bool :=
  if (left.(plan_ID) ≠?= right.(plan_ID)) || (left.(plan_RequestID) ≠?= right.(plan_RequestID))
     || negb (left.(plan_Attempt) =? right.(plan_Attempt))
     || (left.(plan_SnapshotID) ≠?= right.(plan_SnapshotID))
     || (left.(plan_ProfileID) ≠?= right.(plan_ProfileID))
     || (left.(plan_ProfileFingerprint) ≠?= right.(plan_ProfileFingerprint))
     || (left.(plan_Type) ≠?= right.(plan_Type))
     || (left.(plan_HomeNodeID) ≠?= right.(plan_HomeNodeID))
     || (left.(plan_TargetNodeID) ≠?= right.(plan_TargetNodeID))
     || negb (left.(plan_PathStepCost) =? right.(plan_PathStepCost))
     || (left.(plan_FallbackReason) ≠?= right.(plan_FallbackReason))
     || negb (sameOptionalCost left.(plan_PathCost) right.(plan_PathCost))
     || negb (sameOptionalCost left.(plan_DirectCost) right.(plan_DirectCost))
     || negb (zlen left.(plan_Hops) =? zlen right.(plan_Hops))
  then false
  else forallb (λ i, left.(plan_Hops) !! i =?= right.(plan_Hops) !! i)
         (seq 0 (length left.(plan_Hops))).

Definition with_created (plan : Plan) (at_ : Z) : Plan :=
  mkPlan plan.(plan_ID) plan.(plan_RequestID) plan.(plan_Attempt) plan.(plan_SnapshotID)
    plan.(plan_ProfileID) plan.(plan_ProfileFingerprint) plan.(plan_Type)
    plan.(plan_HomeNodeID) plan.(plan_TargetNodeID) plan.(plan_Hops) plan.(plan_PathStepCost)
    plan.(plan_PathCost) plan.(plan_DirectCost) plan.(plan_FallbackReason) (Some at_).

(** Foreign keys and CHECKs of [plans] and [plan_hops] that the validation
    above leaves open. *)
Definition plan_row_allowed (db : DB) (plan : Plan) (createdAt : Z) : bool :=
  (0 <? createdAt) && bool_decide (is_Some (db.(requests) !! plan.(plan_RequestID)))
  && match db.(snapshots) !! plan.(plan_SnapshotID) with
     | None => false
     | Some snapshot =>
         existsb (λ n, n.(node_ID) =?= plan.(plan_HomeNodeID)) snapshot.(snap_Nodes)
         && existsb (λ n, n.(node_ID) =?= plan.(plan_TargetNodeID)) snapshot.(snap_Nodes)
         && forallb (λ hop, existsb (λ e, e.(edge_ID) =?= hop) snapshot.(snap_Edges))
              plan.(plan_Hops)
     end.

(** [SELECT ... FROM request_current_plan c JOIN plans p ...] *)
Definition current_row (db : DB) (requestID : RequestID) : option Plan :=
  match db.(current_plan) !! requestID with
  | Some id => db.(plans) !! id
  | None => None
  end.

Definition bind_current (plan : Plan) (db : DB) : DB :=
  set_plans db db.(plans) (<[plan.(plan_RequestID) := plan.(plan_ID)]> db.(current_plan)).

Section Hashing.
Context (keccak256 : bytes → Hash).

Definition loadPlan (db : DB) (id : PlanID) : res error Plan :=
  match db.(plans) !! id with
  | None => Err ErrPlanNotFound
  | Some plan =>
      if plan.(plan_ID) ≠?= ComputePlanID keccak256 plan then Err ErrPlanIDMismatch else Ok plan
  end.

Definition LoadCurrentPlan (db : DB) (requestID : RequestID) : res error Plan :=
  match db.(current_plan) !! requestID with
  | None => Err ErrPlanNotFound
  | Some id => loadPlan db id
  end.

Definition validatePlanSnapshotBinding (db : DB) (plan : Plan) : res error unit :=
  match db.(snapshots) !! plan.(plan_SnapshotID) with
  | None => Err ErrRecordNotFound
  | Some snapshot =>
      if negb snapshot.(Sealed) then Err ErrSnapshotUnsealed
      else
        let expected := ComputeSnapshotID keccak256 plan.(plan_RequestID) plan.(plan_Attempt)
          snapshot.(snap_Revision) snapshot.(StartNodeID) snapshot.(TargetNodeID)
          snapshot.(HomeTrustRoot) in
        if (expected ≠?= plan.(plan_SnapshotID))
           || (snapshot.(StartNodeID) ≠?= plan.(plan_HomeNodeID))
           || (snapshot.(TargetNodeID) ≠?= plan.(plan_TargetNodeID))
        then Err ErrSnapshotEndpoint else Ok tt
  end.

(** From [validatePlanSnapshotBinding] on. *)
Definition insert_plan (now : Z) (plan : Plan) (db : DB) : res error DB :=
  _ ← validatePlanSnapshotBinding db plan;
  match loadPlan db plan.(plan_ID) with
  | Ok persisted =>
      if negb (samePlanDecision persisted plan) then Err ErrRecordConflict
      else Ok (bind_current plan db)
  | Err ErrPlanNotFound =>
      match find_row db.(plans) (λ p, (p.(plan_RequestID) =?= plan.(plan_RequestID))
                                      && (p.(plan_Attempt) =? plan.(plan_Attempt))) with
      | Some _ => Err ErrRecordConflict
      | None =>
          let createdAt := default now plan.(plan_CreatedAt) in
          if negb (plan_row_allowed db plan createdAt) then Err ErrConstraint
          else Ok (bind_current plan
                     (set_plans db (<[plan.(plan_ID) := with_created plan createdAt]>
                                      db.(plans)) db.(current_plan)))
      end
  | Err e => Err e
  end.

Definition SavePlan (now : Z) (plan : Plan) (db : DB) : res error DB :=
  if plan.(plan_ID) ≠?= ComputePlanID keccak256 plan then Err ErrPlanIDMismatch
  else if negb (validatePlanForStorage plan) then Err ErrPlanFields
  else
    match current_row db plan.(plan_RequestID) with
    | Some current =>
        if plan.(plan_Attempt) <? current.(plan_Attempt) then Err ErrStalePlanningAttempt
        else if plan.(plan_Attempt) =? current.(plan_Attempt) then
          if current.(plan_ID) ≠?= plan.(plan_ID) then Err ErrRecordConflict
          else
            persisted ← loadPlan db plan.(plan_ID);
            if negb (samePlanDecision persisted plan) then Err ErrRecordConflict else Ok db
        else insert_plan now plan db
    | None => insert_plan now plan db
    end.
End Hashing.

(** ** What the plan tables promise *)

Definition plan_row_ok (keccak256 : bytes → Hash) (db : DB) (p : Plan) : Prop :=
  p.(plan_ID) = ComputePlanID keccak256 p ∧ validatePlanForStorage p = true ∧
  is_Some (db.(requests) !! p.(plan_RequestID)) ∧ is_Some p.(plan_CreatedAt) ∧
  ∃ s, db.(snapshots) !! p.(plan_SnapshotID) = Some s ∧ s.(Sealed) = true ∧
    p.(plan_SnapshotID) = ComputeSnapshotID keccak256 p.(plan_RequestID) p.(plan_Attempt)
      s.(snap_Revision) s.(StartNodeID) s.(TargetNodeID) s.(HomeTrustRoot) ∧
    s.(StartNodeID) = p.(plan_HomeNodeID) ∧ s.(TargetNodeID) = p.(plan_TargetNodeID) ∧
    ∀ hop, hop ∈ p.(plan_Hops) → ∃ e, e ∈ s.(snap_Edges) ∧ e.(edge_ID) = hop.

(** Plans are content-addressed and bound to their sealed snapshots; a request
    has one plan per attempt, and its current plan is that of its latest
    attempt. *)
Record plans_wf (keccak256 : bytes → Hash) (db : DB) : Prop := {
  p_row id p : db.(plans) !! id = Some p → p.(plan_ID) = id ∧ plan_row_ok keccak256 db p;
  p_attempt id1 id2 p1 p2 :
    db.(plans) !! id1 = Some p1 → db.(plans) !! id2 = Some p2 →
    p1.(plan_RequestID) = p2.(plan_RequestID) → p1.(plan_Attempt) = p2.(plan_Attempt) → id1 = id2;
  p_current r id : db.(current_plan) !! r = Some id →
    ∃ p, db.(plans) !! id = Some p ∧ p.(plan_RequestID) = r ∧
      ∀ id' q, db.(plans) !! id' = Some q → q.(plan_RequestID) = r →
        q.(plan_Attempt) ≤ p.(plan_Attempt);
  p_bound id p : db.(plans) !! id = Some p → is_Some (db.(current_plan) !! p.(plan_RequestID))
}.

(** ** Lemmas *)

Lemma sameOptionalCost_eq l r : sameOptionalCost l r = true ↔ l = r.
Proof. destruct l, r; cbn; try done. rewrite Z.eqb_eq. naive_solver. Qed.

Lemma samePlanDecision_eq l r : samePlanDecision l r = true ↔ same_decision l r.
Proof.
  unfold samePlanDecision, same_decision. split.
  - case_match eqn:Hc; [done|]. intros Hf. bool_to_prop.
    rewrite ?sameOptionalCost_eq in *. unfold zlen in *.
    apply PathProof.lookup_forallb_eq in Hf; [|lia]. destruct l, r; cbn in *; by subst.
  - intros ->. cbn. rewrite !bool_decide_eq_true_2, !Z.eqb_refl by done. cbn.
    rewrite !(proj2 (sameOptionalCost_eq _ _)) by done. cbn.
    apply forallb_forall. intros i _. by apply bool_decide_eq_true.
Qed.

Lemma loadPlan_Ok keccak256 db id p :
  loadPlan keccak256 db id = Ok p →
  db.(plans) !! id = Some p ∧ p.(plan_ID) = ComputePlanID keccak256 p.
Proof.
  unfold loadPlan. destruct (plans db !! id) as [q|]; [|done]. intros [Hc [= ->]]%bind_bool.
  by apply negb_false_iff, bool_decide_eq_true in Hc.
Qed.

Lemma loadPlan_None keccak256 db id :
  loadPlan keccak256 db id = Err ErrPlanNotFound → db.(plans) !! id = None.
Proof. unfold loadPlan. destruct (plans db !! id); [by case_match|done]. Qed.

Lemma with_created_same p at_ : same_decision (with_created p at_) p.
Proof. done. Qed.

Lemma ComputePlanID_same keccak256 p q :
  same_decision p q → ComputePlanID keccak256 p = ComputePlanID keccak256 q.
Proof. by intros ->. Qed.

Lemma validate_same p q :
  same_decision p q → validatePlanForStorage p = validatePlanForStorage q.
Proof. by intros ->. Qed.

(** A database differs in the plan tables only. *)
Definition plans_only (db db' : DB) : Prop :=
  db' = set_plans db db'.(plans) db'.(current_plan).

(** The two ways [SavePlan] succeeds: the decision is already current, or it is
    recorded and bound. *)
Lemma insert_plan_Ok keccak256 now plan db db' :
  plan.(plan_ID) = ComputePlanID keccak256 plan →
  insert_plan keccak256 now plan db = Ok db' →
  validatePlanSnapshotBinding keccak256 db plan = Ok tt ∧
  ((∃ p, db.(plans) !! plan.(plan_ID) = Some p ∧ same_decision p plan ∧
      db' = bind_current plan db) ∨
   (db.(plans) !! plan.(plan_ID) = None ∧
    (∀ id q, db.(plans) !! id = Some q → q.(plan_RequestID) = plan.(plan_RequestID) →
       q.(plan_Attempt) ≠ plan.(plan_Attempt)) ∧
    ∃ at_, plan_row_allowed db plan at_ = true ∧
      db' = bind_current plan
              (set_plans db (<[plan.(plan_ID) := with_created plan at_]> db.(plans))
                 db.(current_plan)))).
Proof.
  intros Hid. unfold insert_plan. intros ([] & Hb & H)%bind_Ok. split; [done|].
  destruct (loadPlan keccak256 db (plan_ID plan)) as [p|[]] eqn:Hl; try done.
  - apply bind_bool in H as [Hs [= <-]]. apply negb_false_iff, samePlanDecision_eq in Hs.
    apply loadPlan_Ok in Hl as [Hl _]. left. eauto.
  - right. apply loadPlan_None in Hl. split; [done|].
    destruct (find_row _ _) eqn:Hf; [done|]. apply bind_bool in H as [Ha [= <-]].
    apply negb_false_iff in Ha. split; [|eauto].
    intros id q Hq Hr Hat. pose proof (find_row_None _ _ Hf _ _ Hq) as Hx. cbn in Hx.
    rewrite Hr, Hat, bool_decide_eq_true_2, Z.eqb_refl in Hx; done.
Qed.

Lemma SavePlan_Ok keccak256 now plan db db' :
  SavePlan keccak256 now plan db = Ok db' →
  plan.(plan_ID) = ComputePlanID keccak256 plan ∧ validatePlanForStorage plan = true ∧
  ((db' = db ∧ current_row db plan.(plan_RequestID) ≠ None ∧
    ∃ p c, current_row db plan.(plan_RequestID) = Some c ∧ c.(plan_ID) = plan.(plan_ID) ∧
      c.(plan_Attempt) = plan.(plan_Attempt) ∧
      db.(plans) !! plan.(plan_ID) = Some p ∧ same_decision p plan) ∨
   ((∀ c, current_row db plan.(plan_RequestID) = Some c → c.(plan_Attempt) < plan.(plan_Attempt)) ∧
    insert_plan keccak256 now plan db = Ok db')).
Proof.
  unfold SavePlan. intros [Hid H]%bind_bool. apply negb_false_iff, bool_decide_eq_true in Hid.
  apply bind_bool in H as [Hv H]. apply negb_false_iff in Hv. split; [done|]. split; [done|].
  destruct (current_row db (plan_RequestID plan)) as [c|] eqn:Hc; [|right; naive_solver].
  apply bind_bool in H as [Hlt H]. apply Z.ltb_ge in Hlt.
  destruct (Z.eqb_spec plan.(plan_Attempt) c.(plan_Attempt)) as [He|Hne].
  - apply bind_bool in H as [Hci H]. apply negb_false_iff, bool_decide_eq_true in Hci.
    apply bind_Ok in H as (p & Hp & H). apply bind_bool in H as [Hs [= <-]].
    apply negb_false_iff, samePlanDecision_eq in Hs. apply loadPlan_Ok in Hp as [Hp _].
    left. split; [done|]. split; [done|]. exists p, c. by split_and!.
  - right. split; [|done]. intros c' [= <-]. lia.
Qed.

(** The law of [Planner.PlanRepository], on any database. *)
Lemma SavePlan_load keccak256 now plan db db' :
  SavePlan keccak256 now plan db = Ok db' →
  ∃ p, loadPlan keccak256 db' plan.(plan_ID) = Ok p ∧ same_decision p plan.
Proof.
  intros (Hid & _ & Hcases)%SavePlan_Ok.
  assert (∀ d p, plans d !! plan_ID plan = Some p → same_decision p plan →
    loadPlan keccak256 d (plan_ID plan) = Ok p) as Hload.
  { intros d p Hp Hs. unfold loadPlan. rewrite Hp.
    rewrite (ComputePlanID_same keccak256 _ _ Hs), <-Hid.
    by rewrite bool_decide_eq_true_2 by (by rewrite Hs). }
  destruct Hcases as [(-> & _ & p & c & _ & _ & _ & Hp & Hs)|[_ Hi]]; [by eauto|].
  apply insert_plan_Ok in Hi as [_ [(p & Hp & Hs & ->)|(Hn & _ & at_ & _ & ->)]]; [|..|done].
  - eauto.
  - exists (with_created plan at_). split; [|apply with_created_same].
    apply Hload; [|apply with_created_same]. cbn. apply lookup_insert_eq.
Qed.

Lemma binding_Ok keccak256 db plan :
  validatePlanSnapshotBinding keccak256 db plan = Ok tt →
  ∃ s, db.(snapshots) !! plan.(plan_SnapshotID) = Some s ∧ s.(Sealed) = true ∧
    plan.(plan_SnapshotID) = ComputeSnapshotID keccak256 plan.(plan_RequestID)
      plan.(plan_Attempt) s.(snap_Revision) s.(StartNodeID) s.(TargetNodeID) s.(HomeTrustRoot) ∧
    s.(StartNodeID) = plan.(plan_HomeNodeID) ∧ s.(TargetNodeID) = plan.(plan_TargetNodeID).
Proof.
  unfold validatePlanSnapshotBinding. destruct (snapshots db !! _) as [s|]; [|done].
  intros [Hs [H _]%bind_bool]%bind_bool. apply negb_false_iff in Hs. exists s.
  bool_to_prop. by split_and!.
Qed.

Lemma row_allowed_spec keccak256 db plan at_ :
  plan.(plan_ID) = ComputePlanID keccak256 plan → validatePlanForStorage plan = true →
  validatePlanSnapshotBinding keccak256 db plan = Ok tt → plan_row_allowed db plan at_ = true →
  plan_row_ok keccak256 db (with_created plan at_).
Proof.
  intros Hid Hv (s & Hs & Hsealed & Hbind & Hst & Htg)%binding_Ok Ha.
  unfold plan_row_allowed in Ha. rewrite Hs in Ha. apply andb_true_iff in Ha as [Ha He].
  apply andb_true_iff in Ha as [_ Hr]. apply bool_decide_eq_true in Hr.
  apply andb_true_iff in He as [_ He]. rewrite forallb_forall in He.
  split; [done|]. split; [done|]. split; [done|]. split; [done|]. exists s.
  split_and!; try done. intros hop Hin%list_elem_of_In%He%existsb_exists.
  destruct Hin as (e & Hin & Heq%bool_decide_eq_true). exists e. by rewrite list_elem_of_In.
Qed.

Lemma current_row_Some keccak256 db r id p :
  plans_wf keccak256 db → db.(current_plan) !! r = Some id → db.(plans) !! id = Some p →
  current_row db r = Some p.
Proof. unfold current_row. by intros _ -> ->. Qed.

(** What is recorded stays; the new plan becomes current. *)
Lemma SavePlan_wf keccak256 now plan db db' :
  plans_wf keccak256 db → SavePlan keccak256 now plan db = Ok db' →
  plans_wf keccak256 db' ∧ plans_only db db' ∧
  db'.(current_plan) !! plan.(plan_RequestID) = Some plan.(plan_ID) ∧
  (∃ p, db'.(plans) !! plan.(plan_ID) = Some p ∧ same_decision p plan) ∧
  (∀ id q, db.(plans) !! id = Some q → db'.(plans) !! id = Some q) ∧
  (∀ r, r ≠ plan.(plan_RequestID) → db'.(current_plan) !! r = db.(current_plan) !! r).
Proof.
  intros W (Hid & Hv & Hcases)%SavePlan_Ok.
  destruct Hcases as [(-> & _ & p & c & Hc & Hci & _ & Hp & Hs)|[Hlater Hi]].
  { split; [done|]. split; [by destruct db|]. unfold current_row in Hc.
    destruct (current_plan db !! _) as [id|] eqn:Hcur; [|done].
    destruct (p_row _ _ W _ _ Hc) as [<- _]. rewrite <-Hci in *. split_and!; eauto. }
  apply insert_plan_Ok in Hi as [Hbind [(p & Hp & Hs & ->)|(Hn & Hfresh & at_ & Ha & ->)]]; [| |done].
  { exfalso. destruct (p_bound _ _ W _ _ Hp) as [id Hcur].
    assert (plan_RequestID p = plan_RequestID plan) as Hr by (by rewrite Hs).
    assert (plan_Attempt p = plan_Attempt plan) as Hat by (by rewrite Hs).
    rewrite Hr in Hcur. destruct (p_current _ _ W _ _ Hcur) as (c & Hc & Hcr & Hmax).
    specialize (Hlater c (current_row_Some _ _ _ _ _ W Hcur Hc)).
    specialize (Hmax _ _ Hp Hr). lia. }
  pose proof (row_allowed_spec _ _ _ _ Hid Hv Hbind Ha) as Hrow.
  split; [|split_and!; [done|by cbn; rewrite lookup_insert_eq
    |exists (with_created plan at_); split; [by cbn; rewrite lookup_insert_eq|done]
    |intros id q Hq; cbn; rewrite lookup_insert_ne; [done|congruence]
    |intros r Hr; cbn; by rewrite lookup_insert_ne]].
  destruct W as [W1 W2 W3 W4].
  split; cbn [plans current_plan bind_current set_plans].
  - intros id p [[<- <-]|[Hne Hl]]%lookup_insert_Some; [done|by apply W1].
  - intros id1 id2 p1 p2 H1 H2 Hr Hat.
    apply lookup_insert_Some in H1 as [[<- <-]|[Hn1 H1]];
      apply lookup_insert_Some in H2 as [[<- <-]|[Hn2 H2]]; try done; [| |by eapply W2].
    + by destruct (Hfresh _ _ H2).
    + by destruct (Hfresh _ _ H1).
  - intros r id [[<- <-]|[Hne Hl]]%lookup_insert_Some.
    + exists (with_created plan at_). rewrite lookup_insert_eq. split; [done|]. split; [done|].
      intros id' q [[<- <-]|[Hne Hq]]%lookup_insert_Some Hr; [done|]. cbn.
      destruct (W4 _ _ Hq) as [id Hcur]. rewrite Hr in Hcur.
      destruct (W3 _ _ Hcur) as (c & Hc & _ & Hmax). specialize (Hmax _ _ Hq Hr).
      specialize (Hlater c). unfold current_row in Hlater. rewrite Hcur in Hlater.
      specialize (Hlater Hc). lia.
    + destruct (W3 _ _ Hl) as (p & Hp & Hpr & Hmax). exists p.
      rewrite lookup_insert_ne by congruence. split; [done|]. split; [done|].
      intros id' q [[<- <-]|[Hne' Hq]]%lookup_insert_Some Hr; [by destruct Hne|by eapply Hmax].
  - intros id p [[<- <-]|[Hne Hl]]%lookup_insert_Some; cbn.
    + by rewrite lookup_insert_eq.
    + apply lookup_insert_is_Some'. right. by eapply W4.
Qed.

(** Tables the plans refer to only grow. *)
Lemma plans_wf_mono keccak256 db db' :
  db'.(plans) = db.(plans) → db'.(current_plan) = db.(current_plan) →
  (∀ id, is_Some (db.(requests) !! id) → is_Some (db'.(requests) !! id)) →
  (∀ id s, db.(snapshots) !! id = Some s → db'.(snapshots) !! id = Some s) →
  plans_wf keccak256 db → plans_wf keccak256 db'.
Proof.
  intros Hp Hc Hr Hs [W1 W2 W3 W4]. split; rewrite ?Hp, ?Hc; try done.
  intros id p Hl. destruct (W1 _ _ Hl) as (? & ? & ? & ? & ? & s & ? & ?).
  split; [done|]. split; [done|]. split; [done|]. split; [auto|]. split; [done|]. exists s. auto.
Qed.

Lemma empty_plans_wf keccak256 : plans_wf keccak256 empty_db.
Proof. by split. Qed.

End PlanStore.
