(* ===== verification/ProofStore.v ===== *)
(** * Mapnode/store: PathProofs

    path_proof_repository.go over the tables of [Store.DB]; an instance of the
    builder's interface [PathProof.ProofRepository] is in System.v. *)

From S2P Require Import Prelude Domain Merkle Evidence TrustView Registry Reorg Planner.
From S2P Require Import PathProof Coordinator Store GraphStore PlanStore.
Import Domain TrustView Planner PathProof Store GraphStore PlanStore.

Module ProofStore.

#[local] Existing Instances TrustView.TrustNode_eq_dec TrustView.TrustEdge_eq_dec
  PathProof.PathProofHop_eq_dec.

(** ** Operations *)

(** A row of [snapshot_nodes]; [None] is [sql.ErrNoRows]. *)
Definition loadSnapshotNode (db : DB) (snapshotID : SnapshotID) (nodeID : NodeID)
    : option TrustNode :=
  match db.(snapshots) !! snapshotID with
  | Some snapshot => findSnapshotNode snapshot nodeID
  | None => None
  end.

Definition loadWitnessSiblings (db : DB) (id : WitnessID) : list Hash :=
  match find_row db.(membership_witnesses) (λ w, w.(witness_ID) =?= id) with
  | Some w => w.(witness_Siblings)
  | None => []
  end.

(** [plan_hops JOIN snapshot_edges] at one hop of one plan. *)
Definition hop_edge (db : DB) (planID : PlanID) (snapshotID : SnapshotID) (planHopIndex : Z)
    (edgeID : EdgeID) : option TrustEdge :=
  match db.(plans) !! planID, db.(snapshots) !! snapshotID with
  | Some plan, Some snapshot =>
      if (plan.(plan_SnapshotID) =?= snapshotID)
         && (plan.(plan_Hops) !! Z.to_nat planHopIndex =?= Some edgeID)
      then List.find (λ e, e.(edge_ID) =?= edgeID) snapshot.(snap_Edges)
      else None
  | _, _ => None
  end.

Definition sameHashes (left right : list Hash) : bool :=
  (zlen left =? zlen right)
  && forallb (λ i, left !! i =?= right !! i) (seq 0 (length left)).

Section Hashing.
Context (keccak256 : bytes → Hash).

Definition loadPathProofMaterial (db : DB) (planID : PlanID) (snapshotID : SnapshotID)
    (planHopIndex : Z) (edgeID : EdgeID) : res error PathProofMaterial :=
  if planHopIndex <? 0 then Err Store.ErrProofMaterialMissing
  else
    match hop_edge db planID snapshotID planHopIndex edgeID with
    | None => Err Store.ErrProofMaterialMissing
    | Some edge =>
        match edge.(edge_WitnessID) with
        | None => Err ErrColumnLength
        | Some witnessID =>
            let siblings := loadWitnessSiblings db witnessID in
            if zlen siblings =? 0 then Err Store.ErrProofMaterialMissing
            else
              match loadSnapshotNode db snapshotID edge.(edge_From),
                    loadSnapshotNode db snapshotID edge.(edge_To) with
              | Some fromNode, Some toNode =>
                  let witness := mkMembershipWitness witnessID edge.(edge_EvidenceID)
                                   edge.(edge_LeafIndex) siblings in
                  let wantWitness := NewMembershipWitness keccak256 edge.(edge_EvidenceID)
                                       edge.(edge_LeafIndex) siblings in
                  if wantWitness.(witness_ID) ≠?= witnessID
                  then Err Store.ErrProofMaterialMissing
                  else Ok (mkMaterial planID snapshotID planHopIndex
                             (mkTrustEdge edgeID edge.(edge_From) edge.(edge_To)
                                edge.(edge_EvidenceID) edge.(edge_LeafIndex) (Some witnessID)
                                edge.(PathStepCost))
                             fromNode toNode witness)
              | _, _ => Err Store.ErrProofMaterialMissing
              end
        end
    end.

(** The loop of [SavePathProof] from hop [index] on; [total] is the number
    of hops. *)
Fixpoint check_hops (db : DB) (plan : Plan) (planID : PlanID) (snapshotID : SnapshotID)
    (total index : Z) (hops : list PathProofHop) (hashes : list Hash)
    (witnesses : list Domain.MembershipWitness) : res error unit :=
  match hops, hashes, witnesses with
  | hop :: hops', hash :: hashes', witness :: witnesses' =>
      let wantPlanIndex := total - 1 - index in
      if negb (hop.(hop_PlanHopIndex) =? wantPlanIndex)
         || (Some hop.(hop_EdgeID) ≠?= plan.(plan_Hops) !! Z.to_nat wantPlanIndex)
         || (hop.(hop_BlockHash) ≠?= hash) || (hop.(hop_ToNodeID) =?= zero32)
      then Err Store.ErrProofMaterialMissing
      else
        material ← loadPathProofMaterial db planID snapshotID wantPlanIndex hop.(hop_EdgeID);
        if (material.(mat_ToNode).(node_ID) ≠?= hop.(hop_ToNodeID))
           || (material.(mat_ToNode).(node_Key).(key_BlockHash) ≠?= hop.(hop_BlockHash))
           || (material.(mat_Witness).(witness_ID) ≠?= hop.(hop_WitnessID))
           || negb (material.(mat_Witness).(witness_LeafIndex) =? witness.(LeafIndex))
           || negb (sameHashes material.(mat_Witness).(witness_Siblings) witness.(Siblings))
        then Err Store.ErrProofMaterialMissing
        else check_hops db plan planID snapshotID total (index + 1) hops' hashes' witnesses'
  | _, _, _ => Ok tt
  end.

(** The loop of [loadPathProof]. *)
Fixpoint load_hops (db : DB) (plan : Plan) (row : ProofRow) (index : Z)
    (hops : list PathProofHop) : res error (list Hash * list Domain.MembershipWitness) :=
  match hops with
  | [] => Ok ([], [])
  | hop :: rest =>
      let wantPlanIndex := zlen plan.(plan_Hops) - 1 - index in
      if negb (hop.(hop_PlanHopIndex) =? wantPlanIndex)
         || (Some hop.(hop_EdgeID) ≠?= plan.(plan_Hops) !! Z.to_nat wantPlanIndex)
      then Err Store.ErrProofMaterialMissing
      else
        material ← loadPathProofMaterial db row.(row_PlanID) row.(row_SnapshotID)
                     hop.(hop_PlanHopIndex) hop.(hop_EdgeID);
        if (material.(mat_Witness).(witness_ID) ≠?= hop.(hop_WitnessID))
           || (material.(mat_ToNode).(node_ID) ≠?= hop.(hop_ToNodeID))
           || (material.(mat_ToNode).(node_Key).(key_BlockHash) ≠?= hop.(hop_BlockHash))
        then Err Store.ErrProofMaterialMissing
        else
          witness ← map_err (λ _, Store.ErrProofMaterialMissing)
                      (Domain.NewMembershipWitness material.(mat_Witness).(witness_LeafIndex)
                         material.(mat_Witness).(witness_Siblings));
          '(hashes, witnesses) ← load_hops db plan row (index + 1) rest;
          Ok (hop.(hop_BlockHash) :: hashes, witness :: witnesses)
  end.

(** Loading the plan of a proof: a missing plan is missing material. *)
Definition loadProofPlan (db : DB) (id : PlanID) : res error Plan :=
  map_err (λ e, match e with ErrPlanNotFound => Store.ErrProofMaterialMissing | e => e end)
    (loadPlan keccak256 db id).

Definition loadPathProof (db : DB) (id : PathProofID) : res error PathProof :=
  match db.(proofs) !! id with
  | None => Err ErrPathProofNotFound
  | Some row =>
      plan ← loadProofPlan db row.(row_PlanID);
      if (plan.(plan_Type) ≠?= PathPlan) || (plan.(plan_RequestID) ≠?= row.(row_RequestID))
         || (plan.(plan_SnapshotID) ≠?= row.(row_SnapshotID)) || (zlen row.(row_Hops) =? 0)
         || negb (zlen row.(row_Hops) =? zlen plan.(plan_Hops))
      then Err Store.ErrProofMaterialMissing
      else
        match loadSnapshotNode db row.(row_SnapshotID) plan.(plan_TargetNodeID) with
        | None => Err Store.ErrProofMaterialMissing
        | Some target =>
            if target.(node_Root) ≠?= row.(row_BaseTrustRoot)
            then Err Store.ErrProofMaterialMissing
            else
              '(hashes, witnesses) ← load_hops db plan row 0 row.(row_Hops);
              let result := mkPathProof row.(row_ProofID) row.(row_RequestID) row.(row_PlanID)
                row.(row_SnapshotID) row.(row_BaseTrustRoot) hashes witnesses row.(row_Hops)
                (Some row.(row_CreatedAt)) in
              if result.(proof_ID) ≠?= ComputePathProofID keccak256 result
              then Err Store.ErrPathProofIDMismatch else Ok result
        end
  end.

Definition LoadPathProofForPlan (db : DB) (planID : PlanID) : res error PathProof :=
  match find_row db.(proofs) (λ row, row.(row_PlanID) =?= planID) with
  | None => Err ErrPathProofNotFound
  | Some row => loadPathProof db row.(row_ProofID)
  end.

Definition SavePathProof (now : Z) (value : PathProof) (db : DB) : res error DB :=
  if (value.(proof_ID) =?= zero32)
     || (value.(proof_ID) ≠?= ComputePathProofID keccak256 value)
  then Err Store.ErrPathProofIDMismatch
  else if (zlen value.(proof_Hops) =? 0)
          || negb (zlen value.(proof_Hops) =? zlen value.(BlockHashes))
          || negb (zlen value.(proof_Hops) =? zlen value.(Witnesses))
  then Err Store.ErrProofMaterialMissing
  else
    plan ← loadProofPlan db value.(proof_PlanID);
    if (plan.(plan_Type) ≠?= PathPlan) || (plan.(plan_RequestID) ≠?= value.(proof_RequestID))
       || (plan.(plan_SnapshotID) ≠?= value.(proof_SnapshotID))
       || negb (zlen plan.(plan_Hops) =? zlen value.(proof_Hops))
    then Err Store.ErrProofMaterialMissing
    else
      match loadSnapshotNode db value.(proof_SnapshotID) plan.(plan_TargetNodeID) with
      | None => Err Store.ErrProofMaterialMissing
      | Some target =>
          if target.(node_Root) ≠?= value.(BaseTrustRoot)
          then Err Store.ErrProofMaterialMissing
          else
            _ ← check_hops db plan value.(proof_PlanID) value.(proof_SnapshotID)
                  (zlen value.(proof_Hops)) 0 value.(proof_Hops) value.(BlockHashes)
                  value.(Witnesses);
            match loadPathProof db value.(proof_ID) with
            | Ok existing =>
                if (existing.(proof_ID) ≠?= value.(proof_ID))
                   || (ComputePathProofID keccak256 existing ≠?= value.(proof_ID))
                then Err Store.ErrPathProofIDMismatch else Ok db
            | Err ErrPathProofNotFound =>
                let createdAt := default now value.(proof_CreatedAt) in
                if negb (0 <? createdAt)
                   || bool_decide (is_Some (find_row db.(proofs)
                        (λ row, row.(row_PlanID) =?= value.(proof_PlanID))))
                then Err ErrConstraint
                else Ok (set_proofs db
                           (<[value.(proof_ID) :=
                                mkProofRow value.(proof_ID) value.(proof_RequestID)
                                  value.(proof_PlanID) value.(proof_SnapshotID)
                                  value.(BaseTrustRoot) createdAt value.(proof_Hops)]>
                              db.(proofs)))
            | Err e => Err e
            end
      end.
End Hashing.

(** ** Lemmas *)

Lemma sameHashes_eq l k : sameHashes l k = true → l = k.
Proof.
  unfold sameHashes, zlen. intros [Hl Hf]%andb_true_iff. apply Z.eqb_eq in Hl.
  apply PathProof.lookup_forallb_eq; [lia|done].
Qed.

(** The value of [domain.MembershipWitness] is one its constructor made. *)
Definition built_witness (w : Domain.MembershipWitness) : Prop :=
  Domain.NewMembershipWitness w.(LeafIndex) w.(Siblings) = Ok w.

Section Roundtrip.
Context (keccak256 : bytes → Hash).

(** What the checks of [SavePathProof] accept, [loadPathProof] rebuilds. *)
Lemma check_hops_load db plan row total hops : ∀ index hashes ws,
  check_hops keccak256 db plan row.(row_PlanID) row.(row_SnapshotID) total index hops hashes ws
    = Ok tt →
  total = zlen plan.(plan_Hops) → length hops = length hashes → length hops = length ws →
  Forall built_witness ws →
  load_hops keccak256 db plan row index hops = Ok (hashes, ws).
Proof.
  induction hops as [|hop hops IH]; intros index [|hash hashes] [|w ws] H Ht Hh Hw Hb; try done.
  cbn [check_hops load_hops] in *. apply bind_bool in H as [Hc1 H].
  apply bind_Ok in H as (m & Hm & H). apply bind_bool in H as [Hc2 H].
  apply orb_false_iff in Hc1 as [Hc1 _]. apply orb_false_iff in Hc1 as [Hc1 Hbh].
  apply orb_false_iff in Hc2 as [Hc2 Hsib]. apply orb_false_iff in Hc2 as [Hc2 Hleaf].
  apply orb_false_iff in Hc2 as [Hc2 Hwid]. apply orb_false_iff in Hc2 as [Hnid Hnbh].
  rewrite Ht in Hc1. rewrite Hc1. apply orb_false_iff in Hc1 as [Hidx _].
  apply negb_false_iff, Z.eqb_eq in Hidx. rewrite Hidx, <-Ht, Hm. cbn -[load_hops Domain.NewMembershipWitness zlen].
  rewrite Hwid, Hnid, Hnbh. cbn [orb]. apply negb_false_iff, Z.eqb_eq in Hleaf.
  apply negb_false_iff, sameHashes_eq in Hsib. rewrite Hleaf, Hsib.
  apply Forall_cons in Hb as [Hb Hbs]. unfold built_witness in Hb. rewrite Hb. cbn -[load_hops zlen].
  rewrite (IH (index + 1) hashes ws); [|done|done|by injection Hh|by injection Hw|done].
  cbn. apply negb_false_iff, bool_decide_eq_true in Hbh. by rewrite Hbh.
Qed.
End Roundtrip.

(** ** What the proof table promises *)

(** A proof belongs to a stored PathPlan, which has no other proof. *)
Record proofs_wf (db : DB) : Prop := {
  pr_row id row : db.(proofs) !! id = Some row →
    row.(row_ProofID) = id ∧
    ∃ plan, db.(plans) !! row.(row_PlanID) = Some plan ∧ plan.(plan_Type) = PathPlan ∧
      plan.(plan_RequestID) = row.(row_RequestID) ∧
      plan.(plan_SnapshotID) = row.(row_SnapshotID) ∧
      zlen plan.(plan_Hops) = zlen row.(row_Hops);
  pr_plan id1 id2 row1 row2 :
    db.(proofs) !! id1 = Some row1 → db.(proofs) !! id2 = Some row2 →
    row1.(row_PlanID) = row2.(row_PlanID) → id1 = id2
}.

Definition proof_row (value : PathProof) (at_ : Z) : ProofRow :=
  mkProofRow value.(proof_ID) value.(proof_RequestID) value.(proof_PlanID)
    value.(proof_SnapshotID) value.(BaseTrustRoot) at_ value.(proof_Hops).

Section Saving.
Context (keccak256 : bytes → Hash).

(** The errors a load can meet below the row lookup. *)
Lemma loadPathProofMaterial_error db planID sid index edgeID e :
  loadPathProofMaterial keccak256 db planID sid index edgeID = Err e →
  e = Store.ErrProofMaterialMissing ∨ e = ErrColumnLength.
Proof. unfold loadPathProofMaterial. intros H. repeat case_match; simplify_eq; auto. Qed.

Lemma load_hops_error db plan row hops : ∀ index e,
  load_hops keccak256 db plan row index hops = Err e →
  e = Store.ErrProofMaterialMissing ∨ e = ErrColumnLength.
Proof.
  induction hops as [|hop hops IH]; intros index e H; [done|]. cbn [load_hops] in H.
  destruct (_ || _); [simplify_eq; auto|].
  destruct (loadPathProofMaterial _ _ _ _ _ _) as [m|e'] eqn:Hm; cbn in H;
    [|simplify_eq; by eapply loadPathProofMaterial_error].
  destruct (_ || _); [simplify_eq; auto|].
  destruct (Domain.NewMembershipWitness _ _) as [w|]; cbn in H; [|simplify_eq; auto].
  destruct (load_hops _ _ _ _ _ _) as [[hs ws]|e'] eqn:Hl; cbn in H; simplify_eq.
  by eapply IH.
Qed.

(** Everything a save has checked about the plan. *)
Definition proof_checked (db : DB) (value : PathProof) (plan : Plan) : Prop :=
  loadProofPlan keccak256 db value.(proof_PlanID) = Ok plan ∧
  plan.(plan_Type) = PathPlan ∧ plan.(plan_RequestID) = value.(proof_RequestID) ∧
  plan.(plan_SnapshotID) = value.(proof_SnapshotID) ∧
  zlen plan.(plan_Hops) = zlen value.(proof_Hops) ∧ zlen value.(proof_Hops) ≠ 0 ∧
  zlen value.(proof_Hops) = zlen value.(BlockHashes) ∧
  zlen value.(proof_Hops) = zlen value.(Witnesses) ∧
  (∃ target, loadSnapshotNode db value.(proof_SnapshotID) plan.(plan_TargetNodeID) = Some target ∧
     target.(node_Root) = value.(BaseTrustRoot)) ∧
  check_hops keccak256 db plan value.(proof_PlanID) value.(proof_SnapshotID)
    (zlen value.(proof_Hops)) 0 value.(proof_Hops) value.(BlockHashes) value.(Witnesses) = Ok tt.

Lemma SavePathProof_Ok now value db db' :
  SavePathProof keccak256 now value db = Ok db' →
  value.(proof_ID) = ComputePathProofID keccak256 value ∧
  ∃ plan, proof_checked db value plan ∧
    ((db' = db ∧ ∃ existing, loadPathProof keccak256 db value.(proof_ID) = Ok existing ∧
        existing.(proof_ID) = value.(proof_ID)) ∨
     (db.(proofs) !! value.(proof_ID) = None ∧
      (∀ id row, db.(proofs) !! id = Some row → row.(row_PlanID) ≠ value.(proof_PlanID)) ∧
      ∃ at_, db' = set_proofs db (<[value.(proof_ID) := proof_row value at_]> db.(proofs)))).
Proof.
  unfold SavePathProof. intros [Hid H]%bind_bool. apply bind_bool in H as [Hlen H].
  apply bind_Ok in H as (plan & Hplan & H). apply bind_bool in H as [Hp H].
  destruct (loadSnapshotNode db _ _) as [target|] eqn:Ht; [|done].
  apply bind_bool in H as [Hroot H]. apply bind_Ok in H as ([] & Hck & H). bool_to_prop.
  split; [done|]. exists plan. split; [unfold proof_checked; split_and!; try done; eauto|].
  destruct (loadPathProof keccak256 db (proof_ID value)) as [ex|[]] eqn:Hl; try done.
  - apply bind_bool in H as [Hex [= <-]]. bool_to_prop. left. eauto.
  - apply bind_bool in H as [Hc [= <-]]. apply orb_false_iff in Hc as [_ Hc].
    apply bool_decide_eq_false, eq_None_not_Some in Hc. right. split; [|split; [|by eexists]].
    + unfold loadPathProof in Hl. destruct (proofs db !! _) as [row|]; [|done].
      exfalso. revert Hl. unfold loadProofPlan, loadPlan.
      destruct (plans db !! _) as [p|]; [|done]. destruct (_ ≠?= _); [done|]. cbn.
      destruct (_ || _ || _ || _ || _); [done|].
      destruct (loadSnapshotNode db (row_SnapshotID row) (plan_TargetNodeID p)) as [tn|]; [|done].
      destruct (node_Root tn =?= row_BaseTrustRoot row); cbn; [|done].
      destruct (load_hops _ _ _ _ _ _) as [[hs ws]|e] eqn:Hlh; cbn; [by case_match|].
      intros [= ->]. by apply load_hops_error in Hlh as [?|?].
    + intros id row Hr Hpl. pose proof (find_row_None _ _ Hc _ _ Hr) as Hx.
      by apply bool_decide_eq_false in Hx.
Qed.
Lemma check_hops_frame db m plan planID sid total hops : ∀ index hashes ws,
  check_hops keccak256 (set_proofs db m) plan planID sid total index hops hashes ws
  = check_hops keccak256 db plan planID sid total index hops hashes ws.
Proof.
  induction hops as [|hop hops IH]; intros index [|hash hashes] [|w ws]; try done.
  cbn [check_hops]. change (loadPathProofMaterial keccak256 (set_proofs db m)) with
    (loadPathProofMaterial keccak256 db).
  destruct (_ || _); [done|]. destruct (loadPathProofMaterial _ _ _ _ _ _); [|done].
  cbn. destruct (_ || _); [done|apply IH].
Qed.

(** A proof saved for the first time is read back as it is. *)
Lemma SavePathProof_roundtrip now value db db' :
  SavePathProof keccak256 now value db = Ok db' → db.(proofs) !! value.(proof_ID) = None →
  Forall built_witness value.(Witnesses) →
  ∃ at_, loadPathProof keccak256 db' value.(proof_ID) = Ok (set_created value (Some at_)).
Proof.
  intros (Hid & plan & Hck & Hcases)%SavePathProof_Ok Hnone Hb.
  destruct Hcases as [(-> & ex & Hex & _)|(_ & _ & at_ & ->)].
  { unfold loadPathProof in Hex. by rewrite Hnone in Hex. }
  exists at_. destruct Hck as (Hplan & Ht & Hr & Hs & Hlen & Hne & Hbh & Hw & (t & Htg & Hroot) & Hch).
  unfold loadPathProof. cbn [proofs set_proofs]. rewrite lookup_insert_eq.
  cbn [proof_row row_PlanID row_RequestID row_SnapshotID row_Hops row_BaseTrustRoot row_ProofID
       row_CreatedAt].
  change (loadProofPlan keccak256 (set_proofs db _) ?p) with (loadProofPlan keccak256 db p).
  rewrite Hplan. cbn -[zlen load_hops bool_decide loadSnapshotNode ComputePathProofID].
  rewrite Ht, Hr, Hs, Hlen, Z.eqb_refl, !bool_decide_eq_true_2 by done.
  rewrite (proj2 (Z.eqb_neq _ _)) by done.
  cbn -[zlen load_hops bool_decide loadSnapshotNode ComputePathProofID].
  change (loadSnapshotNode (set_proofs db _) ?a ?b) with (loadSnapshotNode db a b).
  rewrite Htg, Hroot, bool_decide_eq_true_2 by done.
  cbn -[zlen load_hops bool_decide ComputePathProofID].
  rewrite (check_hops_load keccak256 _ plan (proof_row value at_) (zlen (proof_Hops value)) _ 0
    (BlockHashes value) (Witnesses value)); [|by rewrite check_hops_frame|done|unfold zlen in *; lia..|done].
  cbn -[bool_decide ComputePathProofID].
  change (ComputePathProofID keccak256 (mkPathProof _ _ _ _ _ _ _ _ _))
    with (ComputePathProofID keccak256 value).
  by rewrite <-Hid, bool_decide_eq_true_2.
Qed.

Lemma SavePathProof_wf now value db db' :
  proofs_wf db → SavePathProof keccak256 now value db = Ok db' →
  proofs_wf db' ∧ db' = set_proofs db db'.(proofs).
Proof.
  intros W (Hid & plan & Hck & Hcases)%SavePathProof_Ok.
  destruct Hcases as [(-> & _)|(Hnone & Hplan & at_ & ->)]; [split; [done|by destruct db]|].
  split; [|done]. destruct W as [W1 W2].
  destruct Hck as (Hp & Ht & Hr & Hs & Hlen & _).
  split; cbn [proofs set_proofs].
  - intros id row [[<- <-]|[Hne Hl]]%lookup_insert_Some; [|by apply W1].
    split; [done|]. exists plan. cbn. split_and!; try done.
    unfold loadProofPlan in Hp. by apply map_err_Ok, loadPlan_Ok in Hp as [? _].
  - intros id1 id2 row1 row2 H1 H2 He.
    apply lookup_insert_Some in H1 as [[<- <-]|[Hn1 H1]];
      apply lookup_insert_Some in H2 as [[<- <-]|[Hn2 H2]]; try done; [| |by eapply W2].
    + by destruct (Hplan _ _ H2).
    + by destruct (Hplan _ _ H1).
Qed.
End Saving.

Lemma proofs_wf_mono db db' :
  db'.(proofs) = db.(proofs) →
  (∀ id p, db.(plans) !! id = Some p → db'.(plans) !! id = Some p) →
  proofs_wf db → proofs_wf db'.
Proof.
  intros Hp Hm [W1 W2]. split; rewrite Hp; [|done].
  intros id row Hl. destruct (W1 _ _ Hl) as (? & plan & ? & ?). split; [done|]. exists plan. auto.
Qed.

End ProofStore.
