(* ===== verification/LiveStore.v ===== *)
(** * Live chains and canonical cursors

    chain_registry.go ([chain.Registry], the catalog of a process),
    live_chain_repository.go and canonical_cursor_repository.go over the tables
    of [Store.DB].

    Parsing a URL ([url.ParseRequestURI]) is a parameter: [http_url s] is true
    when the string parses as an absolute http or https URL with a host. *)

From S2P Require Import Prelude Domain TrustView Registry Reorg Planner PathProof Coordinator.
From S2P Require Import Store GraphStore.
Import Domain Store GraphStore.
From Stdlib Require Import Strings.Byte.

Module LiveStore.

#[local] Existing Instances Store.LiveChain_eq_dec.

(** ** Strings *)

(** The first code point is white space. *)
Definition leading_space (l : bytes) : bool :=
  match l with
  | (x09 | x0a | x0b | x0c | x0d | x20) :: _ => true
  | xc2 :: (x85 | xa0) :: _ => true
  | xe1 :: x9a :: x80 :: _ => true
  | xe2 :: x80 :: (x80 | x81 | x82 | x83 | x84 | x85 | x86 | x87 | x88 | x89 | x8a
                   | xa8 | xa9 | xaf) :: _ => true
  | xe2 :: x81 :: x9f :: _ => true
  | xe3 :: x80 :: x80 :: _ => true
  | _ => false
  end.

(** The last code point is white space, on the reversed bytes. *)
Definition trailing_space (reversed : bytes) : bool :=
  match reversed with
  | (x09 | x0a | x0b | x0c | x0d | x20) :: _ => true
  | (x85 | xa0) :: xc2 :: _ => true
  | x80 :: x9a :: xe1 :: _ => true
  | (x80 | x81 | x82 | x83 | x84 | x85 | x86 | x87 | x88 | x89 | x8a
     | xa8 | xa9 | xaf) :: x80 :: xe2 :: _ => true
  | x9f :: x81 :: xe2 :: _ => true
  | x80 :: x80 :: xe3 :: _ => true
  | _ => false
  end.

(** [strings.TrimSpace(s) == s] *)
Definition trimmed (s : string) : bool :=
  negb (leading_space (bytes_of_string s)) && negb (trailing_space (reverse (bytes_of_string s))).

(** SQLite's [length(s) > 0]: characters before the first NUL. *)
Definition sql_nonempty (s : string) : bool :=
  match bytes_of_string s with [] => false | x00 :: _ => false | _ => true end.

(** SQLite's [trim(s) = s] strips the ASCII space only. *)
Definition sql_trimmed (s : string) : bool :=
  match bytes_of_string s, reverse (bytes_of_string s) with
  | x20 :: _, _ => false
  | _, x20 :: _ => false
  | _, _ => true
  end.

(** ** The catalog (chain_registry.go) *)

Inductive catalog_error :=
| ErrEmptyCatalog
| ErrZeroChain
| ErrChainName
| ErrChainRPC
| ErrChainFields
| ErrDuplicateChainID
| ErrDuplicateName
| ErrHomeCount.

Record Catalog := mkCatalog {
  byID : gmap ChainID LiveChain;
  byName : gmap string ChainID;
  cat_home : ChainID
}.

Section Catalogs.
Context (http_url : string → bool).

Definition validateChain (item : LiveChain) : res catalog_error unit :=
  _ ← map_err (λ _, ErrZeroChain) (ChainID_Validate item.(lc_ChainID));
  if (item.(lc_Name) =?= "") || negb (trimmed item.(lc_Name)) then Err ErrChainName
  else if negb (http_url item.(lc_HTTPRPC)) then Err ErrChainRPC
  else if (item.(lc_Confirmations) =? 0) || blank item.(lc_DeploymentManifest)
  then Err ErrChainFields else Ok tt.

Fixpoint catalog_loop (chains : list LiveChain) (registry : Catalog) (homeCount : Z)
    : res catalog_error (Catalog * Z) :=
  match chains with
  | [] => Ok (registry, homeCount)
  | item :: rest =>
      _ ← validateChain item;
      if bool_decide (is_Some (registry.(byID) !! item.(lc_ChainID)))
      then Err ErrDuplicateChainID
      else if bool_decide (is_Some (registry.(byName) !! item.(lc_Name)))
      then Err ErrDuplicateName
      else
        let registry' :=
          mkCatalog (<[item.(lc_ChainID) := item]> registry.(byID))
            (<[item.(lc_Name) := item.(lc_ChainID)]> registry.(byName))
            (if item.(lc_Home) then item.(lc_ChainID) else registry.(cat_home)) in
        catalog_loop rest registry' (if item.(lc_Home) then homeCount + 1 else homeCount)
  end.

Definition NewRegistry (chains : list LiveChain) : res catalog_error Catalog :=
  if zlen chains =? 0 then Err ErrEmptyCatalog
  else
    out ← catalog_loop chains (mkCatalog ∅ ∅ zero32) 0;
    if negb (out.2 =? 1) then Err ErrHomeCount else Ok out.1.
End Catalogs.

Definition catalog_HomeChain (registry : Catalog) : option LiveChain :=
  registry.(byID) !! registry.(cat_home).

Definition catalog_Chain (registry : Catalog) (id : ChainID) : option LiveChain :=
  registry.(byID) !! id.

Definition Named (registry : Catalog) (name : string) : option LiveChain :=
  match registry.(byName) !! name with
  | Some id => catalog_Chain registry id
  | None => None
  end.

(** [sort.Slice] by name; names are distinct. *)
Definition All (registry : Catalog) : list LiveChain :=
  sort_by (λ item, bytes_of_string item.(lc_Name)) (map_values registry.(byID)).

(** ** The live chains of the database *)

(** CHECKs of [live_chains]. *)
Definition chain_row_allowed (item : LiveChain) : bool :=
  sql_nonempty item.(lc_Name) && sql_trimmed item.(lc_Name) && sql_nonempty item.(lc_HTTPRPC)
  && (0 <? item.(lc_Confirmations)) && sql_nonempty item.(lc_DeploymentManifest).

(** A row without a deployment: NULL columns load as zero values. *)
Definition unbound_row (item : LiveChain) : ValidatedLiveChain :=
  mkValidated item zero_address zero32 zero32 None.

Definition sync_one (item : LiveChain) (rows : gmap ChainID ValidatedLiveChain)
    : res error (gmap ChainID ValidatedLiveChain) :=
  if MaxInt64 <? item.(lc_Confirmations) then Err ErrRange
  else if negb (chain_row_allowed item) then Err ErrConstraint
  else
    match rows !! item.(lc_ChainID) with
    | Some persisted =>
        if persisted.(vlc_Chain) ≠?= item then Err ErrRecordConflict else Ok rows
    | None =>
        match find_row rows (λ r, r.(vlc_Chain).(lc_Name) =?= item.(lc_Name)) with
        | Some _ => Err ErrConstraint
        | None => Ok (<[item.(lc_ChainID) := unbound_row item]> rows)
        end
    end.

Fixpoint sync_loop (entries : list LiveChain) (rows : gmap ChainID ValidatedLiveChain)
    : res error (gmap ChainID ValidatedLiveChain) :=
  match entries with
  | [] => Ok rows
  | item :: rest => rows' ← sync_one item rows; sync_loop rest rows'
  end.

Definition home_rows (rows : gmap ChainID ValidatedLiveChain) : Z :=
  zlen (List.filter (λ r, r.(vlc_Chain).(lc_Home)) (map_values rows)).

Definition Sync (registry : Catalog) (db : DB) : res error DB :=
  let entries := All registry in
  rows ← sync_loop entries db.(live_chains);
  if negb (zlen (map_values rows) =? zlen entries) || negb (home_rows rows =? 1)
  then Err ErrRecordConflict
  else Ok (set_chains db rows db.(canonical_cursors)).

Record GatewayDeployment := mkDeployment {
  gd_ChainID : ChainID;
  gd_Address : Address;
  gd_CodeHash : Hash
}.

Definition BindDeployment (now : Z) (deployment : GatewayDeployment) (block : BlockHeight)
    (db : DB) : res error DB :=
  if (deployment.(gd_Address) =?= zero_address) || (deployment.(gd_CodeHash) =?= zero32)
  then Err ErrIncompleteDeployment
  else
    match db.(live_chains) !! deployment.(gd_ChainID) with
    | None => Err ErrRecordNotFound
    | Some row =>
        match row.(vlc_ValidatedAt) with
        | None =>
            if negb (0 <? now) then Err ErrConstraint
            else Ok (set_chains db
                       (<[deployment.(gd_ChainID) :=
                            mkValidated row.(vlc_Chain) deployment.(gd_Address)
                              deployment.(gd_CodeHash) block (Some now)]> db.(live_chains))
                       db.(canonical_cursors))
        | Some _ =>
            if (row.(vlc_Gateway) ≠?= deployment.(gd_Address))
               || (row.(vlc_GatewayCodeHash) ≠?= deployment.(gd_CodeHash))
               || (row.(vlc_DeploymentBlock) ≠?= block)
            then Err ErrRecordConflict else Ok db
        end
    end.

(** ** Canonical cursors of the database *)

Import Reorg.

Definition LoadCursor (db : DB) (id : ChainID) : res Store.error CanonicalCursor :=
  match db.(canonical_cursors) !! id with Some c => Ok c | None => Err ErrRecordNotFound end.

Definition put_cursor (cursor : CanonicalCursor) (db : DB) : DB :=
  set_chains db db.(live_chains)
    (<[cursor.(cursor_ChainID) := cursor]> db.(canonical_cursors)).

Definition Initialize (cursor : CanonicalCursor) (db : DB)
    : res Store.error (CanonicalCursor * bool * DB) :=
  if (cursor.(cursor_State) ≠?= Healthy) || (cursor.(cursor_Hash) =?= zero32)
     || (cursor.(DegradedReason) ≠?= "")
  then Err ErrInitialState
  else
    match db.(canonical_cursors) !! cursor.(cursor_ChainID) with
    | Some persisted =>
        if persisted ≠?= cursor then Err ErrRecordConflict else Ok (persisted, false, db)
    | None =>
        if negb (bool_decide (is_Some (db.(live_chains) !! cursor.(cursor_ChainID))))
        then Err ErrConstraint
        else Ok (cursor, true, put_cursor cursor db)
    end.

Definition HasDegradedCanonicalCursor (db : DB) : bool :=
  existsb (λ c, c.(cursor_State) =?= Degraded) (map_values db.(canonical_cursors)).

(** The reason of a degraded row is not empty (CHECK). *)
Definition persistCursorDegraded (current : CanonicalCursor) (reason : string) (db : DB)
    : res Store.error (CanonicalCursor * DB) :=
  let degraded := Degrade current reason in
  if negb (sql_nonempty degraded.(DegradedReason)) then Err ErrConstraint
  else Ok (degraded, put_cursor degraded db).

Definition DegradeCursor (id : ChainID) (reason : string) (db : DB)
    : res Store.error (CanonicalCursor * DB) :=
  if reason =?= "" then Err ErrDegradeReason
  else
    current ← LoadCursor db id;
    if current.(cursor_State) =?= Degraded then Ok (current, db)
    else persistCursorDegraded current reason db.

Definition duplicate_hash_reason : string := "canonical block hash changed at persisted height".
Definition duplicate_parent_reason : string :=
  "duplicate canonical block parent no longer matches rechecked parent".
Definition rpc_mismatch_reason : string :=
  "persisted canonical block hash no longer matches RPC".

(** The source returns a cursor and an error together; a degraded cursor is
    committed although the call returns [ErrCanonicalMismatch]. *)
Definition AdvanceCursor (id : ChainID) (recheckedHash : Hash) (next : CanonicalBlock) (db : DB)
    : res Store.error (CanonicalCursor * bool * option Reorg.error * DB) :=
  let degrade current reason :=
    out ← persistCursorDegraded current reason db;
    Ok (out.1, true, Some ErrCanonicalMismatch, out.2) in
  current ← LoadCursor db id;
  if current.(cursor_State) =?= Degraded then Ok (current, false, Some ErrCursorDegraded, db)
  else if current.(cursor_Height) =?= next.(block_Height) then
    if current.(cursor_Hash) ≠?= next.(block_Hash) then degrade current duplicate_hash_reason
    else if next.(block_ParentHash) ≠?= recheckedHash then degrade current duplicate_parent_reason
    else Ok (current, false, None, db)
  else
    match Advance current recheckedHash next with
    | (_, Some ErrCanonicalMismatch) => degrade current rpc_mismatch_reason
    | (_, Some e) => Ok (current, false, Some e, db)
    | (advanced, None) => Ok (advanced, true, None, put_cursor advanced db)
    end.

(** ** What the tables promise *)

Record chains_wf (db : DB) : Prop := {
  lc_row id r : db.(live_chains) !! id = Some r →
    r.(vlc_Chain).(lc_ChainID) = id ∧ chain_row_allowed r.(vlc_Chain) = true ∧
    (r.(vlc_ValidatedAt) = None → r = unbound_row r.(vlc_Chain));
  lc_names id1 id2 r1 r2 :
    db.(live_chains) !! id1 = Some r1 → db.(live_chains) !! id2 = Some r2 →
    r1.(vlc_Chain).(lc_Name) = r2.(vlc_Chain).(lc_Name) → id1 = id2;
  lc_cursor id c : db.(canonical_cursors) !! id = Some c →
    c.(cursor_ChainID) = id ∧ is_Some (db.(live_chains) !! id) ∧
    (c.(cursor_State) = Healthy ∧ c.(DegradedReason) = "" ∨
     c.(cursor_State) = Degraded ∧ c.(DegradedReason) ≠ "")
}.

(** Rows of the catalogue are kept; a deployment is bound at most once. *)
Definition same_or_bound (r r' : ValidatedLiveChain) : Prop :=
  r' = r ∨ (r.(vlc_ValidatedAt) = None ∧ r'.(vlc_Chain) = r.(vlc_Chain) ∧
            is_Some r'.(vlc_ValidatedAt)).

Definition chains_kept (db db' : DB) : Prop :=
  ∀ id r, db.(live_chains) !! id = Some r →
    ∃ r', db'.(live_chains) !! id = Some r' ∧ same_or_bound r r'.

(** A committed change of a cursor is a step of [Reorg.cursor_run]. *)
Definition cursors_run (db db' : DB) : Prop :=
  ∀ id c, db.(canonical_cursors) !! id = Some c →
    ∃ c' blocks, db'.(canonical_cursors) !! id = Some c' ∧ cursor_run c blocks c'.

(** What these operations leave alone. *)
Definition chains_only (db db' : DB) : Prop :=
  db' = set_chains db db'.(live_chains) db'.(canonical_cursors).

(** ** Lemmas *)

Lemma same_or_bound_refl r : same_or_bound r r.
Proof. by left. Qed.

Lemma same_or_bound_trans r1 r2 r3 :
  same_or_bound r1 r2 → same_or_bound r2 r3 → same_or_bound r1 r3.
Proof.
  intros [->|(H1 & H2 & [t H3])] [->|(K1 & K2 & K3)]; unfold same_or_bound; eauto.
  congruence.
Qed.

Lemma cursor_run_trans c b1 c1 b2 c2 :
  cursor_run c b1 c1 → cursor_run c1 b2 c2 → cursor_run c (b1 ++ b2) c2.
Proof.
  intros H1 H2. induction H2 as [|b2 c2 r n c3 _ IH Ha|b2 c2 r n c3 e _ IH Ha|b2 c2 reason _ IH].
  - by rewrite app_nil_r.
  - rewrite (assoc_L (++)). by eapply run_advance.
  - by eapply run_refused.
  - by apply run_degrade.
Qed.

Lemma chains_kept_refl db : chains_kept db db.
Proof. intros id r H. exists r. split; [done|]. by left. Qed.

Lemma cursors_run_refl db : cursors_run db db.
Proof. intros id c H. exists c, []. split; [done|constructor]. Qed.

Lemma chains_kept_trans a b c : chains_kept a b → chains_kept b c → chains_kept a c.
Proof.
  intros H1 H2 id r (r1 & Hr1 & Hs1)%H1. apply H2 in Hr1 as (r2 & Hr2 & Hs2).
  exists r2. split; [done|]. by eapply same_or_bound_trans.
Qed.

Lemma cursors_run_trans a b c : cursors_run a b → cursors_run b c → cursors_run a c.
Proof.
  intros H1 H2 id k (k1 & b1 & Hk1 & Hr1)%H1. apply H2 in Hk1 as (k2 & b2 & Hk2 & Hr2).
  exists k2, (b1 ++ b2). split; [done|]. by eapply cursor_run_trans.
Qed.

(** *** The catalogue *)

Lemma sync_one_Ok item rows rows' :
  sync_one item rows = Ok rows' →
  chain_row_allowed item = true ∧
  ((rows' = rows ∧ ∃ r, rows !! item.(lc_ChainID) = Some r ∧ r.(vlc_Chain) = item) ∨
   (rows !! item.(lc_ChainID) = None ∧
    (∀ id r, rows !! id = Some r → r.(vlc_Chain).(lc_Name) ≠ item.(lc_Name)) ∧
    rows' = <[item.(lc_ChainID) := unbound_row item]> rows)).
Proof.
  unfold sync_one. intros [_ H]%bind_bool. apply bind_bool in H as [Ha H].
  apply negb_false_iff in Ha. split; [done|].
  destruct (rows !! lc_ChainID item) as [r|] eqn:Hr.
  - apply bind_bool in H as [Hc [= <-]]. bool_to_prop. left. eauto.
  - destruct (find_row rows _) as [r|] eqn:Hf; [done|]. injection H as <-. right.
    split; [done|]. split; [|done]. intros id r Hl.
    pose proof (find_row_None _ _ Hf _ _ Hl) as Hx. by apply bool_decide_eq_false in Hx.
Qed.

Definition rows_wf (rows : gmap ChainID ValidatedLiveChain) : Prop :=
  (∀ id r, rows !! id = Some r →
     r.(vlc_Chain).(lc_ChainID) = id ∧ chain_row_allowed r.(vlc_Chain) = true ∧
     (r.(vlc_ValidatedAt) = None → r = unbound_row r.(vlc_Chain))) ∧
  ∀ id1 id2 r1 r2, rows !! id1 = Some r1 → rows !! id2 = Some r2 →
    r1.(vlc_Chain).(lc_Name) = r2.(vlc_Chain).(lc_Name) → id1 = id2.

Lemma sync_one_wf item rows rows' :
  rows_wf rows → sync_one item rows = Ok rows' →
  rows_wf rows' ∧ rows ⊆ rows' ∧ ∃ r, rows' !! item.(lc_ChainID) = Some r ∧ r.(vlc_Chain) = item.
Proof.
  intros [W1 W2] (Ha & [[-> Hr]|(Hn & Hname & ->)])%sync_one_Ok; [by split_and!|].
  split; [split|split].
  - cbn [live_chains canonical_cursors set_chains].
    intros id r [[<- <-]|[Hne Hl]]%lookup_insert_Some; [done|by apply W1].
  - cbn [live_chains canonical_cursors set_chains]. intros id1 id2 r1 r2 [[<- <-]|[H1 Hl1]]%lookup_insert_Some
      [[<- <-]|[H2 Hl2]]%lookup_insert_Some He; [done| | |by eapply W2].
    + by destruct (Hname _ _ Hl2).
    + by destruct (Hname _ _ Hl1).
  - by apply insert_subseteq.
  - rewrite lookup_insert_eq. by eexists.
Qed.

Lemma sync_loop_wf entries : ∀ rows rows',
  rows_wf rows → sync_loop entries rows = Ok rows' →
  rows_wf rows' ∧ rows ⊆ rows' ∧
  ∀ item, item ∈ entries → ∃ r, rows' !! item.(lc_ChainID) = Some r ∧ r.(vlc_Chain) = item.
Proof.
  induction entries as [|item entries IH]; intros rows rows' W H; cbn in H.
  - injection H as <-. split_and!; [done|done|]. intros item Hin. by apply elem_of_nil in Hin.
  - apply bind_Ok in H as (rows1 & H1 & H). apply sync_one_wf in H1 as (W1 & S1 & r & Hr & Hc); [|done].
    apply IH in H as (W' & S' & Hin'); [|done]. split_and!; [done|by etrans|].
    intros item' [->|Hin]%elem_of_cons; [|by apply Hin'].
    exists r. split; [|done]. by eapply lookup_weaken.
Qed.

(** Once all entries have their rows, another pass changes nothing. *)
Lemma sync_loop_again entries rows :
  (∀ item, item ∈ entries → item.(lc_Confirmations) ≤ MaxInt64 ∧ chain_row_allowed item = true ∧
     ∃ r, rows !! item.(lc_ChainID) = Some r ∧ r.(vlc_Chain) = item) →
  sync_loop entries rows = Ok rows.
Proof.
  induction entries as [|item entries IH]; intros H; [done|]. cbn.
  destruct (H item) as (Hc & Ha & r & Hr & He); [by left|].
  assert (sync_one item rows = Ok rows) as ->.
  { unfold sync_one. rewrite (proj2 (Z.ltb_ge _ _)) by done. rewrite Ha. cbn. rewrite Hr, He.
    by rewrite bool_decide_eq_true_2. }
  apply IH. intros item' Hin. apply H. by right.
Qed.

Lemma sync_loop_bounds entries : ∀ rows rows',
  sync_loop entries rows = Ok rows' →
  ∀ item, item ∈ entries → item.(lc_Confirmations) ≤ MaxInt64 ∧ chain_row_allowed item = true.
Proof.
  induction entries as [|item entries IH]; intros rows rows' H item' Hin; cbn in H.
  - by apply elem_of_nil in Hin.
  - apply bind_Ok in H as (rows1 & H1 & H). apply elem_of_cons in Hin as [->|Hin]; [|by eapply IH].
    unfold sync_one in H1. apply bind_bool in H1 as [Hc H1]. apply bind_bool in H1 as [Ha _].
    apply Z.ltb_ge in Hc. by apply negb_false_iff in Ha.
Qed.

(** *** A catalogue built by [NewRegistry] *)

Definition homes (chains : list LiveChain) : Z := zlen (List.filter lc_Home chains).

Record catalog_of (registry : Catalog) (chains : list LiveChain) : Prop := {
  co_ids : indexes lc_ChainID registry.(byID) chains;
  co_names name id : registry.(byName) !! name = Some id ↔
    ∃ c, c ∈ chains ∧ c.(lc_Name) = name ∧ c.(lc_ChainID) = id;
  co_distinct a b : a ∈ chains → b ∈ chains → a.(lc_Name) = b.(lc_Name) → a = b;
  co_home : homes chains = 1 → ∃ h, h ∈ chains ∧ h.(lc_Home) = true ∧
    registry.(cat_home) = h.(lc_ChainID)
}.

Lemma homes_snoc chains c : homes (chains ++ [c]) = homes chains + (if c.(lc_Home) then 1 else 0).
Proof.
  unfold homes. rewrite List.filter_app, zlen_app. cbn. by destruct (lc_Home c).
Qed.

Lemma homes_nonneg chains : 0 ≤ homes chains.
Proof. apply zlen_nonneg. Qed.

Lemma catalog_step registry chains item :
  catalog_of registry chains →
  registry.(byID) !! item.(lc_ChainID) = None → registry.(byName) !! item.(lc_Name) = None →
  catalog_of
    (mkCatalog (<[item.(lc_ChainID) := item]> registry.(byID))
       (<[item.(lc_Name) := item.(lc_ChainID)]> registry.(byName))
       (if item.(lc_Home) then item.(lc_ChainID) else registry.(cat_home))) (chains ++ [item]).
Proof.
  intros [C1 C2 C3 C4] Hid Hname.
  assert (∀ c, c ∈ chains → c.(lc_Name) ≠ item.(lc_Name)) as Hne.
  { intros c Hc He. assert (registry.(byName) !! item.(lc_Name) = Some c.(lc_ChainID)) as Hx
      by (apply C2; eauto). congruence. }
  split; cbn.
  - by apply indexes_insert.
  - intros name id. rewrite lookup_insert_Some, C2. setoid_rewrite elem_of_app.
    setoid_rewrite list_elem_of_singleton. split.
    + intros [[<- <-]|[Hn (c & Hc & Hcn & Hci)]]; [by exists item; auto|]. exists c. auto.
    + intros (c & [Hc| ->] & Hcn & Hci); [|by left]. right. split; [|eauto].
      intros He. apply (Hne c Hc). congruence.
  - intros a b Ha Hb He. rewrite elem_of_app, list_elem_of_singleton in Ha, Hb.
    destruct Ha as [Ha| ->], Hb as [Hb| ->]; auto; [by destruct (Hne a Ha)|by destruct (Hne b Hb)].
  - rewrite homes_snoc. pose proof (homes_nonneg chains). destruct (lc_Home item) eqn:Hh.
    + intros _. exists item. split; [apply elem_of_app; right; by left|done].
    + intros Hone. destruct C4 as (h & Hin & Hh' & He); [lia|]. exists h.
      split; [apply elem_of_app; by left|done].
Qed.

Lemma catalog_loop_spec http_url chains : ∀ seen registry count registry' count',
  catalog_of registry seen → count = homes seen →
  catalog_loop http_url chains registry count = Ok (registry', count') →
  catalog_of registry' (seen ++ chains) ∧ count' = homes (seen ++ chains) ∧
  Forall (λ c, validateChain http_url c = Ok tt) chains.
Proof.
  induction chains as [|item chains IH]; intros seen registry count registry' count' C Hn H; cbn in H.
  - injection H as <- <-. rewrite app_nil_r. split_and!; [done|done|constructor].
  - apply bind_Ok in H as ([] & Hv & H). apply bind_bool in H as [Hi H].
    apply bind_bool in H as [Hnm H].
    apply bool_decide_eq_false, eq_None_not_Some in Hi, Hnm.
    eapply (IH (seen ++ [item])) in H as (C' & Hc' & Hall); [| |].
    + rewrite <-(assoc_L (++)) in C', Hc'. split_and!; [done|done|]. by constructor.
    + by apply catalog_step.
    + rewrite homes_snoc, Hn. destruct (lc_Home item); lia.
Qed.

Lemma NewRegistry_Ok http_url chains registry :
  NewRegistry http_url chains = Ok registry →
  catalog_of registry chains ∧ homes chains = 1 ∧
  Forall (λ c, validateChain http_url c = Ok tt) chains.
Proof.
  unfold NewRegistry. intros [_ H]%bind_bool. apply bind_Ok in H as ([r n] & Hl & H).
  apply bind_bool in H as [Hn [= <-]]. apply negb_false_iff, Z.eqb_eq in Hn. cbn in *.
  eapply (catalog_loop_spec _ _ []) in Hl as (C & Hc & Hall); [|split|done].
  - split_and!; [exact C|cbn in Hc; congruence|exact Hall].
  - apply indexes_empty.
  - intros name id. cbn. rewrite lookup_empty. split; [done|]. intros (c & Hc & _).
    by apply elem_of_nil in Hc.
  - intros a b Ha. by apply elem_of_nil in Ha.
  - done.
Qed.

Lemma elem_of_All registry chains c :
  catalog_of registry chains → c ∈ All registry ↔ c ∈ chains.
Proof. intros C. unfold All. rewrite sort_by_perm. apply (elem_of_map_values lc_ChainID), C. Qed.

(** *** [Sync] *)

Lemma chains_wf_rows db : chains_wf db → rows_wf db.(live_chains).
Proof. intros [W1 W2 _]. by split. Qed.

(** Distinct keys that all occur in a map of that size are all its keys. *)
Lemma keys_pigeonhole `{Countable K} {A} (m : gmap K A) (keys : list K) k :
  NoDup keys → (∀ k, k ∈ keys → is_Some (m !! k)) →
  length (map_to_list m) = length keys → is_Some (m !! k) → k ∈ keys.
Proof.
  intros Hd Hin Hlen [a Ha].
  assert (keys ≡ₚ (map_to_list m).*1) as Hp.
  { apply submseteq_length_Permutation; [|by rewrite length_fmap, Hlen].
    apply NoDup_submseteq; [done|]. intros k' [a' Ha']%Hin.
    apply list_elem_of_fmap. exists (k', a'). by rewrite elem_of_map_to_list. }
  rewrite Hp. apply list_elem_of_fmap. exists (k, a). by rewrite elem_of_map_to_list.
Qed.

Lemma All_keys registry chains :
  catalog_of registry chains → NoDup (lc_ChainID <$> All registry).
Proof.
  intros C. unfold All. rewrite sort_by_perm. eapply map_values_keys, C.
Qed.

Lemma Sync_sound registry chains db db' :
  catalog_of registry chains → chains_wf db → Sync registry db = Ok db' →
  chains_wf db' ∧ chains_only db db' ∧ db.(live_chains) ⊆ db'.(live_chains) ∧
  db'.(canonical_cursors) = db.(canonical_cursors) ∧
  (∀ id c, registry.(byID) !! id = Some c ↔
     ∃ r, db'.(live_chains) !! id = Some r ∧ r.(vlc_Chain) = c) ∧
  Sync registry db' = Ok db'.
Proof.
  intros C W. unfold Sync. intros (rows & Hl & H)%bind_Ok. apply bind_bool in H as [Hc [= <-]].
  pose proof (sync_loop_bounds _ _ _ Hl) as Hb.
  apply sync_loop_wf in Hl as (W' & Hs & Hin); [|by apply chains_wf_rows].
  pose proof Hc as Hcount. apply orb_false_iff in Hc as [Hlen _].
  apply negb_false_iff, Z.eqb_eq in Hlen.
  assert (∀ id r, rows !! id = Some r → r.(vlc_Chain) ∈ All registry) as Hrows.
  { intros id r Hr. assert (id ∈ lc_ChainID <$> All registry) as Hk.
    { eapply keys_pigeonhole; [by eapply All_keys| | |by exists r].
      - intros k (c & -> & Hc)%list_elem_of_fmap. destruct (Hin c Hc) as (r' & Hr' & _). by exists r'.
      - rewrite length_fmap. unfold zlen, map_values in Hlen. rewrite length_fmap in Hlen. lia. }
    apply list_elem_of_fmap in Hk as (c & -> & Hc). destruct (Hin c Hc) as (r' & Hr' & He).
    assert (r = r') as -> by congruence. by rewrite He. }
  split_and!; cbn [live_chains canonical_cursors set_chains].
  - destruct W as [W1 W2 W3]. split; cbn [live_chains canonical_cursors set_chains].
    + apply W'.
    + apply W'.
    + intros id c Hid. destruct (W3 _ _ Hid) as (H1 & [r Hr] & H2). split_and!; [done| |done].
      exists r. by eapply lookup_weaken.
  - done.
  - done.
  - done.
  - intros id c. split.
    + intros Hid. apply (co_ids _ _ C) in Hid as [Hc <-].
      apply Hin. by apply (elem_of_All _ _ _ C).
    + intros (r & Hr & <-). apply (co_ids _ _ C). split; [|by apply W'].
      apply (elem_of_All _ _ _ C). by eapply Hrows.
  - rewrite (sync_loop_again (All registry) rows).
    + cbn [mbind res_mbind res_bind]. by rewrite Hcount.
    + intros item Hi. destruct (Hb item Hi). split_and!; [done|done|by apply Hin].
Qed.

(** The home row, and what two catalogues of the same rows share. *)
Lemma catalog_home registry chains :
  catalog_of registry chains → homes chains = 1 →
  ∃ h, catalog_HomeChain registry = Some h ∧ h ∈ chains ∧ h.(lc_Home) = true.
Proof.
  intros C H1. destruct (co_home _ _ C H1) as (h & Hin & Hh & He). exists h.
  unfold catalog_HomeChain. rewrite He. split; [|done]. by apply (co_ids _ _ C).
Qed.

Lemma catalog_named registry chains c :
  catalog_of registry chains → c ∈ chains → Named registry c.(lc_Name) = Some c.
Proof.
  intros C Hc. unfold Named, catalog_Chain.
  assert (byName registry !! lc_Name c = Some c.(lc_ChainID)) as -> by (apply (co_names _ _ C); eauto).
  by apply (co_ids _ _ C).
Qed.

Lemma catalog_elem registry chains c :
  catalog_of registry chains → c ∈ chains ↔ registry.(byID) !! c.(lc_ChainID) = Some c.
Proof. intros C. pose proof (co_ids _ _ C c.(lc_ChainID) c) as H. naive_solver. Qed.

Lemma homes_one chains a b :
  homes chains = 1 → a ∈ chains → b ∈ chains → a.(lc_Home) = true → b.(lc_Home) = true → a = b.
Proof.
  unfold homes, zlen. intros H1 Ha Hb Hha Hhb.
  assert (∀ x, x ∈ chains → lc_Home x = true → x ∈ List.filter lc_Home chains) as Hf.
  { intros x Hx Hh. apply list_elem_of_In, filter_In. split; [by apply list_elem_of_In|done]. }
  pose proof (Hf a Ha Hha) as Fa. pose proof (Hf b Hb Hhb) as Fb.
  destruct (List.filter lc_Home chains) as [|x [|y l]]; cbn in H1; [lia| |lia].
  apply list_elem_of_singleton in Fa, Fb. congruence.
Qed.

(** *** Deployments and cursors *)

Lemma set_chains_same db : set_chains db db.(live_chains) db.(canonical_cursors) = db.
Proof. by destruct db. Qed.

Lemma chains_only_refl db : chains_only db db.
Proof. unfold chains_only. by rewrite set_chains_same. Qed.

(** What a successful operation on these tables guarantees. *)
Definition chains_step (db db' : DB) : Prop :=
  chains_wf db' ∧ chains_only db db' ∧ chains_kept db db' ∧ cursors_run db db'.

Lemma chains_step_refl db : chains_wf db → chains_step db db.
Proof.
  intros W. split_and!; [done|apply chains_only_refl|apply chains_kept_refl|apply cursors_run_refl].
Qed.

Lemma Sync_step registry chains db db' :
  catalog_of registry chains → chains_wf db → Sync registry db = Ok db' → chains_step db db'.
Proof.
  intros C W H. destruct (Sync_sound _ _ _ _ C W H) as (W' & Ho & Hs & Hc & _).
  split; [done|]. split; [done|]. split.
  - intros id r Hr. exists r. split; [by eapply lookup_weaken|by left].
  - intros id c Hid. exists c, []. rewrite Hc. split; [done|constructor].
Qed.

Lemma BindDeployment_step now deployment block db db' :
  chains_wf db → BindDeployment now deployment block db = Ok db' → chains_step db db'.
Proof.
  intros W. unfold BindDeployment. intros [_ H]%bind_bool.
  destruct (live_chains db !! _) as [row|] eqn:Hrow; [|done].
  destruct (vlc_ValidatedAt row) as [t|] eqn:Ht.
  { apply bind_bool in H as [_ [= <-]]. by apply chains_step_refl. }
  apply bind_bool in H as [_ [= <-]]. destruct W as [W1 W2 W3].
  destruct (W1 _ _ Hrow) as (Hid & Ha & _). split; [split|split; [done|split]].
  - cbn [live_chains canonical_cursors set_chains].
    intros id r [[<- <-]|[Hne Hl]]%lookup_insert_Some; [done|by apply W1].
  - cbn [live_chains canonical_cursors set_chains]. intros id1 id2 r1 r2 [[<- <-]|[H1 Hl1]]%lookup_insert_Some
      [[<- <-]|[H2 Hl2]]%lookup_insert_Some He; [done| | |by eapply W2].
    + by apply (W2 _ _ _ _ Hrow Hl2).
    + by apply (W2 _ _ _ _ Hl1 Hrow).
  - intros id c Hc. destruct (W3 _ _ Hc) as (H1 & H2 & H3). split_and!; [done| |done].
    cbn. apply lookup_insert_is_Some. destruct (decide (gd_ChainID deployment = id)); auto.
  - intros id r Hr. cbn. destruct (decide (gd_ChainID deployment = id)) as [<-|Hne].
    + rewrite lookup_insert_eq. eexists. split; [done|]. assert (r = row) as -> by congruence.
      right. by split_and!.
    + rewrite lookup_insert_ne by done. exists r. split; [done|by left].
  - intros id c Hc. exists c, []. split; [done|constructor].
Qed.

(** A committed cursor. *)
Lemma put_cursor_step db c cursor blocks :
  chains_wf db → db.(canonical_cursors) !! cursor.(cursor_ChainID) = Some c →
  cursor_run c blocks cursor →
  (cursor.(cursor_State) = Healthy ∧ cursor.(DegradedReason) = "" ∨
   cursor.(cursor_State) = Degraded ∧ cursor.(DegradedReason) ≠ "") →
  chains_step db (put_cursor cursor db).
Proof.
  intros [W1 W2 W3] Hc Hrun Hst. split; [split|split; [done|split]]; cbn.
  - exact W1.
  - exact W2.
  - intros id k [[<- <-]|[Hne Hl]]%lookup_insert_Some; [|by apply W3].
    split; [done|]. split; [|done]. by apply (W3 _ _ Hc).
  - intros id r Hr. exists r. split; [done|by left].
  - intros id k Hk. destruct (decide (cursor_ChainID cursor = id)) as [<-|Hne]; cbn.
    + rewrite lookup_insert_eq. assert (k = c) as -> by congruence. eauto.
    + rewrite lookup_insert_ne by done. exists k, []. split; [done|constructor].
Qed.

Lemma LoadCursor_Ok db id c : LoadCursor db id = Ok c → db.(canonical_cursors) !! id = Some c.
Proof. unfold LoadCursor. destruct (canonical_cursors db !! id); congruence. Qed.

Lemma sql_nonempty_not s : sql_nonempty s = true → s ≠ "".
Proof. intros H ->. discriminate H. Qed.

Lemma persist_step db c reason degraded db' :
  chains_wf db → db.(canonical_cursors) !! c.(cursor_ChainID) = Some c →
  persistCursorDegraded c reason db = Ok (degraded, db') → chains_step db db'.
Proof.
  intros W Hc. unfold persistCursorDegraded. intros [Hr [= <- <-]]%bind_bool.
  apply negb_false_iff, sql_nonempty_not in Hr.
  apply (put_cursor_step _ c _ []); [done|exact Hc|apply run_degrade; constructor|].
  right. by split.
Qed.

Lemma Initialize_step cursor db c b db' :
  chains_wf db → Initialize cursor db = Ok (c, b, db') → chains_step db db'.
Proof.
  intros W. unfold Initialize. intros [Hc H]%bind_bool.
  destruct (canonical_cursors db !! _) as [p|] eqn:Hp.
  { apply bind_bool in H as [_ [= <- <- <-]]. by apply chains_step_refl. }
  apply bind_bool in H as [Hl [= <- <- <-]]. bool_to_prop.
  destruct W as [W1 W2 W3]. split; [split|split; [done|split]]; cbn.
  - exact W1.
  - exact W2.
  - intros id k [[<- <-]|[Hne Hk]]%lookup_insert_Some; [|by apply W3].
    split_and!; [done|done|by left].
  - intros id r Hr. exists r. split; [done|by left].
  - intros id k Hk. exists k, []. split; [|constructor]. cbn. rewrite lookup_insert_ne; [done|congruence].
Qed.

Lemma DegradeCursor_step id reason db c db' :
  chains_wf db → DegradeCursor id reason db = Ok (c, db') → chains_step db db'.
Proof.
  intros W. unfold DegradeCursor. intros [_ H]%bind_bool.
  apply bind_Ok in H as (current & Hl%LoadCursor_Ok & H).
  case_bool_decide; [injection H as <- <-; by apply chains_step_refl|].
  eapply persist_step; [done| |exact H]. by destruct (lc_cursor _ W _ _ Hl) as (-> & _).
Qed.

Lemma AdvanceCursor_step id rechecked next db c b e db' :
  chains_wf db → AdvanceCursor id rechecked next db = Ok (c, b, e, db') →
  chains_step db db' ∧
  (e = None → ∃ c0, db.(canonical_cursors) !! id = Some c0 ∧
     db'.(canonical_cursors) !! id = Some c ∧ c.(cursor_Height) = next.(block_Height) ∧
     c.(cursor_Hash) = next.(block_Hash) ∧ next.(block_ParentHash) = rechecked).
Proof.
  intros W. unfold AdvanceCursor. intros (current & Hl%LoadCursor_Ok & H)%bind_Ok.
  destruct (lc_cursor _ W _ _ Hl) as (Hid & _ & Hst).
  assert (canonical_cursors db !! cursor_ChainID current = Some current) as Hl' by (by rewrite Hid).
  assert (∀ reason, (out ← persistCursorDegraded current reason db;
    Ok (out.1, true, Some ErrCanonicalMismatch, out.2)) = Ok (c, b, e, db') →
    chains_step db db' ∧ e = Some ErrCanonicalMismatch) as Hdeg.
  { intros reason ([d db1] & Hp & [= <- <- <- <-])%bind_Ok. split; [|done]. by eapply persist_step. }
  case_bool_decide as Hd; [injection H as <- <- <- <-; split; [by apply chains_step_refl|done]|].
  case_bool_decide as Hh.
  - destruct (_ ≠?= _) eqn:Hhash in H; [apply Hdeg in H as [? ->]; by split|].
    destruct (_ ≠?= _) eqn:Hpar in H; [apply Hdeg in H as [? ->]; by split|].
    injection H as <- <- <- <-. bool_to_prop. split; [by apply chains_step_refl|]. intros _.
    exists current. by split_and!.
  - destruct (Advance current rechecked next) as [adv [er|]] eqn:Ha.
    + destruct er; [apply Hdeg in H as [? ->]; by split| |]; injection H as <- <- <- <-;
        (split; [by apply chains_step_refl|done]).
    + injection H as <- <- <- <-. pose proof Ha as Hacc. apply Advance_accepts in Hacc as (_ & Hp & _ & _ & Hadv).
      assert (cursor_ChainID adv = cursor_ChainID current) as Hidadv by (by rewrite Hadv).
      split.
      * apply (put_cursor_step _ current _ ([] ++ [next])); [done|by rewrite Hidadv| |].
        -- eapply run_advance; [constructor|exact Ha].
        -- rewrite Hadv. exact Hst.
      * intros _. exists current. split; [done|]. split; [cbn; by rewrite Hidadv, Hid, lookup_insert_eq|].
        rewrite Hadv. split_and!; [done|done|]. unfold Advance in Ha.
        repeat (case_match; [done|]). by bool_to_prop.
Qed.

Lemma empty_chains_wf : chains_wf empty_db.
Proof. by split. Qed.

Lemma chains_wf_frame db db' :
  db'.(live_chains) = db.(live_chains) → db'.(canonical_cursors) = db.(canonical_cursors) →
  chains_wf db → chains_wf db'.
Proof. intros Hl Hc [W1 W2 W3]. split; rewrite ?Hl, ?Hc; done. Qed.

(** ** Theorems *)

(** The catalogue of a database only grows: a [Sync] that succeeds keeps
    every row, deployments and cursors included, and afterwards the rows are
    exactly the chains of the configured registry, among them the one home
    chain; syncing again changes nothing, and any registry that syncs later
    still lists every one of these chains, unchanged. *)
Theorem Sync_spec http_url (chains : list LiveChain) registry (db db' : DB) :
  chains_wf db → NewRegistry http_url chains = Ok registry → Sync registry db = Ok db' →
  db.(live_chains) ⊆ db'.(live_chains) ∧
  db' = set_chains db db'.(live_chains) db.(canonical_cursors) ∧
  (∀ c, c ∈ chains ↔
     ∃ r, db'.(live_chains) !! c.(lc_ChainID) = Some r ∧ r.(vlc_Chain) = c) ∧
  (∃ h, catalog_HomeChain registry = Some h ∧ h ∈ chains ∧
     ∀ c, c ∈ chains → c.(lc_Home) = true → c = h) ∧
  Sync registry db' = Ok db' ∧
  ∀ http_url' chains' registry' db'',
    NewRegistry http_url' chains' = Ok registry' → Sync registry' db' = Ok db'' →
    ∀ c, c ∈ chains → c ∈ chains'.
Proof.
  intros W (C & H1 & _)%NewRegistry_Ok Hs.
  destruct (Sync_sound _ _ _ _ C W Hs) as (W' & Ho & Hk & Hc & Hrows & Hagain).
  assert (∀ c, c ∈ chains ↔ ∃ r, live_chains db' !! lc_ChainID c = Some r ∧ vlc_Chain r = c) as Hin.
  { intros c. rewrite <-Hrows, (catalog_elem _ _ _ C). done. }
  split; [done|]. split; [by rewrite <-Hc|]. split; [done|]. split.
  { destruct (catalog_home _ _ C H1) as (h & Hh & Hhc & Hhome). exists h. split_and!; [done..|].
    intros c Hcc Hch. by eapply (homes_one chains). }
  split; [done|]. intros http_url' chains' registry' db'' (C' & _)%NewRegistry_Ok Hs' c (r & Hr & He)%Hin.
  destruct (Sync_sound _ _ _ _ C' W' Hs') as (_ & _ & Hk' & _ & Hrows' & _).
  apply (catalog_elem _ _ _ C'), Hrows'. exists r. split; [|done]. by eapply lookup_weaken.
Qed.

(** Closed instance: a catalogue of a home and a source chain, synchronised
    into an empty database; it is kept when a third chain is configured. *)
Definition sample_catalogue : list LiveChain :=
  [mkLiveChain "home" (be_vec 32 1) "http://home" 3 "home.json" true;
   mkLiveChain "source" (be_vec 32 2) "http://source" 4 "source.json" false].

Definition sample_registry : Catalog :=
  default_ok (mkCatalog ∅ ∅ zero32) (NewRegistry (λ _, true) sample_catalogue).

Definition synced_db : DB := default_ok empty_db (Sync sample_registry empty_db).

Definition grown_catalogue : list LiveChain :=
  sample_catalogue ++ [mkLiveChain "third" (be_vec 32 3) "http://third" 2 "third.json" false].

Lemma Sync_spec_witness :
  Sync sample_registry synced_db = Ok synced_db ∧
  is_ok (registry ← map_err (λ _, ErrConstraint) (NewRegistry (λ _, true) grown_catalogue);
         Sync registry synced_db) = true ∧
  is_ok (registry ← map_err (λ _, ErrConstraint) (NewRegistry (λ _, true) (take 1 sample_catalogue));
         Sync registry synced_db) = false.
Proof.
  assert (NewRegistry (λ _, true) sample_catalogue = Ok sample_registry) as Hr
    by (apply default_ok_eq; vm_compute; reflexivity).
  assert (Sync sample_registry empty_db = Ok synced_db) as Hs
    by (apply default_ok_eq; vm_compute; reflexivity).
  split; [|split; vm_compute; reflexivity].
  exact (proj1 (proj2 (proj2 (proj2 (proj2
    (Sync_spec (λ _, true) sample_catalogue sample_registry empty_db synced_db empty_chains_wf Hr Hs)))))).
Defined.

End LiveStore.
