(* ===== verification/Tables.v ===== *)
(** * Mapnode/store: the tables of the live node

    The tables that migrations 5 to 8 of migrations.go add to those of Store.v:
    the confirmed indexer, the evidence mailboxes and the transactions.  A
    [Database] is the record of both; [core] has the tables of Store.v.

    As there, a primary key is the key of a [gmap], columns whose value is
    fixed (a status of 1) or only displayed (clock readings of append-only
    rows) are left out, and the other constraints are tests of the
    repositories. *)

From S2P Require Import Prelude Domain Evidence TrustView Reorg Planner PathProof Coordinator.
From S2P Require Import Indexer Envelope Submission Store.
Import Domain.

Module Tables.

Inductive error :=
| ErrStore (e : Store.error)
| ErrCursor (e : Reorg.error)
| ErrSubmission (e : Submission.error)
| ErrEnvelope (e : Envelope.error)
| ErrLocator (e : Evidence.error)
| ErrTransitionReason
| ErrConfirmedReceipt
| ErrIndexerBundlePending
| ErrConfirmedBlock
| ErrIndexerConfig
| ErrNoRows
| ErrMailbox
| ErrOutboxTransactionRequired.

#[export] Instance error_inhabited : Inhabited error := populate ErrMailbox.

(** [int64(v)] of a [uint64]. *)
Definition int64_of (v : Z) : Z := Envelope.int64_of v.

(** ** Migration 5: the confirmed indexer *)

Record IndexerConfig := mkIndexerConfig {
  ic_ChainID : ChainID;
  ic_Gateway : Address;
  ic_GatewayCodeHash : Hash;
  ic_DeploymentBlock : BlockHeight;
  ic_MerkleDepth : Z;
  ic_PathStepCostGas : Z
}.

#[export] Instance IndexerConfig_eq_dec : EqDecision IndexerConfig.
Proof. solve_decision. Defined.

(** [PRIMARY KEY(chain_id,block_hash,tx_hash,tx_index,log_index)] *)
Abbreviation LogKey := (ChainID * Hash * Hash * Z * Z)%type.

Record GatewayLogRow := mkLogRow {
  gr_Gateway : Address;
  gr_BlockNumber : BlockHeight;
  gr_EventTopic : Hash;
  gr_ContentDigest : Hash;
  gr_Topics : list Hash;
  gr_Data : bytes
}.

#[export] Instance GatewayLogRow_eq_dec : EqDecision GatewayLogRow.
Proof. solve_decision. Defined.

(** [PRIMARY KEY(chain_id,tx_hash)] *)
Record ReceiptRow := mkReceiptRow {
  vr_BlockNumber : BlockHeight;
  vr_BlockHash : Hash;
  vr_TxIndex : Z;
  vr_RequestID : RequestID
}.

#[export] Instance ReceiptRow_eq_dec : EqDecision ReceiptRow.
Proof. solve_decision. Defined.

Record ResolutionRow := mkResolutionRow {
  rr_ChainID : ChainID;
  rr_TxHash : Hash;
  rr_DependencyKey : Hash;
  rr_NewDependency : bool;
  rr_HomeTrustRoot : Hash;
  rr_LogIndex : Z
}.

#[export] Instance ResolutionRow_eq_dec : EqDecision ResolutionRow.
Proof. solve_decision. Defined.

Record IndexTables := mkIndexTables {
  live_indexer_configs : gmap ChainID IndexerConfig;
  indexer_degraded_states : gmap ChainID string;
  indexed_gateway_logs : gmap LogKey GatewayLogRow;
  verification_receipts : gmap (ChainID * Hash) ReceiptRow;
  request_resolutions : gmap RequestID ResolutionRow
}.

(** ** Migrations 6 and 7: the evidence mailboxes *)

Record InboxRow := mkInboxRow {
  in_EvidenceID : Evidence.ID;
  in_Origin : string;
  in_Envelope : bytes;
  in_State : string;
  in_InvalidReason : string;
  in_Attempts : Z;
  in_NextAttemptAt : Z;
  in_ReceivedAt : Z
}.

Record OutboxRow := mkOutboxRow {
  out_EvidenceID : Evidence.ID;
  out_Origin : string;
  out_Envelope : bytes;
  out_State : string;
  out_Attempts : Z;
  out_NextAttemptAt : Z;
  out_LastError : string;
  out_CreatedAt : Z;
  out_PublishedAt : option Z
}.

Record RejectionRow := mkRejectionRow {
  rj_Actual : string;
  rj_Claimed : string;
  rj_MessageID : Hash;
  rj_Fingerprint : Hash;
  rj_Reason : string;
  rj_ReceivedAt : Z
}.

Record MailTables := mkMailTables {
  evidence_inbox : gmap Hash InboxRow;
  evidence_outbox : gmap Hash OutboxRow;
  evidence_ingress_rejections : gmap Hash RejectionRow
}.

(** ** Migration 8: transactions *)

Record ConfirmedRow := mkConfirmedRow {
  cf_RequestID : RequestID;
  cf_TxHash : Hash;
  cf_HomeChainID : ChainID;
  cf_BlockNumber : BlockHeight;
  cf_BlockHash : Hash;
  cf_Confirmations : Z;
  cf_ConfirmedAt : Z
}.

(** A row of [transaction_submissions] is the submission it is read back as. *)
Record TxTables := mkTxTables {
  transaction_submissions : gmap Submission.SubmissionID Submission.TransactionSubmission;
  confirmed_transaction_receipts : gmap Submission.SubmissionID ConfirmedRow;
  request_execution_transitions :
    list (Submission.SubmissionID * Submission.ExecutionState * Submission.ExecutionState
          * string * Z)
}.

(** ** The database *)

Record Database := mkDatabase {
  core : Store.DB;
  index : IndexTables;
  mail : MailTables;
  txs : TxTables
}.

Definition empty_database : Database :=
  mkDatabase Store.empty_db (mkIndexTables ∅ ∅ ∅ ∅ ∅) (mkMailTables ∅ ∅ ∅) (mkTxTables ∅ ∅ []).

Definition set_core (db : Database) (c : Store.DB) : Database :=
  mkDatabase c db.(index) db.(mail) db.(txs).
Definition set_index (db : Database) (i : IndexTables) : Database :=
  mkDatabase db.(core) i db.(mail) db.(txs).
Definition set_mail (db : Database) (m : MailTables) : Database :=
  mkDatabase db.(core) db.(index) m db.(txs).
Definition set_txs (db : Database) (t : TxTables) : Database :=
  mkDatabase db.(core) db.(index) db.(mail) t.

Definition put_log (i : IndexTables) (k : LogKey) (row : GatewayLogRow) : IndexTables :=
  mkIndexTables i.(live_indexer_configs) i.(indexer_degraded_states)
    (<[k := row]> i.(indexed_gateway_logs)) i.(verification_receipts) i.(request_resolutions).
Definition put_receipt (i : IndexTables) (k : ChainID * Hash) (row : ReceiptRow) : IndexTables :=
  mkIndexTables i.(live_indexer_configs) i.(indexer_degraded_states) i.(indexed_gateway_logs)
    (<[k := row]> i.(verification_receipts)) i.(request_resolutions).
Definition put_resolution (i : IndexTables) (k : RequestID) (row : ResolutionRow) : IndexTables :=
  mkIndexTables i.(live_indexer_configs) i.(indexer_degraded_states) i.(indexed_gateway_logs)
    i.(verification_receipts) (<[k := row]> i.(request_resolutions)).
Definition put_config (i : IndexTables) (k : ChainID) (row : IndexerConfig) : IndexTables :=
  mkIndexTables (<[k := row]> i.(live_indexer_configs)) i.(indexer_degraded_states)
    i.(indexed_gateway_logs) i.(verification_receipts) i.(request_resolutions).
Definition put_degraded (i : IndexTables) (k : ChainID) (reason : string) : IndexTables :=
  mkIndexTables i.(live_indexer_configs) (<[k := reason]> i.(indexer_degraded_states))
    i.(indexed_gateway_logs) i.(verification_receipts) i.(request_resolutions).

(** A repository of Store.v used on the whole database. *)
Definition on_core {A} (op : Store.DB → res Store.error (A * Store.DB)) (db : Database)
    : res error (A * Database) :=
  '(a, c) ← map_err ErrStore (op db.(core)); Ok (a, set_core db c).

End Tables.
