(* ===== verification/TransactionStore.v ===== *)
(** * Mapnode/store: transactions and execution work

    transaction_repository.go ([TransactionRepository]) and
    execution_work_repository.go ([ExecutionWorkRepository]) over the tables of
    Tables.v.

    [SavePrepared] is not one SQL transaction (insert, then read back), so it
    returns the database beside its result; the other operations that write
    are transactions.  [INSERT ... ON CONFLICT DO NOTHING] skips the row when a
    uniqueness constraint, the partial index [active_home_sender_nonce]
    included, is violated; a CHECK or a foreign key makes it fail. *)

From S2P Require Import Prelude Domain Evidence TrustView Reorg Planner PathProof Coordinator.
From S2P Require Import Indexer Envelope Submission Store GraphStore PlanStore ProofStore Tables.
Import Domain Tables.

Module TransactionStore.

Abbreviation Submission := Submission.TransactionSubmission.
Abbreviation SubmissionID := Submission.SubmissionID.

#[local] Existing Instances Submission.TransactionSubmission_eq_dec Coordinator.Request_eq_dec.

(** ** Rows *)

Definition active_state (state : Submission.ExecutionState) : bool :=
  (state =?= Submission.Prepared) || (state =?= Submission.Submitted)
  || (state =?= Submission.Retryable).

Definition set_state (s : Submission) (state : Submission.ExecutionState) (reason : string)
    (updatedAt : Z) (submittedAt : Evidence.Time) : Submission :=
  Submission.mkSubmission s.(Submission.sub_ID) s.(Submission.sub_RequestID)
    s.(Submission.sub_Attempt) s.(Submission.sub_PlanID) s.(Submission.sub_PlanType)
    s.(Submission.sub_SnapshotID) s.(Submission.sub_ProofID) s.(Submission.sub_HomeChainID)
    s.(Submission.sub_Gateway) s.(Submission.Sender) s.(Submission.Nonce)
    s.(Submission.CalldataHash) s.(Submission.RawSignedTx) s.(Submission.sub_TxHash)
    s.(Submission.MaxFeePerGas) s.(Submission.MaxPriorityFeePerGas) s.(Submission.GasLimit)
    state reason s.(Submission.sub_CreatedAt) (Some updatedAt) submittedAt.

(** The row [SavePrepared] writes, as it is read back. *)
Definition prepared_row (now : Z) (s : Submission) : Submission :=
  let created := default now s.(Submission.sub_CreatedAt) in
  Submission.mkSubmission s.(Submission.sub_ID) s.(Submission.sub_RequestID)
    (int64_of s.(Submission.sub_Attempt)) s.(Submission.sub_PlanID) s.(Submission.sub_PlanType)
    s.(Submission.sub_SnapshotID) s.(Submission.sub_ProofID) s.(Submission.sub_HomeChainID)
    s.(Submission.sub_Gateway) s.(Submission.Sender) (int64_of s.(Submission.Nonce))
    s.(Submission.CalldataHash) s.(Submission.RawSignedTx) s.(Submission.sub_TxHash)
    (Some (Submission.big_word s.(Submission.MaxFeePerGas)))
    (Some (Submission.big_word s.(Submission.MaxPriorityFeePerGas)))
    (int64_of s.(Submission.GasLimit)) Submission.Prepared "" (Some created)
    (Some (default created s.(Submission.sub_UpdatedAt))) None.

(** The CHECK constraints [ValidatePrepared] does not already imply. *)
Definition row_allowed (row : Submission) : bool :=
  (0 <=? row.(Submission.sub_Attempt)) && (0 <=? row.(Submission.Nonce))
  && (0 <? row.(Submission.GasLimit))
  && (0 <? default 0 row.(Submission.sub_CreatedAt))
  && (0 <? default 0 row.(Submission.sub_UpdatedAt)).

(** Two rows that a uniqueness constraint keeps apart. *)
Definition rows_conflict (row previous : Submission) : bool :=
  ((previous.(Submission.sub_RequestID) =?= row.(Submission.sub_RequestID))
     && (previous.(Submission.sub_Attempt) =? row.(Submission.sub_Attempt)))
  || (previous.(Submission.sub_TxHash) =?= row.(Submission.sub_TxHash))
  || (active_state previous.(Submission.sub_State) && active_state row.(Submission.sub_State)
      && (previous.(Submission.sub_HomeChainID) =?= row.(Submission.sub_HomeChainID))
      && (previous.(Submission.Sender) =?= row.(Submission.Sender))
      && (previous.(Submission.Nonce) =? row.(Submission.Nonce))).

Definition unique_conflict (t : TxTables) (row : Submission) : bool :=
  bool_decide (is_Some (t.(transaction_submissions) !! row.(Submission.sub_ID)))
  || existsb (rows_conflict row) (map_values t.(transaction_submissions)).

(** The foreign keys to requests, plans and proofs. *)
Definition foreign_keys (c : Store.DB) (row : Submission) : bool :=
  bool_decide (is_Some (c.(Store.requests) !! row.(Submission.sub_RequestID)))
  && match c.(Store.plans) !! row.(Submission.sub_PlanID) with
     | Some p => (p.(Planner.plan_RequestID) =?= row.(Submission.sub_RequestID))
                 && (p.(Planner.plan_SnapshotID) =?= row.(Submission.sub_SnapshotID))
     | None => false
     end
  && match row.(Submission.sub_ProofID) with
     | None => true
     | Some id =>
         match c.(Store.proofs) !! id with
         | Some p => (p.(Store.row_PlanID) =?= row.(Submission.sub_PlanID))
                     && (p.(Store.row_SnapshotID) =?= row.(Submission.sub_SnapshotID))
         | None => false
         end
     end.

Definition put_submission (t : TxTables) (row : Submission) : TxTables :=
  mkTxTables (<[row.(Submission.sub_ID) := row]> t.(transaction_submissions))
    t.(confirmed_transaction_receipts) t.(request_execution_transitions).

(** ** Reading *)

Definition scanTransactionSubmission (row : option Submission) : res error Submission :=
  match row with
  | None => Err (ErrStore Store.ErrRecordNotFound)
  | Some s =>
      if (s.(Submission.sub_Attempt) <? 0) || (s.(Submission.Nonce) <? 0)
         || (s.(Submission.GasLimit) <=? 0)
      then Err (ErrStore Store.ErrRecordConflict) else Ok s
  end.

Definition Load (db : Database) (id : SubmissionID) : res error Submission :=
  scanTransactionSubmission (db.(txs).(transaction_submissions) !! id).

(** [ORDER BY attempt DESC LIMIT 1] *)
Definition latest_row (rows : list Submission) : option Submission :=
  foldr (λ s best, match best with
                   | Some b => if b.(Submission.sub_Attempt) <? s.(Submission.sub_Attempt)
                               then Some s else Some b
                   | None => Some s
                   end) None rows.

Definition request_rows (db : Database) (requestID : RequestID) : list Submission :=
  List.filter (λ s, s.(Submission.sub_RequestID) =?= requestID)
    (map_values db.(txs).(transaction_submissions)).

Definition LoadActive (db : Database) (requestID : RequestID) : res error Submission :=
  scanTransactionSubmission
    (latest_row (List.filter (λ s, active_state s.(Submission.sub_State))
                   (request_rows db requestID))).

Definition LoadLatestForRequest (db : Database) (requestID : RequestID) : res error Submission :=
  scanTransactionSubmission (latest_row (request_rows db requestID)).

(** [ORDER BY nonce,created_at] *)
Definition recovery_key (s : Submission) : bytes :=
  be_bytes 8 s.(Submission.Nonce) ++ be_bytes 8 (default 0 s.(Submission.sub_CreatedAt)).

Fixpoint scan_all (rows : list Submission) : res error (list Submission) :=
  match rows with
  | [] => Ok []
  | row :: rest =>
      s ← scanTransactionSubmission (Some row);
      more ← scan_all rest;
      Ok (s :: more)
  end.

Definition ListRecoverable (db : Database) : res error (list Submission) :=
  scan_all (sort_by recovery_key
    (List.filter (λ s, active_state s.(Submission.sub_State))
       (map_values db.(txs).(transaction_submissions)))).

(** ** Writing *)

Definition SavePrepared (keccak256 : bytes → Hash) (now : Z) (submission : Submission)
    (db : Database) : res error (Submission * bool) * Database :=
  match Submission.ValidatePrepared keccak256 submission with
  | Err e => (Err (ErrSubmission e), db)
  | Ok _ =>
      let row := prepared_row now submission in
      let inserted := negb (unique_conflict db.(txs) row) in
      if negb (row_allowed row) || (inserted && negb (foreign_keys db.(core) row))
      then (Err (ErrStore Store.ErrConstraint), db)
      else
        let db' := if inserted then set_txs db (put_submission db.(txs) row) else db in
        (loaded ← Load db' submission.(Submission.sub_ID);
         if (Submission.ComputeSubmissionID keccak256 loaded ≠?= submission.(Submission.sub_ID))
            || (loaded.(Submission.sub_RequestID) ≠?= submission.(Submission.sub_RequestID))
            || (loaded.(Submission.sub_TxHash) ≠?= submission.(Submission.sub_TxHash))
         then Err (ErrStore Store.ErrRecordConflict)
         else Ok (loaded, inserted), db')
  end.

Definition needs_reason (to : Submission.ExecutionState) : bool :=
  (to =?= Submission.Retryable) || (to =?= Submission.Reverted) || (to =?= Submission.Superseded).

Definition execution_logged (t : TxTables) (id : SubmissionID)
    (from to : Submission.ExecutionState) : bool :=
  existsb (λ e, match e with (i, f, t', _, _) => (i =?= id) && (f =?= from) && (t' =?= to) end)
    t.(request_execution_transitions).

Definition log_execution (t : TxTables) (id : SubmissionID) (row : Submission)
    (from to : Submission.ExecutionState) (reason : string) (at_ : Z) : TxTables :=
  mkTxTables (<[id := row]> t.(transaction_submissions)) t.(confirmed_transaction_receipts)
    (t.(request_execution_transitions) ++ [(id, from, to, reason, at_)]).

Definition Transition (now : Z) (id : SubmissionID) (from to : Submission.ExecutionState)
    (reason : string) (at_ : Evidence.Time) (db : Database)
    : res error (Submission * bool * Database) :=
  _ ← map_err ErrSubmission (Submission.ValidateExecutionTransition from to);
  if needs_reason to && (reason =?= "") then Err ErrTransitionReason
  else
    let changed := default now at_ in
    current ← Load db id;
    if current.(Submission.sub_State) =?= to then Ok (current, false, db)
    else if current.(Submission.sub_State) ≠?= from then Err (ErrStore Store.ErrConcurrentUpdate)
    else
      let stateReason := if needs_reason to then reason else "" in
      let submittedAt := if to =?= Submission.Submitted then Some changed
                         else current.(Submission.SubmittedAt) in
      if negb (0 <? changed) || execution_logged db.(txs) id from to
      then Err (ErrStore Store.ErrConstraint)
      else
        let updated := set_state current to stateReason changed submittedAt in
        Ok (updated, true,
            set_txs db (log_execution db.(txs) id updated from to reason changed)).

(** The query of [Confirm]: the receipt and the resolution the indexer wrote
    for exactly this transaction. *)
Definition indexer_bundle (i : IndexTables) (chain : ChainID) (txHash : Hash)
    (number : BlockHeight) (hash : Hash) (request : RequestID) : bool :=
  match i.(verification_receipts) !! (chain, txHash), i.(request_resolutions) !! request with
  | Some vr, Some rr =>
      (vr.(vr_RequestID) =?= request) && (rr.(rr_ChainID) =?= chain)
      && (rr.(rr_TxHash) =?= txHash) && (vr.(vr_BlockNumber) =?= number)
      && (vr.(vr_BlockHash) =?= hash)
  | _, _ => false
  end.

Definition put_confirmed (t : TxTables) (id : SubmissionID) (row : ConfirmedRow) : TxTables :=
  mkTxTables t.(transaction_submissions) (<[id := row]> t.(confirmed_transaction_receipts))
    t.(request_execution_transitions).

Definition confirmed_unique (t : TxTables) (id : SubmissionID) (row : ConfirmedRow) : bool :=
  negb (bool_decide (is_Some (t.(confirmed_transaction_receipts) !! id)))
  && negb (existsb (λ r, (r.(cf_HomeChainID) =?= row.(cf_HomeChainID))
                         && (r.(cf_BlockHash) =?= row.(cf_BlockHash))
                         && (r.(cf_TxHash) =?= row.(cf_TxHash)))
             (map_values t.(confirmed_transaction_receipts))).

Definition Confirm (now : Z) (receipt : Submission.ConfirmedTransactionReceipt) (db : Database)
    : res error Database :=
  let id := receipt.(Submission.ct_SubmissionID) in
  let txHash := receipt.(Submission.ct_TxHash) in
  if (id =?= zero32) || (receipt.(Submission.ct_RequestID) =?= zero32) || (txHash =?= zero32)
     || (receipt.(Submission.ct_BlockHash) =?= zero32)
     || negb (receipt.(Submission.ct_Status) =? 1) || (receipt.(Submission.ct_Confirmations) =? 0)
  then Err ErrConfirmedReceipt
  else
    let confirmedAt := default now receipt.(Submission.ConfirmedAt) in
    submission ← Load db id;
    if (submission.(Submission.sub_RequestID) ≠?= receipt.(Submission.ct_RequestID))
       || (submission.(Submission.sub_TxHash) ≠?= txHash)
       || ((submission.(Submission.sub_State) ≠?= Submission.Submitted)
           && (submission.(Submission.sub_State) ≠?= Submission.Confirmed))
    then Err (ErrStore Store.ErrRecordConflict)
    else
      let chain := submission.(Submission.sub_HomeChainID) in
      let number := uint256FromUint64 receipt.(Submission.ct_BlockNumber) in
      if negb (indexer_bundle db.(index) chain txHash number
                 receipt.(Submission.ct_BlockHash) receipt.(Submission.ct_RequestID))
      then Err ErrIndexerBundlePending
      else if submission.(Submission.sub_State) =?= Submission.Confirmed then
        match db.(txs).(confirmed_transaction_receipts) !! id with
        | Some row =>
            if row.(cf_BlockHash) ≠?= receipt.(Submission.ct_BlockHash)
            then Err (ErrStore Store.ErrRecordConflict) else Ok db
        | None => Err (ErrStore Store.ErrRecordConflict)
        end
      else
        let row := mkConfirmedRow receipt.(Submission.ct_RequestID) txHash chain number
          receipt.(Submission.ct_BlockHash) (int64_of receipt.(Submission.ct_Confirmations))
          confirmedAt in
        if negb (0 <? row.(cf_Confirmations)) || negb (0 <? confirmedAt)
           || negb (confirmed_unique db.(txs) id row)
           || execution_logged db.(txs) id Submission.Submitted Submission.Confirmed
        then Err (ErrStore Store.ErrConstraint)
        else
          Ok (set_txs db (log_execution (put_confirmed db.(txs) id row) id
                (set_state submission Submission.Confirmed "" confirmedAt
                   submission.(Submission.SubmittedAt))
                Submission.Submitted Submission.Confirmed "" confirmedAt)).

(** ** Execution work *)

(** [ORDER BY r.created_at,r.id LIMIT 1] *)
Definition request_key (r : Coordinator.Request) : bytes :=
  be_bytes 8 (default 0 r.(Coordinator.req_CreatedAt)) ++ r.(Coordinator.req_ID).

Definition open_request (db : Database) (r : Coordinator.Request) : bool :=
  (r.(Coordinator.req_State) ≠?= Coordinator.Rejected)
  && negb (bool_decide (is_Some (db.(index).(request_resolutions) !! r.(Coordinator.req_ID))))
  && negb (existsb (λ s, s.(Submission.sub_State) =?= Submission.Confirmed)
             (request_rows db r.(Coordinator.req_ID))).

Definition any_active (db : Database) : bool :=
  existsb (λ s, active_state s.(Submission.sub_State))
    (map_values db.(txs).(transaction_submissions)).

Definition NextRequest (db : Database) : option Coordinator.Request :=
  if any_active db then None
  else hd_error (sort_by request_key
         (List.filter (open_request db) (map_values db.(core).(Store.requests)))).

(** [MAX(p.attempt)] *)
Definition max_attempt (c : Store.DB) (id : RequestID) : option Z :=
  foldr (λ p best, if p.(Planner.plan_RequestID) =?= id
                   then Some (match best with
                              | Some b => Z.max b p.(Planner.plan_Attempt)
                              | None => p.(Planner.plan_Attempt)
                              end)
                   else best) None (map_values c.(Store.plans)).

Definition NextAttempt (db : Database) (id : RequestID) : res error Z :=
  match db.(core).(Store.requests) !! id with
  | None => Err (ErrStore Store.ErrRecordNotFound)
  | Some r =>
      match max_attempt db.(core) id with
      | None => Ok 0
      | Some a =>
          if r.(Coordinator.req_State) =?= Coordinator.Retryable then Ok (wrap64 (a + 1))
          else Ok (wrap64 a)
      end
  end.

Definition CreateSnapshot (keccak256 : bytes → Hash) (request : Coordinator.Request)
    (attempt : Z) (home target : TrustView.TrustNode) (db : Database)
    : res error (TrustView.TrustViewSnapshot * Database) :=
  on_core (GraphStore.CreateTrustViewSnapshot keccak256
    (GraphStore.mkSnapshotRequest request.(Coordinator.req_ID) attempt
       request.(Coordinator.req_HomeChainID) home.(TrustView.node_Root)
       home.(TrustView.node_ID) target.(TrustView.node_ID))) db.

Definition MarkRetryable (now : Z) (request : Coordinator.Request) (reason : string)
    (db : Database) : res error Database :=
  if reason =?= "" then Err ErrTransitionReason
  else
    persisted ← map_err ErrStore (Store.LoadRequest db.(core) request.(Coordinator.req_ID));
    if persisted.(Coordinator.req_State) =?= Coordinator.Retryable then Ok db
    else if persisted.(Coordinator.req_State) ≠?= request.(Coordinator.req_State)
    then Err (ErrStore Store.ErrConcurrentUpdate)
    else
      '(_, db') ← on_core (Store.TransitionRequest now request.(Coordinator.req_ID)
        persisted.(Coordinator.req_State) Coordinator.Retryable (Some now) reason) db;
      Ok db'.

(** ** What the tables promise *)

Definition logged_execution (t : TxTables) (id : SubmissionID)
    : list (Submission.ExecutionState * Submission.ExecutionState) :=
  Store.steps_of t.(request_execution_transitions) id.

(** A stored submission: content-addressed, with its hash, its plan and, for a
    path plan, its proof. *)
Record submission_ok (keccak256 : bytes → Hash) (c : Store.DB) (id : SubmissionID)
    (s : Submission) : Prop := {
  so_id : s.(Submission.sub_ID) = id;
  so_address : Submission.ComputeSubmissionID keccak256 s = id;
  so_hash : keccak256 s.(Submission.RawSignedTx) = s.(Submission.sub_TxHash);
  so_range : 0 ≤ s.(Submission.sub_Attempt) ∧ 0 ≤ s.(Submission.Nonce) ∧ 0 < s.(Submission.GasLimit);
  so_proof : s.(Submission.sub_PlanType) = Planner.PathPlan ∧ s.(Submission.sub_ProofID) ≠ None
           ∨ s.(Submission.sub_PlanType) = Planner.DirectPlan ∧ s.(Submission.sub_ProofID) = None;
  so_keys : foreign_keys c s = true
}.

Record txs_wf (keccak256 : bytes → Hash) (db : Database) : Prop := {
  tx_row id s : db.(txs).(transaction_submissions) !! id = Some s →
    submission_ok keccak256 db.(core) id s;
  tx_history id s : db.(txs).(transaction_submissions) !! id = Some s →
    Store.history Submission.execution_step Submission.Prepared (logged_execution db.(txs) id)
      s.(Submission.sub_State);
  tx_once id : NoDup (logged_execution db.(txs) id);
  tx_unlogged id : db.(txs).(transaction_submissions) !! id = None →
    logged_execution db.(txs) id = [];
  tx_unique id1 id2 s1 s2 :
    db.(txs).(transaction_submissions) !! id1 = Some s1 →
    db.(txs).(transaction_submissions) !! id2 = Some s2 → rows_conflict s1 s2 = true → id1 = id2;
  tx_receipt id s : db.(txs).(transaction_submissions) !! id = Some s →
    (s.(Submission.sub_State) = Submission.Confirmed ↔
     is_Some (db.(txs).(confirmed_transaction_receipts) !! id));
  tx_confirmed id row : db.(txs).(confirmed_transaction_receipts) !! id = Some row →
    ∃ s, db.(txs).(transaction_submissions) !! id = Some s ∧
      row.(cf_RequestID) = s.(Submission.sub_RequestID) ∧
      row.(cf_TxHash) = s.(Submission.sub_TxHash) ∧
      row.(cf_HomeChainID) = s.(Submission.sub_HomeChainID) ∧
      indexer_bundle db.(index) row.(cf_HomeChainID) row.(cf_TxHash) row.(cf_BlockNumber)
        row.(cf_BlockHash) row.(cf_RequestID) = true
}.

(** ** Lemmas *)

Lemma scan_Ok row s :
  scanTransactionSubmission row = Ok s →
  row = Some s ∧ 0 ≤ s.(Submission.sub_Attempt) ∧ 0 ≤ s.(Submission.Nonce)
  ∧ 0 < s.(Submission.GasLimit).
Proof.
  destruct row as [r|]; [|done]. cbn. intros [H [= <-]]%bind_bool. bool_to_prop.
  split_and!; [done|lia..].
Qed.

Lemma Load_Ok db id s : Load db id = Ok s → db.(txs).(transaction_submissions) !! id = Some s.
Proof. intros H. by apply scan_Ok in H as [? _]. Qed.

Lemma Load_wf keccak256 db id s :
  txs_wf keccak256 db → db.(txs).(transaction_submissions) !! id = Some s → Load db id = Ok s.
Proof.
  intros W Hs. unfold Load. rewrite Hs. cbn. destruct (tx_row _ _ W _ _ Hs) as [_ _ _ (? & ? & ?) _ _].
  rewrite (proj2 (Z.ltb_ge _ _)), (proj2 (Z.ltb_ge _ _)), (proj2 (Z.leb_gt _ _)) by lia. done.
Qed.

Lemma be_bytes_mod n z : be_bytes n (z mod 256 ^ Z.of_nat n) = be_bytes n z.
Proof.
  unfold be_bytes. f_equal. apply be_value_vec_inj.
  change (vec_to_list (be_vec n ?z)) with (be_bytes n z).
  rewrite !be_value_be_bytes. apply Z.mod_mod. pose proof (Z.pow_pos_nonneg 256 (Z.of_nat n)). lia.
Qed.

Lemma appendUint64_int64 v : Submission.appendUint64 (int64_of v) = Submission.appendUint64 v.
Proof.
  unfold Submission.appendUint64, int64_of, Envelope.int64_of. case_match; [done|].
  rewrite <-(be_bytes_mod 8 (v - _)), <-(be_bytes_mod 8 v). f_equal.
  change (256 ^ Z.of_nat 8) with (2 ^ 64).
  rewrite <-(Z_mod_plus_full (v - 2 ^ 64) 1 (2 ^ 64)). f_equal. lia.
Qed.

Lemma big_word_idem v : Submission.big_word (Some (Submission.big_word v)) = Submission.big_word v.
Proof.
  destruct v as [v|]; [|done]. cbn [Submission.big_word].
  destruct ((0 <=? Z.sgn v) && (bit_len v <=? 256)) eqn:H; [by rewrite H|done].
Qed.

Lemma prepared_row_encoding now s :
  Submission.submission_encoding (prepared_row now s) = Submission.submission_encoding s.
Proof.
  unfold Submission.submission_encoding, prepared_row. cbn [Submission.sub_RequestID
    Submission.sub_Attempt Submission.sub_PlanID Submission.sub_PlanType Submission.sub_SnapshotID
    Submission.sub_ProofID Submission.sub_HomeChainID Submission.sub_Gateway Submission.Sender
    Submission.Nonce Submission.CalldataHash Submission.RawSignedTx Submission.sub_TxHash
    Submission.MaxFeePerGas Submission.MaxPriorityFeePerGas Submission.GasLimit].
  unfold Submission.appendBigWord. by rewrite !appendUint64_int64, !big_word_idem.
Qed.

Lemma ValidatePrepared_Ok keccak256 s :
  Submission.ValidatePrepared keccak256 s = Ok tt →
  Submission.ComputeSubmissionID keccak256 s = s.(Submission.sub_ID) ∧
  keccak256 s.(Submission.RawSignedTx) = s.(Submission.sub_TxHash) ∧
  (s.(Submission.sub_PlanType) = Planner.PathPlan ∧ s.(Submission.sub_ProofID) ≠ None
   ∨ s.(Submission.sub_PlanType) = Planner.DirectPlan ∧ s.(Submission.sub_ProofID) = None).
Proof.
  unfold Submission.ValidatePrepared.
  intros [_ [Hp [Hid [Hh _]%bind_bool]%bind_bool]%bind_bool]%bind_bool. bool_to_prop.
  split_and!; [done..|].
  destruct (bool_decide_reflect (s.(Submission.sub_PlanType) = Planner.PathPlan)).
  - left. split; [done|]. by apply bool_decide_eq_false in Hp.
  - right. bool_to_prop. done.
Qed.

(** What [SavePrepared] does: nothing, or one new row. *)
Lemma SavePrepared_effect keccak256 now submission db r db' :
  SavePrepared keccak256 now submission db = (r, db') →
  (db' = db ∧ ∀ s b, r = Ok (s, b) →
     b = false ∧ db.(txs).(transaction_submissions) !! submission.(Submission.sub_ID) = Some s) ∨
  (let row := prepared_row now submission in
   r = Ok (row, true) ∧ db' = set_txs db (put_submission db.(txs) row) ∧
   Submission.ValidatePrepared keccak256 submission = Ok tt ∧
   row_allowed row = true ∧ unique_conflict db.(txs) row = false ∧
   foreign_keys db.(core) row = true).
Proof.
  unfold SavePrepared.
  destruct (Submission.ValidatePrepared keccak256 submission) as [[]|e] eqn:Hv;
    [|intros [= <- <-]; by left; split].
  destruct (unique_conflict _ _) eqn:Hu; cbn [negb andb].
  { destruct (negb (row_allowed _) || _); [intros [= <- <-]; by left; split|].
    intros [= <- <-]. left. split; [done|]. intros s b H.
    apply bind_Ok in H as (loaded & Hl%Load_Ok & [_ [= <- <-]]%bind_bool). done. }
  destruct (row_allowed _) eqn:Ha; cbn [negb orb]; [|intros [= <- <-]; by left; split].
  destruct (foreign_keys _ _) eqn:Hf; cbn [negb]; [|intros [= <- <-]; by left; split].
  intros [= <- <-]. right. split_and!; try done.
  destruct (ValidatePrepared_Ok _ _ Hv) as (Hid & _ & _).
  unfold Load. cbn [txs set_txs put_submission transaction_submissions].
  rewrite lookup_insert_eq. unfold row_allowed in Ha. bool_to_prop. cbn [scanTransactionSubmission].
  rewrite (proj2 (Z.ltb_ge _ _)), (proj2 (Z.ltb_ge _ _)), (proj2 (Z.leb_gt _ _)) by done.
  cbn [orb mbind res_mbind res_bind]. unfold Submission.ComputeSubmissionID in *.
  rewrite prepared_row_encoding, Hid, !bool_decide_eq_true_2 by done. done.
Qed.

Lemma rows_conflict_sym s t : rows_conflict s t = rows_conflict t s.
Proof.
  unfold rows_conflict.
  rewrite (Z.eqb_sym s.(Submission.sub_Attempt)), (Z.eqb_sym s.(Submission.Nonce)).
  assert (∀ (A : Type) (D : EqDecision A) (a b : A), bool_decide (a = b) = bool_decide (b = a)) as E
    by (intros; by apply bool_decide_ext).
  rewrite (E _ _ s.(Submission.sub_RequestID)), (E _ _ s.(Submission.sub_TxHash)),
    (E _ _ s.(Submission.sub_HomeChainID)), (E _ _ s.(Submission.Sender)).
  by rewrite (andb_comm (active_state s.(Submission.sub_State))).
Qed.

(** A row that leaves the active states makes no new conflict. *)
Lemma rows_conflict_set s state reason at_ sent t :
  active_state s.(Submission.sub_State) = true →
  rows_conflict (set_state s state reason at_ sent) t = true → rows_conflict s t = true.
Proof.
  unfold rows_conflict. cbn [set_state Submission.sub_RequestID Submission.sub_Attempt
    Submission.sub_TxHash Submission.sub_State Submission.sub_HomeChainID Submission.Sender
    Submission.Nonce]. intros ->.
  rewrite !orb_true_iff, !andb_true_iff. tauto.
Qed.

Lemma rows_conflict_set2 s state reason at_ sent t :
  active_state s.(Submission.sub_State) = true →
  rows_conflict t (set_state s state reason at_ sent) = true → rows_conflict t s = true.
Proof. rewrite !(rows_conflict_sym t). apply rows_conflict_set. Qed.

Lemma execution_step_active from to : Submission.execution_step from to → active_state from = true.
Proof. by intros []. Qed.

Lemma execution_step_final from to :
  Submission.execution_step from to → from ≠ to ∧ from ≠ Submission.Confirmed.
Proof. by intros []. Qed.

Lemma unique_conflict_false t row :
  unique_conflict t row = false →
  t.(transaction_submissions) !! row.(Submission.sub_ID) = None ∧
  ∀ id s, t.(transaction_submissions) !! id = Some s → rows_conflict row s = false.
Proof.
  unfold unique_conflict. intros [H1 H2]%orb_false_iff. split.
  - apply bool_decide_eq_false in H1. by apply eq_None_not_Some.
  - intros id s Hs. apply not_true_iff_false. intros Hc. apply not_true_iff_false in H2.
    destruct H2. apply existsb_exists. exists s. split; [|done].
    apply list_elem_of_In. unfold map_values. apply list_elem_of_fmap.
    exists (id, s). split; [done|]. by apply elem_of_map_to_list.
Qed.

Lemma execution_logged_spec t id from to :
  execution_logged t id from to = true ↔ (from, to) ∈ logged_execution t id.
Proof. apply Store.steps_of_logged. Qed.

Lemma SavePrepared_wf keccak256 now submission db r db' :
  txs_wf keccak256 db → SavePrepared keccak256 now submission db = (r, db') →
  txs_wf keccak256 db'.
Proof.
  intros W [[-> _]|(_ & -> & Hv & Ha & Hu & Hf)]%SavePrepared_effect; [done|].
  set (row := prepared_row now submission) in *.
  apply unique_conflict_false in Hu as [Hnone Hfresh].
  destruct (ValidatePrepared_Ok _ _ Hv) as (Hid & Hh & Hp).
  destruct W as [W1 W2 W3 W4 W5 W6 W7].
  split; unfold logged_execution in *; cbn [txs set_txs put_submission transaction_submissions
    confirmed_transaction_receipts request_execution_transitions core index].
  - intros id s [[<- <-]|[_ Hs]]%lookup_insert_Some; [|by apply W1].
    unfold row_allowed in Ha. bool_to_prop. split; try done.
    unfold Submission.ComputeSubmissionID in *. unfold row. by rewrite prepared_row_encoding.
  - intros id s [[<- <-]|[_ Hs]]%lookup_insert_Some; [|by apply W2].
    rewrite W4 by done. constructor.
  - done.
  - intros id [Hs _]%lookup_insert_None. by apply W4.
  - intros id1 id2 s1 s2 H1 H2 Hc.
    apply lookup_insert_Some in H1 as [[<- <-]|[Hn1 H1]];
      apply lookup_insert_Some in H2 as [[<- <-]|[Hn2 H2]]; [done| | |by eapply W5].
    + by rewrite (Hfresh _ _ H2) in Hc.
    + by rewrite rows_conflict_sym, (Hfresh _ _ H1) in Hc.
  - intros id s [[<- <-]|[_ Hs]]%lookup_insert_Some; [|by apply W6]. split; [done|].
    intros [c Hc]. apply W7 in Hc as (s & Hs & _). congruence.
  - intros id c Hc. apply W7 in Hc as (s & Hs & Hrest). exists s. split; [|done].
    rewrite lookup_insert_ne; [done|]. intros <-. congruence.
Qed.

(** A logged change of state of one row. *)
Lemma log_execution_wf keccak256 db id s to stateReason reason at_ sent confirmed :
  txs_wf keccak256 db → db.(txs).(transaction_submissions) !! id = Some s →
  Submission.execution_step s.(Submission.sub_State) to →
  execution_logged db.(txs) id s.(Submission.sub_State) to = false →
  (∀ id', id' ≠ id →
     confirmed !! id' = db.(txs).(confirmed_transaction_receipts) !! id') →
  (to = Submission.Confirmed ↔ is_Some (confirmed !! id)) →
  (∀ row, confirmed !! id = Some row →
     row.(cf_RequestID) = s.(Submission.sub_RequestID) ∧
     row.(cf_TxHash) = s.(Submission.sub_TxHash) ∧
     row.(cf_HomeChainID) = s.(Submission.sub_HomeChainID) ∧
     indexer_bundle db.(index) row.(cf_HomeChainID) row.(cf_TxHash) row.(cf_BlockNumber)
       row.(cf_BlockHash) row.(cf_RequestID) = true) →
  txs_wf keccak256
    (set_txs db (log_execution
       (mkTxTables db.(txs).(transaction_submissions) confirmed
          db.(txs).(request_execution_transitions))
       id (set_state s to stateReason at_ sent) s.(Submission.sub_State) to reason at_)).
Proof.
  intros [W1 W2 W3 W4 W5 W6 W7] Hs Hstep Hlog Hother Hconf Hrow.
  pose proof (execution_step_active _ _ Hstep) as Hact.
  split; unfold logged_execution in *; cbn [txs set_txs log_execution transaction_submissions
    confirmed_transaction_receipts request_execution_transitions core index].
  - intros id' s' [[<- <-]|[_ Hs']]%lookup_insert_Some; [|by apply W1].
    destruct (W1 _ _ Hs). by split.
  - intros id' s' [[<- <-]|[Hn Hs']]%lookup_insert_Some; rewrite Store.steps_of_snoc.
    + rewrite decide_True by done. constructor; [|done]. by apply W2.
    + rewrite decide_False by done. by apply W2.
  - intros id'. rewrite Store.steps_of_snoc. case_decide as Hi; [|by apply W3]. subst id'.
    apply NoDup_app. split_and!; [by apply W3| |apply NoDup_singleton].
    intros x Hx ->%list_elem_of_singleton. apply execution_logged_spec in Hx. congruence.
  - intros id' [Hs' Hn]%lookup_insert_None. rewrite Store.steps_of_snoc, decide_False by done.
    by apply W4.
  - intros id1 id2 s1 s2 H1 H2 Hc.
    apply lookup_insert_Some in H1 as [[<- <-]|[Hn1 H1]];
      apply lookup_insert_Some in H2 as [[<- <-]|[Hn2 H2]]; [done| | |by eapply W5].
    + apply rows_conflict_set in Hc; [|done]. by eapply W5.
    + apply rows_conflict_set2 in Hc; [|done]. by eapply W5.
  - intros id' s' [[<- <-]|[Hn Hs']]%lookup_insert_Some; [done|].
    rewrite Hother by done. by apply W6.
  - intros id' row Hc. destruct (decide (id' = id)) as [->|Hn].
    + exists (set_state s to stateReason at_ sent). rewrite lookup_insert_eq.
      split; [done|]. by apply Hrow.
    + rewrite Hother in Hc by done. apply W7 in Hc as (s' & Hs' & Hrest). exists s'.
      by rewrite lookup_insert_ne.
Qed.

Lemma Transition_effect now id from to reason at_ db s b db' :
  Transition now id from to reason at_ db = Ok (s, b, db') →
  s.(Submission.sub_State) = to ∧
  ((b = false ∧ db' = db ∧ db.(txs).(transaction_submissions) !! id = Some s) ∨
   (b = true ∧ Submission.execution_step from to ∧
    ∃ current stateReason changed sent,
      db.(txs).(transaction_submissions) !! id = Some current ∧
      current.(Submission.sub_State) = from ∧
      execution_logged db.(txs) id from to = false ∧
      s = set_state current to stateReason changed sent ∧
      db' = set_txs db (log_execution db.(txs) id s from to reason changed))).
Proof.
  unfold Transition. intros ([] & Hv%map_err_Ok%Submission.ValidateExecutionTransition_Ok & H)%bind_Ok.
  apply bind_bool in H as [_ H]. apply bind_Ok in H as (current & Hl%Load_Ok & H).
  case_bool_decide as Hto; [injection H as <- <- <-; auto|].
  apply bind_bool in H as [Hfrom H]. apply bind_bool in H as [Hk [= <- <- <-]]. bool_to_prop.
  split; [done|]. right. split_and!; [done..|]. by eexists _, _, _, _.
Qed.

Lemma Transition_wf keccak256 now id from to reason at_ db s b db' :
  to ≠ Submission.Confirmed → txs_wf keccak256 db →
  Transition now id from to reason at_ db = Ok (s, b, db') → txs_wf keccak256 db'.
Proof.
  intros Hto W (_ & [(_ & -> & _)|(_ & Hs & c & sr & ch & sent & Hc & <- & Hlog & -> & ->)])%Transition_effect;
    [done|].
  pose proof (tx_receipt _ _ W _ _ Hc) as Hr. destruct (execution_step_final _ _ Hs) as [_ Hne].
  destruct db as [c0 i0 m0 [subs conf log]].
  apply (log_execution_wf keccak256 (mkDatabase c0 i0 m0 (mkTxTables subs conf log))); try done.
  - split; [done|]. intros Hx. by apply Hr in Hx.
  - intros row Hrow. destruct Hne. apply Hr. by exists row.
Qed.

Lemma Confirm_effect now receipt db db' :
  Confirm now receipt db = Ok db' →
  let id := receipt.(Submission.ct_SubmissionID) in
  ∃ s, db.(txs).(transaction_submissions) !! id = Some s ∧
    s.(Submission.sub_RequestID) = receipt.(Submission.ct_RequestID) ∧
    s.(Submission.sub_TxHash) = receipt.(Submission.ct_TxHash) ∧
    indexer_bundle db.(index) s.(Submission.sub_HomeChainID) s.(Submission.sub_TxHash)
      (uint256FromUint64 receipt.(Submission.ct_BlockNumber)) receipt.(Submission.ct_BlockHash)
      s.(Submission.sub_RequestID) = true ∧
    ((s.(Submission.sub_State) = Submission.Confirmed ∧ db' = db) ∨
     (s.(Submission.sub_State) = Submission.Submitted ∧
      ∃ row at_ sent, row.(cf_RequestID) = s.(Submission.sub_RequestID) ∧
        row.(cf_TxHash) = s.(Submission.sub_TxHash) ∧
        row.(cf_HomeChainID) = s.(Submission.sub_HomeChainID) ∧
        row.(cf_BlockNumber) = uint256FromUint64 receipt.(Submission.ct_BlockNumber) ∧
        row.(cf_BlockHash) = receipt.(Submission.ct_BlockHash) ∧
        execution_logged db.(txs) id Submission.Submitted Submission.Confirmed = false ∧
        db' = set_txs db (log_execution (put_confirmed db.(txs) id row) id
                (set_state s Submission.Confirmed "" at_ sent) Submission.Submitted
                Submission.Confirmed "" at_))).
Proof.
  unfold Confirm. intros [_ H]%bind_bool. apply bind_Ok in H as (s & Hs%Load_Ok & H).
  apply bind_bool in H as [Hb H]. apply bind_bool in H as [Hi H]. bool_to_prop.
  exists s. split_and!; [done..|congruence|].
  destruct (bool_decide_reflect (s.(Submission.sub_State) = Submission.Confirmed)) as [He|He].
  - left. split; [done|]. destruct (confirmed_transaction_receipts _ !! _); [|done].
    by apply bind_bool in H as [_ [= ->]].
  - right. apply bind_bool in H as [Hk [= <-]]. bool_to_prop.
    match goal with Ho : _ && _ = false |- _ =>
      apply andb_false_iff in Ho as [Ho|Ho]; [bool_to_prop|discriminate Ho] end.
    split; [done|]. eexists _, _, _. split_and!. all: try done. all: by symmetry.
Qed.

Lemma Confirm_wf keccak256 now receipt db db' :
  txs_wf keccak256 db → Confirm now receipt db = Ok db' → txs_wf keccak256 db'.
Proof.
  intros W (s & Hs & _ & _ & Hi & [[_ ->]|(Hst & row & at_ & sent & H1 & H2 & H3 & H4 & H5 & Hlog & ->)])%Confirm_effect;
    [done|].
  destruct db as [c0 i0 m0 [subs conf log]]. rewrite <-Hst in Hlog |- *.
  unfold put_confirmed. cbn [txs transaction_submissions confirmed_transaction_receipts
    request_execution_transitions].
  apply (log_execution_wf keccak256 (mkDatabase c0 i0 m0 (mkTxTables subs conf log))); try done.
  - rewrite Hst. constructor.
  - intros id' Hn. by rewrite lookup_insert_ne.
  - split; [|done]. intros _. rewrite lookup_insert_eq. by eexists.
  - intros row' Hrow. rewrite lookup_insert_eq in Hrow. injection Hrow as <-.
    split_and!; [done..|]. by rewrite H1, H2, H3, H4, H5.
Qed.

(** What the other tables have to keep. *)
Definition backing_kept (db db' : Database) : Prop :=
  (∀ id, is_Some (db.(core).(Store.requests) !! id) →
     is_Some (db'.(core).(Store.requests) !! id)) ∧
  (∀ id p, db.(core).(Store.plans) !! id = Some p → db'.(core).(Store.plans) !! id = Some p) ∧
  (∀ id p, db.(core).(Store.proofs) !! id = Some p → db'.(core).(Store.proofs) !! id = Some p) ∧
  (∀ k r, db.(index).(verification_receipts) !! k = Some r →
     db'.(index).(verification_receipts) !! k = Some r) ∧
  (∀ k r, db.(index).(request_resolutions) !! k = Some r →
     db'.(index).(request_resolutions) !! k = Some r).

Lemma foreign_keys_mono db db' s :
  backing_kept db db' → foreign_keys db.(core) s = true → foreign_keys db'.(core) s = true.
Proof.
  intros (Hr & Hp & Hq & _). unfold foreign_keys.
  intros [[H1%bool_decide_eq_true H2]%andb_true_iff H3]%andb_true_iff.
  apply andb_true_iff. split; [apply andb_true_iff; split|].
  - apply bool_decide_eq_true. by apply Hr.
  - destruct (Store.plans (core db) !! _) as [p|] eqn:E; [|done]. by rewrite (Hp _ _ E).
  - destruct (Submission.sub_ProofID s) as [q|]; [|done].
    destruct (Store.proofs (core db) !! _) as [p|] eqn:E; [|done]. by rewrite (Hq _ _ E).
Qed.

Lemma indexer_bundle_mono db db' chain tx number hash request :
  backing_kept db db' → indexer_bundle db.(index) chain tx number hash request = true →
  indexer_bundle db'.(index) chain tx number hash request = true.
Proof.
  intros (_ & _ & _ & Hv & Hr). unfold indexer_bundle.
  destruct (verification_receipts (index db) !! _) as [v|] eqn:Ev; [|done].
  destruct (request_resolutions (index db) !! _) as [r|] eqn:Er; [|done].
  by rewrite (Hv _ _ Ev), (Hr _ _ Er).
Qed.

Lemma txs_wf_mono keccak256 db db' :
  backing_kept db db' → db'.(txs) = db.(txs) → txs_wf keccak256 db → txs_wf keccak256 db'.
Proof.
  intros Hk Ht [W1 W2 W3 W4 W5 W6 W7]. split; rewrite Ht; try done.
  - intros id s Hs. destruct (W1 _ _ Hs). split; try done. by eapply foreign_keys_mono.
  - intros id row Hrow. destruct (W7 _ _ Hrow) as (s & ? & ? & ? & ? & ?).
    exists s. split_and!; [done..|]. by eapply indexer_bundle_mono.
Qed.

Lemma empty_txs_wf keccak256 : txs_wf keccak256 empty_database.
Proof. split; try done. intros id. constructor. Qed.

(** ** What the tables never forget *)

(** A submission keeps what it is; only its state, reason and times change. *)
Definition same_submission (s t : Submission) : Prop := Submission.same_content s t.

Definition txs_kept (db db' : Database) : Prop :=
  ∀ id s, db.(txs).(transaction_submissions) !! id = Some s →
    ∃ s', db'.(txs).(transaction_submissions) !! id = Some s' ∧
      Submission.same_content s' s ∧
      rtc Submission.execution_step s.(Submission.sub_State) s'.(Submission.sub_State).

Lemma same_content_refl s : Submission.same_content s s.
Proof. by destruct s. Qed.

Lemma same_content_trans s t u :
  Submission.same_content s t → Submission.same_content t u → Submission.same_content s u.
Proof. unfold Submission.same_content. intros -> ->. by destruct s, t, u. Qed.

#[export] Instance txs_kept_preorder : PreOrder txs_kept.
Proof.
  split.
  - intros db id s Hs. exists s. split_and!; [done|apply same_content_refl|done].
  - intros a b c Hab Hbc id s Hs. apply Hab in Hs as (s1 & H1 & Hc1 & Hr1).
    apply Hbc in H1 as (s2 & H2 & Hc2 & Hr2). exists s2. split_and!; [done| |].
    + by eapply same_content_trans.
    + by transitivity (Submission.sub_State s1).
Qed.

Lemma txs_kept_same db db' : db'.(txs) = db.(txs) → txs_kept db db'.
Proof. intros H id s Hs. exists s. rewrite H. split_and!; [done|apply same_content_refl|done]. Qed.

Lemma log_execution_kept db t id s from to state reason stateReason at_ at' sent :
  db.(txs).(transaction_submissions) !! id = Some s → s.(Submission.sub_State) = from →
  state = to → Submission.execution_step from to →
  t.(transaction_submissions) = db.(txs).(transaction_submissions) →
  txs_kept db (set_txs db
    (log_execution t id (set_state s state stateReason at_ sent) from to reason at')).
Proof.
  intros Hs Hf -> Hstep Ht id' s' Hs'. cbn [txs set_txs log_execution transaction_submissions].
  rewrite Ht. destruct (decide (id = id')) as [<-|Hn].
  - simplify_eq. eexists. rewrite lookup_insert_eq. split; [done|]. split; [by destruct s|].
    by apply rtc_once.
  - exists s'. rewrite lookup_insert_ne by done. split_and!; [done|apply same_content_refl|done].
Qed.

Lemma SavePrepared_kept keccak256 now submission db r db' :
  SavePrepared keccak256 now submission db = (r, db') → txs_kept db db'.
Proof.
  intros [[-> _]|(_ & -> & _ & _ & [Hn _]%unique_conflict_false & _)]%SavePrepared_effect; [done|].
  intros id s Hs. exists s. cbn. rewrite lookup_insert_ne by (intros <-; cbn in *; congruence).
  split_and!; [done|apply same_content_refl|done].
Qed.

Lemma Transition_kept now id from to reason at_ db s b db' :
  Transition now id from to reason at_ db = Ok (s, b, db') → txs_kept db db'.
Proof.
  intros (_ & [(_ & -> & _)|(_ & Hs & c & sr & ch & sent & Hc & Hf & _ & -> & ->)])%Transition_effect;
    [done|]. by apply log_execution_kept.
Qed.

Lemma Confirm_kept now receipt db db' : Confirm now receipt db = Ok db' → txs_kept db db'.
Proof.
  intros (s & Hs & _ & _ & _ & [[_ ->]|(Hst & row & at_ & sent & _ & _ & _ & _ & _ & _ & ->)])%Confirm_effect;
    [done|]. apply log_execution_kept; try done. constructor.
Qed.

End TransactionStore.
