(* ===== verification/System.v ===== *)
(** * The repositories together

    One database, all the operations of Store.v, GraphStore.v, PlanStore.v and
    ProofStore.v: the invariants that hold after any sequence of them, what
    the database never forgets, and the interfaces of the planner, the proof
    builder and the coordinator implemented by these repositories.

    app.go wires the same objects together: one [store.DB] behind
    [RequestRepository], [TrustViewRepository], [PlanRepository] and
    [PathProofRepository], handed to [planner.NewPlanner],
    [proof.NewBuilder] and [coordinator.NewCoordinator]. *)

From S2P Require Import Prelude Domain Merkle Evidence TrustView Registry Reorg Planner.
From S2P Require Import PathProof Coordinator Store GraphStore PlanStore ProofStore LiveStore.
Import Domain Store GraphStore PlanStore ProofStore LiveStore.

Module System.

(** ** Well-formed databases *)

Record db_wf (keccak256 : bytes → Hash) (db : DB) : Prop := {
  db_requests : requests_wf keccak256 db;
  db_evidence : evidence_wf keccak256 db;
  db_trust : trust_wf keccak256 db;
  db_plans : plans_wf keccak256 db;
  db_proofs : proofs_wf db;
  db_chains : chains_wf db
}.

(** One committed transaction of a repository the live node writes with, with
    any arguments.  A catalogue is one that [NewRegistry] accepts, with any URL
    parser. *)
Inductive live_step (keccak256 : bytes → Hash) (db db' : DB) : Prop :=
| step_observe_request now request r b :
    ObserveRequest keccak256 now request db = Ok (r, b, db') → live_step keccak256 db db'
| step_transition_request now id from to at_ reason r b :
    TransitionRequest now id from to at_ reason db = Ok (r, b, db') → live_step keccak256 db db'
| step_observe_evidence now record r b :
    ObserveEvidence keccak256 now record db = Ok (r, b, db') → live_step keccak256 db db'
| step_transition_evidence now id from to at_ reason r b :
    TransitionEvidence now id from to at_ reason db = Ok (r, b, db') → live_step keccak256 db db'
| step_save_observation now o o' node b :
    SaveObservation keccak256 now o db = Ok (o', node, b, db') → live_step keccak256 db db'
| step_snapshot request s :
    0 ≤ request.(sr_Attempt) →
    CreateTrustViewSnapshot keccak256 request db = Ok (s, db') → live_step keccak256 db db'
| step_save_plan now plan :
    SavePlan keccak256 now plan db = Ok db' → live_step keccak256 db db'
| step_save_proof now value :
    SavePathProof keccak256 now value db = Ok db' → live_step keccak256 db db'
| step_sync http_url chains registry :
    NewRegistry http_url chains = Ok registry → Sync registry db = Ok db' →
    live_step keccak256 db db'
| step_bind now deployment block :
    BindDeployment now deployment block db = Ok db' → live_step keccak256 db db'
| step_initialize cursor c b :
    Initialize cursor db = Ok (c, b, db') → live_step keccak256 db db'
| step_degrade id reason c :
    DegradeCursor id reason db = Ok (c, db') → live_step keccak256 db db'
| step_advance id rechecked next c b e :
    AdvanceCursor id rechecked next db = Ok (c, b, e, db') → live_step keccak256 db db'.

(** Any committed transaction: the other two write edges and witnesses one by
    one (the live node writes both at once, see IndexerStore.v and Mailbox.v). *)
Inductive step (keccak256 : bytes → Hash) (db db' : DB) : Prop :=
| step_live : live_step keccak256 db db' → step keccak256 db db'
| step_merge_edge from to edge dependency b :
    MergeActiveTrustEdge keccak256 from to edge dependency db = Ok (b, db') →
    step keccak256 db db'
| step_save_witness w b :
    SaveMembershipWitness keccak256 w db = Ok (b, db') → step keccak256 db db'.

Definition reachable (keccak256 : bytes → Hash) (db : DB) : Prop :=
  rtc (step keccak256) empty_db db.

(** What a database never forgets or rewrites. *)
Record remembers (db db' : DB) : Prop := {
  rm_requests id r : db.(requests) !! id = Some r →
    ∃ r', db'.(requests) !! id = Some r' ∧ sameRequestFields r' r = true;
  rm_active id e : db.(evidence) !! id = Some e → e.(Evidence.rec_State) = Evidence.Active →
    db'.(evidence) !! id = Some e;
  rm_nodes id n : db.(trust_nodes) !! id = Some n → db'.(trust_nodes) !! id = Some n;
  rm_snapshots id s : db.(snapshots) !! id = Some s → db'.(snapshots) !! id = Some s;
  rm_plans id p : db.(plans) !! id = Some p → db'.(plans) !! id = Some p;
  rm_proofs id p : db.(proofs) !! id = Some p → db'.(proofs) !! id = Some p;
  rm_revision : db.(revision) ≤ db'.(revision);
  rm_chains : chains_kept db db';
  rm_cursors : cursors_run db db'
}.

#[export] Instance remembers_preorder : PreOrder remembers.
Proof.
  split.
  - intros db. split; try done; [|apply chains_kept_refl|apply cursors_run_refl].
    intros id r Hr. exists r. split; [done|]. by apply sameRequestFields_spec.
  - intros a b c [H1 H2 H3 H4 H5 H6 H7 H8 H9] [K1 K2 K3 K4 K5 K6 K7 K8 K9].
    split; eauto using chains_kept_trans, cursors_run_trans; [|lia].
    intros id r (r1 & Hr1 & Hs1)%H1. destruct (K1 _ _ Hr1) as (r2 & Hr2 & Hs2).
    exists r2. split; [done|]. by eapply sameRequestFields_trans.
Qed.

Lemma requests_kept_refl (m : gmap RequestID Coordinator.Request) id r :
  m !! id = Some r → ∃ r', m !! id = Some r' ∧ sameRequestFields r' r = true.
Proof. intros Hr. exists r. split; [done|]. by apply sameRequestFields_spec. Qed.

(** The catalogue and the cursors are those of the first database. *)
Lemma chains_kept_same db db' : db'.(live_chains) = db.(live_chains) → chains_kept db db'.
Proof. intros H id r. rewrite H. apply (chains_kept_refl db). Qed.

Lemma cursors_run_same db db' : db'.(canonical_cursors) = db.(canonical_cursors) → cursors_run db db'.
Proof. intros H id c. rewrite H. apply (cursors_run_refl db). Qed.


(** ** Lemmas: every step preserves the invariant *)

Lemma requests_wf_frame keccak256 db db' :
  db'.(requests) = db.(requests) → db'.(request_transitions) = db.(request_transitions) →
  requests_wf keccak256 db → requests_wf keccak256 db'.
Proof. intros Hr Ht [W1 W2 W3 W4 W5]. split; unfold logged_steps in *; by rewrite ?Hr, ?Ht. Qed.

Lemma evidence_wf_frame keccak256 db db' :
  db'.(evidence) = db.(evidence) → db'.(evidence_transitions) = db.(evidence_transitions) →
  evidence_wf keccak256 db → evidence_wf keccak256 db'.
Proof. intros Hr Ht [W1 W2 W3 W4 W5]. split; unfold logged_evidence in *; by rewrite ?Hr, ?Ht. Qed.

(** The trust tables do not mention requests, plans, proofs or the catalogue. *)
Lemma trust_wf_frame keccak256 db db' :
  db'.(evidence) = db.(evidence) → db'.(observations) = db.(observations) →
  db'.(revision) = db.(revision) → db'.(trust_nodes) = db.(trust_nodes) →
  db'.(trust_edges) = db.(trust_edges) →
  db'.(membership_witnesses) = db.(membership_witnesses) → db'.(snapshots) = db.(snapshots) →
  trust_wf keccak256 db → trust_wf keccak256 db'.
Proof.
  destruct db, db'; cbn. intros -> -> -> -> -> -> -> [[W1 W2 W3 W4 W5] WS WO].
  split; [by split| |exact WO]. intros id s Hs. destruct (WS id s Hs) as [Hid []]. by split.
Qed.

(** An unchanged table, by computation or by the equation of the new database. *)
#[local] Ltac same_table :=
  first [reflexivity | match goal with H : ?x = _ |- _ => is_var x; rewrite H; reflexivity end].

#[local] Ltac kept_rows :=
  first [assumption
    | match goal with
      | |- ∀ id, is_Some _ → is_Some _ => intros ?; first [done | by match goal with H : ?x = _ |- _ => is_var x; rewrite H end]
      | |- ∀ id x, _ = Some x → _ = Some x =>
          intros ? ?; first [done | by match goal with H : ?x = _ |- _ => is_var x; rewrite H end]
      end].

(** Well-formedness of the parts a transaction does not touch. *)
#[local] Ltac keep_wf :=
  first [assumption | match goal with
  | W : requests_wf ?k ?d |- requests_wf ?k _ =>
      apply (requests_wf_frame k d); [same_table..|exact W]
  | W : evidence_wf ?k ?d |- evidence_wf ?k _ =>
      apply (evidence_wf_frame k d); [same_table..|exact W]
  | W : trust_wf ?k ?d |- trust_wf ?k _ => apply (trust_wf_frame k d); [same_table..|exact W]
  | W : plans_wf ?k ?d |- plans_wf ?k _ =>
      apply (plans_wf_mono k d); [same_table|same_table|kept_rows|kept_rows|exact W]
  | W : proofs_wf ?d |- proofs_wf _ => apply (proofs_wf_mono d); [same_table|kept_rows|exact W]
  | W : chains_wf ?d |- chains_wf _ => apply (chains_wf_frame d); [same_table|same_table|exact W]
  end].

#[local] Ltac keep_memory :=
  split; first [assumption | kept_rows
    | apply chains_kept_same; same_table | apply cursors_run_same; same_table
    | intros ? ?; first [apply requests_kept_refl
        | match goal with H : ?x = _ |- _ => is_var x; rewrite H; apply requests_kept_refl end]
    | match goal with H : ?x = _ |- _ => is_var x; rewrite H; done end | done].

(** What a transaction has to show. *)
Definition good (keccak256 : bytes → Hash) (db db' : DB) : Prop :=
  db_wf keccak256 db' ∧ remembers db db'.

Lemma good_refl keccak256 db : db_wf keccak256 db → good keccak256 db db.
Proof. by split. Qed.

Lemma good_trans keccak256 a b c : good keccak256 a b → good keccak256 b c → good keccak256 a c.
Proof. intros [_ R1] [W R2]. split; [done|]. by transitivity b. Qed.

(** A change of the request tables only. *)
Lemma requests_change keccak256 db m l :
  db_wf keccak256 db → requests_wf keccak256 (set_requests db m l) →
  (∀ id r, db.(requests) !! id = Some r →
     ∃ r', m !! id = Some r' ∧ sameRequestFields r' r = true) →
  good keccak256 db (set_requests db m l).
Proof.
  intros [WR WE WT WP WPr WC] WR' Hm.
  assert (∀ id, is_Some (requests db !! id) → is_Some (m !! id)) as Hs.
  { intros id [r Hr]. destruct (Hm _ _ Hr) as (r' & Hr' & _). by exists r'. }
  split; [split; keep_wf|keep_memory].
Qed.

Lemma observe_request_step keccak256 now request db r b db' :
  db_wf keccak256 db → ObserveRequest keccak256 now request db = Ok (r, b, db') →
  good keccak256 db db'.
Proof.
  intros W H. pose proof (observe_wf _ _ _ _ _ _ _ (db_requests _ _ W) H) as WR.
  apply ObserveRequest_Ok in H as (_ & _ & _ & [(_ & -> & _)|(_ & _ & Hn & _ & ->)]); [by split|].
  apply requests_change; [done|exact WR|]. intros id q Hq. exists q.
  split; [|by apply sameRequestFields_spec].
  apply lookup_insert_Some. right. split; [congruence|done].
Qed.

Lemma transition_request_step keccak256 now id from to at_ reason db r b db' :
  db_wf keccak256 db → TransitionRequest now id from to at_ reason db = Ok (r, b, db') →
  good keccak256 db db'.
Proof.
  intros W H. pose proof (transition_wf _ _ _ _ _ _ _ _ _ _ _ (db_requests _ _ W) H) as WR.
  apply TransitionRequest_Ok in H
    as (_ & [(_ & -> & _)|(_ & _ & _ & c & changed & Hc & _ & -> & ->)]); [by split|].
  apply requests_change; [done|exact WR|]. intros id' q Hq.
  destruct (decide (id = id')) as [<-|Hne].
  - exists (set_request_state c to reason changed). rewrite lookup_insert_eq. split; [done|].
    assert (q = c) as -> by congruence. by apply sameRequestFields_spec.
  - rewrite lookup_insert_ne by done. by apply requests_kept_refl.
Qed.

(** A change of the evidence tables only. *)
Lemma evidence_change keccak256 db m l :
  db_wf keccak256 db → evidence_wf keccak256 (set_evidence db m l) →
  trust_wf keccak256 (set_evidence db m l) →
  (∀ id e, db.(evidence) !! id = Some e → e.(Evidence.rec_State) = Evidence.Active →
     m !! id = Some e) →
  good keccak256 db (set_evidence db m l).
Proof. intros [WR WE WT WP WPr WC] WE' WT' Hm. split; [split; keep_wf|keep_memory]. Qed.

Lemma observe_evidence_step keccak256 now record db r b db' :
  db_wf keccak256 db → ObserveEvidence keccak256 now record db = Ok (r, b, db') →
  good keccak256 db db'.
Proof.
  intros W H. pose proof (observe_evidence_wf _ _ _ _ _ _ _ (db_evidence _ _ W) H) as WE.
  pose proof (ObserveEvidence_trust _ _ _ _ _ _ _ (db_trust _ _ W) H) as WT.
  assert (∀ id e, evidence db !! id = Some e → evidence db' !! id = Some e) as Hact
    by (intros id e; by apply (observe_evidence_active _ _ _ _ _ _ _ _ _ H)).
  apply ObserveEvidence_Ok in H as (_ & _ & _ & [(_ & -> & _)|(_ & _ & _ & _ & _ & ->)]);
    [by apply good_refl|].
  apply evidence_change; [done|exact WE|exact WT|]. intros id e He _. by apply Hact.
Qed.

Lemma transition_evidence_step keccak256 now id from to at_ reason db r b db' :
  db_wf keccak256 db → TransitionEvidence now id from to at_ reason db = Ok (r, b, db') →
  good keccak256 db db'.
Proof.
  intros W H. pose proof (transition_evidence_wf _ _ _ _ _ _ _ _ _ _ _ (db_evidence _ _ W) H) as WE.
  pose proof (TransitionEvidence_trust _ _ _ _ _ _ _ _ _ _ _ (db_trust _ _ W) H) as WT.
  assert (∀ id e, evidence db !! id = Some e → Evidence.rec_State e = Evidence.Active →
    evidence db' !! id = Some e) as Hact
    by (intros id' e; by apply (transition_evidence_active _ _ _ _ _ _ _ _ _ _ _ _ H)).
  apply TransitionEvidence_Ok in H
    as (_ & [(_ & -> & _)|(_ & _ & _ & c & ch & _ & _ & _ & _ & ->)]); [by apply good_refl|].
  apply evidence_change; [done|exact WE|exact WT|]. exact Hact.
Qed.

(** A change of the graph tables only. *)
Lemma graph_change keccak256 db db' changed :
  db_wf keccak256 db → graph_wf keccak256 db' → bumped db db' changed →
  good keccak256 db db'.
Proof.
  intros [WR WE WT WP WPr WC] WG Hb. pose proof (bumped_wf _ _ _ _ Hb WG WT) as WT'.
  destruct Hb as (Ho & Hc & Hn). unfold graph_only in Ho.
  assert (revision db ≤ revision db') as Hrev by (destruct changed; [lia|by subst]).
  split; [split; keep_wf|keep_memory].
Qed.

(** A change of the evidence and of the graph, under a new revision. *)
Lemma dependency_change keccak256 db db' :
  db_wf keccak256 db → evidence_wf keccak256 db' → graph_wf keccak256 db' →
  db' = set_graph (set_evidence db db'.(evidence) db'.(evidence_transitions)) db'.(revision)
          db'.(trust_nodes) db'.(trust_edges) db'.(membership_witnesses) →
  db.(revision) < db'.(revision) →
  (∀ id e, db.(evidence) !! id = Some e → e.(Evidence.rec_State) = Evidence.Active →
     db'.(evidence) !! id = Some e) →
  (∀ id n, db.(trust_nodes) !! id = Some n → db'.(trust_nodes) !! id = Some n) →
  good keccak256 db db'.
Proof.
  intros [WR WE [WG WS WO] WP WPr WC] WE' WG' Ho Hrev Hact Hn.
  assert (trust_wf keccak256 db') as WT'.
  { split; [done| |].
    - eapply snapshots_wf_bump; [|exact Hrev|exact WS]. by rewrite Ho.
    - eapply observations_wf_mono; [| |exact Hn|exact WO]; [by rewrite Ho|].
      intros id (r & Hr & Hs)%is_active_spec. apply is_active_spec. exists r. auto. }
  assert (revision db ≤ revision db') as Hle by lia.
  split; [split; keep_wf|keep_memory].
Qed.

Lemma save_observation_step keccak256 now o o' node b db db' :
  (∀ l, keccak256 l ≠ zero32) →
  db_wf keccak256 db → SaveObservation keccak256 now o db = Ok (o', node, b, db') →
  good keccak256 db db'.
Proof.
  intros Hk [WR WE WT WP WPr WC] H.
  pose proof (SaveObservation_mono _ _ _ _ _ _ _ _ WT H) as (Hrows & Hn & Hrev).
  assert (∀ id e, evidence db !! id = Some e → Evidence.rec_State e = Evidence.Active →
    evidence db' !! id = Some e) as Hact by (intros id e He _; by apply Hrows).
  apply SaveObservation_wf in H as (WE' & WT' & Ho & _); [|done..].
  split; [split; keep_wf|keep_memory].
Qed.

Lemma snapshot_step keccak256 request s db db' :
  db_wf keccak256 db → 0 ≤ request.(sr_Attempt) →
  CreateTrustViewSnapshot keccak256 request db = Ok (s, db') → good keccak256 db db'.
Proof.
  intros W Hat H. pose proof W as [WR WE WT WP WPr WC].
  apply CreateTrustViewSnapshot_sound in H as (WT' & [->|[Hn ->]] & _);
    [by apply good_refl| |done..].
  assert (∀ id s', db.(snapshots) !! id = Some s' →
    snapshots (set_snapshots db (<[TrustView.snap_ID s := s]> db.(snapshots))) !! id = Some s') as Hs.
  { intros id s' Hs'. cbn. rewrite lookup_insert_ne; [done|congruence]. }
  split; [split; keep_wf|keep_memory].
Qed.

Lemma save_plan_step keccak256 now plan db db' :
  db_wf keccak256 db → SavePlan keccak256 now plan db = Ok db' → good keccak256 db db'.
Proof.
  intros [WR WE WT WP WPr WC] H. apply SavePlan_wf in H as (WP' & Ho & _ & _ & Hp & _); [|done].
  unfold plans_only in Ho. split; [split; keep_wf|keep_memory].
Qed.

Lemma save_proof_step keccak256 now value db db' :
  db_wf keccak256 db → SavePathProof keccak256 now value db = Ok db' → good keccak256 db db'.
Proof.
  intros [WR WE WT WP WPr WC] H. pose proof (SavePathProof_wf _ _ _ _ _ WPr H) as [WPr' Ho].
  assert (∀ id p, proofs db !! id = Some p → proofs db' !! id = Some p) as Hp.
  { apply SavePathProof_Ok in H as (_ & plan & _ & [(-> & _)|(Hn & _ & at_ & ->)]); [done|].
    intros id p Hp. cbn. rewrite lookup_insert_ne; [done|congruence]. }
  split; [split; keep_wf|keep_memory].
Qed.

(** A change of the catalogue or of a cursor. *)
Lemma chains_change keccak256 db db' :
  db_wf keccak256 db → chains_step db db' → good keccak256 db db'.
Proof.
  intros [WR WE WT WP WPr WC] (WC' & Ho & Hk & Hr). unfold chains_only in Ho.
  split; [split; keep_wf|keep_memory].
Qed.

Lemma live_step_wf keccak256 db db' :
  (∀ l, keccak256 l ≠ zero32) → db_wf keccak256 db → live_step keccak256 db db' →
  good keccak256 db db'.
Proof.
  intros Hk W [now q r b H|now id f t at_ re r b H|now rec r b H|now id f t at_ re r b H
    |now o o' n b H|q s Hat H|now p H|now v H
    |url cs registry Hr H|now d b H|c0 c b H|id re c H|id h n c b e H].
  - by eapply observe_request_step.
  - by eapply transition_request_step.
  - by eapply observe_evidence_step.
  - by eapply transition_evidence_step.
  - by eapply save_observation_step.
  - by eapply snapshot_step.
  - by eapply save_plan_step.
  - by eapply save_proof_step.
  - apply NewRegistry_Ok in Hr as (C & _). eapply chains_change, Sync_step, H; [done|exact C|apply W].
  - eapply chains_change, BindDeployment_step, H; [done|apply W].
  - eapply chains_change, Initialize_step, H; [done|apply W].
  - eapply chains_change, DegradeCursor_step, H; [done|apply W].
  - eapply chains_change, AdvanceCursor_step, H; [done|apply W].
Qed.

Lemma chains_step_edges db db' :
  chains_step db db' →
  db'.(trust_edges) = db.(trust_edges) ∧ db'.(membership_witnesses) = db.(membership_witnesses).
Proof. intros (_ & Ho & _). unfold chains_only in Ho. by rewrite Ho. Qed.

Lemma chains_step_evidence db db' : chains_step db db' → db'.(evidence) = db.(evidence).
Proof. intros (_ & Ho & _). unfold chains_only in Ho. by rewrite Ho. Qed.

(** Edges and witnesses are not touched by them. *)
Lemma live_step_edges keccak256 db db' :
  (∀ l, keccak256 l ≠ zero32) → db_wf keccak256 db → live_step keccak256 db db' →
  db'.(trust_edges) = db.(trust_edges) ∧
  db'.(membership_witnesses) = db.(membership_witnesses).
Proof.
  intros Hk W [now q r b H|now id f t at_ re r b H|now rec r b H|now id f t at_ re r b H
    |now o o' n b H|q s Hat H|now p H|now v H
    |url cs registry Hr H|now d b H|c0 c b H|id re c H|id h n c b e H].
  - by apply ObserveRequest_Ok in H as (_ & _ & _ & [(_ & -> & _)|(_ & _ & _ & _ & ->)]).
  - by apply TransitionRequest_Ok in H as (_ & [(_ & -> & _)|(_ & _ & _ & ? & ? & _ & _ & _ & ->)]).
  - by apply ObserveEvidence_Ok in H as (_ & _ & _ & [(_ & -> & _)|(_ & _ & _ & _ & _ & ->)]).
  - by apply TransitionEvidence_Ok in H
      as (_ & [(_ & -> & _)|(_ & _ & _ & ? & ? & _ & _ & _ & _ & ->)]).
  - by apply SaveObservation_edges in H.
  - apply CreateTrustViewSnapshot_sound in H as (_ & [->|[_ ->]] & _); [done..|apply W|done].
  - apply SavePlan_wf in H as (_ & Ho & _); [|apply W]. unfold plans_only in Ho. by rewrite Ho.
  - apply SavePathProof_wf in H as (_ & Ho); [|apply W]. by rewrite Ho.
  - apply NewRegistry_Ok in Hr as (C & _). eapply chains_step_edges, Sync_step, H; [exact C|apply W].
  - eapply chains_step_edges, BindDeployment_step, H. apply W.
  - eapply chains_step_edges, Initialize_step, H. apply W.
  - eapply chains_step_edges, DegradeCursor_step, H. apply W.
  - eapply chains_step_edges, AdvanceCursor_step, H. apply W.
Qed.

(** Evidence rows stay, with their locators. *)
Lemma live_step_evidence keccak256 db db' :
  db_wf keccak256 db → live_step keccak256 db db' →
  ∀ id r, db.(evidence) !! id = Some r →
    ∃ r', db'.(evidence) !! id = Some r' ∧ r'.(Evidence.rec_Locator) = r.(Evidence.rec_Locator).
Proof.
  intros W H id0 r0 Hr0.
  assert (db'.(evidence) = db.(evidence) →
    ∃ r', db'.(evidence) !! id0 = Some r' ∧ r'.(Evidence.rec_Locator) = r0.(Evidence.rec_Locator))
    as Same by (intros ->; by exists r0).
  destruct H as [now q r b H|now id f t at_ re r b H|now rec r b H|now id f t at_ re r b H
    |now o o' n b H|q s Hat H|now p H|now v H
    |url cs registry Hr H|now d b H|c0 c b H|id re c H|id h n c b e H].
  - apply Same. by apply ObserveRequest_Ok in H as (_ & _ & _ & [(_ & -> & _)|(_ & _ & _ & _ & ->)]).
  - apply Same. by apply TransitionRequest_Ok in H
      as (_ & [(_ & -> & _)|(_ & _ & _ & ? & ? & _ & _ & _ & ->)]).
  - exists r0. split; [|done]. by eapply observe_evidence_active.
  - apply TransitionEvidence_Ok in H
      as (_ & [(_ & -> & _)|(_ & _ & _ & c & ? & Hc & _ & Hrr & _ & ->)]); [by exists r0|].
    cbn. destruct (decide (id = id0)) as [<-|Hn].
    + rewrite lookup_insert_eq, Hrr. eexists. split; [done|]. cbn. congruence.
    + rewrite lookup_insert_ne by done. by exists r0.
  - exists r0. split; [|done]. by eapply SaveObservation_mono; [apply W|done|].
  - apply Same. apply CreateTrustViewSnapshot_sound in H as (_ & [->|[_ ->]] & _); [done..|apply W|done].
  - apply Same. apply SavePlan_wf in H as (_ & Ho & _); [|apply W]. unfold plans_only in Ho. by rewrite Ho.
  - apply Same. apply SavePathProof_wf in H as (_ & Ho); [|apply W]. by rewrite Ho.
  - apply Same. apply NewRegistry_Ok in Hr as (C & _).
    eapply chains_step_evidence, Sync_step, H; [exact C|apply W].
  - eapply Same, chains_step_evidence, BindDeployment_step, H. apply W.
  - eapply Same, chains_step_evidence, Initialize_step, H. apply W.
  - eapply Same, chains_step_evidence, DegradeCursor_step, H. apply W.
  - eapply Same, chains_step_evidence, AdvanceCursor_step, H. apply W.
Qed.

Lemma step_wf keccak256 db db' :
  (∀ l, keccak256 l ≠ zero32) → db_wf keccak256 db → step keccak256 db db' →
  good keccak256 db db'.
Proof.
  intros Hk W [H|f t e d b H|w b H]; [by apply live_step_wf| |].
  - apply MergeActiveTrustEdge_wf in H as (WG & Hb & _); [|apply W]. by eapply graph_change.
  - apply SaveMembershipWitness_wf in H as (WG & Hb & _); [|apply W]. by eapply graph_change.
Qed.

Lemma empty_db_wf keccak256 : db_wf keccak256 empty_db.
Proof.
  split; [apply empty_requests_wf|apply empty_evidence_wf| |apply empty_plans_wf|done
    |apply empty_chains_wf].
  split; [|done|done]. split; try done.
Qed.

Section Reachability.
Context (keccak256 : bytes → Hash) (keccak_nonzero : ∀ l, keccak256 l ≠ zero32).

Lemma steps_wf db db' :
  rtc (step keccak256) db db' → db_wf keccak256 db → db_wf keccak256 db' ∧ remembers db db'.
Proof using keccak_nonzero.
  induction 1 as [db|db db1 db2 Hs _ IH]; intros W; [done|].
  destruct (step_wf _ _ _ keccak_nonzero W Hs) as [W1 R1]. destruct (IH W1) as [W2 R2].
  split; [done|]. by transitivity db1.
Qed.

Lemma reachable_wf db : reachable keccak256 db → db_wf keccak256 db.
Proof using keccak_nonzero. intros H. apply (steps_wf _ _ H), empty_db_wf. Qed.
End Reachability.

(** The log of an active evidence row is its whole life. *)
Lemma active_history steps :
  history Evidence.evidence_step Evidence.Candidate steps Evidence.Active →
  steps = [(Evidence.Candidate, Evidence.Verified); (Evidence.Verified, Evidence.Confirmed);
           (Evidence.Confirmed, Evidence.Active)].
Proof.
  assert (∀ steps s, history Evidence.evidence_step Evidence.Candidate steps s →
    (s = Evidence.Candidate ∧ steps = []) ∨ s = Evidence.Invalid ∨
    (s = Evidence.Verified ∧ steps = [(Evidence.Candidate, Evidence.Verified)]) ∨
    (s = Evidence.Confirmed ∧ steps = [(Evidence.Candidate, Evidence.Verified);
                                       (Evidence.Verified, Evidence.Confirmed)]) ∨
    (s = Evidence.Active ∧ steps = [(Evidence.Candidate, Evidence.Verified);
       (Evidence.Verified, Evidence.Confirmed); (Evidence.Confirmed, Evidence.Active)])) as H.
  { induction 1 as [|steps' f t _ IH Hs]; [by left|].
    destruct Hs; destruct IH as [[E ->]|[E|[[E ->]|[[E ->]|[E ->]]]]]; try discriminate E; auto 10. }
  intros Hh. destruct (H _ _ Hh) as [[E _]|[E|[[E _]|[[E _]|[_ E]]]]]; done.
Qed.

(** ** Properties of every reachable database *)

Section Properties.
Context (keccak256 : bytes → Hash).

(** C37. In every database the repositories can produce, a request row is
    stored under the identifier computed from its own fields, two rows never
    describe the same request, and the state of a request is the end of a
    walk through the life cycle from [Observed] whose steps are exactly the
    logged transitions; no step occurs twice, so a request changes state at
    most ten times. *)
Theorem requests_explained (db : DB) id r :
  (∀ l, keccak256 l ≠ zero32) → reachable keccak256 db → db.(requests) !! id = Some r →
  request_id keccak256 r = Ok id ∧
  history Coordinator.request_step Coordinator.Observed (logged_steps db id)
    r.(Coordinator.req_State) ∧
  NoDup (logged_steps db id) ∧ (length (logged_steps db id) ≤ 10)%nat ∧
  ∀ id' r', db.(requests) !! id' = Some r' → sameRequestFields r' r = true → id' = id.
Proof.
  intros Hk [[W1 W2 W3 W4 W5] _ _ _ _ _]%reachable_wf Hr; [|done]. split_and!; auto.
  - by apply W1.
  - eapply history_bound; eauto.
  - intros id' r' Hr' Hs. by eapply W5.
Qed.

(** C38. Evidence rows: an identifier is the content address of the row's
    locator (as a log or as an RPC observation) and belongs to one locator;
    a row is active only after it was verified and confirmed, in this order
    and once, by the log; and it carries a reason exactly when it is
    invalid. *)
Theorem evidence_explained (db : DB) id r :
  (∀ l, keccak256 l ≠ zero32) → reachable keccak256 db → db.(evidence) !! id = Some r →
  evidence_identity keccak256 id r ∧
  (r.(Evidence.rec_State) = Evidence.Active →
     logged_evidence db id
     = [(Evidence.Candidate, Evidence.Verified); (Evidence.Verified, Evidence.Confirmed);
        (Evidence.Confirmed, Evidence.Active)]) ∧
  (r.(Evidence.rec_State) = Evidence.Invalid ↔ r.(Evidence.InvalidReason) ≠ "") ∧
  ∀ id' r', db.(evidence) !! id' = Some r' →
    r'.(Evidence.rec_Locator) = r.(Evidence.rec_Locator) → id' = id.
Proof.
  intros Hk [_ [W1 W2 W3 W4 W5] _ _ _ _]%reachable_wf Hr; [|done].
  split; [auto|]. split; [|split; [by eapply W3|]].
  - intros Ha. apply active_history. rewrite <-Ha. by apply W2.
  - intros id' r' Hr' Hl. by eapply W5.
Qed.

(** The live TrustView: in every reachable database [CurrentTrustView]
    succeeds. It returns every stored node and every stored edge with its
    membership witness, in the order of identifiers; they form a consistent
    graph, all of it backed by active evidence. *)
Theorem CurrentTrustView_spec (db : DB) :
  (∀ l, keccak256 l ≠ zero32) → reachable keccak256 db →
  ∃ view, CurrentTrustView keccak256 db = Ok view ∧
    view.(TrustView.Revision) = db.(revision) ∧
    TrustView.consistent_graph keccak256 view.(TrustView.Nodes) view.(TrustView.Edges) ∧
    (∀ n, n ∈ view.(TrustView.Nodes) ↔
       db.(trust_nodes) !! n.(TrustView.node_ID) = Some n) ∧
    (∀ e, e ∈ view.(TrustView.Edges) ↔
       ∃ e0, db.(trust_edges) !! e.(TrustView.edge_ID) = Some (e0, true) ∧
             e = with_witness db e0) ∧
    (∀ n, n ∈ view.(TrustView.Nodes) → is_active db n.(TrustView.node_EvidenceID) = true) ∧
    (∀ e, e ∈ view.(TrustView.Edges) → is_active db e.(TrustView.edge_EvidenceID) = true).
Proof.
  intros Hk [_ _ [W _ _] _ _ _]%reachable_wf; [|done].
  eexists. split; [by apply CurrentTrustView_total|]. cbn. split; [done|].
  split; [by apply active_graph_consistent|]. split_and!.
  - intros n. by apply (elem_of_active_nodes keccak256).
  - intros e. by apply (elem_of_active_edges keccak256).
  - intros n Hn%(elem_of_active_nodes keccak256); [|done]. by apply (g_node _ _ W) in Hn as (_ & _ & ?).
  - intros e (e0 & Hl & ->)%(elem_of_active_edges keccak256); [|done].
    by apply (g_edge _ _ W) in Hl as (_ & _ & _ & _ & ? & _).
Qed.

(** C21. A sealed snapshot is the live graph at its revision: what
    [CreateTrustViewSnapshot] returns is stored under the identifier of the
    request, replaces nothing, and equals the snapshot of the current graph
    with the endpoints and root asked for, unless keccak collides on two
    different snapshot encodings; the planner's own checks accept it for the
    request and attempt it was made for. *)
Theorem CreateTrustViewSnapshot_spec {RE : Type} (db db' : DB) request s :
  (∀ l, keccak256 l ≠ zero32) → reachable keccak256 db → 0 ≤ request.(sr_Attempt) →
  CreateTrustViewSnapshot keccak256 request db = Ok (s, db') →
  db'.(snapshots) !! s.(TrustView.snap_ID) = Some s ∧
  (∀ id s0, db.(snapshots) !! id = Some s0 → db'.(snapshots) !! id = Some s0) ∧
  s.(TrustView.snap_ID) = (live_snapshot keccak256 request db).(TrustView.snap_ID) ∧
  ((s = live_snapshot keccak256 request db ∧
    @Planner.check_snapshot RE keccak256
      (Planner.mkRequest request.(sr_RequestID) request.(sr_Attempt) s.(TrustView.snap_ID)
         request.(sr_HomeChainID)) s = Ok tt) ∨
   snapshot_collision keccak256 request db).
Proof.
  intros Hk Hr Hat H. apply reachable_wf in Hr; [|done].
  pose proof (snapshot_step _ _ _ _ _ Hr Hat H) as [W' R].
  apply CreateTrustViewSnapshot_sound in H as (WT & _ & Hl & Hid & Hlive); [|apply Hr|done].
  split; [done|]. split; [apply R|]. split; [done|].
  destruct Hlive as [->|Hc]; [left|by right]. split; [done|].
  destruct (t_snapshots _ _ WT _ _ Hl) as [_ OK]. by eapply check_stored_snapshot.
Qed.

(** Nothing is forgotten: along any sequence of transactions requests
    keep their fields, active evidence stays active, and graph nodes,
    snapshots, plans and PathProofs stay exactly as they were written, while
    the graph revision never goes back; a live chain keeps its configuration
    and, once bound, its deployment. *)
Theorem history_is_kept (db db' : DB) :
  (∀ l, keccak256 l ≠ zero32) → reachable keccak256 db → rtc (step keccak256) db db' →
  remembers db db'.
Proof. intros Hk Hr%reachable_wf Hs; [|done]. by eapply steps_wf. Qed.

(** C30. Planning attempts only move forward: after a successful [SavePlan]
    the plan is stored under its content address and is the current plan of
    its request, the current plan always belongs to the latest attempt, one
    plan exists per attempt, and a plan is bound to the sealed snapshot it
    was made on and uses only edges of it. *)
Theorem SavePlan_spec (db db' : DB) now plan :
  (∀ l, keccak256 l ≠ zero32) → reachable keccak256 db →
  SavePlan keccak256 now plan db = Ok db' →
  db'.(current_plan) !! plan.(Planner.plan_RequestID) = Some plan.(Planner.plan_ID) ∧
  ∃ p, db'.(plans) !! plan.(Planner.plan_ID) = Some p ∧ Planner.same_decision p plan ∧
    plan_row_ok keccak256 db' p ∧
    ∀ id q, db'.(plans) !! id = Some q →
      q.(Planner.plan_RequestID) = plan.(Planner.plan_RequestID) →
      q.(Planner.plan_Attempt) ≤ plan.(Planner.plan_Attempt) ∧
      (q.(Planner.plan_Attempt) = plan.(Planner.plan_Attempt) → q = p).
Proof.
  intros Hk Hr H. apply reachable_wf in Hr; [|done].
  apply SavePlan_wf in H as (WP & _ & Hcur & (p & Hp & Hs) & _); [|apply Hr].
  split; [done|]. exists p. split; [done|]. split; [done|].
  split; [by apply (p_row _ _ WP) in Hp as [_ ?]|].
  destruct (p_current _ _ WP _ _ Hcur) as (c & Hc & _ & Hmax). assert (c = p) as -> by congruence.
  intros id q Hq Hqr. assert (p.(Planner.plan_Attempt) = plan.(Planner.plan_Attempt)) as Hat
    by (by rewrite Hs).
  split; [rewrite <-Hat; by eapply Hmax|]. intros Heq.
  assert (id = plan.(Planner.plan_ID)) as -> by
    (eapply (p_attempt _ _ WP); [done|done| |congruence]; rewrite Hqr; by rewrite Hs).
  congruence.
Qed.

(** C20. Round trip of PathProofs: a proof saved for the first time, whose
    witnesses were built by their constructor, is read back equal in every
    field but the creation time, both by its identifier and by its plan; and
    the plan it belongs to is a stored path plan of the same request and
    snapshot. *)
Theorem SavePathProof_spec (db db' : DB) now value :
  (∀ l, keccak256 l ≠ zero32) → reachable keccak256 db →
  SavePathProof keccak256 now value db = Ok db' →
  db.(proofs) !! value.(PathProof.proof_ID) = None →
  Forall built_witness value.(PathProof.Witnesses) →
  ∃ at_ plan,
    loadPathProof keccak256 db' value.(PathProof.proof_ID)
      = Ok (PathProof.set_created value (Some at_)) ∧
    LoadPathProofForPlan keccak256 db' value.(PathProof.proof_PlanID)
      = Ok (PathProof.set_created value (Some at_)) ∧
    loadPlan keccak256 db' value.(PathProof.proof_PlanID) = Ok plan ∧
    plan.(Planner.plan_Type) = Planner.PathPlan ∧
    plan.(Planner.plan_RequestID) = value.(PathProof.proof_RequestID) ∧
    plan.(Planner.plan_SnapshotID) = value.(PathProof.proof_SnapshotID).
Proof.
  intros Hk Hr H Hn Hb. apply reachable_wf in Hr; [|done].
  pose proof (SavePathProof_wf _ _ _ _ _ (db_proofs _ _ Hr) H) as [WP _].
  destruct (SavePathProof_roundtrip _ _ _ _ _ H Hn Hb) as [at_ Hload].
  apply SavePathProof_Ok in H as (_ & plan & Hck & Hcases).
  destruct Hck as (Hplan & Ht & Hrq & Hsn & _). unfold loadProofPlan in Hplan.
  apply map_err_Ok in Hplan. exists at_, plan.
  split; [done|]. split; [|split_and!; try done; by destruct Hcases as [[-> _]|(_ & _ & ? & ->)]].
  unfold LoadPathProofForPlan, loadPathProof in Hload |- *.
  destruct (proofs db' !! PathProof.proof_ID value) as [row|] eqn:Hrow; [|done].
  assert (row_PlanID row = PathProof.proof_PlanID value) as Hpl.
  { destruct Hcases as [(-> & _)|(_ & _ & at' & ->)]; [congruence|].
    cbn in Hrow. rewrite lookup_insert_eq in Hrow. by injection Hrow as <-. }
  destruct (find_row (proofs db') _) as [row'|] eqn:Hf.
  - apply find_row_Some in Hf as (Hp%bool_decide_eq_true & id' & Hl').
    assert (id' = PathProof.proof_ID value) as -> by (eapply (pr_plan _ WP); [done..|congruence]).
    assert (row' = row) as -> by congruence.
    destruct (pr_row _ WP _ _ Hrow) as [Hid _]. by rewrite Hid, Hrow.
  - pose proof (find_row_None _ _ Hf _ _ Hrow) as Hx. by apply bool_decide_eq_false in Hx.
Qed.

(** A stored cursor: it belongs to a configured chain, and along any
    sequence of transactions, whatever chain data the calls are given, it is
    never removed and the blocks it accepts form one chain with consecutive
    heights on top of the block it stood on; once degraded it keeps its
    position for ever. *)
Theorem stored_cursors (db db' : DB) id c :
  (∀ l, keccak256 l ≠ zero32) → reachable keccak256 db → rtc (step keccak256) db db' →
  db.(canonical_cursors) !! id = Some c →
  is_Some (db.(live_chains) !! id) ∧
  ∃ c' blocks, db'.(canonical_cursors) !! id = Some c' ∧
    Reorg.chain_from (be_value c.(Reorg.cursor_Height)) c.(Reorg.cursor_Hash) blocks ∧
    c'.(Reorg.cursor_Hash) = default c.(Reorg.cursor_Hash) (Reorg.block_Hash <$> last blocks) ∧
    be_value c'.(Reorg.cursor_Height) = be_value c.(Reorg.cursor_Height) + zlen blocks ∧
    (c.(Reorg.cursor_State) = Reorg.Degraded → blocks = [] ∧ c'.(Reorg.cursor_State) = Reorg.Degraded).
Proof.
  intros Hk Hr%reachable_wf Hs Hc; [|done].
  destruct (lc_cursor _ (db_chains _ _ Hr) _ _ Hc) as (_ & Hl & _). split; [done|].
  destruct (steps_wf _ Hk _ _ Hs Hr) as [_ R].
  destruct (rm_cursors _ _ R _ _ Hc) as (c' & blocks & Hc' & Hrun).
  exists c', blocks. split; [done|].
  destruct (Reorg.cursor_run_chain _ _ _ Hrun) as (H1 & H2 & H3 & _). split_and!; [done..|].
  intros Hd. destruct (Reorg.degraded_stays _ _ _ Hd Hrun) as (? & ? & _). done.
Qed.
End Properties.

End System.
