(* ===== verification/IndexerStore.v ===== *)
(** * Mapnode/store: the tables of the confirmed indexer

    indexer_repository.go ([IndexerRepository]): the configuration of a chain,
    its degradation, and [ApplyConfirmedBlock], one transaction that stores the
    logs, requests, receipts and resolutions of a block, turns its recorded
    dependencies into edges of the trust graph, queues their evidence for
    gossip and moves the cursor.

    A Scan that finds no row is [ErrNoRows] where the code returns it as it is.
    The readings of the clock within the transaction are one [now].
    [beforeCommit] is a hook of the tests. *)

From S2P Require Import Prelude Domain Merkle Evidence TrustView Reorg Planner PathProof Coordinator.
From S2P Require Import ChainABI Indexer Envelope Submission Store GraphStore LiveStore Tables.
Import Domain TrustView Tables.

Module IndexerStore.

Import Indexer GraphStore.

#[local] Existing Instances Evidence.Locator_eq_dec TrustView.NodeKey_eq_dec
  TrustView.TrustNode_eq_dec Reorg.CanonicalCursor_eq_dec.

Abbreviation conflict := (ErrStore Store.ErrRecordConflict).
Abbreviation constraint := (ErrStore Store.ErrConstraint).
Abbreviation binding := (ErrStore Store.ErrEvidenceBinding).

(** ** Configuration and degradation *)

Definition Degrade (chainID : ChainID) (reason : string) (db : Database) : res error Database :=
  if reason =?= "" then Err ErrIndexerConfig
  else if negb (LiveStore.sql_nonempty reason) then Err constraint
  else if bool_decide (is_Some (db.(index).(indexer_degraded_states) !! chainID)) then Ok db
  else if bool_decide (is_Some (db.(index).(live_indexer_configs) !! chainID))
  then Ok (set_index db (put_degraded db.(index) chainID reason))
  else Err constraint.

Definition HasDegraded (db : Database) : bool :=
  negb (bool_decide (db.(index).(indexer_degraded_states) = ∅)).

Definition Configure (config : IndexerConfig) (db : Database) : res error Database :=
  if negb (is_ok (ChainID_Validate config.(ic_ChainID))) || (config.(ic_Gateway) =?= zero_address)
     || (config.(ic_GatewayCodeHash) =?= zero32) || (config.(ic_MerkleDepth) =? 0)
     || (32 <? config.(ic_MerkleDepth)) || (config.(ic_PathStepCostGas) =? 0)
     || (MaxInt64 <? config.(ic_PathStepCostGas))
  then Err ErrIndexerConfig
  else
    match db.(core).(Store.live_chains) !! config.(ic_ChainID) with
    | None => Err ErrNoRows
    | Some live =>
        if negb (bool_decide (is_Some live.(Store.vlc_ValidatedAt))) then Err ErrNoRows
        else if (live.(Store.vlc_Gateway) ≠?= config.(ic_Gateway))
                || (live.(Store.vlc_GatewayCodeHash) ≠?= config.(ic_GatewayCodeHash))
                || (live.(Store.vlc_DeploymentBlock) ≠?= config.(ic_DeploymentBlock))
        then Err conflict
        else
          match db.(index).(live_indexer_configs) !! config.(ic_ChainID) with
          | None => Ok (set_index db (put_config db.(index) config.(ic_ChainID) config))
          | Some persisted =>
              if (persisted.(ic_Gateway) ≠?= config.(ic_Gateway))
                 || (persisted.(ic_GatewayCodeHash) ≠?= config.(ic_GatewayCodeHash))
                 || (persisted.(ic_DeploymentBlock) ≠?= config.(ic_DeploymentBlock))
                 || negb (persisted.(ic_MerkleDepth) =? config.(ic_MerkleDepth))
                 || negb (persisted.(ic_PathStepCostGas) =? config.(ic_PathStepCostGas))
              then Err conflict else Ok db
          end
    end.

(** ** Logs, requests, receipts and resolutions *)

Definition requireIndexerConfig (block : ConfirmedBlock) (i : IndexTables) : res error unit :=
  match i.(live_indexer_configs) !! block.(cb_ChainID) with
  | None => Err ErrNoRows
  | Some c =>
      if (c.(ic_Gateway) ≠?= block.(cb_Gateway))
         || negb (c.(ic_MerkleDepth) =? block.(MerkleDepth))
         || negb (c.(ic_PathStepCostGas) =? int64_of block.(PathStepCostGas))
      then Err conflict else Ok tt
  end.

(** [domain.NewBlockHeight] of a block number. *)
Definition number_height (number : Z) : BlockHeight := uint256FromUint64 number.

Definition log_row_key (block : ConfirmedBlock) (item : IndexedGatewayLog) : LogKey :=
  (block.(cb_ChainID), block.(cb_Hash), item.(gl_TxHash), item.(gl_TxIndex), item.(gl_LogIndex)).

Definition log_row (block : ConfirmedBlock) (item : IndexedGatewayLog) : GatewayLogRow :=
  mkLogRow block.(cb_Gateway) (number_height item.(gl_BlockNumber)) item.(EventTopic)
    item.(ContentDigest) item.(gl_Topics) item.(gl_Data).

Definition insertIndexedGatewayLog (block : ConfirmedBlock) (item : IndexedGatewayLog)
    (i : IndexTables) : res error (bool * IndexTables) :=
  if (item.(gl_Address) ≠?= block.(cb_Gateway)) || negb (item.(gl_BlockNumber) =? block.(Number))
     || (item.(gl_BlockHash) ≠?= block.(cb_Hash)) || (item.(gl_TxHash) =?= zero32)
     || (item.(EventTopic) =?= zero32) || (item.(ContentDigest) =?= zero32)
     || (hd_error item.(gl_Topics) ≠?= Some item.(EventTopic)) || (4 <? zlen item.(gl_Topics))
     || negb (zlen item.(gl_Data) mod 32 =? 0)
  then Err conflict
  else
    match i.(indexed_gateway_logs) !! log_row_key block item with
    | None => Ok (true, put_log i (log_row_key block item) (log_row block item))
    | Some row =>
        if (row.(gr_ContentDigest) ≠?= item.(ContentDigest))
           || (row.(gr_Topics) ≠?= item.(gl_Topics)) || (row.(gr_Data) ≠?= item.(gl_Data))
        then Err conflict else Ok (false, i)
    end.

Definition insertObservedRequest (keccak256 : bytes → Hash) (now : Z)
    (request : Coordinator.Request) (c : Store.DB) : res error (bool * Store.DB) :=
  if request.(Coordinator.req_State) ≠?= Coordinator.Observed then Err conflict
  else if match Store.request_id keccak256 request with
          | Ok want => want ≠?= request.(Coordinator.req_ID)
          | Err _ => true
          end
  then Err conflict
  else
    let times := Store.normalizedTimes request.(Coordinator.req_CreatedAt)
                   request.(Coordinator.req_UpdatedAt) now in
    let row := Store.set_request_times request times in
    if negb ((0 <? times.1) && (0 <? times.2)) then Err constraint
    else
      match c.(Store.requests) !! request.(Coordinator.req_ID), Store.loadByFields c request with
      | None, None =>
          Ok (true, Store.set_requests c
                      (<[request.(Coordinator.req_ID) := row]> c.(Store.requests))
                      c.(Store.request_transitions))
      | None, Some _ => Err conflict
      | Some persisted, _ =>
          if negb (Store.sameRequestIdentity persisted request) then Err conflict
          else Ok (false, c)
      end.

Definition receipt_row (block : ConfirmedBlock) (receipt : VerificationReceiptRecord) : ReceiptRow :=
  mkReceiptRow (number_height block.(Number)) block.(cb_Hash) receipt.(vrr_TxIndex)
    receipt.(vrr_RequestID).

(** [UNIQUE(chain_id,block_hash,tx_index)] *)
Definition receipt_unique (i : IndexTables) (chainID : ChainID) (row : ReceiptRow) : bool :=
  negb (existsb (λ p, (p.1.1 =?= chainID) && (p.2.(vr_BlockHash) =?= row.(vr_BlockHash))
                      && (p.2.(vr_TxIndex) =? row.(vr_TxIndex)))
          (map_to_list i.(verification_receipts))).

(** The insert and [verifyPersistedReceipt]. *)
Definition insertReceipt (block : ConfirmedBlock) (c : Store.DB)
    (receipt : VerificationReceiptRecord) (i : IndexTables) : res error (bool * IndexTables) :=
  if negb (receipt.(vrr_BlockNumber) =? block.(Number))
     || (receipt.(vrr_BlockHash) ≠?= block.(cb_Hash)) || (receipt.(vrr_TxHash) =?= zero32)
     || (receipt.(vrr_RequestID) =?= zero32)
  then Err conflict
  else
    let row := receipt_row block receipt in
    let key := (block.(cb_ChainID), receipt.(vrr_TxHash)) in
    match i.(verification_receipts) !! key with
    | None =>
        if negb (receipt_unique i block.(cb_ChainID) row)
           || negb (bool_decide (is_Some (c.(Store.requests) !! receipt.(vrr_RequestID))))
        then Err constraint else Ok (true, put_receipt i key row)
    | Some persisted => if persisted ≠?= row then Err conflict else Ok (false, i)
    end.

Definition resolution_row (block : ConfirmedBlock) (resolution : RequestResolutionRecord)
    : ResolutionRow :=
  mkResolutionRow block.(cb_ChainID) resolution.(res_TxHash) resolution.(res_DependencyKey)
    resolution.(res_NewDependency) resolution.(res_HomeTrustRoot) resolution.(res_LogIndex).

(** [UNIQUE(chain_id,tx_hash,log_index)] *)
Definition resolution_unique (i : IndexTables) (row : ResolutionRow) : bool :=
  negb (existsb (λ p, (p.2.(rr_ChainID) =?= row.(rr_ChainID)) && (p.2.(rr_TxHash) =?= row.(rr_TxHash))
                      && (p.2.(rr_LogIndex) =? row.(rr_LogIndex)))
          (map_to_list i.(request_resolutions))).

(** [types.Log{Topics: topics, Data: data}] of a stored row. *)
Definition row_log (row : GatewayLogRow) : ChainABI.Log :=
  ChainABI.mkLog zero_address row.(gr_Topics) row.(gr_Data) 0 zero32 0 zero32 0 false.

(** The row and the [RequestResolved] event agree, requester included. *)
Definition resolves (c : Store.DB) (id : RequestID) (want : ResolutionRow) (row : GatewayLogRow)
    : bool :=
  match ChainABI.ParseRequestResolved (row_log row) with
  | Err _ => false
  | Ok parsed =>
      (parsed.(ChainABI.rr_RequestID) =?= id)
      && (parsed.(ChainABI.rr_DependencyKey) =?= want.(rr_DependencyKey))
      && bool_decide (parsed.(ChainABI.rr_NewDependency) = want.(rr_NewDependency))
      && (parsed.(ChainABI.rr_HomeTrustRoot) =?= want.(rr_HomeTrustRoot))
      && match c.(Store.requests) !! id with
         | Some r => r.(Coordinator.req_Requester) =?= parsed.(ChainABI.rr_Requester)
         | None => false
         end
  end.

(** The join of the log with the receipt of its transaction. *)
Definition verifyResolutionIndexedLog (block : ConfirmedBlock) (c : Store.DB)
    (want : RequestResolutionRecord) (i : IndexTables) : res error unit :=
  match i.(verification_receipts) !! (block.(cb_ChainID), want.(res_TxHash)) with
  | None => Err binding
  | Some receipt =>
      match i.(indexed_gateway_logs)
              !! (block.(cb_ChainID), block.(cb_Hash), want.(res_TxHash), receipt.(vr_TxIndex),
                  want.(res_LogIndex)) with
      | None => Err binding
      | Some row =>
          if (receipt.(vr_RequestID) =?= want.(res_RequestID))
             && (row.(gr_EventTopic) =?= ChainABI.RequestResolvedTopic)
             && (row.(gr_BlockNumber) =?= number_height block.(Number))
             && (receipt.(vr_BlockNumber) =?= number_height block.(Number))
             && (receipt.(vr_BlockHash) =?= block.(cb_Hash))
             && resolves c want.(res_RequestID) (resolution_row block want) row
          then Ok tt else Err binding
      end
  end.

(** The insert, [verifyPersistedResolution] and the check above. *)
Definition insertResolution (block : ConfirmedBlock) (c : Store.DB)
    (resolution : RequestResolutionRecord) (i : IndexTables) : res error (bool * IndexTables) :=
  let row := resolution_row block resolution in
  out ←
    match i.(request_resolutions) !! resolution.(res_RequestID) with
    | None =>
        if negb (resolution_unique i row)
           || negb (bool_decide (is_Some (i.(verification_receipts)
                                            !! (block.(cb_ChainID), resolution.(res_TxHash)))))
           || negb (bool_decide (is_Some (c.(Store.requests) !! resolution.(res_RequestID))))
        then Err constraint else Ok (true, put_resolution i resolution.(res_RequestID) row)
    | Some persisted =>
        if persisted.(rr_ChainID) ≠?= block.(cb_ChainID) then Err ErrNoRows
        else if persisted ≠?= row then Err conflict else Ok (false, i)
    end;
  _ ← verifyResolutionIndexedLog block c resolution out.2;
  Ok out.

(** The loops of [ApplyConfirmedBlock]: the state after every item, and
    whether one of them wrote. *)
Fixpoint each {X T} (op : X → T → res error (bool * T)) (items : list X) (t : T)
    : res error (bool * T) :=
  match items with
  | [] => Ok (false, t)
  | x :: rest =>
      out ← op x t;
      out' ← each op rest out.2;
      Ok (out.1 || out'.1, out'.2)
  end.

(** Every receipt has its resolution, and there are no others. *)
Definition receipts_resolved (block : ConfirmedBlock) : bool :=
  (zlen block.(Receipts) =? zlen block.(Resolutions))
  && forallb (λ receipt,
       existsb (λ resolution,
         (resolution.(res_RequestID) =?= receipt.(vrr_RequestID))
         && (resolution.(res_TxHash) =?= receipt.(vrr_TxHash))) block.(Resolutions))
       block.(Receipts).

(** ** Dependencies *)

(** [verifyActiveNodeContent] *)
Definition verifyActiveNodeContent (c : Store.DB) (node : TrustNode) : res error unit :=
  persisted ← map_err ErrStore (loadActiveTrustNode c node.(node_ID));
  if persisted ≠?= node then Err (ErrStore Store.ErrGraphConflict) else Ok tt.

(** The join of the resolution with its receipt. *)
Definition verifyDependencyReceiptAndResolution (block : ConfirmedBlock)
    (material : DependencyMaterialization) (i : IndexTables) : res error unit :=
  let locator := material.(mat_Evidence).(Evidence.rec_Locator) in
  match i.(request_resolutions) !! material.(mat_Dependency).(dep_RequestID) with
  | None => Err binding
  | Some resolution =>
      match i.(verification_receipts) !! (resolution.(rr_ChainID), resolution.(rr_TxHash)) with
      | None => Err binding
      | Some receipt =>
          if (resolution.(rr_ChainID) =?= block.(cb_ChainID)) && resolution.(rr_NewDependency)
             && (receipt.(vr_RequestID) =?= material.(mat_Dependency).(dep_RequestID))
             && (resolution.(rr_TxHash) =?= locator.(Evidence.TxHash))
             && (receipt.(vr_BlockNumber) =?= number_height block.(Number))
             && (receipt.(vr_BlockHash) =?= block.(cb_Hash))
             && (receipt.(vr_TxIndex) =? locator.(Evidence.TxIndex))
             && (resolution.(rr_DependencyKey)
                   =?= material.(mat_Dependency).(dep_DependencyKey))
             && (resolution.(rr_HomeTrustRoot) =?= material.(mat_From).(node_Root))
          then Ok tt else Err binding
      end
  end.

(** The row and the [DependencyRecorded] event agree. *)
Definition records (dependency : VerifiedDependency) (row : GatewayLogRow) : bool :=
  match ChainABI.ParseDependencyRecorded (row_log row) with
  | Err _ => false
  | Ok parsed =>
      (parsed.(ChainABI.dr_RequestID) =?= dependency.(dep_RequestID))
      && (parsed.(ChainABI.dr_DependencyKey) =?= dependency.(dep_DependencyKey))
      && (parsed.(ChainABI.dr_SourceChainID) =?= dependency.(dep_SourceChainID))
      && (parsed.(ChainABI.dr_SourceHeight) =?= dependency.(dep_SourceHeight))
      && (parsed.(ChainABI.dr_SourceBlockHash) =?= dependency.(dep_SourceBlockHash))
      && (parsed.(ChainABI.dr_SourceTrustRoot) =?= dependency.(dep_SourceTrustRoot))
      && (parsed.(ChainABI.dr_LeafIndex) =? dependency.(dep_LeafIndex))
  end.

Definition verifyDependencyIndexedLog (block : ConfirmedBlock)
    (material : DependencyMaterialization) (i : IndexTables) : res error unit :=
  let locator := material.(mat_Evidence).(Evidence.rec_Locator) in
  match i.(indexed_gateway_logs)
          !! (block.(cb_ChainID), block.(cb_Hash), locator.(Evidence.TxHash),
              locator.(Evidence.TxIndex), locator.(Evidence.LogIndex)) with
  | None => Err binding
  | Some row =>
      if (row.(gr_EventTopic) =?= ChainABI.DependencyRecordedTopic)
         && (row.(gr_BlockNumber) =?= number_height block.(Number))
         && records material.(mat_Dependency) row
      then Ok tt else Err binding
  end.

(** New evidence of a recorded dependency is verified, confirmed and active
    within its transaction; the log has no row for evidence that is not in its
    table (foreign key), and a fresh row is not that of an observation. *)
Definition insert_active_evidence (now : Z) (reason : string) (id : Evidence.ID)
    (locator : Evidence.Locator) (c : Store.DB) : res error Store.DB :=
  if negb (0 <? now) || bool_decide (is_Some (Store.loadByLocator c locator))
     || Store.evidence_observed c id
  then Err constraint
  else
    let row := Evidence.mkRecord id locator Evidence.Active "" (Some now) (Some now) in
    Ok (Store.set_evidence c (<[id := row]> c.(Store.evidence))
          (c.(Store.evidence_transitions)
             ++ Store.log_steps id observation_steps reason now)).

(** The witness of a piece of evidence, stored once. *)
Definition insert_witness (witness : MembershipWitness) (c : Store.DB)
    : res error (bool * Store.DB) :=
  match c.(Store.membership_witnesses) !! witness.(witness_EvidenceID) with
  | Some existing =>
      if existing.(witness_ID) ≠?= witness.(witness_ID)
      then Err (ErrStore Store.ErrGraphConflict) else Ok (false, c)
  | None =>
      if bool_decide (is_Some (Store.find_row c.(Store.membership_witnesses)
                                 (λ w, w.(witness_ID) =?= witness.(witness_ID))))
      then Err constraint
      else Ok (true, Store.set_graph c c.(Store.revision) c.(Store.trust_nodes)
                       c.(Store.trust_edges)
                       (<[witness.(witness_EvidenceID) := witness]>
                          c.(Store.membership_witnesses)))
  end.

Definition confirmed_reason : string := "confirmed Gateway receipt validation".

Section Materializing.
Context (keccak256 : bytes → Hash).

(** The first tests of [applyDependencyMaterialization], which only read the
    block and the material. *)
Definition material_bound (block : ConfirmedBlock) (material : DependencyMaterialization) : bool :=
  let edge := material.(mat_Edge) in
  let record := material.(mat_Evidence) in
  let locator := record.(Evidence.rec_Locator) in
  let dependency := material.(mat_Dependency) in
  let witness := material.(mat_Witness) in
  let from := material.(mat_From) in
  is_ok (TrustEdge_Validate keccak256 edge)
  && (record.(Evidence.rec_State) =?= Evidence.Candidate)
  && (record.(Evidence.rec_ID) =?= dependency.(dep_EvidenceID))
  && (edge.(edge_EvidenceID) =?= record.(Evidence.rec_ID))
  && (witness.(witness_EvidenceID) =?= record.(Evidence.rec_ID))
  && bool_decide (edge.(edge_WitnessID) = Some witness.(witness_ID))
  && (edge.(edge_LeafIndex) =? dependency.(dep_LeafIndex))
  && (witness.(witness_LeafIndex) =? dependency.(dep_LeafIndex))
  && (edge.(TrustView.PathStepCost) =? block.(PathStepCostGas))
  && match Evidence.ComputeID keccak256 locator with
     | Ok want => want =?= record.(Evidence.rec_ID)
     | Err _ => false
     end
  && (locator.(Evidence.ChainID) =?= block.(cb_ChainID))
  && (locator.(Evidence.ContractAddress) =?= block.(cb_Gateway))
  && (locator.(Evidence.BlockNumber) =?= number_height block.(Number))
  && (locator.(Evidence.BlockHash) =?= block.(cb_Hash))
  && is_ok (VerifiedDependency_Validate keccak256 dependency material.(mat_To)
              locator.(Evidence.PayloadDigest))
  && (from.(node_ID) =?= edge.(edge_From))
  && (material.(mat_To).(node_ID) =?= edge.(edge_To))
  && negb (from.(node_Root) =?= zero32)
  && (from.(node_Key).(key_ChainID) =?= block.(cb_ChainID))
  && (from.(node_Key).(key_Height) =?= number_height block.(Number))
  && (from.(node_Key).(key_BlockHash) =?= block.(cb_Hash)).

(** The witness leads from the dependency's leaf to the home TrustRoot. *)
Definition leaf_proven (block : ConfirmedBlock) (material : DependencyMaterialization) : bool :=
  let dependency := material.(mat_Dependency) in
  let leaf := LeafHash keccak256 dependency.(dep_SourceTrustRoot)
                dependency.(dep_SourceBlockHash) in
  match Merkle.RootFromWitness keccak256 leaf material.(mat_Witness).(witness_LeafIndex)
          material.(mat_Witness).(witness_Siblings) block.(MerkleDepth) with
  | Ok root => root =?= material.(mat_From).(node_Root)
  | Err _ => false
  end.

Definition applyDependencyMaterialization (now : Z) (block : ConfirmedBlock)
    (material : DependencyMaterialization) (i : IndexTables) (c : Store.DB)
    : res error (bool * Store.DB) :=
  let record := material.(mat_Evidence) in
  let witness := material.(mat_Witness) in
  if negb (material_bound block material) then Err binding
  else
    _ ← verifyActiveNodeContent c material.(mat_From);
    _ ← verifyActiveNodeContent c material.(mat_To);
    _ ← verifyDependencyReceiptAndResolution block material i;
    if negb (leaf_proven block material) then Err binding
    else
      _ ← verifyDependencyIndexedLog block material i;
      out1 ←
        match c.(Store.evidence) !! record.(Evidence.rec_ID) with
        | None =>
            c1 ← insert_active_evidence now confirmed_reason record.(Evidence.rec_ID)
                   record.(Evidence.rec_Locator) c;
            Ok (true, c1)
        | Some _ =>
            persisted ← map_err ErrStore (loadActiveEvidence c record.(Evidence.rec_ID));
            if (persisted.(Evidence.rec_ID) ≠?= record.(Evidence.rec_ID))
               || (persisted.(Evidence.rec_Locator) ≠?= record.(Evidence.rec_Locator))
               || (persisted.(Evidence.InvalidReason) ≠?= "")
            then Err binding else Ok (false, c)
        end;
      let want := NewMembershipWitness keccak256 record.(Evidence.rec_ID)
                    witness.(witness_LeafIndex) witness.(witness_Siblings) in
      if (want.(witness_ID) ≠?= witness.(witness_ID))
         || negb (zlen witness.(witness_Siblings) =? block.(MerkleDepth))
      then Err binding
      else
        out2 ← insert_witness witness out1.2;
        out3 ← map_err ErrStore (mergeTrustEdge material.(mat_Edge) out2.2);
        Ok (out1.1 || out2.1 || out3.1, out3.2).
End Materializing.

(** ** The outbox *)

(** The fields of [scanEvidence] that are compared. *)
Definition active_at (c : Store.DB) (id : Evidence.ID) (locator : Evidence.Locator) : bool :=
  match c.(Store.evidence) !! id with
  | Some r => (r.(Evidence.rec_State) =?= Evidence.Active)
              && (r.(Evidence.InvalidReason) =?= "")
              && (r.(Evidence.rec_Locator) =?= locator)
  | None => false
  end.

Definition put_outbox (m : MailTables) (id : Hash) (row : OutboxRow) : MailTables :=
  mkMailTables m.(evidence_inbox) (<[id := row]> m.(evidence_outbox))
    m.(evidence_ingress_rejections).

Section Gossip.
Context (IDFromBytes : bytes → option Envelope.PeerID) (sha256 : bytes → Hash).
Context (peer_String : Envelope.PeerID → string).

Definition enqueueActiveEvidenceOutbox (now : Z) (origin : Envelope.PeerID) (block : ConfirmedBlock)
    (material : DependencyMaterialization) (i : IndexTables) (c : Store.DB) (m : MailTables)
    : res error (bool * MailTables) :=
  let record := material.(mat_Evidence) in
  let locator := record.(Evidence.rec_Locator) in
  if (origin =?= []) || (locator.(Evidence.ChainID) ≠?= block.(cb_ChainID))
     || (locator.(Evidence.ContractAddress) ≠?= block.(cb_Gateway))
  then Err binding
  else
    _ ← verifyDependencyReceiptAndResolution block material i;
    _ ← verifyDependencyIndexedLog block material i;
    if negb (active_at c record.(Evidence.rec_ID) locator) then Err binding
    else
      match Store.find_row m.(evidence_outbox)
              (λ row, row.(out_EvidenceID) =?= record.(Evidence.rec_ID)) with
      | Some row =>
          match Envelope.ParseDependencyEvidenceEnvelope IDFromBytes sha256
                  row.(out_Envelope) with
          | Err _ => Err conflict
          | Ok envelope =>
              if (envelope.(Envelope.OriginPeer) ≠?= origin)
                 || (Envelope.envelope_Locator envelope ≠?= locator)
              then Err conflict else Ok (false, m)
          end
      | None =>
          envelope ← map_err ErrEnvelope
            (Envelope.NewDependencyEvidenceEnvelope IDFromBytes sha256 origin (Some now) locator);
          encoded ← map_err ErrEnvelope
            (Envelope.MarshalBinary IDFromBytes sha256 envelope);
          let row := mkOutboxRow record.(Evidence.rec_ID) (peer_String origin) encoded "pending"
                       0 now "" now None in
          if bool_decide (is_Some (m.(evidence_outbox) !! envelope.(Envelope.MessageID)))
             || negb (1 <=? zlen (bytes_of_string row.(out_Origin)))
             || negb (zlen (bytes_of_string row.(out_Origin)) <=? 256) || negb (0 <? now)
          then Err constraint
          else Ok (true, put_outbox m envelope.(Envelope.MessageID) row)
      end.
End Gossip.

(** ** A confirmed block *)

Section Applying.
Context (keccak256 sha256 : bytes → Hash) (IDFromBytes : bytes → option Envelope.PeerID).
Context (peer_String : Envelope.PeerID → string).

(** [ConfigureEvidenceOutbox]: the outbox and its peer, or nothing. *)
Context (outboxPeer : option Envelope.PeerID).

Definition malformed_block (block : ConfirmedBlock) : bool :=
  (block.(Number) =? MaxUint64) || (block.(cb_Hash) =?= zero32)
  || (block.(cb_ParentHash) =?= zero32) || (block.(cb_Gateway) =?= zero_address)
  || (block.(MerkleDepth) =? 0) || (block.(PathStepCostGas) =? 0).

Definition canonical_block (block : ConfirmedBlock) : Reorg.CanonicalBlock :=
  Reorg.mkBlock (number_height block.(Number)) block.(cb_Hash) block.(cb_ParentHash).

(** Whether the block is replayed, and the cursor it leads to. *)
Definition cursor_of_block (block : ConfirmedBlock) (c : Store.DB)
    : res error (bool * Reorg.CanonicalCursor) :=
  current ← map_err ErrStore (LiveStore.LoadCursor c block.(cb_ChainID));
  if current.(Reorg.cursor_State) ≠?= Reorg.Healthy then Err (ErrCursor Reorg.ErrCursorDegraded)
  else if current.(Reorg.cursor_Height) =?= number_height block.(Number) then
    if current.(Reorg.cursor_Hash) ≠?= block.(cb_Hash)
    then Err (ErrCursor Reorg.ErrCanonicalMismatch) else Ok (true, current)
  else if current ≠?= block.(ExpectedCursor) then Err (ErrStore Store.ErrConcurrentUpdate)
  else
    match Reorg.Advance current current.(Reorg.cursor_Hash) (canonical_block block) with
    | (_, Some e) => Err (ErrCursor e)
    | (advanced, None) => Ok (false, advanced)
    end.

(** One turn of the loop over [Dependencies]; the two results are
    [graphChanged] and what is written to the outbox. *)
Definition applyDependency (now : Z) (block : ConfirmedBlock) (i : IndexTables)
    (material : DependencyMaterialization) (t : Store.DB * MailTables)
    : res error (bool * bool * (Store.DB * MailTables)) :=
  let existedBeforeApply :=
    bool_decide (is_Some (t.1.(Store.evidence) !! material.(mat_Evidence).(Evidence.rec_ID))) in
  out ← applyDependencyMaterialization keccak256 now block material i t.1;
  match outboxPeer with
  | Some origin =>
      if existedBeforeApply then Ok (out.1, false, (out.2, t.2))
      else
        sent ← enqueueActiveEvidenceOutbox IDFromBytes sha256 peer_String now origin block
                 material i out.2 t.2;
        Ok (out.1, sent.1, (out.2, sent.2))
  | None => Ok (out.1, false, (out.2, t.2))
  end.

Fixpoint applyDependencies (now : Z) (block : ConfirmedBlock) (i : IndexTables)
    (materials : list DependencyMaterialization) (t : Store.DB * MailTables)
    : res error (bool * bool * (Store.DB * MailTables)) :=
  match materials with
  | [] => Ok (false, false, t)
  | material :: rest =>
      '(graph, sent, t1) ← applyDependency now block i material t;
      '(graph', sent', t2) ← applyDependencies now block i rest t1;
      Ok (graph || graph', sent || sent', t2)
  end.

Definition ApplyConfirmedBlock (now : Z) (block : ConfirmedBlock) (db : Database)
    : res error (bool * Database) :=
  if malformed_block block then Err ErrConfirmedBlock
  else
    _ ← requireIndexerConfig block db.(index);
    '(replay, advanced) ← cursor_of_block block db.(core);
    '(logsChanged, i1) ← each (insertIndexedGatewayLog block) block.(cb_Logs) db.(index);
    '(requestsChanged, c1) ← each (insertObservedRequest keccak256 now) block.(Requests)
                               db.(core);
    '(receiptsChanged, i2) ← each (insertReceipt block c1) block.(Receipts) i1;
    '(resolutionsChanged, i3) ← each (insertResolution block c1) block.(Resolutions) i2;
    if negb (receipts_resolved block) then Err binding
    else
      '(graphChanged, sent, (c2, m)) ← applyDependencies now block i3 block.(Dependencies)
                                         (c1, db.(mail));
      if replay && (logsChanged || requestsChanged || receiptsChanged || resolutionsChanged
                    || sent || graphChanged)
      then Err conflict
      else
        c3 ← (if graphChanged then map_err ErrStore (bumpGraphRevision c2) else Ok c2);
        let c4 := if replay then c3 else LiveStore.put_cursor advanced c3 in
        Ok (negb replay, mkDatabase c4 i3 m db.(txs)).
End Applying.

(** ** Lemmas: loops *)

Section Loops.
Context {X T : Type} (op : X → T → res error (bool * T)).

Lemma each_preserves (P : T → Prop) items : ∀ t b t',
  (∀ x t b t1, x ∈ items → P t → op x t = Ok (b, t1) → P t1) →
  P t → each op items t = Ok (b, t') → P t'.
Proof.
  induction items as [|x rest IH]; intros t b t' Hop Ht; cbn [each].
  - by intros [= _ <-].
  - intros ([b1 t1] & H1 & ([b2 t2] & H2 & [= _ <-])%bind_Ok)%bind_Ok.
    eapply IH; [|eapply Hop; [left|exact Ht|exact H1]|exact H2].
    intros y u c u1 Hy. apply Hop. by right.
Qed.

Lemma each_grows (R : T → T → Prop) `{!PreOrder R} items t b t' :
  (∀ x t b t1, op x t = Ok (b, t1) → R t t1) → each op items t = Ok (b, t') → R t t'.
Proof.
  intros Hop. apply (each_preserves (R t)); [|reflexivity].
  intros x u c u1 _ Hu H. transitivity u; [done|by eapply Hop].
Qed.

Lemma each_unchanged items : ∀ t t',
  (∀ x t t1, op x t = Ok (false, t1) → t1 = t) → each op items t = Ok (false, t') → t' = t.
Proof.
  induction items as [|x rest IH]; intros t t' Hop; cbn [each].
  - by intros [= <-].
  - intros ([b1 t1] & H1 & ([b2 t2] & H2 & [= Hb <-])%bind_Ok)%bind_Ok.
    apply orb_false_iff in Hb as [-> ->]. apply Hop in H1 as ->. by eapply IH.
Qed.

(** What one turn establishes holds at the end. *)
Lemma each_post (R : T → T → Prop) `{!PreOrder R} (Q : X → T → Prop) items : ∀ t b t',
  (∀ x t b t1, op x t = Ok (b, t1) → R t t1 ∧ Q x t1) →
  (∀ x t t', Q x t → R t t' → Q x t') →
  each op items t = Ok (b, t') → ∀ x, x ∈ items → Q x t'.
Proof.
  induction items as [|x rest IH]; intros t b t' Hop HQ; cbn [each].
  - by intros _ x ?%not_elem_of_nil.
  - intros ([b1 t1] & H1 & ([b2 t2] & H2 & [= _ <-])%bind_Ok)%bind_Ok y [->|Hy]%elem_of_cons.
    + eapply HQ; [by eapply Hop|]. eapply (each_grows R rest); [|exact H2]. intros. by eapply Hop.
    + by eapply IH.
Qed.

(** Once done, a turn finds everything in place. *)
Lemma each_done items t :
  (∀ x, x ∈ items → op x t = Ok (false, t)) → each op items t = Ok (false, t).
Proof.
  induction items as [|x rest IH]; intros Hop; cbn [each]; [done|].
  rewrite Hop by apply list_elem_of_here. cbn [mbind res_mbind res_bind snd fst].
  rewrite IH; [done|]. intros y Hy. apply Hop. by right.
Qed.
End Loops.

(** ** Lemmas: the tables of the index *)

(** The tables are append-only. *)
Record index_kept (i i' : IndexTables) : Prop := {
  ik_configs : i.(live_indexer_configs) ⊆ i'.(live_indexer_configs);
  ik_degraded : i.(indexer_degraded_states) ⊆ i'.(indexer_degraded_states);
  ik_logs : i.(indexed_gateway_logs) ⊆ i'.(indexed_gateway_logs);
  ik_receipts : i.(verification_receipts) ⊆ i'.(verification_receipts);
  ik_resolutions : i.(request_resolutions) ⊆ i'.(request_resolutions)
}.

#[export] Instance index_kept_preorder : PreOrder index_kept.
Proof.
  split; [by split|]. intros a b c [] []. split; by etrans.
Qed.

Lemma Degrade_effect chainID reason db db' :
  Degrade chainID reason db = Ok db' →
  reason ≠ "" ∧ is_Some (db'.(index).(indexer_degraded_states) !! chainID) ∧
  (db' = db ∨
   db.(index).(indexer_degraded_states) !! chainID = None ∧
   is_Some (db.(index).(live_indexer_configs) !! chainID) ∧
   db' = set_index db (put_degraded db.(index) chainID reason)).
Proof.
  unfold Degrade. intros [Hr H]%bind_bool. apply bind_bool in H as [_ H]. bool_to_prop.
  split; [done|]. case_bool_decide as Hd.
  - injection H as <-. auto.
  - case_bool_decide as Hc; [|done]. injection H as <-. cbn. rewrite lookup_insert_eq.
    split; [by eexists|]. right. apply eq_None_not_Some in Hd. done.
Qed.

Lemma Configure_effect config db db' :
  Configure config db = Ok db' →
  ∃ live, db.(core).(Store.live_chains) !! config.(ic_ChainID) = Some live ∧
    is_Some live.(Store.vlc_ValidatedAt) ∧ live.(Store.vlc_Gateway) = config.(ic_Gateway) ∧
    live.(Store.vlc_GatewayCodeHash) = config.(ic_GatewayCodeHash) ∧
    live.(Store.vlc_DeploymentBlock) = config.(ic_DeploymentBlock) ∧
    config.(ic_Gateway) ≠ zero_address ∧
    (db' = db ∨
     db.(index).(live_indexer_configs) !! config.(ic_ChainID) = None ∧
     db' = set_index db (put_config db.(index) config.(ic_ChainID) config)).
Proof.
  unfold Configure. intros [Hv H]%bind_bool.
  destruct (Store.live_chains (core db) !! ic_ChainID config) as [live|] eqn:Hl; [|done].
  apply bind_bool in H as [Hval H]. apply bind_bool in H as [Hb H]. bool_to_prop.
  exists live. split_and!; try done.
  destruct (live_indexer_configs (index db) !! ic_ChainID config) as [p|] eqn:Hp.
  - left. by apply bind_bool in H as [_ [= <-]].
  - injection H as <-. by right.
Qed.

Lemma requireIndexerConfig_Ok block i :
  requireIndexerConfig block i = Ok tt →
  ∃ c, i.(live_indexer_configs) !! block.(cb_ChainID) = Some c ∧
    c.(ic_Gateway) = block.(cb_Gateway) ∧ c.(ic_MerkleDepth) = block.(MerkleDepth).
Proof.
  unfold requireIndexerConfig.
  destruct (live_indexer_configs i !! cb_ChainID block) as [c|]; [|done].
  intros [Hb _]%bind_bool. bool_to_prop. by exists c.
Qed.

Lemma insert_log_Ok block item i b i' :
  insertIndexedGatewayLog block item i = Ok (b, i') →
  item.(gl_BlockNumber) = block.(Number) ∧ item.(gl_BlockHash) = block.(cb_Hash) ∧
  hd_error item.(gl_Topics) = Some item.(EventTopic) ∧
  ((b = false ∧ i' = i ∧
    ∃ row, i.(indexed_gateway_logs) !! log_row_key block item = Some row ∧
      row.(gr_ContentDigest) = item.(ContentDigest) ∧ row.(gr_Topics) = item.(gl_Topics) ∧
      row.(gr_Data) = item.(gl_Data)) ∨
   (b = true ∧ i.(indexed_gateway_logs) !! log_row_key block item = None ∧
    i' = put_log i (log_row_key block item) (log_row block item))).
Proof.
  unfold insertIndexedGatewayLog. intros [Hv H]%bind_bool. bool_to_prop. split_and!; try done.
  destruct (indexed_gateway_logs i !! log_row_key block item) as [row|] eqn:Hl.
  - apply bind_bool in H as [Hb [= <- <-]]. bool_to_prop. left. split_and!; [done..|].
    by exists row.
  - injection H as <- <-. by right.
Qed.

(** The coordinates of an item have a row with its content. *)
Definition log_stored (block : ConfirmedBlock) (item : IndexedGatewayLog) (i : IndexTables) : Prop :=
  ∃ row, i.(indexed_gateway_logs) !! log_row_key block item = Some row ∧
    row.(gr_ContentDigest) = item.(ContentDigest) ∧ row.(gr_Topics) = item.(gl_Topics) ∧
    row.(gr_Data) = item.(gl_Data).

Lemma insert_log_grows block item i b i' :
  insertIndexedGatewayLog block item i = Ok (b, i') →
  index_kept i i' ∧ (b = false → i' = i) ∧
  ∀ i2, index_kept i' i2 → insertIndexedGatewayLog block item i2 = Ok (false, i2).
Proof.
  intros H. assert (log_stored block item i' ∧ index_kept i i' ∧ (b = false → i' = i))
    as ((row & Hrow & H1 & H2 & H3) & Hk & Hb).
  { apply insert_log_Ok in H as (_ & _ & _ & [(-> & -> & Hs)|(-> & Hn & ->)]); [done|].
    split; [|split; [split; cbn; by first [done|apply insert_subseteq]|done]].
    exists (log_row block item). cbn. by rewrite lookup_insert_eq. }
  split; [done|]. split; [done|]. intros i2 Hi2.
  unfold insertIndexedGatewayLog in H |- *. apply bind_bool in H as [-> _].
  rewrite (lookup_weaken _ _ _ _ Hrow (ik_logs _ _ Hi2)), H1, H2, H3.
  by rewrite !bool_decide_eq_true_2.
Qed.

Lemma insert_receipt_Ok block c receipt i b i' :
  insertReceipt block c receipt i = Ok (b, i') →
  let key := (block.(cb_ChainID), receipt.(vrr_TxHash)) in
  receipt.(vrr_TxHash) ≠ zero32 ∧
  i'.(verification_receipts) !! key = Some (receipt_row block receipt) ∧
  ((b = false ∧ i' = i) ∨
   (b = true ∧ i.(verification_receipts) !! key = None ∧
    is_Some (c.(Store.requests) !! receipt.(vrr_RequestID)) ∧
    receipt_unique i block.(cb_ChainID) (receipt_row block receipt) = true ∧
    i' = put_receipt i key (receipt_row block receipt))).
Proof.
  unfold insertReceipt. intros [Hv H]%bind_bool. cbn zeta. bool_to_prop. split; [done|].
  destruct (verification_receipts i !! _) as [p|] eqn:Hp.
  - apply bind_bool in H as [Hb [= <- <-]]. bool_to_prop. subst p. auto.
  - apply bind_bool in H as [Hb [= <- <-]]. bool_to_prop. cbn. rewrite lookup_insert_eq.
    split; [done|]. right. by split_and!.
Qed.

Lemma insert_receipt_grows block c receipt i b i' :
  insertReceipt block c receipt i = Ok (b, i') →
  index_kept i i' ∧ (b = false → i' = i) ∧
  ∀ c2 i2, index_kept i' i2 → insertReceipt block c2 receipt i2 = Ok (false, i2).
Proof.
  intros H. pose proof H as (_ & Hrow & Hcase)%insert_receipt_Ok.
  split; [|split].
  - destruct Hcase as [(_ & ->)|(_ & Hn & _ & _ & ->)]; [done|].
    split; cbn; by first [done|apply insert_subseteq].
  - destruct Hcase as [(_ & ->)|(-> & _)]; done.
  - intros c2 i2 Hi2. unfold insertReceipt in H |- *. apply bind_bool in H as [-> _].
    rewrite (lookup_weaken _ _ _ _ Hrow (ik_receipts _ _ Hi2)).
    by rewrite bool_decide_eq_true_2.
Qed.

(** Requests keep their identity. *)
Definition requests_kept (c c' : Store.DB) : Prop :=
  ∀ id r, c.(Store.requests) !! id = Some r →
    ∃ r', c'.(Store.requests) !! id = Some r' ∧ Store.sameRequestIdentity r' r = true.

Lemma sameRequestIdentity_spec a b :
  Store.sameRequestIdentity a b = true ↔
  a.(Coordinator.req_ID) = b.(Coordinator.req_ID) ∧ Store.sameRequestFields a b = true.
Proof. unfold Store.sameRequestIdentity. by rewrite andb_true_iff, bool_decide_eq_true. Qed.

#[export] Instance requests_kept_preorder : PreOrder requests_kept.
Proof.
  split.
  - intros c id r Hr. exists r. split; [done|]. apply sameRequestIdentity_spec.
    split; [done|]. by apply Store.sameRequestFields_spec.
  - intros a b c H1 H2 id r (r1 & Hr1 & Hs1)%H1. destruct (H2 _ _ Hr1) as (r2 & Hr2 & Hs2).
    exists r2. split; [done|]. apply sameRequestIdentity_spec in Hs1 as [E1 F1], Hs2 as [E2 F2].
    apply sameRequestIdentity_spec. split; [congruence|]. by eapply Store.sameRequestFields_trans.
Qed.

Lemma insert_request_observes keccak256 now request c b c' :
  insertObservedRequest keccak256 now request c = Ok (b, c') →
  ∃ r, Store.ObserveRequest keccak256 now request c = Ok (r, b, c').
Proof.
  unfold insertObservedRequest, Store.ObserveRequest. intros [-> H]%bind_bool.
  apply bind_bool in H as [Hid H].
  destruct (Store.request_id keccak256 request) as [want|]; [|done].
  cbn [map_err mbind res_mbind res_bind].
  replace (Coordinator.req_ID request ≠?= want) with false
    by (bool_to_prop; subst; by rewrite bool_decide_eq_true_2).
  apply bind_bool in H as [-> H].
  destruct (Store.requests c !! _) as [p|], (Store.loadByFields c request); try done.
  - apply bind_bool in H as [-> [= <- <-]]. by eexists.
  - apply bind_bool in H as [-> [= <- <-]]. by eexists.
  - injection H as <- <-. by eexists.
Qed.

Lemma insert_request_grows keccak256 now request c b c' :
  insertObservedRequest keccak256 now request c = Ok (b, c') →
  requests_kept c c' ∧ (b = false → c' = c) ∧
  (∃ m l, c' = Store.set_requests c m l) ∧
  ∀ now' c2, 0 < now' → requests_kept c' c2 →
    insertObservedRequest keccak256 now' request c2 = Ok (false, c2).
Proof.
  intros H. set (id := Coordinator.req_ID request).
  assert (∃ r, c'.(Store.requests) !! id = Some r ∧ Store.sameRequestIdentity r request = true ∧
    requests_kept c c' ∧ (b = false → c' = c) ∧ ∃ m l, c' = Store.set_requests c m l)
    as (r & Hr & Hsame & Hk & Hb & Hset).
  { unfold insertObservedRequest in H. do 3 apply bind_bool in H as [_ H].
    fold id in H. destruct (Store.requests c !! id) as [p|] eqn:Hp.
    - apply bind_bool in H as [Hs [= <- <-]]. bool_to_prop. exists p. split_and!; try done.
      exists (Store.requests c), (Store.request_transitions c). by destruct c.
    - destruct (Store.loadByFields c request); [done|]. injection H as <- <-. eexists.
      cbn. rewrite lookup_insert_eq. split; [done|]. split; [|split; [|split; [done|by do 2 eexists]]].
      + apply sameRequestIdentity_spec. split; [done|]. by apply Store.sameRequestFields_spec.
      + intros id' q Hq. exists q. cbn. rewrite lookup_insert_ne by (unfold id in *; congruence). split; [done|].
        apply sameRequestIdentity_spec. split; [done|]. by apply Store.sameRequestFields_spec. }
  split_and!; [done..|]. intros now' c2 Hnow Hk2. destruct (Hk2 _ _ Hr) as (r2 & Hr2 & Hs2).
  unfold insertObservedRequest in H |- *. apply bind_bool in H as [-> H].
  apply bind_bool in H as [-> H]. apply bind_bool in H as [Ht _]. fold id. rewrite Hr2.
  assert (Store.sameRequestIdentity r2 request = true) as ->.
  { apply sameRequestIdentity_spec in Hs2 as [E2 F2], Hsame as [E1 F1].
    apply sameRequestIdentity_spec. split; [congruence|]. by eapply Store.sameRequestFields_trans. }
  cbn [negb].
  match goal with |- (if ?t then _ else _) = _ => replace t with false; [done|] end.
  symmetry. apply negb_false_iff. apply negb_false_iff, andb_true_iff in Ht as [H1 H2].
  unfold Store.normalizedTimes in *. cbn [fst snd] in *. bool_to_prop.
  destruct (Coordinator.req_CreatedAt request), (Coordinator.req_UpdatedAt request);
    cbn [default] in *; apply andb_true_iff; split; apply Z.ltb_lt; lia.
Qed.

(** A resolution rests on a [RequestResolved] event in the block of the
    receipt of its transaction. *)
Definition resolution_backed (c : Store.DB) (i : IndexTables) (id : RequestID)
    (row : ResolutionRow) : Prop :=
  ∃ receipt g,
    i.(verification_receipts) !! (row.(rr_ChainID), row.(rr_TxHash)) = Some receipt ∧
    receipt.(vr_RequestID) = id ∧
    i.(indexed_gateway_logs) !! (row.(rr_ChainID), receipt.(vr_BlockHash), row.(rr_TxHash),
      receipt.(vr_TxIndex), row.(rr_LogIndex)) = Some g ∧
    g.(gr_BlockNumber) = receipt.(vr_BlockNumber) ∧
    g.(gr_EventTopic) = ChainABI.RequestResolvedTopic ∧ resolves c id row g = true.

Lemma resolves_mono c c' id row g :
  requests_kept c c' → resolves c id row g = true → resolves c' id row g = true.
Proof.
  intros Hk. unfold resolves. destruct (ChainABI.ParseRequestResolved _) as [p|]; [|done].
  rewrite !andb_true_iff. intros [H1 H2]. split; [done|].
  destruct (Store.requests c !! id) as [r|] eqn:Hr; [|done].
  destruct (Hk _ _ Hr) as (r' & -> & Hs). bool_to_prop.
  apply sameRequestIdentity_spec in Hs as [_ Hs%Store.sameRequestFields_spec].
  apply bool_decide_eq_true. destruct_and!. congruence.
Qed.

Lemma resolution_backed_mono c i c' i' id row :
  requests_kept c c' → index_kept i i' → resolution_backed c i id row →
  resolution_backed c' i' id row.
Proof.
  intros Hc Hi (v & g & H1 & H2 & H3 & H4 & H5 & H6). exists v, g.
  split_and!; [|done| |done|done|by eapply resolves_mono].
  - by eapply lookup_weaken; [|apply Hi].
  - by eapply lookup_weaken; [|apply Hi].
Qed.

Lemma verify_resolution_Ok block c want i :
  verifyResolutionIndexedLog block c want i = Ok tt ↔
  ∃ receipt g,
    i.(verification_receipts) !! (block.(cb_ChainID), want.(res_TxHash)) = Some receipt ∧
    receipt.(vr_RequestID) = want.(res_RequestID) ∧
    receipt.(vr_BlockHash) = block.(cb_Hash) ∧
    receipt.(vr_BlockNumber) = number_height block.(Number) ∧
    i.(indexed_gateway_logs) !! (block.(cb_ChainID), block.(cb_Hash), want.(res_TxHash),
      receipt.(vr_TxIndex), want.(res_LogIndex)) = Some g ∧
    g.(gr_BlockNumber) = number_height block.(Number) ∧
    g.(gr_EventTopic) = ChainABI.RequestResolvedTopic ∧
    resolves c want.(res_RequestID) (resolution_row block want) g = true.
Proof.
  unfold verifyResolutionIndexedLog. split.
  - destruct (verification_receipts i !! _) as [v|] eqn:Hv; [|done].
    destruct (indexed_gateway_logs i !! _) as [g|] eqn:Hg; [|done].
    destruct (_ && _) eqn:Hb; [|done]. intros _. bool_to_prop. exists v, g. by split_and!.
  - intros (v & g & -> & H1 & H2 & H3 & -> & H4 & H5 & H6).
    by rewrite H1, H2, H3, H4, H5, H6, !bool_decide_eq_true_2.
Qed.

Lemma insert_resolution_Ok block c resolution i b i' :
  insertResolution block c resolution i = Ok (b, i') →
  let id := resolution.(res_RequestID) in
  let row := resolution_row block resolution in
  i'.(request_resolutions) !! id = Some row ∧
  verifyResolutionIndexedLog block c resolution i' = Ok tt ∧
  ((b = false ∧ i' = i) ∨
   (b = true ∧ i.(request_resolutions) !! id = None ∧
    is_Some (c.(Store.requests) !! id) ∧ i' = put_resolution i id row)).
Proof.
  unfold insertResolution. intros ([b0 i0] & H0 & ([] & Hv & [= <- <-])%bind_Ok)%bind_Ok.
  cbn [snd] in Hv. cbn zeta.
  destruct (request_resolutions i !! res_RequestID resolution) as [p|] eqn:Hp.
  - apply bind_bool in H0 as [Hc H0]. apply bind_bool in H0 as [Hr [= <- <-]]. bool_to_prop.
    subst p. auto.
  - apply bind_bool in H0 as [Hb [= <- <-]]. bool_to_prop. cbn. rewrite lookup_insert_eq.
    split; [done|]. split; [done|]. right. by split_and!.
Qed.

Lemma insert_resolution_grows block c resolution i b i' :
  insertResolution block c resolution i = Ok (b, i') →
  index_kept i i' ∧ (b = false → i' = i) ∧
  ∀ c2 i2, requests_kept c c2 → index_kept i' i2 →
    insertResolution block c2 resolution i2 = Ok (false, i2).
Proof.
  intros (Hrow & Hv & Hcase)%insert_resolution_Ok. split; [|split].
  - destruct Hcase as [(_ & ->)|(_ & Hn & _ & ->)]; [done|].
    split; cbn; by first [done|apply insert_subseteq].
  - destruct Hcase as [(_ & ->)|(-> & _)]; done.
  - intros c2 i2 Hc Hi. unfold insertResolution.
    rewrite (lookup_weaken _ _ _ _ Hrow (ik_resolutions _ _ Hi)).
    cbn [rr_ChainID resolution_row]. rewrite !bool_decide_eq_true_2 by done.
    cbn [negb mbind res_mbind res_bind snd].
    assert (verifyResolutionIndexedLog block c2 resolution i2 = Ok tt) as ->; [|done].
    apply verify_resolution_Ok in Hv as (v & g & H1 & H2 & H3 & H4 & H5 & H6 & H7 & H8).
    apply verify_resolution_Ok. exists v, g. split_and!; try done.
    + by eapply lookup_weaken; [|apply Hi].
    + by eapply lookup_weaken; [|apply Hi].
    + by eapply resolves_mono.
Qed.

(** ** Lemmas: an edge and its witness *)

(** Active evidence, nodes, witnesses and active edges stay. *)
Record graph_kept (c c' : Store.DB) : Prop := {
  gk_active id r : c.(Store.evidence) !! id = Some r → r.(Evidence.rec_State) = Evidence.Active →
    c'.(Store.evidence) !! id = Some r;
  gk_nodes : c.(Store.trust_nodes) ⊆ c'.(Store.trust_nodes);
  gk_witnesses : c.(Store.membership_witnesses) ⊆ c'.(Store.membership_witnesses);
  gk_edges id e : c.(Store.trust_edges) !! id = Some (e, true) →
    c'.(Store.trust_edges) !! id = Some (e, true)
}.

#[export] Instance graph_kept_preorder : PreOrder graph_kept.
Proof.
  split; [by split|]. intros a b c [] []. split; eauto; by etrans.
Qed.

Lemma graph_kept_is_active c c' id :
  graph_kept c c' → is_active c id = true → is_active c' id = true.
Proof.
  intros K (r & Hr & Hs)%is_active_spec. apply is_active_spec. exists r.
  split; [by eapply gk_active|done].
Qed.

Definition with_witnesses (c : Store.DB) (m : gmap Evidence.ID MembershipWitness) : Store.DB :=
  Store.set_graph c c.(Store.revision) c.(Store.trust_nodes) c.(Store.trust_edges) m.

(** Edges are merged without a look at the witnesses. *)
Lemma mergeTrustEdge_witnesses edge c m :
  mergeTrustEdge edge (with_witnesses c m)
  = ('(b, c') ← mergeTrustEdge edge c; Ok (b, with_witnesses c' m)).
Proof.
  unfold mergeTrustEdge, put_edge. cbn [with_witnesses Store.set_graph Store.trust_edges].
  change (edge_allowed (with_witnesses c m) edge) with (edge_allowed c edge).
  destruct (Store.trust_edges c !! edge_ID edge) as [[p a]|].
  - destruct (_ || _); [done|]. destruct a; [done|]. by destruct (edge_allowed c edge).
  - destruct (Store.find_row _ _); [done|]. by destruct (edge_allowed c edge).
Qed.

(** The stored witness of an edge leads from the leaf of its target to the
    TrustRoot of its source. *)
Definition edge_proven (keccak256 : bytes → Hash) (c : Store.DB) (e : TrustEdge) : Prop :=
  ∃ w from to, c.(Store.membership_witnesses) !! e.(edge_EvidenceID) = Some w ∧
    w.(witness_LeafIndex) = e.(edge_LeafIndex) ∧
    c.(Store.trust_nodes) !! e.(edge_From) = Some from ∧
    c.(Store.trust_nodes) !! e.(edge_To) = Some to ∧
    Merkle.RootFromWitness keccak256
      (LeafHash keccak256 to.(node_Root) to.(node_Key).(key_BlockHash))
      w.(witness_LeafIndex) w.(witness_Siblings) (zlen w.(witness_Siblings))
      = Ok from.(node_Root).

Definition witnessed (keccak256 : bytes → Hash) (c : Store.DB) : Prop :=
  ∀ id e a, c.(Store.trust_edges) !! id = Some (e, a) → edge_proven keccak256 c e.

Lemma edge_proven_mono keccak256 c c' e :
  graph_kept c c' → edge_proven keccak256 c e → edge_proven keccak256 c' e.
Proof.
  intros K (w & f & t & H1 & H2 & H3 & H4 & H5). exists w, f, t.
  split_and!; try done; by eapply lookup_weaken; [|apply K].
Qed.

Lemma insert_witness_Ok witness c b c' :
  insert_witness witness c = Ok (b, c') →
  (b = false ∧ c' = c ∧ ∃ w, c.(Store.membership_witnesses) !! witness.(witness_EvidenceID) = Some w ∧
     w.(witness_ID) = witness.(witness_ID)) ∨
  (b = true ∧ c.(Store.membership_witnesses) !! witness.(witness_EvidenceID) = None ∧
   c' = with_witnesses c (<[witness.(witness_EvidenceID) := witness]>
                            c.(Store.membership_witnesses))).
Proof.
  unfold insert_witness. destruct (Store.membership_witnesses c !! _) as [w|] eqn:Hw.
  - intros [Hb [= <- <-]]%bind_bool. bool_to_prop. left. split_and!; [done..|]. by exists w.
  - intros [_ [= <- <-]]%bind_bool. by right.
Qed.

Section Install.
Context (keccak256 : bytes → Hash).

(** What the insert of a witness and the merge of its edge lead to. *)
Record installed (witness : MembershipWitness) (edge : TrustEdge) (c c' : Store.DB)
    (changed : bool) : Prop := {
  in_graph : graph_wf keccak256 c';
  in_kept : graph_kept c c';
  in_only : graph_only c c';
  in_revision : c'.(Store.revision) = c.(Store.revision);
  in_nodes : c'.(Store.trust_nodes) = c.(Store.trust_nodes);
  in_same : changed = false → c' = c;
  in_edge : c'.(Store.trust_edges) !! edge.(edge_ID) = Some (stored_edge edge, true);
  in_witness : ∃ w, c'.(Store.membership_witnesses) !! edge.(edge_EvidenceID) = Some w ∧
    w.(witness_ID) = witness.(witness_ID)
}.

(** A new edge has a new witness: a stored witness belongs to an edge of the
    same evidence. *)
Lemma install_cases witness edge c c1 c2 b1 b2 :
  graph_wf keccak256 c → witness.(witness_EvidenceID) = edge.(edge_EvidenceID) →
  insert_witness witness c = Ok (b1, c1) → mergeTrustEdge edge c1 = Ok (b2, c2) →
  (b2 = false ∧ c2 = c1 ∧ c.(Store.trust_edges) !! edge.(edge_ID) = Some (stored_edge edge, true)) ∨
  (b1 = true ∧ b2 = true ∧ ∃ c', mergeTrustEdge edge c = Ok (true, c') ∧
     c.(Store.trust_edges) !! edge.(edge_ID) = None ∧
     c.(Store.membership_witnesses) !! edge.(edge_EvidenceID) = None ∧
     c2 = with_witnesses c' (<[edge.(edge_EvidenceID) := witness]>
                              c.(Store.membership_witnesses))).
Proof.
  intros W Hev H1 H2. apply insert_witness_Ok in H1.
  assert (∃ m, c1 = with_witnesses c m) as [m ->].
  { destruct H1 as [(_ & -> & _)|(_ & _ & ->)]; [|by eexists].
    exists (Store.membership_witnesses c). by destruct c. }
  rewrite mergeTrustEdge_witnesses in H2. apply bind_Ok in H2 as ([b c'] & Hm & [= <- <-]).
  pose proof Hm as [(-> & -> & Hl)|(-> & Hn & _ & Hfresh & _)]%(mergeTrustEdge_Ok keccak256);
    [by left| |done].
  right. destruct H1 as [(_ & _ & w & Hw & _)|(-> & Hw & Heq)].
  - destruct (g_witness _ _ W _ _ Hw) as (_ & _ & id & e & He & Hee & _).
    destruct (Hfresh _ _ He). cbn. congruence.
  - rewrite Hev in *. split_and!; [done..|]. exists c'. split_and!; [done..|].
    apply (f_equal Store.membership_witnesses) in Heq. cbn in Heq. by subst m.
Qed.

Lemma add_witness_wf witness c id e :
  graph_wf keccak256 c → c.(Store.trust_edges) !! id = Some (e, true) →
  e.(edge_EvidenceID) = witness.(witness_EvidenceID) →
  e.(edge_LeafIndex) = witness.(witness_LeafIndex) →
  witness = NewMembershipWitness keccak256 witness.(witness_EvidenceID)
              witness.(witness_LeafIndex) witness.(witness_Siblings) →
  witness.(witness_Siblings) ≠ [] →
  graph_wf keccak256 (with_witnesses c (<[witness.(witness_EvidenceID) := witness]>
                                          c.(Store.membership_witnesses))).
Proof.
  intros [W1 W2 W3 W4 W5] He Hev Hleaf Hw Hs. split; [exact W1|exact W2|exact W3| |exact W5].
  intros ev w. cbn. intros [[<- <-]|[Hx Hw']]%lookup_insert_Some; [|exact (W4 _ _ Hw')].
  split; [done|]. split; [done|]. by exists id, e.
Qed.

Lemma install_spec witness edge c c1 c2 b1 b2 from to :
  graph_wf keccak256 c → TrustEdge_Validate keccak256 edge = Ok tt →
  c.(Store.trust_nodes) !! edge.(edge_From) = Some from →
  c.(Store.trust_nodes) !! edge.(edge_To) = Some to →
  from.(node_Key).(key_ChainID) ≠ to.(node_Key).(key_ChainID) →
  witness.(witness_EvidenceID) = edge.(edge_EvidenceID) →
  witness.(witness_LeafIndex) = edge.(edge_LeafIndex) →
  witness = NewMembershipWitness keccak256 witness.(witness_EvidenceID)
              witness.(witness_LeafIndex) witness.(witness_Siblings) →
  witness.(witness_Siblings) ≠ [] →
  insert_witness witness c = Ok (b1, c1) → mergeTrustEdge edge c1 = Ok (b2, c2) →
  installed witness edge c c2 (b1 || b2).
Proof.
  intros W Hv Hf Ht Hne Hev Hleaf Hw Hs H1 H2.
  destruct (install_cases _ _ _ _ _ _ _ W Hev H1 H2)
    as [(-> & -> & He)|(-> & -> & c' & Hm & Hn & Hnw & ->)].
  - apply insert_witness_Ok in H1 as [(-> & -> & w & Hl & Hid)|(-> & Hnw & ->)].
    + split; try done; [apply graph_only_refl|]. exists w. by rewrite <-Hev.
    + split; try done.
      * by apply add_witness_wf with edge.(edge_ID) (stored_edge edge).
      * split; cbn; [done|done|by apply insert_subseteq|done].
      * cbn. rewrite Hev, lookup_insert_eq. by exists witness.
  - destruct (mergeTrustEdge_wf _ _ _ _ _ _ _ W Hv Hf Ht Hne Hm) as [W' Hl].
    destruct (mergeTrustEdge_only _ _ _ _ _ W Hm) as (Ho & Hrev & _ & Hnodes).
    pose proof Hm as [(? & _)|(_ & _ & _ & _ & Hc')]%(mergeTrustEdge_Ok keccak256); [done| |done].
    split; cbn [with_witnesses Store.set_graph Store.trust_edges Store.membership_witnesses
      Store.trust_nodes Store.revision].
    + assert (Store.membership_witnesses c' = Store.membership_witnesses c) as <- by (by rewrite Hc').
      rewrite <-Hev. by apply add_witness_wf with edge.(edge_ID) (stored_edge edge).
    + rewrite Hc'. split; cbn; [done|done|by apply insert_subseteq|].
      intros id e He. rewrite lookup_insert_ne; [done|congruence].
    + rewrite Hc'. done.
    + done.
    + done.
    + done.
    + done.
    + rewrite lookup_insert_eq. by exists witness.
Qed.

(** With the leaf of the target, every edge stays proven; and nothing but an
    edge brings a witness. *)
Lemma install_witnessed witness edge c c1 c2 b1 b2 from to :
  graph_wf keccak256 c → witnessed keccak256 c →
  c.(Store.trust_nodes) !! edge.(edge_From) = Some from →
  c.(Store.trust_nodes) !! edge.(edge_To) = Some to →
  witness.(witness_EvidenceID) = edge.(edge_EvidenceID) →
  witness.(witness_LeafIndex) = edge.(edge_LeafIndex) →
  Merkle.RootFromWitness keccak256
    (LeafHash keccak256 to.(node_Root) to.(node_Key).(key_BlockHash))
    witness.(witness_LeafIndex) witness.(witness_Siblings) (zlen witness.(witness_Siblings))
    = Ok from.(node_Root) →
  insert_witness witness c = Ok (b1, c1) → mergeTrustEdge edge c1 = Ok (b2, c2) →
  witnessed keccak256 c2 ∧ b1 = b2.
Proof.
  intros W WP Hf Ht Hev Hleaf Hroot H1 H2.
  destruct (install_cases _ _ _ _ _ _ _ W Hev H1 H2)
    as [(-> & -> & He)|(-> & -> & c' & Hm & Hn & Hnw & ->)].
  - destruct (WP _ _ _ He) as (w & _ & _ & Hw & _). cbn in Hw. rewrite <-Hev in Hw.
    apply insert_witness_Ok in H1 as [(-> & -> & _)|(_ & Hx & _)]; [done|congruence].
  - split; [|done].
    pose proof Hm as [(? & _)|(_ & _ & _ & _ & ->)]%(mergeTrustEdge_Ok keccak256); [done| |done].
    intros id e a. cbn. intros [[<- [= <- <-]]|[Hne He]]%lookup_insert_Some.
    + exists witness, from, to. cbn. by rewrite lookup_insert_eq.
    + destruct (WP _ _ _ He) as (w & f & t & Hw & ? & ? & ? & ?). exists w, f, t. cbn.
      rewrite lookup_insert_ne by congruence. by split_and!.
Qed.

(** A second time nothing is left to do. *)
Lemma install_again witness edge c w :
  witness.(witness_EvidenceID) = edge.(edge_EvidenceID) →
  c.(Store.membership_witnesses) !! edge.(edge_EvidenceID) = Some w →
  w.(witness_ID) = witness.(witness_ID) →
  c.(Store.trust_edges) !! edge.(edge_ID) = Some (stored_edge edge, true) →
  insert_witness witness c = Ok (false, c) ∧ mergeTrustEdge edge c = Ok (false, c).
Proof.
  intros Hev Hw Hid He. split.
  - unfold insert_witness. rewrite Hev, Hw, Hid. by rewrite bool_decide_eq_true_2.
  - unfold mergeTrustEdge. rewrite He. cbn [stored_edge edge_From edge_To edge_EvidenceID
      edge_LeafIndex TrustView.PathStepCost].
    by rewrite !bool_decide_eq_true_2, !Z.eqb_refl by done.
Qed.
End Install.
End IndexerStore.
