(* ===== verification/IndexerApply.v ===== *)
(** * Mapnode/store: what applying a confirmed block does

    Lemmas and theorems on [ApplyConfirmedBlock] of IndexerStore.v: it is
    append-only, a block applied before changes nothing, and the rows it
    writes explain one another. *)

From S2P Require Import Prelude Domain Merkle Evidence TrustView Reorg Planner PathProof Coordinator.
From S2P Require Import ChainABI Receipt Indexer Envelope Submission Store GraphStore PlanStore ProofStore.
From S2P Require Import LiveStore System Tables IndexerStore.
Import Domain TrustView Tables.

Module IndexerApply.

Import Indexer GraphStore IndexerStore.

(** ** Lemmas: a recorded dependency *)

Lemma verify_node_Ok c node :
  verifyActiveNodeContent c node = Ok tt →
  c.(Store.trust_nodes) !! node.(node_ID) = Some node ∧ is_active c node.(node_EvidenceID) = true.
Proof.
  unfold verifyActiveNodeContent. intros (p & Hp%map_err_Ok & H)%bind_Ok.
  apply bind_bool in H as [Hb _]. bool_to_prop. subst p. unfold loadActiveTrustNode in Hp.
  destruct (Store.trust_nodes c !! _) as [n|]; [|done].
  destruct (is_active c (node_EvidenceID n)) eqn:Ha; [|done]. injection Hp as ->. done.
Qed.

Lemma verify_node_again c c' node :
  graph_kept c c' → verifyActiveNodeContent c node = Ok tt →
  verifyActiveNodeContent c' node = Ok tt.
Proof.
  intros K [Hn Ha]%verify_node_Ok. unfold verifyActiveNodeContent, loadActiveTrustNode.
  rewrite (lookup_weaken _ _ _ _ Hn (gk_nodes _ _ K)), (graph_kept_is_active _ _ _ K Ha).
  cbn [map_err mbind res_mbind res_bind]. by rewrite bool_decide_eq_true_2.
Qed.

Lemma verify_receipt_again block material i i' :
  index_kept i i' → verifyDependencyReceiptAndResolution block material i = Ok tt →
  verifyDependencyReceiptAndResolution block material i' = Ok tt.
Proof.
  intros K. unfold verifyDependencyReceiptAndResolution.
  destruct (request_resolutions i !! _) as [r|] eqn:Hr; [|done].
  rewrite (lookup_weaken _ _ _ _ Hr (ik_resolutions _ _ K)).
  destruct (verification_receipts i !! _) as [v|] eqn:Hv; [|done].
  by rewrite (lookup_weaken _ _ _ _ Hv (ik_receipts _ _ K)).
Qed.

Lemma verify_log_again block material i i' :
  index_kept i i' → verifyDependencyIndexedLog block material i = Ok tt →
  verifyDependencyIndexedLog block material i' = Ok tt.
Proof.
  intros K. unfold verifyDependencyIndexedLog.
  destruct (indexed_gateway_logs i !! _) as [g|] eqn:Hg; [|done].
  by rewrite (lookup_weaken _ _ _ _ Hg (ik_logs _ _ K)).
Qed.

Lemma active_at_spec c id locator :
  active_at c id locator = true ↔
  ∃ r, c.(Store.evidence) !! id = Some r ∧ r.(Evidence.rec_State) = Evidence.Active ∧
    r.(Evidence.InvalidReason) = "" ∧ r.(Evidence.rec_Locator) = locator.
Proof.
  unfold active_at. destruct (Store.evidence c !! id) as [r|].
  - rewrite !andb_true_iff, !bool_decide_eq_true. naive_solver.
  - naive_solver.
Qed.

Lemma active_at_mono c c' id locator :
  graph_kept c c' → active_at c id locator = true → active_at c' id locator = true.
Proof.
  intros K (r & Hr & Hs & Hi & Hl)%active_at_spec. apply active_at_spec. exists r.
  split; [by eapply gk_active|done].
Qed.

Section Materials.
Context (keccak256 : bytes → Hash).

Lemma observation_history :
  Store.history Evidence.evidence_step Evidence.Candidate observation_steps Evidence.Active.
Proof.
  unfold observation_steps.
  apply (Store.history_snoc _ _ [(Evidence.Candidate, Evidence.Verified);
    (Evidence.Verified, Evidence.Confirmed)]); [|by constructor].
  apply (Store.history_snoc _ _ [(Evidence.Candidate, Evidence.Verified)]); [|by constructor].
  apply (Store.history_snoc _ _ []); [constructor|by constructor].
Qed.

Lemma insert_active_spec now reason id locator c c1 :
  Store.evidence_wf keccak256 c → graph_wf keccak256 c →
  Evidence.ComputeID keccak256 locator = Ok id → c.(Store.evidence) !! id = None →
  insert_active_evidence now reason id locator c = Ok c1 →
  Store.evidence_wf keccak256 c1 ∧ graph_wf keccak256 c1 ∧ graph_kept c c1 ∧
  active_at c1 id locator = true ∧
  ∃ m l, c1 = Store.set_evidence c m l ∧ c.(Store.evidence) ⊆ m.
Proof.
  intros WE WG Hid Hn. unfold insert_active_evidence. intros [Hb [= <-]]%bind_bool.
  bool_to_prop. set (row := Evidence.mkRecord id locator Evidence.Active "" (Some now) (Some now)).
  set (c1 := Store.set_evidence c _ _).
  assert (graph_kept c c1) as K.
  { split; cbn; try done. intros id' r Hr _. rewrite lookup_insert_ne; [done|congruence]. }
  split; [|split; [|split; [done|split; [|do 2 eexists; split; [done|by apply insert_subseteq]]]]].
  - apply (Store.evidence_insert_wf keccak256 c row observation_steps reason now); try done.
    + split; [done|by left].
    + intros id' r' Hr' Heq. match goal with H : ¬ is_Some (Store.loadByLocator _ _) |- _ => destruct H end.
      unfold Store.loadByLocator. destruct (Store.find_row _ _) eqn:Hf; [by eexists|].
      pose proof (Store.find_row_None _ _ Hf _ _ Hr') as Hx. by apply bool_decide_eq_false in Hx.
    + apply observation_history.
  - apply (graph_wf_evidence _ c); try done. intros id'. by apply graph_kept_is_active.
  - apply active_at_spec. exists row. cbn. by rewrite lookup_insert_eq.
Qed.

Lemma material_bound_spec block material :
  material_bound keccak256 block material = true →
  let edge := material.(mat_Edge) in
  let record := material.(mat_Evidence) in
  let dependency := material.(mat_Dependency) in
  let witness := material.(mat_Witness) in
  TrustEdge_Validate keccak256 edge = Ok tt ∧
  edge.(edge_EvidenceID) = record.(Evidence.rec_ID) ∧
  witness.(witness_EvidenceID) = record.(Evidence.rec_ID) ∧
  edge.(edge_LeafIndex) = dependency.(dep_LeafIndex) ∧
  witness.(witness_LeafIndex) = dependency.(dep_LeafIndex) ∧
  Evidence.ComputeID keccak256 record.(Evidence.rec_Locator) = Ok record.(Evidence.rec_ID) ∧
  record.(Evidence.rec_Locator).(Evidence.ChainID) = block.(cb_ChainID) ∧
  record.(Evidence.rec_Locator).(Evidence.ContractAddress) = block.(cb_Gateway) ∧
  VerifiedDependency_Validate keccak256 dependency material.(mat_To)
    record.(Evidence.rec_Locator).(Evidence.PayloadDigest) = Ok tt ∧
  material.(mat_From).(node_ID) = edge.(edge_From) ∧
  material.(mat_To).(node_ID) = edge.(edge_To) ∧
  material.(mat_From).(node_Key).(key_ChainID) = block.(cb_ChainID).
Proof.
  unfold material_bound. cbn zeta. intros H.
  destruct (TrustEdge_Validate keccak256 _) as [[]|] eqn:E1; [|done].
  destruct (Evidence.ComputeID keccak256 _) as [want|] eqn:E2;
    [|by rewrite !andb_true_iff in H; naive_solver].
  destruct (VerifiedDependency_Validate keccak256 _ _ _) as [[]|] eqn:E3;
    [|by rewrite !andb_true_iff in H; naive_solver].
  bool_to_prop. subst want. by split_and!.
Qed.

(** The target of a valid dependency has its TrustRoot and block. *)
Lemma dependency_target dependency to payload :
  VerifiedDependency_Validate keccak256 dependency to payload = Ok tt →
  dependency.(dep_SourceTrustRoot) = to.(node_Root) ∧
  dependency.(dep_SourceBlockHash) = to.(node_Key).(key_BlockHash) ∧
  dependency.(dep_SourceChainID) = to.(node_Key).(key_ChainID).
Proof.
  unfold VerifiedDependency_Validate. intros [_ H]%bind_bool. apply bind_Ok in H as (? & _ & H).
  apply bind_bool in H as [Hb _]. by bool_to_prop.
Qed.

(** Only evidence and the graph change, and neither its rows, nor nodes nor the
    revision. *)
Definition dependency_only (c c' : Store.DB) : Prop :=
  ∃ m l edges witnesses,
    c' = Store.set_graph (Store.set_evidence c m l) c.(Store.revision) c.(Store.trust_nodes)
           edges witnesses ∧ c.(Store.evidence) ⊆ m.

Record material_effect (block : ConfirmedBlock) (material : DependencyMaterialization)
    (c c' : Store.DB) (changed : bool) : Prop := {
  me_evidence : Store.evidence_wf keccak256 c';
  me_graph : graph_wf keccak256 c';
  me_kept : graph_kept c c';
  me_only : dependency_only c c';
  me_same : changed = false → c' = c;
  me_active : active_at c' material.(mat_Evidence).(Evidence.rec_ID)
                material.(mat_Evidence).(Evidence.rec_Locator) = true;
  me_edge : c'.(Store.trust_edges) !! material.(mat_Edge).(edge_ID)
            = Some (stored_edge material.(mat_Edge), true);
  me_witness : ∃ w, c'.(Store.membership_witnesses) !! material.(mat_Edge).(edge_EvidenceID) = Some w ∧
    w.(witness_ID) = material.(mat_Witness).(witness_ID);
  me_proven : witnessed keccak256 c → witnessed keccak256 c'
}.

(** The stages of the function. *)
Lemma material_stages now block material i c b c' :
  applyDependencyMaterialization keccak256 now block material i c = Ok (b, c') →
  let record := material.(mat_Evidence) in
  let witness := material.(mat_Witness) in
  material_bound keccak256 block material = true ∧
  verifyActiveNodeContent c material.(mat_From) = Ok tt ∧
  verifyActiveNodeContent c material.(mat_To) = Ok tt ∧
  verifyDependencyReceiptAndResolution block material i = Ok tt ∧
  leaf_proven keccak256 block material = true ∧
  verifyDependencyIndexedLog block material i = Ok tt ∧
  (NewMembershipWitness keccak256 record.(Evidence.rec_ID) witness.(witness_LeafIndex)
     witness.(witness_Siblings)).(witness_ID) = witness.(witness_ID) ∧
  zlen witness.(witness_Siblings) = block.(MerkleDepth) ∧
  ∃ b1 c1 b2 c2 b3,
    (c.(Store.evidence) !! record.(Evidence.rec_ID) = None ∧ b1 = true ∧
       insert_active_evidence now confirmed_reason record.(Evidence.rec_ID)
         record.(Evidence.rec_Locator) c = Ok c1 ∨
     b1 = false ∧ c1 = c ∧
       active_at c record.(Evidence.rec_ID) record.(Evidence.rec_Locator) = true) ∧
    insert_witness witness c1 = Ok (b2, c2) ∧
    mergeTrustEdge material.(mat_Edge) c2 = Ok (b3, c') ∧ b = b1 || b2 || b3.
Proof.
  unfold applyDependencyMaterialization. cbn zeta.
  intros [Hm%negb_false_iff H]%bind_bool. apply bind_Ok in H as ([] & Hf & H).
  apply bind_Ok in H as ([] & Ht & H). apply bind_Ok in H as ([] & Hr & H).
  apply bind_bool in H as [Hp%negb_false_iff H]. apply bind_Ok in H as ([] & Hl & H).
  apply bind_Ok in H as ([b1 c1] & He & H). apply bind_bool in H as [Hw H].
  apply bind_Ok in H as ([b2 c2] & Hi & H). apply bind_Ok in H as ([b3 c3] & Hg%map_err_Ok & [= <- <-]).
  cbn [fst snd] in *. bool_to_prop. split_and!; [done..|].
  exists b1, c1, b2, c2, b3. split; [|done].
  destruct (Store.evidence c !! _) as [r|] eqn:Hev.
  - right. apply bind_Ok in He as (p & Hp'%map_err_Ok & He).
    apply loadActiveEvidence_Ok in Hp' as [Hp' Hact]. apply bind_bool in He as [Hb [= <- <-]].
    bool_to_prop. apply is_active_spec in Hact as (p' & Hp'' & Hst).
    split_and!; [done..|]. apply active_at_spec. exists p. split_and!; congruence.
  - left. apply bind_Ok in He as (c0 & He & [= <- <-]). by split_and!.
Qed.

Lemma leaf_proven_spec block material payload :
  leaf_proven keccak256 block material = true →
  VerifiedDependency_Validate keccak256 material.(mat_Dependency) material.(mat_To) payload = Ok tt →
  zlen material.(mat_Witness).(witness_Siblings) = block.(MerkleDepth) →
  Merkle.RootFromWitness keccak256
    (LeafHash keccak256 material.(mat_To).(node_Root)
       material.(mat_To).(node_Key).(key_BlockHash))
    material.(mat_Witness).(witness_LeafIndex) material.(mat_Witness).(witness_Siblings)
    (zlen material.(mat_Witness).(witness_Siblings))
    = Ok material.(mat_From).(node_Root) ∧
  material.(mat_Witness).(witness_Siblings) ≠ [].
Proof.
  unfold leaf_proven. intros H (Hr & Hb & _)%dependency_target Hlen. rewrite Hr, Hb in H.
  rewrite Hlen. destruct (Merkle.RootFromWitness _ _ _ _ _) as [root|] eqn:E; [|done].
  bool_to_prop. subst root. split; [done|]. intros Hnil. rewrite Hnil in Hlen. cbn in Hlen.
  rewrite <-Hlen in E. unfold Merkle.RootFromWitness in E. by cbn in E.
Qed.

Lemma material_spec now block material i c b c' :
  Store.evidence_wf keccak256 c → graph_wf keccak256 c →
  material.(mat_To).(node_Key).(key_ChainID) ≠ block.(cb_ChainID) →
  applyDependencyMaterialization keccak256 now block material i c = Ok (b, c') →
  material_effect block material c c' b.
Proof.
  intros WE WG Hne H. apply material_stages in H
    as (Hm & Hf & Ht & _ & Hp & _ & Hw & Hlen & b1 & c1 & b2 & c2 & b3 & He & Hi & Hg & ->).
  apply material_bound_spec in Hm
    as (Hv & Hee & Hwe & Hel & Hwl & Hid & Hc & _ & Hd & Hfrom & Hto & Hfc).
  destruct (leaf_proven_spec _ _ _ Hp Hd Hlen) as [Hroot Hs].
  assert (Store.evidence_wf keccak256 c1 ∧ graph_wf keccak256 c1 ∧ graph_kept c c1 ∧
    active_at c1 (Evidence.rec_ID (mat_Evidence material))
      (Evidence.rec_Locator (mat_Evidence material)) = true ∧
    (∃ m l, c1 = Store.set_evidence c m l ∧ Store.evidence c ⊆ m) ∧ (b1 = false → c1 = c))
    as (WE1 & WG1 & K1 & Ha1 & (m & l & Hc1 & Hrows) & Hs1).
  { destruct He as [(Hn & -> & He)|(-> & -> & Ha)].
    - destruct (insert_active_spec _ _ _ _ _ _ WE WG Hid Hn He) as (? & ? & ? & ? & ?). by split_and!.
    - split_and!; try done. exists (Store.evidence c), (Store.evidence_transitions c). split; [by destruct c|done]. }
  apply verify_node_Ok in Hf as [Hf _], Ht as [Ht _]. rewrite Hfrom in Hf. rewrite Hto in Ht.
  pose proof (lookup_weaken _ _ _ _ Hf (gk_nodes _ _ K1)) as Hf1.
  pose proof (lookup_weaken _ _ _ _ Ht (gk_nodes _ _ K1)) as Ht1.
  assert (witness_EvidenceID (mat_Witness material) = edge_EvidenceID (mat_Edge material)) as Hwev
    by congruence.
  assert (witness_LeafIndex (mat_Witness material) = edge_LeafIndex (mat_Edge material)) as Hwleaf
    by congruence.
  assert (mat_Witness material = NewMembershipWitness keccak256
    (witness_EvidenceID (mat_Witness material)) (witness_LeafIndex (mat_Witness material))
    (witness_Siblings (mat_Witness material))) as Hwit.
  { rewrite Hwe. destruct (mat_Witness material) as [wid wev wl ws]. cbn in *. subst wev.
    unfold NewMembershipWitness in *. cbn in *. congruence. }
  assert (key_ChainID (node_Key (mat_From material)) ≠ key_ChainID (node_Key (mat_To material)))
    as Hchains by congruence.
  destruct (install_spec _ _ _ _ _ _ _ _ _ _ WG1 Hv Hf1 Ht1 Hchains Hwev Hwleaf Hwit Hs Hi Hg)
    as [IG IK IO IR IN IS IE IW].
  assert (Store.evidence c' = Store.evidence c1 ∧
    Store.evidence_transitions c' = Store.evidence_transitions c1) as [Hev Hlog]
    by (unfold graph_only in IO; rewrite IO; done).
  split; try done.
  - by apply (System.evidence_wf_frame _ c1).
  - by transitivity c1.
  - exists m, l, (Store.trust_edges c'), (Store.membership_witnesses c').
    unfold graph_only in IO. split; [|done]. rewrite IO, IR, IN, Hc1. done.
  - intros [[-> ->]%orb_false_iff ->]%orb_false_iff. rewrite IS, Hs1; done.
  - by apply (active_at_mono c1).
  - intros WP. eapply (install_witnessed _ _ _ c1); try done.
    intros id e a He'. eapply edge_proven_mono; [exact K1|]. eapply WP.
    rewrite Hc1 in He'. exact He'.
Qed.

Lemma material_again now now' block material i c b c' i2 c2 :
  applyDependencyMaterialization keccak256 now block material i c = Ok (b, c') →
  material_effect block material c c' b → index_kept i i2 → graph_kept c' c2 →
  applyDependencyMaterialization keccak256 now' block material i2 c2 = Ok (false, c2).
Proof.
  intros H [WE _ K _ _ Ha He (w & Hw & Hwid) _] KI K2.
  assert (graph_kept c c2) as KC by (by transitivity c').
  apply material_stages in H as (Hm & Hf & Ht & Hr & Hp & Hl & Hwi & Hlen & _).
  apply active_at_spec in Ha as (r & Hev & Hst & Hre & Hloc).
  destruct (Store.ev_identity _ _ WE _ _ Hev) as [Hid _].
  pose proof (gk_active _ _ K2 _ _ Hev Hst) as Hev2.
  assert (loadActiveEvidence c2 (Evidence.rec_ID (mat_Evidence material)) = Ok r) as Hload
    by (unfold loadActiveEvidence; rewrite Hev2, Hst; by rewrite bool_decide_eq_true_2).
  pose proof (material_bound_spec _ _ Hm) as (_ & Hee & Hwe & _).
  assert (witness_EvidenceID (mat_Witness material) = edge_EvidenceID (mat_Edge material)) as Hwev
    by congruence.
  destruct (install_again (mat_Witness material) (mat_Edge material) c2 w) as [Hi Hg];
    [done| |done|by apply K2|].
  { by eapply lookup_weaken; [|apply K2]. }
  unfold applyDependencyMaterialization.
  rewrite Hm, (verify_node_again _ _ _ KC Hf), (verify_node_again _ _ _ KC Ht),
    (verify_receipt_again _ _ _ _ KI Hr), Hp, (verify_log_again _ _ _ _ KI Hl), Hev2, Hload.
  cbn [negb map_err mbind res_mbind res_bind].
  rewrite Hid, Hloc, Hre, Hwi, Hlen, !bool_decide_eq_true_2, Z.eqb_refl by done.
  cbn [negb orb mbind res_mbind res_bind fst snd]. rewrite Hi.
  cbn [mbind res_mbind res_bind fst snd]. by rewrite Hg.
Qed.
End Materials.


#[export] Instance dependency_only_preorder : PreOrder dependency_only.
Proof.
  split.
  - intros c. exists (Store.evidence c), (Store.evidence_transitions c), (Store.trust_edges c),
      (Store.membership_witnesses c). split; [by destruct c|done].
  - intros a b c (m & l & e & w & -> & H) (m' & l' & e' & w' & -> & H'). exists m', l', e', w'.
    split; [done|]. by etrans.
Qed.

(** ** Lemmas: the outbox *)

Section Outbox.
Context (keccak256 sha256 : bytes → Hash) (IDFromBytes : bytes → option Envelope.PeerID).
Context (peer_String : Envelope.PeerID → string).

(** A queued message carries active evidence of a [DependencyRecorded] event
    that the indexer has stored. *)
Definition queued (i : IndexTables) (c : Store.DB) (id : Hash) (row : OutboxRow) : Prop :=
  ∃ origin at_ locator envelope g,
    active_at c row.(out_EvidenceID) locator = true ∧
    Evidence.ComputeID keccak256 locator = Ok row.(out_EvidenceID) ∧
    Envelope.NewDependencyEvidenceEnvelope IDFromBytes sha256 origin (Some at_) locator
      = Ok envelope ∧
    Envelope.MarshalBinary IDFromBytes sha256 envelope = Ok row.(out_Envelope) ∧
    envelope.(Envelope.MessageID) = id ∧
    i.(indexed_gateway_logs) !! (locator.(Evidence.ChainID), locator.(Evidence.BlockHash),
      locator.(Evidence.TxHash), locator.(Evidence.TxIndex), locator.(Evidence.LogIndex)) = Some g ∧
    g.(gr_EventTopic) = ChainABI.DependencyRecordedTopic ∧
    is_ok (ChainABI.ParseDependencyRecorded (row_log g)) = true.

Definition outbox_wf (i : IndexTables) (c : Store.DB) (m : MailTables) : Prop :=
  ∀ id row, m.(evidence_outbox) !! id = Some row → queued i c id row.

(** The other mailboxes stay, and the outbox only grows. *)
Definition outbox_grows (m m' : MailTables) : Prop :=
  m'.(evidence_inbox) = m.(evidence_inbox) ∧
  m'.(evidence_ingress_rejections) = m.(evidence_ingress_rejections) ∧
  m.(evidence_outbox) ⊆ m'.(evidence_outbox).

#[export] Instance outbox_grows_preorder : PreOrder outbox_grows.
Proof.
  split; [by split|]. intros a b c (E1 & F1 & H1) (E2 & F2 & H2).
  split_and!; [congruence..|]. by etrans.
Qed.

Lemma queued_mono i c i' c' id row :
  index_kept i i' → graph_kept c c' → queued i c id row → queued i' c' id row.
Proof.
  intros KI KG (o & a & l & e & g & H1 & H2 & H3 & H4 & H5 & H6 & H7). exists o, a, l, e, g.
  split; [by eapply active_at_mono|]. split_and!; try done; [|by apply H7..].
  by eapply lookup_weaken; [|apply KI].
Qed.

Lemma enqueue_spec now origin block material i c m b m' :
  material_bound keccak256 block material = true →
  enqueueActiveEvidenceOutbox IDFromBytes sha256 peer_String now origin block material i c m
    = Ok (b, m') →
  outbox_grows m m' ∧ (b = false → m' = m) ∧ (outbox_wf i c m → outbox_wf i c m').
Proof.
  intros Hm. unfold enqueueActiveEvidenceOutbox. intros [_ H]%bind_bool.
  apply bind_Ok in H as (? & _ & H). apply bind_Ok in H as ([] & Hlog & H).
  apply bind_bool in H as [Ha%negb_false_iff H].
  destruct (Store.find_row _ _) as [row|].
  - destruct (Envelope.ParseDependencyEvidenceEnvelope _ _ _) as [e|]; [|done].
    by apply bind_bool in H as [_ [= <- <-]].
  - apply bind_Ok in H as (env & He%map_err_Ok & H). apply bind_Ok in H as (enc & Hc%map_err_Ok & H).
    apply bind_bool in H as [Hb [= <- <-]]. cbn [out_Origin] in Hb. bool_to_prop.
    match goal with Hx : ¬ is_Some _ |- _ => apply eq_None_not_Some in Hx as Hfresh end.
    split; [split_and!; cbn; [done..|by apply insert_subseteq]|]. split; [done|].
    intros WO id row. cbn. intros [[<- <-]|[_ Hr]]%lookup_insert_Some; [|by apply WO].
    pose proof (material_bound_spec _ _ _ Hm) as (_ & _ & _ & _ & _ & Hid & Hch & _).
    unfold material_bound in Hm. cbn zeta in Hm. bool_to_prop.
    unfold verifyDependencyIndexedLog in Hlog.
    destruct (indexed_gateway_logs i !! _) as [g|] eqn:Hg; [|done].
    destruct (_ && _) eqn:Hv in Hlog; [|done]. bool_to_prop.
    exists origin, now, (Evidence.rec_Locator (mat_Evidence material)), env, g. cbn.
    split_and!; try done.
    + rewrite <-Hg. f_equal. congruence.
    + match goal with Hx : records _ g = true |- _ => unfold records in Hx;
        by destruct (ChainABI.ParseDependencyRecorded (row_log g)) end.
Qed.
End Outbox.

(** ** Lemmas: the loop over the dependencies *)

Section Dependencies.
Context (keccak256 sha256 : bytes → Hash) (IDFromBytes : bytes → option Envelope.PeerID).
Context (peer_String : Envelope.PeerID → string) (outboxPeer : option Envelope.PeerID).

Abbreviation apply_one :=
  (applyDependency keccak256 sha256 IDFromBytes peer_String outboxPeer).
Abbreviation apply_all :=
  (applyDependencies keccak256 sha256 IDFromBytes peer_String outboxPeer).
Abbreviation outbox_ok := (outbox_wf keccak256 sha256 IDFromBytes).

(** The dependencies of a block come from other chains. *)
Definition foreign_sources (block : ConfirmedBlock) : Prop :=
  ∀ material, material ∈ block.(Dependencies) →
    material.(mat_To).(node_Key).(key_ChainID) ≠ block.(cb_ChainID).

Record dependencies_effect (i : IndexTables) (t t' : Store.DB * MailTables)
    (graph sent : bool) : Prop := {
  de_evidence : Store.evidence_wf keccak256 t'.1;
  de_graph : graph_wf keccak256 t'.1;
  de_kept : graph_kept t.1 t'.1;
  de_only : dependency_only t.1 t'.1;
  de_same : graph = false → t'.1 = t.1;
  de_unsent : sent = false → t'.2 = t.2;
  de_proven : witnessed keccak256 t.1 → witnessed keccak256 t'.1;
  de_outbox : outbox_grows t.2 t'.2;
  de_queued : outbox_ok i t.1 t.2 → outbox_ok i t'.1 t'.2
}.

Lemma apply_one_spec now block i material t graph sent t' :
  Store.evidence_wf keccak256 t.1 → graph_wf keccak256 t.1 →
  material.(mat_To).(node_Key).(key_ChainID) ≠ block.(cb_ChainID) →
  apply_one now block i material t = Ok (graph, sent, t') →
  dependencies_effect i t t' graph sent ∧
  ∀ now' i2 c2 m2, index_kept i i2 → graph_kept t'.1 c2 →
    apply_one now' block i2 material (c2, m2) = Ok (false, false, (c2, m2)).
Proof.
  intros WE WG Hne. unfold applyDependency. intros ([b c] & H & Hs)%bind_Ok.
  pose proof (material_spec _ _ _ _ _ _ _ _ WE WG Hne H) as ME. cbn [fst snd] in Hs.
  assert (t'.1 = c ∧ graph = b ∧ outbox_grows t.2 t'.2 ∧ (sent = false → t'.2 = t.2) ∧
    (outbox_ok i t.1 t.2 → outbox_ok i t'.1 t'.2)) as (Hc & -> & Hg & Hu & Hq).
  { assert (outbox_ok i t.1 t.2 → outbox_ok i c t.2) as Hmono.
    { intros WO id row Hr. eapply queued_mono; [done|apply ME|by apply WO]. }
    destruct outboxPeer as [origin|]; [|injection Hs as <- <- <-; by split_and!].
    case_bool_decide; [injection Hs as <- <- <-; by split_and!|].
    apply bind_Ok in Hs as ([b' m'] & He & [= <- <- <-]). cbn [fst snd].
    apply material_stages in H as (Hm & _). apply (enqueue_spec keccak256) in He as (? & ? & ?);
      [|exact Hm]. split_and!; auto. }
  split.
  - destruct ME as [M1 M2 M3 M4 M5 M6 M7 M8 M9]. split; rewrite ?Hc; try done. by rewrite <-Hc.
  - intros now' i2 c2 m2 KI KG. rewrite Hc in KG.
    pose proof (material_again _ _ now' _ _ _ _ _ _ _ _ H ME KI KG) as Hagain.
    pose proof (active_at_mono _ _ _ _ KG (me_active _ _ _ _ _ _ ME)) as (r & Hr & _)%active_at_spec.
    cbn [fst snd]. rewrite Hagain. cbn [mbind res_mbind res_bind fst snd].
    rewrite bool_decide_eq_true_2 by (by exists r). by destruct outboxPeer.
Qed.

Lemma dependencies_spec now block i materials : ∀ t graph sent t',
  Store.evidence_wf keccak256 t.1 → graph_wf keccak256 t.1 →
  (∀ material, material ∈ materials →
     material.(mat_To).(node_Key).(key_ChainID) ≠ block.(cb_ChainID)) →
  apply_all now block i materials t = Ok (graph, sent, t') →
  dependencies_effect i t t' graph sent ∧
  ∀ now' i2 c2 m2, index_kept i i2 → graph_kept t'.1 c2 →
    apply_all now' block i2 materials (c2, m2) = Ok (false, false, (c2, m2)).
Proof.
  induction materials as [|x rest IH]; intros t graph sent t' WE WG Hne; cbn [applyDependencies].
  - intros [= <- <- <-]. by split.
  - intros ([[g1 s1] t1] & H1 & ([[g2 s2] t2] & H2 & [= <- <- <-])%bind_Ok)%bind_Ok.
    destruct (apply_one_spec _ _ _ _ _ _ _ _ WE WG (Hne _ (list_elem_of_here _ _)) H1)
      as [[A1 A2 A3 A4 A5 A6 A7 A8 A9] Again1].
    destruct (IH t1 g2 s2 t2 A1 A2) as [[B1 B2 B3 B4 B5 B6 B7 B8 B9] Again2]; [|exact H2|].
    { intros y Hy. apply Hne. by right. }
    split.
    + split; try done; try (by etrans); auto.
      * intros [-> ->]%orb_false_iff. rewrite B5, A5; done.
      * intros [-> ->]%orb_false_iff. rewrite B6, A6; done.
    + intros now' i2 c2 m2 KI KG. rewrite Again1; [|done|by transitivity (t2.1)].
      cbn [mbind res_mbind res_bind]. by rewrite Again2.
Qed.
End Dependencies.

(** ** What the tables of the index promise *)

(** A chain is indexed under a bound deployment; its logs come from that
    Gateway; receipts and resolutions explain one another. *)
Record index_wf (c : Store.DB) (i : IndexTables) : Prop := {
  ix_config id cfg : i.(live_indexer_configs) !! id = Some cfg →
    cfg.(ic_ChainID) = id ∧
    ∃ live, c.(Store.live_chains) !! id = Some live ∧ is_Some live.(Store.vlc_ValidatedAt) ∧
      live.(Store.vlc_Gateway) = cfg.(ic_Gateway) ∧
      live.(Store.vlc_GatewayCodeHash) = cfg.(ic_GatewayCodeHash) ∧
      live.(Store.vlc_DeploymentBlock) = cfg.(ic_DeploymentBlock);
  ix_degraded id reason : i.(indexer_degraded_states) !! id = Some reason →
    reason ≠ "" ∧ is_Some (i.(live_indexer_configs) !! id);
  ix_log chainID blockHash tx txIndex logIndex g :
    i.(indexed_gateway_logs) !! (chainID, blockHash, tx, txIndex, logIndex) = Some g →
    hd_error g.(gr_Topics) = Some g.(gr_EventTopic) ∧
    ∃ cfg, i.(live_indexer_configs) !! chainID = Some cfg ∧ cfg.(ic_Gateway) = g.(gr_Gateway);
  ix_receipt chainID tx v : i.(verification_receipts) !! (chainID, tx) = Some v →
    tx ≠ zero32 ∧ is_Some (i.(live_indexer_configs) !! chainID) ∧
    is_Some (c.(Store.requests) !! v.(vr_RequestID));
  ix_resolution id row : i.(request_resolutions) !! id = Some row →
    is_Some (c.(Store.requests) !! id) ∧ resolution_backed c i id row
}.

Lemma same_identity_kept (c c' : Store.DB) keccak256 :
  System.db_wf keccak256 c → System.db_wf keccak256 c' → System.remembers c c' →
  requests_kept c c'.
Proof.
  intros W W' R id r Hr. destruct (System.rm_requests _ _ R _ _ Hr) as (r' & Hr' & Hs).
  exists r'. split; [done|]. apply sameRequestIdentity_spec. split; [|done].
  destruct (Store.wf_identity _ _ (System.db_requests _ _ W) _ _ Hr) as [-> _].
  by destruct (Store.wf_identity _ _ (System.db_requests _ _ W') _ _ Hr') as [-> _].
Qed.

Lemma index_wf_mono c c' i :
  requests_kept c c' → LiveStore.chains_kept c c' → index_wf c i → index_wf c' i.
Proof.
  intros KR KC [W1 W2 W3 W4 W5].
  assert (∀ id, is_Some (Store.requests c !! id) → is_Some (Store.requests c' !! id)) as KS.
  { intros id [r Hr]. destruct (KR _ _ Hr) as (r' & Hr' & _). by exists r'. }
  split.
  - intros id cfg Hc. destruct (W1 _ _ Hc) as (Hid & live & Hl & [at_ Hv] & H1 & H2 & H3).
    split; [done|]. destruct (KC _ _ Hl) as (live' & Hl' & [->|(Hn & _)]); [|congruence].
    exists live. by split_and!.
  - exact W2.
  - exact W3.
  - intros ch tx v Hv. destruct (W4 _ _ _ Hv) as (? & ? & ?). split_and!; auto.
  - intros id row Hr. destruct (W5 _ _ Hr) as (? & ?). split; [auto|].
    by eapply resolution_backed_mono.
Qed.

Definition configured (block : ConfirmedBlock) (i : IndexTables) : Prop :=
  ∃ cfg, i.(live_indexer_configs) !! block.(cb_ChainID) = Some cfg ∧
    cfg.(ic_Gateway) = block.(cb_Gateway).

Lemma insert_log_wf block c item i b i' :
  index_wf c i ∧ configured block i → insertIndexedGatewayLog block item i = Ok (b, i') →
  index_wf c i' ∧ configured block i'.
Proof.
  intros [W (cfg & Hcfg & Hgw)] H. pose proof (insert_log_grows _ _ _ _ _ H) as (K & _).
  apply insert_log_Ok in H as (_ & _ & Htop & [(_ & -> & _)|(_ & Hn & ->)]);
    [by split; [|exists cfg]|].
  split; [|by exists cfg]. destruct W as [W1 W2 W3 W4 W5]. split; [exact W1|exact W2| |exact W4|].
  - intros ch bh tx ti li g. cbn. intros [[[= <- <- <- <- <-] <-]|[_ Hg]]%lookup_insert_Some;
      [|by eapply W3]. split; [done|]. by exists cfg.
  - intros id row Hr. destruct (W5 _ _ Hr) as (? & ?). split; [done|].
    by eapply resolution_backed_mono.
Qed.

Lemma insert_receipt_wf block c receipt i b i' :
  index_wf c i ∧ configured block i → insertReceipt block c receipt i = Ok (b, i') →
  index_wf c i' ∧ configured block i'.
Proof.
  intros [W (cfg & Hcfg & Hgw)] H. pose proof (insert_receipt_grows _ _ _ _ _ _ H) as (K & _).
  apply insert_receipt_Ok in H as (Htx & _ & [(_ & ->)|(_ & Hn & Hr & _ & ->)]);
    [by split; [|exists cfg]|].
  split; [|by exists cfg]. destruct W as [W1 W2 W3 W4 W5]. split; [exact W1|exact W2|exact W3| |].
  - intros ch tx v. cbn. intros [[[= <- <-] <-]|[_ Hv]]%lookup_insert_Some; [|by apply W4].
    by split_and!.
  - intros id row Hrow. destruct (W5 _ _ Hrow) as (? & ?). split; [done|].
    by eapply resolution_backed_mono.
Qed.

Lemma insert_resolution_wf block c resolution i b i' :
  index_wf c i ∧ configured block i → insertResolution block c resolution i = Ok (b, i') →
  index_wf c i' ∧ configured block i'.
Proof.
  intros [W (cfg & Hcfg & Hgw)] H. pose proof (insert_resolution_grows _ _ _ _ _ _ H) as (K & _).
  apply insert_resolution_Ok in H as (_ & Hv & [(_ & ->)|(_ & Hn & Hr & ->)]);
    [by split; [|exists cfg]|].
  split; [|by exists cfg]. destruct W as [W1 W2 W3 W4 W5].
  split; [exact W1|exact W2|exact W3|exact W4|].
  intros id row. cbn [put_resolution request_resolutions].
  intros [[<- <-]|[_ Hrow]]%lookup_insert_Some.
  - split; [done|]. apply verify_resolution_Ok in Hv as (v & g & H1 & H2 & H3 & H4 & H5 & H6 & H7 & H8).
    exists v, g. cbn. rewrite H3, H4. by split_and!.
  - destruct (W5 _ _ Hrow) as (? & ?). split; [done|]. by eapply resolution_backed_mono.
Qed.

(** ** Lemmas: the stages of a block *)

Section Blocks.
Context (keccak256 sha256 : bytes → Hash) (IDFromBytes : bytes → option Envelope.PeerID).
Context (peer_String : Envelope.PeerID → string) (outboxPeer : option Envelope.PeerID).

Abbreviation apply_block :=
  (ApplyConfirmedBlock keccak256 sha256 IDFromBytes peer_String outboxPeer).
Abbreviation outbox_ok := (outbox_wf keccak256 sha256 IDFromBytes).

Lemma cursor_of_block_Ok block c replay advanced :
  cursor_of_block block c = Ok (replay, advanced) →
  ∃ current, c.(Store.canonical_cursors) !! block.(cb_ChainID) = Some current ∧
    current.(Reorg.cursor_State) = Reorg.Healthy ∧
    advanced.(Reorg.cursor_Height) = number_height block.(Number) ∧
    advanced.(Reorg.cursor_Hash) = block.(cb_Hash) ∧
    ((replay = true ∧ advanced = current) ∨
     (replay = false ∧ current = block.(ExpectedCursor) ∧
      Reorg.Advance current current.(Reorg.cursor_Hash) (canonical_block block)
        = (advanced, None))).
Proof.
  unfold cursor_of_block. intros (cur & Hl%map_err_Ok%LiveStore.LoadCursor_Ok & H)%bind_Ok.
  apply bind_bool in H as [Hst H]. bool_to_prop. exists cur. split; [done|]. split; [done|].
  case_bool_decide as Hh.
  - apply bind_bool in H as [Hb [= <- <-]]. bool_to_prop. split_and!; [done..|by left].
  - apply bind_bool in H as [He H]. bool_to_prop.
    destruct (Reorg.Advance _ _ _) as [adv [e|]] eqn:Ha; [done|]. injection H as <- <-.
    pose proof Ha as (_ & _ & _ & _ & ->)%Reorg.Advance_accepts. cbn.
    split_and!; [done..|]. right. by split_and!.
Qed.

(** The requests are the observations of System.v. *)
Lemma requests_good now requests c b c' :
  System.db_wf keccak256 c → each (insertObservedRequest keccak256 now) requests c = Ok (b, c') →
  System.good keccak256 c c' ∧ requests_kept c c' ∧ (b = false → c' = c) ∧
  (∃ m l, c' = Store.set_requests c m l) ∧
  ∀ now' c2, 0 < now' → requests_kept c' c2 →
    each (insertObservedRequest keccak256 now') requests c2 = Ok (false, c2).
Proof.
  intros W H. split; [|split; [|split; [|split]]].
  - eapply (each_preserves _ (System.good keccak256 c)); [|by apply System.good_refl|exact H].
    intros q t b1 t1 _ [Wt Rt] (r & Ho)%insert_request_observes.
    eapply System.good_trans; [split; [exact Wt|exact Rt]|]. by eapply System.observe_request_step.
  - eapply (each_grows _ requests_kept); [|exact H]. intros q t b1 t1 Ht.
    by apply insert_request_grows in Ht as [? _].
  - intros ->. eapply each_unchanged; [|exact H]. intros q t t1 Ht.
    apply insert_request_grows in Ht. by apply Ht.
  - eapply (each_preserves _ (λ t, ∃ m l, t = Store.set_requests c m l)); [| |exact H].
    + intros q t b1 t1 _ (m & l & ->) (_ & _ & (m' & l' & ->) & _)%insert_request_grows.
      by exists m', l'.
    + exists (Store.requests c), (Store.request_transitions c). by destruct c.
  - intros now' c2 Hnow K. apply each_done. intros q Hq.
    eapply (each_post _ requests_kept (λ q t, ∀ c2, requests_kept t c2 →
      insertObservedRequest keccak256 now' q c2 = Ok (false, c2))); [| |exact H|exact Hq|exact K].
    + intros x t b1 t1 Ht. apply insert_request_grows in Ht as (K1 & _ & _ & Hagain).
      split; [done|]. intros c3. by apply Hagain.
    + intros x t t1 Hx Kt c3 K3. apply Hx. by transitivity t1.
Qed.

(** The same for the three loops over the tables of the index. *)
Lemma index_loop {X} (op : X → IndexTables → res error (bool * IndexTables)) (I : IndexTables → Prop)
    (again : IndexTables → X → Prop) items i b i' :
  (∀ x t b t1, I t → op x t = Ok (b, t1) → I t1) →
  (∀ x t b t1, op x t = Ok (b, t1) →
     index_kept t t1 ∧ (b = false → t1 = t) ∧ ∀ i2, index_kept t1 i2 → again i2 x) →
  I i → each op items i = Ok (b, i') →
  I i' ∧ index_kept i i' ∧ (b = false → i' = i) ∧
  ∀ i2, index_kept i' i2 → ∀ x, x ∈ items → again i2 x.
Proof.
  intros HI Hop Hi H. split; [|split; [|split]].
  - eapply (each_preserves _ I); [|exact Hi|exact H]. intros x t b1 t1 _. apply HI.
  - eapply (each_grows _ index_kept); [|exact H]. intros. by eapply Hop.
  - intros ->. eapply each_unchanged; [|exact H]. intros x t t1 Ht. by eapply Hop.
  - intros i2 K x Hx.
    eapply (each_post _ index_kept (λ x t, ∀ i2, index_kept t i2 → again i2 x));
      [| |exact H|exact Hx|exact K].
    + intros y t b1 t1 Ht. destruct (Hop _ _ _ _ Ht) as (? & _ & ?). by split.
    + intros y t t1 Hy Kt i3 K3. apply Hy. by transitivity t1.
Qed.

(** ** Lemmas: the whole transaction *)

(** A database the indexer can work on. *)
Record indexed_wf (db : Database) : Prop := {
  iw_core : System.db_wf keccak256 db.(core);
  iw_index : index_wf db.(core) db.(index);
  iw_proven : witnessed keccak256 db.(core);
  iw_outbox : outbox_ok db.(index) db.(core) db.(mail)
}.

(** The new cursor, and the old one when the block was new. *)
Definition cursor_moved (block : ConfirmedBlock) (c c' : Store.DB) (fresh : bool) : Prop :=
  ∃ old cur, c.(Store.canonical_cursors) !! block.(cb_ChainID) = Some old ∧
    c'.(Store.canonical_cursors) !! block.(cb_ChainID) = Some cur ∧
    old.(Reorg.cursor_State) = Reorg.Healthy ∧ cur.(Reorg.cursor_State) = Reorg.Healthy ∧
    cur.(Reorg.cursor_Height) = number_height block.(Number) ∧
    cur.(Reorg.cursor_Hash) = block.(cb_Hash) ∧
    (fresh = true → old = block.(ExpectedCursor) ∧
       block.(cb_ParentHash) = old.(Reorg.cursor_Hash) ∧
       be_value cur.(Reorg.cursor_Height) = be_value old.(Reorg.cursor_Height) + 1).

Record block_effect (block : ConfirmedBlock) (db db' : Database) (fresh : bool) : Prop := {
  be_core : System.good keccak256 db.(core) db'.(core);
  be_wf : indexed_wf db';
  be_graph : graph_kept db.(core) db'.(core);
  be_rows : db.(core).(Store.evidence) ⊆ db'.(core).(Store.evidence);
  be_index : index_kept db.(index) db'.(index);
  be_outbox : outbox_grows db.(mail) db'.(mail);
  be_txs : db'.(txs) = db.(txs);
  be_same : fresh = false → db' = db;
  be_cursor : cursor_moved block db.(core) db'.(core) fresh;
  be_again now' : 0 < now' → apply_block now' block db' = Ok (false, db')
}.

(** The cursor of a fresh block. *)
Lemma put_cursor_good block c old advanced :
  System.db_wf keccak256 c → c.(Store.canonical_cursors) !! block.(cb_ChainID) = Some old →
  Reorg.Advance old old.(Reorg.cursor_Hash) (canonical_block block) = (advanced, None) →
  System.good keccak256 c (LiveStore.put_cursor advanced c) ∧
  advanced.(Reorg.cursor_ChainID) = block.(cb_ChainID).
Proof.
  intros W Hold Ha. destruct (LiveStore.lc_cursor _ (System.db_chains _ _ W) _ _ Hold) as (Hid & _ & Hst).
  pose proof Ha as (_ & _ & _ & _ & Hadv)%Reorg.Advance_accepts.
  assert (Reorg.cursor_ChainID advanced = cb_ChainID block) as Hac by (by rewrite Hadv).
  split; [|done]. apply System.chains_change; [done|].
  apply (LiveStore.put_cursor_step _ old _ ([] ++ [canonical_block block])).
  - apply W.
  - by rewrite Hac.
  - eapply Reorg.run_advance; [constructor|exact Ha].
  - rewrite Hadv. exact Hst.
Qed.

(** The dependencies and the bump of the revision. *)
Lemma dependencies_good i t t' graph sent c3 :
  System.db_wf keccak256 t.1 →
  dependencies_effect keccak256 sha256 IDFromBytes i t t' graph sent →
  (if graph then map_err ErrStore (bumpGraphRevision t'.1) else Ok t'.1) = Ok c3 →
  System.good keccak256 t.1 c3 ∧ (graph = false → c3 = t.1) ∧
  ∃ rev, c3 = Store.set_graph t'.1 rev t'.1.(Store.trust_nodes) t'.1.(Store.trust_edges)
                t'.1.(Store.membership_witnesses).
Proof.
  intros W [D1 D2 D3 (m & l & e & w & D4 & _) D5 _ _ _ _] H. destruct graph.
  - apply map_err_Ok, bump_Ok in H as [Hlt ->]. split; [|split; [done|by eexists]].
    apply System.dependency_change; try done; cbn.
    + by apply (System.evidence_wf_frame _ t'.1).
    + pose proof (g_revision _ _ D2). apply set_revision_wf; [lia|done].
    + by rewrite D4.
    + rewrite D4. cbn. lia.
    + apply D3.
    + intros id n Hn. by eapply lookup_weaken; [|apply D3].
  - injection H as <-. rewrite D5 by done. split; [by apply System.good_refl|]. split; [done|].
    exists (Store.revision t.1). by destruct t.1.
Qed.

(** What the stages of a successful application leave behind: the tables [i],
    the database after the requests [c1], after the dependencies [c2], and at
    the end [c4]. *)
Record block_stages (block : ConfirmedBlock) (db : Database) (i : IndexTables)
    (c1 c2 c4 : Store.DB) (m : MailTables) (advanced : Reorg.CanonicalCursor)
    (replay graph sent : bool) : Prop := {
  bs_admitted : malformed_block block = false;
  bs_config : requireIndexerConfig block db.(index) = Ok tt;
  bs_cursor : cursor_of_block block db.(core) = Ok (replay, advanced);
  bs_index : index_kept db.(index) i;
  bs_index_wf : index_wf c1 i;
  bs_logs i2 x : index_kept i i2 → x ∈ block.(cb_Logs) →
    insertIndexedGatewayLog block x i2 = Ok (false, i2);
  bs_good : System.good keccak256 db.(core) c1;
  bs_set : ∃ r l, c1 = Store.set_requests db.(core) r l;
  bs_requests now' c : 0 < now' → requests_kept c1 c →
    each (insertObservedRequest keccak256 now') block.(Requests) c = Ok (false, c);
  bs_receipts i2 c x : index_kept i i2 → x ∈ block.(Receipts) →
    insertReceipt block c x i2 = Ok (false, i2);
  bs_resolutions i2 c x : index_kept i i2 → requests_kept c1 c → x ∈ block.(Resolutions) →
    insertResolution block c x i2 = Ok (false, i2);
  bs_matched : receipts_resolved block = true;
  bs_effect : dependencies_effect keccak256 sha256 IDFromBytes i (c1, db.(mail)) (c2, m) graph sent;
  bs_dependencies now' i2 c n : index_kept i i2 → graph_kept c2 c →
    applyDependencies keccak256 sha256 IDFromBytes peer_String outboxPeer now' block i2
      block.(Dependencies) (c, n) = Ok (false, false, (c, n));
  bs_end : System.good keccak256 c1 c4;
  bs_end_requests : requests_kept c1 c4;
  bs_end_graph : graph_kept c2 c4;
  bs_end_rows : c1.(Store.evidence) ⊆ c4.(Store.evidence);
  bs_end_cursor : c4.(Store.canonical_cursors) !! block.(cb_ChainID) = Some advanced;
  bs_end_proven : witnessed keccak256 c2 → witnessed keccak256 c4;
  bs_replay : replay = true → mkDatabase c4 i m db.(txs) = db
}.

(** The end of the transaction: the bump, and the cursor of a new block. *)
Lemma block_end block db c1 c2 c3 i m replay advanced graph sent :
  System.db_wf keccak256 c1 → (∃ r l, c1 = Store.set_requests db.(core) r l) →
  dependencies_effect keccak256 sha256 IDFromBytes i (c1, db.(mail)) (c2, m) graph sent →
  cursor_of_block block db.(core) = Ok (replay, advanced) →
  (if graph then map_err ErrStore (bumpGraphRevision c2) else Ok c2) = Ok c3 →
  let c4 := if replay then c3 else LiveStore.put_cursor advanced c3 in
  System.good keccak256 c1 c4 ∧ requests_kept c1 c4 ∧ graph_kept c2 c4 ∧
  c4.(Store.canonical_cursors) !! block.(cb_ChainID) = Some advanced ∧
  (witnessed keccak256 c2 → witnessed keccak256 c4) ∧
  (replay = true → graph = false → c4 = c1) ∧ c1.(Store.evidence) ⊆ c4.(Store.evidence).
Proof.
  intros WC1 (mr & lr & Hc1) DE Hcur Hbump.
  destruct (dependencies_good i (c1, mail db) (c2, m) graph sent c3 WC1 DE Hbump)
    as (G3 & S5 & rev & Hc3).
  pose proof (de_only _ _ _ _ _ _ _ _ DE) as (m2 & l2 & e2 & w2 & Hc2 & Hrows). cbn [fst snd] in *.
  pose proof (cursor_of_block_Ok _ _ _ _ Hcur) as (old & Hold & _ & _ & _ & Hcase).
  assert (Store.canonical_cursors c3 !! cb_ChainID block = Some old) as Hold3
    by (by rewrite Hc3, Hc2, Hc1).
  assert (requests_kept c1 c3) as KR3.
  { intros id r Hr. rewrite Hc3, Hc2. exact (reflexivity (R := requests_kept) c1 id r Hr). }
  assert (graph_kept c2 c3) as KG3 by (rewrite Hc3; by split).
  assert (witnessed keccak256 c2 → witnessed keccak256 c3) as WP3 by (rewrite Hc3; done).
  assert (Store.evidence c1 ⊆ Store.evidence c3) as KE3 by (rewrite Hc3, Hc2; exact Hrows).
  destruct Hcase as [(-> & ->)|(-> & _ & Ha)]; cbn zeta; cbn match.
  - by split_and!.
  - destruct (put_cursor_good _ _ _ _ (proj1 G3) Hold3 Ha) as [Hg Hid].
    split_and!; try done; [by eapply System.good_trans| |].
    + etransitivity; [exact KG3|]. by split.
    + cbn. by rewrite Hid, lookup_insert_eq.
Qed.

Lemma apply_block_stages now block db b db' :
  indexed_wf db → foreign_sources block → apply_block now block db = Ok (b, db') →
  ∃ i c1 c2 c4 m advanced replay graph sent,
    block_stages block db i c1 c2 c4 m advanced replay graph sent ∧
    b = negb replay ∧ db' = mkDatabase c4 i m db.(txs).
Proof.
  intros [WC WI WP WO] Hforeign. unfold ApplyConfirmedBlock. intros [Hmal H]%bind_bool.
  apply bind_Ok in H as ([] & Hcfg & H).
  apply bind_Ok in H as ([replay advanced] & Hcur & H).
  apply bind_Ok in H as ([b1 i1] & Hlogs & H). apply bind_Ok in H as ([b2 c1] & Hreqs & H).
  apply bind_Ok in H as ([b3 i2] & Hrecs & H). apply bind_Ok in H as ([b4 i3] & Hress & H).
  apply bind_bool in H as [Hmatch%negb_false_iff H].
  apply bind_Ok in H as ([[graph sent] [c2 m]] & Hdeps & H).
  apply bind_bool in H as [Hreplay H]. apply bind_Ok in H as (c3 & Hbump & [= <- <-]).
  assert (configured block (index db)) as Hconf.
  { apply requireIndexerConfig_Ok in Hcfg as (cfg & ? & ? & _). by exists cfg. }
  apply (index_loop _ (λ i, index_wf (core db) i ∧ configured block i)
    (λ i2 x, insertIndexedGatewayLog block x i2 = Ok (false, i2))) in Hlogs
    as ([WI1 Hconf1] & K1 & S1 & A1); [|by intros; eapply insert_log_wf
      |by intros; eapply insert_log_grows|done].
  destruct (requests_good _ _ _ _ _ WC Hreqs) as (G1 & KR & S2 & Hset & A2).
  assert (index_wf c1 i1) as WI1' by (eapply index_wf_mono; [exact KR|apply G1|done]).
  apply (index_loop _ (λ i, index_wf c1 i ∧ configured block i)
    (λ i2 x, ∀ c2, insertReceipt block c2 x i2 = Ok (false, i2))) in Hrecs
    as ([WI2 Hconf2] & K2 & S3 & A3); [|by intros; eapply insert_receipt_wf| |done].
  2: { intros x t b0 t1 Ht. apply insert_receipt_grows in Ht as (? & ? & Hag). split_and!; auto. }
  apply (index_loop _ (λ i, index_wf c1 i ∧ configured block i)
    (λ i2 x, ∀ c2, requests_kept c1 c2 → insertResolution block c2 x i2 = Ok (false, i2))) in Hress
    as ([WI3 Hconf3] & K3 & S4 & A4); [|by intros; eapply insert_resolution_wf| |done].
  2: { intros x t b0 t1 Ht. apply insert_resolution_grows in Ht as (? & ? & Hag). split_and!; auto. }
  pose proof G1 as [WC1 _].
  apply dependencies_spec in Hdeps as [DE A5]; [|apply WC1|apply WC1|exact Hforeign].
  destruct (block_end _ _ _ _ _ _ _ _ _ _ _ WC1 Hset DE Hcur Hbump) as (E1 & E2 & E3 & E4 & E5 & E6 & E7).
  exists i3, c1, c2, (if replay then c3 else LiveStore.put_cursor advanced c3), m, advanced,
    replay, graph, sent.
  split; [|done]. split; try done.
  - etransitivity; [exact K1|]. by transitivity i2.
  - intros i4 x K4. apply A1. etransitivity; [exact K2|]. by transitivity i3.
  - intros i4 c x K4 Hx. apply A3; [by transitivity i3|done].
  - intros i4 c x K4 Hc Hx. by apply A4.
  - intros ->. cbn [andb] in Hreplay. repeat apply orb_false_iff in Hreplay as [Hreplay ?].
    subst b1 b2 b3 b4 sent graph. rewrite E6, S2, S4, S3, S1 by done.
    pose proof (de_unsent _ _ _ _ _ _ _ _ DE eq_refl) as Hm. cbn in Hm. rewrite Hm. by destruct db.
Qed.

Lemma stages_again block db i c1 c2 c4 m advanced replay graph sent now' :
  block_stages block db i c1 c2 c4 m advanced replay graph sent → 0 < now' →
  apply_block now' block (mkDatabase c4 i m db.(txs)) = Ok (false, mkDatabase c4 i m db.(txs)).
Proof.
  intros B Hnow. assert (requireIndexerConfig block i = Ok tt) as Hcfg.
  { pose proof (bs_config _ _ _ _ _ _ _ _ _ _ _ B) as Hcfg. unfold requireIndexerConfig in Hcfg |- *.
    destruct (live_indexer_configs (index db) !! cb_ChainID block) as [cfg|] eqn:Ec; [|done].
    by rewrite (lookup_weaken _ _ _ _ Ec (ik_configs _ _ (bs_index _ _ _ _ _ _ _ _ _ _ _ B))). }
  assert (cursor_of_block block c4 = Ok (true, advanced)) as Hcur.
  { destruct (cursor_of_block_Ok _ _ _ _ (bs_cursor _ _ _ _ _ _ _ _ _ _ _ B))
      as (old & _ & Hst & Hh & Hhash & Hcase).
    unfold cursor_of_block, LiveStore.LoadCursor. rewrite (bs_end_cursor _ _ _ _ _ _ _ _ _ _ _ B).
    cbn [map_err mbind res_mbind res_bind].
    assert (Reorg.cursor_State advanced = Reorg.Healthy) as ->.
    { destruct Hcase as [(_ & ->)|(_ & _ & Ha)]; [done|].
      by apply Reorg.Advance_accepts in Ha as (_ & _ & _ & _ & ->). }
    by rewrite Hh, Hhash, !bool_decide_eq_true_2. }
  pose proof (bs_end_requests _ _ _ _ _ _ _ _ _ _ _ B) as KR.
  pose proof (bs_end_graph _ _ _ _ _ _ _ _ _ _ _ B) as KG.
  destruct B. unfold ApplyConfirmedBlock. cbn [core index mail txs].
  rewrite bs_admitted0, Hcfg. cbn [mbind res_mbind res_bind]. rewrite Hcur.
  cbn [mbind res_mbind res_bind].
  rewrite (each_done _ _ i) by (intros; by eapply bs_logs0). cbn [mbind res_mbind res_bind].
  rewrite (bs_requests0 now' c4) by done. cbn [mbind res_mbind res_bind].
  rewrite (each_done _ _ i) by (intros; by eapply bs_receipts0). cbn [mbind res_mbind res_bind].
  rewrite (each_done _ _ i) by (intros; by eapply bs_resolutions0). cbn [mbind res_mbind res_bind].
  by rewrite bs_matched0, (bs_dependencies0 now' i c4 m).
Qed.

Lemma apply_block_spec now block db b db' :
  indexed_wf db → foreign_sources block → apply_block now block db = Ok (b, db') →
  block_effect block db db' b.
Proof.
  intros W Hf H. destruct (apply_block_stages _ _ _ _ _ W Hf H)
    as (i & c1 & c2 & c4 & m & advanced & replay & graph & sent & B & -> & ->).
  pose proof (λ now', stages_again _ _ _ _ _ _ _ _ _ _ _ now' B) as Hagain.
  destruct W as [WC WI WP WO]. destruct B as [_ _ Hcur KI WI' _ G1 (r & l & Hc1) _ _ _ _ DE _ G2 KR KG
    Hrows Hend Hwp Hrep].
  assert (graph_kept (core db) c1) as KG1 by (rewrite Hc1; by split).
  split; cbn [core index mail txs]; try done.
  - by eapply System.good_trans.
  - split; cbn [core index mail].
    + apply G2.
    + eapply index_wf_mono; [exact KR|apply G2|done].
    + apply Hwp. assert (witnessed keccak256 (c1, mail db).1) as WP1 by (cbn [fst]; by rewrite Hc1).
      by apply (de_proven _ _ _ _ _ _ _ _ DE) in WP1.
    + assert (outbox_ok i (c2, m).1 (c2, m).2) as WO2.
      { apply (de_queued _ _ _ _ _ _ _ _ DE). intros id row Hrow.
        eapply queued_mono; [exact KI|exact KG1|by apply WO]. }
      intros id row Hrow. eapply queued_mono; [reflexivity|exact KG|by apply WO2].
  - etransitivity; [exact KG1|]. etransitivity; [apply (de_kept _ _ _ _ _ _ _ _ DE)|done].
  - by rewrite Hc1 in Hrows.
  - apply (de_outbox _ _ _ _ _ _ _ _ DE).
  - intros ->%negb_false_iff. by apply Hrep.
  - destruct (cursor_of_block_Ok _ _ _ _ Hcur) as (old & Hold & Hst & Hh & Hhash & Hcase).
    exists old, advanced. split_and!; try done.
    + destruct Hcase as [(_ & ->)|(_ & _ & Ha)]; [done|].
      by apply Reorg.Advance_accepts in Ha as (_ & _ & _ & _ & ->).
    + intros ->%negb_true_iff. destruct Hcase as [(? & _)|(_ & He & Ha)]; [done|].
      apply Reorg.Advance_accepts in Ha as (_ & Hp & Hn & _ & ->). by split_and!.
Qed.
End Blocks.

End IndexerApply.
