(* ===== verification/RemoteValidator.v ===== *)
(** * Mapnode/evidence: validating a dependency recorded on another chain

    remote_dependency_validator.go: evidence that arrives by gossip is only a
    locator; the validator reads the block, the receipt and the request behind
    it from its own RPC node of the recording chain, and answers with the
    validated dependency, with an invalid locator, or with an error worth a
    retry.

    The node and the observer of TrustRoots are the classes
    [RemoteDependencyRPC] and [RemoteTrustRootObserver]; a [types.Header] and a
    [types.Receipt] are those of Indexer.v and Receipt.v. *)

From S2P Require Import Prelude Domain Merkle Evidence TrustView Reorg Planner PathProof Coordinator.
From S2P Require Import ChainABI Receipt Indexer.
Import Domain ChainABI.

Module RemoteValidator.

#[local] Existing Instances ChainABI.Log_eq_dec.

Record RemoteDependencyConfig := mkConfig {
  cfg_ChainID : ChainID;
  cfg_Gateway : Address;
  cfg_GatewayCodeHash : Hash;
  cfg_DeploymentBlock : Z;
  cfg_Confirmations : Z;
  cfg_MerkleDepth : Z;
  cfg_PathStepCostGas : Z
}.

Record ValidatedTrustRootObservation := mkObservation {
  vo_ChainID : ChainID;
  vo_Height : BlockHeight;
  vo_BlockHash : Hash;
  vo_TrustRoot : Hash;
  vo_EvidenceID : Evidence.ID
}.

Record RemoteDependencyValidation := mkValidation {
  val_Record : Evidence.EvidenceRecord;
  val_Dependency : DependencyRecorded;
  val_HomeTrustRoot : Hash;
  WitnessSiblings : list Hash;
  SourceObservation : ValidatedTrustRootObservation;
  HomeObservation : ValidatedTrustRootObservation;
  val_PathStepCostGas : Z
}.

(** What follows [ErrRemoteDependencyInvalid] in the message. *)
Inductive invalid_reason (E : Type) :=
| Because (reason : string)
| BecauseLocator (e : Evidence.error)
| BecauseEvent (e : ChainABI.error)
| BecauseTree (e : Merkle.error)
| BecauseObservation (e : E).
Arguments Because {E} reason.
Arguments BecauseLocator {E} e.
Arguments BecauseEvent {E} e.
Arguments BecauseTree {E} e.
Arguments BecauseObservation {E} e.

(** [None] for a failure the validator found itself. *)
Inductive error (E : Type) :=
| ErrRemoteDependencyInvalid (reason : invalid_reason E)
| ErrRemoteDependencyRetryable (operation : string) (cause : option E).
Arguments ErrRemoteDependencyInvalid {E} reason.
Arguments ErrRemoteDependencyRetryable {E} operation cause.

Definition invalidRemote {E A} (reason : string) : res (error E) A :=
  Err (ErrRemoteDependencyInvalid (Because reason)).

(** [NewRemoteDependencyValidator], without the nil checks. *)
Definition NewRemoteDependencyValidator (config : RemoteDependencyConfig) : bool :=
  is_ok (ChainID_Validate config.(cfg_ChainID))
  && negb ((config.(cfg_Gateway) =?= zero_address) || (config.(cfg_GatewayCodeHash) =?= zero32)
           || (config.(cfg_DeploymentBlock) =? 0) || (config.(cfg_Confirmations) =? 0)
           || (config.(cfg_MerkleDepth) =? 0) || (Merkle.MaxTreeDepth <? config.(cfg_MerkleDepth))
           || (config.(cfg_PathStepCostGas) =? 0) || (MaxInt64 <? config.(cfg_PathStepCostGas))).

(** ** The receipt *)

Record validatedReceiptBundle := mkBundle {
  success : VerificationSucceeded;
  dependency : DependencyRecorded;
  resolution : RequestResolved;
  siblings : list Hash
}.

(** The variables the loop over the logs assigns: an event and its index. *)
Record scan := mkScan {
  scan_success : option (VerificationSucceeded * Z);
  scan_dependency : option (DependencyRecorded * Z);
  scan_resolution : option (RequestResolved * Z);
  scan_updates : list (TrustRootUpdated * Z)
}.

Definition empty_scan : scan := mkScan None None None [].

Section Scanning.
Context {E : Type}.

Definition event {A} (r : res ChainABI.error A) : res (error E) A :=
  map_err (λ e, ErrRemoteDependencyInvalid (BecauseEvent e)) r.

(** [switch item.Topics[0]] *)
Definition scan_item (locator : Evidence.Locator) (item : Log) (s : scan) : res (error E) scan :=
  match hd_error item.(Topics) with
  | None => invalidRemote "Gateway receipt log lacks topic"
  | Some t =>
      if (t =?= DirectVerificationSucceededTopic) || (t =?= PathVerificationSucceededTopic) then
        match s.(scan_success) with
        | Some _ => invalidRemote "multiple verification success logs"
        | None =>
            e ← event (ParseVerificationSucceeded item);
            Ok (mkScan (Some (e, item.(log_Index))) s.(scan_dependency) s.(scan_resolution)
                  s.(scan_updates))
        end
      else if t =?= TrustRootUpdatedTopic then
        e ← event (ParseTrustRootUpdated item);
        Ok (mkScan s.(scan_success) s.(scan_dependency) s.(scan_resolution)
              (s.(scan_updates) ++ [(e, item.(log_Index))]))
      else if t =?= DependencyRecordedTopic then
        match s.(scan_dependency) with
        | Some _ => invalidRemote "multiple DependencyRecorded logs"
        | None =>
            e ← event (ParseDependencyRecorded item);
            if (MaxUint32 <? item.(log_Index))
               || negb (wrap32 item.(log_Index) =? locator.(Evidence.LogIndex))
            then invalidRemote "exact DependencyRecorded log coordinate mismatch"
            else Ok (mkScan s.(scan_success) (Some (e, item.(log_Index))) s.(scan_resolution)
                       s.(scan_updates))
        end
      else if t =?= RequestResolvedTopic then
        match s.(scan_resolution) with
        | Some _ => invalidRemote "multiple RequestResolved logs"
        | None =>
            e ← event (ParseRequestResolved item);
            Ok (mkScan s.(scan_success) s.(scan_dependency) (Some (e, item.(log_Index)))
                  s.(scan_updates))
        end
      else if t =?= VerificationRequestedTopic
      then invalidRemote "verification receipt contains request event"
      else invalidRemote "unknown Gateway receipt topic"
  end.

Definition item_coordinates_ok (locator : Evidence.Locator) (number : Z)
    (receipt : Receipt.EthReceipt) (previous : option Z) (item : Log) : bool :=
  negb (item.(Removed) || (item.(log_BlockHash) ≠?= locator.(Evidence.BlockHash))
        || negb (item.(log_BlockNumber) =? number)
        || (item.(log_TxHash) ≠?= locator.(Evidence.TxHash))
        || negb (item.(log_TxIndex) =? receipt.(Receipt.TransactionIndex))
        || match previous with Some p => item.(log_Index) <=? p | None => false end).

(** The loop over [receipt.Logs]; [previous] is [None] at position 0. *)
Fixpoint scan_receipt (gateway : Address) (locator : Evidence.Locator) (number : Z)
    (receipt : Receipt.EthReceipt) (logs : list (option Log)) (previous : option Z) (s : scan)
    : res (error E) scan :=
  match logs with
  | [] => Ok s
  | None :: _ => invalidRemote "nil receipt log"
  | Some item :: rest =>
      if negb (item_coordinates_ok locator number receipt previous item)
      then invalidRemote "receipt log coordinate/order mismatch"
      else
        s' ← (if item.(log_Address) ≠?= gateway then Ok s else scan_item locator item s);
        scan_receipt gateway locator number receipt rest (Some item.(log_Index)) s'
  end.
End Scanning.

Section Validating.
Context (keccak256 : bytes → Hash).

Definition canonicalDependencyKey (chainID : ChainID) (height : BlockHeight)
    (blockHash root : Hash) : Hash :=
  keccak256 (chainID ++ height ++ blockHash ++ root).

Definition canonicalDependencyPayloadDigest (d : DependencyRecorded) : Hash :=
  keccak256 (d.(dr_DependencyKey) ++ d.(dr_RequestID) ++ d.(dr_SourceChainID)
    ++ d.(dr_SourceHeight) ++ d.(dr_SourceBlockHash) ++ d.(dr_SourceTrustRoot)
    ++ Evidence.putUint32Word d.(dr_LeafIndex)).

Definition receipt_coordinates_ok (locator : Evidence.Locator) (number : Z)
    (receipt : Receipt.EthReceipt) : bool :=
  (receipt.(Receipt.Status) =? Receipt.ReceiptStatusSuccessful)
  && (receipt.(Receipt.rc_TxHash) =?= locator.(Evidence.TxHash))
  && (receipt.(Receipt.rc_BlockHash) =?= locator.(Evidence.BlockHash))
  && match receipt.(Receipt.rc_BlockNumber) with Some n => n =? number | None => false end
  && (receipt.(Receipt.TransactionIndex) <=? MaxUint32)
  && (wrap32 receipt.(Receipt.TransactionIndex) =? locator.(Evidence.TxIndex)).

(** The two appends, and the witness of the second leaf. *)
Definition close_witness {E} (depth : Z) (anchorLeaf dependencyLeaf anchorRoot dependencyRoot : Hash)
    (leafIndex : Z) (homeRoot : Hash) : res (error E) (list Hash) :=
  tree ← map_err (λ e, ErrRemoteDependencyInvalid (BecauseTree e))
           (Merkle.NewIncrementalTree keccak256 depth);
  match Merkle.Append keccak256 tree anchorLeaf with
  | Err _ => invalidRemote "anchor TrustRoot mismatch"
  | Ok tree1 =>
      if tree1.(Merkle.root) ≠?= anchorRoot then invalidRemote "anchor TrustRoot mismatch"
      else
        match Merkle.Append keccak256 tree1 dependencyLeaf with
        | Err _ => invalidRemote "dependency TrustRoot mismatch"
        | Ok tree2 =>
            if tree2.(Merkle.root) ≠?= dependencyRoot
            then invalidRemote "dependency TrustRoot mismatch"
            else
              let zeros := default_ok [] (Merkle.ZeroHashes keccak256 depth) in
              let siblings := Receipt.receipt_siblings anchorLeaf depth zeros in
              match Merkle.RootFromWitness keccak256 dependencyLeaf leafIndex siblings depth with
              | Err _ => invalidRemote "fixed-depth membership witness does not close"
              | Ok root =>
                  if root ≠?= homeRoot
                  then invalidRemote "fixed-depth membership witness does not close"
                  else Ok siblings
              end
        end
  end.

(** The tests after the loop, for the events of a new dependency. *)
Definition check_events {E} (config : RemoteDependencyConfig) (locator : Evidence.Locator)
    (parentHash : Hash) (su : VerificationSucceeded) (d : DependencyRecorded) (r : RequestResolved)
    (anchor update : TrustRootUpdated) : res (error E) validatedReceiptBundle :=
  let request := d.(dr_RequestID) in
  if (su.(vs_RequestID) ≠?= request) || (r.(rr_RequestID) ≠?= request)
     || (anchor.(tu_RequestID) ≠?= request) || (update.(tu_RequestID) ≠?= request)
     || (su.(vs_SourceChainID) ≠?= d.(dr_SourceChainID))
     || (su.(vs_SourceHeight) ≠?= d.(dr_SourceHeight))
     || (su.(vs_SourceBlockHash) ≠?= d.(dr_SourceBlockHash))
     || (su.(vs_SourceTrustRoot) ≠?= d.(dr_SourceTrustRoot))
     || (su.(vs_DependencyKey) ≠?= d.(dr_DependencyKey))
     || (r.(rr_DependencyKey) ≠?= d.(dr_DependencyKey))
  then invalidRemote "request/dependency/source tuple mismatch"
  else if d.(dr_DependencyKey)
            ≠?= canonicalDependencyKey d.(dr_SourceChainID) d.(dr_SourceHeight)
                  d.(dr_SourceBlockHash) d.(dr_SourceTrustRoot)
  then invalidRemote "dependency key mismatch"
  else if canonicalDependencyPayloadDigest d ≠?= locator.(Evidence.PayloadDigest)
  then invalidRemote "dependency payload digest mismatch"
  else if negb (anchor.(tu_LeafIndex) =? 0) || negb anchor.(tu_IsAnchor)
          || negb (update.(tu_LeafIndex) =? 1) || update.(tu_IsAnchor)
          || negb (d.(dr_LeafIndex) =? 1)
  then invalidRemote "invalid fixed dependency update indices"
  else
    let anchorLeaf := LeafHash keccak256 anchor.(tu_OldTrustRoot) parentHash in
    let dependencyLeaf := LeafHash keccak256 d.(dr_SourceTrustRoot) d.(dr_SourceBlockHash) in
    if (anchor.(tu_Leaf) ≠?= anchorLeaf) || (update.(tu_Leaf) ≠?= dependencyLeaf)
       || (update.(tu_OldTrustRoot) ≠?= anchor.(tu_NewTrustRoot))
       || (r.(rr_HomeTrustRoot) ≠?= update.(tu_NewTrustRoot))
    then invalidRemote "TrustRootUpdated chain mismatch"
    else
      siblings ← close_witness config.(cfg_MerkleDepth) anchorLeaf dependencyLeaf
                   anchor.(tu_NewTrustRoot) update.(tu_NewTrustRoot) d.(dr_LeafIndex)
                   r.(rr_HomeTrustRoot);
      Ok (mkBundle su d r siblings).

Definition validateReceipt {E} (config : RemoteDependencyConfig) (locator : Evidence.Locator)
    (header : Indexer.Header) (receipt : Receipt.EthReceipt)
    : res (error E) validatedReceiptBundle :=
  let number := wrap64 (BlockHeight_BigInt locator.(Evidence.BlockNumber)) in
  if negb (receipt_coordinates_ok locator number receipt)
  then invalidRemote "failed receipt or mismatched receipt block/transaction coordinate"
  else
    s ← scan_receipt config.(cfg_Gateway) locator number receipt receipt.(Receipt.Logs) None
          empty_scan;
    match s.(scan_success), s.(scan_dependency), s.(scan_resolution), s.(scan_updates) with
    | Some (su, successIndex), Some (d, dependencyIndex), Some (r, resolutionIndex),
      [(anchor, anchorIndex); (update, updateIndex)] =>
        if negb r.(rr_NewDependency) then invalidRemote "incomplete new-dependency receipt"
        else if negb ((successIndex <? anchorIndex) && (anchorIndex <? updateIndex)
                      && (updateIndex <? dependencyIndex) && (dependencyIndex <? resolutionIndex))
        then invalidRemote "new dependency receipt events are misordered"
        else check_events config locator header.(Indexer.header_ParentHash) su d r anchor update
    | _, _, _, _ => invalidRemote "incomplete new-dependency receipt"
    end.

Definition bindRequest {E} (request : VerificationRequested) (bundle : validatedReceiptBundle)
    : res (error E) unit :=
  let d := bundle.(dependency) in
  if (request.(vr_RequestID) ≠?= d.(dr_RequestID))
     || (request.(vr_Requester) ≠?= bundle.(resolution).(rr_Requester))
     || (request.(vr_SourceChainID) ≠?= d.(dr_SourceChainID))
     || (request.(vr_SourceHeight) ≠?= d.(dr_SourceHeight))
     || (request.(vr_SourceBlockHash) ≠?= d.(dr_SourceBlockHash))
  then invalidRemote "VerificationRequested tuple does not bind receipt" else Ok tt.

Definition observationMatches (observation : ValidatedTrustRootObservation) (chainID : ChainID)
    (height : BlockHeight) (hash root : Hash) : bool :=
  (observation.(vo_ChainID) =?= chainID) && (observation.(vo_Height) =?= height)
  && (observation.(vo_BlockHash) =?= hash) && (observation.(vo_TrustRoot) =?= root)
  && negb (observation.(vo_EvidenceID) =?= zero32).
End Validating.

(** ** The validator *)

Class RemoteDependencyRPC (S E : Type) := {
  remote_ChainID : S → res E (option Z) * S;
  remote_BlockNumber : S → res E Z * S;
  remote_HeaderByNumber : Z → S → res E (option Indexer.Header) * S;
  remote_CodeAtHash : Address → Hash → S → res E bytes * S;
  remote_TransactionReceipt : Hash → S → res E (option Receipt.EthReceipt) * S;
  remote_FilterLogs : Z → Z → Address → list (list Hash) → S → res E (list Log) * S
}.

Class RemoteTrustRootObserver (S E : Type) := {
  ObserveExpectedTrustRoot :
    ChainID → BlockHeight → Hash → Hash → S → res E ValidatedTrustRootObservation * S;
  invalid_observation : E → bool   (** [errors.Is(err, ErrInvalidTrustRootObservation)] *)
}.

(** What the validator was told on the way. *)
Inductive answer :=
| SawHeader (number : Z) (header : option Indexer.Header)
| SawReceipt (tx : Hash) (receipt : option Receipt.EthReceipt)
| SawRequests (logs : list Log)
| SawObservation (observation : ValidatedTrustRootObservation).

Section Validator.
Context (keccak256 : bytes → Hash).
Context {S E : Type} `{RPC : !RemoteDependencyRPC S E} `{OBS : !RemoteTrustRootObserver S E}.

Abbreviation V := (M S answer (error E)).

Definition invalid {A} (reason : string) : V A := M_lift (invalidRemote reason).
Definition retry {A} (operation : string) (e : option E) : V A :=
  M_fail (ErrRemoteDependencyRetryable operation e).

(** A call whose errors are worth a retry. *)
Definition ask {A} (operation : string) (op : S → res E A * S) : V A :=
  M_call (λ s, let '(r, s') := op s in
               (map_err (λ e, ErrRemoteDependencyRetryable operation (Some e)) r, s')).

Definition saw (a : answer) : V unit := λ s, (Ok tt, s, [a]).

Definition read_header (operation : string) (number : Z) : V (option Indexer.Header) :=
  header ← ask operation (remote_HeaderByNumber number);
  _ ← saw (SawHeader number header);
  M_ret header.

Definition observe (operation : string) (chainID : ChainID) (height : BlockHeight)
    (blockHash root : Hash) : V ValidatedTrustRootObservation :=
  o ← M_call (λ s, let '(r, s') := ObserveExpectedTrustRoot chainID height blockHash root s in
               (map_err (λ e, if invalid_observation e
                              then ErrRemoteDependencyInvalid (BecauseObservation e)
                              else ErrRemoteDependencyRetryable operation (Some e)) r, s'));
  _ ← saw (SawObservation o);
  M_ret o.

(** [loadRequest]: exactly one event, in a canonical block, with the
    identifier of its fields. *)
Definition request_filter (requestID : RequestID) : list (list Hash) :=
  [[VerificationRequestedTopic]; [requestID]].

Definition loadRequest (config : RemoteDependencyConfig) (requestID : RequestID) (to : Z)
    : V VerificationRequested :=
  logs ← ask "load VerificationRequested"
           (remote_FilterLogs config.(cfg_DeploymentBlock) to config.(cfg_Gateway)
              (request_filter requestID));
  _ ← saw (SawRequests logs);
  match logs with
  | [item] =>
      if item.(Removed) || (item.(log_Address) ≠?= config.(cfg_Gateway))
         || (to <? item.(log_BlockNumber)) || (item.(log_BlockNumber) <? config.(cfg_DeploymentBlock))
         || (item.(log_BlockHash) =?= zero32)
      then invalid "VerificationRequested log coordinate mismatch"
      else
        header ← read_header "verify request block" item.(log_BlockNumber);
        if match header with
           | None => true
           | Some h => h.(Indexer.header_Hash) ≠?= item.(log_BlockHash)
           end
        then invalid "VerificationRequested block is not canonical"
        else
          request ← M_lift (event (ParseVerificationRequested item));
          match Evidence.ComputeGatewayRequestID keccak256 config.(cfg_ChainID)
                  config.(cfg_Gateway) request.(vr_Requester)
                  (Some (be_value request.(vr_RequesterNonce))) request.(vr_SourceChainID)
                  request.(vr_SourceHeight) request.(vr_SourceBlockHash) with
          | Err _ => invalid "Gateway RequestID mismatch"
          | Ok want =>
              if (want ≠?= request.(vr_RequestID)) || (want ≠?= requestID)
              then invalid "Gateway RequestID mismatch" else M_ret request
          end
  | _ => invalid "request ID does not resolve to exactly one VerificationRequested log"
  end.

(** [header == nil || header.Number == nil || ...] *)
Definition header_at (number : Z) (hash : Hash) (header : option Indexer.Header) : bool :=
  match header with
  | None => false
  | Some h => match h.(Indexer.header_Number) with
              | None => false
              | Some n => (n =? number) && (h.(Indexer.header_Hash) =?= hash)
              end
  end.

(** The block of the locator: canonical, confirmed, with the Gateway's code. *)
Definition read_block (config : RemoteDependencyConfig) (locator : Evidence.Locator)
    : V (Indexer.Header * Receipt.EthReceipt) :=
  let number := BlockHeight_BigInt locator.(Evidence.BlockNumber) in
  chainID ← ask "read chain ID" remote_ChainID;
  if match chainID with
     | None => true
     | Some id => negb (id =? ChainID_BigInt config.(cfg_ChainID))
     end
  then invalid "configured chain ID mismatch"
  else if negb (number <=? MaxUint64) then invalid "recording block exceeds HTTP RPC range"
  else if number <? config.(cfg_DeploymentBlock)
  then invalid "recording block predates Gateway deployment"
  else
    head ← ask "read confirmed head" remote_BlockNumber;
    if (head <? number) || (wrap64 (head - number) <? config.(cfg_Confirmations))
    then retry "wait for configured confirmation depth" None
    else
      header ← read_header "read canonical recording header" number;
      if negb (header_at number locator.(Evidence.BlockHash) header)
      then invalid "canonical recording block number/hash mismatch"
      else
        code ← ask "read hash-bound Gateway code"
                 (remote_CodeAtHash config.(cfg_Gateway) locator.(Evidence.BlockHash));
        if (zlen code =? 0) || (keccak256 code ≠?= config.(cfg_GatewayCodeHash))
        then invalid "Gateway code hash mismatch"
        else
          receipt ← ask "read verification receipt"
                      (remote_TransactionReceipt locator.(Evidence.TxHash));
          _ ← saw (SawReceipt locator.(Evidence.TxHash) receipt);
          match header, receipt with
          | Some h, Some r => M_ret (h, r)
          | _, _ => retry "read verification receipt" None
          end.

Definition Validate (config : RemoteDependencyConfig) (locator : Evidence.Locator)
    : V RemoteDependencyValidation :=
  _ ← M_lift (map_err (λ e, ErrRemoteDependencyInvalid (BecauseLocator e))
                (Evidence.Locator_Validate locator));
  if (locator.(Evidence.ChainID) ≠?= config.(cfg_ChainID))
     || (locator.(Evidence.ContractAddress) ≠?= config.(cfg_Gateway))
  then invalid "locator does not match configured recording chain and Gateway"
  else
    let number := BlockHeight_BigInt locator.(Evidence.BlockNumber) in
    block ← read_block config locator;
    bundle ← M_lift (validateReceipt keccak256 config locator block.1 block.2);
    let d := bundle.(dependency) in
    let homeRoot := bundle.(resolution).(rr_HomeTrustRoot) in
    request ← loadRequest config d.(dr_RequestID) number;
    _ ← M_lift (bindRequest request bundle);
    source ← observe "observe source TrustRoot" d.(dr_SourceChainID) d.(dr_SourceHeight)
               d.(dr_SourceBlockHash) d.(dr_SourceTrustRoot);
    home ← observe "observe recording TrustRoot" config.(cfg_ChainID)
             locator.(Evidence.BlockNumber) locator.(Evidence.BlockHash) homeRoot;
    if negb (observationMatches source d.(dr_SourceChainID) d.(dr_SourceHeight)
               d.(dr_SourceBlockHash) d.(dr_SourceTrustRoot))
       || negb (observationMatches home config.(cfg_ChainID) locator.(Evidence.BlockNumber)
                  locator.(Evidence.BlockHash) homeRoot)
    then invalid "hash-bound TrustRoot observation mismatch"
    else
      rechecked ← read_header "recheck canonical recording header" number;
      if match rechecked with
         | None => true
         | Some h => h.(Indexer.header_Hash) ≠?= locator.(Evidence.BlockHash)
         end
      then invalid "recording block ceased to be canonical"
      else
        id ← M_lift (map_err (λ e, ErrRemoteDependencyInvalid (BecauseLocator e))
                       (Evidence.ComputeID keccak256 locator));
        M_ret (mkValidation (Evidence.mkRecord id locator Evidence.Candidate "" None None) d
                 homeRoot bundle.(siblings) source home config.(cfg_PathStepCostGas)).
End Validator.

(** ** Lemmas: the scan is that of the indexer *)

(** The scan of Receipt.v keeps the logs, this one their indexes. *)
Definition indexed {A} (p : Log * A) : A * Z := (p.2, p.1.(log_Index)).

Definition project (s : Receipt.scan) : scan :=
  mkScan (indexed <$> s.(Receipt.successLog)) (indexed <$> s.(Receipt.dependencyLog))
    (indexed <$> s.(Receipt.resolutionLog)) (map indexed s.(Receipt.updates)).

(** The log of the dependency is the one the locator names. *)
Definition named (locator : Evidence.Locator) (item : Log) : Prop :=
  item.(log_Index) ≤ MaxUint32 ∧ wrap32 item.(log_Index) = locator.(Evidence.LogIndex).

Section ScanLemmas.
Context {E : Type}.

(** One log, in both directions. *)
Lemma scan_item_forward locator item s r :
  scan_item (E := E) locator item (project s) = Ok r →
  (∃ s', Receipt.scan_log item s = Ok s' ∧ project s' = r) ∧
  (hd_error item.(Topics) = Some DependencyRecordedTopic → named locator item).
Proof.
  intros H. split.
  2: { intros Ht. unfold scan_item in H. rewrite Ht in H.
    destruct Receipt.topics_distinct as (_ & _ & D1 & D2 & D3 & _). rewrite D1, D2, D3 in H.
    cbn [orb] in H. rewrite bool_decide_eq_true_2 in H by done.
    destruct (scan_dependency (project s)); [discriminate H|]. apply bind_Ok in H as (e & _ & H).
    apply bind_bool in H as [Hi _]. by bool_to_prop. }
  revert H. unfold scan_item, Receipt.scan_log, event, project.
  cbn [scan_success scan_dependency scan_resolution scan_updates].
  destruct (hd_error (Topics item)) as [t|]; [|done].
  destruct (_ || _).
  { destruct (Receipt.successLog s); cbn; [done|].
    destruct (ParseVerificationSucceeded item); cbn; [|done]. intros [= <-].
    by eexists. }
  destruct (t =?= TrustRootUpdatedTopic).
  { destruct (ParseTrustRootUpdated item); cbn; [|done]. intros [= <-].
    eexists. split; [done|]. cbn. by rewrite map_app. }
  destruct (t =?= DependencyRecordedTopic).
  { destruct (Receipt.dependencyLog s); cbn; [done|].
    destruct (ParseDependencyRecorded item); cbn; [|done]. intros [_ [= <-]]%bind_bool.
    by eexists. }
  destruct (t =?= RequestResolvedTopic).
  { destruct (Receipt.resolutionLog s); cbn; [done|].
    destruct (ParseRequestResolved item); cbn; [|done]. intros [= <-].
    by eexists. }
  by destruct (t =?= VerificationRequestedTopic).
Qed.

Lemma scan_item_back locator item s s' :
  Receipt.scan_log item s = Ok s' →
  (hd_error item.(Topics) = Some DependencyRecordedTopic → named locator item) →
  scan_item (E := E) locator item (project s) = Ok (project s').
Proof.
  unfold scan_item, Receipt.scan_log, event, project.
  cbn [scan_success scan_dependency scan_resolution scan_updates].
  destruct (hd_error (Topics item)) as [t|]; [|done].
  destruct (_ || _).
  { destruct (Receipt.successLog s); cbn; [done|].
    destruct (ParseVerificationSucceeded item); cbn; [|done]. by intros [= <-]. }
  destruct (t =?= TrustRootUpdatedTopic).
  { destruct (ParseTrustRootUpdated item); cbn; [|done]. intros [= <-]. cbn. by rewrite map_app. }
  destruct (bool_decide_reflect (t = DependencyRecordedTopic)) as [->|].
  { destruct (Receipt.dependencyLog s); cbn; [done|].
    destruct (ParseDependencyRecorded item); cbn; [|done]. intros [= <-] Hn.
    destruct (Hn eq_refl) as [N1 N2]. by rewrite (proj2 (Z.ltb_ge _ _) N1), N2, Z.eqb_refl. }
  destruct (t =?= RequestResolvedTopic).
  { destruct (Receipt.resolutionLog s); cbn; [done|].
    destruct (ParseRequestResolved item); cbn; [|done]. by intros [= <-]. }
  by destruct (t =?= VerificationRequestedTopic).
Qed.

Section Loop.
Context (locator : Evidence.Locator) (input : Receipt.VerificationReceiptInput)
  (receipt : Receipt.EthReceipt).
Hypothesis same_hash : input.(Receipt.in_BlockHash) = locator.(Evidence.BlockHash).
Hypothesis same_tx : receipt.(Receipt.rc_TxHash) = locator.(Evidence.TxHash).

Abbreviation scan_remote logs previous s :=
  (scan_receipt (E := E) input.(Receipt.in_Gateway) locator input.(Receipt.in_BlockNumber) receipt
     logs previous s).

(** What the validator asks of a log beyond the indexer. *)
Definition item_named (item : Log) : Prop :=
  item.(Removed) = false ∧
  (item.(log_Address) = input.(Receipt.in_Gateway) →
   hd_error item.(Topics) = Some DependencyRecordedTopic → named locator item).

Lemma scan_forward logs : ∀ previous s r,
  scan_remote logs previous (project s) = Ok r →
  (∃ s', Receipt.scan_loop input receipt logs previous s = Ok s' ∧ project s' = r) ∧
  ∀ item, Some item ∈ logs → item_named item.
Proof using same_hash same_tx.
  induction logs as [|[item|] rest IH]; intros previous s r; cbn [scan_receipt Receipt.scan_loop].
  - intros [= <-]. split; [by exists s|]. by intros item ?%not_elem_of_nil.
  - intros [Hc%negb_false_iff H]%bind_bool. unfold item_coordinates_ok in Hc. bool_to_prop.
    assert (Receipt.log_coordinates_ok input receipt item = true) as ->.
    { unfold Receipt.log_coordinates_ok. rewrite same_hash, same_tx, !andb_true_iff,
        !bool_decide_eq_true, !Z.eqb_eq. auto. }
    cbn [negb]. destruct (match previous with Some _ => _ | None => _ end); [done|].
    apply bind_Ok in H as (r1 & Hitem & H).
    assert ((∃ s1, (if log_Address item ≠?= Receipt.in_Gateway input then Ok s
      else Receipt.scan_log item s) = Ok s1 ∧ project s1 = r1) ∧
      (log_Address item = Receipt.in_Gateway input →
       hd_error (Topics item) = Some DependencyRecordedTopic → named locator item))
      as [(s1 & -> & <-) Hnamed].
    { destruct (bool_decide_reflect (log_Address item = Receipt.in_Gateway input)); cbn [negb] in *.
      - apply scan_item_forward in Hitem as [? ?]. auto.
      - injection Hitem as <-. split; [by exists s|done]. }
    cbn [mbind res_mbind res_bind]. apply IH in H as [(s' & H & <-) Hall].
    split; [by exists s'|]. intros it [[= ->]|Hit]%elem_of_cons; [by split|by apply Hall].
  - done.
Qed.

Lemma scan_back logs : ∀ previous s s',
  Receipt.scan_loop input receipt logs previous s = Ok s' →
  (∀ item, Some item ∈ logs → item_named item) →
  scan_remote logs previous (project s) = Ok (project s').
Proof using same_hash same_tx.
  induction logs as [|[item|] rest IH]; intros previous s s'; cbn [scan_receipt Receipt.scan_loop].
  - by intros [= <-].
  - intros [Hc%negb_false_iff H]%bind_bool Hall. apply bind_bool in H as [Hp H].
    destruct (Hall item (list_elem_of_here _ _)) as [Hr Hn].
    unfold Receipt.log_coordinates_ok in Hc. bool_to_prop.
    assert (item_coordinates_ok locator (Receipt.in_BlockNumber input) receipt previous item = true)
      as ->.
    { unfold item_coordinates_ok. rewrite Hr, Hp, <-same_hash, <-same_tx.
      rewrite !bool_decide_eq_true_2 by done. cbn [negb orb].
      rewrite !(proj2 (Z.eqb_eq _ _)) by done. done. }
    cbn [negb]. apply bind_Ok in H as (s1 & Hitem & H).
    assert ((if log_Address item ≠?= Receipt.in_Gateway input then Ok (project s)
      else scan_item (E := E) locator item (project s)) = Ok (project s1)) as ->.
    { destruct (bool_decide_reflect (log_Address item = Receipt.in_Gateway input)) as [Ha|];
        cbn [negb] in *; [|by injection Hitem as <-]. apply scan_item_back; auto. }
    cbn [mbind res_mbind res_bind]. apply IH; [done|]. intros it Hit. apply Hall. by right.
  - done.
Qed.
End Loop.
End ScanLemmas.

(** ** Lemmas: the events of a new dependency *)

(** The indexer's view of the same receipt, for the request it has stored. *)
Definition local_input (config : RemoteDependencyConfig) (locator : Evidence.Locator)
    (header : Indexer.Header) (receipt : Receipt.EthReceipt) (request : Coordinator.Request)
    : Receipt.VerificationReceiptInput :=
  Receipt.mkInput config.(cfg_Gateway) locator.(Evidence.BlockHash)
    (wrap64 (BlockHeight_BigInt locator.(Evidence.BlockNumber)))
    header.(Indexer.header_ParentHash) config.(cfg_MerkleDepth) request (Some receipt).

(** The request the indexer stores for the event. *)
Definition stored_request (config : RemoteDependencyConfig) (request : VerificationRequested)
    : Coordinator.Request :=
  Coordinator.mkRequest request.(vr_RequestID) config.(cfg_ChainID) config.(cfg_Gateway)
    request.(vr_Requester) request.(vr_RequesterNonce) request.(vr_SourceChainID)
    request.(vr_SourceHeight) request.(vr_SourceBlockHash) Coordinator.Observed "" None None.

Section Agreement.
Context (keccak256 : bytes → Hash) {E : Type}.

Lemma close_witness_Ok d aL dL aR dR hR sib :
  1 ≤ d ≤ 32 →
  close_witness (E := E) keccak256 d aL dL aR dR 1 hR = Ok sib ↔
  aR = Merkle.merkle_root keccak256 d [aL] ∧ dR = Merkle.merkle_root keccak256 d [aL; dL] ∧
  hR = dR ∧ sib = (Merkle.witness_for keccak256 d [aL; dL] 1).(Siblings).
Proof.
  intros Hd. destruct (Receipt.receipt_tree keccak256 d aL dL Hd)
    as (tree & tree1 & tree2 & zeros & E1 & E2 & E3 & R1 & R2 & Ez & Es & Er).
  unfold close_witness. rewrite E1. cbn [map_err mbind res_mbind res_bind].
  rewrite E2, R1, E3, R2, Ez. cbn [default_ok]. rewrite Er, Es. split.
  - intros [H1 H]%bind_bool. apply bind_bool in H as [H2 H]. apply bind_bool in H as [H3 [= <-]].
    bool_to_prop. by subst.
  - intros (-> & -> & -> & ->). by rewrite !bool_decide_eq_true_2.
Qed.

Lemma check_events_Ok config locator header receipt request su d r anchor update bundle :
  1 ≤ config.(cfg_MerkleDepth) ≤ 32 →
  request.(Coordinator.req_ID) = d.(dr_RequestID) →
  let input := local_input config locator header receipt request in
  check_events (E := E) keccak256 config locator header.(Indexer.header_ParentHash)
    su d r anchor update = Ok bundle ↔
  d = Receipt.recorded_dependency su ∧ r.(rr_RequestID) = su.(vs_RequestID) ∧
  r.(rr_DependencyKey) = su.(vs_DependencyKey) ∧
  su.(vs_DependencyKey) = TrustView.ComputeDependencyKey keccak256 su.(vs_SourceChainID)
    su.(vs_SourceHeight) su.(vs_SourceBlockHash) su.(vs_SourceTrustRoot) ∧
  canonicalDependencyPayloadDigest keccak256 d = locator.(Evidence.PayloadDigest) ∧
  ∃ oldRoot, let leaves := Receipt.block_leaves keccak256 input oldRoot su in
    anchor = Receipt.leaf_update keccak256 input oldRoot su 0 ∧
    update = Receipt.leaf_update keccak256 input oldRoot su 1 ∧
    r.(rr_HomeTrustRoot) = Merkle.merkle_root keccak256 config.(cfg_MerkleDepth) leaves ∧
    bundle = mkBundle su d r
      (Merkle.witness_for keccak256 config.(cfg_MerkleDepth) leaves 1).(Siblings).
Proof.
  intros Hd Hreq input. unfold check_events, canonicalDependencyKey, TrustView.ComputeDependencyKey,
    TrustView.dependency_key_encoding. split.
  - intros [H1 H]%bind_bool. apply bind_bool in H as [H2 H]. apply bind_bool in H as [H3 H].
    apply bind_bool in H as [H4 H]. apply bind_bool in H as [H5 H].
    apply bind_Ok in H as (sib & Hc & [= <-]).
    destruct anchor as [a1 a2 a3 a4 a5 a6], update as [u1 u2 u3 u4 u5 u6],
      d as [d1 d2 d3 d4 d5 d6 d7], su as [s1 s2 s3 s4 s5 s6 s7 s8]; unfold Receipt.recorded_dependency.
    cbn [tu_RequestID tu_LeafIndex tu_Leaf tu_OldTrustRoot
        tu_NewTrustRoot tu_IsAnchor dr_DependencyKey dr_RequestID dr_SourceChainID dr_SourceHeight
        dr_SourceBlockHash dr_SourceTrustRoot dr_LeafIndex vs_RequestID vs_SourceChainID
        vs_SourceHeight vs_SourceBlockHash vs_SourceTrustRoot vs_DependencyKey] in *.
    bool_to_prop. subst. apply close_witness_Ok in Hc as (-> & Hu & _ & ->); [|done].
    split_and!; try done. exists a4. rewrite Receipt.leaf_update_0, Receipt.leaf_update_1.
    unfold Receipt.block_leaves, input, local_input. cbn [Receipt.in_Request Receipt.in_ParentHash
      Receipt.in_MerkleDepth vs_SourceTrustRoot vs_SourceBlockHash]. rewrite <-Hu.
    by split_and!.
  - intros (-> & Hr1 & Hr2 & Hk & Hp & oldRoot & -> & -> & Hh & ->).
    unfold Receipt.recorded_dependency in *. cbn [dr_RequestID] in Hreq.
    rewrite Receipt.leaf_update_0, Receipt.leaf_update_1.
    unfold Receipt.block_leaves, input, local_input in *.
    cbn [tu_RequestID tu_LeafIndex tu_Leaf tu_OldTrustRoot
        tu_NewTrustRoot tu_IsAnchor dr_DependencyKey dr_RequestID dr_SourceChainID dr_SourceHeight
        dr_SourceBlockHash dr_SourceTrustRoot dr_LeafIndex Receipt.in_Request Receipt.in_ParentHash
        Receipt.in_MerkleDepth] in *.
    rewrite Hreq, Hr1, Hr2, Hp, !bool_decide_eq_true_2 by done. cbn [negb orb Z.eqb].
    rewrite Hh. cbn [Z.eqb Pos.eqb negb orb].
    by rewrite (proj2 (close_witness_Ok _ _ _ _ _ _ _ Hd)
      (conj eq_refl (conj eq_refl (conj eq_refl eq_refl)))).
Qed.

(** What ties a receipt to a locator, beyond the checks of the indexer. *)
Definition locates (config : RemoteDependencyConfig) (locator : Evidence.Locator)
    (receipt : Receipt.EthReceipt) (d : DependencyRecorded) : Prop :=
  receipt.(Receipt.rc_TxHash) = locator.(Evidence.TxHash) ∧
  wrap32 receipt.(Receipt.TransactionIndex) = locator.(Evidence.TxIndex) ∧
  canonicalDependencyPayloadDigest keccak256 d = locator.(Evidence.PayloadDigest) ∧
  ∀ item, Some item ∈ receipt.(Receipt.Logs) → item.(Removed) = false ∧
    (item.(log_Address) = config.(cfg_Gateway) →
     hd_error item.(Topics) = Some DependencyRecordedTopic → named locator item).

Definition local_bundle (b : validatedReceiptBundle) (logs : list Log)
    : Receipt.VerificationReceiptBundle :=
  Receipt.mkBundle b.(success) b.(resolution) (Some b.(dependency))
    (Some (Receipt.mkMaterial 1 b.(siblings))) logs.

Lemma bindRequest_Ok request b :
  bindRequest (E := E) request b = Ok tt ↔
  request.(vr_RequestID) = b.(dependency).(dr_RequestID) ∧
  request.(vr_Requester) = b.(resolution).(rr_Requester) ∧
  request.(vr_SourceChainID) = b.(dependency).(dr_SourceChainID) ∧
  request.(vr_SourceHeight) = b.(dependency).(dr_SourceHeight) ∧
  request.(vr_SourceBlockHash) = b.(dependency).(dr_SourceBlockHash).
Proof.
  unfold bindRequest. split.
  - intros [H _]%bind_bool. by bool_to_prop.
  - intros (-> & -> & -> & -> & ->). by rewrite !bool_decide_eq_true_2.
Qed.

Lemma valid_config config :
  NewRemoteDependencyValidator config = true → 0 ≤ config.(cfg_MerkleDepth) →
  config.(cfg_Gateway) ≠ zero_address ∧ 1 ≤ config.(cfg_MerkleDepth) ≤ 32 ∧
  config.(cfg_PathStepCostGas) ≠ 0.
Proof.
  unfold NewRemoteDependencyValidator, Merkle.MaxTreeDepth. intros [_ H]%andb_true_iff Hd.
  bool_to_prop. split_and!; try done; lia.
Qed.

(** What the receipt and the request establish of the dependency itself. *)
Record content_bound (depth : Z) (locator : Evidence.Locator) (request : VerificationRequested)
    (d : DependencyRecorded) (homeRoot : Hash) (witness : list Hash) : Prop := {
  cb_request : request.(vr_RequestID) = d.(dr_RequestID);
  cb_chain : request.(vr_SourceChainID) = d.(dr_SourceChainID);
  cb_key : d.(dr_DependencyKey)
           = canonicalDependencyKey keccak256 d.(dr_SourceChainID) d.(dr_SourceHeight)
               d.(dr_SourceBlockHash) d.(dr_SourceTrustRoot);
  cb_payload : canonicalDependencyPayloadDigest keccak256 d = locator.(Evidence.PayloadDigest);
  cb_witness : Merkle.RootFromWitness keccak256
                 (LeafHash keccak256 d.(dr_SourceTrustRoot) d.(dr_SourceBlockHash))
                 d.(dr_LeafIndex) witness depth = Ok homeRoot
}.

Lemma validateReceipt_content config locator header receipt request b :
  validateReceipt (E := E) keccak256 config locator header receipt = Ok b →
  bindRequest (E := E) request b = Ok tt →
  content_bound config.(cfg_MerkleDepth) locator request b.(dependency)
    b.(resolution).(rr_HomeTrustRoot) b.(siblings).
Proof.
  intros H (Hr & _ & Hc & _)%bindRequest_Ok. unfold validateReceipt in H.
  apply bind_bool in H as [_ H]. apply bind_Ok in H as (s & _ & H).
  destruct (scan_success s) as [[su ?]|]; [|done].
  destruct (scan_dependency s) as [[d ?]|]; [|done].
  destruct (scan_resolution s) as [[r ?]|]; [|done].
  destruct (scan_updates s) as [|[anchor ?] [|[update ?] [|]]]; try done.
  apply bind_bool in H as [_ H]. apply bind_bool in H as [_ H].
  unfold check_events in H. apply bind_bool in H as [_ H]. apply bind_bool in H as [Hk H].
  apply bind_bool in H as [Hp H]. apply bind_bool in H as [_ H]. apply bind_bool in H as [_ H].
  apply bind_Ok in H as (sib & Hs & [= <-]). bool_to_prop. cbn in *.
  unfold close_witness in Hs. apply bind_Ok in Hs as (tree & _ & Hs).
  destruct (Merkle.Append _ tree _) as [t1|]; [|done]. apply bind_bool in Hs as [_ Hs].
  destruct (Merkle.Append _ t1 _) as [t2|]; [|done]. apply bind_bool in Hs as [_ Hs].
  destruct (Merkle.RootFromWitness _ _ _ _ _) as [root|] eqn:Hroot; [|done].
  apply bind_bool in Hs as [Hh [= <-]]. bool_to_prop. subst root. by split.
Qed.

Section OneReceipt.
Context (config : RemoteDependencyConfig) (locator : Evidence.Locator) (header : Indexer.Header).
Context (receipt : Receipt.EthReceipt) (request : VerificationRequested).
Hypothesis config_valid : NewRemoteDependencyValidator config = true.
Hypothesis depth_valid : 0 ≤ config.(cfg_MerkleDepth).
Hypothesis locator_valid : Evidence.Locator_Validate locator = Ok tt.
Hypothesis parent_valid : header.(Indexer.header_ParentHash) ≠ zero32.

Abbreviation input := (local_input config locator header receipt (stored_request config request)).

Lemma locator_fields :
  locator.(Evidence.BlockHash) ≠ zero32 ∧ locator.(Evidence.TxHash) ≠ zero32.
Proof using locator_valid.
  unfold Evidence.Locator_Validate in locator_valid. apply bind_Ok in locator_valid as (_ & _ & H).
  apply bind_bool in H as [_ H]. apply bind_bool in H as [Hb H]. apply bind_bool in H as [Ht _].
  by bool_to_prop.
Qed.

Lemma agrees_forward b :
  validateReceipt (E := E) keccak256 config locator header receipt = Ok b →
  bindRequest (E := E) request b = Ok tt →
  (∃ logs, Receipt.VerifyVerificationReceipt keccak256 input = Ok (local_bundle b logs)) ∧
  locates config locator receipt b.(dependency).
Proof using config_valid depth_valid locator_valid parent_valid.
  destruct (valid_config _ config_valid depth_valid) as (Hgw & Hd & _).
  destruct locator_fields as [Hbh Htx].
  unfold validateReceipt. intros [Hc%negb_false_iff H]%bind_bool Hbind.
  unfold receipt_coordinates_ok in Hc.
  destruct (Receipt.rc_BlockNumber receipt) as [n|] eqn:En; [|by rewrite !andb_false_r in Hc].
  bool_to_prop. subst n. apply bind_Ok in H as (r0 & Hscan & H).
  destruct (scan_forward locator input receipt eq_refl ltac:(done) _ None Receipt.empty_scan _ Hscan)
    as [(s & Hloop & <-) Hall].
  unfold project in H. cbn [scan_success scan_dependency scan_resolution scan_updates] in H.
  destruct (Receipt.successLog s) as [[slog su]|] eqn:Es; [|done].
  destruct (Receipt.dependencyLog s) as [[dlog d]|] eqn:Ed; [|done].
  destruct (Receipt.resolutionLog s) as [[rlog r]|] eqn:Er; [|done].
  destruct (Receipt.updates s) as [|[alog anchor] [|[ulog update] [|]]] eqn:Eu; try done.
  cbn [fmap option_fmap option_map map indexed fst snd] in H.
  apply bind_bool in H as [Hnew%negb_false_iff H]. apply bind_bool in H as [Hord%negb_false_iff H].
  assert (b.(dependency) = d ∧ b.(resolution) = r) as [<- <-]
    by (unfold check_events in H; repeat (apply bind_bool in H as [_ H]);
        apply bind_Ok in H as (? & _ & [= <-]); done).
  apply bindRequest_Ok in Hbind as (B1 & B2 & B3 & B4 & B5).
  apply (check_events_Ok _ _ header receipt (stored_request config request)) in H
    as (Hrec & Hr1 & Hr2 & Hk & Hp & oldRoot & -> & -> & Hh & Hb); [|done|done].
  split; [|by split_and!]. exists s.(Receipt.scan_Logs).
  unfold Receipt.VerifyVerificationReceipt, Merkle.MaxTreeDepth.
  cbn [local_input Receipt.in_Receipt Receipt.in_Gateway Receipt.in_BlockHash Receipt.in_ParentHash
    Receipt.in_MerkleDepth Receipt.in_BlockNumber Receipt.in_Request].
  rewrite !bool_decide_eq_false_2 by congruence. cbn [orb].
  rewrite (proj2 (Z.eqb_neq _ _)), (proj2 (Z.ltb_ge _ _)) by lia. cbn [orb].
  rewrite En, Z.eqb_refl, (proj2 (Z.eqb_eq _ _)), bool_decide_eq_true_2, (proj2 (Z.ltb_ge _ _)) by done.
  cbn [negb orb]. rewrite Hloop. cbn [mbind res_mbind res_bind]. rewrite Es, Er. cbn [fst snd].
  rewrite Hnew. cbn [negb]. bool_to_prop.
  rewrite (proj2 (Z.leb_gt _ _)) by lia.
  assert (Receipt.resolves keccak256 (stored_request config request) su (resolution b)) as HQ.
  { unfold Receipt.resolves, stored_request. cbn. rewrite Hrec in *.
    unfold Receipt.recorded_dependency in *. cbn in *. split_and!; congruence. }
  rewrite (proj2 (Receipt.verifySuccess_Ok _ _ _ _) HQ). cbn [mbind res_mbind res_bind].
  apply (Receipt.verify_new_Ok _ _ s); [done|exact HQ|].
  exists alog, ulog, dlog, oldRoot. rewrite Ed, Eu, Hrec. split_and!; try done.
  - repeat constructor; done.
  - rewrite Hb. unfold local_bundle, Receipt.new_bundle. cbn. by rewrite Hrec.
Qed.

Lemma agrees_back b logs :
  Receipt.VerifyVerificationReceipt keccak256 input = Ok (local_bundle b logs) →
  locates config locator receipt b.(dependency) →
  validateReceipt (E := E) keccak256 config locator header receipt = Ok b ∧
  bindRequest (E := E) request b = Ok tt.
Proof using config_valid depth_valid locator_valid parent_valid.
  destruct (valid_config _ config_valid depth_valid) as (Hgw & Hd & _).
  intros H (L1 & L2 & L3 & L4). unfold Receipt.VerifyVerificationReceipt in H.
  cbn [local_input Receipt.in_Receipt Receipt.in_Gateway Receipt.in_BlockHash Receipt.in_ParentHash
    Receipt.in_MerkleDepth Receipt.in_BlockNumber Receipt.in_Request] in H.
  apply bind_bool in H as [_ H]. apply bind_bool in H as [_ H]. apply bind_bool in H as [Hc H].
  destruct (Receipt.rc_BlockNumber receipt) as [n|] eqn:En; [|by rewrite orb_true_r in Hc].
  bool_to_prop. subst n. apply bind_Ok in H as (s & Hscan & H).
  destruct (Receipt.successLog s) as [[slog su]|] eqn:Es; [|done].
  destruct (Receipt.resolutionLog s) as [[rlog r]|] eqn:Er; [|done].
  apply bind_bool in H as [_ H]. apply bind_Ok in H as ([] & HQ & H). cbn [fst snd] in *.
  destruct (rr_NewDependency r) eqn:Hnew; cbn [negb] in H;
    [|by apply bind_bool in H as [_ [=]]].
  apply Receipt.verifySuccess_Ok in HQ.
  apply Receipt.verify_new_Ok in H as (alog & ulog & dlog & oldRoot & Ed & Eu & Hs & Hh & Hb);
    [|done|exact HQ].
  injection Hb as Hsu Hr Hdep Hsib _.
  assert (receipt_coordinates_ok locator
    (wrap64 (BlockHeight_BigInt (Evidence.BlockNumber locator))) receipt = true) as Hok.
  { unfold receipt_coordinates_ok. rewrite En, L1, L2.
    rewrite !bool_decide_eq_true_2, !Z.eqb_refl by done.
    rewrite (proj2 (Z.eqb_eq _ _)), (proj2 (Z.leb_le _ _)) by done. done. }
  pose proof (scan_back (E := E) locator input receipt eq_refl L1 _ None Receipt.empty_scan _ Hscan L4)
    as Hremote.
  change (scan_receipt (E := E) config.(cfg_Gateway) locator
    (wrap64 (BlockHeight_BigInt locator.(Evidence.BlockNumber))) receipt
    receipt.(Receipt.Logs) None empty_scan = Ok (project s)) in Hremote.
  unfold validateReceipt. rewrite Hok, Hremote. cbn [negb mbind res_mbind res_bind].
  unfold project. cbn [scan_success scan_dependency scan_resolution scan_updates].
  rewrite Es, Ed, Er, Eu. cbn [fmap option_fmap option_map map indexed fst snd].
  rewrite Hnew. cbn [negb].
  apply Sorted_StronglySorted in Hs; [|intros x y z; unfold Receipt.index_lt; lia]. repeat (apply StronglySorted_inv in Hs as [Hs ?]).
  repeat match goal with H : Forall _ (_ :: _) |- _ => apply Forall_cons in H as [? _] end.
  unfold Receipt.index_lt in *. rewrite !(proj2 (Z.ltb_lt _ _)) by done. cbn [andb negb].
  destruct b as [bsu bd br bsib]; cbn [success dependency resolution siblings] in *; subst.
  destruct HQ as (Q1 & Q2 & Q3 & Q4 & Q5 & Q6 & Q7 & Q8). cbn [stored_request Coordinator.req_ID
    Coordinator.req_SourceChainID Coordinator.req_SourceHeight Coordinator.req_SourceBlockHash
    Coordinator.req_Requester] in *.
  split.
  - apply (check_events_Ok _ _ header receipt (stored_request config request)); [done|by symmetry|].
    split_and!; try done; [congruence|]. by exists oldRoot.
  - apply bindRequest_Ok. cbn. by split_and!.
Qed.
End OneReceipt.
End Agreement.

(** ** Lemmas: successful runs of the validator *)
Section Runs.
Context (keccak256 : bytes → Hash).
Context {S E : Type} `{RPC : !RemoteDependencyRPC S E} `{OBS : !RemoteTrustRootObserver S E}.

Lemma ask_Ok {A} operation (op : S → res E A * S) s a s' (log : list answer) :
  ask operation op s = (Ok a, s', log) → op s = (Ok a, s') ∧ log = [].
Proof.
  unfold ask. intros [H ->]%M_call_Ok. destruct (op s) as [[x|e] s1]; [|done].
  by injection H as -> ->.
Qed.

Lemma read_header_Ok operation number s h s' log :
  read_header (E := E) operation number s = (Ok h, s', log) → log = [SawHeader number h].
Proof.
  unfold read_header.
  intros (h1 & s1 & l1 & l2 & [_ ->]%ask_Ok & (u & s2 & l3 & l4 & [= _ _ <-] & [= <- _ <-]
    & ->)%M_bind_Ok & ->)%M_bind_Ok. done.
Qed.

Lemma observe_Ok operation chainID height blockHash root s o s' log :
  observe (E := E) operation chainID height blockHash root s = (Ok o, s', log) →
  log = [SawObservation o].
Proof.
  unfold observe.
  intros (o1 & s1 & l1 & l2 & [_ ->]%M_call_Ok & (u & s2 & l3 & l4 & [= _ _ <-] & [= <- _ <-]
    & ->)%M_bind_Ok & ->)%M_bind_Ok. done.
Qed.

(** The event behind a request, in a block of the chain. *)
Definition requested_by (config : RemoteDependencyConfig) (requestID : RequestID) (to : Z)
    (item : Log) (header : Indexer.Header) (request : VerificationRequested) : Prop :=
  item.(Removed) = false ∧ item.(log_Address) = config.(cfg_Gateway) ∧
  config.(cfg_DeploymentBlock) ≤ item.(log_BlockNumber) ≤ to ∧
  header.(Indexer.header_Hash) = item.(log_BlockHash) ∧
  ParseVerificationRequested item = Ok request ∧ request.(vr_RequestID) = requestID ∧
  Evidence.ComputeGatewayRequestID keccak256 config.(cfg_ChainID) config.(cfg_Gateway)
    request.(vr_Requester) (Some (be_value request.(vr_RequesterNonce)))
    request.(vr_SourceChainID) request.(vr_SourceHeight) request.(vr_SourceBlockHash)
    = Ok requestID.

Lemma loadRequest_Ok config requestID to s request s' log :
  loadRequest (E := E) keccak256 config requestID to s = (Ok request, s', log) →
  ∃ item header,
    log = [SawRequests [item]; SawHeader item.(log_BlockNumber) (Some header)] ∧
    requested_by config requestID to item header request.
Proof.
  unfold loadRequest.
  intros (logs & s1 & l1 & l2 & [_ ->]%ask_Ok & (u & s2 & l3 & l4 & [= _ _ <-] & H
    & ->)%M_bind_Ok & ->)%M_bind_Ok.
  destruct logs as [|item [|? ?]]; [done| |done].
  apply M_bind_bool in H as [Hc H]; [|done].
  apply M_bind_Ok in H as (h & s3 & l5 & l6 & ->%read_header_Ok & H & ->).
  destruct h as [h|]; cbn in H; [|done]. apply M_bind_bool in H as [Hh H]; [|done].
  apply M_bind_Ok in H as (r & s4 & l7 & l8 & (Hp & -> & ->)%M_lift_Ok & H & ->).
  apply map_err_Ok in Hp.
  destruct (Evidence.ComputeGatewayRequestID _ _ _ _ _ _ _ _) as [want|] eqn:Hw; [|done].
  apply M_bind_bool in H as [Hi H]; [|done]. injection H as -> _ <-.
  exists item, h. split; [done|]. unfold requested_by. bool_to_prop. subst. by split_and!.
Qed.

Lemma header_at_Some number hash header :
  header_at number hash header = true →
  ∃ h, header = Some h ∧ h.(Indexer.header_Number) = Some number ∧ h.(Indexer.header_Hash) = hash.
Proof.
  unfold header_at. destruct header as [h|]; [|done].
  destruct (Indexer.header_Number h) as [n|] eqn:Hn; [|done]. intros Hc. bool_to_prop. subst.
  by exists h.
Qed.

Lemma read_block_Ok config locator s block s' log :
  read_block (E := E) keccak256 config locator s = (Ok block, s', log) →
  let number := BlockHeight_BigInt locator.(Evidence.BlockNumber) in
  config.(cfg_DeploymentBlock) ≤ number ≤ MaxUint64 ∧
  block.1.(Indexer.header_Hash) = locator.(Evidence.BlockHash) ∧
  log = [SawHeader number (Some block.1); SawReceipt locator.(Evidence.TxHash) (Some block.2)].
Proof.
  unfold read_block. intros (c & s1 & l1 & l2 & [_ ->]%ask_Ok & H & ->)%M_bind_Ok.
  apply M_bind_bool in H as [_ H]; [|done]. apply M_bind_bool in H as [Hn H]; [|done].
  apply M_bind_bool in H as [Hd H]; [|done].
  apply M_bind_Ok in H as (head & s2 & l3 & l4 & [_ ->]%ask_Ok & H & ->).
  apply M_bind_bool in H as [_ H]; [|done].
  apply M_bind_Ok in H as (h & s3 & l5 & l6 & ->%read_header_Ok & H & ->).
  apply M_bind_bool in H as [(h' & -> & _ & Hh)%negb_false_iff%header_at_Some H]; [|done].
  apply M_bind_Ok in H as (code & s4 & l7 & l8 & [_ ->]%ask_Ok & H & ->).
  apply M_bind_bool in H as [_ H]; [|done].
  apply M_bind_Ok in H as (r & s5 & l9 & l10 & [_ ->]%ask_Ok & H & ->).
  apply M_bind_Ok in H as (u & s6 & l11 & l12 & [= _ _ <-] & H & ->).
  destruct r as [r|]; [|done]. injection H as <- _ <-. bool_to_prop. cbn.
  split_and!; try done; lia.
Qed.

Lemma observationMatches_true o chainID height hash root :
  observationMatches o chainID height hash root = true ↔
  o.(vo_ChainID) = chainID ∧ o.(vo_Height) = height ∧ o.(vo_BlockHash) = hash ∧
  o.(vo_TrustRoot) = root ∧ o.(vo_EvidenceID) ≠ zero32.
Proof.
  unfold observationMatches. rewrite !andb_true_iff, negb_true_iff, !bool_decide_eq_true,
    bool_decide_eq_false. naive_solver.
Qed.
End Runs.

(** ** Properties *)

(** C32. The validator of gossiped evidence and the indexer of the recording
    chain agree on verification receipts: for a locator of a valid shape, a
    receipt and a request pass [validateReceipt] and [bindRequest] if and only
    if the indexer's [VerifyVerificationReceipt] accepts the receipt of that
    block for that request as one of a new dependency, with the same events
    and the same membership witness, and the locator names the transaction,
    the log and the payload of that dependency. *)
Theorem validateReceipt_agrees (keccak256 : bytes → Hash) (E : Type)
    (config : RemoteDependencyConfig) (locator : Evidence.Locator) (header : Indexer.Header)
    (receipt : Receipt.EthReceipt) (request : VerificationRequested)
    (bundle : validatedReceiptBundle) :
  NewRemoteDependencyValidator config = true → 0 ≤ config.(cfg_MerkleDepth) →
  Evidence.Locator_Validate locator = Ok tt →
  header.(Indexer.header_ParentHash) ≠ zero32 →
  (validateReceipt (E := E) keccak256 config locator header receipt = Ok bundle ∧
   bindRequest (E := E) request bundle = Ok tt ↔
   (∃ logs, Receipt.VerifyVerificationReceipt keccak256
      (local_input config locator header receipt (stored_request config request))
      = Ok (local_bundle bundle logs)) ∧
   locates keccak256 config locator receipt bundle.(dependency)).
Proof.
  intros Hc Hd Hl Hp. split.
  - intros [H1 H2]. by eapply agrees_forward.
  - intros [[logs H1] H2]. by eapply agrees_back.
Qed.

(** What a validated dependency rests on. *)
Record established (keccak256 : bytes → Hash) (config : RemoteDependencyConfig)
    (locator : Evidence.Locator) (v : RemoteDependencyValidation) (log : list answer) : Prop := {
  est_record : ∃ id, Evidence.ComputeID keccak256 locator = Ok id ∧
    v.(val_Record) = Evidence.mkRecord id locator Evidence.Candidate "" None None;
  est_configured : locator.(Evidence.ChainID) = config.(cfg_ChainID) ∧
    locator.(Evidence.ContractAddress) = config.(cfg_Gateway) ∧
    config.(cfg_DeploymentBlock) ≤ BlockHeight_BigInt locator.(Evidence.BlockNumber) ≤ MaxUint64;
  est_answers : ∃ header receipt item requestHeader rechecked request resolution logs,
    let number := BlockHeight_BigInt locator.(Evidence.BlockNumber) in
    log = [SawHeader number (Some header);
           SawReceipt locator.(Evidence.TxHash) (Some receipt);
           SawRequests [item]; SawHeader item.(log_BlockNumber) (Some requestHeader);
           SawObservation v.(SourceObservation); SawObservation v.(HomeObservation);
           SawHeader number (Some rechecked)] ∧
    header.(Indexer.header_Hash) = locator.(Evidence.BlockHash) ∧
    rechecked.(Indexer.header_Hash) = locator.(Evidence.BlockHash) ∧
    requested_by keccak256 config v.(val_Dependency).(dr_RequestID) number item requestHeader
      request ∧
    resolution.(rr_HomeTrustRoot) = v.(val_HomeTrustRoot) ∧
    content_bound keccak256 config.(cfg_MerkleDepth) locator request v.(val_Dependency)
      v.(val_HomeTrustRoot) v.(WitnessSiblings) ∧
    (header.(Indexer.header_ParentHash) ≠ zero32 →
     ∃ success,
       Receipt.VerifyVerificationReceipt keccak256
         (local_input config locator header receipt (stored_request config request))
       = Ok (local_bundle (mkBundle success v.(val_Dependency) resolution v.(WitnessSiblings))
               logs) ∧
       locates keccak256 config locator receipt v.(val_Dependency));
  est_source :
    let d := v.(val_Dependency) in
    let o := v.(SourceObservation) in
    o.(vo_ChainID) = d.(dr_SourceChainID) ∧ o.(vo_Height) = d.(dr_SourceHeight) ∧
    o.(vo_BlockHash) = d.(dr_SourceBlockHash) ∧ o.(vo_TrustRoot) = d.(dr_SourceTrustRoot) ∧
    o.(vo_EvidenceID) ≠ zero32;
  est_home :
    let o := v.(HomeObservation) in
    o.(vo_ChainID) = config.(cfg_ChainID) ∧ o.(vo_Height) = locator.(Evidence.BlockNumber) ∧
    o.(vo_BlockHash) = locator.(Evidence.BlockHash) ∧ o.(vo_TrustRoot) = v.(val_HomeTrustRoot) ∧
    o.(vo_EvidenceID) ≠ zero32;
  est_cost : v.(val_PathStepCostGas) = config.(cfg_PathStepCostGas)
}.

Lemma Validate_established (keccak256 : bytes → Hash) {S E : Type}
    `{RPC : !RemoteDependencyRPC S E} `{OBS : !RemoteTrustRootObserver S E}
    (config : RemoteDependencyConfig) (locator : Evidence.Locator) (s s' : S)
    (v : RemoteDependencyValidation) (log : list answer) :
  NewRemoteDependencyValidator config = true → 0 ≤ config.(cfg_MerkleDepth) →
  Validate (E := E) keccak256 config locator s = (Ok v, s', log) →
  established keccak256 config locator v log.
Proof.
  intros Hc Hd. unfold Validate.
  intros (u & s1 & l1 & l2 & (Hl%map_err_Ok & -> & ->)%M_lift_Ok & H & ->)%M_bind_Ok.
  destruct u. apply M_bind_bool in H as [Hcfg H]; [|done].
  apply M_bind_Ok in H as ([header receipt] & s2 & l3 & l4 & Hblock & H & ->).
  apply read_block_Ok in Hblock as (Hn & Hh & ->). cbn [fst snd] in *.
  apply M_bind_Ok in H as (b & s3 & l5 & l6 & (Hb & -> & ->)%M_lift_Ok & H & ->).
  apply M_bind_Ok in H as (request & s4 & l7 & l8 & Hreq & H & ->).
  apply loadRequest_Ok in Hreq as (item & rh & -> & Hreq).
  apply M_bind_Ok in H as (u & s5 & l9 & l10 & (Hbind & -> & ->)%M_lift_Ok & H & ->). destruct u.
  apply M_bind_Ok in H as (source & s6 & l11 & l12 & ->%observe_Ok & H & ->).
  apply M_bind_Ok in H as (home & s7 & l13 & l14 & ->%observe_Ok & H & ->).
  apply M_bind_bool in H as [[Hos Hoh]%orb_false_iff H]; [|done].
  apply negb_false_iff, observationMatches_true in Hos.
  apply negb_false_iff, observationMatches_true in Hoh.
  apply M_bind_Ok in H as (re & s8 & l15 & l16 & ->%read_header_Ok & H & ->).
  destruct re as [re|]; cbn in H; [|done]. apply M_bind_bool in H as [Hre H]; [|done].
  apply M_bind_Ok in H as (id & s9 & l17 & l18 & (Hid%map_err_Ok & -> & ->)%M_lift_Ok & H & ->).
  injection H as <- _ <-. bool_to_prop.
  split; cbn [val_Record val_Dependency val_HomeTrustRoot WitnessSiblings SourceObservation
    HomeObservation val_PathStepCostGas]; try done.
  - by exists id.
  - pose proof (validateReceipt_content _ _ _ _ _ _ _ Hb Hbind) as Hcontent.
    destruct (decide (Indexer.header_ParentHash header = zero32)) as [Hz|Hz].
    + exists header, receipt, item, rh, re, request, b.(resolution), []. by split_and!.
    + destruct (agrees_forward _ config locator header receipt request Hc Hd Hl Hz b Hb Hbind)
        as [[logs HV] HL].
      exists header, receipt, item, rh, re, request, b.(resolution), logs. split_and!; try done.
      intros _. exists b.(success). split; [|done]. by destruct b.
Qed.


(** *** A chain for the closed instances

    Block 50 of chain 1 holds the receipt of a dependency on block 10 of chain
    2, block 49 the event of its request. *)
Definition sample_config : RemoteDependencyConfig :=
  mkConfig (Receipt.w 1) (be_vec 20 7) (sample_hash [Byte.x01]) 48 2 3 30713.

Definition sample_request_id : RequestID :=
  default_ok zero32
    (Evidence.ComputeGatewayRequestID sample_hash (Receipt.w 1) (be_vec 20 7) (be_vec 20 5)
       (Some 3) (Receipt.w 2) (Receipt.w 10) (Receipt.w 99)).

Definition sample_request : VerificationRequested :=
  mkRequested sample_request_id (be_vec 20 5) (Receipt.w 2) (Receipt.w 10) (Receipt.w 99)
    (Receipt.w 3).

Definition sample_key : Hash :=
  canonicalDependencyKey sample_hash (Receipt.w 2) (Receipt.w 10) (Receipt.w 99) (Receipt.w 222).

Definition sample_dependency : DependencyRecorded :=
  mkRecorded sample_key sample_request_id (Receipt.w 2) (Receipt.w 10) (Receipt.w 99)
    (Receipt.w 222) 1.

Definition sample_locator : Evidence.Locator :=
  Evidence.mkLocator (Receipt.w 1) (be_vec 20 7) (Receipt.w 50) (Receipt.w 88) (Receipt.w 77) 4 3
    (canonicalDependencyPayloadDigest sample_hash sample_dependency).

Definition sample_update (leafIndex : Z) : TrustRootUpdated :=
  Receipt.leaf_update sample_hash
    (Receipt.mkInput (be_vec 20 7) (Receipt.w 88) 50 (Receipt.w 87) 3
       (stored_request sample_config sample_request) None)
    (Receipt.w 333)
    (mkSucceeded sample_request_id (Receipt.w 2) (Receipt.w 10) (Receipt.w 99) (Receipt.w 222)
       sample_key false None) leafIndex.

Definition sample_receipt : Receipt.EthReceipt :=
  Receipt.mkReceipt 1 (Receipt.w 77) (Receipt.w 88) (Some 50) 4
    (map Some
      [Receipt.sample_log [DirectVerificationSucceededTopic; sample_request_id; Receipt.w 2]
         [Receipt.w 10; Receipt.w 99; Receipt.w 222; sample_key] 7 0;
       Receipt.update_log (sample_update 0) 1;
       Receipt.update_log (sample_update 1) 2;
       Receipt.sample_log [DependencyRecordedTopic; sample_key; sample_request_id; Receipt.w 2]
         [Receipt.w 10; Receipt.w 99; Receipt.w 222; uint_word 1] 7 3;
       Receipt.sample_log [RequestResolvedTopic; sample_request_id; address_word (be_vec 20 5);
                           sample_key]
         [bool_word true; (sample_update 1).(tu_NewTrustRoot)] 7 4]).

Definition sample_header (number : Z) : Indexer.Header :=
  Indexer.mkHeader (Some number) (Receipt.w (number + 38)) (Receipt.w (number + 37)).

Definition sample_request_log : Log :=
  mkLog (be_vec 20 7)
    [VerificationRequestedTopic; sample_request_id; address_word (be_vec 20 5); Receipt.w 2]
    (concat_words [Receipt.w 10; Receipt.w 99; Receipt.w 3]) 49 (Receipt.w 70) 0 (Receipt.w 87) 0
    false.

#[export] Instance sample_rpc : RemoteDependencyRPC unit string := {
  remote_ChainID s := (Ok (Some 1), s);
  remote_BlockNumber s := (Ok 52, s);
  remote_HeaderByNumber number s := (Ok (Some (sample_header number)), s);
  remote_CodeAtHash _ _ s := (Ok [Byte.x01], s);
  remote_TransactionReceipt _ s := (Ok (Some sample_receipt), s);
  remote_FilterLogs _ _ _ _ s := (Ok [sample_request_log], s)
}.

#[export] Instance sample_observer : RemoteTrustRootObserver unit string := {
  ObserveExpectedTrustRoot chainID height hash root s :=
    (Ok (mkObservation chainID height hash root (Receipt.w 600)), s);
  invalid_observation _ := false
}.

Abbreviation sample_run := (Validate (E := string) sample_hash sample_config sample_locator tt).

Abbreviation sample_bundle :=
  (validateReceipt (E := string) sample_hash sample_config sample_locator (sample_header 50)
     sample_receipt).

Lemma validateReceipt_agrees_witness :
  ∃ bundle logs, Receipt.VerifyVerificationReceipt sample_hash
      (local_input sample_config sample_locator (sample_header 50) sample_receipt
         (stored_request sample_config sample_request))
      = Ok (local_bundle bundle logs) ∧
    locates sample_hash sample_config sample_locator sample_receipt bundle.(dependency).
Proof.
  assert (is_ok (b ← sample_bundle; bindRequest sample_request b) = true) as Hok
    by (vm_compute; reflexivity).
  destruct sample_bundle as [bundle|] eqn:Hb; [|discriminate Hok].
  assert (bindRequest (E := string) sample_request bundle = Ok tt) as Hbind.
  { cbn [mbind res_mbind res_bind] in Hok. destruct (bindRequest _ _) as [[]|]; [done|discriminate]. }
  destruct (proj1 (validateReceipt_agrees sample_hash string sample_config sample_locator
    (sample_header 50) sample_receipt sample_request bundle ltac:(vm_compute; reflexivity)
    ltac:(cbn; lia) ltac:(vm_compute; reflexivity) ltac:(vm_compute; discriminate)) (conj Hb Hbind)) as [[logs H] Hl].
  exists bundle, logs. exact (conj H Hl).
Defined.


End RemoteValidator.
