(* ===== verification/Mailbox.v ===== *)
(** * Mapnode/store: the evidence mailboxes

    evidence_inbox_repository.go, evidence_outbox_repository.go and
    remote_dependency_repository.go over the tables of Tables.v: messages
    received by gossip with the candidate evidence they point to, messages to
    be sent, refused messages, and [Activate], which turns a validated remote
    dependency into active evidence, a witness and an edge.

    [peer.Decode] and [ID.String] are parameters.  [RejectProvenance] reads its
    row back after the statement that inserted it; both run on one connection,
    so the two are one step here. *)

From S2P Require Import Prelude Domain Merkle Evidence TrustView Reorg Planner PathProof Coordinator.
From S2P Require Import ChainABI Indexer Envelope Submission Store GraphStore PlanStore ProofStore.
From S2P Require Import LiveStore System RemoteValidator Tables IndexerStore IndexerApply.
Import Domain TrustView Tables.

Module Mailbox.

Import GraphStore IndexerStore IndexerApply.

#[local] Existing Instances Evidence.Locator_eq_dec.

Definition InboxPending : string := "pending".
Definition InboxRetryable : string := "retryable".
Definition InboxValidated : string := "validated".
Definition InboxInvalid : string := "invalid".

Abbreviation inactive := (ErrStore Store.ErrConcurrentUpdate).

(** [attempts+1] of an INTEGER column. *)
Definition next_attempt (attempts : Z) : res error Z :=
  if attempts <? MaxInt64 then Ok (attempts + 1) else Err constraint.

Definition peer_length_ok (peer : string) : bool :=
  (1 <=? zlen (bytes_of_string peer)) && (zlen (bytes_of_string peer) <=? 256).

(** [ORDER BY time, message_id]: times are positive. *)
Definition time_key {A} (time : A → Z) (p : Hash * A) : bytes := be_bytes 8 (time p.2) ++ p.1.

Definition pending_limit (limit : Z) : bool := (1 <=? limit) && (limit <=? 1000).

(** The rows the query returns, in its order. *)
Definition select_pending {A} (time : A → Z) (due : A → bool) (limit : Z) (rows : gmap Hash A)
    : list A :=
  (take (Z.to_nat limit)
     (sort_by (time_key time) (List.filter (λ p, due p.2) (map_to_list rows)))).*2.

Section Peers.
Context (keccak256 sha256 : bytes → Hash) (IDFromBytes : bytes → option Envelope.PeerID).
Context (peer_String : Envelope.PeerID → string) (peer_Decode : string → option Envelope.PeerID).

(** ** Refused messages *)

Definition put_rejection (m : MailTables) (id : Hash) (row : RejectionRow) : MailTables :=
  mkMailTables m.(evidence_inbox) m.(evidence_outbox)
    (<[id := row]> m.(evidence_ingress_rejections)).

Definition rejection_row (rejection : Envelope.IngressRejection) : RejectionRow :=
  mkRejectionRow (peer_String rejection.(Envelope.ActualOrigin))
    (peer_String rejection.(Envelope.ClaimedOrigin)) rejection.(Envelope.ClaimedMessageID)
    rejection.(Envelope.PayloadFingerprint) rejection.(Envelope.rej_Reason)
    (default 0 rejection.(Envelope.ReceivedAt)).

Definition rejection_allowed (row : RejectionRow) : bool :=
  peer_length_ok row.(rj_Actual) && peer_length_ok row.(rj_Claimed)
  && LiveStore.sql_nonempty row.(rj_Reason) && (0 <? row.(rj_ReceivedAt)).

Definition LoadIngressRejection (id : Hash) (m : MailTables)
    : res error Envelope.IngressRejection :=
  if id =?= zero32 then Err ErrMailbox
  else
    match m.(evidence_ingress_rejections) !! id with
    | None => Err (ErrStore Store.ErrRecordNotFound)
    | Some row =>
        match peer_Decode row.(rj_Actual), peer_Decode row.(rj_Claimed) with
        | Some actual, Some claimed =>
            Ok (Envelope.mkRejection id actual claimed row.(rj_MessageID) row.(rj_Fingerprint)
                  row.(rj_Reason) (Some row.(rj_ReceivedAt)))
        | _, _ => Err conflict
        end
    end.

(** Everything but the time of arrival. *)
Definition same_rejection (x y : Envelope.IngressRejection) : bool :=
  (x.(Envelope.RejectionID) =?= y.(Envelope.RejectionID))
  && (x.(Envelope.ActualOrigin) =?= y.(Envelope.ActualOrigin))
  && (x.(Envelope.ClaimedOrigin) =?= y.(Envelope.ClaimedOrigin))
  && (x.(Envelope.ClaimedMessageID) =?= y.(Envelope.ClaimedMessageID))
  && (x.(Envelope.PayloadFingerprint) =?= y.(Envelope.PayloadFingerprint))
  && (x.(Envelope.rej_Reason) =?= y.(Envelope.rej_Reason)).

Definition RejectProvenance (rejection : Envelope.IngressRejection) (m : MailTables)
    : res error (bool * MailTables) :=
  if (rejection.(Envelope.RejectionID) =?= zero32) || (rejection.(Envelope.ActualOrigin) =?= [])
     || (rejection.(Envelope.ClaimedOrigin) =?= [])
     || (rejection.(Envelope.ActualOrigin) =?= rejection.(Envelope.ClaimedOrigin))
     || (rejection.(Envelope.ClaimedMessageID) =?= zero32)
     || (rejection.(Envelope.PayloadFingerprint) =?= zero32)
     || (rejection.(Envelope.rej_Reason) =?= "") || (rejection.(Envelope.ReceivedAt) =?= None)
  then Err ErrMailbox
  else
    let row := rejection_row rejection in
    if negb (rejection_allowed row) then Err constraint
    else
      match m.(evidence_ingress_rejections) !! rejection.(Envelope.RejectionID) with
      | Some _ =>
          match LoadIngressRejection rejection.(Envelope.RejectionID) m with
          | Ok stored => if same_rejection stored rejection then Ok (false, m) else Err conflict
          | Err _ => Err conflict
          end
      | None =>
          (* UNIQUE(actual_origin_peer,payload_fingerprint) *)
          if bool_decide (is_Some (Store.find_row m.(evidence_ingress_rejections)
               (λ r, (r.(rj_Actual) =?= row.(rj_Actual))
                     && (r.(rj_Fingerprint) =?= row.(rj_Fingerprint)))))
          then Err constraint
          else Ok (true, put_rejection m rejection.(Envelope.RejectionID) row)
      end.

(** ** Inbox *)

Record InboxItem := mkInboxItem {
  item_Envelope : Envelope.DependencyEvidenceEnvelope;
  item_EvidenceID : Evidence.ID;
  item_Origin : Envelope.PeerID;
  item_State : string;
  item_InvalidReason : string;
  item_Attempts : Z;
  item_NextAttemptAt : Evidence.Time
}.

Definition put_inbox (m : MailTables) (id : Hash) (row : InboxRow) : MailTables :=
  mkMailTables (<[id := row]> m.(evidence_inbox)) m.(evidence_outbox)
    m.(evidence_ingress_rejections).

(** [INSERT INTO evidence ... 'candidate' ... ON CONFLICT(id) DO NOTHING] and
    the row read back; [UNIQUE] on the columns of the locator. *)
Definition insert_candidate (now : Z) (id : Evidence.ID) (locator : Evidence.Locator)
    (c : Store.DB) : res error (Evidence.EvidenceRecord * Store.DB) :=
  if negb (0 <? now) then Err constraint
  else
    match c.(Store.evidence) !! id with
    | Some record =>
        if record.(Evidence.rec_Locator) ≠?= locator then Err conflict else Ok (record, c)
    | None =>
        if bool_decide (is_Some (Store.loadByLocator c locator)) then Err constraint
        else
          let row := Evidence.mkRecord id locator Evidence.Candidate "" (Some now) (Some now) in
          Ok (row, Store.set_evidence c (<[id := row]> c.(Store.evidence))
                     c.(Store.evidence_transitions))
    end.

Definition Receive (now : Z) (envelope : Envelope.DependencyEvidenceEnvelope)
    (sender : Envelope.PeerID) (db : Database)
    : res error (Evidence.EvidenceRecord * bool * Database) :=
  _ ← map_err ErrEnvelope (Envelope.ValidateFrom IDFromBytes sha256 envelope sender);
  encoded ← map_err ErrEnvelope (Envelope.MarshalBinary IDFromBytes sha256 envelope);
  let locator := Envelope.envelope_Locator envelope in
  evidenceID ← map_err ErrLocator (Evidence.ComputeID keccak256 locator);
  '(record, c) ← insert_candidate now evidenceID locator db.(core);
  let row := mkInboxRow evidenceID (peer_String sender) encoded InboxPending "" 0 now now in
  if negb (peer_length_ok row.(in_Origin)) then Err constraint
  else
    match db.(mail).(evidence_inbox) !! envelope.(Envelope.MessageID) with
    | Some stored =>
        if (stored.(in_Envelope) ≠?= encoded) || (stored.(in_EvidenceID) ≠?= evidenceID)
           || (stored.(in_Origin) ≠?= peer_String sender)
        then Err conflict
        else Ok (record, false, set_core db c)
    | None =>
        Ok (record, true,
            set_core (set_mail db (put_inbox db.(mail) envelope.(Envelope.MessageID) row)) c)
    end.

Definition scanInboxItem (row : InboxRow) : res error InboxItem :=
  match Envelope.ParseDependencyEvidenceEnvelope IDFromBytes sha256 row.(in_Envelope),
        peer_Decode row.(in_Origin) with
  | Ok envelope, Some id =>
      if id ≠?= envelope.(Envelope.OriginPeer) then Err conflict
      else Ok (mkInboxItem envelope row.(in_EvidenceID) id row.(in_State) row.(in_InvalidReason)
                 row.(in_Attempts) (Some row.(in_NextAttemptAt)))
  | _, _ => Err conflict
  end.

Definition Load (id : Hash) (m : MailTables) : res error InboxItem :=
  match m.(evidence_inbox) !! id with
  | None => Err (ErrStore Store.ErrRecordNotFound)
  | Some row => scanInboxItem row
  end.

(** [state IN ('pending','retryable')] *)
Definition open_state (state : string) : bool :=
  (state =?= InboxPending) || (state =?= InboxRetryable).

Fixpoint map_all {A B} (f : A → res error B) (l : list A) : res error (list B) :=
  match l with
  | [] => Ok []
  | a :: rest => b ← f a; bs ← map_all f rest; Ok (b :: bs)
  end.

(** [EvidenceInboxRepository.Pending] *)
Definition inbox_Pending (limit now : Z) (m : MailTables) : res error (list InboxItem) :=
  if negb (pending_limit limit) then Err ErrMailbox
  else map_all scanInboxItem
         (select_pending in_ReceivedAt
            (λ row, open_state row.(in_State) && (row.(in_NextAttemptAt) <=? now)) limit
            m.(evidence_inbox)).

Definition set_inbox_state (row : InboxRow) (state reason : string) (attempts next : Z)
    : InboxRow :=
  mkInboxRow row.(in_EvidenceID) row.(in_Origin) row.(in_Envelope) state reason attempts next
    row.(in_ReceivedAt).

(** [EvidenceInboxRepository.MarkRetryable] *)
Definition inbox_MarkRetryable (now : Z) (id : Hash) (reason : string) (next : Evidence.Time)
    (m : MailTables) : res error MailTables :=
  if (reason =?= "") || (next =?= None) then Err ErrMailbox
  else
    match m.(evidence_inbox) !! id with
    | Some row =>
        if negb (open_state row.(in_State)) then Err inactive
        else
          attempts ← next_attempt row.(in_Attempts);
          if negb ((0 <? default 0 next) && (0 <? now)) then Err constraint
          else Ok (put_inbox m id (set_inbox_state row InboxRetryable row.(in_InvalidReason)
                                     attempts (default 0 next)))
    | None => Err inactive
    end.

(** Candidate evidence becomes invalid, other evidence is left as it is. *)
Definition invalidate_candidate (now : Z) (id : Evidence.ID) (reason : string) (c : Store.DB)
    : res error Store.DB :=
  match c.(Store.evidence) !! id with
  | Some record =>
      if record.(Evidence.rec_State) ≠?= Evidence.Candidate then Ok c
      else if Store.evidence_observed c id
              || existsb (λ t, match t with (i, f, t', _, _) =>
                   (i =?= id) && (f =?= Evidence.Candidate) && (t' =?= Evidence.Invalid) end)
                   c.(Store.evidence_transitions)
      then Err constraint
      else
        let updated := Evidence.mkRecord record.(Evidence.rec_ID) record.(Evidence.rec_Locator)
                         Evidence.Invalid reason record.(Evidence.CreatedAt) (Some now) in
        Ok (Store.set_evidence c (<[id := updated]> c.(Store.evidence))
              (c.(Store.evidence_transitions)
                 ++ [(id, Evidence.Candidate, Evidence.Invalid, reason, now)]))
  | None => Ok c
  end.

Definition MarkInvalid (now : Z) (id : Hash) (reason : string) (db : Database)
    : res error Database :=
  if reason =?= "" then Err ErrMailbox
  else
    match db.(mail).(evidence_inbox) !! id with
    | None => Err ErrNoRows
    | Some row =>
        if row.(in_State) =?= InboxValidated then Err conflict
        else if row.(in_State) =?= InboxInvalid then Ok db
        else
          attempts ← next_attempt row.(in_Attempts);
          if negb (LiveStore.sql_nonempty reason && (0 <? now)) then Err constraint
          else
            c ← invalidate_candidate now row.(in_EvidenceID) reason db.(core);
            Ok (set_core (set_mail db (put_inbox db.(mail) id
                  (set_inbox_state row InboxInvalid reason attempts row.(in_NextAttemptAt)))) c)
    end.

(** The update at the end of [Activate] is [MarkValidated] too. *)
Definition MarkValidated (now : Z) (id : Hash) (m : MailTables) : res error MailTables :=
  match m.(evidence_inbox) !! id with
  | Some row =>
      if negb (open_state row.(in_State)) then Err inactive
      else if negb (0 <? now) then Err constraint
      else Ok (put_inbox m id (set_inbox_state row InboxValidated "" row.(in_Attempts)
                                 row.(in_NextAttemptAt)))
  | None => Err inactive
  end.

(** ** Outbox *)

Record OutboxItem := mkOutboxItem {
  out_item_Envelope : Envelope.DependencyEvidenceEnvelope;
  out_item_EvidenceID : Evidence.ID;
  out_item_Attempts : Z;
  out_item_NextAttemptAt : Evidence.Time;
  LastError : string
}.

(** Sealed: only the confirmed indexer writes to the outbox. *)
Definition Enqueue (envelope : Envelope.DependencyEvidenceEnvelope) : res error bool :=
  Err ErrOutboxTransactionRequired.

Definition scanOutboxItem (row : OutboxRow) : res error OutboxItem :=
  match Envelope.ParseDependencyEvidenceEnvelope IDFromBytes sha256 row.(out_Envelope) with
  | Ok envelope =>
      Ok (mkOutboxItem envelope row.(out_EvidenceID) row.(out_Attempts)
            (Some row.(out_NextAttemptAt)) row.(out_LastError))
  | Err _ => Err conflict
  end.

Definition queued_state (state : string) : bool := (state =?= "pending") || (state =?= "published").

(** [EvidenceOutboxRepository.Pending] *)
Definition outbox_Pending (limit now : Z) (m : MailTables) : res error (list OutboxItem) :=
  if negb (pending_limit limit) then Err ErrMailbox
  else map_all scanOutboxItem
         (select_pending out_CreatedAt
            (λ row, queued_state row.(out_State) && (row.(out_NextAttemptAt) <=? now)) limit
            m.(evidence_outbox)).

Definition PendingEnvelopes (limit now : Z) (m : MailTables)
    : res error (list Envelope.DependencyEvidenceEnvelope) :=
  items ← outbox_Pending limit now m; Ok (map out_item_Envelope items).

Definition set_outbox_state (row : OutboxRow) (state : string) (attempts next : Z)
    (lastError : string) (published : option Z) : OutboxRow :=
  mkOutboxRow row.(out_EvidenceID) row.(out_Origin) row.(out_Envelope) state attempts next
    lastError row.(out_CreatedAt) published.

Definition MarkPublished (now : Z) (id : Hash) (next : Evidence.Time) (m : MailTables)
    : res error MailTables :=
  if next =?= None then Err ErrMailbox
  else
    match m.(evidence_outbox) !! id with
    | Some row =>
        if negb (queued_state row.(out_State)) then Err inactive
        else
          attempts ← next_attempt row.(out_Attempts);
          if negb ((0 <? default 0 next) && (0 <? now)) then Err constraint
          else Ok (put_outbox m id (set_outbox_state row "published" attempts (default 0 next) ""
                                      (Some now)))
    | None => Err inactive
    end.

(** [EvidenceOutboxRepository.MarkRetryable] *)
Definition outbox_MarkRetryable (now : Z) (id : Hash) (reason : string) (next : Evidence.Time)
    (m : MailTables) : res error MailTables :=
  if (reason =?= "") || (next =?= None) then Err ErrMailbox
  else
    match m.(evidence_outbox) !! id with
    | Some row =>
        if negb (queued_state row.(out_State)) then Err inactive
        else
          attempts ← next_attempt row.(out_Attempts);
          if negb ((0 <? default 0 next) && (0 <? now)) then Err constraint
          else Ok (put_outbox m id (set_outbox_state row "pending" attempts (default 0 next)
                                      reason None))
    | None => Err inactive
    end.

(** ** Activation of a remote dependency *)

Definition remote_reason : string := "remote canonical Gateway receipt validation".

(** One turn of the loop over the states: [UPDATE evidence] and its log row. *)
Definition move_evidence (now : Z) (id : Evidence.ID) (from to : Evidence.State) (c : Store.DB)
    : res error Store.DB :=
  match c.(Store.evidence) !! id with
  | Some record =>
      if record.(Evidence.rec_State) ≠?= from then Err inactive
      else if negb (0 <? now) || Store.evidence_observed c id
              || existsb (λ t, match t with (i, f, t', _, _) =>
                   (i =?= id) && (f =?= from) && (t' =?= to) end) c.(Store.evidence_transitions)
      then Err constraint
      else
        let updated := Evidence.mkRecord record.(Evidence.rec_ID) record.(Evidence.rec_Locator)
                         to record.(Evidence.InvalidReason) record.(Evidence.CreatedAt)
                         (Some now) in
        Ok (Store.set_evidence c (<[id := updated]> c.(Store.evidence))
              (c.(Store.evidence_transitions) ++ [(id, from, to, remote_reason, now)]))
  | None => Err inactive
  end.

Record remote_material := mkRemote {
  rm_From : TrustNode;
  rm_To : TrustNode;
  rm_Witness : MembershipWitness;
  rm_Edge : TrustEdge
}.

(** The node of an observation. *)
Definition observed_node (o : RemoteValidator.ValidatedTrustRootObservation) : TrustNode :=
  NewTrustNode keccak256
    (mkNodeKey o.(RemoteValidator.vo_ChainID) o.(RemoteValidator.vo_Height)
       o.(RemoteValidator.vo_BlockHash))
    o.(RemoteValidator.vo_TrustRoot) o.(RemoteValidator.vo_EvidenceID).

(** What [Activate] computes and tests before its transaction. *)
Definition remote_materials (validation : RemoteValidator.RemoteDependencyValidation)
    : res error remote_material :=
  let record := validation.(RemoteValidator.val_Record) in
  let locator := record.(Evidence.rec_Locator) in
  let d := validation.(RemoteValidator.val_Dependency) in
  let siblings := validation.(RemoteValidator.WitnessSiblings) in
  if (record.(Evidence.rec_State) ≠?= Evidence.Candidate)
     || (record.(Evidence.InvalidReason) ≠?= "") || (zlen siblings <? 1)
     || (Merkle.MaxTreeDepth <? zlen siblings)
     || (validation.(RemoteValidator.val_PathStepCostGas) =? 0)
  then Err binding
  else if match Evidence.ComputeID keccak256 locator with
          | Ok want => want ≠?= record.(Evidence.rec_ID)
          | Err _ => true
          end
  then Err binding
  else
    let dependency := NewVerifiedDependency keccak256 d.(ChainABI.dr_RequestID)
      d.(ChainABI.dr_SourceChainID) d.(ChainABI.dr_SourceHeight)
      d.(ChainABI.dr_SourceBlockHash) d.(ChainABI.dr_SourceTrustRoot)
      d.(ChainABI.dr_LeafIndex) record.(Evidence.rec_ID) in
    let home := validation.(RemoteValidator.HomeObservation) in
    let source := validation.(RemoteValidator.SourceObservation) in
    let from := observed_node home in
    let to := observed_node source in
    if dependency.(dep_DependencyKey) ≠?= d.(ChainABI.dr_DependencyKey) then Err binding
    else if (validation.(RemoteValidator.val_HomeTrustRoot) ≠?= from.(node_Root))
       || (from.(node_Key).(key_ChainID) ≠?= locator.(Evidence.ChainID))
       || (from.(node_Key).(key_Height) ≠?= locator.(Evidence.BlockNumber))
       || (from.(node_Key).(key_BlockHash) ≠?= locator.(Evidence.BlockHash))
       || (to.(node_Key).(key_ChainID) ≠?= dependency.(dep_SourceChainID))
       || (to.(node_Key).(key_Height) ≠?= dependency.(dep_SourceHeight))
       || (to.(node_Key).(key_BlockHash) ≠?= dependency.(dep_SourceBlockHash))
       || (to.(node_Root) ≠?= dependency.(dep_SourceTrustRoot))
    then Err binding
    else if negb (is_ok (VerifiedDependency_Validate keccak256 dependency to
                           locator.(Evidence.PayloadDigest)))
    then Err binding
    else
      let witness := NewMembershipWitness keccak256 record.(Evidence.rec_ID)
        dependency.(dep_LeafIndex) siblings in
      let leaf := LeafHash keccak256 dependency.(dep_SourceTrustRoot)
        dependency.(dep_SourceBlockHash) in
      if match Merkle.RootFromWitness keccak256 leaf witness.(witness_LeafIndex)
                 witness.(witness_Siblings) (zlen witness.(witness_Siblings)) with
         | Ok root => root ≠?= from.(node_Root)
         | Err _ => true
         end
      then Err binding
      else
        edge ← map_err (λ e, ErrStore (Store.ErrTrustView e))
          (NewTrustEdge keccak256 from.(node_ID) to.(node_ID) record.(Evidence.rec_ID)
             dependency.(dep_LeafIndex) (Some witness.(witness_ID))
             validation.(RemoteValidator.val_PathStepCostGas));
        Ok (mkRemote from to witness edge).

(** Candidate evidence becomes active in three steps. *)
Definition activate_evidence (now : Z) (record : Evidence.EvidenceRecord) (c : Store.DB)
    : res error (bool * Store.DB) :=
  if record.(Evidence.rec_State) =?= Evidence.Candidate then
    let id := record.(Evidence.rec_ID) in
    c1 ← move_evidence now id Evidence.Candidate Evidence.Verified c;
    c2 ← move_evidence now id Evidence.Verified Evidence.Confirmed c1;
    c3 ← move_evidence now id Evidence.Confirmed Evidence.Active c2;
    Ok (true, c3)
  else Ok (false, c).

(** The row of the message and the evidence it points to. *)
Definition activation_rows (messageID : Hash)
    (validation : RemoteValidator.RemoteDependencyValidation) (db : Database)
    : res error (InboxRow * Evidence.EvidenceRecord) :=
  let want := validation.(RemoteValidator.val_Record) in
  match db.(mail).(evidence_inbox) !! messageID with
  | None => Err binding
  | Some row =>
      if (row.(in_EvidenceID) ≠?= want.(Evidence.rec_ID)) || (row.(in_State) =?= InboxInvalid)
      then Err binding
      else
        match db.(core).(Store.evidence) !! want.(Evidence.rec_ID) with
        | None => Err binding
        | Some record =>
            if (record.(Evidence.rec_Locator) ≠?= want.(Evidence.rec_Locator))
               || ((record.(Evidence.rec_State) ≠?= Evidence.Candidate)
                   && (record.(Evidence.rec_State) ≠?= Evidence.Active))
            then Err binding else Ok (row, record)
        end
  end.

Definition Activate (now : Z) (messageID : Hash)
    (validation : RemoteValidator.RemoteDependencyValidation) (db : Database)
    : res error (bool * Database) :=
  remote ← remote_materials validation;
  '(row, record) ← activation_rows messageID validation db;
  _ ← verifyActiveNodeContent db.(core) remote.(rm_From);
  _ ← verifyActiveNodeContent db.(core) remote.(rm_To);
  '(activated, c1) ← activate_evidence now record db.(core);
  '(proven, c2) ← insert_witness remote.(rm_Witness) c1;
  '(edgeChanged, c3) ← map_err ErrStore (mergeTrustEdge remote.(rm_Edge) c2);
  c4 ← (if (edgeChanged : bool) then map_err ErrStore (bumpGraphRevision c3) else Ok c3);
  m ← (if row.(in_State) ≠?= InboxValidated then MarkValidated now messageID db.(mail)
       else Ok db.(mail));
  Ok (activated || proven || edgeChanged, set_core (set_mail db m) c4).
End Peers.
(** ** Lemmas: moves of evidence *)

Section Moves.
Context (keccak256 : bytes → Hash).

(** What the moves of the mailboxes do to the core tables: evidence only. *)
Record evidence_moved (c c' : Store.DB) : Prop := {
  em_good : System.good keccak256 c c';
  em_only : ∃ m l, c' = Store.set_evidence c m l;
  em_rows id r : c.(Store.evidence) !! id = Some r →
    ∃ r', c'.(Store.evidence) !! id = Some r' ∧ r'.(Evidence.rec_Locator) = r.(Evidence.rec_Locator)
}.

Lemma evidence_moved_refl c : System.db_wf keccak256 c → evidence_moved c c.
Proof.
  intros W. split; [by apply System.good_refl| |by intros id r Hr; exists r].
  exists (Store.evidence c), (Store.evidence_transitions c). by destruct c.
Qed.

Lemma evidence_moved_trans a b c : evidence_moved a b → evidence_moved b c → evidence_moved a c.
Proof.
  intros [G1 (m1 & l1 & ->) R1] [G2 (m2 & l2 & ->) R2].
  split; [by eapply System.good_trans|by exists m2, l2|].
  intros id r (r1 & H1 & E1)%R1. destruct (R2 _ _ H1) as (r2 & H2 & E2). exists r2.
  split; [done|congruence].
Qed.

Lemma evidence_moved_graph c c' : evidence_moved c c' → graph_kept c c'.
Proof.
  intros [[_ R] (m & l & ->) _]. split; try done. intros id r Hr Hs. by apply (System.rm_active _ _ R).
Qed.

Lemma insert_candidate_spec now id locator c r c' :
  System.db_wf keccak256 c → Evidence.ComputeID keccak256 locator = Ok id →
  insert_candidate now id locator c = Ok (r, c') →
  evidence_moved c c' ∧ c'.(Store.evidence) !! id = Some r ∧
  r.(Evidence.rec_Locator) = locator ∧
  (c.(Store.evidence) !! id = Some r ∧ c' = c ∨
   c.(Store.evidence) !! id = None ∧ r.(Evidence.rec_State) = Evidence.Candidate).
Proof.
  intros W Hid. unfold insert_candidate. intros [Hnow%negb_false_iff H]%bind_bool.
  destruct (Store.evidence c !! id) as [old|] eqn:Hold.
  - apply bind_bool in H as [Hl [= <- <-]]. bool_to_prop.
    split_and!; auto using evidence_moved_refl.
  - apply bind_bool in H as [Hl [= <- <-]].
    set (row := Evidence.mkRecord id locator Evidence.Candidate "" (Some now) (Some now)).
    assert (Store.loadByLocator c locator = None) as Hnone
      by (bool_to_prop; by apply eq_None_not_Some).
    assert (Store.ObserveEvidence keccak256 now
      (Evidence.mkRecord id locator Evidence.Candidate "" None None) c
      = Ok (row, true, Store.set_evidence c (<[id:=row]> (Store.evidence c))
                         (Store.evidence_transitions c))) as Hobs.
    { unfold Store.ObserveEvidence. cbn. rewrite Hid. cbn.
      rewrite !bool_decide_eq_true_2 by done. cbn. rewrite Hnow. cbn. by rewrite Hold, Hnone. }
    split; [|cbn; rewrite lookup_insert_eq; split_and!; [done..|by right]].
    split; [by eapply System.observe_evidence_step|by do 2 eexists|].
    intros id' r' Hr'. exists r'. split; [|done]. cbn. rewrite lookup_insert_ne; [done|congruence].
Qed.

(** The rows after one logged step. *)
Lemma transition_moved now id from to at_ reason c r b c' :
  System.db_wf keccak256 c →
  Store.TransitionEvidence now id from to at_ reason c = Ok (r, b, c') → evidence_moved c c'.
Proof.
  intros W H. split; [by eapply System.transition_evidence_step| |];
    apply Store.TransitionEvidence_Ok in H
      as (_ & [(_ & -> & _)|(_ & _ & _ & o & ch & Ho & _ & Hr & _ & ->)]).
  - exists (Store.evidence c), (Store.evidence_transitions c). by destruct c.
  - by do 2 eexists.
  - intros id' r' Hr'. by exists r'.
  - intros id' r' Hr'. cbn. destruct (decide (id = id')) as [<-|Hne].
    + exists r. rewrite lookup_insert_eq. split; [done|]. rewrite Hr. cbn. congruence.
    + exists r'. by rewrite lookup_insert_ne.
Qed.

Lemma step_validates from to reason :
  Evidence.evidence_step from to → reason ≠ "" →
  Evidence.ValidateTransition from to reason = Ok true ∧ from ≠ to.
Proof.
  intros Hs Hr. assert (bool_decide (reason = "") = false) as Hb by by apply bool_decide_eq_false.
  destruct Hs; (split; [|done]); unfold Evidence.ValidateTransition; cbn; by rewrite ?Hb.
Qed.

Lemma move_evidence_spec now id from to c c' :
  System.db_wf keccak256 c → Evidence.evidence_step from to → to ≠ Evidence.Invalid →
  move_evidence now id from to c = Ok c' →
  evidence_moved c c' ∧ ∃ r', c'.(Store.evidence) !! id = Some r' ∧
    r'.(Evidence.rec_State) = to ∧ r'.(Evidence.InvalidReason) = "".
Proof.
  intros W Hs Hto. unfold move_evidence.
  destruct (Store.evidence c !! id) as [r|] eqn:Hr; [|done].
  intros [Hf H]%bind_bool. apply bind_bool in H as [Hc [= <-]]. bool_to_prop.
  destruct (step_validates _ _ remote_reason Hs ltac:(done)) as [Hv Hne].
  assert (Evidence.InvalidReason r = "") as Hre.
  { destruct (decide (Evidence.InvalidReason r = "")) as [?|Hx]; [done|].
    apply (Store.ev_reason _ _ (System.db_evidence _ _ W) _ _ Hr) in Hx.
    assert (from = Evidence.Invalid) as -> by congruence. inversion Hs. }
  assert (∃ r' b, Store.TransitionEvidence now id from to None remote_reason c
    = Ok (r', b, Store.set_evidence c
        (<[id := Evidence.mkRecord (Evidence.rec_ID r) (Evidence.rec_Locator r) to
                   (Evidence.InvalidReason r) (Evidence.CreatedAt r) (Some now)]> (Store.evidence c))
        (Store.evidence_transitions c ++ [(id, from, to, remote_reason, now)]))) as (r' & b & Ht).
  { unfold Store.TransitionEvidence, Store.LoadEvidence. rewrite Hv, Hr.
    cbn [map_err mbind res_mbind res_bind]. rewrite bool_decide_eq_false_2 by congruence.
    rewrite bool_decide_eq_true_2 by done. change (default now None) with now. cbn [negb].
    rewrite (bool_decide_eq_false_2 (to = Evidence.Invalid)) by done.
    match goal with Hx : existsb _ _ = false |- _ => rewrite Hx end.
    match goal with Hx : Store.evidence_observed _ _ = false |- _ => rewrite Hx end.
    rewrite (proj2 (Z.ltb_lt 0 now)) by done. cbn [negb orb]. do 2 eexists. by rewrite Hre. }
  split; [by eapply transition_moved|].
  eexists. cbn. rewrite lookup_insert_eq. split; [done|]. by rewrite Hre.
Qed.

Lemma invalidate_spec now id reason c c' :
  System.db_wf keccak256 c → 0 < now → reason ≠ "" →
  invalidate_candidate now id reason c = Ok c' → evidence_moved c c'.
Proof.
  intros W Hnow Hre. unfold invalidate_candidate.
  destruct (Store.evidence c !! id) as [r|] eqn:Hr; [|intros [= <-]; by apply evidence_moved_refl].
  case_bool_decide as Hst; cbn [negb]; [|intros [= <-]; by apply evidence_moved_refl].
  intros [Hc [= <-]]%bind_bool. apply orb_false_iff in Hc as [Ho Hc].
  eapply (transition_moved now id Evidence.Candidate Evidence.Invalid None reason); [done|].
  destruct (step_validates _ _ reason Evidence.step_reject Hre) as [Hv _].
  unfold Store.TransitionEvidence, Store.LoadEvidence. rewrite Hv, Hr.
  cbn [map_err mbind res_mbind res_bind]. rewrite Hst, Ho, Hc.
  change (default now None) with now. by rewrite (proj2 (Z.ltb_lt 0 now)).
Qed.

Lemma activate_evidence_spec now record c b c' :
  System.db_wf keccak256 c →
  c.(Store.evidence) !! record.(Evidence.rec_ID) = Some record →
  record.(Evidence.rec_State) = Evidence.Candidate ∨ record.(Evidence.rec_State) = Evidence.Active →
  activate_evidence now record c = Ok (b, c') →
  evidence_moved c c' ∧
  active_at c' record.(Evidence.rec_ID) record.(Evidence.rec_Locator) = true ∧
  (b = false → c' = c) ∧
  (b = true → record.(Evidence.rec_State) = Evidence.Candidate).
Proof.
  intros W Hr Hst. unfold activate_evidence.
  case_bool_decide as Hcand.
  - intros (c1 & H1 & (c2 & H2 & (c3 & H3 & [= <- <-])%bind_Ok)%bind_Ok)%bind_Ok.
    apply move_evidence_spec in H1 as [M1 _]; [|done|constructor|done].
    apply move_evidence_spec in H2 as [M2 _]; [|apply M1|constructor|done].
    apply move_evidence_spec in H3 as [M3 (r3 & H3 & S3 & I3)]; [|apply M2|constructor|done].
    assert (evidence_moved c c3) as M by (do 2 (eapply evidence_moved_trans; [done|]); done).
    split_and!; try done. apply active_at_spec. exists r3. split_and!; try done.
    destruct (em_rows _ _ M _ _ Hr) as (r' & Hr' & ->%eq_sym). congruence.
  - destruct Hst as [?|Ha]; [done|]. intros [= <- <-].
    split_and!; [by apply evidence_moved_refl| |done|done].
    apply active_at_spec. exists record. split_and!; try done.
    destruct (decide (Evidence.InvalidReason record = "")) as [?|Hx]; [done|].
    apply (Store.ev_reason _ _ (System.db_evidence _ _ W) _ _ Hr) in Hx.
    by rewrite Ha in Hx.
Qed.
End Moves.

(** ** The promises of the inbox *)

Section Inbox.
Context (keccak256 sha256 : bytes → Hash) (IDFromBytes : bytes → option Envelope.PeerID).
Context (peer_String : Envelope.PeerID → string).

(** The state of a message, the reason beside it and its evidence. *)
Definition settled (row : InboxRow) (evidence : Evidence.EvidenceRecord) : Prop :=
  (open_state row.(in_State) = true ∧ row.(in_InvalidReason) = "") ∨
  (row.(in_State) = InboxValidated ∧ row.(in_InvalidReason) = "" ∧
   evidence.(Evidence.rec_State) = Evidence.Active) ∨
  (row.(in_State) = InboxInvalid ∧ row.(in_InvalidReason) ≠ "").

(** A stored message is the canonical encoding of a message of its origin; its
    evidence is stored under the content address of its locator. *)
Definition received (c : Store.DB) (id : Hash) (row : InboxRow) : Prop :=
  ∃ envelope evidence,
    Envelope.in_range envelope ∧ envelope.(Envelope.MessageID) = id ∧
    Envelope.MarshalBinary IDFromBytes sha256 envelope = Ok row.(in_Envelope) ∧
    row.(in_Origin) = peer_String envelope.(Envelope.OriginPeer) ∧
    Evidence.ComputeID keccak256 (Envelope.envelope_Locator envelope) = Ok row.(in_EvidenceID) ∧
    c.(Store.evidence) !! row.(in_EvidenceID) = Some evidence ∧
    evidence.(Evidence.rec_Locator) = Envelope.envelope_Locator envelope ∧
    settled row evidence.

Definition inbox_wf (c : Store.DB) (m : MailTables) : Prop :=
  ∀ id row, m.(evidence_inbox) !! id = Some row → received c id row.

(** What an inbox never forgets: a message, its evidence and origin, and a
    final verdict. *)
Definition inbox_kept (m m' : MailTables) : Prop :=
  m'.(evidence_outbox) = m.(evidence_outbox) ∧
  m'.(evidence_ingress_rejections) = m.(evidence_ingress_rejections) ∧
  ∀ id row, m.(evidence_inbox) !! id = Some row →
    ∃ row', m'.(evidence_inbox) !! id = Some row' ∧
      row'.(in_Envelope) = row.(in_Envelope) ∧ row'.(in_EvidenceID) = row.(in_EvidenceID) ∧
      row'.(in_Origin) = row.(in_Origin) ∧ row'.(in_ReceivedAt) = row.(in_ReceivedAt) ∧
      row.(in_Attempts) ≤ row'.(in_Attempts) ∧
      (open_state row.(in_State) = false → row' = row).

#[export] Instance inbox_kept_preorder : PreOrder inbox_kept.
Proof.
  split.
  - intros m. split_and!; try done. intros id row Hr. exists row. by split_and!.
  - intros a b c (O1 & R1 & K1) (O2 & R2 & K2). split_and!; [congruence..|].
    intros id row (r1 & H1 & E1 & E2 & E3 & E4 & E5 & E6)%K1.
    destruct (K2 _ _ H1) as (r2 & H2 & F1 & F2 & F3 & F4 & F5 & F6).
    exists r2. split_and!; try congruence; [lia|].
    intros Ho. specialize (E6 Ho) as ->. auto.
Qed.

Lemma received_mono c c' id row :
  System.good keccak256 c c' →
  (∀ i r, c.(Store.evidence) !! i = Some r →
     ∃ r', c'.(Store.evidence) !! i = Some r' ∧ r'.(Evidence.rec_Locator) = r.(Evidence.rec_Locator)) →
  received c id row → received c' id row.
Proof.
  intros [_ R] Hrows (e & ev & H1 & H2 & H3 & H4 & H5 & H6 & H7 & H8).
  destruct (Hrows _ _ H6) as (ev' & Hev' & Hl). exists e, ev'.
  split_and!; try done; [congruence|].
  destruct H8 as [?|[(? & ? & Ha)|?]]; [by left| |by right; right].
  right; left. split_and!; try done.
  pose proof (System.rm_active _ _ R _ _ H6 Ha) as Hx. congruence.
Qed.

(** A message is stored or gets a new state. *)
Lemma put_inbox_wf c m id row :
  inbox_wf c m → received c id row → inbox_wf c (put_inbox m id row).
Proof. intros W Hr id' row'. cbn. intros [[<- <-]|[_ ?]]%lookup_insert_Some; [done|by apply W]. Qed.

Lemma put_inbox_kept m id row row' :
  m.(evidence_inbox) !! id = Some row → open_state row.(in_State) = true →
  row'.(in_Envelope) = row.(in_Envelope) → row'.(in_EvidenceID) = row.(in_EvidenceID) →
  row'.(in_Origin) = row.(in_Origin) → row'.(in_ReceivedAt) = row.(in_ReceivedAt) →
  row.(in_Attempts) ≤ row'.(in_Attempts) → inbox_kept m (put_inbox m id row').
Proof.
  intros Hr Ho H1 H2 H3 H4 H5. split_and!; [done..|]. intros id' r Hl. cbn.
  destruct (decide (id = id')) as [<-|Hne].
  - assert (r = row) as -> by congruence. exists row'. rewrite lookup_insert_eq. split_and!; try done.
    congruence.
  - exists r. rewrite lookup_insert_ne by done. by split_and!.
Qed.

Lemma next_attempt_Ok a b : next_attempt a = Ok b → b = a + 1.
Proof. unfold next_attempt. destruct (_ <? _); [|done]. by intros [= <-]. Qed.

Lemma open_state_cases state :
  open_state state = true ↔ state = InboxPending ∨ state = InboxRetryable.
Proof. unfold open_state. by rewrite orb_true_iff, !bool_decide_eq_true. Qed.

(** An open message has no verdict. *)
Lemma received_open c id row :
  received c id row → open_state row.(in_State) = true → row.(in_InvalidReason) = "".
Proof.
  intros (e & ev & _ & _ & _ & _ & _ & _ & _ & [[_ ?]|[(Hs & _)|(Hs & _)]])
    Ho%open_state_cases; [done|rewrite Hs in Ho; by destruct Ho..].
Qed.

Lemma received_moves c id row state reason attempts next :
  received c id row →
  (∀ evidence, c.(Store.evidence) !! row.(in_EvidenceID) = Some evidence →
     settled (set_inbox_state row state reason attempts next) evidence) →
  received c id (set_inbox_state row state reason attempts next).
Proof.
  intros (e & ev & H1 & H2 & H3 & H4 & H5 & H6 & H7 & _) Hs. exists e, ev. split_and!; auto.
Qed.

Lemma inbox_MarkRetryable_spec now id reason next c m m' :
  inbox_wf c m → inbox_MarkRetryable now id reason next m = Ok m' →
  inbox_wf c m' ∧ inbox_kept m m'.
Proof.
  intros W. unfold inbox_MarkRetryable. intros [_ H]%bind_bool.
  destruct (evidence_inbox m !! id) as [row|] eqn:Hr; [|done].
  apply bind_bool in H as [Ho%negb_false_iff H]. apply bind_Ok in H as (a & ->%next_attempt_Ok & H).
  apply bind_bool in H as [_ [= <-]]. pose proof (W _ _ Hr) as Hrec.
  split; [|apply (put_inbox_kept _ _ row); cbn; done || lia].
  apply put_inbox_wf; [done|]. apply received_moves; [done|]. intros ev _. left. split; [done|].
  cbn. by eapply received_open.
Qed.

Lemma MarkValidated_spec now id c m m' :
  inbox_wf c m → (∀ row, m.(evidence_inbox) !! id = Some row → is_active c row.(in_EvidenceID) = true) →
  MarkValidated now id m = Ok m' →
  inbox_wf c m' ∧ inbox_kept m m' ∧
  ∃ row, m'.(evidence_inbox) !! id = Some row ∧ row.(in_State) = InboxValidated.
Proof.
  intros W Hact. unfold MarkValidated.
  destruct (evidence_inbox m !! id) as [row|] eqn:Hr; [|done].
  intros [Ho%negb_false_iff [_ [= <-]]%bind_bool]%bind_bool. pose proof (W _ _ Hr) as Hrec.
  split; [|split; [apply (put_inbox_kept _ _ row); cbn; done || lia|]].
  - apply put_inbox_wf; [done|]. apply received_moves; [done|]. intros ev Hev. right; left.
    split_and!; try done. destruct (proj1 (is_active_spec _ _) (Hact _ eq_refl)) as (r & Hr' & Hs).
    congruence.
  - eexists. cbn. by rewrite lookup_insert_eq.
Qed.
End Inbox.

(** ** Lemmas: the whole database *)

Section Databases.
Context (keccak256 sha256 : bytes → Hash) (IDFromBytes : bytes → option Envelope.PeerID).
Context (peer_String : Envelope.PeerID → string) (peer_Decode : string → option Envelope.PeerID).

Abbreviation index_ok := (indexed_wf keccak256 sha256 IDFromBytes).
Abbreviation inbox_ok := (inbox_wf keccak256 sha256 IDFromBytes peer_String).

(** A database with its mailboxes. *)
Definition mailed_wf (db : Database) : Prop := index_ok db ∧ inbox_ok db.(core) db.(mail).

(** The core tables move on; the index, and the messages in the outbox, stay. *)
Lemma indexed_core_change db c m :
  index_ok db → System.good keccak256 db.(core) c → graph_kept db.(core) c →
  witnessed keccak256 c → m.(evidence_outbox) = db.(mail).(evidence_outbox) →
  index_ok (set_core (set_mail db m) c).
Proof.
  intros [WC WI WP WO] [W' R] KG WP' Hm. split; cbn [core index mail set_core set_mail]; try done.
  - apply (index_wf_mono db.(core)); [|apply R|exact WI].
    by apply (same_identity_kept _ _ keccak256).
  - intros id row. rewrite Hm. intros Hrow. eapply queued_mono; [reflexivity|exact KG|by apply WO].
Qed.

Lemma moved_indexed db c m :
  index_ok db → evidence_moved keccak256 db.(core) c →
  m.(evidence_outbox) = db.(mail).(evidence_outbox) →
  index_ok (set_core (set_mail db m) c).
Proof.
  intros W M Hm. apply indexed_core_change; try done; [apply M|by eapply evidence_moved_graph|].
  pose proof (evidence_moved_graph _ _ _ M) as KG. destruct M as [_ (mm & l & ->) _].
  intros id e a He. eapply edge_proven_mono; [exact KG|].
  by apply (iw_proven _ _ _ _ W id e a).
Qed.

Lemma moved_inbox c c' m :
  evidence_moved keccak256 c c' → inbox_ok c m → inbox_ok c' m.
Proof.
  intros M W id row Hr. eapply received_mono; [apply M|apply (em_rows _ _ _ M)|by apply W].
Qed.

(** What a transaction of the mailboxes shows; [True] for what it moves. *)
Record mail_effect (db db' : Database) : Prop := {
  ml_wf : mailed_wf db';
  ml_good : System.good keccak256 db.(core) db'.(core);
  ml_graph : graph_kept db.(core) db'.(core);
  ml_inbox : inbox_kept db.(mail) db'.(mail);
  ml_index : db'.(index) = db.(index);
  ml_txs : db'.(txs) = db.(txs)
}.

Lemma ValidateFrom_Ok envelope sender :
  Envelope.ValidateFrom IDFromBytes sha256 envelope sender = Ok tt →
  sender = envelope.(Envelope.OriginPeer) ∧ sender ≠ [].
Proof.
  unfold Envelope.ValidateFrom. intros [H _]%bind_bool. by bool_to_prop.
Qed.

(** A stored message is read back. *)
Lemma scan_stored row envelope :
  (∀ p q, IDFromBytes p = Some q → peer_Decode (peer_String q) = Some q) →
  Envelope.in_range envelope →
  Envelope.MarshalBinary IDFromBytes sha256 envelope = Ok row.(in_Envelope) →
  row.(in_Origin) = peer_String envelope.(Envelope.OriginPeer) →
  scanInboxItem sha256 IDFromBytes peer_Decode row
  = Ok (mkInboxItem envelope row.(in_EvidenceID) envelope.(Envelope.OriginPeer) row.(in_State)
          row.(in_InvalidReason) row.(in_Attempts) (Some row.(in_NextAttemptAt))).
Proof.
  intros Hpeer Hrange Hm Ho. unfold scanInboxItem.
  rewrite (Envelope.Parse_marshalled IDFromBytes sha256 _ _ Hrange Hm), Ho.
  assert (IDFromBytes (Envelope.OriginPeer envelope) = Some (Envelope.OriginPeer envelope)) as Hid.
  { apply Envelope.MarshalBinary_Ok in Hm as (Hv & _).
    apply Envelope.validateContent_Ok in Hv. tauto. }
  rewrite (Hpeer _ _ Hid). by rewrite bool_decide_eq_true_2.
Qed.
(** ** Lemmas: the operations *)

Lemma put_inbox_fresh m id row :
  m.(evidence_inbox) !! id = None → inbox_kept m (put_inbox m id row).
Proof.
  intros Hn. split_and!; [done..|]. intros id' r Hl. exists r. cbn.
  rewrite lookup_insert_ne by congruence. by split_and!.
Qed.

Record receive_effect (envelope : Envelope.DependencyEvidenceEnvelope) (sender : Envelope.PeerID)
    (db : Database) (record : Evidence.EvidenceRecord) (fresh : bool) (db' : Database) : Prop := {
  re_effect : mail_effect db db';
  re_sender : sender = envelope.(Envelope.OriginPeer);
  re_evidence : ∃ id row,
    Evidence.ComputeID keccak256 (Envelope.envelope_Locator envelope) = Ok id ∧
    db'.(core).(Store.evidence) !! id = Some record ∧
    record.(Evidence.rec_Locator) = Envelope.envelope_Locator envelope ∧
    db'.(mail).(evidence_inbox) !! envelope.(Envelope.MessageID) = Some row ∧
    row.(in_EvidenceID) = id ∧ row.(in_Origin) = peer_String sender ∧
    Envelope.MarshalBinary IDFromBytes sha256 envelope = Ok row.(in_Envelope) ∧
    (fresh = true → row.(in_State) = InboxPending) ∧
    (db.(core).(Store.evidence) !! id = None → record.(Evidence.rec_State) = Evidence.Candidate);
  re_known : fresh = false → db' = db;
  re_again now' : 0 < now' →
    Receive keccak256 sha256 IDFromBytes peer_String now' envelope sender db' = Ok (record, false, db')
}.

Lemma Receive_again now envelope sender db id row record encoded :
  Envelope.ValidateFrom IDFromBytes sha256 envelope sender = Ok tt →
  Envelope.MarshalBinary IDFromBytes sha256 envelope = Ok encoded →
  Evidence.ComputeID keccak256 (Envelope.envelope_Locator envelope) = Ok id →
  db.(core).(Store.evidence) !! id = Some record →
  record.(Evidence.rec_Locator) = Envelope.envelope_Locator envelope →
  db.(mail).(evidence_inbox) !! envelope.(Envelope.MessageID) = Some row →
  row.(in_Envelope) = encoded → row.(in_EvidenceID) = id → row.(in_Origin) = peer_String sender →
  peer_length_ok (peer_String sender) = true → 0 < now →
  Receive keccak256 sha256 IDFromBytes peer_String now envelope sender db = Ok (record, false, db).
Proof.
  intros H1 H2 H3 H4 H5 H6 H7 H8 H9 H10 H11. unfold Receive.
  rewrite H1, H2, H3. cbn [map_err mbind res_mbind res_bind]. unfold insert_candidate.
  rewrite (proj2 (Z.ltb_lt 0 now) H11), H4, H5. cbn [negb]. rewrite bool_decide_eq_true_2 by done.
  cbn [negb mbind res_mbind res_bind in_Origin]. rewrite H10, H6, H7, H8, H9. cbn [negb].
  rewrite !bool_decide_eq_true_2 by done. cbn [negb orb]. by destruct db.
Qed.

Lemma Receive_effect now envelope sender db record fresh db' :
  mailed_wf db → Envelope.in_range envelope →
  Receive keccak256 sha256 IDFromBytes peer_String now envelope sender db
    = Ok (record, fresh, db') →
  receive_effect envelope sender db record fresh db'.
Proof.
  intros [WI WM] Hrange H. unfold Receive in H.
  apply bind_Ok in H as ([] & Hfrom%map_err_Ok & H).
  apply bind_Ok in H as (encoded & Henc%map_err_Ok & H).
  apply bind_Ok in H as (id & Hid%map_err_Ok & H).
  apply bind_Ok in H as ([r c] & Hcand & H). apply bind_bool in H as [Hlen%negb_false_iff H].
  pose proof (ValidateFrom_Ok _ _ Hfrom) as [Hsender _].
  destruct (insert_candidate_spec _ _ _ _ _ _ _ (iw_core _ _ _ _ WI) Hid Hcand)
    as (M & Hr & Hl & Hcases).
  pose proof (moved_inbox _ _ _ M WM) as WM'. cbn [in_Origin] in Hlen.
  destruct (evidence_inbox (mail db) !! Envelope.MessageID envelope) as [row|] eqn:Hrow.
  - apply bind_bool in H as [Hc [= <- <- <-]]. bool_to_prop.
    assert (c = core db) as ->.
    { destruct Hcases as [[_ ->]|[Hn _]]; [done|].
      destruct (WM _ _ Hrow) as (? & ev & _ & _ & _ & _ & _ & Hev & _). congruence. }
    assert (set_core db (core db) = db) as -> by (by destruct db).
    split; try done.
    + split; try done; [by apply System.good_refl, WI].
    + exists id, row. split_and!; try done; [congruence|].
      intros Hn. congruence.
    + intros now' Hnow. by eapply Receive_again.
  - injection H as <- <- <-. set (row := mkInboxRow id _ encoded _ _ _ _ _).
    assert (received keccak256 sha256 IDFromBytes peer_String c (Envelope.MessageID envelope) row)
      as Hrec.
    { exists envelope, r. split_and!; try done; [cbn; by rewrite Hsender|by left]. }
    split; try done.
    + split; try done; [|apply M|by eapply evidence_moved_graph|by apply put_inbox_fresh].
      split; [by apply moved_indexed|]. by apply put_inbox_wf.
    + exists id, row. cbn. rewrite lookup_insert_eq. split_and!; try done.
      intros Hn. destruct Hcases as [[? _]|[_ ?]]; [congruence|done].
    + intros now' Hnow. eapply (Receive_again _ _ _ _ id row); try done. cbn. by rewrite lookup_insert_eq.
Qed.
Lemma MarkInvalid_effect now id reason db db' :
  mailed_wf db → MarkInvalid now id reason db = Ok db' →
  mail_effect db db' ∧ ∃ row, db'.(mail).(evidence_inbox) !! id = Some row ∧
    row.(in_State) = InboxInvalid ∧
    ∀ record, db'.(core).(Store.evidence) !! row.(in_EvidenceID) = Some record →
      db.(mail).(evidence_inbox) !! id ≠ Some row → record.(Evidence.rec_State) ≠ Evidence.Candidate.
Proof.
  intros [WI WM]. unfold MarkInvalid. intros [Hre H]%bind_bool.
  destruct (evidence_inbox (mail db) !! id) as [row|] eqn:Hrow; [|done].
  apply bind_bool in H as [Hval H].
  destruct (bool_decide (in_State row = InboxInvalid)) eqn:Hinv.
  { injection H as <-. apply bool_decide_eq_true in Hinv. split.
    - split; try done. by apply System.good_refl, WI.
    - exists row. by split_and!. }
  apply bind_Ok in H as (a & ->%next_attempt_Ok & H). apply bind_bool in H as [Hok%negb_false_iff H].
  apply bind_Ok in H as (c & Hc & [= <-]). bool_to_prop.
  pose proof Hc as Hrec%(invalidate_spec keccak256); [|apply WI|done|done]. rename Hrec into M.
  pose proof (WM _ _ Hrow) as Hrcv.
  assert (open_state (in_State row) = true) as Hopen.
  { destruct Hrcv as (? & ? & _ & _ & _ & _ & _ & _ & _ & [[? _]|[[? _]|[? _]]]); done. }
  split.
  - split; try done; [|apply M|by eapply evidence_moved_graph
      |apply (put_inbox_kept _ _ row); cbn; done || lia].
    split; [by apply moved_indexed|]. apply put_inbox_wf; [by eapply moved_inbox|].
    apply received_moves; [by eapply received_mono; [apply M|apply (em_rows _ _ _ M)|]|].
    intros ev _. right; right. split; [done|]. cbn. done.
  - eexists. cbn. rewrite lookup_insert_eq. split_and!; [done|done|]. cbn. intros record Hrec _ Hst.
    unfold invalidate_candidate in Hc.
    destruct (Store.evidence (core db) !! in_EvidenceID row) as [old|] eqn:Hold.
    + destruct (bool_decide (Evidence.rec_State old = Evidence.Candidate)) eqn:Ho; cbn [negb] in Hc.
      * apply bind_bool in Hc as [_ [= <-]]. cbn in Hrec. rewrite lookup_insert_eq in Hrec.
        by injection Hrec as <-.
      * injection Hc as <-. apply bool_decide_eq_false in Ho. congruence.
    + injection Hc as <-. congruence.
Qed.

Lemma inbox_only_effect db m :
  mailed_wf db → inbox_ok db.(core) m → inbox_kept db.(mail) m → mail_effect db (set_mail db m).
Proof.
  intros [WI WM] W' K. split; try done; [|by apply System.good_refl, WI].
  split; [|done].
  apply (indexed_core_change db db.(core) m WI); [by apply System.good_refl, WI|done|apply WI|apply K].
Qed.

(** Refused messages are kept once each. *)
Lemma RejectProvenance_spec rejection m b m' :
  RejectProvenance peer_String peer_Decode rejection m = Ok (b, m') →
  m'.(evidence_inbox) = m.(evidence_inbox) ∧ m'.(evidence_outbox) = m.(evidence_outbox) ∧
  m.(evidence_ingress_rejections) ⊆ m'.(evidence_ingress_rejections) ∧
  is_Some (m'.(evidence_ingress_rejections) !! rejection.(Envelope.RejectionID)) ∧
  rejection.(Envelope.ActualOrigin) ≠ rejection.(Envelope.ClaimedOrigin) ∧
  (b = false → m' = m).
Proof.
  unfold RejectProvenance. intros [Hb H]%bind_bool. apply bind_bool in H as [_ H]. bool_to_prop.
  destruct (evidence_ingress_rejections m !! _) as [row|] eqn:Hrow.
  - destruct (LoadIngressRejection _ _ _) as [stored|]; [|done].
    destruct (same_rejection _ _); [|done]. injection H as <- <-. by split_and!.
  - apply bind_bool in H as [_ [= <- <-]]. cbn. rewrite lookup_insert_eq.
    split_and!; try done. by apply insert_subseteq.
Qed.

(** Marking a message of the outbox keeps what it says. *)
Definition outbox_marked (m m' : MailTables) : Prop :=
  m'.(evidence_inbox) = m.(evidence_inbox) ∧
  m'.(evidence_ingress_rejections) = m.(evidence_ingress_rejections) ∧
  ∃ id row row', m.(evidence_outbox) !! id = Some row ∧
    m'.(evidence_outbox) = <[id := row']> m.(evidence_outbox) ∧
    row'.(out_EvidenceID) = row.(out_EvidenceID) ∧ row'.(out_Origin) = row.(out_Origin) ∧
    row'.(out_Envelope) = row.(out_Envelope) ∧ row'.(out_CreatedAt) = row.(out_CreatedAt) ∧
    row'.(out_Attempts) = row.(out_Attempts) + 1 ∧ queued_state row'.(out_State) = true.

Lemma MarkPublished_spec now id next m m' :
  MarkPublished now id next m = Ok m' → outbox_marked m m'.
Proof.
  unfold MarkPublished. intros [_ H]%bind_bool.
  destruct (evidence_outbox m !! id) as [row|] eqn:Hrow; [|done].
  apply bind_bool in H as [_ H]. apply bind_Ok in H as (a & ->%next_attempt_Ok & H).
  apply bind_bool in H as [_ [= <-]]. split_and!; try done. exists id, row. eexists. by split_and!.
Qed.

Lemma outbox_MarkRetryable_spec now id reason next m m' :
  outbox_MarkRetryable now id reason next m = Ok m' → outbox_marked m m'.
Proof.
  unfold outbox_MarkRetryable. intros [_ H]%bind_bool.
  destruct (evidence_outbox m !! id) as [row|] eqn:Hrow; [|done].
  apply bind_bool in H as [_ H]. apply bind_Ok in H as (a & ->%next_attempt_Ok & H).
  apply bind_bool in H as [_ [= <-]]. split_and!; try done. exists id, row. eexists. by split_and!.
Qed.

Lemma outbox_marked_wf db m :
  mailed_wf db → outbox_marked db.(mail) m → mailed_wf (set_mail db m).
Proof.
  intros [[WC WI WP WO] WM] (Hin & _ & id & row & row' & Hrow & Ho & He & _ & Henv & _).
  split.
  - split; try done. cbn. intros id' r'. rewrite Ho. intros [[<- <-]|[_ Hr]]%lookup_insert_Some.
    + destruct (WO _ _ Hrow) as (o & a & l & e & g & H). exists o, a, l, e, g. by rewrite He, Henv.
    + by apply WO.
  - intros id' r'. cbn. rewrite Hin. apply WM.
Qed.
(** ** Lemmas: activation *)

Record remote_ok (v : RemoteValidator.RemoteDependencyValidation) (r : remote_material) : Prop := {
  ro_id : Evidence.ComputeID keccak256 v.(RemoteValidator.val_Record).(Evidence.rec_Locator)
          = Ok v.(RemoteValidator.val_Record).(Evidence.rec_ID);
  ro_edge : TrustEdge_Validate keccak256 r.(rm_Edge) = Ok tt;
  ro_edge_evidence : r.(rm_Edge).(edge_EvidenceID) = v.(RemoteValidator.val_Record).(Evidence.rec_ID);
  ro_evidence : r.(rm_Witness).(witness_EvidenceID) = r.(rm_Edge).(edge_EvidenceID);
  ro_leaf : r.(rm_Witness).(witness_LeafIndex) = r.(rm_Edge).(edge_LeafIndex);
  ro_witness : r.(rm_Witness) = NewMembershipWitness keccak256 r.(rm_Witness).(witness_EvidenceID)
                 r.(rm_Witness).(witness_LeafIndex) r.(rm_Witness).(witness_Siblings);
  ro_siblings : r.(rm_Witness).(witness_Siblings) ≠ [];
  ro_from : r.(rm_Edge).(edge_From) = r.(rm_From).(node_ID);
  ro_to : r.(rm_Edge).(edge_To) = r.(rm_To).(node_ID);
  ro_home : r.(rm_From).(node_Key).(key_ChainID)
            = v.(RemoteValidator.HomeObservation).(RemoteValidator.vo_ChainID);
  ro_source : r.(rm_To).(node_Key).(key_ChainID)
              = v.(RemoteValidator.SourceObservation).(RemoteValidator.vo_ChainID);
  ro_proof : Merkle.RootFromWitness keccak256
      (LeafHash keccak256 r.(rm_To).(node_Root) r.(rm_To).(node_Key).(key_BlockHash))
      r.(rm_Witness).(witness_LeafIndex) r.(rm_Witness).(witness_Siblings)
      (zlen r.(rm_Witness).(witness_Siblings)) = Ok r.(rm_From).(node_Root)
}.

Lemma remote_materials_Ok v r : remote_materials keccak256 v = Ok r → remote_ok v r.
Proof.
  unfold remote_materials. cbn zeta. intros [H1 H]%bind_bool. apply bind_bool in H as [H2 H].
  apply bind_bool in H as [H3 H]. apply bind_bool in H as [H4 H]. apply bind_bool in H as [H5 H].
  apply bind_bool in H as [H6 H]. apply bind_Ok in H as (edge & He%map_err_Ok & [= <-]).
  destruct (Evidence.ComputeID _ _) as [want|] eqn:Hid; [|done].
  destruct (Merkle.RootFromWitness _ _ _ _ _) as [root|] eqn:Hroot; [|done].
  bool_to_prop. unfold NewTrustEdge in He. apply bind_bool in He as [He [= <-]].
  subst. cbn in *. split; cbn; try done.
  - unfold TrustEdge_Validate, NewTrustEdge. cbn. rewrite He. cbn. by rewrite bool_decide_eq_true_2.
  - intros Hn. by rewrite Hn in *.
  - rewrite <-Hroot. f_equal. f_equal; congruence.
Qed.
Lemma activation_rows_Ok messageID v db row record :
  activation_rows messageID v db = Ok (row, record) →
  db.(mail).(evidence_inbox) !! messageID = Some row ∧
  row.(in_EvidenceID) = v.(RemoteValidator.val_Record).(Evidence.rec_ID) ∧
  row.(in_State) ≠ InboxInvalid ∧
  db.(core).(Store.evidence) !! v.(RemoteValidator.val_Record).(Evidence.rec_ID) = Some record ∧
  record.(Evidence.rec_Locator) = v.(RemoteValidator.val_Record).(Evidence.rec_Locator) ∧
  (record.(Evidence.rec_State) = Evidence.Candidate ∨ record.(Evidence.rec_State) = Evidence.Active).
Proof.
  unfold activation_rows.
  destruct (evidence_inbox (mail db) !! messageID) as [row'|]; [|done].
  intros [H1 H]%bind_bool. destruct (Store.evidence (core db) !! _) as [r|]; [|done].
  apply bind_bool in H as [H2 [= <- <-]]. apply orb_false_iff in H1 as [H1 H3].
  apply orb_false_iff in H2 as [H2 H4]. apply andb_false_iff in H4. bool_to_prop.
  split_and!; try done.
  destruct H4 as [H4|H4]; apply negb_false_iff, bool_decide_eq_true in H4; auto.
Qed.

Record activate_effect (messageID : Hash) (v : RemoteValidator.RemoteDependencyValidation)
    (r : remote_material) (db : Database) (changed : bool) (db' : Database) : Prop := {
  ae_effect : mail_effect db db';
  ae_active : active_at db'.(core) v.(RemoteValidator.val_Record).(Evidence.rec_ID)
                v.(RemoteValidator.val_Record).(Evidence.rec_Locator) = true;
  ae_edge : db'.(core).(Store.trust_edges) !! r.(rm_Edge).(edge_ID)
            = Some (stored_edge r.(rm_Edge), true);
  ae_proven : edge_proven keccak256 db'.(core) (stored_edge r.(rm_Edge));
  ae_revision : if changed then db.(core).(Store.revision) < db'.(core).(Store.revision)
                else db'.(core) = db.(core);
  ae_validated : ∃ row, db'.(mail).(evidence_inbox) !! messageID = Some row ∧
    row.(in_State) = InboxValidated;
  ae_again now' : Activate keccak256 now' messageID v db' = Ok (false, db')
}.

(** The graph after the witness and the edge, with the revision moved. *)
Lemma activation_good now record r c c1 c2 c3 c4 activated proven edgeChanged :
  System.db_wf keccak256 c → witnessed keccak256 c →
  c.(Store.evidence) !! record.(Evidence.rec_ID) = Some record →
  record.(Evidence.rec_State) = Evidence.Candidate ∨ record.(Evidence.rec_State) = Evidence.Active →
  verifyActiveNodeContent c r.(rm_From) = Ok tt → verifyActiveNodeContent c r.(rm_To) = Ok tt →
  r.(rm_From).(node_Key).(key_ChainID) ≠ r.(rm_To).(node_Key).(key_ChainID) →
  (∃ v, remote_ok v r ∧ v.(RemoteValidator.val_Record).(Evidence.rec_ID) = record.(Evidence.rec_ID)) →
  activate_evidence now record c = Ok (activated, c1) →
  insert_witness r.(rm_Witness) c1 = Ok (proven, c2) →
  mergeTrustEdge r.(rm_Edge) c2 = Ok (edgeChanged, c3) →
  (if edgeChanged then map_err ErrStore (bumpGraphRevision c3) else Ok c3) = Ok c4 →
  let changed := activated || proven || edgeChanged in
  System.good keccak256 c c4 ∧ graph_kept c c4 ∧ witnessed keccak256 c4 ∧
  active_at c4 record.(Evidence.rec_ID) record.(Evidence.rec_Locator) = true ∧
  c4.(Store.trust_edges) !! r.(rm_Edge).(edge_ID) = Some (stored_edge r.(rm_Edge), true) ∧
  (∃ w, c4.(Store.membership_witnesses) !! r.(rm_Edge).(edge_EvidenceID) = Some w ∧
     w.(witness_ID) = r.(rm_Witness).(witness_ID)) ∧
  (if changed then c.(Store.revision) < c4.(Store.revision) else c4 = c) ∧
  (∀ id rec, c.(Store.evidence) !! id = Some rec → ∃ rec', c4.(Store.evidence) !! id = Some rec' ∧
     rec'.(Evidence.rec_Locator) = rec.(Evidence.rec_Locator)).
Proof.
  intros W WP Hrec Hst Hf Ht Hne (v & RO & Hvid) Hact Hwit Hmerge Hbump. cbn zeta.
  destruct (activate_evidence_spec keccak256 _ _ _ _ _ W Hrec Hst Hact) as (M & Ha & Hsame & Hcand).
  pose proof (evidence_moved_graph _ _ _ M) as KG1. pose proof (em_good _ _ _ M) as [W1 _].
  apply verify_node_Ok in Hf as [Hf _], Ht as [Ht _].
  pose proof (lookup_weaken _ _ _ _ Hf (gk_nodes _ _ KG1)) as Hf1.
  pose proof (lookup_weaken _ _ _ _ Ht (gk_nodes _ _ KG1)) as Ht1.
  pose proof (t_graph _ _ (System.db_trust _ _ W1)) as WG1.
  rewrite <-(ro_from _ _ RO) in Hf1. rewrite <-(ro_to _ _ RO) in Ht1.
  assert (witnessed keccak256 c1) as WP1.
  { destruct M as [_ (m & l & ->) _]. intros id e a He. eapply edge_proven_mono; [exact KG1|].
    by apply (WP id e a). }
  pose proof (install_spec _ _ _ _ _ _ _ _ _ _ WG1 (ro_edge _ _ RO) Hf1 Ht1 Hne
    (ro_evidence _ _ RO) (ro_leaf _ _ RO) (ro_witness _ _ RO) (ro_siblings _ _ RO) Hwit Hmerge)
    as [IG IK IO IR IN IS IE IW].
  destruct (install_witnessed _ _ _ _ _ _ _ _ _ _ WG1 WP1 Hf1 Ht1 (ro_evidence _ _ RO)
    (ro_leaf _ _ RO) (ro_proof _ _ RO) Hwit Hmerge) as [WP3 ->].
  assert (Store.evidence c3 = Store.evidence c1 ∧
    Store.evidence_transitions c3 = Store.evidence_transitions c1) as [Hev Hlog]
    by (unfold graph_only in IO; rewrite IO; done).
  assert (activated = true → edgeChanged = true) as Hnew.
  { intros ->. destruct edgeChanged; [done|]. specialize (IS eq_refl). subst c3.
    destruct M as [_ (m & l & Hc1) _]. rewrite Hc1 in IE. cbn in IE.
    pose proof (g_edge _ _ (t_graph _ _ (System.db_trust _ _ W)) _ _ _ IE)
      as (_ & _ & _ & _ & Hia & _).
    apply is_active_spec in Hia as (rr & Hrr & Hss). cbn in Hrr.
    rewrite (ro_edge_evidence _ _ RO), Hvid, Hrec in Hrr. injection Hrr as <-.
    rewrite (Hcand eq_refl) in Hss. done. }
  assert (∀ id rec, Store.evidence c !! id = Some rec → ∃ rec',
    Store.evidence c3 !! id = Some rec' ∧ Evidence.rec_Locator rec' = Evidence.rec_Locator rec) as Hrows
    by (rewrite Hev; apply (em_rows _ _ _ M)).
  destruct edgeChanged.
  - rewrite orb_true_r. apply map_err_Ok, bump_Ok in Hbump as [Hlt ->].
    set (c4 := Store.set_graph c3 _ _ _ _).
    assert (graph_kept c c4) as KG by (etransitivity; [exact KG1|]; etransitivity; [exact IK|by split]).
    assert (c.(Store.revision) < c4.(Store.revision)) as Hrev.
    { cbn. rewrite IR. destruct M as [_ (m & l & ->) _]. cbn. lia. }
    split_and!; try done; [|unfold active_at; cbn; rewrite Hev; exact Ha].
    apply System.dependency_change; try done; [| | |apply KG|].
    + apply (System.evidence_wf_frame _ c1); [cbn; congruence..|]. apply W1.
    + pose proof (g_revision _ _ IG). apply set_revision_wf; [lia|done].
    + destruct M as [_ (m & l & Hc1) _]. unfold graph_only in IO.
      rewrite Hc1 in IO. clear -IO. destruct c3, c. cbn in *. injection IO. intros. subst c4. subst. reflexivity.
    + intros id n Hn. by eapply lookup_weaken; [|apply KG].
  - injection Hbump as <-. destruct activated; [by discriminate Hnew|]. cbn [orb].
    rewrite (IS eq_refl), (Hsame eq_refl) in *.
    split_and!; try done; by apply System.good_refl.
Qed.
(** A second activation finds everything in place. *)
Lemma Activate_again now messageID v r db row :
  remote_materials keccak256 v = Ok r → remote_ok v r → index_ok db →
  db.(mail).(evidence_inbox) !! messageID = Some row →
  row.(in_EvidenceID) = v.(RemoteValidator.val_Record).(Evidence.rec_ID) →
  row.(in_State) = InboxValidated →
  verifyActiveNodeContent db.(core) r.(rm_From) = Ok tt →
  verifyActiveNodeContent db.(core) r.(rm_To) = Ok tt →
  active_at db.(core) v.(RemoteValidator.val_Record).(Evidence.rec_ID)
    v.(RemoteValidator.val_Record).(Evidence.rec_Locator) = true →
  db.(core).(Store.trust_edges) !! r.(rm_Edge).(edge_ID) = Some (stored_edge r.(rm_Edge), true) →
  (∃ w, db.(core).(Store.membership_witnesses) !! r.(rm_Edge).(edge_EvidenceID) = Some w ∧
     w.(witness_ID) = r.(rm_Witness).(witness_ID)) →
  Activate keccak256 now messageID v db = Ok (false, db).
Proof.
  intros Hr RO W Hrow Hev Hst Hf Ht (rec & Hrec & Hs & _ & Hl)%active_at_spec He (w & Hw & Hwid).
  unfold Activate. rewrite Hr. cbn [mbind res_mbind res_bind]. unfold activation_rows.
  rewrite Hrow, Hev, Hst, Hrec. rewrite bool_decide_eq_true_2 by done.
  rewrite bool_decide_eq_false_2 by discriminate. cbn [negb orb].
  rewrite Hl, Hs, (bool_decide_eq_true_2 (_ = Evidence.rec_Locator _)) by done.
  rewrite (bool_decide_eq_true_2 (Evidence.Active = Evidence.Active)) by done.
  cbn [negb orb]. rewrite andb_false_r. cbn [mbind res_mbind res_bind]. rewrite Hf, Ht.
  cbn [mbind res_mbind res_bind].
  unfold activate_evidence. rewrite Hs.
  rewrite (bool_decide_eq_false_2 (Evidence.Active = Evidence.Candidate)) by discriminate.
  cbn [mbind res_mbind res_bind].
  destruct (install_again (rm_Witness r) (rm_Edge r) (core db) w (ro_evidence _ _ RO) Hw Hwid He)
    as [Hi Hm].
  rewrite Hi. cbn [mbind res_mbind res_bind]. rewrite Hm. cbn [map_err mbind res_mbind res_bind].
  rewrite Hst, bool_decide_eq_true_2 by done. cbn [negb orb mbind res_mbind res_bind].
  by destruct db.
Qed.

Lemma Activate_effect now messageID v db changed db' :
  mailed_wf db →
  v.(RemoteValidator.SourceObservation).(RemoteValidator.vo_ChainID)
    ≠ v.(RemoteValidator.HomeObservation).(RemoteValidator.vo_ChainID) →
  Activate keccak256 now messageID v db = Ok (changed, db') →
  ∃ r, remote_materials keccak256 v = Ok r ∧ remote_ok v r ∧
    activate_effect messageID v r db changed db'.
Proof.
  intros [WI WM] Hne H. unfold Activate in H. apply bind_Ok in H as (r & Hr & H).
  pose proof (remote_materials_Ok _ _ Hr) as RO. exists r. split; [done|]. split; [done|].
  apply bind_Ok in H as ([row record] & Hrows & H). apply bind_Ok in H as ([] & Hf & H).
  apply bind_Ok in H as ([] & Ht & H). apply bind_Ok in H as ([activated c1] & Hact & H).
  apply bind_Ok in H as ([proven c2] & Hwit & H).
  apply bind_Ok in H as ([edgeChanged c3] & Hmerge%map_err_Ok & H).
  apply bind_Ok in H as (c4 & Hbump & H). apply bind_Ok in H as (m & Hmark & [= <- <-]).
  apply activation_rows_Ok in Hrows as (Hrow & Hev & Hstate & Hrec & Hloc & Hst).
  assert (Evidence.rec_ID record = Evidence.rec_ID (RemoteValidator.val_Record v)) as Hid
    by apply (Store.ev_identity _ _ (System.db_evidence _ _ (iw_core _ _ _ _ WI)) _ _ Hrec).
  destruct (activation_good now record r (core db) c1 c2 c3 c4 activated proven edgeChanged)
    as (G & KG & WP & Ha & He & Hw & Hrev & Hrows);
    [apply WI|apply WI|by rewrite Hid|done|done|done| |by exists v|done|done|done|done|].
  { rewrite (ro_home _ _ RO), (ro_source _ _ RO). by apply not_eq_sym. }
  rewrite Hid, Hloc in Ha.
  assert (inbox_ok c4 (mail db)) as WM4 by (intros id0 r0 Hr0; by eapply received_mono, WM).
  assert (inbox_ok c4 m ∧ inbox_kept (mail db) m ∧ ∃ row', evidence_inbox m !! messageID = Some row' ∧
    in_State row' = InboxValidated ∧ in_EvidenceID row' = in_EvidenceID row) as (WM' & K & row' & Hrow' & Hs' & Hev').
  { case_bool_decide as Hv; cbn [negb] in Hmark.
    - injection Hmark as <-. split; [done|]. split; [done|]. by exists row.
    - pose proof Hmark as (W' & K & row' & Hrow' & Hs')%(MarkValidated_spec keccak256 sha256
        IDFromBytes peer_String now messageID c4); [|done|].
      + split; [done|]. split; [done|]. exists row'. split; [done|]. split; [done|].
        destruct K as (_ & _ & K). destruct (K _ _ Hrow) as (row2 & Hr2 & _ & E & _). congruence.
      + intros row0 Hrow0. assert (row0 = row) as -> by congruence. rewrite Hev.
        apply active_at_spec in Ha as (ra & Hra & Hsa & _). apply is_active_spec. by exists ra. }
  assert (index_ok (set_core (set_mail db m) c4)) as WI'
    by (apply indexed_core_change; [done..|apply K]).
  split; cbn [core mail set_core set_mail]; try done.
  - by apply (WP _ _ true He).
  - by exists row'.
  - intros now'. eapply Activate_again; try done; [by rewrite Hev'|..];
      by eapply verify_node_again.
Qed.
End Databases.

(** ** Lemmas: a validated dependency can be activated *)

(** The next test passes; the parts of a test that passes. *)
#[local] Ltac pass_guard :=
  match goal with |- context [if ?c then Err _ else _] =>
    let H := fresh in assert (c = false) as H; [|rewrite H; clear H] end.

#[local] Ltac false_guard :=
  repeat (apply orb_false_iff; split);
  rewrite ?negb_false_iff, ?bool_decide_eq_true, ?bool_decide_eq_false, ?Z.ltb_ge, ?Z.eqb_neq;
  try done.

Section Validated.
Context (keccak256 : bytes → Hash) (keccak_nonzero : ∀ l, keccak256 l ≠ zero32).

Lemma witness_length leaf index siblings depth root :
  Merkle.RootFromWitness keccak256 leaf index siblings depth = Ok root →
  zlen siblings = depth ∧ 1 ≤ depth ≤ Merkle.MaxTreeDepth.
Proof.
  unfold Merkle.RootFromWitness. intros ([] & Hd & H)%bind_Ok. apply bind_bool in H as [Hl _].
  unfold Merkle.validateDepth in Hd. apply bind_bool in Hd as [Hd _]. bool_to_prop.
  pose proof (zlen_nonneg siblings). lia.
Qed.

Lemma validated_materials config locator v log :
  RemoteValidator.NewRemoteDependencyValidator config = true →
  RemoteValidator.established keccak256 config locator v log →
  let from := observed_node keccak256 v.(RemoteValidator.HomeObservation) in
  let to := observed_node keccak256 v.(RemoteValidator.SourceObservation) in
  from.(node_ID) ≠ to.(node_ID) →
  ∃ r, remote_materials keccak256 v = Ok r ∧ r.(rm_From) = from ∧ r.(rm_To) = to ∧
    r.(rm_Witness).(witness_Siblings) = v.(RemoteValidator.WitnessSiblings) ∧
    r.(rm_Edge).(PathStepCost) = config.(RemoteValidator.cfg_PathStepCostGas).
Proof.
  intros Hc [(id & Hid & Hrec) (Hch & _) (h & rc & item & rh & re & request & res & logs & _ & _ & _
    & Hreq & _ & CB & _) (Hs1 & Hs2 & Hs3 & Hs4 & _) (Hh1 & Hh2 & Hh3 & Hh4 & _) Hcost].
  cbn zeta. intros Hne. destruct CB as [C1 C2 C3 C4 C5].
  destruct Hreq as (_ & _ & _ & _ & _ & Hrid & Hcomp). rewrite C1 in Hrid.
  assert (id ≠ zero32) as Hid0.
  { unfold Evidence.ComputeID in Hid. by apply bind_Ok in Hid as (? & _ & [= <-]). }
  assert (ChainABI.dr_RequestID (RemoteValidator.val_Dependency v) ≠ zero32 ∧
    is_ok (ChainID_Validate (ChainABI.dr_SourceChainID (RemoteValidator.val_Dependency v))) = true)
    as [Hr0 Hsc].
  { unfold Evidence.ComputeGatewayRequestID in Hcomp.
    apply bind_Ok in Hcomp as (? & _ & Hcomp). apply bind_bool in Hcomp as [_ Hcomp].
    apply bind_bool in Hcomp as [_ Hcomp]. apply bind_Ok in Hcomp as (? & _ & Hcomp).
    apply bind_Ok in Hcomp as ([] & Hv%map_err_Ok & Hcomp). apply bind_bool in Hcomp as [_ [= Hx]].
    rewrite <-Hx. split; [done|]. rewrite C2 in Hv. by rewrite Hv. }
  destruct (ChainID_Validate _) as [[]|] eqn:Hval in Hsc; [|done].
  destruct (witness_length _ _ _ _ _ C5) as [Hlen Hdepth].
  assert (RemoteValidator.val_PathStepCostGas v ≠ 0) as Hcost0.
  { rewrite Hcost. unfold RemoteValidator.NewRemoteDependencyValidator in Hc.
    apply andb_true_iff in Hc as [_ Hc]. by bool_to_prop. }
  set (d := RemoteValidator.val_Dependency v) in *.
  assert (VerifiedDependency_Validate keccak256
    (NewVerifiedDependency keccak256 (ChainABI.dr_RequestID d) (ChainABI.dr_SourceChainID d)
       (ChainABI.dr_SourceHeight d) (ChainABI.dr_SourceBlockHash d)
       (ChainABI.dr_SourceTrustRoot d) (ChainABI.dr_LeafIndex d) id)
    (observed_node keccak256 (RemoteValidator.SourceObservation v)) locator.(Evidence.PayloadDigest) = Ok tt)
    as Hdep.
  { unfold VerifiedDependency_Validate. cbn. rewrite !bool_decide_eq_false_2 by done. cbn [orb].
    rewrite Hval, Hs1, Hs2, Hs3, Hs4, <-C4. cbn [map_err mbind res_mbind res_bind].
    rewrite !bool_decide_eq_true_2; try done.
    unfold RemoteValidator.canonicalDependencyPayloadDigest. by rewrite C3. }
  unfold remote_materials. fold d. rewrite Hrec.
  cbn [Evidence.rec_State Evidence.InvalidReason Evidence.rec_Locator Evidence.rec_ID]. cbv zeta.
  pass_guard. { false_guard; cbn; lia. }
  pass_guard. { by rewrite Hid, bool_decide_eq_true_2. }
  pass_guard. { by rewrite C3, bool_decide_eq_true_2. }
  pass_guard. { false_guard; cbn; congruence. }
  pass_guard. { by rewrite Hdep. }
  pass_guard.
  { cbn. rewrite Hlen, C5, Hh4. by rewrite bool_decide_eq_true_2. }
  unfold NewTrustEdge. pass_guard. { false_guard; apply keccak_nonzero. }
  cbn [map_err mbind res_mbind res_bind]. eexists. split; [reflexivity|]. by split_and!.
Qed.
End Validated.

End Mailbox.
