(* ===== verification/ChainReader.v ===== *)
(** * Mapnode/chain: reading a TrustRoot from a chain

    canonical_block.go ([CanonicalBlockReader.Confirmed]), gateway_client.go
    ([GatewayClient], [LoadGatewayDeploymentConfig]) and trust_root_reader.go
    ([TrustRootReader.Observe]): an observation of a TrustRoot is bound to a
    block hash that was canonical and deep enough before and after the root was
    read at that hash.

    The RPC node is the class [TrustRootRPC].  Reading a manifest file and
    decoding its JSON, and [common.IsHexAddress], [HexToAddress] and [FromHex],
    are parameters. *)

From Stdlib Require Import DecimalString Decimal.
From S2P Require Import Prelude Domain Evidence TrustView Reorg Planner PathProof Coordinator.
From S2P Require Import ChainABI Receipt Indexer Store LiveStore.
Import Domain.

Module ChainReader.

Import Store LiveStore.

(** [E] is the error of the RPC client. *)
Inductive error (E : Type) :=
| ErrCanonicalBlockMismatch
| ErrBlockUnconfirmed
| ErrMalformedRPCResponse
| ErrBlockArguments
| ErrHeadHeight (e : Domain.error)
| ErrRemoteChainIDMismatch
| ErrGatewayCodeMismatch
| ErrGatewayABIMismatch (e : ChainABI.error)
| ErrInvalidGatewayManifest (reason : string)
| ErrManifestFile (e : E)
| ErrChain (e : catalog_error)
| ErrDeployment
| ErrObservation (e : TrustView.error)
| ErrRPC (operation : string) (e : E).
Arguments ErrCanonicalBlockMismatch {E}.
Arguments ErrBlockUnconfirmed {E}.
Arguments ErrMalformedRPCResponse {E}.
Arguments ErrBlockArguments {E}.
Arguments ErrHeadHeight {E} e.
Arguments ErrRemoteChainIDMismatch {E}.
Arguments ErrGatewayCodeMismatch {E}.
Arguments ErrGatewayABIMismatch {E} e.
Arguments ErrInvalidGatewayManifest {E} reason.
Arguments ErrManifestFile {E} e.
Arguments ErrChain {E} e.
Arguments ErrDeployment {E}.
Arguments ErrObservation {E} e.
Arguments ErrRPC {E} operation e.

Class TrustRootRPC (S E : Type) := {
  (** [None] asks for the latest header. *)
  reader_HeaderByNumber : option Z → S → res E (option Indexer.Header) * S;
  reader_ChainID : S → res E (option Z) * S;
  reader_CodeAtHash : Address → Hash → S → res E bytes * S;
  reader_CallContractAtHash : Address → bytes → Hash → S → res E bytes * S;
  reader_Now : S → Z * S
}.

(** What the node answered. *)
Inductive answer :=
| SawHeader (number : option Z) (header : option Indexer.Header)
| SawCode (gateway : Address) (blockHash : Hash) (code : bytes)
| SawCall (gateway : Address) (data : bytes) (blockHash : Hash) (result : bytes).

Record CanonicalBlock := mkCanonicalBlock {
  can_Height : BlockHeight;
  can_Hash : Hash;
  can_ParentHash : Hash;
  can_ConfirmedHeadHeight : BlockHeight;
  can_ConfirmedHeadHash : Hash;
  can_Confirmations : Z
}.

Section Reading.
Context (keccak256 : bytes → Hash).
Context {S E : Type} `{RPC : !TrustRootRPC S E}.

Abbreviation R := (M S answer (error E)).

Definition fail {A} (e : error E) : R A := M_fail e.

(** A call of the node and the record of its answer. *)
Definition ask {A} (operation : string) (op : S → res E A * S) (seen : A → answer) : R A :=
  a ← M_call (λ s, let '(r, s') := op s in (map_err (ErrRPC operation) r, s'));
  ((λ s, (Ok a, s, [seen a])) : R A).

Definition read_header (operation : string) (number : option Z) : R (option Indexer.Header) :=
  ask operation (reader_HeaderByNumber number) (SawHeader number).

(** [header == nil || header.Number == nil || header.Number.Cmp(height) != 0 ||
    header.Hash() != expectedHash] *)
Definition header_matches (height : Z) (expectedHash : Hash) (header : option Indexer.Header)
    : bool :=
  match header with
  | None => false
  | Some h => match h.(Indexer.header_Number) with
              | None => false
              | Some n => (n =? height) && (h.(Indexer.header_Hash) =?= expectedHash)
              end
  end.

Definition Confirmed (height : BlockHeight) (expectedHash : Hash) (confirmations : Z)
    : R CanonicalBlock :=
  let number := BlockHeight_BigInt height in
  if (expectedHash =?= zero32) || (confirmations =? 0) then fail ErrBlockArguments
  else
    header ← read_header "read canonical block" (Some number);
    if negb (header_matches number expectedHash header) then fail ErrCanonicalBlockMismatch
    else
      head ← read_header "read canonical head" None;
      match head with
      | None => fail ErrMalformedRPCResponse
      | Some h =>
          match h.(Indexer.header_Number) with
          | None => fail ErrMalformedRPCResponse
          | Some headNumber =>
              if headNumber <? number + confirmations then fail ErrBlockUnconfirmed
              else
                rechecked ← read_header "recheck canonical block" (Some number);
                match rechecked with
                | Some r =>
                    if negb (header_matches number expectedHash rechecked)
                    then fail ErrCanonicalBlockMismatch
                    else
                      headHeight ← M_lift (map_err ErrHeadHeight
                                             (NewBlockHeightFromBig (Some headNumber)));
                      M_ret (mkCanonicalBlock height expectedHash r.(Indexer.header_ParentHash)
                               headHeight h.(Indexer.header_Hash) confirmations)
                | None => fail ErrCanonicalBlockMismatch
                end
          end
      end.

(** ** The Gateway *)

Definition NewGatewayClient (deployment : GatewayDeployment) : res (error E) GatewayDeployment :=
  _ ← map_err (λ _, ErrDeployment) (ChainID_Validate deployment.(gd_ChainID));
  if (deployment.(gd_Address) =?= zero_address) || (deployment.(gd_CodeHash) =?= zero32)
  then Err ErrDeployment else Ok deployment.

Definition CurrentTrustRoot (deployment : GatewayDeployment) (block : CanonicalBlock) : R Hash :=
  chainID ← M_call (λ s, let '(r, s') := reader_ChainID s in
                         (map_err (ErrRPC "read remote chain ID") r, s'));
  if match chainID with
     | None => true
     | Some id => negb (id =? ChainID_BigInt deployment.(gd_ChainID))
     end
  then fail ErrRemoteChainIDMismatch
  else
    code ← ask "read historical Gateway code"
             (reader_CodeAtHash deployment.(gd_Address) block.(can_Hash))
             (SawCode deployment.(gd_Address) block.(can_Hash));
    if (zlen code =? 0) || (keccak256 code ≠?= deployment.(gd_CodeHash))
    then fail ErrGatewayCodeMismatch
    else
      encoded ← ask "call historical currentTrustRoot"
        (reader_CallContractAtHash deployment.(gd_Address) ChainABI.EncodeCurrentTrustRootCall
           block.(can_Hash))
        (SawCall deployment.(gd_Address) ChainABI.EncodeCurrentTrustRootCall block.(can_Hash));
      M_lift (map_err ErrGatewayABIMismatch (ChainABI.DecodeCurrentTrustRootResult encoded)).

(** ** The observation *)

Definition Observe (deployment : GatewayDeployment) (height : BlockHeight) (blockHash : Hash)
    (confirmations : Z) : R TrustView.TrustRootObservation :=
  block ← Confirmed height blockHash confirmations;
  root ← CurrentTrustRoot deployment block;
  block' ← Confirmed height blockHash confirmations;
  observation ← M_lift (map_err ErrObservation
    (TrustView.NewTrustRootObservation keccak256
       (TrustView.mkObservationContent deployment.(gd_ChainID) height blockHash
          deployment.(gd_Address) root deployment.(gd_CodeHash) confirmations
          block'.(can_ConfirmedHeadHeight) block'.(can_ConfirmedHeadHash))));
  now ← M_call (λ s, let '(t, s') := reader_Now s in (Ok t, s'));
  M_ret (TrustView.mkObservation observation.(TrustView.obs_ID)
           observation.(TrustView.obs_Content) (Some now)).
End Reading.

(** ** The manifest of a Gateway *)

(** The fields that are read; a [*uint64] is an option. *)
Record gatewayManifest := mkManifest {
  man_Version : Z;
  man_Status : string;
  man_ChainID : string;
  man_DeploymentBlock : Z;
  man_MerkleDepth : Z;
  man_Gateway : string;
  man_PathStepCostGas : option Z;
  man_CodeHash : string
}.

Record GatewayDeploymentConfig := mkDeploymentConfig {
  gc_Deployment : GatewayDeployment;
  gc_DeploymentBlock : BlockHeight;
  gc_MerkleDepth : Z;
  gc_PathStepCostGas : Z
}.

(** The decimal digits of a number. *)
Definition decimal (z : Z) : string := NilZero.string_of_int (Z.to_int z).

Definition has_hex_prefix (s : string) : bool := String.prefix "0x" s.

Section Manifests.
Context {E : Type} (http_url : string → bool).
Context (read_manifest : string → res (error E) gatewayManifest).
Context (is_hex_address : string → bool) (hex_to_address : string → Address).
Context (from_hex : string → bytes).

(** The manifest names the chain: [SetString] accepts the identifier, and
    printing it gives the same digits. *)
Definition names_chain (entry : LiveChain) (manifest : gatewayManifest) : bool :=
  (manifest.(man_Version) =? 1) && (manifest.(man_Status) =?= "deployed")
  && (manifest.(man_ChainID) =?= decimal (ChainID_BigInt entry.(lc_ChainID))).

Definition LoadGatewayDeploymentConfig (entry : LiveChain)
    : res (error E) GatewayDeploymentConfig :=
  _ ← map_err ErrChain (validateChain http_url entry);
  manifest ← read_manifest entry.(lc_DeploymentManifest);
  if negb (names_chain entry manifest)
  then Err (ErrInvalidGatewayManifest "chain identity mismatch")
  else if (manifest.(man_DeploymentBlock) =? 0) || (manifest.(man_MerkleDepth) =? 0)
          || (32 <? manifest.(man_MerkleDepth)) || negb (is_hex_address manifest.(man_Gateway))
  then Err (ErrInvalidGatewayManifest "incomplete")
  else if match manifest.(man_PathStepCostGas) with
          | Some cost => (cost =? 0) || (MaxInt64 <? cost)
          | None => false
          end
  then Err (ErrInvalidGatewayManifest "pathStepCostGas must be positive and SQLite-safe")
  else
    let decodedHash := from_hex manifest.(man_CodeHash) in
    if negb (zlen decodedHash =? 32) || negb (has_hex_prefix manifest.(man_CodeHash))
    then Err (ErrInvalidGatewayManifest "code hash must be 32 bytes")
    else
      Ok (mkDeploymentConfig
            (mkDeployment entry.(lc_ChainID) (hex_to_address manifest.(man_Gateway))
               (ChainABI.BytesToHash decodedHash))
            (uint256FromUint64 manifest.(man_DeploymentBlock))
            manifest.(man_MerkleDepth) (default 30713 manifest.(man_PathStepCostGas))).

(** The reader of a chain is its deployment; the block beside it. *)
Definition NewTrustRootReaderForChain (entry : LiveChain)
    : res (error E) (GatewayDeployment * BlockHeight) :=
  config ← LoadGatewayDeploymentConfig entry;
  client ← NewGatewayClient (E := E) config.(gc_Deployment);
  Ok (client, config.(gc_DeploymentBlock)).
End Manifests.
(** ** Lemmas *)

Section ReadingLemmas.
Context (keccak256 : bytes → Hash).
Context {S E : Type} `{RPC : !TrustRootRPC S E}.

Lemma ask_answer_Ok {A} operation (op : S → res E A * S) seen s a s' log :
  ask operation op seen s = (Ok a, s', log) → log = [seen a].
Proof.
  unfold ask. by intros (b & s1 & l1 & l2 & [_ ->]%M_call_Ok & [= -> _ <-] & ->)%M_bind_Ok.
Qed.

Lemma header_matches_true number hash header :
  header_matches number hash header = true ↔
  ∃ h, header = Some h ∧ h.(Indexer.header_Number) = Some number ∧ h.(Indexer.header_Hash) = hash.
Proof.
  unfold header_matches. destruct header as [[[n|] hh p]|]; cbn.
  - rewrite andb_true_iff, Z.eqb_eq, bool_decide_eq_true. naive_solver.
  - naive_solver.
  - naive_solver.
Qed.

(** A block at its height, deep enough below the head, and the answers that
    show it. *)
Record confirmed (height : BlockHeight) (hash : Hash) (confirmations : Z) (block : CanonicalBlock)
    (log : list answer) : Prop := {
  co_block : block.(can_Height) = height ∧ block.(can_Hash) = hash ∧
    block.(can_Confirmations) = confirmations;
  co_bound : hash ≠ zero32 ∧ confirmations ≠ 0;
  co_answers : ∃ first head again,
    log = [SawHeader (Some (BlockHeight_BigInt height)) (Some first); SawHeader None (Some head);
           SawHeader (Some (BlockHeight_BigInt height)) (Some again)] ∧
    first.(Indexer.header_Number) = Some (BlockHeight_BigInt height) ∧
    again.(Indexer.header_Number) = Some (BlockHeight_BigInt height) ∧
    first.(Indexer.header_Hash) = hash ∧ again.(Indexer.header_Hash) = hash ∧
    again.(Indexer.header_ParentHash) = block.(can_ParentHash) ∧
    head.(Indexer.header_Hash) = block.(can_ConfirmedHeadHash) ∧
    head.(Indexer.header_Number) = Some (BlockHeight_BigInt block.(can_ConfirmedHeadHeight)) ∧
    BlockHeight_BigInt height + confirmations ≤ BlockHeight_BigInt block.(can_ConfirmedHeadHeight)
}.

Lemma NewBlockHeightFromBig_value n height :
  NewBlockHeightFromBig (Some n) = Ok height → BlockHeight_BigInt height = n.
Proof.
  unfold NewBlockHeightFromBig. intros (e & He & [= <-])%bind_Ok. rewrite uint256FromBig_spec in He.
  destruct (Z.ltb_spec n 0); [done|]. destruct (Z.leb_spec (2 ^ 256) n); [done|].
  injection He as <-. by apply be_value_be_vec32.
Qed.

Lemma Confirmed_Ok height hash confirmations s block s' log :
  Confirmed height hash confirmations s = (Ok block, s', log) →
  confirmed height hash confirmations block log.
Proof.
  unfold Confirmed. intros H. apply M_bind_bool in H as [Harg H]; [|done].
  apply M_bind_Ok in H as (h1 & s1 & l1 & l2 & ->%ask_answer_Ok & H & ->).
  apply M_bind_bool in H as [(f & -> & Hfn & Hfh)%negb_false_iff%header_matches_true H]; [|done].
  apply M_bind_Ok in H as (h2 & s2 & l3 & l4 & ->%ask_answer_Ok & H & ->).
  destruct h2 as [head|]; [|done]. destruct (Indexer.header_Number head) as [hn|] eqn:Hhn; [|done].
  apply M_bind_bool in H as [Hdeep H]; [|done].
  apply M_bind_Ok in H as (h3 & s3 & l5 & l6 & ->%ask_answer_Ok & H & ->).
  destruct h3 as [r|]; [|done].
  apply M_bind_bool in H as [(r' & [= <-] & Hrn & Hrh)%negb_false_iff%header_matches_true H]; [|done].
  apply M_bind_Ok in H as (hh & s4 & l7 & l8 & (Hh%map_err_Ok & -> & ->)%M_lift_Ok & H & ->).
  injection H as <- _ <-. apply NewBlockHeightFromBig_value in Hh. bool_to_prop.
  split; [done|done|]. exists f, head, r. cbn. rewrite Hh. split_and!; try done; lia.
Qed.

Lemma CurrentTrustRoot_Ok deployment block s root s' log :
  CurrentTrustRoot keccak256 deployment block s = (Ok root, s', log) →
  ∃ code encoded,
    log = [SawCode deployment.(gd_Address) block.(can_Hash) code;
           SawCall deployment.(gd_Address) ChainABI.EncodeCurrentTrustRootCall block.(can_Hash)
             encoded] ∧
    code ≠ [] ∧ keccak256 code = deployment.(gd_CodeHash) ∧
    ChainABI.DecodeCurrentTrustRootResult encoded = Ok root.
Proof.
  unfold CurrentTrustRoot. intros (c & s1 & l1 & l2 & [_ ->]%M_call_Ok & H & ->)%M_bind_Ok.
  apply M_bind_bool in H as [_ H]; [|done].
  apply M_bind_Ok in H as (code & s2 & l3 & l4 & ->%ask_answer_Ok & H & ->).
  apply M_bind_bool in H as [Hcode H]; [|done].
  apply M_bind_Ok in H as (enc & s3 & l5 & l6 & ->%ask_answer_Ok & H & ->).
  apply M_lift_Ok in H as (Hr%map_err_Ok & _ & ->). exists code, enc. bool_to_prop.
  split_and!; try done. by intros ->.
Qed.
End ReadingLemmas.

(** ** Properties *)

Section Properties.
Context (keccak256 : bytes → Hash).
Context {S E : Type} `{RPC : !TrustRootRPC S E}.

(** C33. An observation of a TrustRoot is bound to its block: the node showed the
    block at its height with the expected hash and deep enough below its head,
    both before and after the code and the root were read at that very hash;
    the code is the Gateway's, the root is the decoded answer, and the
    observation holds exactly these values with the second head under the
    content address of its fields. *)
Theorem Observe_spec (deployment : GatewayDeployment) (height : BlockHeight) (blockHash : Hash)
    (confirmations : Z) (s s' : S) (o : TrustView.TrustRootObservation) (log : list answer) :
  Observe (E := E) keccak256 deployment height blockHash confirmations s = (Ok o, s', log) →
  ∃ before after block block' code encoded root at_,
    log = before ++ [SawCode deployment.(gd_Address) blockHash code;
                     SawCall deployment.(gd_Address) ChainABI.EncodeCurrentTrustRootCall blockHash
                       encoded] ++ after ∧
    confirmed height blockHash confirmations block before ∧
    confirmed height blockHash confirmations block' after ∧
    code ≠ [] ∧ keccak256 code = deployment.(gd_CodeHash) ∧
    ChainABI.DecodeCurrentTrustRootResult encoded = Ok root ∧
    TrustView.NewTrustRootObservation keccak256 o.(TrustView.obs_Content)
      = Ok (TrustView.mkObservation o.(TrustView.obs_ID) o.(TrustView.obs_Content) None) ∧
    o = TrustView.mkObservation o.(TrustView.obs_ID)
          (TrustView.mkObservationContent deployment.(gd_ChainID) height blockHash
             deployment.(gd_Address) root deployment.(gd_CodeHash) confirmations
             block'.(can_ConfirmedHeadHeight) block'.(can_ConfirmedHeadHash)) (Some at_).
Proof.
  unfold Observe. intros (block & s1 & l1 & l2 & H1%Confirmed_Ok & H & ->)%M_bind_Ok.
  apply M_bind_Ok in H as (root & s2 & l3 & l4 & H2 & H & ->).
  apply M_bind_Ok in H as (block' & s3 & l5 & l6 & H3%Confirmed_Ok & H & ->).
  apply M_bind_Ok in H as (ob & s4 & l7 & l8 & (Ho%map_err_Ok & -> & ->)%M_lift_Ok & H & ->).
  apply M_bind_Ok in H as (at_ & s5 & l9 & l10 & [_ ->]%M_call_Ok & H & ->). injection H as <- _ <-.
  apply CurrentTrustRoot_Ok in H2 as (code & enc & -> & Hc & Hk & Hd).
  destruct (co_block _ _ _ _ _ H1) as (_ & Hh & _). rewrite Hh.
  unfold TrustView.NewTrustRootObservation in Ho. apply bind_Ok in Ho as ([] & Hv & [= <-]).
  exists l1, l5, block, block', code, enc, root, at_. cbn [app].
  split_and!; try done; [by rewrite !app_nil_r|].
  cbn. unfold TrustView.NewTrustRootObservation. by rewrite Hv.
Qed.

(** A node that keeps showing one chain with the block in it. *)
Record honest (deployment : GatewayDeployment) (height : BlockHeight) (blockHash root : Hash)
    (confirmations : Z) : Prop := {
  ho_block : ∃ parent, ∀ s, (reader_HeaderByNumber (E := E) (Some (BlockHeight_BigInt height)) s).1
    = Ok (Some (Indexer.mkHeader (Some (BlockHeight_BigInt height)) blockHash parent));
  ho_head : ∀ s, ∃ number hash parent,
    (reader_HeaderByNumber (E := E) None s).1 = Ok (Some (Indexer.mkHeader (Some number) hash parent)) ∧
    BlockHeight_BigInt height + confirmations ≤ number < 2 ^ 256 ∧ hash ≠ zero32;
  ho_chain : ∀ s, (reader_ChainID (E := E) s).1 = Ok (Some (ChainID_BigInt deployment.(gd_ChainID)));
  ho_code : ∀ s, ∃ code, (reader_CodeAtHash (E := E) deployment.(gd_Address) blockHash s).1 = Ok code ∧
    code ≠ [] ∧ keccak256 code = deployment.(gd_CodeHash);
  ho_call : ∀ s, (reader_CallContractAtHash (E := E) deployment.(gd_Address)
    ChainABI.EncodeCurrentTrustRootCall blockHash s).1 = Ok (vec_to_list root)
}.

Lemma ask_answered {A} operation (op : S → res E A * S) seen s a :
  (op s).1 = Ok a → ∃ s' log, ask operation op seen s = (Ok a, s', log).
Proof.
  intros H. unfold ask, mbind, M_mbind, M_bind, M_call. destruct (op s) as [r s1]. cbn in H.
  subst r. by do 2 eexists.
Qed.

Lemma M_bind_run {A B} (m : M S answer (error E) A) (k : A → M S answer (error E) B) s a s1 l1
    (P : B → Prop) :
  m s = (Ok a, s1, l1) → (∃ b s2 l2, k a s1 = (Ok b, s2, l2) ∧ P b) →
  ∃ b s2 l2, (m ≫= k) s = (Ok b, s2, l2) ∧ P b.
Proof.
  intros Hm (b & s2 & l2 & Hk & Hb). unfold mbind, M_mbind, M_bind. rewrite Hm, Hk. by do 3 eexists.
Qed.

Lemma honest_confirmed deployment height blockHash root confirmations s :
  honest deployment height blockHash root confirmations →
  blockHash ≠ zero32 → confirmations ≠ 0 → 0 ≤ confirmations →
  ∃ block s' log, Confirmed (E := E) height blockHash confirmations s = (Ok block, s', log) ∧
    block.(can_Hash) = blockHash ∧ block.(can_ConfirmedHeadHash) ≠ zero32.
Proof.
  intros [(parent & Hb) Hh _ _ _] Hz Hc Hc0. unfold Confirmed. pose proof (be_value_range height) as Hpos.
  rewrite bool_decide_eq_false_2, (proj2 (Z.eqb_neq _ _)) by done. cbn [orb].
  destruct (ask_answered "read canonical block" _ (SawHeader (Some (BlockHeight_BigInt height))) s _ (Hb s))
    as (s1 & l1 & H1). apply (M_bind_run _ _ _ _ _ _ _ H1).
  cbn [header_matches Indexer.header_Number Indexer.header_Hash].
  rewrite Z.eqb_refl, bool_decide_eq_true_2 by done. cbn [andb negb].
  destruct (Hh s1) as (n & hash & p & Hn & Hdeep & Hhz).
  destruct (ask_answered "read canonical head" _ (SawHeader None) s1 _ Hn) as (s2 & l2 & H2).
  apply (M_bind_run _ _ _ _ _ _ _ H2). cbn [Indexer.header_Number].
  rewrite (proj2 (Z.ltb_ge _ _)) by lia.
  destruct (ask_answered "recheck canonical block" _ (SawHeader (Some (BlockHeight_BigInt height))) s2 _ (Hb s2))
    as (s3 & l3 & H3). apply (M_bind_run _ _ _ _ _ _ _ H3).
  cbn [header_matches Indexer.header_Number Indexer.header_Hash].
  rewrite Z.eqb_refl, bool_decide_eq_true_2 by done. cbn [andb negb].
  assert (NewBlockHeightFromBig (Some n) = Ok (be_vec 32 n)) as Hbig.
  { unfold NewBlockHeightFromBig. rewrite uint256FromBig_spec.
    unfold BlockHeight_BigInt in Hdeep.
    by rewrite (proj2 (Z.ltb_ge _ _)), (proj2 (Z.leb_gt _ _)) by lia. }
  eapply M_bind_run; [unfold M_lift; rewrite Hbig; reflexivity|]. by do 3 eexists.
Qed.

Lemma honest_root deployment height blockHash root confirmations block s1 :
  honest deployment height blockHash root confirmations → block.(can_Hash) = blockHash →
  ∃ s2 l2, CurrentTrustRoot (E := E) keccak256 deployment block s1 = (Ok root, s2, l2).
Proof.
  intros [_ _ Hid' Hcode' Hcall] Hbh.  unfold CurrentTrustRoot. rewrite Hbh.
  specialize (Hid' s1). destruct (reader_ChainID s1) as [r0 s2] eqn:E0. cbn in Hid'. subst r0.
  destruct (Hcode' s2) as (code & Hc1 & Hne & Hk).
  destruct (ask_answered "read historical Gateway code" _ (SawCode (gd_Address deployment) blockHash)
    s2 _ Hc1) as (s3 & l3 & H3).
  destruct (ask_answered "call historical currentTrustRoot" _
    (SawCall (gd_Address deployment) ChainABI.EncodeCurrentTrustRootCall blockHash) s3 _ (Hcall s3))
    as (s4 & l4 & H4).
  assert ((zlen code =? 0) = false) as Hl by (destruct code; [done|]; apply Z.eqb_neq; unfold zlen; cbn; lia).
  assert (ChainABI.DecodeCurrentTrustRootResult root = Ok root) as Hd.
  { unfold ChainABI.DecodeCurrentTrustRootResult, ChainABI.DecodeHashResult, ChainABI.BytesToHash.
    rewrite be_vec_value. unfold zlen. by rewrite length_vec_to_list. }
  unfold mbind, M_mbind, M_bind, M_call. rewrite E0. cbn [map_err]. rewrite Z.eqb_refl. cbn [negb].
  rewrite H3, Hl, Hk, bool_decide_eq_true_2 by done. cbn [negb orb]. rewrite H4.
  unfold M_lift. rewrite Hd. by do 2 eexists.
Qed.

(** A node that shows the block with enough confirmations, the Gateway's
    code at its hash and a root there is always observed: [Observe] returns an
    observation of that very root, bound to that block. *)
Theorem Observe_honest (deployment : GatewayDeployment) (height : BlockHeight)
    (blockHash root : Hash) (confirmations : Z) (s : S) :
  honest deployment height blockHash root confirmations →
  deployment.(gd_ChainID) ≠ zero32 → deployment.(gd_Address) ≠ zero_address →
  deployment.(gd_CodeHash) ≠ zero32 → blockHash ≠ zero32 → 0 < confirmations →
  ∃ o s' log, Observe (E := E) keccak256 deployment height blockHash confirmations s
      = (Ok o, s', log) ∧
    o.(TrustView.obs_Content).(TrustView.obs_TrustRoot) = root ∧
    o.(TrustView.obs_Content).(TrustView.obs_BlockHash) = blockHash.
Proof.
  intros Hon Hid Hadr Hcode Hz Hc.
  destruct (honest_confirmed _ _ _ _ _ s Hon Hz ltac:(lia) ltac:(lia))
    as (block & s1 & l1 & H1 & Hbh & _).
  destruct (honest_root _ _ _ _ _ block s1 Hon Hbh) as (s2 & l2 & H2).
  destruct (honest_confirmed _ _ _ _ _ s2 Hon Hz ltac:(lia) ltac:(lia))
    as (block' & s3 & l3 & H3 & _ & Hhead).
  unfold Observe.
  assert (confirmed height blockHash confirmations block' l3) as CO by by eapply Confirmed_Ok.
  destruct (co_answers _ _ _ _ _ CO) as (? & ? & ? & _ & _ & _ & _ & _ & _ & _ & _ & Hdeep).
  set (content := TrustView.mkObservationContent (gd_ChainID deployment) height blockHash
    (gd_Address deployment) root (gd_CodeHash deployment) confirmations
    (can_ConfirmedHeadHeight block') (can_ConfirmedHeadHash block')).
  assert (TrustView.NewTrustRootObservation keccak256 content
    = Ok (TrustView.mkObservation (TrustView.Observation_ComputeID keccak256
            (TrustView.mkObservation zero32 content None)) content None)) as Hobs.
  { unfold TrustView.NewTrustRootObservation, TrustView.Observation_Validate. cbn.
    rewrite (proj2 (ChainID_Validate_ok _) Hid). cbn.
    rewrite !bool_decide_eq_false_2 by done. rewrite (proj2 (Z.eqb_neq _ _)) by lia. cbn.
    by rewrite (proj2 (Z.ltb_ge _ _)) by lia. }
  eapply M_bind_run; [exact H1|]. eapply M_bind_run; [exact H2|]. eapply M_bind_run; [exact H3|].
  eapply M_bind_run; [unfold M_lift; fold content; rewrite Hobs; reflexivity|].
  destruct (reader_Now s3) as [now s4] eqn:Hnow.
  eapply M_bind_run; [unfold M_call; rewrite Hnow; reflexivity|]. by do 3 eexists.
Qed.
End Properties.

(** *** A node for the closed instances *)

Definition sample_deployment : GatewayDeployment :=
  mkDeployment (be_vec 32 2) (be_vec 20 9) (sample_hash [Byte.x01]).

#[export] Instance sample_rpc : TrustRootRPC unit string := {
  reader_HeaderByNumber number s :=
    (Ok (Some (match number with
               | Some n => Indexer.mkHeader (Some n) (be_vec 32 (n + 89)) (be_vec 32 (n + 88))
               | None => Indexer.mkHeader (Some 14) (be_vec 32 103) (be_vec 32 102)
               end)), s);
  reader_ChainID s := (Ok (Some 2), s);
  reader_CodeAtHash _ _ s := (Ok [Byte.x01], s);
  reader_CallContractAtHash _ _ _ s := (Ok (vec_to_list (be_vec 32 222)), s);
  reader_Now s := (5, s)
}.

Abbreviation sample_observation :=
  (Observe (E := string) sample_hash sample_deployment (be_vec 32 10) (be_vec 32 99) 4 tt).

Lemma Observe_spec_witness :
  ∃ o encoded, ChainABI.DecodeCurrentTrustRootResult encoded = Ok (be_vec 32 222) ∧
    o.(TrustView.obs_Content).(TrustView.obs_TrustRoot) = be_vec 32 222.
Proof.
  assert (match sample_observation.1.1 with
          | Ok o => o.(TrustView.obs_Content).(TrustView.obs_TrustRoot) = be_vec 32 222
          | Err _ => False end) as Hok by (vm_compute; reflexivity).
  destruct sample_observation as [[[o|e] []] log] eqn:Hrun; [|destruct Hok].
  destruct (Observe_spec sample_hash sample_deployment (be_vec 32 10) (be_vec 32 99) 4 tt tt o log Hrun)
    as (? & ? & ? & block' & code & encoded & root & at_ & _ & _ & _ & _ & _ & Hd & _ & Ho).
  exists o, encoded. split; [|exact Hok]. rewrite Hd. f_equal.
  rewrite <-Hok, Ho. reflexivity.
Defined.

Lemma Observe_honest_witness :
  ∃ o s' log, sample_observation = (Ok o, s', log) ∧
    o.(TrustView.obs_Content).(TrustView.obs_TrustRoot) = be_vec 32 222 ∧
    o.(TrustView.obs_Content).(TrustView.obs_BlockHash) = be_vec 32 99.
Proof.
  apply (Observe_honest sample_hash sample_deployment (be_vec 32 10) (be_vec 32 99) (be_vec 32 222) 4 tt).
  - split.
    + exists (be_vec 32 98). intros []. reflexivity.
    + intros []. exists 14, (be_vec 32 103), (be_vec 32 102). split; [reflexivity|].
      split; [vm_compute; by split|by vm_compute].
    + intros []. reflexivity.
    + intros []. exists [Byte.x01]. by split_and!.
    + intros []. reflexivity.
  - vm_compute. discriminate.
  - vm_compute. discriminate.
  - vm_compute. discriminate.
  - vm_compute. discriminate.
  - lia.
Defined.

End ChainReader.
