(* ===== verification/Node.v ===== *)
(** * The database of a live node

    Every transaction a running node commits, as one step of the whole
    database of Tables.v: the repositories of Store.v to LiveStore.v on the core
    tables, the submissions of TransactionStore.v, the confirmed indexer of
    IndexerStore.v and the mailboxes of Mailbox.v.  The three groups of tables
    are only connected through these steps; the invariant of each group is
    preserved by the steps of all of them.

    A block whose dependency has the home chain as its source, and a remote
    dependency between two nodes of one chain, are not steps: the repositories
    would store their edges, which no TrustView accepts (see [poisoned_view]). *)

From S2P Require Import Prelude Domain Merkle Evidence TrustView Reorg Planner PathProof Coordinator.
From S2P Require Import ChainABI Indexer Envelope Submission Store GraphStore PlanStore ProofStore.
From S2P Require Import LiveStore System RemoteValidator Tables TransactionStore IndexerStore.
From S2P Require Import IndexerApply Mailbox.
Import Domain Tables.

Module Node.

Import IndexerStore IndexerApply Mailbox.

#[local] Existing Instances System.remembers_preorder TransactionStore.txs_kept_preorder.

Section Steps.
Context (keccak256 sha256 : bytes → Hash) (IDFromBytes : bytes → option Envelope.PeerID).
Context (peer_String : Envelope.PeerID → string) (peer_Decode : string → option Envelope.PeerID).

(** ** The transactions of a node *)

Inductive node_step (db db' : Database) : Prop :=
| node_core c :
    System.live_step keccak256 db.(core) c → db' = set_core db c → node_step db db'
| node_prepare now submission r :
    TransactionStore.SavePrepared keccak256 now submission db = (r, db') → node_step db db'
| node_transition now id from to reason at_ s b :
    to ≠ Submission.Confirmed →
    TransactionStore.Transition now id from to reason at_ db = Ok (s, b, db') → node_step db db'
| node_confirm now receipt :
    TransactionStore.Confirm now receipt db = Ok db' → node_step db db'
| node_configure config :
    Configure config db = Ok db' → node_step db db'
| node_degrade id reason :
    Degrade id reason db = Ok db' → node_step db db'
| node_block outboxPeer now block b :
    foreign_sources block →
    ApplyConfirmedBlock keccak256 sha256 IDFromBytes peer_String outboxPeer now block db
      = Ok (b, db') →
    node_step db db'
| node_receive now envelope sender record b :
    Envelope.in_range envelope →
    Receive keccak256 sha256 IDFromBytes peer_String now envelope sender db = Ok (record, b, db') →
    node_step db db'
| node_retry_message now id reason next m :
    inbox_MarkRetryable now id reason next db.(mail) = Ok m → db' = set_mail db m →
    node_step db db'
| node_refuse_message now id reason :
    MarkInvalid now id reason db = Ok db' → node_step db db'
| node_reject_sender rejection b m :
    RejectProvenance peer_String peer_Decode rejection db.(mail) = Ok (b, m) →
    db' = set_mail db m → node_step db db'
| node_publish now id next m :
    MarkPublished now id next db.(mail) = Ok m → db' = set_mail db m → node_step db db'
| node_retry_publish now id reason next m :
    outbox_MarkRetryable now id reason next db.(mail) = Ok m → db' = set_mail db m →
    node_step db db'
| node_activate now messageID v b :
    v.(RemoteValidator.SourceObservation).(RemoteValidator.vo_ChainID)
      ≠ v.(RemoteValidator.HomeObservation).(RemoteValidator.vo_ChainID) →
    Activate keccak256 now messageID v db = Ok (b, db') → node_step db db'.

Definition node_reachable (db : Database) : Prop := rtc node_step empty_database db.

(** ** The invariant and the memory *)

Definition node_wf (db : Database) : Prop :=
  mailed_wf keccak256 sha256 IDFromBytes peer_String db ∧ TransactionStore.txs_wf keccak256 db.

(** What the mailboxes never forget: messages with their evidence and origin,
    final verdicts, refusals. *)
Record mail_kept (m m' : MailTables) : Prop := {
  mk_inbox id row : m.(evidence_inbox) !! id = Some row →
    ∃ row', m'.(evidence_inbox) !! id = Some row' ∧
      row'.(in_Envelope) = row.(in_Envelope) ∧ row'.(in_EvidenceID) = row.(in_EvidenceID) ∧
      row'.(in_Origin) = row.(in_Origin) ∧ row'.(in_ReceivedAt) = row.(in_ReceivedAt) ∧
      row.(in_Attempts) ≤ row'.(in_Attempts) ∧
      (open_state row.(in_State) = false → row' = row);
  mk_outbox id row : m.(evidence_outbox) !! id = Some row →
    ∃ row', m'.(evidence_outbox) !! id = Some row' ∧
      row'.(out_Envelope) = row.(out_Envelope) ∧ row'.(out_EvidenceID) = row.(out_EvidenceID) ∧
      row'.(out_Origin) = row.(out_Origin) ∧ row'.(out_CreatedAt) = row.(out_CreatedAt) ∧
      row.(out_Attempts) ≤ row'.(out_Attempts);
  mk_rejections : m.(evidence_ingress_rejections) ⊆ m'.(evidence_ingress_rejections)
}.

Lemma inbox_kept_mail m m' : inbox_kept m m' → mail_kept m m'.
Proof.
  intros (Ho & Hr & K). split; [exact K| |by rewrite Hr].
  intros id row. rewrite <-Ho. intros Hrow. exists row. by split_and!.
Qed.

#[export] Instance mail_kept_preorder : PreOrder mail_kept.
Proof.
  split.
  - intros m. by apply inbox_kept_mail.
  - intros a b c [I1 O1 R1] [I2 O2 R2]. split; [| |by etrans].
    + intros id row (r1 & H1 & E1 & E2 & E3 & E4 & E5 & E6)%I1.
      destruct (I2 _ _ H1) as (r2 & H2 & F1 & F2 & F3 & F4 & F5 & F6).
      exists r2. split_and!; try congruence; [lia|].
      intros Ho. specialize (E6 Ho) as ->. auto.
    + intros id row (r1 & H1 & E1 & E2 & E3 & E4 & E5)%O1.
      destruct (O2 _ _ H1) as (r2 & H2 & F1 & F2 & F3 & F4 & F5).
      exists r2. split_and!; congruence || lia.
Qed.

Lemma outbox_grows_mail m m' : outbox_grows m m' → mail_kept m m'.
Proof.
  intros (Hi & Hr & Ho). split; [..|by rewrite Hr].
  - intros id row. rewrite <-Hi. intros Hrow. exists row. by split_and!.
  - intros id row Hrow. exists row. split_and!; try done. by eapply lookup_weaken.
Qed.

Lemma outbox_marked_mail m m' : outbox_marked m m' → mail_kept m m'.
Proof.
  intros (Hi & Hr & id & row & row' & Hrow & Ho & E1 & E2 & E3 & E4 & E5 & _). split; [..|by rewrite Hr].
  - intros id0 row0. rewrite <-Hi. intros H0. exists row0. by split_and!.
  - intros id0 row0 H0. rewrite Ho. destruct (decide (id = id0)) as [<-|Hn].
    + exists row'. rewrite lookup_insert_eq. assert (row0 = row) as -> by congruence.
      split_and!; congruence || lia.
    + exists row0. rewrite lookup_insert_ne by done. by split_and!.
Qed.

Record node_kept (db db' : Database) : Prop := {
  nk_core : System.remembers db.(core) db'.(core);
  nk_graph : graph_kept db.(core) db'.(core);
  nk_index : index_kept db.(index) db'.(index);
  nk_mail : mail_kept db.(mail) db'.(mail);
  nk_txs : TransactionStore.txs_kept db db'
}.

#[export] Instance node_kept_preorder : PreOrder node_kept.
Proof. split; [split; reflexivity|]. intros a b c [] []. split; by etrans. Qed.

Lemma node_kept_backing db db' : node_kept db db' → TransactionStore.backing_kept db db'.
Proof.
  intros [R _ K _ _]. split_and!.
  - intros id [r Hr]. destruct (System.rm_requests _ _ R _ _ Hr) as (r' & Hr' & _). by exists r'.
  - apply (System.rm_plans _ _ R).
  - apply (System.rm_proofs _ _ R).
  - intros k r H. by eapply lookup_weaken; [|apply K].
  - intros k r H. by eapply lookup_weaken; [|apply K].
Qed.

Abbreviation mailed_ok := (mailed_wf keccak256 sha256 IDFromBytes peer_String).

(** A step that leaves the transactions alone. *)
Lemma untouched_txs db db' :
  node_wf db → mailed_ok db' → System.remembers db.(core) db'.(core) →
  graph_kept db.(core) db'.(core) → index_kept db.(index) db'.(index) →
  mail_kept db.(mail) db'.(mail) → db'.(txs) = db.(txs) → node_wf db' ∧ node_kept db db'.
Proof.
  intros [_ WT] W' R G I M T.
  assert (node_kept db db') as K by (split; try done; by apply TransactionStore.txs_kept_same).
  split; [split; [done|]|done].
  eapply TransactionStore.txs_wf_mono; [by apply node_kept_backing|done|done].
Qed.

Lemma mail_effect_step db db' :
  node_wf db → mail_effect keccak256 sha256 IDFromBytes peer_String db db' →
  node_wf db' ∧ node_kept db db'.
Proof.
  intros W [W' [_ R] G I X T]. apply untouched_txs; try done; [by rewrite X|by apply inbox_kept_mail].
Qed.

(** A step that only writes the transactions. *)
Lemma only_txs db t :
  node_wf db → TransactionStore.txs_wf keccak256 (set_txs db t) →
  TransactionStore.txs_kept db (set_txs db t) → node_wf (set_txs db t) ∧ node_kept db (set_txs db t).
Proof.
  intros [[WI WM] _] WT K. split; [|by split].
  split; [|done]. split; [|done]. by destruct WI.
Qed.

(** A step that only writes the index. *)
Lemma only_index db i :
  node_wf db → index_wf db.(core) i → index_kept db.(index) i →
  node_wf (set_index db i) ∧ node_kept db (set_index db i).
Proof.
  intros W Wi K. apply untouched_txs; try done. destruct W as [[[WC _ WP WO] WM] _].
  split; [|done]. split; try done. intros id row Hrow.
  eapply queued_mono; [exact K|reflexivity|by apply WO].
Qed.

(** A step that only marks messages. *)
Lemma only_mail db m :
  node_wf db → mailed_ok (set_mail db m) → mail_kept db.(mail) m →
  node_wf (set_mail db m) ∧ node_kept db (set_mail db m).
Proof. intros W W' K. by apply untouched_txs. Qed.

Context (keccak_nonzero : ∀ l, keccak256 l ≠ zero32).

Lemma live_step_kept db c :
  node_wf db → System.live_step keccak256 db.(core) c →
  node_wf (set_core db c) ∧ node_kept db (set_core db c).
Proof using keccak_nonzero.
  intros W H. pose proof W as [[WI WM] _]. pose proof (iw_core _ _ _ _ WI) as WC.
  pose proof (System.live_step_wf _ _ _ keccak_nonzero WC H) as [WC' R].
  pose proof (System.live_step_edges _ _ _ keccak_nonzero WC H) as [He Hw].
  assert (graph_kept db.(core) c) as G.
  { split.
    - apply (System.rm_active _ _ R).
    - apply map_subseteq_spec, (System.rm_nodes _ _ R).
    - by rewrite Hw.
    - intros id e. by rewrite He. }
  apply untouched_txs; try done. split.
  - assert (set_core db c = set_core (set_mail db db.(mail)) c) as -> by (by destruct db).
    apply (indexed_core_change _ _ _ db); try done.
    intros id e a. rewrite He. intros Hl. eapply edge_proven_mono; [exact G|].
    by apply (iw_proven _ _ _ _ WI id e a).
  - intros id row Hrow. eapply (received_mono _ _ _ _ db.(core)); [by split| |by apply WM].
    by apply (System.live_step_evidence keccak256).
Qed.

Lemma configured_index db config db' :
  node_wf db → Configure config db = Ok db' → node_wf db' ∧ node_kept db db'.
Proof.
  intros W (live & Hl & Hv & H1 & H2 & H3 & _ & [->|[Hn ->]])%Configure_effect; [by split|].
  pose proof W as [[WI _] _]. pose proof (iw_index _ _ _ _ WI) as [X1 X2 X3 X4 X5].
  assert (index_kept db.(index) (put_config db.(index) config.(ic_ChainID) config)) as K
    by (split; cbn; first [done|by apply insert_subseteq]).
  assert (∀ id, is_Some (live_indexer_configs (index db) !! id) →
    is_Some (<[config.(ic_ChainID) := config]> (live_indexer_configs (index db)) !! id)) as Hs.
  { intros id [c Hc]. exists c. by eapply lookup_weaken; [|apply K]. }
  apply only_index; [done| |done]. split; cbn.
  - intros id cfg [[<- <-]|[_ Hc]]%lookup_insert_Some; [|by apply X1]. split; [done|]. by exists live.
  - intros id reason Hr. apply X2 in Hr as [? ?]. auto.
  - intros ch bh tx ti li g Hg. apply X3 in Hg as (Ht & cfg & Hc & Hgw). split; [done|].
    exists cfg. split; [|done]. by eapply lookup_weaken; [|apply K].
  - intros ch tx v Hvr. apply X4 in Hvr as (? & ? & ?). auto.
  - intros id row Hr. apply X5 in Hr as [? ?]. split; [done|].
    by eapply resolution_backed_mono.
Qed.

Lemma degraded_index db id reason db' :
  node_wf db → Degrade id reason db = Ok db' → node_wf db' ∧ node_kept db db'.
Proof.
  intros W (Hre & _ & [->|(Hn & Hc & ->)])%Degrade_effect; [by split|].
  pose proof W as [[WI _] _]. pose proof (iw_index _ _ _ _ WI) as [X1 X2 X3 X4 X5].
  apply only_index; [done| |by split; cbn; first [done|apply insert_subseteq]].
  split; cbn; try done. intros id' r' [[<- <-]|[_ Hr]]%lookup_insert_Some; [by split|].
  by eapply X2.
Qed.

(** Every transaction keeps the invariant and forgets nothing. *)
Lemma node_step_good db db' :
  node_wf db → node_step db db' → node_wf db' ∧ node_kept db db'.
Proof using keccak_nonzero.
  intros W. pose proof W as [WM WT].
  intros [c H ->|now s r H|now id f t re at_ s b Ht H|now rc H|cfg H|id re H|peer now blk b Hf H
    |now e s r b Hr H|now id re n m H ->|now id re H|rj b m H ->|now id n m H ->|now id re n m H ->
    |now id v b Hne H].
  - by apply live_step_kept.
  - pose proof (TransactionStore.SavePrepared_wf _ _ _ _ _ _ WT H) as WT'.
    pose proof (TransactionStore.SavePrepared_kept _ _ _ _ _ _ H) as K.
    apply TransactionStore.SavePrepared_effect in H as [[-> _]|(_ & -> & _)]; [by split|].
    by apply only_txs.
  - pose proof (TransactionStore.Transition_wf _ _ _ _ _ _ _ _ _ _ _ Ht WT H) as WT'.
    pose proof (TransactionStore.Transition_kept _ _ _ _ _ _ _ _ _ _ H) as K.
    apply TransactionStore.Transition_effect in H
      as (_ & [(_ & -> & _)|(_ & _ & ? & ? & ? & ? & _ & _ & _ & _ & ->)]); [by split|].
    by apply only_txs.
  - pose proof (TransactionStore.Confirm_wf _ _ _ _ _ WT H) as WT'.
    pose proof (TransactionStore.Confirm_kept _ _ _ _ H) as K.
    apply TransactionStore.Confirm_effect in H
      as (? & _ & _ & _ & _ & [[_ ->]|(_ & ? & ? & ? & _ & _ & _ & _ & _ & _ & ->)]); [by split|].
    by apply only_txs.
  - by eapply configured_index.
  - by eapply degraded_index.
  - pose proof (apply_block_spec _ _ _ _ _ _ _ _ _ _ (proj1 WM) Hf H) as B.
    pose proof (be_core _ _ _ _ _ _ _ _ _ B) as [_ R].
    apply untouched_txs; try done; [|apply B..|apply outbox_grows_mail, B|apply B].
    split; [apply B|]. intros id row. rewrite (proj1 (be_outbox _ _ _ _ _ _ _ _ _ B)).
    intros Hrow. eapply received_mono; [by split; [apply B|]| |by apply WM].
    intros ev r Hr. exists r. split; [|done]. by eapply lookup_weaken; [|apply B].
  - apply mail_effect_step; [done|]. by eapply Receive_effect.
  - apply mail_effect_step; [done|].
    pose proof H as [? ?]%(inbox_MarkRetryable_spec keccak256 sha256 IDFromBytes peer_String
      _ _ _ _ db.(core)); [|apply WM]. by apply inbox_only_effect.
  - apply mail_effect_step; [done|]. by eapply MarkInvalid_effect.
  - apply RejectProvenance_spec in H as (Hi & Ho & Hr & _).
    assert (mail_kept db.(mail) m) as K.
    { split; [rewrite Hi|rewrite Ho|done]; intros i row Hrow; exists row; by split_and!. }
    apply only_mail; [done| |done]. destruct WM as [[WC WI WP WO] WM]. split; [split|]; try done.
    + intros i row. cbn. rewrite Ho. apply WO.
    + intros i row. cbn. rewrite Hi. apply WM.
  - apply MarkPublished_spec in H.
    apply only_mail; [done|by apply outbox_marked_wf|by apply outbox_marked_mail].
  - apply outbox_MarkRetryable_spec in H.
    apply only_mail; [done|by apply outbox_marked_wf|by apply outbox_marked_mail].
  - apply mail_effect_step; [done|]. by eapply Activate_effect in H as (r & _ & _ & [E _ _ _ _ _ _]).
Qed.

Lemma empty_node_wf : node_wf empty_database.
Proof.
  split; [split|apply TransactionStore.empty_txs_wf]; [split|done]; try done.
  apply System.empty_db_wf.
Qed.

Lemma nodes_good db db' : rtc node_step db db' → node_wf db → node_wf db' ∧ node_kept db db'.
Proof using keccak_nonzero.
  induction 1 as [db|db db1 db2 Hs _ IH]; intros W; [by split|].
  destruct (node_step_good _ _ W Hs) as [W1 K1]. destruct (IH W1) as [W2 K2].
  split; [done|]. by transitivity db1.
Qed.

Lemma node_reachable_wf db : node_reachable db → node_wf db.
Proof using keccak_nonzero. intros H. apply (nodes_good _ _ H), empty_node_wf. Qed.
End Steps.

(** ** Properties of every reachable node *)

Section Properties.
Context (keccak256 sha256 : bytes → Hash) (IDFromBytes : bytes → option Envelope.PeerID).
Context (peer_String : Envelope.PeerID → string) (peer_Decode : string → option Envelope.PeerID).

Abbreviation reachable :=
  (node_reachable keccak256 sha256 IDFromBytes peer_String peer_Decode).
Abbreviation node_steps := (rtc (node_step keccak256 sha256 IDFromBytes peer_String peer_Decode)).

(** C1. A confirmed submission really happened: the indexer has stored the
    [VerificationExecuted] receipt and the [RequestResolved] event of exactly
    its transaction, in the block it is confirmed in; the transaction belongs
    to a stored plan of the request, went through [Prepared] and [Submitted],
    and is the only confirmed submission of the request. *)
Theorem confirmed_backed (db : Database) id s :
  (∀ l, keccak256 l ≠ zero32) → reachable db →
  db.(txs).(transaction_submissions) !! id = Some s →
  s.(Submission.sub_State) = Submission.Confirmed →
  (∃ row receipt resolution plan,
    db.(txs).(confirmed_transaction_receipts) !! id = Some row ∧
    db.(index).(verification_receipts) !! (s.(Submission.sub_HomeChainID), s.(Submission.sub_TxHash))
      = Some receipt ∧
    receipt.(vr_RequestID) = s.(Submission.sub_RequestID) ∧
    receipt.(vr_BlockHash) = row.(cf_BlockHash) ∧ receipt.(vr_BlockNumber) = row.(cf_BlockNumber) ∧
    db.(index).(request_resolutions) !! s.(Submission.sub_RequestID) = Some resolution ∧
    resolution.(rr_TxHash) = s.(Submission.sub_TxHash) ∧
    resolution_backed db.(core) db.(index) s.(Submission.sub_RequestID) resolution ∧
    db.(core).(Store.plans) !! s.(Submission.sub_PlanID) = Some plan ∧
    plan.(Planner.plan_RequestID) = s.(Submission.sub_RequestID)) ∧
  Store.history Submission.execution_step Submission.Prepared
    (TransactionStore.logged_execution db.(txs) id) Submission.Confirmed ∧
  ∀ id' s', db.(txs).(transaction_submissions) !! id' = Some s' →
    s'.(Submission.sub_State) = Submission.Confirmed →
    s'.(Submission.sub_RequestID) = s.(Submission.sub_RequestID) → id' = id.
Proof.
  intros Hk [[WI _] [T1 T2 T3 T4 T5 T6 T7]]%node_reachable_wf Hs Hc; [|done].
  assert (∀ i t, db.(txs).(transaction_submissions) !! i = Some t →
    t.(Submission.sub_State) = Submission.Confirmed →
    ∃ row receipt resolution,
      db.(txs).(confirmed_transaction_receipts) !! i = Some row ∧
      db.(index).(verification_receipts) !! (t.(Submission.sub_HomeChainID), t.(Submission.sub_TxHash))
        = Some receipt ∧
      receipt.(vr_RequestID) = t.(Submission.sub_RequestID) ∧
      receipt.(vr_BlockHash) = row.(cf_BlockHash) ∧ receipt.(vr_BlockNumber) = row.(cf_BlockNumber) ∧
      db.(index).(request_resolutions) !! t.(Submission.sub_RequestID) = Some resolution ∧
      resolution.(rr_TxHash) = t.(Submission.sub_TxHash)) as Hback.
  { intros i t Ht Hst. destruct (proj1 (T6 _ _ Ht) Hst) as [row Hrow].
    destruct (T7 _ _ Hrow) as (t' & Ht' & E1 & E2 & E3 & Hb). assert (t' = t) as -> by congruence.
    unfold TransactionStore.indexer_bundle in Hb. rewrite E1, E2, E3 in Hb.
    destruct (verification_receipts (index db) !! _) as [vr|]; [|done].
    destruct (request_resolutions (index db) !! _) as [rr|]; [|done].
    bool_to_prop. by exists row, vr, rr. }
  split; [|split].
  - destruct (Hback _ _ Hs Hc) as (row & vr & rr & H1 & H2 & H3 & H4 & H5 & H6 & H7).
    pose proof (TransactionStore.so_keys _ _ _ _ (T1 _ _ Hs)) as Hf. unfold TransactionStore.foreign_keys in Hf.
    destruct (Store.plans (core db) !! _) as [p|] eqn:Hp; [|by rewrite andb_false_r in Hf].
    bool_to_prop. exists row, vr, rr, p. split_and!; try done.
    by apply (ix_resolution _ _ (iw_index _ _ _ _ WI)).
  - rewrite <-Hc. by apply T2.
  - intros id' s' Hs' Hc' Hr. apply (T5 _ _ _ _ Hs' Hs).
    destruct (Hback _ _ Hs Hc) as (_ & _ & rr & _ & _ & _ & _ & _ & H6 & H7).
    destruct (Hback _ _ Hs' Hc') as (_ & _ & rr' & _ & _ & _ & _ & _ & H6' & H7').
    unfold TransactionStore.rows_conflict. apply orb_true_iff. left. apply orb_true_iff. right.
    apply bool_decide_eq_true. congruence.
Qed.


(** An active edge between two nodes of one chain would poison the view: with it
    in the tables, [CurrentTrustView] fails. *)
Lemma poisoned_view (db : Database) edge from to :
  edge ∈ GraphStore.active_edges db.(core) →
  from ∈ GraphStore.active_nodes db.(core) → to ∈ GraphStore.active_nodes db.(core) →
  from.(TrustView.node_ID) = edge.(TrustView.edge_From) →
  to.(TrustView.node_ID) = edge.(TrustView.edge_To) →
  from.(TrustView.node_Key).(TrustView.key_ChainID)
    = to.(TrustView.node_Key).(TrustView.key_ChainID) →
  is_ok (GraphStore.CurrentTrustView keccak256 db.(core)) = false.
Proof.
  intros He Hf Ht Ef Et Hc. unfold GraphStore.CurrentTrustView.
  destruct (TrustView.NewTrustView _ _ _ _) as [view|e] eqn:Hv; [|done].
  apply TrustView.NewTrustView_iff in Hv as [(_ & _ & Huniq & _ & Hjoin) _].
  destruct (Hjoin _ He) as (f & t & Hf' & Ht' & Ef' & Et' & Hne).
  rewrite <-Ef in Ef'. rewrite <-Et in Et'.
  rewrite (Huniq f from), (Huniq t to) in Hne by done. done.
Qed.

(** C6. What a node has accepted stays: along any run, requests keep their
    content, active evidence, graph nodes, edges and witnesses, snapshots,
    plans, proofs, indexed logs, receipts and resolutions stay as they are,
    messages keep what they say and a verdict is final, and a submission only
    moves along its life cycle. *)
Theorem node_never_forgets (db db' : Database) :
  (∀ l, keccak256 l ≠ zero32) → reachable db → node_steps db db' → node_kept db db'.
Proof. intros Hk W%node_reachable_wf H; [|done]. by eapply nodes_good. Qed.

(** The mailboxes of a node: a stored message is the canonical encoding of
    a message of its origin about evidence stored under the content address
    of its locator, and it is marked validated only when that evidence is
    active; a message waiting to be sent announces active evidence of an
    indexed [DependencyRecorded] log. *)
Theorem mailboxes_explained (db : Database) :
  (∀ l, keccak256 l ≠ zero32) → reachable db →
  (∀ id row, db.(mail).(evidence_inbox) !! id = Some row →
     received keccak256 sha256 IDFromBytes peer_String db.(core) id row) ∧
  (∀ id row, db.(mail).(evidence_outbox) !! id = Some row →
     queued keccak256 sha256 IDFromBytes db.(index) db.(core) id row).
Proof. intros Hk [[[_ _ _ WO] WM] _]%node_reachable_wf; done. Qed.
End Properties.

End Node.
