(* ===== verification/Wiring.v ===== *)
(** * The services of the coordinator, wired to the repositories

    app.go builds one [store.DB], the repositories over it, [planner.New],
    [proof.NewBuilder] and [coordinator.New].  Here the
    repositories of Store.v, GraphStore.v, PlanStore.v and ProofStore.v are
    instances of the interfaces [Planner.PlanRepository],
    [PathProof.ProofRepository] and [Coordinator.Services] and discharge their
    laws, so the theorems on the clients hold of the program as it is wired.

    The state the coordinator runs on is a database with the evidence that
    repository transactions produced it. *)

From S2P Require Import Prelude Domain Merkle Evidence TrustView Registry Reorg Planner.
From S2P Require Import PathProof Coordinator Store GraphStore PlanStore ProofStore System.
Import Domain Store GraphStore PlanStore ProofStore System.

Module Wiring.

Inductive service_error :=
| ErrStore (e : Store.error)
| ErrPlanner (e : Planner.error Store.error)
| ErrBuilder (e : PathProof.error Store.error).

Section Wiring.
Context (keccak256 : bytes → Hash).
(** The clock, the depth of the path tree and the calibrated profiles of the
    registry. *)
Context (now : Z) (pathTreeDepth : Z)
  (profiles : ChainID → option Registry.ValidatedDirectProfile).

(** ** The repositories of the planner and of the proof builder *)

#[export] Instance plan_repository : Planner.PlanRepository DB Store.error := {
  Planner.SavePlan plan db := SavePlan keccak256 now plan db;
  Planner.LoadPlan id db := loadPlan keccak256 db id;
  Planner.load_saved := SavePlan_load keccak256 now
}.

#[export] Instance proof_repository : PathProof.ProofRepository DB Store.error := {
  PathProof.LoadPathPlan id db := loadPlan keccak256 db id;
  PathProof.LoadTrustViewSnapshot id db := loadSnapshot db id;
  PathProof.LoadPathProofMaterial plan snapshot index edge db :=
    loadPathProofMaterial keccak256 db plan snapshot index edge;
  PathProof.SavePathProof value db := SavePathProof keccak256 now value db;
  PathProof.LoadPathProof id db := loadPathProof keccak256 db id;
  PathProof.is_missing e := match e with ErrProofMaterialMissing => true | _ => false end
}.

Definition plan_on (request : Planner.Request) (db : DB)
    : res (Planner.error Store.error) (Planner.Plan * DB) :=
  Planner.Planner_Plan keccak256 (loadSnapshot db) profiles (Some now) request db.

Definition build_on (request : PathProof.BuildRequest) (db : DB)
    : res (PathProof.error Store.error) (PathProof.PathProof * DB) :=
  PathProof.Build keccak256 pathTreeDepth (Some now) request db.

Lemma plan_on_Ok request db plan db' :
  plan_on request db = Ok (plan, db') →
  ∃ decided, SavePlan keccak256 now decided db = Ok db' ∧
    decided.(Planner.plan_RequestID) = request.(Planner.req_ID) ∧
    loadPlan keccak256 db' decided.(Planner.plan_ID) = Ok plan ∧
    (decided.(Planner.plan_Type) = Planner.PathPlan ∨
     decided.(Planner.plan_Type) = Planner.DirectPlan) ∧
    Planner.same_decision plan decided.
Proof.
  unfold plan_on, Planner.Planner_Plan.
  intros (snapshot & _ & H)%bind_Ok. apply bind_Ok in H as ([] & _ & H).
  apply bind_Ok in H as (decided & Hd & H). unfold Planner.persist in H.
  apply bind_Ok in H as (s1 & Hsave%map_err_Ok & H).
  apply bind_Ok in H as (loaded & Hload%map_err_Ok & [= -> ->]).
  eexists. split; [exact Hsave|]. cbn in *.
  assert (decided.(Planner.plan_RequestID) = request.(Planner.req_ID) ∧
    (decided.(Planner.plan_Type) = Planner.PathPlan ∨
     decided.(Planner.plan_Type) = Planner.DirectPlan)) as [Hr Ht].
  { clear -Hd. unfold Planner.decide_plan in Hd. revert Hd.
    destruct (negb _); [by intros [= <-]; cbn; auto|].
    intros (step & _ & Hd)%bind_Ok.
    destruct (Planner.directedReachability snapshot) as [edges [[]|]]; [| |done];
      [|injection Hd as <-; cbn; auto].
    apply bind_Ok in Hd as ([path c] & _ & Hd).
    apply bind_bool in Hd as [_ Hd]. apply bind_bool in Hd as [_ Hd].
    destruct (_ <? _); [|destruct (existsb _ _)]; injection Hd as <-; cbn; auto. }
  split; [done|]. split; [done|]. split; [done|].
  destruct (SavePlan_load _ _ _ _ _ Hsave) as (p & Hp & Hs). cbn in Hp.
  congruence.
Qed.

(** The witnesses of an assembled proof were made by their constructor. *)
Lemma assemble_built {RE} reversed hashes ws hops :
  @PathProof.assemble RE reversed = Ok (hashes, ws, hops) → Forall built_witness ws.
Proof.
  revert hashes ws hops. induction reversed as [|[i m] rest IH]; intros hashes ws hops H; cbn in H;
    [by injection H as <- <- <-|].
  destruct (NewMembershipWitness _ _) as [w|] eqn:Hw; [|done].
  apply bind_Ok in H as ([[hs ws'] hops'] & Hr & [= <- <- <-]).
  constructor; [|by eapply IH]. unfold built_witness.
  pose proof Hw as Hw'. unfold NewMembershipWitness in Hw'.
  apply bind_Ok in Hw' as (_ & _ & [= <-]). exact Hw.
Qed.

Lemma build_on_Ok request db value db' :
  build_on request db = Ok (value, db') →
  (∃ given, SavePathProof keccak256 now given db = Ok db' ∧
     Forall built_witness given.(PathProof.Witnesses)) ∧
  ∃ plan, loadPlan keccak256 db request.(PathProof.build_PlanID) = Ok plan ∧
    plan.(Planner.plan_ID) = request.(PathProof.build_PlanID) ∧
    plan.(Planner.plan_Type) = Planner.PathPlan.
Proof.
  unfold build_on, PathProof.Build. intros (plan & Hplan%map_err_Ok & H)%bind_Ok.
  apply bind_bool in H as [Hc H]. apply bind_Ok in H as (snapshot & _ & H).
  apply bind_bool in H as [_ H]. apply bind_bool in H as [_ H].
  destruct (PathProof.findNode _ _) as [target|]; [|done].
  apply bind_bool in H as [_ H]. apply bind_Ok in H as ([materials last] & _ & H).
  apply bind_bool in H as [_ H]. apply bind_Ok in H as ([[hashes witnesses] hops] & Has & H).
  apply assemble_built in Has.
  apply bind_bool in H as [_ H]. destruct (Merkle.VerifyPath _ _ _ _ _ _); [|done].
  apply bind_Ok in H as (s1 & Hsave%map_err_Ok & H). apply bind_Ok in H as (persisted & _ & H).
  apply bind_bool in H as [_ [= <- <-]]. bool_to_prop.
  split; [eexists; split; [exact Hsave|exact Has]|]. exists plan. by split_and!.
Qed.

(** ** Transactions on reachable databases *)

Lemma reachable_trans db db' :
  reachable keccak256 db → rtc (step keccak256) db db' → reachable keccak256 db'.
Proof. unfold reachable. intros H1 H2. by etrans. Qed.

Definition RDB : Type := { db : DB | reachable keccak256 db }.

Definition transact {A E} (wrap : E → service_error) (op : DB → res E (A * DB))
    (sound : ∀ db a db', op db = Ok (a, db') → rtc (step keccak256) db db') (s : RDB)
    : res service_error A * RDB :=
  match op (`s) as r
    return (∀ a db', r = Ok (a, db') → rtc (step keccak256) (`s) db') → _ with
  | Ok (a, db') => λ H,
      (Ok a, db' ↾ reachable_trans _ _ (proj2_sig s) (H a db' eq_refl))
  | Err e => λ _, (Err (wrap e), s)
  end (sound (`s)).

Section Transact.
Context {A E : Type} (wrap : E → service_error) (op : DB → res E (A * DB)) (sound :
  ∀ db a db', op db = Ok (a, db') → rtc (step keccak256) db db').

Lemma transact_cases (s : RDB) :
  (∃ a db', op (`s) = Ok (a, db') ∧ (transact wrap op sound s).1 = Ok a ∧
     proj1_sig (transact wrap op sound s).2 = db') ∨
  (∃ e, op (`s) = Err e ∧ transact wrap op sound s = (Err (wrap e), s)).
Proof.
  unfold transact. generalize (sound (`s)). destruct (op (`s)) as [[a db']|e]; intros H.
  - left. by exists a, db'.
  - right. by exists e.
Qed.
End Transact.

(** ** The services *)

Definition observe_on (request : Coordinator.Request) (db : DB)
    : res Store.error (Coordinator.Request * bool * DB) :=
  ObserveRequest keccak256 now request db.

Definition transition_on (id : RequestID) (from to : Coordinator.RequestState)
    (reason : string) (db : DB) : res Store.error (Coordinator.Request * bool * DB) :=
  TransitionRequest now id from to None reason db.

Lemma observe_on_sound request db a db' :
  observe_on request db = Ok (a, db') → rtc (step keccak256) db db'.
Proof. destruct a. intros H. eapply rtc_once, step_live, step_observe_request, H. Qed.

Lemma transition_on_sound id from to reason db a db' :
  transition_on id from to reason db = Ok (a, db') → rtc (step keccak256) db db'.
Proof. destruct a. intros H. eapply rtc_once, step_live, step_transition_request, H. Qed.

Lemma plan_on_sound request db a db' :
  plan_on request db = Ok (a, db') → rtc (step keccak256) db db'.
Proof.
  intros (decided & H & _)%plan_on_Ok. eapply rtc_once, step_live, step_save_plan, H.
Qed.

Lemma build_on_sound request db a db' :
  build_on request db = Ok (a, db') → rtc (step keccak256) db db'.
Proof. intros [(given & H & _) _]%build_on_Ok. eapply rtc_once, step_live, step_save_proof, H. Qed.

#[export] Instance services : Coordinator.Services RDB service_error := {
  Coordinator.Observe request := transact ErrStore _ (observe_on_sound request);
  Coordinator.LoadRequest id s := map_err ErrStore (LoadRequest (`s) id);
  Coordinator.Transition id from to reason :=
    transact ErrStore _ (transition_on_sound id from to reason);
  Coordinator.RequireEvidenceReady request s :=
    (λ e, Coordinator.GateFailed (ErrStore e)) <$> RequireEvidenceReady request (`s);
  Coordinator.LoadCurrentPlan id s := map_err ErrStore (LoadCurrentPlan keccak256 (`s) id);
  Coordinator.is_plan_not_found e :=
    match e with ErrStore ErrPlanNotFound => true | _ => false end;
  Coordinator.PlanRequest request := transact ErrPlanner _ (plan_on_sound request);
  Coordinator.BuildProof request := transact ErrBuilder _ (build_on_sound request)
}.

(** ** The laws *)

Section Laws.
Context (keccak_nonzero : ∀ l, keccak256 l ≠ zero32).

(** What a transaction can change, seen from the request and plan tables. *)
Lemma observe_on_frame q db r b db' :
  observe_on q db = Ok ((r, b), db') →
  db'.(plans) = db.(plans) ∧ db'.(current_plan) = db.(current_plan) ∧
  r.(Coordinator.req_ID) = q.(Coordinator.req_ID) ∧
  db'.(requests) !! q.(Coordinator.req_ID) = Some r ∧
  (∀ id, id ≠ q.(Coordinator.req_ID) → db'.(requests) !! id = db.(requests) !! id) ∧
  (r.(Coordinator.req_State) = Coordinator.Observed ∨
   db.(requests) !! q.(Coordinator.req_ID) = Some r).
Proof.
  intros (Hid & _ & _ & [(_ & -> & Hl)|(_ & Hst & _ & _ & ->)])%ObserveRequest_Ok;
    [by split_and!; auto|].
  cbn. rewrite lookup_insert_eq. split_and!; auto.
  intros id Hne. by rewrite lookup_insert_ne.
Qed.

Lemma transition_on_frame id from to reason db r b db' :
  requests_wf keccak256 db → transition_on id from to reason db = Ok ((r, b), db') →
  db'.(plans) = db.(plans) ∧ db'.(current_plan) = db.(current_plan) ∧
  r.(Coordinator.req_ID) = id ∧ r.(Coordinator.req_State) = to ∧
  db'.(requests) !! id = Some r ∧
  (∀ id', id' ≠ id → db'.(requests) !! id' = db.(requests) !! id').
Proof.
  intros W (Hto & [(_ & -> & Hl)|(_ & _ & _ & c & ch & Hc & _ & Hr & ->)])%TransitionRequest_Ok.
  - split_and!; auto. by apply (wf_identity _ _ W).
  - cbn. rewrite lookup_insert_eq. split_and!; auto.
    + apply (wf_identity _ _ W) in Hc as [Hid _]. by rewrite Hr.
    + intros id' Hne. by rewrite lookup_insert_ne.
Qed.

Lemma plan_on_frame q db plan db' :
  plans_wf keccak256 db → plan_on q db = Ok (plan, db') →
  db'.(requests) = db.(requests) ∧
  LoadCurrentPlan keccak256 db' q.(Planner.req_ID) = Ok plan ∧
  (plan.(Planner.plan_Type) = Planner.PathPlan ∨
   plan.(Planner.plan_Type) = Planner.DirectPlan) ∧
  ∀ id, id ≠ q.(Planner.req_ID) →
    LoadCurrentPlan keccak256 db' id = LoadCurrentPlan keccak256 db id.
Proof.
  intros W (d & Hsave & Hr & Hload & Ht & Hs)%plan_on_Ok.
  pose proof (SavePlan_wf _ _ _ _ _ W Hsave) as (W' & Ho & Hcur & _ & Hold & Hoc).
  unfold plans_only in Ho. split; [by rewrite Ho|]. rewrite <-Hr.
  split; [by unfold LoadCurrentPlan; rewrite Hcur|]. split; [by rewrite Hs|].
  intros id Hne. unfold LoadCurrentPlan. rewrite Hoc by done.
  destruct (current_plan db !! id) as [pid|] eqn:Hc; [|done].
  destruct (p_current _ _ W _ _ Hc) as (p & Hp & _). unfold loadPlan.
  by rewrite Hp, (Hold _ _ Hp).
Qed.

Lemma build_on_frame q db value db' :
  build_on q db = Ok (value, db') →
  db'.(requests) = db.(requests) ∧
  (∀ id, LoadCurrentPlan keccak256 db' id = LoadCurrentPlan keccak256 db id).
Proof.
  intros [(given & H & _) _]%build_on_Ok.
  apply SavePathProof_Ok in H as (_ & p & _ & [(-> & _)|(_ & _ & at_ & ->)]); done.
Qed.

#[local] Lemma wf (s : RDB) : db_wf keccak256 (`s).
Proof using keccak_nonzero. apply reachable_wf; [done|]. exact (proj2_sig s). Qed.

#[local] Ltac law :=
  cbn [Coordinator.Observe Coordinator.LoadRequest Coordinator.Transition
       Coordinator.LoadCurrentPlan Coordinator.PlanRequest Coordinator.BuildProof services];
  unfold LoadRequest.

#[export] Program Instance service_laws : Coordinator.ServiceLaws RDB service_error.
Next Obligation.
  intros q s id Hne. law.
  destruct (transact_cases ErrStore _ (observe_on_sound q) s) as [([r b] & db' & H & _ & ->)|(e & _ & ->)]; [|done].
  apply observe_on_frame in H as (_ & _ & _ & _ & Ho & _). by rewrite Ho.
Qed.
Next Obligation.
  intros q s id. law.
  destruct (transact_cases ErrStore _ (observe_on_sound q) s) as [([r b] & db' & H & _ & ->)|(e & _ & ->)]; [|done].
  apply observe_on_frame in H as (Hp & Hc & _). unfold LoadCurrentPlan, loadPlan. by rewrite Hc, Hp.
Qed.
Next Obligation.
  intros q s r b. law.
  destruct (transact_cases ErrStore _ (observe_on_sound q) s) as [([r' b'] & db' & H & -> & ->)|(e & _ & ->)]; [|done].
  intros [= -> ->]. apply observe_on_frame in H as (_ & _ & Hid & Hl & _ & Hor).
  rewrite Hl. split; [done|]. split; [done|]. destruct Hor as [?|Hl0]; [by left|right]. by rewrite Hl0.
Qed.
Next Obligation.
  intros q s e. law.
  destruct (transact_cases ErrStore _ (observe_on_sound q) s) as [(a & db' & _ & -> & _)|(e' & _ & ->)]; done.
Qed.
Next Obligation.
  intros id s r. law. destruct (requests (`s) !! id) as [r'|] eqn:Hl; [|done].
  intros [= ->]. by apply (wf_identity _ _ (db_requests _ _ (wf s))).
Qed.
Next Obligation.
  intros id from to reason s id' Hne. law.
  destruct (transact_cases ErrStore _ (transition_on_sound id from to reason) s) as [([r b] & db' & H & _ & ->)|(e & _ & ->)]; [|done].
  apply transition_on_frame in H as (_ & _ & _ & _ & _ & Ho); [|apply wf]. by rewrite Ho.
Qed.
Next Obligation.
  intros id from to reason s id'. law.
  destruct (transact_cases ErrStore _ (transition_on_sound id from to reason) s) as [([r b] & db' & H & _ & ->)|(e & _ & ->)]; [|done].
  apply transition_on_frame in H as (Hp & Hc & _); [|apply wf].
  unfold LoadCurrentPlan, loadPlan. by rewrite Hc, Hp.
Qed.
Next Obligation.
  intros id from to reason s r b. law.
  destruct (transact_cases ErrStore _ (transition_on_sound id from to reason) s) as [([r' b'] & db' & H & -> & ->)|(e & _ & ->)]; [|done].
  intros [= -> ->]. apply transition_on_frame in H as (_ & _ & Hid & Hst & Hl & _); [|apply wf].
  by rewrite Hl.
Qed.
Next Obligation.
  intros id from to reason s e. law.
  destruct (transact_cases ErrStore _ (transition_on_sound id from to reason) s) as [(a & db' & _ & -> & _)|(e' & _ & ->)]; done.
Qed.
Next Obligation.
  intros q s id. law.
  destruct (transact_cases ErrPlanner _ (plan_on_sound q) s) as [(plan & db' & H & _ & ->)|(e & _ & ->)]; [|done].
  apply plan_on_frame in H as [Ho _]; [|apply wf]. by rewrite Ho.
Qed.
Next Obligation.
  intros q s id Hne. law.
  destruct (transact_cases ErrPlanner _ (plan_on_sound q) s) as [(plan & db' & H & _ & ->)|(e & _ & ->)]; [|done].
  apply plan_on_frame in H as (_ & _ & _ & Ho); [|apply wf]. by rewrite Ho.
Qed.
Next Obligation.
  intros q s plan. law.
  destruct (transact_cases ErrPlanner _ (plan_on_sound q) s) as [(plan' & db' & H & -> & ->)|(e & _ & ->)]; [|done].
  intros [= ->]. apply plan_on_frame in H as (_ & Hl & Ht & _); [|apply wf]. by rewrite Hl.
Qed.
Next Obligation.
  intros q s id. law.
  destruct (transact_cases ErrBuilder _ (build_on_sound q) s) as [(v & db' & H & _ & ->)|(e & _ & ->)]; [|done].
  apply build_on_frame in H as [Ho _]. by rewrite Ho.
Qed.
Next Obligation.
  intros q s id. law.
  destruct (transact_cases ErrBuilder _ (build_on_sound q) s) as [(v & db' & H & _ & ->)|(e & _ & ->)]; [|done].
  apply build_on_frame in H as [_ Ho]. by rewrite Ho.
Qed.
Next Obligation.
  intros q s p id plan. law.
  destruct (transact_cases ErrBuilder _ (build_on_sound q) s) as [(v & db' & H & -> & _)|(e & _ & ->)]; [|done].
  intros _ Hl%map_err_Ok Hid. apply build_on_Ok in H as [_ (plan' & Hp & _ & Ht)].
  unfold LoadCurrentPlan in Hl. destruct (current_plan (`s) !! id) as [pid|]; [|done].
  apply loadPlan_Ok in Hl as [Hl _]. apply (p_row _ _ (db_plans _ _ (wf s))) in Hl as Hrow.
  destruct Hrow as [Hpid _]. apply loadPlan_Ok in Hp as [Hp _]. congruence.
Qed.
End Laws.
End Wiring.

(** ** Theorems *)

(** C10. The coordinator on the real repositories.  Started on any database the
    repositories can produce in which no request is ahead of its plan,
    [Process] always ends; every database it passes through, and the one it
    leaves, is again such a database, whatever the outcome; and a returned
    request is rejected, or backed by its stored current plan: a direct plan,
    or a path plan with a content-addressed PathProof of it that verifies
    against the home TrustRoot the caller expects. *)
Theorem Process_on_repositories (keccak256 : bytes → Hash) (now depth : Z)
    (profiles : ChainID → option Registry.ValidatedDirectProfile)
    (work : Coordinator.Work) (s : RDB keccak256) :
  (∀ l, keccak256 l ≠ zero32) →
  let SV := services keccak256 now depth profiles in
  Coordinator.durable s →
  match Coordinator.Process keccak256 work s with
  | (r, s', log) =>
      Forall Coordinator.durable log ∧ Coordinator.durable s' ∧
      match r with
      | Err e => e ≠ Coordinator.OutOfFuel
      | Ok result =>
          let request := result.(Coordinator.result_Request) in
          LoadRequest (`s') request.(Coordinator.req_ID) = Ok request ∧
          (request.(Coordinator.req_State) = Coordinator.Rejected ∨
           ∃ plan, result.(Coordinator.result_Plan) = Some plan ∧
             Coordinator.binds keccak256 work plan ∧
             LoadCurrentPlan keccak256 (`s') request.(Coordinator.req_ID) = Ok plan ∧
             (plan.(Planner.plan_Type) = Planner.DirectPlan ∨
              request.(Coordinator.req_State) = Coordinator.ProofReady ∧
              ∃ proof, result.(Coordinator.result_PathProof) = Some proof ∧
                proof.(PathProof.proof_PlanID) = plan.(Planner.plan_ID) ∧
                proof.(PathProof.proof_ID) = PathProof.ComputePathProofID keccak256 proof ∧
                Merkle.VerifyPath keccak256 proof.(PathProof.BaseTrustRoot)
                  proof.(PathProof.BlockHashes) proof.(PathProof.Witnesses)
                  work.(Coordinator.work_ExpectedHomeTrustRoot) depth = Ok tt))
      end
  end.
Proof.
  intros Hk SV Hd. pose proof (service_laws keccak256 now depth profiles Hk) as SL.
  pose proof (Coordinator.Process_triple keccak256 work s Hd) as H.
  destruct (Coordinator.Process keccak256 work s) as [[r s'] log].
  destruct H as (Hlog & Hs' & Hr). split; [done|]. split; [done|].
  destruct r as [result|e]; [|done]. destruct Hr as [[_ Hl] Hr].
  cbn. split; [by apply map_err_Ok in Hl|].
  destruct Hr as [?|(plan & Hp & Hb & Hcur & Hcases)]; [by left|right].
  exists plan. split; [done|]. split; [done|]. split; [by apply map_err_Ok in Hcur|].
  destruct Hcases as [[_ ?]|(Hst & Ht & proof & built & hash & Hpr & Hbuild)]; [by left|right].
  split; [done|]. exists proof. split; [done|]. cbn in Hbuild.
  edestruct transact_cases as [(v & db' & H & E & _)|(e & _ & E)];
    rewrite E in Hbuild; [|done]. injection Hbuild as ->.
  unfold build_on in H. apply PathProof.Build_sound in H.
  destruct H as (? & ? & ? & ? & _ & _ & _ & _ & _ & _ & _ & _ & _ & _ & Hpl & _ & _ & _ & _ & Hid & Hv).
  split_and!; [exact Hpl|exact Hid|exact Hv].
Qed.

End Wiring.
