(* ===== verification/Scenario.v ===== *)
(** * A concrete run

    The repositories, the planner, the proof builder and the coordinator on one
    small federation, evaluated by the kernel with the toy hash of Prelude.v: a
    home chain (1) and a source chain (2) with one recorded dependency between
    them, a request for a block of the source chain, its snapshot, its plan and
    its PathProof.  The run provides the witnesses of the properties of the
    database and of the clients. *)

From S2P Require Import Prelude Domain Merkle Evidence TrustView Registry Reorg Planner.
From S2P Require Import PathProof Coordinator Store GraphStore PlanStore ProofStore LiveStore.
From S2P Require Import System Wiring.
Import Domain Store GraphStore PlanStore ProofStore LiveStore System Wiring.

Module Scenario.

(** ** Scripts of transactions *)

Inductive command :=
| DoSync (chains : list LiveChain)
| DoBind (now : Z) (deployment : GatewayDeployment) (block : BlockHeight)
| DoCursor (cursor : Reorg.CanonicalCursor)
| DoAdvance (id : ChainID) (rechecked : Hash) (next : Reorg.CanonicalBlock)
| DoObservation (now : Z) (observation : TrustView.TrustRootObservation)
| DoEvidence (now : Z) (record : Evidence.EvidenceRecord)
| DoEvidenceStep (now : Z) (id : Evidence.ID) (from to : Evidence.State) (reason : string)
| DoEdge (from to : TrustView.TrustNode) (edge : TrustView.TrustEdge)
    (dependency : TrustView.VerifiedDependency)
| DoWitness (witness : TrustView.MembershipWitness)
| DoRequest (now : Z) (request : Coordinator.Request)
| DoRequestStep (now : Z) (id : RequestID) (from to : Coordinator.RequestState)
| DoSnapshot (request : TrustViewSnapshotRequest)
| DoPlan (now : Z) (plan : Planner.Plan).

Section Scripts.
Context (keccak256 : bytes → Hash).

Definition execute (c : command) (db : DB) : res Store.error DB :=
  match c with
  | DoSync chains =>
      registry ← map_err (λ _, ErrConstraint) (NewRegistry (λ _, true) chains); Sync registry db
  | DoBind now deployment block => BindDeployment now deployment block db
  | DoCursor cursor => out ← Initialize cursor db; Ok out.2
  | DoAdvance id rechecked next => out ← AdvanceCursor id rechecked next db; Ok out.2
  | DoObservation now o => out ← SaveObservation keccak256 now o db; Ok out.2
  | DoEvidence now record => out ← ObserveEvidence keccak256 now record db; Ok out.2
  | DoEvidenceStep now id from to reason =>
      out ← TransitionEvidence now id from to None reason db; Ok out.2
  | DoEdge from to edge dependency =>
      out ← MergeActiveTrustEdge keccak256 from to edge dependency db; Ok out.2
  | DoWitness witness => out ← SaveMembershipWitness keccak256 witness db; Ok out.2
  | DoRequest now request => out ← ObserveRequest keccak256 now request db; Ok out.2
  | DoRequestStep now id from to =>
      out ← TransitionRequest now id from to None "" db; Ok out.2
  | DoSnapshot request =>
      if request.(sr_Attempt) <? 0 then Err ErrRange
      else out ← CreateTrustViewSnapshot keccak256 request db; Ok out.2
  | DoPlan now plan => SavePlan keccak256 now plan db
  end.

Fixpoint run (script : list command) (db : DB) : res Store.error DB :=
  match script with
  | [] => Ok db
  | c :: rest => db' ← execute c db; run rest db'
  end.

Lemma execute_step c db db' : execute c db = Ok db' → step keccak256 db db'.
Proof.
  destruct c; cbn.
  - intros (registry & Hr%map_err_Ok & Hs)%bind_Ok. by eapply step_live, step_sync.
  - intros H. by eapply step_live, step_bind.
  - intros ([[c b] d] & H & [= <-])%bind_Ok. by eapply step_live, step_initialize.
  - intros ([[[c b] e] d] & H & [= <-])%bind_Ok. by eapply step_live, step_advance.
  - intros ([[[o n] b] d] & H & [= <-])%bind_Ok. by eapply step_live, step_save_observation.
  - intros ([[r b] d] & H & [= <-])%bind_Ok. by eapply step_live, step_observe_evidence.
  - intros ([[r b] d] & H & [= <-])%bind_Ok. by eapply step_live, step_transition_evidence.
  - intros ([b d] & H & [= <-])%bind_Ok. by eapply step_merge_edge.
  - intros ([b d] & H & [= <-])%bind_Ok. by eapply step_save_witness.
  - intros ([[r b] d] & H & [= <-])%bind_Ok. by eapply step_live, step_observe_request.
  - intros ([[r b] d] & H & [= <-])%bind_Ok. by eapply step_live, step_transition_request.
  - destruct (Z.ltb_spec (sr_Attempt request) 0); [done|].
    intros ([s d] & H' & [= <-])%bind_Ok. by eapply step_live, step_snapshot.
  - intros H. by eapply step_live, step_save_plan.
Qed.

Lemma run_steps script : ∀ db db', run script db = Ok db' → rtc (step keccak256) db db'.
Proof.
  induction script as [|c script IH]; intros db db'; cbn; [by intros [= <-]|].
  intros (d & Hc%execute_step & Hr)%bind_Ok. eapply rtc_l; eauto.
Qed.

(** The database a script leaves. *)
Definition after (script : list command) : DB := default_ok empty_db (run script empty_db).

Lemma after_reachable script :
  is_ok (run script empty_db) = true → reachable keccak256 (after script).
Proof. intros H. by eapply run_steps, default_ok_eq. Qed.
End Scripts.

(** ** The federation *)

Definition word (n : Z) : bytes32 := be_vec 32 n.

Definition home_chain : LiveChain :=
  mkLiveChain "home" (word 1) "http://home" 3 "manifest.json" true.
Definition source_chain : LiveChain :=
  mkLiveChain "source" (word 2) "http://source" 3 "manifest.json" false.

Definition source_root : TrustView.TrustRoot := word 222.
Definition sibling : Hash := word 333.
Definition home_root : TrustView.TrustRoot := Eval vm_compute in
  Merkle.HashPair sample_hash (LeafHash sample_hash source_root (word 99)) sibling.

Definition observation_content (id gateway height hash : Z) (root : TrustView.TrustRoot)
    : TrustView.TrustRootObservationContent :=
  TrustView.mkObservationContent (word id) (word height) (word hash) (sample_address gateway)
    root (word (1000 + id)) 3 (word (height + 5)) (word (hash + 5)).

Definition sample_observation (content : TrustView.TrustRootObservationContent)
    : TrustView.TrustRootObservation :=
  default_ok (TrustView.mkObservation zero32 content None)
    (TrustView.NewTrustRootObservation sample_hash content).

Definition source_observation := Eval vm_compute in
  sample_observation (observation_content 2 9 10 99 source_root).
Definition home_observation := Eval vm_compute in
  sample_observation (observation_content 1 7 50 88 home_root).

Definition source_node := Eval vm_compute in TrustView.Observation_TrustNode sample_hash source_observation.
Definition home_node := Eval vm_compute in TrustView.Observation_TrustNode sample_hash home_observation.

(** The dependency recorded by the home Gateway at leaf 0. *)
Definition sample_dependency (evidenceID : Evidence.ID) : TrustView.VerifiedDependency :=
  TrustView.NewVerifiedDependency sample_hash sample_request.(Coordinator.req_ID) (word 2)
    (word 10) (word 99) source_root 0 evidenceID.

Definition dependency_locator : Evidence.Locator := Eval vm_compute in
  Evidence.mkLocator (word 1) (sample_address 7) (word 50) (word 88) (word 77) 0 0
    (TrustView.ComputeDependencyRecordedPayloadDigest sample_hash (sample_dependency zero32)).

Definition dependency_evidence : Evidence.ID := Eval vm_compute in
  default_ok zero32 (Evidence.ComputeID sample_hash dependency_locator).

Definition sample_edge : TrustView.TrustEdge := Eval vm_compute in
  default_ok (TrustView.mkTrustEdge zero32 zero32 zero32 zero32 0 None 0)
    (TrustView.NewTrustEdge sample_hash home_node.(TrustView.node_ID)
       source_node.(TrustView.node_ID) dependency_evidence 0 None 100).

Definition sample_witness : TrustView.MembershipWitness := Eval vm_compute in
  TrustView.NewMembershipWitness sample_hash dependency_evidence 0 [sibling].

Definition snapshot_request (attempt : Z) : TrustViewSnapshotRequest :=
  mkSnapshotRequest sample_request.(Coordinator.req_ID) attempt (word 1) home_root
    home_node.(TrustView.node_ID) source_node.(TrustView.node_ID).

Definition graph_script : list command :=
  [DoSync [home_chain; source_chain];
   DoBind 3 (mkDeployment (word 1) (sample_address 7) (word 1001)) (word 1);
   DoBind 4 (mkDeployment (word 2) (sample_address 9) (word 1002)) (word 1);
   DoCursor (Reorg.NewCanonicalCursor (word 2) (word 5) (word 505));
   DoObservation 5 source_observation;
   DoObservation 6 home_observation;
   DoEvidence 7 (Evidence.mkRecord dependency_evidence dependency_locator Evidence.Candidate ""
                   None None);
   DoEvidenceStep 8 dependency_evidence Evidence.Candidate Evidence.Verified "log";
   DoEvidenceStep 9 dependency_evidence Evidence.Verified Evidence.Confirmed "depth";
   DoEvidenceStep 10 dependency_evidence Evidence.Confirmed Evidence.Active "indexer";
   DoEdge home_node source_node sample_edge (sample_dependency dependency_evidence);
   DoWitness sample_witness;
   DoRequest 11 sample_request].

Definition snapshot_script : list command := graph_script ++ [DoSnapshot (snapshot_request 1)].

Definition graph_db : DB := after sample_hash graph_script.
Definition sample_db : DB := after sample_hash snapshot_script.

Lemma graph_db_reachable : reachable sample_hash graph_db.
Proof. apply after_reachable. vm_compute. reflexivity. Qed.

Lemma sample_db_reachable : reachable sample_hash sample_db.
Proof. apply after_reachable. vm_compute. reflexivity. Qed.

(** ** What the run computes

    Each of these facts is evaluated once. *)

Definition sample_profile : Registry.ValidatedDirectProfile :=
  Registry.mkValidatedProfile "sample" (word 4) 5000 true.

Definition sample_profiles (id : ChainID) : option Registry.ValidatedDirectProfile :=
  if id =?= word 1 then Some sample_profile else None.

Definition found {A} (o : option A) : bool := match o with Some _ => true | None => false end.

Lemma found_some {A} (o : option A) : found o = true → ∃ a, o = Some a.
Proof. destruct o as [a|]; [by exists a|done]. Qed.

Definition sample_snapshot_ID : TrustView.SnapshotID := Eval vm_compute in
  (live_snapshot sample_hash (snapshot_request 1) graph_db).(TrustView.snap_ID).

Lemma sample_facts :
  found (sample_db.(requests) !! sample_request.(Coordinator.req_ID))
  && found (sample_db.(evidence) !! dependency_evidence)
  && forallb (λ p, p.2.(Coordinator.req_State) =?= Coordinator.Observed)
       (map_to_list sample_db.(requests))
  && (zlen (map_to_list sample_db.(proofs)) =? 0) = true.
Proof. vm_compute. reflexivity. Qed.

Lemma sealing : is_ok (CreateTrustViewSnapshot sample_hash (snapshot_request 1) graph_db) = true.
Proof. vm_compute. reflexivity. Qed.

Definition planning : res (Planner.error Store.error) (Planner.Plan * DB) :=
  plan_on sample_hash 20 sample_profiles
    (Planner.mkRequest sample_request.(Coordinator.req_ID) 1 sample_snapshot_ID (word 1)) sample_db.

Definition planned : Planner.Plan * DB :=
  default_ok (Planner.mkPlan zero32 zero32 0 zero32 "" zero32 "" zero32 zero32 [] 0 None None "" None,
              empty_db) planning.

Lemma planning_Ok :
  is_ok planning && (planned.1.(Planner.plan_Type) =?= Planner.PathPlan) = true.
Proof. vm_compute. reflexivity. Qed.

Definition sample_build_request : PathProof.BuildRequest :=
  PathProof.mkBuildRequest planned.1.(Planner.plan_ID) (word 99) home_root.

Definition building : res (PathProof.error Store.error) (PathProof.PathProof * DB) :=
  build_on sample_hash 21 1 sample_build_request planned.2.

Lemma building_eq :
  building = @PathProof.Build _ _ (proof_repository sample_hash 21) sample_hash 1 (Some 21)
               sample_build_request planned.2.
Proof. reflexivity. Qed.

Lemma building_Ok : is_ok building && found (planned.2.(current_plan) !! sample_request.(Coordinator.req_ID)) = true.
Proof. vm_compute. reflexivity. Qed.

(** The coordinator takes the request from [Observed] to [ProofReady]. *)
Definition sample_rdb : RDB sample_hash := sample_db ↾ sample_db_reachable.

Definition sample_work : Coordinator.Work :=
  Coordinator.mkWork sample_request 1 sample_snapshot_ID home_root.

#[local] Existing Instance services.

Definition processing :=
  @Coordinator.Process (RDB sample_hash) service_error
    (services sample_hash 20 1 sample_profiles) sample_hash sample_work sample_rdb.

Lemma processing_Ok :
  match processing.1.1 with
  | Ok result => result.(Coordinator.result_Request).(Coordinator.req_State) =?= Coordinator.ProofReady
  | Err _ => false
  end = true.
Proof. vm_compute. reflexivity. Qed.

(** ** What follows from it *)

#[local] Opaque graph_db sample_db planned.

Lemma and4 (a b c d : bool) :
  a && b && c && d = true → (a = true ∧ b = true) ∧ (c = true ∧ d = true).
Proof. destruct a, b, c, d; by auto. Qed.

Lemma and2 (a b : bool) : a && b = true → a = true ∧ b = true.
Proof. destruct a, b; by auto. Qed.

Lemma sample_request_row :
  ∃ r, sample_db.(requests) !! sample_request.(Coordinator.req_ID) = Some r.
Proof. destruct (and4 _ _ _ _ sample_facts) as [[H _] _]. exact (found_some _ H). Qed.

Lemma sample_evidence_row : ∃ r, sample_db.(evidence) !! dependency_evidence = Some r.
Proof. destruct (and4 _ _ _ _ sample_facts) as [[_ H] _]. exact (found_some _ H). Qed.

Lemma sealed :
  ∃ s db', CreateTrustViewSnapshot sample_hash (snapshot_request 1) graph_db = Ok (s, db').
Proof.
  pose proof sealing as H. destruct (CreateTrustViewSnapshot _ _ _) as [[s db']|]; [|done]. eauto.
Qed.

Lemma attempt_nonneg : 0 ≤ (snapshot_request 1).(sr_Attempt).
Proof. discriminate. Qed.

Lemma planning_split : planning = Ok planned.
Proof. exact (default_ok_eq _ _ (proj1 (and2 _ _ planning_Ok))). Qed.

Lemma sample_saved :
  ∃ plan db', SavePlan sample_hash 20 plan sample_db = Ok db' ∧ db' = planned.2.
Proof.
  pose proof planning_split as H. unfold planning in H. rewrite (surjective_pairing planned) in H.
  apply plan_on_Ok in H as (plan & Hs & _). exists plan, planned.2. exact (conj Hs eq_refl).
Qed.

Lemma planned_reachable : reachable sample_hash planned.2.
Proof.
  destruct sample_saved as (plan & db' & Hs & <-).
  eapply reachable_trans; [exact sample_db_reachable|]. eapply rtc_once, step_live, step_save_plan, Hs.
Qed.

Lemma plans_only_proofs db db' : plans_only db db' → db'.(proofs) = db.(proofs).
Proof. unfold plans_only. by intros ->. Qed.

Lemma planned_no_proofs id : planned.2.(proofs) !! id = None.
Proof.
  destruct sample_saved as (plan & db' & Hs & <-).
  apply SavePlan_wf in Hs as (_ & Ho & _);
    [|apply reachable_wf; [exact sample_hash_nonzero|exact sample_db_reachable]].
  rewrite (plans_only_proofs _ _ Ho).
  destruct (and4 _ _ _ _ sample_facts) as [_ [_ H]].
  apply Z.eqb_eq, zlen_nil_iff, map_to_list_empty_iff in H. by rewrite H, lookup_empty.
Qed.

Lemma is_ok_some {E A} (m : res E A) : is_ok m = true → ∃ a, m = Ok a.
Proof. destruct m as [a|]; [by exists a|done]. Qed.

Lemma sample_built : ∃ value db', building = Ok (value, db').
Proof.
  destruct (is_ok_some building (proj1 (and2 _ _ building_Ok))) as [[value db'] H].
  exists value, db'. exact H.
Qed.

Lemma observed_rows (m : gmap RequestID Coordinator.Request) id r :
  forallb (λ p, p.2.(Coordinator.req_State) =?= Coordinator.Observed) (map_to_list m) = true →
  m !! id = Some r → r.(Coordinator.req_State) = Coordinator.Observed.
Proof.
  rewrite forallb_forall. intros H Hl. eapply (bool_decide_eq_true_1 _), (H (id, r)).
  by apply list_elem_of_In, elem_of_map_to_list.
Qed.

Lemma sample_durable :
  @Coordinator.durable (RDB sample_hash) service_error
    (services sample_hash 20 1 sample_profiles) sample_rdb.
Proof.
  intros id r Hr. apply Coordinator.plan_ready_early. left. cbn in Hr. unfold LoadRequest in Hr.
  apply map_err_Ok in Hr. destruct (requests sample_db !! id) as [r'|] eqn:Hl; [|done].
  injection Hr as ->. destruct (and4 _ _ _ _ sample_facts) as [_ [H _]]. exact (observed_rows _ _ _ H Hl).
Qed.

(** Snapshots the repositories store are in the range the planner wants. *)
Lemma stored_costs keccak256 db id s :
  db_wf keccak256 db → loadSnapshot db id = Ok s → Planner.costs_in_range s.
Proof.
  intros W. unfold loadSnapshot. destruct (snapshots db !! id) as [s'|] eqn:Hs; [|done].
  intros [= ->]. destruct (t_snapshots _ _ (db_trust _ _ W) _ _ Hs) as [_ OK].
  apply Forall_forall. intros e He%(so_costs _ _ _ OK). unfold u64, MaxUint64, MaxInt64 in *. lia.
Qed.

(** ** Witnesses: the database *)

Lemma requests_explained_witness :
  ∃ r, sample_db.(requests) !! sample_request.(Coordinator.req_ID) = Some r ∧
    request_id sample_hash r = Ok sample_request.(Coordinator.req_ID) ∧
    (length (logged_steps sample_db sample_request.(Coordinator.req_ID)) ≤ 10)%nat.
Proof.
  destruct sample_request_row as [r Hr]. exists r.
  destruct (requests_explained sample_hash sample_db _ r sample_hash_nonzero
    sample_db_reachable Hr) as (H1 & _ & _ & H2 & _).
  exact (conj Hr (conj H1 H2)).
Defined.

Lemma evidence_explained_witness :
  ∃ r, sample_db.(evidence) !! dependency_evidence = Some r ∧
    evidence_identity sample_hash dependency_evidence r.
Proof.
  destruct sample_evidence_row as [r Hr]. exists r.
  exact (conj Hr (proj1 (evidence_explained sample_hash sample_db _ r sample_hash_nonzero
    sample_db_reachable Hr))).
Defined.

Lemma CurrentTrustView_spec_witness :
  ∃ view, CurrentTrustView sample_hash sample_db = Ok view ∧
    view.(TrustView.Revision) = sample_db.(revision).
Proof.
  destruct (CurrentTrustView_spec sample_hash sample_db sample_hash_nonzero
    sample_db_reachable) as (view & H1 & H2 & _).
  exists view. exact (conj H1 H2).
Defined.

Lemma CreateTrustViewSnapshot_spec_witness :
  ∃ s db', CreateTrustViewSnapshot sample_hash (snapshot_request 1) graph_db = Ok (s, db') ∧
    db'.(snapshots) !! s.(TrustView.snap_ID) = Some s.
Proof.
  destruct sealed as (s & db' & H). exists s, db'.
  exact (conj H (proj1 (CreateTrustViewSnapshot_spec (RE := Store.error) sample_hash _ _ _ _
    sample_hash_nonzero graph_db_reachable attempt_nonneg H))).
Defined.

Lemma history_is_kept_witness :
  ∃ db', rtc (step sample_hash) graph_db db' ∧ remembers graph_db db'.
Proof.
  destruct sealed as (s & db' & H). exists db'.
  assert (rtc (step sample_hash) graph_db db') as Hs
    by (exact (rtc_once _ _ (step_live _ _ _ (step_snapshot _ _ _ _ _ attempt_nonneg H)))).
  exact (conj Hs (history_is_kept sample_hash _ _ sample_hash_nonzero graph_db_reachable Hs)).
Defined.

Lemma SavePlan_spec_witness :
  ∃ plan db', SavePlan sample_hash 20 plan sample_db = Ok db' ∧
    db'.(current_plan) !! plan.(Planner.plan_RequestID) = Some plan.(Planner.plan_ID).
Proof.
  destruct sample_saved as (plan & db' & H & _). exists plan, db'.
  exact (conj H (proj1 (SavePlan_spec sample_hash _ _ _ _ sample_hash_nonzero
    sample_db_reachable H))).
Defined.

Lemma SavePathProof_spec_witness :
  ∃ value db' at_, SavePathProof sample_hash 21 value planned.2 = Ok db' ∧
    loadPathProof sample_hash db' value.(PathProof.proof_ID)
      = Ok (PathProof.set_created value (Some at_)).
Proof.
  destruct sample_built as (value & db' & H).
  apply build_on_Ok in H as [(given & H & Hb) _]. exists given, db'.
  destruct (SavePathProof_spec sample_hash _ _ _ _ sample_hash_nonzero planned_reachable H
    (planned_no_proofs _) Hb) as (at_ & plan & Hload & _).
  exists at_. exact (conj H Hload).
Defined.

(** ** Witnesses: the clients *)

Lemma Planner_Plan_spec_witness :
  ∃ plan, plan.(Planner.plan_ID) = Planner.ComputePlanID sample_hash plan ∧
    planning = Ok (plan, planned.2).
Proof.
  exists planned.1.
  pose proof planning_split as H. rewrite (surjective_pairing planned) in H.
  pose proof H as H'. unfold planning, plan_on, Planner.Planner_Plan in H'.
  apply bind_Ok in H' as (snapshot & Hs%map_err_Ok & _).
  pose proof (stored_costs sample_hash sample_db _ snapshot
    (reachable_wf _ sample_hash_nonzero _ sample_db_reachable) Hs) as Hc.
  destruct (@Planner.Planner_Plan_spec _ _ (plan_repository sample_hash 20) sample_hash
    (loadSnapshot sample_db) sample_profiles (Some 20)
    (Planner.mkRequest sample_request.(Coordinator.req_ID) 1 sample_snapshot_ID (word 1))
    sample_db planned.2 planned.1 snapshot Hs Hc H) as (_ & _ & Hid & _).
  exact (conj Hid H).
Defined.

Lemma Build_spec_witness :
  ∃ value, value.(PathProof.proof_ID) = PathProof.ComputePathProofID sample_hash value ∧
    Merkle.VerifyPath sample_hash value.(PathProof.BaseTrustRoot) value.(PathProof.BlockHashes)
      value.(PathProof.Witnesses) home_root 1 = Ok tt.
Proof.
  destruct sample_built as (value & db' & H). exists value.
  rewrite building_eq in H.
  destruct (@PathProof.Build_spec _ _ (proof_repository sample_hash 21) sample_hash 1 (Some 21)
    sample_build_request planned.2 db' value H)
    as (? & ? & ? & ? & _ & _ & _ & _ & _ & _ & _ & _ & _ & _ & _ & _ & _ & _ & _ & Hid & Hv).
  exact (conj Hid Hv).
Defined.

Lemma Process_restart_safe_witness :
  ∃ result s' log, processing = (Ok result, s', log) ∧
    result.(Coordinator.result_Request).(Coordinator.req_State) = Coordinator.ProofReady ∧
    @Coordinator.durable _ _ (services sample_hash 20 1 sample_profiles) s'.
Proof.
  pose proof (@Coordinator.Process_restart_safe _ _ _
    (service_laws sample_hash 20 1 sample_profiles sample_hash_nonzero) sample_hash sample_work
    sample_rdb sample_durable) as H.
  fold processing in H. pose proof processing_Ok as Hst.
  destruct processing as [[[result|e] s'] log]; [|discriminate Hst].
  exists result, s', log. destruct H as (_ & Hd & _).
  exact (conj eq_refl (conj (bool_decide_eq_true_1 _ Hst) Hd)).
Defined.

Lemma Process_on_repositories_witness :
  ∃ result s' log, processing = (Ok result, s', log) ∧
    LoadRequest (`s') result.(Coordinator.result_Request).(Coordinator.req_ID)
      = Ok result.(Coordinator.result_Request).
Proof.
  pose proof (Process_on_repositories sample_hash 20 1 sample_profiles sample_work sample_rdb
    sample_hash_nonzero sample_durable) as H.
  fold processing in H. pose proof processing_Ok as Hst.
  destruct processing as [[[result|e] s'] log]; [|discriminate Hst].
  exists result, s', log. destruct H as (_ & _ & Hl & _). exact (conj eq_refl Hl).
Defined.

(** A cursor moved by two blocks and degraded by a third that does not fit. *)
Definition cursor_script : list command :=
  [DoSync [home_chain; source_chain];
   DoCursor (Reorg.NewCanonicalCursor (word 2) (word 5) (word 505))].

Definition cursor_steps : list command :=
  [DoAdvance (word 2) (word 505) (Reorg.mkBlock (word 6) (word 506) (word 505));
   DoAdvance (word 2) (word 506) (Reorg.mkBlock (word 7) (word 507) (word 506));
   DoAdvance (word 2) (word 507) (Reorg.mkBlock (word 8) (word 508) (word 500))].

Lemma stored_cursors_witness :
  let db := after sample_hash cursor_script in
  let db' := default_ok empty_db (run sample_hash cursor_steps db) in
  db'.(canonical_cursors) !! word 2
  = Some (Reorg.mkCursor (word 2) (word 7) (word 507) Reorg.Degraded rpc_mismatch_reason) ∧
  is_Some (db.(live_chains) !! word 2).
Proof.
  intros db db'. split; [vm_compute; reflexivity|].
  assert (reachable sample_hash db) as Hr by (apply after_reachable; vm_compute; reflexivity).
  assert (rtc (step sample_hash) db db') as Hs
    by (eapply run_steps, default_ok_eq; vm_compute; reflexivity).
  assert (db.(canonical_cursors) !! word 2
    = Some (Reorg.NewCanonicalCursor (word 2) (word 5) (word 505))) as Hc
    by (vm_compute; reflexivity).
  exact (proj1 (stored_cursors sample_hash db db' (word 2) _ sample_hash_nonzero Hr Hs Hc)).
Defined.

End Scenario.
