(* ===== verification/Operational.v ===== *)
(** * Mapnode/app: the operational gate and its guarded operations

    app.go: [App] holds the database, the flags of its workers and the observers
    of the chains.  Its methods are the stores and observers the other
    components are given: the confirmed indexer reads and writes through
    [OperationalStore], the remote validator observes through
    [remoteObservationAdapter], and the workers of evidence and requests call
    [StepRemoteDependencyEvidence], [ObserveRequestEndpoints] and [Process].

    An [App] is a value here; a method is a computation on it, and the section
    it runs under [operationalMu] is one transaction on the database.  The
    clients of the RPC nodes are handles into a world ([Environment]); the wiring
    that [Open] fixes (catalog, profiles, depth of the tree, gossip) are the
    variables of the section. *)

From S2P Require Import Prelude Domain Evidence TrustView Registry Reorg Planner PathProof Coordinator.
From S2P Require Import ChainABI Receipt Indexer Envelope Submission Store GraphStore PlanStore ProofStore.
From S2P Require Import LiveStore System RemoteValidator Tables TransactionStore IndexerStore.
From S2P Require Import IndexerApply Mailbox ChainReader Node Wiring.
Import Domain Tables.

Module Operational.

Import LiveStore.

#[local] Existing Instances Reorg.CanonicalCursor_eq_dec.

(** ** Errors *)

(** [errors.Is] looks through every wrapping, so an error is a tree here. *)
Inductive app_error (E : Type) :=
| ErrOperationalDegraded
| ErrOperationalUnavailable
| ErrTables (e : Tables.error)
| ErrReader (e : ChainReader.error E)
| ErrClient (e : E)
| ErrDial (e : E)
| ErrChainNotFound
| ErrHomeChainNotFound
| ErrTrustRootConflict
| DeterministicStoreError (cause : option Tables.error)
| DeterministicObservationError (e : app_error E)
| ErrInvalidTrustRootObservation (e : app_error E)
| ErrValidatorConfig
| ErrHomeUnconfirmed
| ErrHomeBlock
| ErrProcess (e : Coordinator.error Wiring.service_error).
Arguments ErrOperationalDegraded {E}.
Arguments ErrOperationalUnavailable {E}.
Arguments ErrTables {E} e.
Arguments ErrReader {E} e.
Arguments ErrClient {E} e.
Arguments ErrDial {E} e.
Arguments ErrChainNotFound {E}.
Arguments ErrHomeChainNotFound {E}.
Arguments ErrTrustRootConflict {E}.
Arguments DeterministicStoreError {E} cause.
Arguments DeterministicObservationError {E} e.
Arguments ErrInvalidTrustRootObservation {E} e.
Arguments ErrValidatorConfig {E}.
Arguments ErrHomeUnconfirmed {E}.
Arguments ErrHomeBlock {E}.
Arguments ErrProcess {E} e.

(** [deterministicApplyError] *)
Definition deterministicApplyError (e : Tables.error) : bool :=
  match e with
  | ErrStore Store.ErrRecordConflict | ErrStore Store.ErrConcurrentUpdate
  | ErrStore Store.ErrInactiveEvidence | ErrStore Store.ErrGraphConflict
  | ErrStore Store.ErrEvidenceBinding
  | ErrStore (Store.ErrTrustView TrustView.ErrInvalidTrustEdge)
  | ErrStore (Store.ErrTrustView TrustView.ErrInvalidTrustNode)
  | ErrStore (Store.ErrTrustView TrustView.ErrTrustRootConflict)
  | ErrCursor _ => true
  | _ => false
  end.

(** [errors.Is(err, store.ErrRecordConflict)] and the like. *)
Definition is_store {E} (want : Store.error → bool) (e : app_error E) : bool :=
  match e with ErrTables (ErrStore s) => want s | _ => false end.
Definition conflicting (e : Store.error) : bool :=
  match e with Store.ErrRecordConflict => true | _ => false end.
Definition missing (e : Store.error) : bool :=
  match e with Store.ErrRecordNotFound => true | _ => false end.
Definition contradicting (e : Store.error) : bool :=
  match e with Store.ErrRecordConflict | Store.ErrGraphConflict => true | _ => false end.

(** [deterministicObservationError] *)
Definition deterministicObservationError {E} (e : app_error E) : bool :=
  match e with
  | ErrReader ChainReader.ErrCanonicalBlockMismatch | ErrReader ChainReader.ErrRemoteChainIDMismatch
  | ErrReader ChainReader.ErrGatewayCodeMismatch | ErrReader (ChainReader.ErrGatewayABIMismatch _)
  | ErrReader ChainReader.ErrMalformedRPCResponse | ErrReader (ChainReader.ErrInvalidGatewayManifest _)
  | ErrChainNotFound => true
  | _ => false
  end.

Definition is_deterministic_observation {E} (e : app_error E) : bool :=
  match e with DeterministicObservationError _ => true | _ => false end.

(** ** The world and the application *)

(** [W] has the RPC nodes and the clock, [C] the clients dialled, [E] their
    errors. *)
Class Environment (W C E : Type) := {
  dial : string → W → res E C * W;
  reader_of : C → ChainReader.TrustRootRPC W E;
  remote_of : C → RemoteValidator.RemoteDependencyRPC W E;
  home_of : C → Indexer.EventRPC W E;
  clock : W → Z * W
}.

Record observerBinding (C : Type) := mkBinding {
  client : option C;
  reader : option GatewayDeployment;
  deployment : GatewayDeployment;
  block : BlockHeight
}.
Arguments mkBinding {C} client reader deployment block.
Arguments client {C} o.
Arguments reader {C} o.
Arguments deployment {C} o.
Arguments block {C} o.

Record App (W C : Type) := mkApp {
  database : Database;
  ready : bool;
  indexerValidated : bool;
  indexerFailed : bool;
  p2pFailed : bool;
  executorFailed : bool;
  p2pBootstrapReady : bool;
  observers : gmap ChainID (observerBinding C);
  world : W
}.
Arguments mkApp {W C} database ready indexerValidated indexerFailed p2pFailed executorFailed
  p2pBootstrapReady observers world.
Arguments database {W C} a.
Arguments ready {W C} a.
Arguments indexerValidated {W C} a.
Arguments indexerFailed {W C} a.
Arguments p2pFailed {W C} a.
Arguments executorFailed {W C} a.
Arguments p2pBootstrapReady {W C} a.
Arguments observers {W C} a.
Arguments world {W C} a.

(** The calls whose order matters: an activation with what was validated. *)
Inductive app_event :=
| Activated (item : Mailbox.InboxItem) (v : RemoteValidator.RemoteDependencyValidation)
    (config : RemoteValidator.RemoteDependencyConfig) (answers : list RemoteValidator.answer).

Record OperationalStatus (E : Type) := mkStatus {
  status_Ready : bool;
  status_Degraded : bool;
  status_Reason : option (app_error E)
}.
Arguments mkStatus {E} status_Ready status_Degraded status_Reason.
Arguments status_Ready {E} o.
Arguments status_Degraded {E} o.
Arguments status_Reason {E} o.

Record RequestStatus := mkRequestStatus {
  st_RequestID : RequestID;
  st_PhaseState : Coordinator.RequestState;
  st_Reason : string;
  st_Attempt : Z;
  st_PlanType : string;
  st_HopCount : Z;
  st_FallbackReason : string;
  st_ExecutionState : Submission.ExecutionState;
  st_TxHash : Hash
}.

(** ** The methods *)

Section Methods.
Context (keccak256 sha256 : bytes → Hash) (IDFromBytes : bytes → option Envelope.PeerID).
Context (peer_String : Envelope.PeerID → string) (peer_Decode : string → option Envelope.PeerID).
Context {W C E : Type} `{ENV : !Environment W C E}.
(** What [Open] reads from files and passes on. *)
Context (http_url : string → bool).
Context (read_manifest : string → res (ChainReader.error E) ChainReader.gatewayManifest).
Context (is_hex_address : string → bool) (hex_to_address : string → Address).
Context (from_hex : string → bytes).
Context (catalog : Catalog) (pathTreeDepth : Z).
Context (profiles : ChainID → option Registry.ValidatedDirectProfile).
Context (outboxPeer : option Envelope.PeerID) (p2pRequired : bool).
(** [err.Error()] of an error of a validator or of an observer. *)
Context (error_text : app_error E → string).
Context (validation_text : RemoteValidator.error (app_error E) → string).

Abbreviation App := (App W C).
Abbreviation error := (app_error E).
Abbreviation O F A := (M App app_event F A).

Definition set_database (s : App) (db : Database) : App :=
  mkApp db s.(ready) s.(indexerValidated) s.(indexerFailed) s.(p2pFailed) s.(executorFailed)
    s.(p2pBootstrapReady) s.(observers) s.(world).
Definition set_world (s : App) (w : W) : App :=
  mkApp s.(database) s.(ready) s.(indexerValidated) s.(indexerFailed) s.(p2pFailed)
    s.(executorFailed) s.(p2pBootstrapReady) s.(observers) w.
Definition set_observer (s : App) (id : ChainID) (b : observerBinding C) : App :=
  mkApp s.(database) s.(ready) s.(indexerValidated) s.(indexerFailed) s.(p2pFailed)
    s.(executorFailed) s.(p2pBootstrapReady) (<[id := b]> s.(observers)) s.(world).
Definition set_validated (s : App) : App :=
  mkApp s.(database) s.(ready) true s.(indexerFailed) s.(p2pFailed) s.(executorFailed)
    s.(p2pBootstrapReady) s.(observers) s.(world).
Definition fail_indexer (s : App) : App :=
  mkApp s.(database) s.(ready) s.(indexerValidated) true s.(p2pFailed) s.(executorFailed)
    s.(p2pBootstrapReady) s.(observers) s.(world).
Definition fail_executor (s : App) : App :=
  mkApp s.(database) s.(ready) s.(indexerValidated) s.(indexerFailed) s.(p2pFailed) true
    s.(p2pBootstrapReady) s.(observers) s.(world).
Definition fail_p2p (s : App) : App :=
  mkApp s.(database) s.(ready) s.(indexerValidated) s.(indexerFailed) true s.(executorFailed)
    s.(p2pBootstrapReady) s.(observers) s.(world).

(** ** The gates *)

Definition indexerWorkerGate (s : App) : res error unit :=
  if negb s.(ready) then Err ErrOperationalUnavailable
  else if s.(indexerFailed) then Err ErrOperationalDegraded
  else if s.(p2pFailed) then Err ErrOperationalDegraded
  else if s.(executorFailed) then Err ErrOperationalDegraded
  else if p2pRequired && negb s.(p2pBootstrapReady) then Err ErrOperationalUnavailable
  else if HasDegradedCanonicalCursor s.(database).(core) then Err ErrOperationalDegraded
  else if IndexerStore.HasDegraded s.(database) then Err ErrOperationalDegraded
  else Ok tt.

Definition operationalGate (s : App) : res error unit :=
  _ ← indexerWorkerGate s;
  if negb s.(indexerValidated) then Err ErrOperationalUnavailable else Ok tt.

Definition Ready (s : App) : bool := is_ok (operationalGate s).

Definition OperationalStatus_of (s : App) : OperationalStatus E :=
  match operationalGate s with
  | Ok _ => mkStatus true false None
  | Err e => mkStatus false match e with ErrOperationalDegraded => true | _ => false end (Some e)
  end.

(** [!application.ready.Load()] *)
Definition opened : O error unit :=
  λ s, (if negb s.(ready) then Err ErrOperationalUnavailable else Ok tt, s, []).

Definition check (gate : App → res error unit) : O error unit := λ s, (gate s, s, []).

(** ** Transactions, reads, and calls of the world *)

Definition now {F} : O F Z := λ s, let '(t, w) := clock s.(world) in (Ok t, set_world s w, []).

Definition transaction {A} (op : Database → res Tables.error (A * Database)) : O error A :=
  λ s, match op s.(database) with
       | Ok (a, db) => (Ok a, set_database s db, [])
       | Err e => (Err (ErrTables e), s, [])
       end.

(** The same for an operation that returns the database only. *)
Definition transaction_ (op : Database → res Tables.error Database) : O error unit :=
  transaction (λ db, db' ← op db; Ok (tt, db')).

Definition core_transaction {A} (op : Store.DB → res Store.error (A * Store.DB)) : O error A :=
  transaction (on_core op).

Definition mail_transaction (op : MailTables → res Tables.error MailTables) : O error unit :=
  transaction_ (λ db, m ← op db.(mail); Ok (set_mail db m)).

Definition read {A} (op : Database → res Tables.error A) : O error A :=
  λ s, (map_err ErrTables (op s.(database)), s, []).

Definition core_read {A} (op : Store.DB → res Store.error A) : O error A :=
  read (λ db, map_err ErrStore (op db.(core))).

(** A call of a client, and of a reader on a client. *)
Definition on_client {A} (op : W → res E A * W) (s : App) : res error A * App :=
  let '(r, w) := op s.(world) in (map_err ErrClient r, set_world s w).

Definition on_reader {A} (m : M W ChainReader.answer (ChainReader.error E) A) : O error A :=
  λ s, let '(r, w, _) := m s.(world) in (map_err ErrReader r, set_world s w, []).

(** ** Canonical cursors *)

Definition InitializeCanonicalCursor (cursor : Reorg.CanonicalCursor)
    : O error (Reorg.CanonicalCursor * bool) :=
  _ ← opened; core_transaction (Initialize cursor).

Definition LoadCanonicalCursor (id : ChainID) : O error Reorg.CanonicalCursor :=
  _ ← opened; core_read (λ c, LoadCursor c id).

(** The error of a mismatch comes with a committed cursor. *)
Definition AdvanceCanonicalCursor (id : ChainID) (recheckedHash : Hash)
    (next : Reorg.CanonicalBlock) : O error (Reorg.CanonicalCursor * bool) :=
  _ ← opened;
  '(cursor, changed, mismatch) ← core_transaction (AdvanceCursor id recheckedHash next);
  match mismatch with
  | None => M_ret (cursor, changed)
  | Some e => M_fail (ErrTables (ErrCursor e))
  end.

(** ** The store of the indexer *)

Definition LoadIndexerCursor (id : ChainID) : O error (option Reorg.CanonicalCursor) :=
  _ ← opened;
  M_catch (cursor ← core_read (λ c, LoadCursor c id); M_ret (Some cursor))
    (λ e, if is_store missing e then M_ret None else M_fail e).

Definition InitializeIndexerCursor (cursor : Reorg.CanonicalCursor) : O error unit :=
  _ ← opened;
  M_catch (_ ← core_transaction (Initialize cursor); M_ret tt)
    (λ e, M_fail (if is_store conflicting e
                  then DeterministicStoreError (Some (ErrStore Store.ErrRecordConflict)) else e)).

Definition MarkIndexerValidated (expected : Reorg.CanonicalCursor) : O error unit :=
  _ ← check indexerWorkerGate;
  persisted ← M_catch (core_read (λ c, LoadCursor c expected.(Reorg.cursor_ChainID)))
    (λ e, M_fail (if is_store missing e then DeterministicStoreError None else e));
  if (persisted ≠?= expected) || (persisted.(Reorg.cursor_State) ≠?= Reorg.Healthy)
  then M_fail (DeterministicStoreError None)
  else λ s, (Ok tt, set_validated s, []).

Definition LoadIndexerRequest (id : RequestID) : O error (option Coordinator.Request) :=
  _ ← opened;
  M_catch (request ← core_read (λ c, Store.LoadRequest c id); M_ret (Some request))
    (λ e, if is_store missing e then M_ret None else M_fail e).

Definition ApplyIndexerBlock (confirmed : Indexer.ConfirmedBlock) : O error bool :=
  _ ← check indexerWorkerGate;
  t ← now;
  M_catch
    (transaction (IndexerStore.ApplyConfirmedBlock keccak256 sha256 IDFromBytes peer_String
                    outboxPeer t confirmed))
    (λ e, M_fail match e with
                 | ErrTables cause => if deterministicApplyError cause
                                      then DeterministicStoreError (Some cause) else e
                 | _ => e
                 end).

(** The flag stays set even when the database cannot be written. *)
Definition DegradeIndexerCursor (id : ChainID) (reason : string) : O error unit :=
  _ ← opened;
  _ ← ((λ s, (Ok tt, fail_indexer s, [])) : O error unit);
  _ ← transaction_ (IndexerStore.Degrade id reason);
  found ← M_catch (cursor ← core_read (λ c, LoadCursor c id); M_ret (Some cursor))
    (λ e, if is_store missing e then M_ret None else M_fail e);
  match found with
  | Some _ => _ ← core_transaction (DegradeCursor id reason); M_ret tt
  | None => M_ret tt
  end.

(** ** Observers *)

Definition unbound : observerBinding C :=
  mkBinding None None (mkDeployment zero32 zero_address zero32) zero32.

(** A client is dialled once; a binding is kept when its reader was made. *)
Definition observer (entry : Store.LiveChain) : O error (C * GatewayDeployment * BlockHeight) :=
  binding ← ((λ s, (Ok (default unbound (s.(observers) !! entry.(Store.lc_ChainID))), s, []))
             : O error (observerBinding C));
  match binding.(client), binding.(reader) with
  | Some c, Some r => M_ret (c, r, binding.(block))
  | _, _ =>
      c ← match binding.(client) with
           | Some c => M_ret c
           | None => ((λ s, let '(r, w) := dial entry.(Store.lc_HTTPRPC) s.(world) in
                            (map_err ErrDial r, set_world s w, [])) : O error C)
           end;
      '(r, b) ← M_lift (map_err ErrReader
                  (ChainReader.NewTrustRootReaderForChain http_url read_manifest is_hex_address
                     hex_to_address from_hex entry));
      ((λ s, (Ok (c, r, b),
              set_observer s entry.(Store.lc_ChainID) (mkBinding (Some c) (Some r) r b), []))
       : O error (C * GatewayDeployment * BlockHeight))
  end.

(** [BindDeployment] and [Save] under the gate. *)
Definition persist_observation (bound : GatewayDeployment * BlockHeight)
    (observation : TrustView.TrustRootObservation) (classify : error → error)
    (classify_save : error → error) : O error TrustView.TrustNode :=
  _ ← check indexerWorkerGate;
  t ← now;
  _ ← M_catch (core_transaction (λ c, c' ← BindDeployment t bound.1 bound.2 c; Ok (tt, c')))
        (λ e, M_fail (classify e));
  t' ← now;
  M_catch ('(_, node, _) ← core_transaction (GraphStore.SaveObservation keccak256 t' observation);
           M_ret node)
    (λ e, M_fail (classify_save e)).

Definition deterministic_if (test : error → bool) (e : error) : error :=
  if test e then DeterministicObservationError e else e.

Definition ObserveExpectedTrustRoot (id : ChainID) (height : BlockHeight)
    (blockHash expectedRoot : Hash) : O error TrustView.TrustNode :=
  match catalog_Chain catalog id with
  | None => M_fail (DeterministicObservationError ErrChainNotFound)
  | Some entry =>
      '(c, r, b) ← M_catch (observer entry)
        (λ e, M_fail (deterministic_if deterministicObservationError e));
      observation ← M_catch
        (on_reader (ChainReader.Observe (RPC := reader_of c) keccak256 r height blockHash
                      entry.(Store.lc_Confirmations)))
        (λ e, M_fail (deterministic_if deterministicObservationError e));
      if observation.(TrustView.obs_Content).(TrustView.obs_TrustRoot) ≠?= expectedRoot
      then M_fail (DeterministicObservationError ErrTrustRootConflict)
      else persist_observation (r, b) observation (deterministic_if (is_store conflicting))
             (deterministic_if (is_store contradicting))
  end.

(** ** Remote dependencies *)

(** The clients of an application, as the classes of the components. *)
Definition remote_client (c : C) : RemoteValidator.RemoteDependencyRPC App error :=
  let rpc := remote_of c in {|
  RemoteValidator.remote_ChainID := on_client RemoteValidator.remote_ChainID;
  RemoteValidator.remote_BlockNumber := on_client RemoteValidator.remote_BlockNumber;
  RemoteValidator.remote_HeaderByNumber n := on_client (RemoteValidator.remote_HeaderByNumber n);
  RemoteValidator.remote_CodeAtHash a h := on_client (RemoteValidator.remote_CodeAtHash a h);
  RemoteValidator.remote_TransactionReceipt h :=
    on_client (RemoteValidator.remote_TransactionReceipt h);
  RemoteValidator.remote_FilterLogs from to a topics :=
    on_client (RemoteValidator.remote_FilterLogs from to a topics)
|}.

Definition validated_observation (node : TrustView.TrustNode)
    : RemoteValidator.ValidatedTrustRootObservation :=
  let key := node.(TrustView.node_Key) in
  RemoteValidator.mkObservation key.(TrustView.key_ChainID) key.(TrustView.key_Height)
    key.(TrustView.key_BlockHash) node.(TrustView.node_Root) node.(TrustView.node_EvidenceID).

(** [remoteObservationAdapter] *)
Definition remoteObservationAdapter : RemoteValidator.RemoteTrustRootObserver App error := {|
  RemoteValidator.ObserveExpectedTrustRoot id height blockHash expectedRoot s :=
    match ObserveExpectedTrustRoot id height blockHash expectedRoot s with
    | (Ok node, s', _) => (Ok (validated_observation node), s')
    | (Err e, s', _) =>
        (Err (if deterministicObservationError e || is_deterministic_observation e
              then ErrInvalidTrustRootObservation e else e), s')
    end;
  RemoteValidator.invalid_observation e :=
    match e with ErrInvalidTrustRootObservation _ => true | _ => false end
|}.

(** [remoteValidator]: the client and the configuration of the validator. *)
Definition remoteValidator (entry : Store.LiveChain)
    : O error (C * RemoteValidator.RemoteDependencyConfig) :=
  '(c, _, _) ← observer entry;
  config ← M_lift (map_err ErrReader
    (ChainReader.LoadGatewayDeploymentConfig http_url read_manifest is_hex_address hex_to_address
       from_hex entry));
  let validator := RemoteValidator.mkConfig entry.(Store.lc_ChainID)
    config.(ChainReader.gc_Deployment).(gd_Address) config.(ChainReader.gc_Deployment).(gd_CodeHash)
    (wrap64 (BlockHeight_BigInt config.(ChainReader.gc_DeploymentBlock)))
    entry.(Store.lc_Confirmations) config.(ChainReader.gc_MerkleDepth)
    config.(ChainReader.gc_PathStepCostGas) in
  if RemoteValidator.NewRemoteDependencyValidator validator then M_ret (c, validator)
  else M_fail ErrValidatorConfig.

Definition second : Z := 1000000000.

(** What becomes of a message. *)
Inductive verdict := Dropped | Postponed | Accepted.

Definition drop (id : Hash) (reason : string) : O error verdict :=
  t ← now; _ ← transaction_ (Mailbox.MarkInvalid t id reason); M_ret Dropped.

Definition postpone (id : Hash) (reason : string) : O error verdict :=
  next ← now; t ← now;
  _ ← mail_transaction (Mailbox.inbox_MarkRetryable t id reason (Some (next + second)));
  M_ret Postponed.

(** [Validate] on a client, with what it was told. *)
Definition validate (c : C) (config : RemoteValidator.RemoteDependencyConfig)
    (locator : Evidence.Locator)
    : O error (res (RemoteValidator.error error) RemoteValidator.RemoteDependencyValidation
               * list RemoteValidator.answer) :=
  λ s, let '(r, s', answers) :=
         RemoteValidator.Validate (RPC := remote_client c) (OBS := remoteObservationAdapter)
           keccak256 config locator s in
       (Ok (r, answers), s', []).

Definition note (ev : app_event) : O error unit := λ s, (Ok tt, s, [ev]).

(** The body of the loop over the pending messages. *)
Definition step_message (item : Mailbox.InboxItem) : O error verdict :=
  let envelope := item.(Mailbox.item_Envelope) in
  let id := envelope.(Envelope.MessageID) in
  match catalog_Chain catalog envelope.(Envelope.RecordingChainID) with
  | None => drop id "recording chain is absent from trusted catalog"
  | Some entry =>
      validator ← M_catch (v ← remoteValidator entry; M_ret (Ok v)) (λ e, M_ret (Err e));
      match validator with
      | Err e => if deterministicObservationError e then drop id (error_text e)
                 else postpone id (error_text e)
      | Ok (c, config) =>
          '(outcome, answers) ← validate c config (Envelope.envelope_Locator envelope);
          match outcome with
          | Err (RemoteValidator.ErrRemoteDependencyInvalid _ as e) => drop id (validation_text e)
          | Err (RemoteValidator.ErrRemoteDependencyRetryable _ _ as e) =>
              postpone id (validation_text e)
          | Ok v =>
              _ ← check indexerWorkerGate;
              _ ← note (Activated item v config answers);
              t ← now;
              _ ← transaction (Mailbox.Activate keccak256 t id v);
              M_ret Accepted
          end
      end
  end.

(** An error comes with the number of messages validated so far. *)
Fixpoint step_messages (items : list Mailbox.InboxItem) (validated : Z) : O (Z * error) Z :=
  match items with
  | [] => M_ret validated
  | item :: rest =>
      v ← M_catch (step_message item) (λ e, M_fail (validated, e));
      step_messages rest match v with Accepted => validated + 1 | _ => validated end
  end.

Definition StepRemoteDependencyEvidence : O (Z * error) Z :=
  items ← M_catch
    (t ← now; read (λ db, Mailbox.inbox_Pending sha256 IDFromBytes peer_Decode 64 t db.(mail)))
    (λ e, M_fail (0, e));
  step_messages items 0.

(** ** Requests *)

Definition observeAndPersist (entry : Store.LiveChain) (height : BlockHeight) (hash : Hash)
    : O error TrustView.TrustNode :=
  '(c, r, b) ← observer entry;
  observation ← on_reader (ChainReader.Observe (RPC := reader_of c) keccak256 r height hash
                             entry.(Store.lc_Confirmations));
  persist_observation (r, b) observation id id.

(** The latest header, or the one at a height, of a client. *)
Definition client_header (c : C) (number : option Z) (otherwise : error)
    : O error Indexer.Header :=
  λ s, let '(r, w) := ChainReader.reader_HeaderByNumber (TrustRootRPC := reader_of c) number
                        s.(world) in
       (match r with Ok (Some h) => Ok h | _ => Err otherwise end, set_world s w, []).

Definition ObserveRequestEndpoints (request : Coordinator.Request)
    : O error (TrustView.TrustNode * TrustView.TrustNode) :=
  match catalog_Chain catalog request.(Coordinator.req_SourceChainID) with
  | None => M_fail ErrChainNotFound
  | Some sourceEntry =>
      source ← observeAndPersist sourceEntry request.(Coordinator.req_SourceHeight)
                 request.(Coordinator.req_SourceBlockHash);
      match catalog_HomeChain catalog with
      | None => M_fail ErrHomeChainNotFound
      | Some homeEntry =>
          '(c, _, _) ← observer homeEntry;
          head ← client_header c None ErrHomeUnconfirmed;
          match head.(Indexer.header_Number) with
          | None => M_fail ErrHomeUnconfirmed
          | Some number =>
              if (number <? 0) || (MaxUint64 <? number)
                 || (number <? homeEntry.(Store.lc_Confirmations))
              then M_fail ErrHomeUnconfirmed
              else
                let safeHeight := number - homeEntry.(Store.lc_Confirmations) in
                header ← client_header c (Some safeHeight) ErrHomeBlock;
                home ← observeAndPersist homeEntry (uint256FromUint64 safeHeight)
                         header.(Indexer.header_Hash);
                M_ret (home, source)
          end
      end
  end.

(** The coordinator on the repositories of the application. *)
Definition service {A F} (wrap : F → Wiring.service_error) (op : Z → Store.DB → res F (A * Store.DB))
    (s : App) : res Wiring.service_error A * App :=
  let '(t, w) := clock s.(world) in
  match op t s.(database).(core) with
  | Ok (a, c) => (Ok a, set_database (set_world s w) (set_core s.(database) c))
  | Err e => (Err (wrap e), set_world s w)
  end.

Definition app_services : Coordinator.Services App Wiring.service_error := {|
  Coordinator.Observe request :=
    service Wiring.ErrStore (λ t, Wiring.observe_on keccak256 t request);
  Coordinator.LoadRequest id s :=
    map_err Wiring.ErrStore (Store.LoadRequest s.(database).(core) id);
  Coordinator.Transition id from to reason :=
    service Wiring.ErrStore (λ t, Wiring.transition_on t id from to reason);
  Coordinator.RequireEvidenceReady request s :=
    (λ e, Coordinator.GateFailed (Wiring.ErrStore e))
      <$> GraphStore.RequireEvidenceReady request s.(database).(core);
  Coordinator.LoadCurrentPlan id s :=
    map_err Wiring.ErrStore (PlanStore.LoadCurrentPlan keccak256 s.(database).(core) id);
  Coordinator.is_plan_not_found e :=
    match e with Wiring.ErrStore Store.ErrPlanNotFound => true | _ => false end;
  Coordinator.PlanRequest request :=
    service Wiring.ErrPlanner (λ t, Wiring.plan_on keccak256 t profiles request);
  Coordinator.BuildProof request :=
    service Wiring.ErrBuilder (λ t, Wiring.build_on keccak256 t pathTreeDepth request)
|}.

Definition Process (work : Coordinator.Work) : O error Coordinator.Result :=
  _ ← check operationalGate;
  ((λ s, let '(r, s', _) := Coordinator.Process (SV := app_services) keccak256 work s in
         (map_err ErrProcess r, s', [])) : O error Coordinator.Result).

(** One turn of [RunRequestWorker], [step] being [RequestWorker.Step]: an error
    stops the worker for good. *)
Definition request_worker_turn (step : O error bool) : O error unit :=
  λ s, match operationalGate s with
       | Err ErrOperationalDegraded => (Err ErrOperationalDegraded, fail_executor s, [])
       | Err _ => (Ok tt, s, [])
       | Ok _ => match step s with
                 | (Ok _, s', log) => (Ok tt, s', log)
                 | (Err e, s', log) => (Err e, fail_executor s', log)
                 end
       end.

(** One turn of [RunRemoteDependencyEvidence] under
    [runDependencyEvidenceSupervisor]. *)
Definition evidence_worker_turn : O error unit :=
  λ s, match StepRemoteDependencyEvidence s with
       | (Ok _, s', log) => (Ok tt, s', log)
       | (Err (_, e), s', log) => (Err e, fail_p2p s', log)
       end.

(** ** Status of a request *)

Definition RequestStatus_of (s : App) (id : RequestID) : res error (option RequestStatus) :=
  match Store.LoadRequest s.(database).(core) id with
  | Err e => if missing e then Ok None else Err (ErrTables (ErrStore e))
  | Ok request =>
      let base := mkRequestStatus id request.(Coordinator.req_State)
        request.(Coordinator.req_Reason) 0 "" 0 "" "" zero32 in
      planned ← match PlanStore.LoadCurrentPlan keccak256 s.(database).(core) id with
                 | Ok plan =>
                     Ok (mkRequestStatus id base.(st_PhaseState) base.(st_Reason)
                           plan.(Planner.plan_Attempt) plan.(Planner.plan_Type)
                           (zlen plan.(Planner.plan_Hops)) plan.(Planner.plan_FallbackReason) ""
                           zero32)
                 | Err Store.ErrPlanNotFound => Ok base
                 | Err e => Err (ErrTables (ErrStore e))
                 end;
      match TransactionStore.LoadLatestForRequest s.(database) id with
      | Ok submission =>
          Ok (Some (mkRequestStatus id planned.(st_PhaseState)
                (if submission.(Submission.sub_Reason) =?= "" then planned.(st_Reason)
                 else submission.(Submission.sub_Reason))
                submission.(Submission.sub_Attempt) submission.(Submission.sub_PlanType)
                planned.(st_HopCount) planned.(st_FallbackReason)
                submission.(Submission.sub_State) submission.(Submission.sub_TxHash)))
      | Err (ErrStore Store.ErrRecordNotFound) => Ok (Some planned)
      | Err e => Err (ErrTables e)
      end
  end.

Definition CurrentTrustView (s : App) : res Store.error TrustView.TrustView :=
  GraphStore.CurrentTrustView keccak256 s.(database).(core).

(** ** The indexer on the application *)

Definition run {F A} (m : O F A) (s : App) : res F A * App := (m s).1.

Definition operational_store : Indexer.OperationalStore App error := {|
  Indexer.LoadIndexerCursor id := run (LoadIndexerCursor id);
  Indexer.InitializeIndexerCursor cursor := run (InitializeIndexerCursor cursor);
  Indexer.MarkIndexerValidated cursor := run (MarkIndexerValidated cursor);
  Indexer.LoadIndexerRequest id := run (LoadIndexerRequest id);
  Indexer.ObserveExpectedTrustRoot id height blockHash root :=
    run (ObserveExpectedTrustRoot id height blockHash root);
  Indexer.ApplyIndexerBlock confirmed := run (ApplyIndexerBlock confirmed);
  Indexer.DegradeIndexerCursor id reason := run (DegradeIndexerCursor id reason);
  Indexer.deterministic_store e :=
    match e with DeterministicStoreError _ => true | _ => false end;
  Indexer.deterministic_observation e := is_deterministic_observation e
|}.

Definition home_client (c : C) : Indexer.EventRPC App error :=
  let rpc := home_of c in {|
  Indexer.rpc_BlockNumber := on_client Indexer.rpc_BlockNumber;
  Indexer.rpc_ChainID := on_client Indexer.rpc_ChainID;
  Indexer.rpc_HeaderByNumber n := on_client (Indexer.rpc_HeaderByNumber n);
  Indexer.rpc_CodeAtHash a h := on_client (Indexer.rpc_CodeAtHash a h);
  Indexer.rpc_FilterLogs from to a := on_client (Indexer.rpc_FilterLogs from to a);
  Indexer.rpc_TransactionReceipt h := on_client (Indexer.rpc_TransactionReceipt h);
  Indexer.time_Now s := let '(t, w) := Indexer.time_Now s.(world) in (t, set_world s w)
|}.

(** [StepConfirmedIndexer] *)
Definition StepConfirmedIndexer (c : C) (text : Indexer.failure error → string)
    (config : Indexer.ConfirmedEventIndexerConfig) (validated : bool)
    : M App Indexer.event (Indexer.StepResult * Indexer.step_error error)
        (Indexer.StepResult * bool) :=
  Indexer.Step (RPC := home_client c) (ST := operational_store) keccak256 text config validated.
End Methods.

End Operational.
