(* ===== verification/ClientRuns.v ===== *)
(** * The clients on any state

    The confirmed indexer, the validator of remote dependencies and the
    coordinator call out through classes.  Whatever state they run on: if the
    calls move it along a preorder, so does a run ([keeps]); and an error of
    [Step] that says the indexer failed closed comes right after
    [DegradeIndexerCursor] ([fails]).  OperationalRuns.v uses both for the
    application of Operational.v. *)

From S2P Require Import Prelude Domain Evidence TrustView Planner PathProof Coordinator ChainABI Receipt Indexer RemoteValidator.
Import Domain.

Module ClientRuns.

Section Clients.
Context {S E : Type} (keccak256 : bytes → Hash) (R : S → S → Prop) `{!PreOrder R}.

(** The calls of the indexer move the state along [R]; the application of a
    block does so when the block satisfies [P]. *)
Record indexer_keeps (RPC : Indexer.EventRPC S E) (ST : Indexer.OperationalStore S E)
    (P : Indexer.ConfirmedBlock → Prop) : Prop := {
  ik_number s : R s (Indexer.rpc_BlockNumber s).2;
  ik_chain s : R s (Indexer.rpc_ChainID s).2;
  ik_header n s : R s (Indexer.rpc_HeaderByNumber n s).2;
  ik_code a h s : R s (Indexer.rpc_CodeAtHash a h s).2;
  ik_filter f t a s : R s (Indexer.rpc_FilterLogs f t a s).2;
  ik_receipt h s : R s (Indexer.rpc_TransactionReceipt h s).2;
  ik_time s : R s (Indexer.time_Now s).2;
  ik_load id s : R s (Indexer.LoadIndexerCursor id s).2;
  ik_init c s : R s (Indexer.InitializeIndexerCursor c s).2;
  ik_mark c s : R s (Indexer.MarkIndexerValidated c s).2;
  ik_request id s : R s (Indexer.LoadIndexerRequest id s).2;
  ik_observe c h b r s : R s (Indexer.ObserveExpectedTrustRoot c h b r s).2;
  ik_apply b s : P b → R s (Indexer.ApplyIndexerBlock b s).2;
  ik_degrade id reason s : R s (Indexer.DegradeIndexerCursor id reason s).2
}.

Definition applied (P : Indexer.ConfirmedBlock → Prop) (ev : Indexer.event) : Prop :=
  match ev with Indexer.Applied b => P b | _ => True end.

Lemma lifted_call {F A} (wrap : E → F) (op : S → res E A * S) s :
  R s (op s).2 → R s (let '(r, s') := op s in (map_err wrap r, s')).2.
Proof. by destruct (op s). Qed.

Section Indexing.
Context {RPC : Indexer.EventRPC S E} {ST : Indexer.OperationalStore S E}.
Context (P : Indexer.ConfirmedBlock → Prop) (K : indexer_keeps RPC ST P).

Lemma call_keeps {F A} (wrap : E → F) (op : S → res E A * S) :
  (∀ s, R s (op s).2) → keeps R (applied P) (Indexer.call wrap op).
Proof. intros H. apply keeps_call. intros s. by apply lifted_call. Qed.

Lemma record_keeps {F A} (wrap : E → F) ev (op : S → res E A * S) :
  (applied P ev → ∀ s, R s (op s).2) → keeps R (applied P) (Indexer.record wrap ev op).
Proof. intros H. apply keeps_record. intros Hev s. by apply lifted_call, H. Qed.

Lemma now_keeps : keeps R (applied P) (Indexer.now (S := S) (E := E)).
Proof using K.
  apply keeps_call. intros s. pose proof (ik_time _ _ _ K s) as H. by destruct (Indexer.time_Now s).
Qed.

Lemma failClosed_keeps {A} config cause text :
  keeps R (applied P) (Indexer.failClosed (A := A) text config cause).
Proof using K.
  intros s. unfold Indexer.failClosed. cbn zeta. intros _.
  match goal with |- context [Indexer.DegradeIndexerCursor ?i ?r s] =>
    pose proof (ik_degrade _ _ _ K i r s) as H; by destruct (Indexer.DegradeIndexerCursor i r s) end.
Qed.

#[local] Hint Resolve now_keeps failClosed_keeps : keeps.
#[local] Hint Extern 1 (keeps _ _ (Indexer.call _ _)) =>
  apply call_keeps; intros ?; by apply K : keeps.

Lemma collect_logs_keeps config hash logs : ∀ c,
  keeps R (applied P) (Indexer.collect_logs (S := S) (E := E) keccak256 config hash logs c).
Proof using K PreOrder0.
  induction logs as [|x rest IH]; intros c; cbn [Indexer.collect_logs]; keeping.
  unfold Indexer.collect_log. keeping.
Qed.

Lemma prepareBlock_keeps config cursor header logs :
  keeps R (applied P) (Indexer.prepareBlock (S := S) (E := E) keccak256 config cursor header logs).
Proof using K PreOrder0.
  unfold Indexer.prepareBlock, Indexer.prepare_verification, Indexer.materialize,
    Indexer.observe_root.
  apply keeps_bind; [done|apply collect_logs_keeps|]. intros c. keeping.
Qed.

#[local] Hint Resolve prepareBlock_keeps : keeps.

Lemma header_keeps number : keeps R (applied P) (Indexer.header (S := S) (E := E) number).
Proof using K PreOrder0. unfold Indexer.header. keeping. Qed.

Lemma read_header_keeps config text number :
  keeps R (applied P) (Indexer.read_header (S := S) (E := E) text config number).
Proof using K PreOrder0.
  apply keeps_catch; [done|apply header_keeps|]. intros e. unfold Indexer.classifyRPCError. keeping.
Qed.
#[local] Hint Resolve read_header_keeps : keeps.

Lemma validate_keeps config text hash :
  keeps R (applied P) (Indexer.validate_or_close (S := S) (E := E) keccak256 text config hash).
Proof using K PreOrder0.
  unfold Indexer.validate_or_close, Indexer.validateDeployment, Indexer.prepared_or_closed. keeping.
Qed.
#[local] Hint Resolve validate_keeps : keeps.

Lemma store_failed_keeps {A} config text err :
  keeps R (applied P) (Indexer.store_failed (A := A) text config err).
Proof using K PreOrder0. unfold Indexer.store_failed. keeping. Qed.
#[local] Hint Resolve store_failed_keeps : keeps.

Lemma recheck_keeps config text cursor :
  keeps R (applied P) (Indexer.recheck (S := S) (E := E) text config cursor).
Proof using K PreOrder0. unfold Indexer.recheck. keeping. Qed.
#[local] Hint Resolve recheck_keeps : keeps.

Lemma load_keeps config text :
  keeps R (applied P) (Indexer.load_or_initialize (S := S) (E := E) keccak256 text config).
Proof using K PreOrder0.
  unfold Indexer.load_or_initialize. keeping. apply record_keeps. intros _ s. by apply K.
Qed.

Lemma index_block_keeps config text logs number cursor :
  keeps R (applied P) (Indexer.index_block (S := S) (E := E) keccak256 text config logs number cursor).
Proof using K PreOrder0.
  unfold Indexer.index_block, Indexer.prepared_or_closed. keeping.
  apply record_keeps. intros Hb s. by apply K.
Qed.

#[local] Hint Resolve load_keeps index_block_keeps : keeps.

Lemma index_blocks_keeps config text logs rangeEnd : ∀ fuel number cursor result,
  keeps R (applied P)
    (Indexer.index_blocks (S := S) (E := E) keccak256 text config fuel logs number rangeEnd cursor result).
Proof using K PreOrder0.
  induction fuel as [|fuel IH]; intros number cursor result; cbn [Indexer.index_blocks]; keeping.
Qed.
#[local] Hint Resolve index_blocks_keeps : keeps.

Lemma index_ranges_keeps config text start : ∀ fuel rangeStart cursor result,
  keeps R (applied P)
    (Indexer.index_ranges (S := S) (E := E) keccak256 text config fuel start rangeStart cursor result).
Proof using K PreOrder0.
  induction fuel as [|fuel IH]; intros rangeStart cursor result; cbn [Indexer.index_ranges]; keeping.
Qed.
#[local] Hint Resolve index_ranges_keeps : keeps.

Lemma Step_keeps config text validated :
  keeps R (applied P) (Indexer.Step (S := S) (E := E) keccak256 text config validated).
Proof using K PreOrder0.
  unfold Indexer.Step, Indexer.step_from, Indexer.check_cursor. keeping.
  apply record_keeps. intros _ t. by apply K.
Qed.
End Indexing.

(** The same for the validator of remote dependencies. *)
Record validator_keeps (RPC : RemoteValidator.RemoteDependencyRPC S E)
    (OBS : RemoteValidator.RemoteTrustRootObserver S E) : Prop := {
  vk_chain s : R s (RemoteValidator.remote_ChainID s).2;
  vk_number s : R s (RemoteValidator.remote_BlockNumber s).2;
  vk_header n s : R s (RemoteValidator.remote_HeaderByNumber n s).2;
  vk_code a h s : R s (RemoteValidator.remote_CodeAtHash a h s).2;
  vk_receipt h s : R s (RemoteValidator.remote_TransactionReceipt h s).2;
  vk_filter f t a l s : R s (RemoteValidator.remote_FilterLogs f t a l s).2;
  vk_observe c h b r s : R s (RemoteValidator.ObserveExpectedTrustRoot c h b r s).2
}.

Lemma Validate_keeps {RPC : RemoteValidator.RemoteDependencyRPC S E}
    {OBS : RemoteValidator.RemoteTrustRootObserver S E} (K : validator_keeps RPC OBS) config locator :
  keeps R (λ _, True) (RemoteValidator.Validate (S := S) (E := E) keccak256 config locator).
Proof using PreOrder0.
  assert (∀ A operation (op : S → res E A * S), (∀ s, R s (op s).2) →
    keeps R (λ _, True) (RemoteValidator.ask operation op)) as Hask.
  { intros A operation op H. apply keeps_call. intros s. by apply lifted_call. }
  assert (∀ a, keeps R (λ _, True) (RemoteValidator.saw (S := S) (E := E) a)) as Hsaw
    by (intros a s _; reflexivity).
  assert (∀ operation n, keeps R (λ _, True)
    (RemoteValidator.read_header (S := S) (E := E) operation n)) as Hheader.
  { intros operation n. unfold RemoteValidator.read_header.
    apply keeps_bind; [done|apply Hask, K|]. intros h. keeping. }
  assert (∀ operation c h b r, keeps R (λ _, True)
    (RemoteValidator.observe (S := S) (E := E) operation c h b r)) as Hobserve.
  { intros operation c h b r. unfold RemoteValidator.observe. apply keeps_bind; [done| |keeping].
    - apply keeps_call. intros s. by apply lifted_call, K.
    - intros o. keeping. }
  unfold RemoteValidator.Validate, RemoteValidator.read_block, RemoteValidator.loadRequest,
    RemoteValidator.invalid, RemoteValidator.retry.
  keeping; first [apply Hask, K|destruct a2, a4; keeping].
Qed.

(** *** How the indexer fails closed *)

(** Every error of the computation satisfies [Q] in the state it leaves. *)
Definition fails {F A} {S' Ev : Type} (Q : F → S' → Prop) (m : M S' Ev F A) : Prop :=
  ∀ s, match m s with (Err e, s', _) => Q e s' | _ => True end.

Section Failing.
Context {S' Ev F : Type} (Q : F → S' → Prop).

Lemma fails_ret {A} (a : A) : fails Q (M_ret a : M S' Ev F A).
Proof. by intros s. Qed.

Lemma fails_fail {A} e : (∀ s, Q e s) → fails Q (M_fail e : M S' Ev F A).
Proof. intros H s. apply H. Qed.

Lemma fails_bind {A B} (m : M S' Ev F A) (k : A → M S' Ev F B) :
  fails Q m → (∀ a, fails Q (k a)) → fails Q (m ≫= k).
Proof.
  intros Hm Hk s. specialize (Hm s). unfold mbind, M_mbind, M_bind.
  destruct (m s) as [[[a|e] s1] log]; [|done]. specialize (Hk a s1).
  by destruct (k a s1) as [[[b|e] s2] log2].
Qed.

Lemma fails_catch {G A} (m : M S' Ev G A) (handle : G → M S' Ev F A) :
  (∀ e, fails Q (handle e)) → fails Q (M_catch m handle).
Proof.
  intros Hk s. unfold M_catch. destruct (m s) as [[[a|e] s1] log]; [done|].
  specialize (Hk e s1). by destruct (handle e s1) as [[[b|e'] s2] log2].
Qed.
End Failing.

Section FailClosed.
Context {RPC : Indexer.EventRPC S E} {ST : Indexer.OperationalStore S E}.
(** What holds after [DegradeIndexerCursor], with its error. *)
Context (D : option E → S → Prop).
Hypothesis degraded : ∀ id reason s,
  D (match (Indexer.DegradeIndexerCursor id reason s).1 with Ok _ => None | Err e => Some e end)
    (Indexer.DegradeIndexerCursor id reason s).2.

Definition closed_error (e : Indexer.step_error E) (s : S) : Prop :=
  match e with Indexer.ErrDeterministicIndexing _ persist => D persist s | _ => True end.
Definition closed_result (e : Indexer.StepResult * Indexer.step_error E) (s : S) : Prop :=
  closed_error e.2 s.

Lemma failClosed_fails {A} text config cause :
  fails closed_error (Indexer.failClosed (A := A) text config cause).
Proof using degraded.
  intros s. unfold Indexer.failClosed. cbn zeta.
  match goal with |- context [Indexer.DegradeIndexerCursor ?i ?r s] => pose proof (degraded i r s) as H end.
  destruct (Indexer.DegradeIndexerCursor _ _ s) as [r s']. exact H.
Qed.

Lemma call_fails {A} (wrap : E → Indexer.failure E) (op : S → res E A * S) :
  fails closed_error (Indexer.call (λ e, Indexer.StepFailed (wrap e)) op).
Proof. intros s. unfold Indexer.call, M_call. by destruct (op s) as [[a|e] s']. Qed.

Ltac failing :=
  repeat first
    [ progress cbn zeta
    | apply fails_ret | apply fails_fail; done
    | apply failClosed_fails | apply call_fails
    | apply fails_bind; [|intros ?]
    | apply fails_catch; intros ?
    | match goal with
      | |- fails _ (match ?x with _ => _ end) => destruct x
      end ].

Lemma closing_fails {A} text config err :
  fails closed_error (Indexer.classifyRPCError (A := A) text config err) ∧
  fails closed_error (Indexer.prepared_or_closed (A := A) text config err) ∧
  fails closed_error (Indexer.store_failed (A := A) text config err).
Proof using degraded.
  unfold Indexer.classifyRPCError, Indexer.prepared_or_closed, Indexer.store_failed.
  split_and!; failing.
Qed.

Lemma at_result_fails {A} result (m : M S Indexer.event (Indexer.step_error E) A) :
  fails closed_error m → fails closed_result (Indexer.at_result result m).
Proof.
  intros H s. specialize (H s). unfold Indexer.at_result, M_catch, M_fail.
  by destruct (m s) as [[[a|e] s'] log].
Qed.

Lemma read_header_fails config text number :
  fails closed_error (Indexer.read_header (S := S) (E := E) text config number).
Proof using degraded. apply fails_catch. intros e. by apply closing_fails. Qed.

Lemma recheck_fails config text cursor :
  fails closed_error (Indexer.recheck (S := S) (E := E) text config cursor).
Proof using degraded.
  apply fails_bind; [apply read_header_fails|]. intros h. failing.
Qed.

Lemma load_fails config text :
  fails closed_error (Indexer.load_or_initialize (S := S) (E := E) keccak256 text config).
Proof using degraded.
  unfold Indexer.load_or_initialize, Indexer.validate_or_close.
  apply fails_bind; [apply call_fails|]. intros [cursor|]; [failing|].
  apply fails_bind; [apply read_header_fails|]. intros h.
  apply fails_bind; [apply fails_catch; intros e; by apply closing_fails|]. intros u. cbn zeta.
  apply fails_bind; [apply fails_catch; intros e; by apply closing_fails|intros u'; failing].
Qed.

Lemma index_block_fails config text logs number cursor :
  fails closed_error (Indexer.index_block (S := S) (E := E) keccak256 text config logs number cursor).
Proof using degraded.
  unfold Indexer.index_block. apply fails_bind; [apply recheck_fails|]. intros u.
  apply fails_bind; [apply read_header_fails|]. intros h.
  destruct (_ ≠?= _); [apply failClosed_fails|].
  apply fails_bind; [apply fails_catch; intros e; by apply closing_fails|]. intros b.
  apply fails_bind; [apply fails_catch; intros e; by apply closing_fails|]. intros v. failing.
Qed.

Lemma index_blocks_fails config text logs rangeEnd : ∀ fuel number cursor result,
  fails closed_result
    (Indexer.index_blocks (S := S) (E := E) keccak256 text config fuel logs number rangeEnd cursor result).
Proof using degraded.
  induction fuel as [|fuel IH]; intros number cursor result; cbn [Indexer.index_blocks].
  - failing.
  - destruct (_ <? _); [failing|].
    apply fails_bind; [apply at_result_fails, index_block_fails|]. intros [[c b] n]. apply IH.
Qed.

Lemma index_ranges_fails config text start : ∀ fuel rangeStart cursor result,
  fails closed_result
    (Indexer.index_ranges (S := S) (E := E) keccak256 text config fuel start rangeStart cursor result).
Proof using degraded.
  induction fuel as [|fuel IH]; intros rangeStart cursor result; cbn [Indexer.index_ranges].
  - failing.
  - destruct (_ || _); [failing|]. cbn zeta.
    apply fails_bind; [apply at_result_fails, call_fails|]. intros logs.
    apply fails_bind; [apply at_result_fails; failing|]. intros sorted.
    apply fails_bind; [apply index_blocks_fails|]. intros [c r]. destruct (_ =? _); [failing|apply IH].
Qed.

Lemma Step_fails config text validated :
  fails closed_result (Indexer.Step (S := S) (E := E) keccak256 text config validated).
Proof using degraded.
  unfold Indexer.Step. apply fails_bind.
  { intros s. unfold Indexer.call, M_call. by destruct (Indexer.rpc_BlockNumber s) as [[a|e] s']. }
  intros head. destruct (_ <? _); [failing|]. cbn zeta. destruct (_ || _); [failing|].
  apply fails_bind; [apply at_result_fails, load_fails|]. intros [cursor exists_].
  unfold Indexer.step_from, Indexer.check_cursor.
  apply fails_bind; [apply at_result_fails; failing|]. intros u. destruct (_ <? _); [failing|].
  apply fails_bind.
  { apply at_result_fails. destruct validated; [failing|].
    apply fails_bind; [apply recheck_fails|]. intros u'. destruct exists_; [|failing].
    apply fails_catch. intros e. by apply closing_fails. }
  intros u'. cbn zeta. apply fails_bind; [apply index_ranges_fails|]. intros [c r].
  apply fails_bind; [apply at_result_fails|intros v; failing].
  destruct validated; [failing|]. apply fails_catch. intros e. by apply closing_fails.
Qed.
End FailClosed.

(** And for the coordinator; its records are the states it passes through. *)
Record services_keep (SV : Coordinator.Services S E) : Prop := {
  sk_observe q s : R s (Coordinator.Observe q s).2;
  sk_transition id from to reason s : R s (Coordinator.Transition id from to reason s).2;
  sk_plan q s : R s (Coordinator.PlanRequest q s).2;
  sk_build q s : R s (Coordinator.BuildProof q s).2
}.

Lemma Process_keeps {SV : Coordinator.Services S E} (K : services_keep SV) work :
  keeps R (λ _, True) (Coordinator.Process (S := S) (E := E) keccak256 work).
Proof using PreOrder0.
  assert (∀ A (f : S → res E A * S), (∀ s, R s (f s).2) →
    keeps R (λ _, True) (Coordinator.M_op f)) as Hop.
  { intros A f H s _. unfold Coordinator.M_op. specialize (H s). by destruct (f s). }
  assert (∀ A (f : S → res E A), keeps R (λ _, True) (Coordinator.M_read f)) as Hread
    by (intros A f s _; cbn; reflexivity).
  assert (∀ id, keeps R (λ _, True) (Coordinator.load_current (S := S) (E := E) id)) as Hcur.
  { intros id s _. unfold Coordinator.load_current.
    by destruct (Coordinator.LoadCurrentPlan id s); [|destruct (Coordinator.is_plan_not_found _)]. }
  assert (∀ id from to reason, keeps R (λ _, True)
    (Coordinator.transition (S := S) (E := E) id from to reason)) as Htrans.
  { intros id from to reason. unfold Coordinator.transition.
    apply keeps_bind; [done|apply Hop, K|]. intros [r b]. keeping. }
  assert (∀ w result, keeps R (λ _, True)
    (Coordinator.process_step (S := S) (E := E) keccak256 w result)) as Hstep.
  { intros w result. unfold Coordinator.process_step, Coordinator.validateWorkPlan.
    keeping; try (apply Hop, K). intros s _. cbn. reflexivity. }
  unfold Coordinator.Process. keeping. by apply Hop, K.
Qed.
End Clients.

End ClientRuns.
