(* ===== verification/OperationalRuns.v ===== *)
(** * The application runs the node

    Every method of Operational.v changes the database by transactions of
    Node.v; with ClientRuns.v, so do the confirmed indexer, the worker of remote
    evidence and the coordinator that run on the application.  A closed gate
    stops them, and a deterministic failure closes it for good. *)

From S2P Require Import Prelude Domain Evidence TrustView Registry Reorg Planner PathProof Coordinator.
From S2P Require Import ChainABI Receipt Indexer Envelope Submission Store GraphStore PlanStore ProofStore.
From S2P Require Import LiveStore System RemoteValidator Tables TransactionStore IndexerStore.
From S2P Require Import IndexerApply Mailbox ChainReader Node Wiring Operational ClientRuns.
Import Domain Tables.

Module OperationalRuns.

Import LiveStore Operational ClientRuns.

(** ** Lemmas: every method is a run of the node *)

Section Runs.
Context (keccak256 sha256 : bytes → Hash) (IDFromBytes : bytes → option Envelope.PeerID).
Context (peer_String : Envelope.PeerID → string) (peer_Decode : string → option Envelope.PeerID).
Context {W C E : Type} `{ENV : !Environment W C E}.
Context (http_url : string → bool).
Context (read_manifest : string → res (ChainReader.error E) ChainReader.gatewayManifest).
Context (is_hex_address : string → bool) (hex_to_address : string → Address).
Context (from_hex : string → bytes).
Context (catalog : Catalog) (pathTreeDepth : Z).
Context (profiles : ChainID → option Registry.ValidatedDirectProfile).
Context (outboxPeer : option Envelope.PeerID) (p2pRequired : bool).

Abbreviation node_steps :=
  (rtc (Node.node_step keccak256 sha256 IDFromBytes peer_String peer_Decode)).

(** The database only moves by transactions of the node. *)
Definition moves (s s' : App W C) : Prop := node_steps s.(database) s'.(database).

#[export] Instance moves_preorder : PreOrder moves.
Proof. split; [intros s; apply rtc_refl|]. intros a b c. unfold moves. by etrans. Qed.

Section Moving.
Context (P : app_event → Prop).
Abbreviation moving := (keeps moves P).

Lemma quiet_moving {F A} (m : M (App W C) app_event F A) :
  (∀ s, (m s).1.2.(database) = s.(database)) → moving m.
Proof. intros H s _. unfold moves. rewrite H. apply rtc_refl. Qed.

Lemma transaction_moving {A} (op : Database → res Tables.error (A * Database)) :
  (∀ db a db', op db = Ok (a, db') → node_steps db db') →
  moving (transaction (E := E) (W := W) (C := C) op).
Proof.
  intros H s _. unfold transaction, moves. destruct (op (database s)) as [[a db]|e] eqn:E0; cbn; [by eapply H|apply rtc_refl].
Qed.

Lemma live_moving {A} (op : Store.DB → res Store.error (A * Store.DB)) :
  (∀ c a c', op c = Ok (a, c') → System.live_step keccak256 c c') →
  moving (core_transaction (E := E) (W := W) (C := C) op).
Proof.
  intros H. apply transaction_moving. intros db a db'. unfold on_core.
  intros ([a' c] & Hop%map_err_Ok & [= <- <-])%bind_Ok.
  eapply rtc_once, Node.node_core; [by eapply H|done].
Qed.

Lemma now_moving {F} : moving (now (F := F) (W := W) (C := C)).
Proof. apply quiet_moving. intros s. unfold now. by destruct (clock (world s)). Qed.

Lemma check_moving gate : moving (check (E := E) (W := W) (C := C) gate).
Proof. by apply quiet_moving. Qed.

Lemma opened_moving : moving (opened (E := E) (W := W) (C := C)).
Proof. by apply quiet_moving. Qed.

Lemma read_moving {A} (op : Database → res Tables.error A) :
  moving (read (E := E) (W := W) (C := C) op).
Proof. by apply quiet_moving. Qed.

Lemma reader_moving {A} (m : M W ChainReader.answer (ChainReader.error E) A) :
  moving (on_reader (C := C) m).
Proof. apply quiet_moving. intros s. unfold on_reader. by destruct (m (world s)) as [[r w] l]. Qed.

Lemma client_kept {A} (op : W → res E A * W) (s : App W C) :
  (on_client op s).2.(database) = s.(database).
Proof. unfold on_client. by destruct (op (world s)). Qed.

#[local] Hint Resolve now_moving check_moving opened_moving read_moving reader_moving : keeps.
#[local] Hint Extern 1 (keeps _ _ (core_read _)) => apply read_moving : keeps.

Lemma observer_moving entry :
  moving (observer (ENV := ENV) http_url read_manifest is_hex_address hex_to_address from_hex entry).
Proof.
  unfold observer. apply keeps_bind; [exact _|by apply quiet_moving|]. intros b.
  assert (moving ((λ s, let '(r, w) := dial entry.(Store.lc_HTTPRPC) s.(world) in
    (map_err ErrDial r, set_world s w, [])) : M (App W C) app_event (app_error E) C)) as Hd.
  { apply quiet_moving. intros s. by destruct (dial _ _). }
  destruct (client b) as [c|], (reader b) as [r|]; keeping; by apply quiet_moving.
Qed.
#[local] Hint Resolve observer_moving : keeps.

Lemma persist_moving bound observation f g :
  moving (persist_observation (ENV := ENV) keccak256 p2pRequired bound observation f g).
Proof.
  unfold persist_observation. keeping.
  - apply live_moving. intros c u c'. intros (c1 & H & [= <- <-])%bind_Ok.
    by eapply System.step_bind.
  - apply live_moving. intros c [[o n] b] c' H. by eapply System.step_save_observation.
Qed.
#[local] Hint Resolve persist_moving : keeps.

Abbreviation observe_expected :=
  (ObserveExpectedTrustRoot keccak256 (ENV := ENV) http_url read_manifest is_hex_address
     hex_to_address from_hex catalog p2pRequired).

Lemma observe_expected_moving id height hash root : moving (observe_expected id height hash root).
Proof. unfold ObserveExpectedTrustRoot. keeping. Qed.

Lemma apply_moving confirmed t :
  IndexerApply.foreign_sources confirmed →
  moving (transaction (E := E) (W := W) (C := C)
    (IndexerStore.ApplyConfirmedBlock keccak256 sha256 IDFromBytes peer_String outboxPeer t confirmed)).
Proof.
  intros Hf. apply transaction_moving. intros db b db' H. eapply rtc_once.
  by eapply Node.node_block.
Qed.

Lemma header_moving c number otherwise :
  moving (client_header (ENV := ENV) c number otherwise).
Proof.
  apply quiet_moving. intros s. unfold client_header. by destruct (ChainReader.reader_HeaderByNumber _ _).
Qed.

Lemma canonical_initialize_moving cursor :
  moving (InitializeCanonicalCursor (W := W) (C := C) (E := E) cursor).
Proof.
  unfold InitializeCanonicalCursor. keeping. apply live_moving.
  intros c' [cur b] c'' H. by eapply System.step_initialize.
Qed.

Lemma canonical_advance_moving id hash next :
  moving (AdvanceCanonicalCursor (W := W) (C := C) (E := E) id hash next).
Proof.
  unfold AdvanceCanonicalCursor. keeping. apply live_moving.
  intros c' [[cur b] e] c'' H. by eapply System.step_advance.
Qed.

Lemma worker_turn_moving (step : M (App W C) app_event (app_error E) bool) :
  moving step → moving (request_worker_turn p2pRequired step).
Proof.
  intros Hm s Hlog. unfold request_worker_turn in *.
  destruct (operationalGate p2pRequired s) as [u|[]]; try apply rtc_refl.
  specialize (Hm s). destruct (step s) as [[[b|e] s'] log]; cbn in *; [by apply Hm|].
  by specialize (Hm Hlog).
Qed.

Lemma degrade_moving id reason :
  moving (DegradeIndexerCursor (E := E) (W := W) (C := C) id reason).
Proof.
  unfold DegradeIndexerCursor. keeping.
  - apply transaction_moving. intros db u db'. intros (db1 & H & [= <- <-])%bind_Ok.
    by eapply rtc_once, Node.node_degrade.
  - apply live_moving. intros c0 cur c' H. by eapply System.step_degrade.
Qed.

Lemma initialize_moving cursor :
  moving (InitializeIndexerCursor (E := E) (W := W) (C := C) cursor).
Proof.
  unfold InitializeIndexerCursor. keeping.
  apply live_moving. intros c [cur b] c' H. by eapply System.step_initialize.
Qed.

Lemma mark_moving cursor :
  moving (MarkIndexerValidated (E := E) (W := W) (C := C) p2pRequired cursor).
Proof. unfold MarkIndexerValidated. keeping. Qed.
End Moving.

Abbreviation always := (λ _ : app_event, True).

Lemma run_moves {F A} (m : M (App W C) app_event F A) s :
  keeps moves always m → moves s (run m s).2.
Proof. intros H. apply H. by apply Forall_forall. Qed.

Abbreviation store :=
  (operational_store keccak256 sha256 IDFromBytes peer_String (ENV := ENV) http_url read_manifest
     is_hex_address hex_to_address from_hex catalog outboxPeer p2pRequired).

Lemma client_moves {A} (op : W → res E A * W) (s : App W C) : moves s (on_client op s).2.
Proof. unfold moves. rewrite client_kept. apply rtc_refl. Qed.

(** The indexer on the application. *)
Lemma indexer_moves c :
  indexer_keeps moves (home_client c) store IndexerApply.foreign_sources.
Proof.
  split; try (intros; apply client_moves).
  - intros s. unfold moves. cbn. destruct (Indexer.time_Now (world s)) as [t w]. apply rtc_refl.
  - intros id s. apply run_moves. unfold LoadIndexerCursor. keeping; by apply quiet_moving.
  - intros cur s. apply run_moves, initialize_moving.
  - intros cur s. apply run_moves, mark_moving.
  - intros id s. apply run_moves. unfold LoadIndexerRequest. keeping; by apply quiet_moving.
  - intros id h b r s. apply run_moves, observe_expected_moving.
  - intros b s Hf. apply run_moves. unfold ApplyIndexerBlock.
    keeping; [by apply quiet_moving|apply now_moving|by apply apply_moving].
  - intros id reason s. apply run_moves, degrade_moving.
Qed.

(** The validator on the application. *)
Abbreviation adapter :=
  (remoteObservationAdapter keccak256 (ENV := ENV) http_url read_manifest is_hex_address
     hex_to_address from_hex catalog p2pRequired).

Lemma validator_moves c : validator_keeps moves (remote_client c) adapter.
Proof.
  split; try (intros; apply client_moves). intros id h b r s. cbn.
  pose proof (observe_expected_moving always id h b r s) as H.
  destruct (ObserveExpectedTrustRoot _ _ _ _ _ _ _ _ _ _ _ _ s) as [[[n|e] s'] log]; cbn in *;
    apply H; by apply Forall_forall.
Qed.

(** The coordinator on the application. *)
Lemma service_moves {A F} (wrap : F → Wiring.service_error)
    (op : Z → Store.DB → res F (A * Store.DB)) (s : App W C) :
  (∀ t c a c', op t c = Ok (a, c') → System.live_step keccak256 c c') →
  moves s (service wrap op s).2.
Proof.
  intros H. unfold service, moves. destruct (clock (world s)) as [t w].
  destruct (op t (core (database s))) as [[a c]|e] eqn:E0; cbn; [|apply rtc_refl].
  eapply rtc_once, Node.node_core; [by eapply H|done].
Qed.

Lemma services_move : services_keep moves (app_services (ENV := ENV) keccak256 pathTreeDepth profiles).
Proof.
  split.
  - intros q s. apply service_moves. intros t c [r b] c' H. by eapply System.step_observe_request.
  - intros id from to reason s. apply service_moves. intros t c [r b] c' H.
    by eapply System.step_transition_request.
  - intros q s. apply service_moves. intros t c plan c' (decided & H & _)%Wiring.plan_on_Ok.
    by eapply System.step_save_plan.
  - intros q s. apply service_moves. intros t c v c' [(given & H & _) _]%Wiring.build_on_Ok.
    by eapply System.step_save_proof.
Qed.

(** ** Lemmas: the worker of remote evidence *)

Context (error_text : app_error E → string).
Context (validation_text : RemoteValidator.error (app_error E) → string).

Abbreviation step_one :=
  (step_message keccak256 (ENV := ENV) http_url read_manifest
     is_hex_address hex_to_address from_hex catalog p2pRequired error_text validation_text).
Abbreviation validator_of :=
  (remoteValidator (ENV := ENV) http_url read_manifest is_hex_address hex_to_address from_hex).
Abbreviation validate_on :=
  (validate keccak256 (ENV := ENV) http_url read_manifest is_hex_address hex_to_address from_hex
     catalog p2pRequired).

(** The activations of a run join two chains. *)
Definition two_chains (ev : app_event) : Prop :=
  match ev with
  | Activated _ v _ _ =>
      v.(RemoteValidator.SourceObservation).(RemoteValidator.vo_ChainID)
        ≠ v.(RemoteValidator.HomeObservation).(RemoteValidator.vo_ChainID)
  end.

(** An activation follows a validation of the message's evidence under the
    configuration of its recording chain. *)
Definition well_founded (ev : app_event) : Prop :=
  match ev with
  | Activated item v config answers =>
      RemoteValidator.established keccak256 config
        (Envelope.envelope_Locator item.(Mailbox.item_Envelope)) v answers ∧
      ∃ entry, catalog_Chain catalog item.(Mailbox.item_Envelope).(Envelope.RecordingChainID)
          = Some entry ∧
        config.(RemoteValidator.cfg_ChainID) = entry.(Store.lc_ChainID) ∧
        config.(RemoteValidator.cfg_Confirmations) = entry.(Store.lc_Confirmations)
  end.

Section Silent.
Lemma now_silent {F} : silent (now (F := F) (W := W) (C := C)).
Proof. intros s. unfold now. by destruct (clock (world s)). Qed.

Lemma transaction_silent {A} (op : Database → res Tables.error (A * Database)) :
  silent (transaction (E := E) (W := W) (C := C) op).
Proof. intros s. unfold transaction. by destruct (op (database s)) as [[? ?]|]. Qed.

Lemma observer_silent entry :
  silent (observer (ENV := ENV) http_url read_manifest is_hex_address hex_to_address from_hex entry).
Proof.
  unfold observer. apply silent_bind; [done|]. intros b.
  destruct (client b) as [c|], (reader b) as [r|]; try done;
    (apply silent_bind; [|intros c'; apply silent_bind; [done|intros [r' b']; done]]);
    try done; intros s; by destruct (dial _ _).
Qed.

Lemma validator_silent entry : silent (validator_of entry).
Proof.
  unfold remoteValidator. apply silent_bind; [apply observer_silent|]. intros [[c r] b].
  apply silent_bind; [done|]. intros config. by destruct (RemoteValidator.NewRemoteDependencyValidator _).
Qed.

Lemma drop_silent id reason : silent (drop (ENV := ENV) id reason).
Proof.
  unfold drop. apply silent_bind; [apply now_silent|]. intros t.
  apply silent_bind; [apply transaction_silent|done].
Qed.

Lemma postpone_silent id reason : silent (postpone (ENV := ENV) id reason).
Proof.
  unfold postpone. apply silent_bind; [apply now_silent|]. intros n.
  apply silent_bind; [apply now_silent|]. intros t.
  apply silent_bind; [apply transaction_silent|done].
Qed.
End Silent.

(** The configuration of a validator that was made. *)
Lemma validator_config (sane : ∀ path m, read_manifest path = Ok m →
    0 ≤ m.(ChainReader.man_MerkleDepth)) entry s c config s' log :
  validator_of entry s = (Ok (c, config), s', log) →
  RemoteValidator.NewRemoteDependencyValidator config = true ∧
  0 ≤ config.(RemoteValidator.cfg_MerkleDepth) ∧
  config.(RemoteValidator.cfg_ChainID) = entry.(Store.lc_ChainID) ∧
  config.(RemoteValidator.cfg_Confirmations) = entry.(Store.lc_Confirmations).
Proof.
  unfold remoteValidator. intros ([[c' r] b] & s1 & l1 & l2 & _ & H & ->)%M_bind_Ok.
  apply M_bind_Ok in H as (g & s2 & l3 & l4 & (Hg%map_err_Ok & _ & _)%M_lift_Ok & H & ->).
  destruct (RemoteValidator.NewRemoteDependencyValidator _) eqn:Hv; [|done].
  injection H as <- <- _ _. split; [exact Hv|]. split; [|done]. cbn.
  unfold ChainReader.LoadGatewayDeploymentConfig in Hg.
  apply bind_Ok in Hg as (u & _ & Hg). apply bind_Ok in Hg as (m & Hm & Hg).
  apply bind_bool in Hg as [_ Hg]. apply bind_bool in Hg as [_ Hg].
  apply bind_bool in Hg as [_ Hg]. apply bind_bool in Hg as [_ [= <-]]. by eapply sane.
Qed.

(** What one message records: nothing, or one well-founded activation. *)
Definition one_activation (item : Mailbox.InboxItem) (log : list app_event) : Prop :=
  ∃ v config answers, log = [Activated item v config answers] ∧
    well_founded (Activated item v config answers).

Definition message_record (item : Mailbox.InboxItem) (r : res (app_error E) verdict)
    (log : list app_event) : Prop :=
  match r with
  | Ok Accepted => one_activation item log
  | Ok _ => log = []
  | Err _ => log = [] ∨ one_activation item log
  end.

Lemma silent_verdict item (m : M (App W C) app_event (app_error E) verdict) :
  silent m → (∀ s s' log, m s ≠ (Ok Accepted, s', log)) → emits m (message_record item).
Proof.
  intros Hm Hn s. specialize (Hm s). specialize (Hn s).
  destruct (m s) as [[[[]|e] s'] log]; cbn in *; auto. by destruct (Hn s' log).
Qed.

Lemma drop_verdict id reason s s' log :
  drop (ENV := ENV) id reason s ≠ (Ok Accepted, s', log).
Proof.
  unfold drop. intros (t & s1 & l1 & l2 & _ & H & _)%M_bind_Ok.
  by apply M_bind_Ok in H as (u & s2 & l3 & l4 & _ & H & _).
Qed.

Lemma postpone_verdict id reason s s' log :
  postpone (ENV := ENV) id reason s ≠ (Ok Accepted, s', log).
Proof.
  unfold postpone. intros (n & s1 & l1 & l2 & _ & H & _)%M_bind_Ok.
  apply M_bind_Ok in H as (t & s2 & l3 & l4 & _ & H & _).
  by apply M_bind_Ok in H as (u & s3 & l5 & l6 & _ & H & _).
Qed.

Lemma validate_outcome c config locator :
  RemoteValidator.NewRemoteDependencyValidator config = true →
  0 ≤ config.(RemoteValidator.cfg_MerkleDepth) →
  emits (validate_on c config locator) (λ r log, log = [] ∧
    ∀ v answers, r = Ok (Ok v, answers) →
      RemoteValidator.established keccak256 config locator v answers).
Proof.
  intros Hc Hd s. unfold validate.
  destruct (RemoteValidator.Validate _ _ _ s) as [[r s'] answers] eqn:Hv. cbn.
  split; [done|]. intros v a [= -> ->]. by eapply RemoteValidator.Validate_established.
Qed.

Lemma step_message_record (sane : ∀ path m, read_manifest path = Ok m →
    0 ≤ m.(ChainReader.man_MerkleDepth)) item :
  emits (step_one item) (message_record item).
Proof.
  unfold step_message. cbn zeta.
  destruct (catalog_Chain catalog _) as [entry|] eqn:Hentry;
    [|apply silent_verdict; [apply drop_silent|apply drop_verdict]].
  apply (emits_bind _ _ (λ r log, log = [] ∧ ∀ c config, r = Ok (Ok (c, config)) →
    RemoteValidator.NewRemoteDependencyValidator config = true ∧
    0 ≤ config.(RemoteValidator.cfg_MerkleDepth) ∧
    config.(RemoteValidator.cfg_ChainID) = entry.(Store.lc_ChainID) ∧
    config.(RemoteValidator.cfg_Confirmations) = entry.(Store.lc_Confirmations))).
  - intros s. pose proof (validator_silent entry s) as Hs. unfold M_catch, mbind, M_mbind, M_bind.
    destruct (validator_of entry s) as [[[[c config]|e] s'] log] eqn:Hv; cbn in *; subst log.
    + split; [done|]. intros c' config' [= <- <-]. by eapply validator_config.
    + split; [done|]. by intros c' config'.
  - intros e log [-> _]. by left.
  - intros [[c config]|e] log [-> Hok]; cbn.
    2: { destruct (deterministicObservationError e); apply silent_verdict;
         first [apply drop_silent|apply drop_verdict|apply postpone_silent|apply postpone_verdict]. }
    destruct (Hok c config eq_refl) as (Hn & Hd & Hid & Hconf).
    eapply emits_bind; [by apply validate_outcome| |].
    { intros e log [-> _]. by left. }
    intros [[v|e] answers] log [-> Hv]; cbn [app].
    2: { destruct e; apply silent_verdict;
         first [apply drop_silent|apply drop_verdict|apply postpone_silent|apply postpone_verdict]. }
    apply emits_after; [done|by left|]. intros _.
    assert (one_activation item [Activated item v config answers]) as Hone.
    { exists v, config, answers. split; [done|]. split; [by apply Hv|]. by exists entry. }
    apply (emits_bind _ _ (λ _ log, log = [Activated item v config answers])); [done| |].
    { intros e log ->. by right. }
    intros _ log ->. apply emits_after; [apply now_silent|by right|]. intros t.
    apply emits_after; [apply transaction_silent|by right|]. intros b. by apply emits_ret.
Qed.

(** One message moves the database by transactions of the node. *)
Lemma noted_moving ev {A} (m : M (App W C) app_event (app_error E) A) :
  (two_chains ev → keeps moves two_chains m) →
  keeps moves two_chains (_ ← note ev; m).
Proof.
  intros H s. unfold mbind, M_mbind, M_bind, note. specialize (λ h, H h s).
  destruct (m s) as [[r s'] log]. cbn in *. intros [Hev Hlog]%Forall_cons. auto.
Qed.

Lemma activate_moving t id v :
  v.(RemoteValidator.SourceObservation).(RemoteValidator.vo_ChainID)
    ≠ v.(RemoteValidator.HomeObservation).(RemoteValidator.vo_ChainID) →
  keeps moves two_chains
    (transaction (E := E) (W := W) (C := C) (Mailbox.Activate keccak256 t id v)).
Proof.
  intros Hne. apply transaction_moving. intros db b db' H. by eapply rtc_once, Node.node_activate.
Qed.

Lemma drop_moving id reason : keeps moves two_chains (drop (ENV := ENV) id reason).
Proof.
  unfold drop. keeping; [apply now_moving|]. apply transaction_moving.
  intros db u db' (db1 & H & [= <- <-])%bind_Ok. by eapply rtc_once, Node.node_refuse_message.
Qed.

Lemma postpone_moving id reason : keeps moves two_chains (postpone (ENV := ENV) id reason).
Proof.
  unfold postpone. keeping; [apply now_moving..|]. apply transaction_moving.
  intros db u db' (db1 & H & [= <- <-])%bind_Ok. apply bind_Ok in H as (m & H & [= <-]).
  by eapply rtc_once, Node.node_retry_message.
Qed.

Lemma validate_moving c config locator : keeps moves two_chains (validate_on c config locator).
Proof.
  intros s _. unfold validate.
  pose proof (Validate_keeps keccak256 moves (validator_moves c) config locator s) as H.
  destruct (RemoteValidator.Validate _ _ _ s) as [[r s'] log]. cbn in *. apply H. by apply Forall_forall.
Qed.

#[local] Hint Resolve observer_moving : keeps.

Lemma validator_moving entry : keeps moves two_chains (validator_of entry).
Proof. unfold remoteValidator. keeping. Qed.
#[local] Hint Resolve drop_moving postpone_moving validate_moving validator_moving now_moving
  check_moving : keeps.

Lemma step_message_moving item : keeps moves two_chains (step_one item).
Proof.
  unfold step_message. cbn zeta. destruct (catalog_Chain catalog _) as [entry|]; [|keeping].
  apply keeps_bind; [exact _|keeping|]. intros [[c config]|e]; [|keeping].
  apply keeps_bind; [exact _|keeping|]. intros [[v|[]] answers]; [|keeping..].
  apply keeps_bind; [exact _|keeping|]. intros _. apply noted_moving. intros Hne.
  apply keeps_bind; [exact _|keeping|]. intros t.
  apply keeps_bind; [exact _|by apply activate_moving|]. intros b. keeping.
Qed.

Abbreviation node_ok := (Node.node_wf keccak256 sha256 IDFromBytes peer_String).

(** The row of a message that was validated. *)
Definition validated_row (db : Database) (id : Hash) : Prop :=
  ∃ row, db.(mail).(evidence_inbox) !! id = Some row ∧
    row.(in_State) = Mailbox.InboxValidated.

Lemma validated_kept (db db' : Database) id :
  Node.node_kept db db' → validated_row db id → validated_row db' id.
Proof.
  intros K (row & Hrow & Hst).
  destruct (Node.mk_inbox _ _ (Node.nk_mail _ _ K) _ _ Hrow) as (row' & Hrow' & _ & _ & _ & _ & _ & Hsame).
  exists row'. split; [done|]. rewrite Hsame; [done|]. by rewrite Hst.
Qed.

(** An accepted message is validated. *)
Lemma accepted_validated (keccak_nonzero : ∀ l, keccak256 l ≠ zero32) item s s' log :
  node_ok s.(database) → step_one item s = (Ok Accepted, s', log) → Forall two_chains log →
  validated_row s'.(database) item.(Mailbox.item_Envelope).(Envelope.MessageID).
Proof.
  intros W0 H Hlog. unfold step_message in H. cbn zeta in H.
  destruct (catalog_Chain catalog _) as [entry|]; [|by apply drop_verdict in H].
  apply M_bind_Ok in H as ([[c config]|e] & s1 & l1 & k1 & Hv & H & ->).
  2: { destruct (deterministicObservationError e);
       [by apply drop_verdict in H|by apply postpone_verdict in H]. }
  apply M_bind_Ok in H as ([[v|[]] answers] & s2 & l2 & k2 & Ho & H & ->).
  2, 3: by (apply drop_verdict in H || apply postpone_verdict in H).
  apply M_bind_Ok in H as (u & s3 & l3 & k3 & Hgate & H & ->). injection Hgate as _ <- <-.
  apply M_bind_Ok in H as (u' & s4 & l4 & k4 & Hnote & H & ->). injection Hnote as _ <- <-.
  apply M_bind_Ok in H as (t & s5 & l5 & k5 & Hnow & H & ->).
  apply M_bind_Ok in H as (b & s6 & l6 & k6 & Hact & [= -> _] & ->).
  apply Forall_app in Hlog as [L1 Hlog]. apply Forall_app in Hlog as [L2 Hlog].
  cbn [app] in Hlog. apply Forall_cons in Hlog as [Hne _].
  assert (moves s s5) as Hm.
  { transitivity s1; [|transitivity s2].
    - assert (keeps moves two_chains (M_catch (v ← validator_of entry; M_ret (Ok v)) (λ e, M_ret (Err e))
        : M (App W C) app_event (app_error E) (res (app_error E) _))) as Hk by keeping.
      specialize (Hk s). rewrite Hv in Hk. by apply Hk.
    - pose proof (validate_moving c config
        (Envelope.envelope_Locator item.(Mailbox.item_Envelope)) s1) as Hk. rewrite Ho in Hk. by apply Hk.
    - pose proof (now_moving two_chains (F := app_error E) s2) as Hk. rewrite Hnow in Hk. cbn in Hk.
      apply Hk. pose proof (now_silent (F := app_error E) s2) as Hs. rewrite Hnow in Hs. cbn in Hs.
      by rewrite Hs. }
  apply (Node.nodes_good _ _ _ _ _ keccak_nonzero) in Hm as [[W5 _] _]; [|done].
  unfold transaction in Hact.
  destruct (Mailbox.Activate _ _ _ _ (database s5)) as [[b' db']|e] eqn:Ha; [|done].
  injection Hact as _ <- _. cbn.
  destruct (Mailbox.Activate_effect _ _ _ _ _ _ _ _ _ _ W5 Hne Ha) as (r & _ & _ & AE).
  exact (Mailbox.ae_validated _ _ _ _ _ _ _ _ _ _ AE).
Qed.

Abbreviation step_all :=
  (step_messages keccak256 (ENV := ENV) http_url read_manifest is_hex_address hex_to_address
     from_hex catalog p2pRequired error_text validation_text).

Record worker_run (s : App W C) (validated : Z) (r : res (Z * app_error E) Z) (s' : App W C)
    (log : list app_event) : Prop := {
  wr_founded : Forall well_founded log;
  wr_count : match r with
             | Ok n => n = validated + zlen log
             | Err (n, _) => n ≤ validated + zlen log ≤ n + 1
             end;
  wr_moves : Forall two_chains log → moves s s';
  wr_done n : r = Ok n → Forall two_chains log → node_ok s.(database) → ∀ item v config answers,
    Activated item v config answers ∈ log →
    validated_row s'.(database) item.(Mailbox.item_Envelope).(Envelope.MessageID)
}.

Lemma step_messages_run (keccak_nonzero : ∀ l, keccak256 l ≠ zero32)
    (sane : ∀ path m, read_manifest path = Ok m → 0 ≤ m.(ChainReader.man_MerkleDepth)) items :
  ∀ validated s r s' log, step_all items validated s = (r, s', log) → worker_run s validated r s' log.
Proof.
  induction items as [|item rest IH]; intros n s r s' log; cbn [step_messages].
  { intros [= <- <- <-]. split; try done; [unfold zlen; cbn; lia|].
    intros m _ _ _ item v config answers Hin. by apply elem_of_nil in Hin. }
  unfold mbind, M_mbind, M_bind, M_catch.
  pose proof (step_message_record sane item s) as Hrec.
  pose proof (step_message_moving item s) as Hmov.
  destruct (step_one item s) as [[[v|e] s1] l1] eqn:Hone; cbn in Hrec, Hmov.
  2: { intros [= <- <- <-]. rewrite app_nil_r. split; try done; cbn.
    - destruct Hrec as [->|(v & c & a & -> & Hw)]; [done|by apply Forall_singleton].
    - destruct Hrec as [->|(v & c & a & -> & Hw)]; unfold zlen; cbn; lia. }
  destruct (step_all rest _ s1) as [[r2 s2] l2] eqn:Hrest. intros [= <- <- <-].
  apply IH in Hrest as [F2 N2 M2 D2].
  assert (Forall well_founded l1 ∧ zlen l1 = match v with Accepted => 1 | _ => 0 end) as [F1 N1].
  { destruct v; cbn in Hrec; [by subst l1..|]. destruct Hrec as (? & ? & ? & -> & ?).
    by rewrite Forall_singleton. }
  assert (zlen (l1 ++ l2) = zlen l1 + zlen l2) as Hlen by (unfold zlen; rewrite length_app; lia).
  split.
  - by apply Forall_app.
  - rewrite Hlen, N1. destruct r2 as [m|[m e]]; destruct v; lia.
  - intros [L1 L2]%Forall_app. transitivity s1; auto.
  - intros m Hm [L1 L2]%Forall_app Hok it vv config answers [Hin|Hin]%elem_of_app.
    + assert (node_ok s1.(database)) as W1
        by (by eapply (Node.nodes_good _ _ _ _ _ keccak_nonzero), Hok; apply Hmov).
      destruct v; cbn in Hrec; [by subst l1; apply elem_of_nil in Hin..|].
      destruct Hrec as (? & ? & ? & -> & _). apply list_elem_of_singleton in Hin as [= -> _ _ _].
      apply (validated_kept s1.(database)); [|by apply (accepted_validated keccak_nonzero _ _ _ _ Hok Hone)].
      eapply (Node.nodes_good _ _ _ _ _ keccak_nonzero); [by apply M2|done].
    + eapply (D2 m); try done. by eapply (Node.nodes_good _ _ _ _ _ keccak_nonzero), Hok; apply Hmov.
Qed.

(** ** Lemmas: a closed gate *)

Abbreviation gate := (indexerWorkerGate (W := W) (C := C) (E := E) p2pRequired).

(** While the gate is closed for a reason, it stays closed and the database
    stays. *)
Definition shut (s s' : App W C) : Prop :=
  ∀ e, gate s = Err e → gate s' = Err e ∧ s'.(database) = s.(database).

#[local] Instance shut_preorder : PreOrder shut.
Proof.
  split; [by intros s e He|]. intros a b c H1 H2 e [He1 Hd1]%H1.
  apply H2 in He1 as [He2 Hd2]. split; [done|congruence].
Qed.

Lemma shut_quiet {F A} (m : M (App W C) app_event F A) :
  (∀ s, gate (m s).1.2 = gate s ∧ (m s).1.2.(database) = s.(database)) →
  keeps shut (λ _, True) m.
Proof. intros H s _ e He. destruct (H s) as [-> ->]. done. Qed.

Lemma observer_shut entry :
  keeps shut (λ _, True)
    (observer (ENV := ENV) http_url read_manifest is_hex_address hex_to_address from_hex entry).
Proof.
  unfold observer. apply keeps_bind; [exact _|by apply shut_quiet|]. intros b.
  assert (keeps shut (λ _, True) ((λ s, let '(r, w) := dial entry.(Store.lc_HTTPRPC) s.(world) in
    (map_err ErrDial r, set_world s w, [])) : M (App W C) app_event (app_error E) C)) as Hd.
  { apply shut_quiet. intros s. by destruct (dial _ _). }
  destruct (client b) as [c|], (reader b) as [r|]; keeping; by apply shut_quiet.
Qed.

Lemma reader_shut {A} (m : M W ChainReader.answer (ChainReader.error E) A) :
  keeps shut (λ _, True) (on_reader (C := C) m).
Proof. apply shut_quiet. intros s. unfold on_reader. by destruct (m (world s)) as [[r w] l]. Qed.

(** A section behind the gate does nothing while it is closed. *)
Lemma gated_shut {A} (m : M (App W C) app_event (app_error E) A) s e :
  gate s = Err e → (_ ← check gate; m) s = (Err e, s, []).
Proof. intros H. unfold mbind, M_mbind, M_bind, check. by rewrite H. Qed.

Lemma persist_shut bound observation f g :
  keeps shut (λ _, True)
    (persist_observation (ENV := ENV) keccak256 p2pRequired bound observation f g).
Proof.
  intros s _ e He. unfold persist_observation. by rewrite (gated_shut _ _ e).
Qed.

Lemma header_shut c number otherwise :
  keeps shut (λ _, True) (client_header (ENV := ENV) c number otherwise).
Proof.
  apply shut_quiet. intros s. unfold client_header. by destruct (ChainReader.reader_HeaderByNumber _ _).
Qed.
#[local] Hint Resolve observer_shut reader_shut persist_shut header_shut : keeps.

Abbreviation observing :=
  (ObserveExpectedTrustRoot keccak256 (ENV := ENV) http_url read_manifest is_hex_address
     hex_to_address from_hex catalog p2pRequired).
Abbreviation endpoints :=
  (ObserveRequestEndpoints keccak256 (ENV := ENV) http_url read_manifest is_hex_address
     hex_to_address from_hex catalog p2pRequired).

Lemma observing_shut id height hash root :
  keeps shut (λ _, True) (observing id height hash root).
Proof. unfold ObserveExpectedTrustRoot. keeping. Qed.

Lemma endpoints_shut request : keeps shut (λ _, True) (endpoints request).
Proof. unfold ObserveRequestEndpoints, observeAndPersist. keeping. Qed.

Lemma shut_run {F A} (m : M (App W C) app_event F A) s e :
  keeps shut (λ _, True) m → gate s = Err e → (run m s).2.(database) = s.(database).
Proof. intros H He. destruct (H s ltac:(by apply Forall_forall) e He) as [_ Hd]. exact Hd. Qed.

(** A degraded database, of the cursors or of the indexer. *)
Definition degraded_db (db : Database) : bool :=
  HasDegradedCanonicalCursor db.(core) || IndexerStore.HasDegraded db.

Lemma gate_degraded s : degraded_db s.(database) = true → is_ok (gate s) = false.
Proof.
  intros H%orb_true_iff. unfold indexerWorkerGate. repeat case_match; try done.
  destruct H; congruence.
Qed.

Lemma degraded_cursor c :
  HasDegradedCanonicalCursor c = true ↔
  ∃ id cur, c.(Store.canonical_cursors) !! id = Some cur ∧ cur.(Reorg.cursor_State) = Reorg.Degraded.
Proof.
  unfold HasDegradedCanonicalCursor, map_values. rewrite existsb_exists. split.
  - intros (cur & Hin & Hs%bool_decide_eq_true). apply list_elem_of_In, list_elem_of_fmap in Hin
      as ([id cur'] & -> & Hin%elem_of_map_to_list). by exists id, cur'.
  - intros (id & cur & Hl & Hs). exists cur. split; [|by apply bool_decide_eq_true].
    apply list_elem_of_In, list_elem_of_fmap. exists (id, cur). by rewrite elem_of_map_to_list.
Qed.

Lemma degraded_kept (db db' : Database) :
  Node.node_kept db db' → degraded_db db = true → degraded_db db' = true.
Proof.
  intros K [H|H]%orb_true_iff; apply orb_true_iff.
  - left. apply degraded_cursor in H as (id & cur & Hl & Hs).
    destruct (System.rm_cursors _ _ (Node.nk_core _ _ K) _ _ Hl) as (cur' & blocks & Hl' & Hr).
    apply degraded_cursor. exists id, cur'. split; [done|]. by eapply Reorg.degraded_stays in Hr as (_ & ? & _).
  - right. unfold IndexerStore.HasDegraded in *. apply negb_true_iff, bool_decide_eq_false.
    apply negb_true_iff, bool_decide_eq_false in H. intros He. apply H.
    pose proof (IndexerStore.ik_degraded _ _ (Node.nk_index _ _ K)) as Hsub. rewrite He in Hsub.
    apply map_empty. intros i. destruct (indexer_degraded_states (index db) !! i) eqn:Hi; [|done].
    by pose proof (lookup_weaken _ _ _ _ Hi Hsub) as Hx%lookup_empty_Some.
Qed.

(** What [DegradeIndexerCursor] leaves behind. *)
Definition degraded_for (e : option (app_error E)) (s : App W C) : Prop :=
  is_ok (gate s) = false ∧ (e = None → degraded_db s.(database) = true).

Lemma failed_gate s : s.(indexerFailed) = true → is_ok (gate s) = false.
Proof. intros H. unfold indexerWorkerGate. rewrite H. by destruct (negb (ready s)). Qed.

Lemma degrade_spec id reason s :
  degraded_for
    (match (run (DegradeIndexerCursor (E := E) id reason) s).1 with Ok _ => None | Err e => Some e end)
    (run (DegradeIndexerCursor (E := E) id reason) s).2.
Proof.
  unfold run, DegradeIndexerCursor, mbind, M_mbind, M_bind, opened.
  destruct (ready s) eqn:Hr; cbn [negb fst snd].
  2: { split; [|done]. unfold indexerWorkerGate. by rewrite Hr. }
  unfold transaction_, transaction. cbn [database fail_indexer].
  destruct (IndexerStore.Degrade id reason (database s)) as [db|e] eqn:Hd;
    cbn [mbind res_mbind res_bind]; [|split; [by apply failed_gate|done]].
  apply IndexerStore.Degrade_effect in Hd as (_ & [why Hwhy] & _).
  assert (IndexerStore.HasDegraded db = true) as Hdb.
  { unfold IndexerStore.HasDegraded. apply negb_true_iff, bool_decide_eq_false. intros He.
    by rewrite He in Hwhy. }
  unfold M_catch, core_read, read, M_fail, M_ret. cbn [database set_database].
  destruct (LoadCursor (core db) id) as [cur|e]; cbn [map_err fst snd].
  - unfold core_transaction, transaction, on_core. cbn [database set_database].
    destruct (DegradeCursor id reason (core db)) as [[c' c]|e];
      cbn [map_err mbind res_mbind res_bind fst snd];
      (split; [by apply failed_gate|]); [|done].
    intros _. cbn. apply orb_true_iff. by right.
  - destruct (is_store missing (ErrTables (ErrStore e))); cbn [fst snd].
    + split; [by apply failed_gate|]. intros _. apply orb_true_iff. by right.
    + by split; [apply failed_gate|].
Qed.

(** ** Theorems *)

Abbreviation index_step :=
  (StepConfirmedIndexer keccak256 sha256 IDFromBytes peer_String (ENV := ENV) http_url
     read_manifest is_hex_address hex_to_address from_hex catalog outboxPeer p2pRequired).
Abbreviation evidence_step :=
  (StepRemoteDependencyEvidence keccak256 sha256 IDFromBytes peer_Decode (ENV := ENV) http_url
     read_manifest is_hex_address hex_to_address from_hex catalog p2pRequired error_text
     validation_text).
Abbreviation process := (Process keccak256 (ENV := ENV) pathTreeDepth profiles p2pRequired).
Abbreviation reachable_node :=
  (Node.node_reachable keccak256 sha256 IDFromBytes peer_String peer_Decode).

Lemma index_step_moves c text config validated s :
  (∀ b, Indexer.Applied b ∈ (index_step c text config validated s).2 →
        IndexerApply.foreign_sources b) →
  moves s (index_step c text config validated s).1.2.
Proof.
  intros Hf. apply (Step_keeps keccak256 moves _ (indexer_moves c) config text validated s).
  apply Forall_forall. intros [| | |] Hin; try done. by apply Hf.
Qed.

#[local] Hint Resolve observer_moving persist_moving reader_moving header_moving : keeps.

Lemma endpoints_moving request : keeps moves always (endpoints request).
Proof. unfold ObserveRequestEndpoints, observeAndPersist. keeping. Qed.

Lemma process_moving work : keeps moves always (process work).
Proof.
  unfold Process. apply keeps_bind; [exact _|apply check_moving|intros _].
  intros s _. pose proof (Process_keeps keccak256 moves services_move work s) as H.
  destruct (Coordinator.Process _ _ _) as [[r s'] l]. apply H. by apply Forall_forall.
Qed.



(** C11. A deterministic failure is for good.  When a step of the indexer ends
    with [ErrDeterministicIndexing] and the degradation could be written, the
    gate of the application is closed, and the gate of every application ever
    opened on that database after any further transactions, restarts
    included. *)
Theorem deterministic_failure_is_durable c text config validated s result cause s' log :
  (∀ l, keccak256 l ≠ zero32) → reachable_node s'.(database) →
  index_step c text config validated s
    = (Err (result, Indexer.ErrDeterministicIndexing cause None), s', log) →
  is_ok (gate s') = false ∧
  ∀ db, node_steps s'.(database) db → ∀ a, a.(database) = db → is_ok (gate a) = false.
Proof.
  intros Hk Hr H.
  pose proof (Step_fails keccak256 (ST := store) (RPC := home_client c) degraded_for degrade_spec
    config text validated s) as Hf.
  unfold StepConfirmedIndexer in H. rewrite H in Hf. destruct Hf as [Hg Hd]. split; [done|].
  intros db Hm a Ha. apply gate_degraded. rewrite Ha.
  apply (degraded_kept s'.(database)); [|by apply Hd].
  apply (Node.nodes_good _ _ _ _ _ Hk _ _ Hm). by apply Node.node_reachable_wf in Hr.
Qed.

(** C13. The gate guards every write that serves a request: while it is closed,
    applying a block, processing a request and declaring the indexer validated
    return the reason of the gate and change nothing, and observing an end
    point leaves the database as it is. *)
Theorem gate_fails_closed s e :
  gate s = Err e →
  (∀ b, (ApplyIndexerBlock keccak256 sha256 IDFromBytes peer_String outboxPeer (ENV := ENV)
           p2pRequired b) s = (Err e, s, [])) ∧
  (∀ work, process work s = (Err e, s, [])) ∧
  (∀ cursor, MarkIndexerValidated p2pRequired cursor s = (Err e, s, [])) ∧
  (∀ id height hash root, (run (observing id height hash root) s).2.(database) = s.(database)) ∧
  (∀ request, (run (endpoints request) s).2.(database) = s.(database)).
Proof.
  intros He. split_and!.
  - intros b. by apply gated_shut.
  - intros work. unfold Process, mbind, M_mbind, M_bind, check, operationalGate. by rewrite He.
  - intros cursor. by apply gated_shut.
  - intros id height hash root. eapply shut_run; [apply observing_shut|exact He].
  - intros request. eapply shut_run; [apply endpoints_shut|exact He].
Qed.

Lemma evidence_step_run s r s' log :
  (∀ l, keccak256 l ≠ zero32) →
  (∀ path m, read_manifest path = Ok m → 0 ≤ m.(ChainReader.man_MerkleDepth)) →
  evidence_step s = (r, s', log) →
  Forall well_founded log ∧
  match r with Ok n => n = zlen log | Err (n, _) => n ≤ zlen log ≤ n + 1 end ∧
  (Forall two_chains log →
   node_steps s.(database) s'.(database) ∧
   (reachable_node s.(database) → is_ok r = true → ∀ item v config answers,
      Activated item v config answers ∈ log →
      validated_row s'.(database) item.(Mailbox.item_Envelope).(Envelope.MessageID))).
Proof.
  intros Hk Hsane H. unfold StepRemoteDependencyEvidence, mbind, M_mbind, M_bind, M_catch in H.
  pose proof (now_moving two_chains (F := app_error E) s) as Hm.
  pose proof (now_silent (F := app_error E) s) as Hs.
  destruct (now s) as [[[t|e] s1] l1] eqn:Hn; cbn in Hm, Hs; subst l1; specialize (Hm ltac:(done)).
  2: { injection H as <- <- <-. cbn. by split_and!. }
  unfold read in H. destruct (map_err ErrTables _) as [items|e]; cbn [fst snd app] in H.
  2: { injection H as <- <- <-. by split_and!. }
  destruct (step_all items 0 s1) as [[r2 s2] l2] eqn:Hrun. injection H as <- <- <-.
  apply step_messages_run in Hrun as [F N Mv D]; [|done..].
  split; [done|]. split; [exact N|]. intros Ht. specialize (Mv Ht).
  split; [by transitivity s1.(database)|]. intros Hr Hok item v config answers Hin.
  destruct r2 as [n|]; [|done]. eapply (D n); try done.
  eapply (Node.nodes_good _ _ _ _ _ Hk); [exact Hm|].
  by apply (Node.node_reachable_wf _ _ _ _ peer_Decode).
Qed.

End Runs.

End OperationalRuns.
