(* ===== verification/Executor.v ===== *)
(** * Mapnode/executor: the request worker and the transaction submitter

    home_root_guard.go, live_transaction_submitter.go, direct_plan_executor.go,
    path_plan_executor.go, verifier_binding.go and request_worker.go.  The guard,
    the submitter and the direct executor are computations over any state, against
    the interfaces of their RPC clients and of the submission repository; the
    request worker runs on the application of Operational.v, with its repositories
    ([app_repository]).  Signing, serialising and hashing a transaction
    (go-ethereum's core/types and crypto) are parameters.

    The record of a run has what the submitter is careful about: the accepted
    guards, the rows it saved and the transactions it sent, in order. *)

From stdpp Require Import pretty.
From S2P Require Import Prelude Domain Evidence TrustView Registry Reorg Planner PathProof Coordinator.
From S2P Require Import ChainABI Receipt Indexer Envelope Submission Store GraphStore.
From S2P Require Import LiveStore System Tables TransactionStore IndexerStore Mailbox.
From S2P Require Import ChainReader Node Wiring Operational ClientRuns OperationalRuns.
Import Domain Tables ChainABI Receipt Submission Operational LiveStore.

Module Executor.

(** ** Errors and records *)

(** [F] is the error of what the executor calls; [ErrNew] is an error made on the
    spot with [errors.New]. *)
Inductive error (F : Type) :=
| ErrStaleHomeTrustRoot
| ErrHomeBlockBoundary
| ErrBroadcastAmbiguous (cause : F)
| ErrInvalidSubmission
| ErrInvalidTransition
| ErrEstimate (cause : option F)
| ErrABI (cause : ChainABI.error)
| ErrNew (message : string)
| ErrFrom (cause : F).
Arguments ErrStaleHomeTrustRoot {F}.
Arguments ErrHomeBlockBoundary {F}.
Arguments ErrBroadcastAmbiguous {F} cause.
Arguments ErrInvalidSubmission {F}.
Arguments ErrInvalidTransition {F}.
Arguments ErrEstimate {F} cause.
Arguments ErrABI {F} cause.
Arguments ErrNew {F} message.
Arguments ErrFrom {F} cause.

Inductive event (Tx : Type) :=
| Guarded (root : TrustView.TrustRoot)
| Saved (submission : TransactionSubmission)
| Sent (tx : Tx).
Arguments Guarded {Tx} root.
Arguments Saved {Tx} submission.
Arguments Sent {Tx} tx.

(** ** Interfaces *)

Class HomeRootRPC (S F : Type) := {
  guard_HeaderByNumber : option Z → S → res F (option Indexer.Header) * S;
  guard_CallContractAtHash : Address → bytes → Hash → S → res F bytes * S
}.

Class ContractCaller (S F : Type) := {
  CallContract : Address → bytes → S → res F bytes * S
}.

(** A header with its [BaseFee]. *)
Record FeeHeader := mkFeeHeader {
  fh_Header : Indexer.Header;
  BaseFee : option Z
}.

(** [is_not_found] is [errors.Is(err, ethereum.NotFound)]; [exec_Now] is
    [time.Now()]. *)
Class SubmissionRPC (S F Tx : Type) := {
  PendingNonceAt : Address → S → res F Z * S;
  SuggestGasTipCap : S → res F (option Z) * S;
  exec_HeaderByNumber : option Z → S → res F (option FeeHeader) * S;
  EstimateGas : Address → Address → bytes → S → res F Z * S;
  SendTransaction : Tx → S → res F unit * S;
  TransactionByHash : Hash → S → res F (option Tx) * S;
  exec_TransactionReceipt : Hash → S → res F (option EthReceipt) * S;
  RequestResolvedAtHash : Address → RequestID → Hash → S → res F bool * S;
  is_not_found : F → bool;
  exec_Now : S → Z * S
}.

(** [bundle_pending] is [errors.Is(err, ErrIndexerBundlePending)]. *)
Class SubmissionRepository (S F : Type) := {
  repo_SavePrepared : TransactionSubmission → S → res F (TransactionSubmission * bool) * S;
  repo_ListRecoverable : S → res F (list TransactionSubmission);
  repo_Transition : SubmissionID → ExecutionState → ExecutionState → string → Evidence.Time → S →
                    res F (TransactionSubmission * bool) * S;
  repo_Confirm : ConfirmedTransactionReceipt → S → res F unit * S;
  bundle_pending : F → bool
}.

Class HomeRootGuard (S F : Type) := {
  guard_Validate : TrustView.TrustRoot → S → res (error F) unit * S
}.

(** ** Computations *)

Section Calls.
Context {S F Tx : Type}.

Abbreviation X A := (M S (event Tx) (error F) A).

Definition new {A} (message : string) : X A := M_fail (ErrNew message).

(** A call whose error is returned, and one whose outcome is looked at. *)
Definition ask {A} (op : S → res F A * S) : X A :=
  λ s, let '(r, s') := op s in (map_err ErrFrom r, s', []).
Definition attempt {A} (op : S → res F A * S) : X (res F A) :=
  λ s, let '(r, s') := op s in (Ok r, s', []).
Definition note (ev : event Tx) : X unit := λ s, (Ok tt, s, [ev]).
Definition abi {A} (r : res ChainABI.error A) : X A := M_lift (map_err ErrABI r).
End Calls.

(** ** [CanonicalHomeRootGuard] *)

Section Guard.
Context (pack : list argument → bytes).
Context {S F Tx : Type} `{RPC : !HomeRootRPC S F}.

Definition NewHomeRootGuard (gateway : Address) : res (error F) Address :=
  if gateway =?= zero_address then Err (ErrNew "home root guard requires RPC and Gateway")
  else Ok gateway.

Definition Validate (gateway : Address) (expected : TrustView.TrustRoot) : M S (event Tx) (error F) unit :=
  first ← attempt (guard_HeaderByNumber None);
  match first with
  | Ok (Some (Indexer.mkHeader (Some number) hash _)) =>
      if number <? 0 then new "read canonical home head"
      else
        rootResult ← ask (guard_CallContractAtHash gateway EncodeCurrentTrustRootCall hash);
        root ← abi (DecodeHashResult rootResult);
        updatedResult ← ask (guard_CallContractAtHash gateway
          (EncodeHasTrustRootUpdateAtBlockCall pack (Some number)) hash);
        updated ← abi (DecodeBoolResult updatedResult);
        recheck ← attempt (guard_HeaderByNumber (Some number));
        match recheck with
        | Ok (Some again) =>
            if again.(Indexer.header_Hash) ≠?= hash
            then new "home block changed during TrustRoot guard"
            else if (updated : bool) then M_fail ErrHomeBlockBoundary
            else if root ≠?= expected then M_fail ErrStaleHomeTrustRoot
            else M_ret tt
        | _ => new "home block changed during TrustRoot guard"
        end
  | _ => new "read canonical home head"
  end.
End Guard.

(** ** [DirectPlanExecutor] *)

Record AuthorizedSigner (K : Type) := mkSigner {
  signer_Address : Address;
  PrivateKey : K
}.
Arguments mkSigner {K} signer_Address PrivateKey.
Arguments signer_Address {K} a.
Arguments PrivateKey {K} a.

Record DirectProofInput := mkDirectInput {
  di_SourceChainID : ChainID;
  di_SourceHeight : BlockHeight;
  di_SourceBlockHash : Hash;
  di_SourceTrustRoot : TrustView.TrustRoot
}.

Section Direct.
Context (pack : list argument → bytes).
Context {S F Tx K : Type} `{CC : !ContractCaller S F}.
(** [crypto.Sign], [crypto.SigToPub] followed by [crypto.PubkeyToAddress], and
    [crypto.PubkeyToAddress] of the public half of a key. *)
Context (Sign : Hash → K → res F bytes) (SigToAddress : Hash → bytes → option Address).
Context (key_address : K → Address).

Definition NewDirectPlanExecutor (verifier : Address) (orderedSigners : list (AuthorizedSigner K))
    (signatureChecks : Z) : bool :=
  negb ((verifier =?= zero_address) || (signatureChecks =? 0)
        || (zlen orderedSigners <? signatureChecks))
  && forallb (λ signer, (signer.(signer_Address) ≠?= zero_address)
                        && (key_address signer.(PrivateKey) =?= signer.(signer_Address)))
       orderedSigners.

(** [signature[64] += 27] *)
Definition ecrecover_form (signature : bytes) : bytes :=
  alter (λ b, byte_of_Z (byte_val b + 27)) 64%nat signature.

Definition sign_one (digest : Hash) (signer : AuthorizedSigner K) : res (error F) bytes :=
  signature ← map_err ErrFrom (Sign digest signer.(PrivateKey));
  if SigToAddress digest signature ≠?= Some signer.(signer_Address)
  then Err (ErrNew "local direct signature recovery failed")
  else Ok (ecrecover_form signature).

Fixpoint sign_all (digest : Hash) (signers : list (AuthorizedSigner K))
    : res (error F) (list bytes) :=
  match signers with
  | [] => Ok []
  | signer :: rest =>
      signature ← sign_one digest signer;
      signatures ← sign_all digest rest;
      Ok (signature :: signatures)
  end.

(** [signatureChecks] is at most the number of signers, as
    [NewDirectPlanExecutor] checks. *)
Definition BuildProof (verifier : Address) (orderedSigners : list (AuthorizedSigner K))
    (signatureChecks : Z) (input : DirectProofInput) : M S (event Tx) (error F) (bytes * Hash) :=
  if negb (is_ok (ChainID_Validate input.(di_SourceChainID)))
     || (input.(di_SourceBlockHash) =?= zero32)
  then new "invalid direct proof input"
  else
    let call := EncodeAttestationDigestCall pack (Some (ChainID_BigInt input.(di_SourceChainID)))
                  (Some (BlockHeight_BigInt input.(di_SourceHeight)))
                  input.(di_SourceBlockHash) input.(di_SourceTrustRoot) in
    result ← ask (CallContract verifier call);
    digest ← abi (DecodeHashResult result);
    signatures ← M_lift (sign_all digest (take (Z.to_nat signatureChecks) orderedSigners));
    M_ret (EncodeDirectProof pack input.(di_SourceTrustRoot) signatures, digest).

(** *** [ValidateVerifierBinding] *)

Definition signer_message (index : Z) : string :=
  "DirectVerifier authorizedSigners[" ++ pretty index ++ "] does not match profile".

Fixpoint check_signers (verifier : Address) (index : Z) (orderedSigners : list Address)
    : M S (event Tx) (error F) unit :=
  match orderedSigners with
  | [] => M_ret tt
  | want :: rest =>
      result ← ask (CallContract verifier (EncodeAuthorizedSignerCall pack (Some index)));
      match DecodeAddressResult result with
      | Ok got => if got ≠?= want then new (signer_message index)
                  else check_signers verifier (index + 1) rest
      | Err _ => new (signer_message index)
      end
  end.

Definition check_uint32 (verifier : Address) (name : string) (call : bytes) (value : Z)
    : M S (event Tx) (error F) unit :=
  result ← ask (CallContract verifier call);
  match DecodeUint32Result result with
  | Ok got => if got =? value then M_ret tt
              else new ("DirectVerifier " ++ name ++ " does not match profile")
  | Err _ => new ("DirectVerifier " ++ name ++ " does not match profile")
  end.

Definition check_address (to : Address) (call : bytes) (want : Address) (message : string)
    : M S (event Tx) (error F) unit :=
  result ← ask (CallContract to call);
  match DecodeAddressResult result with
  | Ok address => if address ≠?= want then new message else M_ret tt
  | Err _ => new message
  end.

(** The last two checks run in the order of a map; [rounds_first] is that order. *)
Definition ValidateVerifierBinding (rounds_first : bool) (gateway verifier : Address)
    (orderedSigners : list Address) (signatureChecks hashRounds : Z)
    : M S (event Tx) (error F) unit :=
  if (gateway =?= zero_address) || (verifier =?= zero_address) || (zlen orderedSigners =? 0)
     || (signatureChecks =? 0) || (zlen orderedSigners <? signatureChecks)
  then new "invalid direct verifier deployment expectation"
  else
    _ ← check_address gateway EncodeDirectVerifierCall verifier
          "Gateway.directVerifier does not match manifest";
    _ ← check_address verifier EncodeVerifierGatewayCall gateway
          "DirectVerifier.gateway does not match manifest";
    result ← ask (CallContract verifier EncodeAuthorizedSignerCountCall);
    match DecodeUint256Result result with
    | Ok count =>
        if (MaxUint64 <? count) || negb (count =? zlen orderedSigners)
        then new "DirectVerifier signer count does not match profile"
        else
          _ ← check_signers verifier 0 orderedSigners;
          let checks := check_uint32 verifier "signatureChecks" EncodeSignatureChecksCall
                          signatureChecks in
          let rounds := check_uint32 verifier "hashRounds" EncodeHashRoundsCall hashRounds in
          if rounds_first then _ ← rounds; checks else _ ← checks; rounds
    | Err _ => new "DirectVerifier signer count does not match profile"
    end.
End Direct.

(** ** [BuildPathCall] *)

Definition BuildPathCall (keccak256 : bytes → Hash) (pack : list argument → bytes) {F}
    (requestID : RequestID) (persisted : PathProof.PathProof) : res (error F) bytes :=
  if (requestID =?= zero32) || (persisted.(PathProof.proof_RequestID) ≠?= requestID)
     || (persisted.(PathProof.proof_ID) ≠?= PathProof.ComputePathProofID keccak256 persisted)
     || (zlen persisted.(PathProof.BlockHashes) =? 0)
     || negb (zlen persisted.(PathProof.BlockHashes) =? zlen persisted.(PathProof.Witnesses))
  then Err (ErrNew "invalid persisted snapshot-bound PathProof")
  else
    Ok (EncodeVerifyPathAndRecordCall pack requestID
          (mkPathCall persisted.(PathProof.BaseTrustRoot) persisted.(PathProof.BlockHashes)
             (map (λ w, mkSolidityWitness w.(Domain.LeafIndex) w.(Domain.Siblings))
                persisted.(PathProof.Witnesses)))).

(** [EthRPC.RequestResolvedAtHash]: a call of the Gateway at a block. *)
Definition EthRPC_RequestResolvedAtHash {S F} (pack : list argument → bytes)
    `{RPC : !HomeRootRPC S F} (gateway : Address) (requestID : RequestID) (blockHash : Hash) (s : S)
    : res (error F) bool * S :=
  let '(r, s') := guard_CallContractAtHash gateway (EncodeRequestResolvedCall pack requestID)
                    blockHash s in
  (result ← map_err ErrFrom r; map_err ErrABI (DecodeBoolResult result), s').

(** ** [TransactionSubmitter] *)

Record SubmissionIntent := mkIntent {
  in_RequestID : RequestID;
  in_Attempt : Z;
  in_PlanID : Planner.PlanID;
  in_PlanType : string;
  in_SnapshotID : TrustView.SnapshotID;
  in_ProofID : option PathProof.PathProofID;
  in_HomeChainID : ChainID;
  in_Gateway : Address;
  in_Sender : Address;
  Calldata : bytes;
  ExpectedHomeTrustRoot : TrustView.TrustRoot
}.

(** The fields of [types.DynamicFeeTx] that are set; [Value] is zero. *)
Record DynamicFeeTx := mkDynamicFeeTx {
  tx_ChainID : Z;
  tx_Nonce : Z;
  GasTipCap : Z;
  GasFeeCap : Z;
  tx_Gas : Z;
  tx_To : Address;
  tx_Data : bytes
}.

Section Submitter.
Context (keccak256 : bytes → Hash).
Context {S F Tx : Type}.
Context `{RPC : !SubmissionRPC S F Tx} `{REPO : !SubmissionRepository S F} `{GUARD : !HomeRootGuard S F}.
(** [types.SignNewTx] with the submitter's key, and the methods of
    [types.Transaction]. *)
Context (SignNewTx : DynamicFeeTx → res F Tx) (MarshalBinary : Tx → res F bytes).
Context (UnmarshalBinary : bytes → option Tx) (tx_Hash : Tx → Hash).
Context (chainID : ChainID) (sender : Address) (confirmationDepth : Z).

Abbreviation X A := (M S (event Tx) (error F) A).

Definition NewTransactionSubmitter : bool :=
  is_ok (ChainID_Validate chainID) && negb (confirmationDepth =? 0).

Definition now : X Z := λ s, let '(t, s') := exec_Now s in (Ok t, s', []).

Definition guarded (root : TrustView.TrustRoot) : X unit :=
  λ s, match guard_Validate root s with
       | (Ok _, s') => (Ok tt, s', [Guarded root])
       | (Err e, s') => (Err e, s', [])
       end.

Definition save (submission : TransactionSubmission) : X TransactionSubmission :=
  λ s, match repo_SavePrepared submission s with
       | (Ok (persisted, _), s') => (Ok persisted, s', [Saved persisted])
       | (Err e, s') => (Err (ErrFrom e), s', [])
       end.

(** The hash is the one the node was asked for. *)
Definition visible (hash : Hash) (r : res F (option Tx)) : bool :=
  match r with Ok (Some tx) => tx_Hash tx =?= hash | _ => false end.

Definition move (id : SubmissionID) (from to : ExecutionState) (reason : string)
    : X TransactionSubmission :=
  t ← now; '(updated, _) ← ask (repo_Transition id from to reason (Some t)); M_ret updated.

(** The submission beside an error is dropped by every caller. *)
Definition broadcastPrepared (submission : TransactionSubmission) (transaction : Tx)
    : X TransactionSubmission :=
  _ ← note (Sent transaction);
  sendErr ← attempt (SendTransaction transaction);
  accepted ← match sendErr with
             | Ok _ => M_ret true
             | Err _ => found ← attempt (TransactionByHash submission.(sub_TxHash));
                        M_ret (visible submission.(sub_TxHash) found)
             end;
  match sendErr with
  | Err e => if negb (accepted : bool) then M_fail (ErrBroadcastAmbiguous e) else M_ret tt
  | Ok _ => M_ret tt
  end;;
  if submission.(sub_State) =?= Submitted then M_ret submission
  else if (submission.(sub_State) ≠?= Prepared) && (submission.(sub_State) ≠?= Retryable)
  then M_fail ErrInvalidTransition
  else move submission.(sub_ID) submission.(sub_State) Submitted "rpc accepted or hash visible".

Definition invalid_intent (intent : SubmissionIntent) : bool :=
  (intent.(in_RequestID) =?= zero32) || (intent.(in_HomeChainID) ≠?= chainID)
  || (intent.(in_Gateway) =?= zero_address) || (intent.(in_Sender) ≠?= sender)
  || (zlen intent.(Calldata) =? 0)
  || ((intent.(in_PlanType) =?= Planner.DirectPlan) && (intent.(in_ProofID) ≠?= None))
  || ((intent.(in_PlanType) =?= Planner.PathPlan) && (intent.(in_ProofID) =?= None)).

(** The transaction of an intent at a nonce and fees. *)
Definition unsigned (intent : SubmissionIntent) (nonce tip baseFee gas : Z) : DynamicFeeTx :=
  mkDynamicFeeTx (ChainID_BigInt intent.(in_HomeChainID)) nonce tip (baseFee * 2 + tip) gas
    intent.(in_Gateway) intent.(Calldata).

Definition submission_of (intent : SubmissionIntent) (nonce tip baseFee gas : Z) (raw : bytes)
    (hash : Hash) (t : Z) : TransactionSubmission :=
  let with_id id :=
    mkSubmission id intent.(in_RequestID) intent.(in_Attempt) intent.(in_PlanID)
      intent.(in_PlanType) intent.(in_SnapshotID) intent.(in_ProofID) intent.(in_HomeChainID)
      intent.(in_Gateway) intent.(in_Sender) nonce (keccak256 intent.(Calldata)) raw hash
      (Some (baseFee * 2 + tip)) (Some tip) gas Prepared "" (Some t) (Some t) None in
  with_id (ComputeSubmissionID keccak256 (with_id zero32)).

Definition Submit (intent : SubmissionIntent) : X TransactionSubmission :=
  if invalid_intent intent then M_fail ErrInvalidSubmission
  else
    _ ← guarded intent.(ExpectedHomeTrustRoot);
    nonce ← ask (PendingNonceAt sender);
    tipping ← attempt SuggestGasTipCap;
    tip ← match tipping with
          | Ok (Some tip) => if tip <? 0 then new "invalid EIP-1559 priority fee" else M_ret tip
          | _ => new "invalid EIP-1559 priority fee"
          end;
    header ← attempt (exec_HeaderByNumber None);
    baseFee ← match header with
              | Ok (Some (mkFeeHeader _ (Some base))) =>
                  if base <? 0 then new "home chain does not provide EIP-1559 base fee"
                  else M_ret base
              | _ => new "home chain does not provide EIP-1559 base fee"
              end;
    estimate ← attempt (EstimateGas sender intent.(in_Gateway) intent.(Calldata));
    gas ← match estimate with
          | Ok gas => if gas =? 0 then M_fail (ErrEstimate None) else M_ret gas
          | Err e => M_fail (ErrEstimate (Some e))
          end;
    _ ← guarded intent.(ExpectedHomeTrustRoot);
    transaction ← M_lift (map_err ErrFrom (SignNewTx (unsigned intent nonce tip baseFee gas)));
    raw ← M_lift (map_err ErrFrom (MarshalBinary transaction));
    t ← now;
    persisted ← save (submission_of intent nonce tip baseFee gas raw (tx_Hash transaction) t);
    broadcastPrepared persisted transaction.

(** *** [Recover] *)

Definition reconcileReceipt (item : TransactionSubmission) (receipt : EthReceipt) : X unit :=
  match receipt.(rc_BlockNumber) with
  | None => M_fail ErrInvalidSubmission
  | Some number =>
      if (receipt.(rc_TxHash) ≠?= item.(sub_TxHash)) || (receipt.(rc_BlockHash) =?= zero32)
      then M_fail ErrInvalidSubmission
      else if negb (receipt.(Status) =? 1) then
        if item.(sub_State) =?= Reverted then M_ret tt
        else _ ← move item.(sub_ID) item.(sub_State) Reverted "verification transaction reverted";
             M_ret tt
      else
        item ← (if item.(sub_State) ≠?= Submitted
                then move item.(sub_ID) item.(sub_State) Submitted "successful receipt observed"
                else M_ret item);
        head ← attempt (exec_HeaderByNumber None);
        match head with
        | Ok (Some (mkFeeHeader (Indexer.mkHeader (Some tip) _ _) _)) =>
            if (tip <? 0) || (wrap64 tip <? wrap64 (wrap64 number + confirmationDepth - 1))
            then M_ret tt
            else
              canonical ← attempt (exec_HeaderByNumber (Some number));
              match canonical with
              | Ok (Some (mkFeeHeader h _)) =>
                  if h.(Indexer.header_Hash) ≠?= receipt.(rc_BlockHash) then M_ret tt
                  else
                    resolved ← ask (RequestResolvedAtHash item.(sub_Gateway) item.(sub_RequestID)
                                      receipt.(rc_BlockHash));
                    if negb (resolved : bool) then M_ret tt
                    else
                      t ← now;
                      done ← attempt (repo_Confirm
                        (mkConfirmed item.(sub_ID) item.(sub_RequestID) item.(sub_TxHash)
                           (wrap64 number) receipt.(rc_BlockHash) receipt.(Status)
                           (wrap64 (wrap64 tip - wrap64 number + 1)) (Some t)));
                      match done with
                      | Ok _ => M_ret tt
                      | Err e => if bundle_pending e then M_ret tt else M_fail (ErrFrom e)
                      end
              | _ => M_ret tt
              end
        | _ => M_ret tt
        end
  end.

(** The saved bytes are sent again; an ambiguous answer waits for the next
    cycle. *)
Definition rebroadcast (item : TransactionSubmission) : X unit :=
  match UnmarshalBinary item.(RawSignedTx) with
  | Some transaction =>
      if tx_Hash transaction ≠?= item.(sub_TxHash) then M_fail ErrInvalidSubmission
      else M_catch (_ ← broadcastPrepared item transaction; M_ret tt)
             (λ e, match e with ErrBroadcastAmbiguous _ => M_ret tt | _ => M_fail e end)
  | None => M_fail ErrInvalidSubmission
  end.

Definition reconcile (item : TransactionSubmission) : X unit :=
  receipt ← attempt (exec_TransactionReceipt item.(sub_TxHash));
  match receipt with
  | Ok (Some receipt) => reconcileReceipt item receipt
  | _ =>
      match receipt with
      | Err e => if is_not_found e then M_ret tt else M_fail (ErrFrom e)
      | Ok _ => M_ret tt
      end;;
      lookup ← attempt (TransactionByHash item.(sub_TxHash));
      if visible item.(sub_TxHash) lookup then
        if item.(sub_State) ≠?= Submitted
        then _ ← move item.(sub_ID) item.(sub_State) Submitted
                   "transaction hash visible during recovery"; M_ret tt
        else M_ret tt
      else
        match lookup with
        | Err e => if is_not_found e then M_ret tt else M_fail (ErrFrom e)
        | Ok _ => M_ret tt
        end;;
        rebroadcast item
  end.

Fixpoint reconcile_all (items : list TransactionSubmission) : X unit :=
  match items with
  | [] => M_ret tt
  | item :: rest => _ ← reconcile item; reconcile_all rest
  end.

Definition recoverable : X (list TransactionSubmission) :=
  λ s, (map_err ErrFrom (repo_ListRecoverable s), s, []).

Definition Recover : X unit := items ← recoverable; reconcile_all items.
End Submitter.

(** ** [RequestWorker] on the application *)

Section Worker.
Context (keccak256 : bytes → Hash) (pack : list argument → bytes).
Context {W C E Tx K : Type} `{ENV : !Environment W C E}.
Context (http_url : string → bool).
Context (read_manifest : string → res (ChainReader.error E) ChainReader.gatewayManifest).
Context (is_hex_address : string → bool) (hex_to_address : string → Address).
Context (from_hex : string → bytes).
Context (catalog : Catalog) (pathTreeDepth : Z).
Context (profiles : ChainID → option Registry.ValidatedDirectProfile) (p2pRequired : bool).
(** The clients of the executor talk to the home chain, in the world of the
    application. *)
Context `{HRPC : !HomeRootRPC W E} `{CALL : !ContractCaller W E} `{SRPC : !SubmissionRPC W E Tx}.
Context (SignNewTx : DynamicFeeTx → res (app_error E) Tx).
Context (MarshalBinary : Tx → res (app_error E) bytes).
Context (UnmarshalBinary : bytes → option Tx) (tx_Hash : Tx → Hash).
Context (Sign : Hash → K → res (app_error E) bytes) (SigToAddress : Hash → bytes → option Address).
Context (homeChainID : ChainID) (gateway verifier sender : Address) (confirmationDepth : Z).
Context (orderedSigners : list (AuthorizedSigner K)) (signatureChecks : Z).

Abbreviation App := (App W C).
Abbreviation X A := (M App (event Tx) (error (app_error E)) A).

#[export] Instance app_guard_rpc : HomeRootRPC App (app_error E) := {
  guard_HeaderByNumber n := on_client (guard_HeaderByNumber n);
  guard_CallContractAtHash a d h := on_client (guard_CallContractAtHash a d h)
}.

#[export] Instance app_caller : ContractCaller App (app_error E) := {
  CallContract a d := on_client (CallContract a d)
}.

#[export] Instance app_rpc : SubmissionRPC App (app_error E) Tx := {
  PendingNonceAt a := on_client (PendingNonceAt (Tx := Tx) a);
  SuggestGasTipCap := on_client (SuggestGasTipCap (Tx := Tx));
  exec_HeaderByNumber n := on_client (exec_HeaderByNumber (Tx := Tx) n);
  EstimateGas f t d := on_client (EstimateGas (Tx := Tx) f t d);
  SendTransaction tx := on_client (SendTransaction tx);
  TransactionByHash h := on_client (TransactionByHash h);
  exec_TransactionReceipt h := on_client (exec_TransactionReceipt (Tx := Tx) h);
  RequestResolvedAtHash g id h := on_client (RequestResolvedAtHash (Tx := Tx) g id h);
  is_not_found e := match e with ErrClient e => is_not_found (S := W) (Tx := Tx) e | _ => false end;
  exec_Now s := let '(t, w) := clock s.(world) in (t, set_world s w)
}.

(** An operation of the transaction repository that takes the time. *)
Definition repository {A} (op : Z → Database → res Tables.error A * Database) (s : App)
    : res (app_error E) A * App :=
  let '(t, w) := clock s.(world) in
  let '(r, db) := op t s.(database) in
  (map_err Operational.ErrTables r, set_database (set_world s w) db).

(** A transaction that fails leaves the database. *)
Definition committed {A} (op : Database → res Tables.error (A * Database)) (db : Database)
    : res Tables.error A * Database :=
  match op db with Ok (a, db') => (Ok a, db') | Err e => (Err e, db) end.

#[export] Instance app_repository : SubmissionRepository App (app_error E) := {
  repo_SavePrepared submission :=
    repository (λ t db, TransactionStore.SavePrepared keccak256 t submission db);
  repo_ListRecoverable s :=
    map_err Operational.ErrTables (TransactionStore.ListRecoverable s.(database));
  repo_Transition id from to reason at_ :=
    repository (λ t, committed (TransactionStore.Transition t id from to reason at_));
  repo_Confirm receipt :=
    repository (λ t, committed (λ db, db' ← TransactionStore.Confirm t receipt db; Ok (tt, db')));
  bundle_pending e :=
    match e with Operational.ErrTables Tables.ErrIndexerBundlePending => true | _ => false end
}.

#[export] Instance app_guard : HomeRootGuard App (app_error E) := {
  guard_Validate root s := (Validate (Tx := Tx) pack gateway root s).1
}.

Abbreviation app_Submit :=
  (Submit keccak256 (S := App) (F := app_error E) (Tx := Tx) SignNewTx MarshalBinary tx_Hash
     homeChainID sender).
Abbreviation app_Recover :=
  (Recover (S := App) (F := app_error E) (Tx := Tx) UnmarshalBinary tx_Hash confirmationDepth).
Abbreviation app_BuildProof :=
  (BuildProof (S := App) (F := app_error E) (Tx := Tx) pack Sign SigToAddress verifier
     orderedSigners signatureChecks).

(** A method of the application. *)
Definition app_call {A} (m : M App app_event (app_error E) A) : X A :=
  λ s, let '(r, s', _) := m s in (map_err ErrFrom r, s', []).

Definition app_read {A} (op : Database → res Tables.error A) : X A := app_call (read op).

(** [worker.coordinator] is the coordinator itself, not the gated method. *)
Definition coordinate (work : Coordinator.Work) : X Coordinator.Result :=
  λ s, let '(r, s', _) := Coordinator.Process
         (SV := app_services (ENV := ENV) keccak256 pathTreeDepth profiles) keccak256 work s in
       (map_err (λ e, ErrFrom (ErrProcess e)) r, s', []).

(** The calldata and the proof of a plan. *)
Definition plan_call (request : Coordinator.Request) (sourceRoot : TrustView.TrustRoot)
    (result : Coordinator.Result) : X (bytes * option PathProof.PathProofID) :=
  let id := request.(Coordinator.req_ID) in
  match result.(Coordinator.result_Plan) with
  | None => new "coordinator returned unsupported plan type"
  | Some plan =>
      if plan.(Planner.plan_Type) =?= Planner.DirectPlan then
        '(proof, _) ← app_BuildProof
          (mkDirectInput request.(Coordinator.req_SourceChainID)
             request.(Coordinator.req_SourceHeight) request.(Coordinator.req_SourceBlockHash)
             sourceRoot);
        M_ret (EncodeVerifyDirectAndRecordCall pack id proof, None)
      else if plan.(Planner.plan_Type) =?= Planner.PathPlan then
        match result.(Coordinator.result_PathProof) with
        | None => new "invalid persisted snapshot-bound PathProof"
        | Some proof =>
            calldata ← M_lift (BuildPathCall keccak256 pack id proof);
            M_ret (calldata, Some proof.(PathProof.proof_ID))
        end
      else new "coordinator returned unsupported plan type"
  end.

Definition intent_of (request : Coordinator.Request) (attempt : Z) (plan : option Planner.Plan)
    (snapshotID : TrustView.SnapshotID) (homeRoot : TrustView.TrustRoot) (calldata : bytes)
    (proofID : option PathProof.PathProofID) : SubmissionIntent :=
  mkIntent request.(Coordinator.req_ID) attempt
    match plan with Some p => p.(Planner.plan_ID) | None => zero32 end
    match plan with Some p => p.(Planner.plan_Type) | None => "" end
    snapshotID proofID request.(Coordinator.req_HomeChainID) request.(Coordinator.req_Gateway)
    sender calldata homeRoot.

(** [RequestWorker.Step] *)
Definition Step : X bool :=
  _ ← app_Recover;
  found ← app_read (λ db, Ok (TransactionStore.NextRequest db));
  match found with
  | None => M_ret false
  | Some request =>
      attempt ← app_read (λ db, TransactionStore.NextAttempt db request.(Coordinator.req_ID));
      '(homeNode, sourceNode) ← app_call
        (ObserveRequestEndpoints keccak256 (ENV := ENV) http_url read_manifest is_hex_address
           hex_to_address from_hex catalog p2pRequired request);
      snapshot ← app_call
        (transaction (TransactionStore.CreateSnapshot keccak256 request attempt homeNode sourceNode));
      let homeRoot := homeNode.(TrustView.node_Root) in
      result ← coordinate
        (Coordinator.mkWork request attempt snapshot.(TrustView.snap_ID) homeRoot);
      '(calldata, proofID) ← plan_call request sourceNode.(TrustView.node_Root) result;
      M_catch
        (_ ← app_Submit (intent_of request attempt result.(Coordinator.result_Plan)
                           snapshot.(TrustView.snap_ID) homeRoot calldata proofID);
         M_ret true)
        (λ e, match e with
              | ErrHomeBlockBoundary => M_ret false
              | ErrStaleHomeTrustRoot =>
                  _ ← app_call
                    (t ← Operational.now;
                     transaction_ (TransactionStore.MarkRetryable t
                       result.(Coordinator.result_Request) "stale home TrustRoot"));
                  M_ret false
              | _ => M_fail e
              end)
  end.
End Worker.

End Executor.
