(* ===== verification/ExecutorRuns.v ===== *)
(** * What the request worker sends

    The submitter asks the guard twice, saves the signed transaction and only
    then sends it; every transaction the request worker sends is, byte for byte,
    a stored submission of the database; a request whose current plan was made
    on another snapshot is never served. *)

From S2P Require Import Prelude Domain Evidence TrustView Registry Reorg Planner PathProof Coordinator.
From S2P Require Import ChainABI Receipt Indexer Envelope Submission Store GraphStore PlanStore.
From S2P Require Import LiveStore System Tables TransactionStore IndexerStore Mailbox.
From S2P Require Import ChainReader Node Wiring Operational ClientRuns OperationalRuns Executor.
Import Domain Tables ChainABI Receipt Submission Operational LiveStore Executor.

Module ExecutorRuns.

(** ** Lemmas: what a submission records *)

Section Recorded.
Context {S F Tx : Type}.

(** Nothing was sent. *)
Definition unsent (log : list (event Tx)) : Prop := ∀ tx, Sent tx ∉ log.

Lemma unsent_nil : unsent [].
Proof. intros tx H. by apply elem_of_nil in H. Qed.

Lemma unsent_app l k : unsent l → unsent k → unsent (l ++ k).
Proof. intros Hl Hk tx [H|H]%elem_of_app; [by eapply Hl|by eapply Hk]. Qed.

Lemma ask_silent {A} (op : S → res F A * S) : silent (ask (Tx := Tx) op).
Proof. intros s. unfold ask. by destruct (op s). Qed.

Lemma attempt_silent {A} (op : S → res F A * S) : silent (attempt (Tx := Tx) op).
Proof. intros s. unfold attempt. by destruct (op s). Qed.
End Recorded.

(** A resumed request with the plan of another snapshot. *)
Lemma process_step_refuses {S E} {SV : Coordinator.Services S E} keccak256 work result (s : S) :
  let request := result.(Coordinator.result_Request) in
  request.(Coordinator.req_State)
    ∈ [Coordinator.Planned; Coordinator.DirectFallback; Coordinator.ProofReady] →
  (∀ plan, Coordinator.LoadCurrentPlan (E := E) request.(Coordinator.req_ID) s = Ok plan →
     plan.(Planner.plan_SnapshotID) ≠ work.(Coordinator.work_SnapshotID)) →
  ∃ e, Coordinator.process_step keccak256 work result s = (Err e, s, []).
Proof.
  cbn zeta. intros Hstate Hplan.
  assert (∀ B (k : Planner.Plan → Coordinator.M S E B),
    ∃ e, (plan ← Coordinator.M_read
            (Coordinator.LoadCurrentPlan result.(Coordinator.result_Request).(Coordinator.req_ID));
          _ ← Coordinator.validateWorkPlan keccak256 work plan; k plan) s = (Err e, s, [])) as Hno.
  { intros B k. unfold mbind, M_mbind, M_bind, Coordinator.M_read.
    destruct (Coordinator.LoadCurrentPlan _ s) as [plan|e]; cbn; [|by eexists].
    specialize (Hplan _ eq_refl). unfold Coordinator.validateWorkPlan.
    rewrite (bool_decide_eq_false_2 _ Hplan), orb_true_r. cbn. by eexists. }
  unfold Coordinator.process_step. cbn zeta.
  repeat (apply elem_of_cons in Hstate as [Hstate|Hstate]); [..|by apply elem_of_nil in Hstate];
    rewrite Hstate, ?bool_decide_eq_false_2, bool_decide_eq_true_2 by done; apply Hno.
Qed.

Section Submitting.
Context (keccak256 : bytes → Hash).
Context {S F Tx : Type}.
Context `{RPC : !SubmissionRPC S F Tx} `{REPO : !SubmissionRepository S F} `{GUARD : !HomeRootGuard S F}.
Context (SignNewTx : DynamicFeeTx → res F Tx) (MarshalBinary : Tx → res F bytes).
Context (tx_Hash : Tx → Hash) (chainID : ChainID) (sender : Address).

Abbreviation X A := (M S (event Tx) (error F) A).

Lemma clock_silent : silent (Executor.now (S := S) (F := F) (Tx := Tx)).
Proof. intros s. unfold Executor.now. by destruct (exec_Now s). Qed.

Lemma move_silent id from to reason :
  silent (move (S := S) (F := F) (Tx := Tx) id from to reason).
Proof.
  unfold move. apply silent_bind; [apply clock_silent|]. intros t.
  apply silent_bind; [apply ask_silent|]. by intros [u b].
Qed.

(** What [broadcastPrepared] records is what it sends. *)
Lemma broadcast_emits submission tx :
  emits (broadcastPrepared (F := F) tx_Hash submission tx : X TransactionSubmission)
    (λ r log, log = [Sent tx]).
Proof.
  unfold broadcastPrepared.
  apply (emits_bind _ _ (λ _ log, log = [Sent tx])); [done|done|]. intros _ log ->.
  apply emits_after; [apply attempt_silent|done|]. intros sent.
  apply emits_after; [|done|].
  { destruct sent; [done|]. apply silent_bind; [apply attempt_silent|done]. }
  intros accepted. apply emits_after; [|done|].
  { destruct sent; [done|]. by destruct (negb accepted). }
  intros _. destruct (_ =?= _); [by apply emits_ret|].
  destruct (_ && _); [by apply emits_fail|]. intros s. cbn.
  pose proof (move_silent submission.(sub_ID) submission.(sub_State) Submitted
    "rpc accepted or hash visible" s) as H. by rewrite H.
Qed.

(** The record of a submission for a root: it stops before anything is sent, or
    it is two guards, one saved row, and its transaction. *)
Definition sent_once (intent : SubmissionIntent) (log : list (event Tx)) : Prop :=
  ∃ nonce tip base gas tx raw t p b s s',
    SignNewTx (unsigned intent nonce tip base gas) = Ok tx ∧ MarshalBinary tx = Ok raw ∧
    0 ≤ tip ∧ 0 ≤ base ∧ gas ≠ 0 ∧
    repo_SavePrepared (submission_of keccak256 intent nonce tip base gas raw (tx_Hash tx) t) s
      = (Ok (p, b), s') ∧
    log = [Guarded intent.(ExpectedHomeTrustRoot); Guarded intent.(ExpectedHomeTrustRoot);
           Saved p; Sent tx].

Definition submit_record (intent : SubmissionIntent) (r : res (error F) TransactionSubmission)
    (log : list (event Tx)) : Prop :=
  let root := intent.(ExpectedHomeTrustRoot) in
  sent_once intent log ∨
  (is_ok r = false ∧ log `prefix_of` [Guarded root; Guarded root]).

Lemma guarded_emits root :
  emits (guarded (Tx := Tx) root : X unit)
    (λ r log, log = if is_ok r then [Guarded root] else []).
Proof. intros s. unfold guarded. by destruct (guard_Validate root s) as [[[]|e] s']. Qed.

Lemma guarded_unsent root k : unsent k → unsent (Guarded (Tx := Tx) root :: k).
Proof. intros Hk tx [H|H]%elem_of_cons; [done|by eapply Hk]. Qed.

Lemma submit_emits intent :
  emits (Submit keccak256 SignNewTx MarshalBinary tx_Hash chainID sender intent : X _)
    (submit_record intent).
Proof.
  set (root := intent.(ExpectedHomeTrustRoot)).
  assert (∀ log, log `prefix_of` [Guarded root; Guarded root] →
    ∀ e, submit_record intent (Err e) log) as Hstop by (by right).
  pose proof (prefix_nil [Guarded (Tx := Tx) root; Guarded root]) as Hnil.
  assert ([Guarded (Tx := Tx) root] `prefix_of` [Guarded root; Guarded root]) as Hone
    by apply prefix_cons, prefix_nil.
  pose proof (reflexivity (R := prefix) [Guarded (Tx := Tx) root; Guarded root]) as Htwo.
  unfold Submit. destruct (invalid_intent _ _ _); [by apply emits_fail; auto|].
  eapply emits_bind; [apply guarded_emits|intros e log ->; by auto|intros [] log ->]. cbn [is_ok].
  apply emits_after; [apply ask_silent|by auto|]. intros nonce.
  apply emits_after; [apply attempt_silent|by auto|]. intros tipping.
  apply (emits_bind _ _ (λ r log, log = [] ∧ ∀ tip, r = Ok tip → 0 ≤ tip)).
  { destruct tipping as [[tip|]|]; try by apply emits_fail.
    destruct (Z.ltb_spec tip 0); [by apply emits_fail|]. apply emits_ret. split; [done|].
    intros tip' [= <-]. lia. }
  { intros e log [-> _]. by auto. }
  intros tip log [-> Htip]. specialize (Htip tip eq_refl). cbn [app].
  apply emits_after; [apply attempt_silent|by auto|]. intros header.
  apply (emits_bind _ _ (λ r log, log = [] ∧ ∀ base, r = Ok base → 0 ≤ base)).
  { destruct header as [[[h [base|]]|]|]; try by apply emits_fail.
    destruct (Z.ltb_spec base 0); [by apply emits_fail|]. apply emits_ret. split; [done|].
    intros base' [= <-]. lia. }
  { intros e log [-> _]. by auto. }
  intros base log [-> Hbase]. specialize (Hbase base eq_refl). cbn [app].
  apply emits_after; [apply attempt_silent|by auto|]. intros estimate.
  apply (emits_bind _ _ (λ r log, log = [] ∧ ∀ gas, r = Ok gas → gas ≠ 0)).
  { destruct estimate as [gas|]; [|by apply emits_fail].
    destruct (Z.eqb_spec gas 0); [by apply emits_fail|]. apply emits_ret. split; [done|].
    by intros gas' [= <-]. }
  { intros e log [-> _]. by auto. }
  intros gas log [-> Hgas]. specialize (Hgas gas eq_refl). cbn [app].
  eapply emits_bind; [apply guarded_emits|intros e log ->; by auto|intros [] log ->]. cbn [is_ok].
  apply (emits_bind _ _ (λ r log, log = [] ∧ ∀ tx, r = Ok tx →
    SignNewTx (unsigned intent nonce tip base gas) = Ok tx)).
  { apply emits_lift. split; [done|]. by intros tx ?%map_err_Ok. }
  { intros e log [-> _]. by auto. }
  intros tx log [-> Htx]. specialize (Htx tx eq_refl). cbn [app].
  apply (emits_bind _ _ (λ r log, log = [] ∧ ∀ raw, r = Ok raw → MarshalBinary tx = Ok raw)).
  { apply emits_lift. split; [done|]. by intros raw ?%map_err_Ok. }
  { intros e log [-> _]. by auto. }
  intros raw log [-> Hraw]. specialize (Hraw raw eq_refl). cbn [app].
  apply emits_after; [apply clock_silent|by auto|]. intros t.
  apply (emits_bind _ _ (λ r log, match r with
    | Ok p => log = [Saved p] ∧ ∃ b s s', repo_SavePrepared
        (submission_of keccak256 intent nonce tip base gas raw (tx_Hash tx) t) s = (Ok (p, b), s')
    | Err _ => log = [] end)).
  { intros s. unfold save. destruct (repo_SavePrepared _ s) as [[[p b]|e] s'] eqn:E; [|done].
    cbn. split; [done|]. by exists b, s, s'. }
  { intros e log ->. by auto. }
  intros p log (-> & b & s & s' & Hsave).
  eapply emits_weaken; [apply broadcast_emits|]. intros r log ->. left.
  exists nonce, tip, base, gas, tx, raw, t, p, b, s, s'. by split_and!.
Qed.

(** C9. A submission is sent once, after two guards and a save.  Whatever the
    home chain and the repository answer, one call of [Submit] either refuses
    before anything is saved or sent, or it has checked the guard for the
    expected root twice, the second time after the gas estimate; has saved the
    row of the transaction it signed for the intent, with that nonce, those
    fees, those bytes and that hash; and only then has sent that very
    transaction, once.  It only succeeds in the second case. *)
Theorem Submit_protocol intent s :
  let '(r, _, log) := (Submit keccak256 SignNewTx MarshalBinary tx_Hash chainID sender intent
                         : X TransactionSubmission) s in
  let root := intent.(ExpectedHomeTrustRoot) in
  (is_ok r = false ∧ log `prefix_of` [Guarded root; Guarded root]) ∨
  ∃ nonce tip base gas tx raw t p b s1 s2,
    SignNewTx (unsigned intent nonce tip base gas) = Ok tx ∧ MarshalBinary tx = Ok raw ∧
    0 ≤ tip ∧ 0 ≤ base ∧ gas ≠ 0 ∧
    repo_SavePrepared (submission_of keccak256 intent nonce tip base gas raw (tx_Hash tx) t) s1
      = (Ok (p, b), s2) ∧
    log = [Guarded root; Guarded root; Saved p; Sent tx].
Proof.
  pose proof (submit_emits intent s) as H. destruct (Submit _ _ _ _ _ _ _ s) as [[r s'] log].
  destruct H as [H|H]; [by right|by left].
Qed.
End Submitting.

(** ** Lemmas: the guard *)

Section Guarding.
Context (pack : list argument → bytes).
Context {S F Tx : Type} `{RPC : !HomeRootRPC S F}.

(** What the guard reads of the Gateway: the root at the block of the head, and
    whether that block updated it, that block being canonical before and
    after. *)
Definition guard_reads (gateway : Address) (s s' : S) (root : Hash) (updated : bool) : Prop :=
  ∃ number block parent s1 data1 s2 data2 s3 again,
    guard_HeaderByNumber (F := F) None s = (Ok (Some (Indexer.mkHeader (Some number) block parent)), s1) ∧
    0 ≤ number ∧
    guard_CallContractAtHash (F := F) gateway EncodeCurrentTrustRootCall block s1 = (Ok data1, s2) ∧
    DecodeHashResult data1 = Ok root ∧
    guard_CallContractAtHash (F := F) gateway
      (EncodeHasTrustRootUpdateAtBlockCall pack (Some number)) block s2 = (Ok data2, s3) ∧
    DecodeBoolResult data2 = Ok updated ∧
    guard_HeaderByNumber (F := F) (Some number) s3 = (Ok (Some again), s') ∧
    again.(Indexer.header_Hash) = block.

Definition guard_verdict (expected root : Hash) (updated : bool) : res (error F) unit :=
  if updated then Err ErrHomeBlockBoundary
  else if root ≠?= expected then Err ErrStaleHomeTrustRoot else Ok tt.

(** The other errors of the guard are those of its readings. *)
Definition unread (r : res (error F) unit) : Prop :=
  match r with Err (ErrNew _ | ErrABI _ | ErrFrom _) => True | _ => False end.

Abbreviation validating := (Validate (F := F) (Tx := Tx) pack).

Lemma guard_reads_verdict gateway expected s s' root updated :
  guard_reads gateway s s' root updated →
  validating gateway expected s = (guard_verdict expected root updated, s', []).
Proof.
  intros (n & block & parent & s1 & d1 & s2 & d2 & s3 & again & H1 & Hn & H2 & H3 & H4 & H5 & H6 & H7).
  unfold Validate, mbind, M_mbind, M_bind, attempt, ask, abi, M_lift. rewrite H1.
  cbn [fst snd]. rewrite (proj2 (Z.ltb_ge _ _) Hn), H2. cbn [map_err]. rewrite H3. cbn [map_err].
  rewrite H4. cbn [map_err]. rewrite H5. cbn [map_err]. rewrite H6, H7.
  rewrite bool_decide_eq_true_2 by done. cbn [negb]. unfold guard_verdict.
  destruct updated; [done|]. by destruct (_ ≠?= _).
Qed.

Lemma validate_cases gateway expected s r s' log :
  validating gateway expected s = (r, s', log) →
  log = [] ∧ (unread r ∨ ∃ root updated, guard_reads gateway s s' root updated ∧
                r = guard_verdict expected root updated).
Proof.
  unfold Validate, mbind, M_mbind, M_bind, attempt, ask, abi, new, M_lift, M_fail, M_ret.
  destruct (guard_HeaderByNumber None s) as [[[[[n|] block parent]|]|e] s1] eqn:H1; cbn;
    try (intros [= <- <- <-]; by split; [|left]).
  destruct (Z.ltb_spec n 0); [intros [= <- <- <-]; by split; [|left]|].
  destruct (guard_CallContractAtHash _ _ _ s1) as [[d1|e] s2] eqn:H2; cbn;
    [|intros [= <- <- <-]; by split; [|left]].
  destruct (DecodeHashResult d1) as [root|e] eqn:H3; cbn; [|intros [= <- <- <-]; by split; [|left]].
  destruct (guard_CallContractAtHash _ _ _ s2) as [[d2|e] s3] eqn:H4; cbn;
    [|intros [= <- <- <-]; by split; [|left]].
  destruct (DecodeBoolResult d2) as [updated|e] eqn:H5; cbn; [|intros [= <- <- <-]; by split; [|left]].
  destruct (guard_HeaderByNumber (Some n) s3) as [[[again|]|e] s4] eqn:H6; cbn;
    try (intros [= <- <- <-]; by split; [|left]).
  destruct (bool_decide_reflect (again.(Indexer.header_Hash) = block)) as [H7|]; cbn [negb];
    [|intros [= <- <- <-]; by split; [|left]].
  intros Hr. assert (log = [] ∧ s' = s4 ∧ r = guard_verdict expected root updated) as (-> & -> & ->).
  { unfold guard_verdict. destruct updated; [by injection Hr|].
    destruct (_ ≠?= _); by injection Hr. }
  split; [done|]. right. exists root, updated. split; [|done].
  by exists n, block, parent, s1, d1, s2, d2, s3, again.
Qed.

(** C15. The guard lets a transaction pass exactly when, at one block that is
    canonical before and after the readings, the Gateway has the expected trust
    root and that block has not updated it; it reports the block boundary
    exactly when the block has updated the root, whatever the root is, and a
    stale root exactly when the root is another one and the block has not. *)
Theorem Validate_guard gateway expected s s' log :
  (validating gateway expected s = (Ok tt, s', log) ↔
     log = [] ∧ guard_reads gateway s s' expected false) ∧
  (validating gateway expected s = (Err ErrHomeBlockBoundary, s', log) ↔
     log = [] ∧ ∃ root, guard_reads gateway s s' root true) ∧
  (validating gateway expected s = (Err ErrStaleHomeTrustRoot, s', log) ↔
     log = [] ∧ ∃ root, root ≠ expected ∧ guard_reads gateway s s' root false).
Proof.
  split_and!; split.
  - intros [-> [[]|(root & updated & Hr & Hv)]]%validate_cases. split; [done|].
    unfold guard_verdict in Hv. destruct updated; [done|].
    destruct (bool_decide_reflect (root = expected)) as [<-|]; done.
  - intros [-> Hr]. rewrite (guard_reads_verdict _ expected _ _ _ _ Hr). unfold guard_verdict.
    by rewrite bool_decide_eq_true_2.
  - intros [-> [[]|(root & updated & Hr & Hv)]]%validate_cases. split; [done|].
    unfold guard_verdict in Hv. destruct updated; [by exists root|]. by destruct (_ ≠?= _).
  - intros [-> [root Hr]]. by rewrite (guard_reads_verdict _ expected _ _ _ _ Hr).
  - intros [-> [[]|(root & updated & Hr & Hv)]]%validate_cases. split; [done|].
    unfold guard_verdict in Hv. destruct updated; [done|].
    destruct (bool_decide_reflect (root = expected)); [done|by exists root].
  - intros [-> (root & Hne & Hr)]. rewrite (guard_reads_verdict _ expected _ _ _ _ Hr).
    unfold guard_verdict. by rewrite bool_decide_eq_false_2.
Qed.
End Guarding.

(** ** Lemmas: what the worker leaves behind *)

Section Landing.
Context (keccak256 sha256 : bytes → Hash) (IDFromBytes : bytes → option Envelope.PeerID).
Context (peer_String : Envelope.PeerID → string) (peer_Decode : string → option Envelope.PeerID).
Context (pack : list argument → bytes).
Context {W C E Tx K : Type} `{ENV : !Environment W C E}.
Context (http_url : string → bool).
Context (read_manifest : string → res (ChainReader.error E) ChainReader.gatewayManifest).
Context (is_hex_address : string → bool) (hex_to_address : string → Address).
Context (from_hex : string → bytes).
Context (catalog : Catalog) (pathTreeDepth : Z).
Context (profiles : ChainID → option Registry.ValidatedDirectProfile) (p2pRequired : bool).
Context `{HRPC : !HomeRootRPC W E} `{CALL : !ContractCaller W E} `{SRPC : !SubmissionRPC W E Tx}.
Context (SignNewTx : DynamicFeeTx → res (app_error E) Tx).
Context (MarshalBinary : Tx → res (app_error E) bytes).
Context (UnmarshalBinary : bytes → option Tx) (tx_Hash : Tx → Hash).
Context (Sign : Hash → K → res (app_error E) bytes) (SigToAddress : Hash → bytes → option Address).
Context (homeChainID : ChainID) (gateway verifier sender : Address) (confirmationDepth : Z).
Context (orderedSigners : list (AuthorizedSigner K)) (signatureChecks : Z).
Context (keccak_nonzero : ∀ l, keccak256 l ≠ zero32).

Abbreviation App := (App W C).
Abbreviation X A := (M App (event Tx) (error (app_error E)) A).
Abbreviation node_ok := (Node.node_wf keccak256 sha256 IDFromBytes peer_String).
Abbreviation moves :=
  (OperationalRuns.moves keccak256 sha256 IDFromBytes peer_String peer_Decode (W := W) (C := C)).

#[local] Existing Instances app_guard_rpc app_caller app_rpc app_repository app_guard
  OperationalRuns.moves_preorder.

(** A database with the row of the transaction [tx]. *)
Definition carried (tx : Tx) (db : Database) : Prop :=
  ∃ id row, db.(txs).(transaction_submissions) !! id = Some row ∧ row.(sub_TxHash) = tx_Hash tx.

(** A submission that was read from the table. *)
Definition listed (item : TransactionSubmission) (db : Database) : Prop :=
  ∃ id row, db.(txs).(transaction_submissions) !! id = Some row ∧
    row.(sub_TxHash) = item.(sub_TxHash).

(** What further transactions do not take away. *)
Definition lasting (P : Database → Prop) : Prop :=
  ∀ db db', Node.node_kept db db' → P db → P db'.

Lemma carried_lasting tx : lasting (carried tx).
Proof.
  intros db db' Hk (id & row & Hrow & Hc).
  apply (Node.nk_txs _ _ Hk) in Hrow as (row' & Hrow' & Hsame & _).
  exists id, row'. split; [done|]. rewrite Hsame. exact Hc.
Qed.

Lemma listed_lasting item : lasting (listed item).
Proof.
  intros db db' Hk (id & row & Hrow & Hc).
  apply (Node.nk_txs _ _ Hk) in Hrow as (row' & Hrow' & Hsame & _).
  exists id, row'. split; [done|]. rewrite Hsame. exact Hc.
Qed.

Lemma true_lasting : lasting (λ _, True).
Proof. done. Qed.

(** [lands P m Q]: from a database with [P], a run of [m] is a run of the node,
    every transaction it sends is in the table it leaves, and its results
    satisfy [Q]. *)
Definition lands {A} (P : Database → Prop) (m : X A) (Q : A → Database → Prop) : Prop :=
  ∀ s r s' log, node_ok s.(database) → P s.(database) → m s = (r, s', log) →
    moves s s' ∧ (∀ tx, Sent tx ∈ log → carried tx s'.(database)) ∧
    (∀ a, r = Ok a → Q a s'.(database)).

Lemma lands_bind {A B} P (m : X A) Q (k : A → X B) R :
  lands P m Q → (∀ a, lands (Q a) (k a) R) → lands P (m ≫= k) R.
Proof using keccak_nonzero.
  intros Hm Hk s r s2 log Hw HP. unfold mbind, M_mbind, M_bind.
  destruct (m s) as [[[a|e] s1] l1] eqn:E1.
  2: { intros [= <- <- <-]. destruct (Hm _ _ _ _ Hw HP E1) as (M1 & S1 & _). by split_and!. }
  destruct (k a s1) as [[r2 s3] l2] eqn:E2. intros [= <- <- <-].
  destruct (Hm _ _ _ _ Hw HP E1) as (M1 & S1 & Q1). specialize (Q1 a eq_refl).
  pose proof M1 as [W1 _]%(Node.nodes_good _ _ _ _ _ keccak_nonzero); [|done].
  destruct (Hk a _ _ _ _ W1 Q1 E2) as (M2 & S2 & Q2).
  split; [by transitivity s1|]. split; [|done].
  intros tx [Hin|Hin]%elem_of_app; [|by apply S2].
  eapply carried_lasting; [|by apply S1].
  by apply (Node.nodes_good _ _ _ _ _ keccak_nonzero) in M2 as [_ K2].
Qed.

Lemma lands_catch {A} P (m : X A) Q (handle : error (app_error E) → X A) :
  lasting P → lands P m Q → (∀ e, lands P (handle e) Q) → lands P (M_catch m handle) Q.
Proof using keccak_nonzero.
  intros HL Hm Hk s r s2 log Hw HP. unfold M_catch.
  destruct (m s) as [[[a|e] s1] l1] eqn:E1.
  { intros [= <- <- <-]. by apply (Hm _ _ _ _ Hw HP E1). }
  destruct (handle e s1) as [[r2 s3] l2] eqn:E2. intros [= <- <- <-].
  destruct (Hm _ _ _ _ Hw HP E1) as (M1 & S1 & _).
  pose proof M1 as [W1 K1]%(Node.nodes_good _ _ _ _ _ keccak_nonzero); [|done].
  destruct (Hk e _ _ _ _ W1 (HL _ _ K1 HP) E2) as (M2 & S2 & Q2).
  split; [by transitivity s1|]. split; [|done].
  intros tx [Hin|Hin]%elem_of_app; [|by apply S2].
  eapply carried_lasting; [|by apply S1].
  by apply (Node.nodes_good _ _ _ _ _ keccak_nonzero) in M2 as [_ K2].
Qed.

Lemma lands_weaken {A} (P P' : Database → Prop) (m : X A) (Q Q' : A → Database → Prop) :
  lands P m Q → (∀ db, P' db → P db) → (∀ a db, Q a db → Q' a db) → lands P' m Q'.
Proof.
  intros Hm HP HQ s r s' log Hw Hs Hrun. destruct (Hm _ _ _ _ Hw (HP _ Hs) Hrun) as (? & ? & ?).
  split_and!; [done..|]. intros a Ha. auto.
Qed.

Lemma lands_ret {A} (P : Database → Prop) (Q : A → Database → Prop) a :
  (∀ db, P db → Q a db) → lands P (M_ret a) Q.
Proof.
  intros H s r s' log _ HP [= <- <- <-]. split; [reflexivity|].
  split; [intros tx Hin; by apply elem_of_nil in Hin|]. intros a' [= <-]. auto.
Qed.

Lemma lands_fail {A} P (Q : A → Database → Prop) e : lands P (M_fail e) Q.
Proof.
  intros s r s' log _ HP [= <- <- <-]. split; [reflexivity|].
  by split; [intros tx Hin; apply elem_of_nil in Hin|].
Qed.

(** What moves the database and sends nothing keeps a lasting property. *)
Lemma lands_moving {A} (m : X A) P :
  lasting P → keeps moves (λ _, True) m → emits m (λ _ log, unsent log) → lands P m (λ _, P).
Proof using keccak_nonzero.
  intros HL Hm He s r s' log Hw HP Hrun. specialize (Hm s). specialize (He s).
  rewrite Hrun in Hm, He. cbn in Hm, He. specialize (Hm ltac:(by apply Forall_forall)).
  split; [done|]. split; [intros tx Hin; by destruct (He tx)|]. intros a _.
  apply (Node.nodes_good _ _ _ _ _ keccak_nonzero) in Hm as [_ K1]; [|done]. by eapply HL.
Qed.

Lemma silent_unsent {A} (m : X A) : silent m → emits m (λ _ log, unsent log).
Proof. intros H s. rewrite (H s). apply unsent_nil. Qed.
(** *** What does not touch the table of submissions *)

Lemma still_moving {Ev F A} (m : M App Ev F A) Pe :
  (∀ s, (m s).1.2.(database) = s.(database)) → keeps moves Pe m.
Proof. intros H s _. unfold OperationalRuns.moves. rewrite H. apply rtc_refl. Qed.

Lemma lands_still {A} (m : X A) P :
  lasting P → (∀ s, (m s).1.2.(database) = s.(database)) → silent m → lands P m (λ _, P).
Proof using keccak_nonzero.
  intros HL Hm Hs. apply lands_moving; [done|by apply still_moving|by apply silent_unsent].
Qed.

(** A call of a client of the home chain. *)
Lemma client_still {A} (op : W → res E A * W) (s : App) :
  (on_client op s).2.(database) = s.(database).
Proof. unfold on_client. by destruct (op (world s)). Qed.

Lemma lands_attempt {A} (op : W → res E A * W) P :
  lasting P → lands P (attempt (on_client op)) (λ _, P).
Proof using keccak_nonzero.
  intros HL. apply lands_still; [done| |apply attempt_silent].
  intros s. unfold attempt. pose proof (client_still op s) as H. by destruct (on_client op s).
Qed.

Lemma lands_ask {A} (op : W → res E A * W) P :
  lasting P → lands P (ask (on_client op)) (λ _, P).
Proof using keccak_nonzero.
  intros HL. apply lands_still; [done| |apply ask_silent].
  intros s. unfold ask. pose proof (client_still op s) as H. by destruct (on_client op s).
Qed.

Lemma lands_now P : lasting P → lands P (Executor.now (S := App) (Tx := Tx)) (λ _, P).
Proof using keccak_nonzero.
  intros HL. apply lands_still; [done| |apply clock_silent].
  intros s. unfold Executor.now. cbn. by destruct (clock (world s)).
Qed.

Lemma lands_lift {A} (r : res _ A) P : lands P (M_lift r) (λ _, P).
Proof.
  intros s r' s' log _ HP [= <- <- <-]. split; [reflexivity|].
  by split; [intros tx Hin; apply elem_of_nil in Hin|].
Qed.

(** The guard reads the home chain. *)
Lemma guard_moving root :
  keeps moves (λ _, True) (Validate (Tx := Tx) (S := App) pack gateway root).
Proof.
  assert (∀ A (op : W → res E A * W),
    keeps moves (λ _, True) (ask (Tx := Tx) (on_client (W := W) (C := C) op))) as Hask.
  { intros A op. apply still_moving. intros s. unfold ask.
    pose proof (client_still op s) as H. by destruct (on_client op s). }
  assert (∀ A (op : W → res E A * W),
    keeps moves (λ _, True) (attempt (Tx := Tx) (on_client (W := W) (C := C) op) :
      X (res (app_error E) A))) as Hatt.
  { intros A op. apply still_moving. intros s. unfold attempt.
    pose proof (client_still op s) as H. by destruct (on_client op s). }
  unfold Validate, abi, new. cbn [app_guard_rpc guard_HeaderByNumber guard_CallContractAtHash].
  keeping; first [apply Hask|apply Hatt].
Qed.

Lemma lands_guarded root P :
  lasting P → lands P (guarded (GUARD := app_guard (Tx := Tx) pack gateway) root) (λ _, P).
Proof using keccak_nonzero.
  intros HL. apply lands_moving; [done| |].
  - intros s _. unfold guarded. cbn [app_guard guard_Validate].
    pose proof (guard_moving root s) as H. destruct (Validate _ _ _ _) as [[[u|e] s'] log]; cbn in *;
      apply H; by apply Forall_forall.
  - intros s. pose proof (guarded_emits (GUARD := app_guard (Tx := Tx) pack gateway) (Tx := Tx) root s) as H.
    cbn beta in H. rewrite H. destruct (is_ok _); [apply guarded_unsent|]; apply unsent_nil.
Qed.

(** *** The repository *)

Lemma repository_moving {A} (op : Z → Database → res Tables.error A * Database) (s : App) :
  (∀ t db, rtc (Node.node_step keccak256 sha256 IDFromBytes peer_String peer_Decode) db (op t db).2) →
  moves s (repository op s).2.
Proof.
  intros H. unfold repository, OperationalRuns.moves. destruct (clock (world s)) as [t w].
  specialize (H t (database s)). by destruct (op t (database s)) as [r db].
Qed.

Lemma committed_moving {A} (op : Database → res Tables.error (A * Database)) db :
  (∀ a db', op db = Ok (a, db') →
     Node.node_step keccak256 sha256 IDFromBytes peer_String peer_Decode db db') →
  rtc (Node.node_step keccak256 sha256 IDFromBytes peer_String peer_Decode) db (committed op db).2.
Proof.
  intros H. unfold committed. destruct (op db) as [[a db']|e]; cbn; [|apply rtc_refl].
  by eapply rtc_once, H.
Qed.

Lemma transition_moving id from to reason at_ s :
  to ≠ Confirmed →
  moves s (repo_Transition (SubmissionRepository := app_repository keccak256) id from to reason at_ s).2.
Proof.
  intros Hto. apply repository_moving. intros t db. apply committed_moving.
  intros [u b] db' H. by eapply Node.node_transition.
Qed.

Lemma confirm_moving receipt s :
  moves s (repo_Confirm (SubmissionRepository := app_repository keccak256) receipt s).2.
Proof.
  apply repository_moving. intros t db. apply committed_moving.
  intros [] db' (db1 & H & [= <-])%bind_Ok. by eapply Node.node_confirm.
Qed.

Lemma lands_op {A} (op : App → res (app_error E) A * App) P :
  lasting P → (∀ s, moves s (op s).2) → lands P (ask op) (λ _, P).
Proof using keccak_nonzero.
  intros HL H. apply lands_moving; [done| |apply silent_unsent, ask_silent].
  intros s _. unfold ask. specialize (H s). by destruct (op s).
Qed.

Lemma lands_move id from to reason P :
  lasting P → to ≠ Confirmed →
  lands P (move (RPC := app_rpc) (REPO := app_repository keccak256) id from to reason) (λ _, P).
Proof using keccak_nonzero.
  intros HL Hto. unfold move. eapply lands_bind; [by apply lands_now|]. intros t.
  eapply lands_bind; [apply lands_op; [done|]|].
  - intros s. by apply transition_moving.
  - intros [u b]. by apply lands_ret.
Qed.

Lemma SavePrepared_hash t submission db p b db' :
  TransactionStore.SavePrepared keccak256 t submission db = (Ok (p, b), db') →
  p.(sub_TxHash) = submission.(sub_TxHash).
Proof.
  unfold TransactionStore.SavePrepared. destruct (ValidatePrepared _ _); [|done].
  destruct (_ || _); [done|]. intros [= H _]. apply bind_Ok in H as (l & _ & [Hc [= <- _]]%bind_bool).
  by bool_to_prop.
Qed.

(** A saved submission is in the table. *)
Lemma lands_save submission P :
  lands P (save (Tx := Tx) (REPO := app_repository keccak256) submission)
    (λ p db, listed p db ∧ p.(sub_TxHash) = submission.(sub_TxHash)).
Proof.
  intros s r s' log W0 HP. unfold save. cbn [app_repository repo_SavePrepared].
  unfold repository. destruct (clock (world s)) as [t w].
  destruct (TransactionStore.SavePrepared keccak256 t submission s.(database)) as [r0 db] eqn:Hs.
  intros Hrun.
  assert (s'.(database) = db ∧ unsent log ∧ ∀ p, r = Ok p → ∃ b, r0 = Ok (p, b)) as (Hdb & Hlog & Hr).
  { destruct r0 as [[p b]|e]; injection Hrun as <- <- <-; cbn; split_and!; try done.
    - intros tx' Hin. by apply list_elem_of_singleton in Hin.
    - intros p' [= <-]. by exists b.
    - apply unsent_nil. }
  split.
  { unfold OperationalRuns.moves. rewrite Hdb. by eapply rtc_once, Node.node_prepare. }
  split; [intros tx' Hin; by destruct (Hlog tx')|].
  intros p Hp. destruct (Hr p Hp) as [b ->]. rewrite Hdb.
  split; [|by eapply SavePrepared_hash].
  apply TransactionStore.SavePrepared_effect in Hs as [[-> Hold]|(Hnew & -> & _)].
  - destruct (Hold p b eq_refl) as [_ Hrow]. by exists submission.(sub_ID), p.
  - injection Hnew as -> _. eexists _, _. cbn. rewrite lookup_insert_eq. done.
Qed.
(** *** The submitter *)

#[local] Existing Instance app_rpc.

Abbreviation broadcast :=
  (broadcastPrepared (S := App) (F := app_error E) (Tx := Tx) (RPC := app_rpc)
     (REPO := app_repository keccak256) tx_Hash).

Lemma lands_note tx : lands (carried tx) (note (Sent tx)) (λ _, carried tx).
Proof.
  intros s r s' log _ Hc [= <- <- <-]. split; [reflexivity|].
  split; [|done]. by intros tx' [= ->]%list_elem_of_singleton.
Qed.

(** Only rows of the table are sent. *)
Lemma lands_broadcast item tx :
  tx_Hash tx = item.(sub_TxHash) →
  lands (listed item) (broadcast item tx) (λ _ _, True).
Proof using keccak_nonzero.
  intros Hh. apply (lands_weaken (carried tx) _ _ (λ _, carried tx)).
  2: { intros db (id & row & Hrow & Hsame). exists id, row. by rewrite Hh. }
  2: done.
  pose proof (carried_lasting tx) as HL.
  unfold broadcastPrepared. eapply lands_bind; [apply lands_note|]. intros ?.
  eapply lands_bind; [by apply lands_attempt|]. intros sent.
  eapply (lands_bind _ _ (λ _, carried tx)).
  { destruct sent; [by apply lands_ret|].
    eapply lands_bind; [by apply lands_attempt|]. intros found. by apply lands_ret. }
  intros accepted. eapply (lands_bind _ _ (λ _, carried tx)).
  { destruct sent; [by apply lands_ret|].
    destruct (negb accepted); [apply lands_fail|by apply lands_ret]. }
  intros ?. destruct (_ =?= _); [by apply lands_ret|].
  destruct (_ && _); [apply lands_fail|]. by apply lands_move.
Qed.

Abbreviation submitting :=
  (Submit (REPO := app_repository keccak256) (GUARD := app_guard (Tx := Tx) pack gateway) keccak256
     SignNewTx MarshalBinary tx_Hash homeChainID sender).

Lemma lands_submit intent : lands (λ _, True) (submitting intent) (λ _ _, True).
Proof using keccak_nonzero.
  pose proof true_lasting as HL.
  unfold Submit. destruct (invalid_intent _ _ _); [apply lands_fail|].
  eapply lands_bind; [by apply lands_guarded|]. intros ?.
  eapply lands_bind; [by apply lands_ask|]. intros nonce.
  eapply lands_bind; [by apply lands_attempt|]. intros tipping.
  eapply (lands_bind _ _ (λ _ _, True)).
  { destruct tipping as [[tip|]|]; [destruct (_ <? _)|..]; first [apply lands_fail|by apply lands_ret]. }
  intros tip. eapply lands_bind; [by apply lands_attempt|]. intros header.
  eapply (lands_bind _ _ (λ _ _, True)).
  { destruct header as [[[h [base|]]|]|]; [destruct (_ <? _)|..];
      first [apply lands_fail|by apply lands_ret]. }
  intros base. eapply lands_bind; [by apply lands_attempt|]. intros estimate.
  eapply (lands_bind _ _ (λ _ _, True)).
  { destruct estimate as [gas|]; [destruct (_ =? _)|]; first [apply lands_fail|by apply lands_ret]. }
  intros gas. eapply lands_bind; [by apply lands_guarded|]. intros ?.
  eapply lands_bind; [apply lands_lift|]. intros tx.
  eapply lands_bind; [apply lands_lift|]. intros raw.
  eapply lands_bind; [by apply lands_now|]. intros t.
  eapply lands_bind; [apply lands_save|]. intros p s r s' log W0 [Hl Hh].
  by apply (lands_broadcast p tx).
Qed.

(** *** Recovery *)

Abbreviation reconciling :=
  (reconcile (REPO := app_repository keccak256) (S := App) (F := app_error E) (Tx := Tx)
     UnmarshalBinary tx_Hash confirmationDepth).

Lemma lands_receipt item receipt :
  lands (listed item)
    (reconcileReceipt (REPO := app_repository keccak256) (S := App) (F := app_error E) (Tx := Tx)
       confirmationDepth item receipt) (λ _ _, True).
Proof using keccak_nonzero.
  apply (lands_weaken (λ _, True) _ _ (λ _ _, True)); [|done..]. pose proof true_lasting as HL.
  unfold reconcileReceipt. destruct (rc_BlockNumber receipt) as [number|]; [|apply lands_fail].
  destruct (_ || _); [apply lands_fail|]. destruct (negb _).
  { destruct (_ =?= _); [by apply lands_ret|].
    eapply lands_bind; [by apply lands_move|]. intros ?. by apply lands_ret. }
  eapply (lands_bind _ _ (λ _ _, True)).
  { destruct (_ ≠?= _); [by apply lands_move|by apply lands_ret]. }
  intros item'. eapply lands_bind; [by apply lands_attempt|]. intros head.
  destruct head as [[[[[tip|] h q] base]|]|]; try by apply lands_ret.
  destruct (_ || _); [by apply lands_ret|].
  eapply lands_bind; [by apply lands_attempt|]. intros canonical.
  destruct canonical as [[[h' base']|]|]; try by apply lands_ret.
  destruct (_ ≠?= _); [by apply lands_ret|].
  eapply lands_bind; [by apply lands_ask|]. intros resolved.
  destruct (negb resolved); [by apply lands_ret|].
  eapply lands_bind; [by apply lands_now|]. intros t.
  eapply (lands_bind _ _ (λ _ _, True)).
  { apply lands_moving; [done| |apply silent_unsent, attempt_silent].
    intros s _. unfold attempt. pose proof (confirm_moving (mkConfirmed (sub_ID item')
      (sub_RequestID item') (sub_TxHash item') (wrap64 number) (rc_BlockHash receipt)
      (Status receipt) (wrap64 (wrap64 tip - wrap64 number + 1)) (Some t)) s) as H.
    by destruct (repo_Confirm _ s). }
  intros [u|e]; [by apply lands_ret|]. destruct (bundle_pending e); [by apply lands_ret|apply lands_fail].
Qed.

Lemma lands_reconcile item : lands (listed item) (reconciling item) (λ _ _, True).
Proof using keccak_nonzero.
  pose proof (listed_lasting item) as HL.
  unfold reconcile. eapply lands_bind; [by apply lands_attempt|]. intros receipt.
  assert (lands (listed item) (
    match receipt with
    | Err e => if is_not_found (S := App) (F := app_error E) (Tx := Tx) e then M_ret tt else M_fail (ErrFrom e)
    | Ok _ => M_ret tt
    end;;
    lookup ← attempt (TransactionByHash item.(sub_TxHash));
    if visible tx_Hash item.(sub_TxHash) lookup then
      if item.(sub_State) ≠?= Submitted
      then _ ← move (RPC := app_rpc) (REPO := app_repository keccak256) item.(sub_ID) item.(sub_State)
                 Submitted "transaction hash visible during recovery"; M_ret tt
      else M_ret tt
    else
      match lookup with
      | Err e => if is_not_found (S := App) (F := app_error E) (Tx := Tx) e then M_ret tt else M_fail (ErrFrom e)
      | Ok _ => M_ret tt
      end;;
      rebroadcast (REPO := app_repository keccak256) UnmarshalBinary tx_Hash item) (λ _ _, True)) as Hrest.
  { eapply (lands_bind _ _ (λ _, listed item)).
    { destruct receipt as [r|e]; [by apply lands_ret|].
      destruct (is_not_found e); [by apply lands_ret|apply lands_fail]. }
    intros ?. eapply lands_bind; [by apply lands_attempt|]. intros lookup.
    destruct (visible _ _ _).
    { destruct (_ ≠?= _); [|by apply lands_ret].
      eapply lands_bind; [by apply lands_move|]. intros ?. by apply lands_ret. }
    eapply (lands_bind _ _ (λ _, listed item)).
    { destruct lookup as [r|e]; [by apply lands_ret|].
      destruct (is_not_found e); [by apply lands_ret|apply lands_fail]. }
    intros ?. unfold rebroadcast. destruct (UnmarshalBinary _) as [tx|]; [|apply lands_fail].
    destruct (bool_decide_reflect (tx_Hash tx = item.(sub_TxHash))) as [He|]; cbn [negb]; [|apply lands_fail].
    apply lands_catch; [done| |].
    - eapply lands_bind; [by apply lands_broadcast|]. intros ?. by apply lands_ret.
    - intros e. destruct e; first [by apply lands_ret|apply lands_fail]. }
  destruct receipt as [[rc|]|e]; [|exact Hrest..]. apply lands_receipt.
Qed.

Lemma scan_all_Ok rows items :
  TransactionStore.scan_all rows = Ok items → items = rows.
Proof.
  revert items. induction rows as [|row rest IH]; intros items; cbn [TransactionStore.scan_all].
  { by intros [= <-]. }
  intros (s & [[= ->] _]%TransactionStore.scan_Ok & H)%bind_Ok. apply bind_Ok in H as (more & Hm & [= <-]).
  by rewrite (IH _ Hm).
Qed.
Lemma lands_recoverable :
  lands (λ _, True) (recoverable (Tx := Tx) (REPO := app_repository keccak256))
    (λ items db, Forall (λ item, listed item db) items).
Proof.
  intros s r s' log _ _ [= <- <- <-]. split; [reflexivity|].
  split; [intros tx Hin; by apply elem_of_nil in Hin|].
  intros items Hi%map_err_Ok%map_err_Ok. apply scan_all_Ok in Hi as ->.
  apply Forall_forall. intros item Hin. rewrite sort_by_perm in Hin.
  apply list_elem_of_In, filter_In in Hin as [Hin _]. apply list_elem_of_In in Hin.
  apply list_elem_of_fmap in Hin as ([id row] & -> & Hin%elem_of_map_to_list). by exists id, row.
Qed.

Lemma lands_reconcile_all items :
  lands (λ db, Forall (λ item, listed item db) items)
    (reconcile_all (REPO := app_repository keccak256) (S := App) (F := app_error E) (Tx := Tx)
       UnmarshalBinary tx_Hash confirmationDepth items) (λ _ _, True).
Proof using keccak_nonzero.
  induction items as [|item rest IH]; cbn [reconcile_all]; [by apply lands_ret|].
  assert (lasting (λ db, Forall (λ i, listed i db) rest)) as HL.
  { intros db db' Hk Hf. eapply Forall_impl; [exact Hf|]. intros i. exact (listed_lasting i _ _ Hk). }
  eapply (lands_bind _ _ (λ _ db, Forall (λ i, listed i db) rest)); [|intros ?; exact IH].
  intros s r s' log W0 [Hi Hr]%Forall_cons Hrun.
  destruct (lands_reconcile item _ _ _ _ W0 Hi Hrun) as (M1 & S1 & _). split_and!; [done..|].
  intros a _. apply (Node.nodes_good _ _ _ _ _ keccak_nonzero) in M1 as [_ K1]; [|done]. by eapply HL.
Qed.

Lemma lands_recover :
  lands (λ _, True)
    (Recover (REPO := app_repository keccak256) (S := App) (F := app_error E) (Tx := Tx)
       UnmarshalBinary tx_Hash confirmationDepth) (λ _ _, True).
Proof using keccak_nonzero.
  unfold Recover. eapply lands_bind; [apply lands_recoverable|]. apply lands_reconcile_all.
Qed.

(** *** The worker *)

Lemma app_call_silent {A} (m : M App app_event (app_error E) A) : silent (app_call (Tx := Tx) m).
Proof. intros s. unfold app_call. by destruct (m s) as [[r s'] log]. Qed.

Lemma lands_call {A} (m : M App app_event (app_error E) A) :
  keeps moves (λ _, True) m → lands (λ _, True) (app_call m) (λ _ _, True).
Proof using keccak_nonzero.
  intros Hm. apply lands_moving; [done| |apply silent_unsent, app_call_silent].
  intros s _. unfold app_call. specialize (Hm s). destruct (m s) as [[r s'] log]. cbn in *.
  apply Hm. by apply Forall_forall.
Qed.

Lemma lands_read {A} (op : Database → res Tables.error A) :
  lands (λ _, True) (app_read (E := E) (W := W) (C := C) (Tx := Tx) op) (λ _ _, True).
Proof using keccak_nonzero. apply lands_call. by apply still_moving. Qed.

Lemma attempt_range db id a : TransactionStore.NextAttempt db id = Ok a → 0 ≤ a.
Proof.
  unfold TransactionStore.NextAttempt, wrap64. destruct (_ !! id); [|done].
  destruct (TransactionStore.max_attempt _ _) as [b|]; [|by intros [= <-]].
  case_match; intros [= <-]; by apply Z.mod_pos_bound.
Qed.

Lemma lands_attempt_number id :
  lands (λ _, True)
    (app_read (E := E) (W := W) (C := C) (Tx := Tx) (λ db, TransactionStore.NextAttempt db id))
    (λ a _, 0 ≤ a).
Proof using keccak_nonzero.
  intros s r s' log W0 HP Hrun.
  destruct (lands_read (λ db, TransactionStore.NextAttempt db id) _ _ _ _ W0 HP Hrun) as (? & ? & _).
  split_and!; [done..|]. intros a ->. unfold app_read, app_call, read in Hrun.
  injection Hrun as Hrun _ _. apply map_err_Ok, map_err_Ok in Hrun. by eapply attempt_range.
Qed.

Lemma snapshot_moving request a homeNode sourceNode Pe :
  0 ≤ a →
  keeps moves Pe (transaction (E := E) (W := W) (C := C)
    (TransactionStore.CreateSnapshot keccak256 request a homeNode sourceNode)).
Proof.
  intros Ha. apply OperationalRuns.transaction_moving. intros db v db'.
  unfold TransactionStore.CreateSnapshot, on_core. intros ([v' c] & H%map_err_Ok & [= <- <-])%bind_Ok.
  eapply rtc_once, Node.node_core; [|done]. eapply System.step_snapshot; [|exact H]. exact Ha.
Qed.

Lemma retryable_moving request reason :
  keeps moves (λ _, True)
    (t ← Operational.now;
     transaction_ (W := W) (C := C) (E := E) (TransactionStore.MarkRetryable t request reason)).
Proof.
  apply keeps_bind; [exact _|apply OperationalRuns.now_moving|]. intros t.
  unfold transaction_. apply OperationalRuns.transaction_moving.
  intros db u db' (db1 & H & [= <- <-])%bind_Ok. unfold TransactionStore.MarkRetryable in H.
  apply bind_bool in H as [_ H]. apply bind_Ok in H as (p & _ & H).
  destruct (_ =?= _); [injection H as <-; apply rtc_refl|]. apply bind_bool in H as [_ H].
  apply bind_Ok in H as ([v c] & H & [= <-]). unfold on_core in H.
  apply bind_Ok in H as ([[r b] c'] & H%map_err_Ok & [= <- <-]).
  eapply rtc_once, Node.node_core; [|done]. by eapply System.step_transition_request.
Qed.

Abbreviation coordinating :=
  (coordinate (ENV := ENV) (Tx := Tx) keccak256 pathTreeDepth profiles).

Lemma lands_coordinate work :
  lands (λ _, True) (coordinating work) (λ _ _, True).
Proof using keccak_nonzero.
  apply lands_moving; [done| |].
  - intros s _. unfold coordinate.
    pose proof (ClientRuns.Process_keeps keccak256 moves
      (OperationalRuns.services_move keccak256 sha256 IDFromBytes peer_String peer_Decode
         pathTreeDepth profiles) work s) as H.
    destruct (Coordinator.Process _ _ _) as [[r s'] log]. apply H. by apply Forall_forall.
  - apply silent_unsent. intros s. unfold coordinate. by destruct (Coordinator.Process _ _ _) as [[r s'] l].
Qed.

Lemma lands_plan_call request root result :
  lands (λ _, True)
    (plan_call (W := W) (C := C) (Tx := Tx) keccak256 pack Sign SigToAddress verifier orderedSigners
       signatureChecks request root result) (λ _ _, True).
Proof using keccak_nonzero.
  pose proof true_lasting as HL. unfold plan_call.
  destruct (Coordinator.result_Plan result) as [plan|]; [|apply lands_fail].
  destruct (_ =?= _).
  - eapply (lands_bind _ _ (λ _ _, True)); [|intros [proof d]; by apply lands_ret].
    unfold BuildProof, abi. destruct (_ || _); [apply lands_fail|]. cbn zeta.
    eapply lands_bind; [by apply lands_ask|]. intros v.
    eapply lands_bind; [apply lands_lift|]. intros d.
    eapply lands_bind; [apply lands_lift|]. intros l. by apply lands_ret.
  - destruct (_ =?= _); [|apply lands_fail].
    destruct (Coordinator.result_PathProof result) as [proof|]; [|apply lands_fail].
    eapply lands_bind; [apply lands_lift|]. intros d. by apply lands_ret.
Qed.

Abbreviation stepping :=
  (Step (ENV := ENV) keccak256 pack http_url read_manifest is_hex_address hex_to_address from_hex
     catalog pathTreeDepth profiles p2pRequired SignNewTx MarshalBinary UnmarshalBinary tx_Hash Sign
     SigToAddress homeChainID gateway verifier sender confirmationDepth orderedSigners signatureChecks).

Lemma lands_step : lands (λ _, True) stepping (λ _ _, True).
Proof using keccak_nonzero.
  unfold Step. eapply lands_bind; [apply lands_recover|]. intros _u.
  eapply lands_bind; [apply lands_read|]. intros [request|]; [|by apply lands_ret].
  eapply lands_bind; [apply lands_attempt_number|]. intros number.
  eapply (lands_bind _ _ (λ _ _, 0 ≤ number)).
  { apply (lands_moving _ (λ _, 0 ≤ number)); [by intros ????| |apply silent_unsent, app_call_silent].
    intros s _. unfold app_call.
    pose proof (OperationalRuns.endpoints_moving keccak256 sha256 IDFromBytes peer_String peer_Decode
      (ENV := ENV) http_url read_manifest is_hex_address hex_to_address from_hex catalog p2pRequired
      request s) as H.
    destruct (ObserveRequestEndpoints _ _ _ _ _ _ _ _ _ s) as [[r s'] log]. apply H.
    by apply Forall_forall. }
  intros [homeNode sourceNode].
  eapply (lands_bind _ _ (λ _ _, True)).
  { intros s r s' log W0 Ha Hrun.
    eapply (lands_call _ (snapshot_moving request number homeNode sourceNode _ Ha)); [exact W0|done|exact Hrun]. }
  intros snapshot. cbn zeta. eapply lands_bind; [apply lands_coordinate|]. intros result.
  eapply lands_bind; [apply lands_plan_call|]. intros [calldata proofID].
  apply lands_catch; [done| |].
  - eapply lands_bind; [apply lands_submit|]. intros ?. by apply lands_ret.
  - intros e. destruct e; try apply lands_fail; [|by apply lands_ret].
    eapply lands_bind; [apply lands_call, retryable_moving|]. intros ?. by apply lands_ret.
Qed.

(** ** Theorems *)

Abbreviation node_steps :=
  (rtc (Node.node_step keccak256 sha256 IDFromBytes peer_String peer_Decode)).
Abbreviation reachable_node :=
  (Node.node_reachable keccak256 sha256 IDFromBytes peer_String peer_Decode).

(** C3. Nothing is sent that is not stored.  One step of the request worker, with
    its recovery, the coordinator and the submitter on the application, changes
    the database by transactions of the node only, whatever the chains answer
    and wherever it stops.  Every transaction it sends is a row of the database
    it leaves, with its hash and bytes of that hash; and in that database two
    rows for one attempt of a request, or of one transaction, or live at one
    nonce of one sender, are one row. *)
Theorem Step_broadcasts_stored s r s' log :
  reachable_node s.(database) → stepping s = (r, s', log) →
  node_steps s.(database) s'.(database) ∧
  (∀ tx, Sent tx ∈ log → ∃ id row,
     s'.(database).(txs).(transaction_submissions) !! id = Some row ∧
     row.(sub_TxHash) = tx_Hash tx ∧ keccak256 row.(RawSignedTx) = tx_Hash tx) ∧
  (∀ id1 id2 r1 r2,
     s'.(database).(txs).(transaction_submissions) !! id1 = Some r1 →
     s'.(database).(txs).(transaction_submissions) !! id2 = Some r2 →
     (r1.(sub_RequestID) = r2.(sub_RequestID) ∧ r1.(sub_Attempt) = r2.(sub_Attempt)) ∨
     r1.(sub_TxHash) = r2.(sub_TxHash) ∨
     (TransactionStore.active_state r1.(sub_State) = true ∧
      TransactionStore.active_state r2.(sub_State) = true ∧
      r1.(sub_HomeChainID) = r2.(sub_HomeChainID) ∧ r1.(Sender) = r2.(Sender) ∧
      r1.(Nonce) = r2.(Nonce)) →
     id1 = id2).
Proof using keccak_nonzero.
  intros Hreach Hrun.
  pose proof (Node.node_reachable_wf _ _ _ _ _ keccak_nonzero _ Hreach) as Hwf.
  destruct (lands_step _ _ _ _ Hwf I Hrun) as (Hm & Hs & _). split; [exact Hm|].
  apply (Node.nodes_good _ _ _ _ _ keccak_nonzero) in Hm as [[_ W1] _]; [|done]. split.
  - intros tx (id & row & Hrow & Hh)%Hs. exists id, row. split_and!; [done..|].
    rewrite <-Hh. by eapply TransactionStore.so_hash, TransactionStore.tx_row.
  - intros id1 id2 r1 r2 H1 H2 Hc. eapply (TransactionStore.tx_unique _ _ W1); [exact H1|exact H2|].
    unfold TransactionStore.rows_conflict.
    rewrite !orb_true_iff, !andb_true_iff, !bool_decide_eq_true, !Z.eqb_eq. naive_solver.
Qed.

(** C14. A request is only resumed on the snapshot of its plan.  When a request
    read back in one of the states after planning has, as its current plan, the
    plan of another snapshot than the one the worker has just sealed, the
    coordinator refuses it with an error and changes nothing, so the step of the
    worker fails. *)
Theorem resume_needs_its_snapshot work s :
  let request := work.(Coordinator.work_Request) in
  let id := request.(Coordinator.req_ID) in
  Store.LoadRequest s.(database).(core) id = Ok request →
  request.(Coordinator.req_State)
    ∈ [Coordinator.Planned; Coordinator.DirectFallback; Coordinator.ProofReady] →
  (∀ plan, PlanStore.LoadCurrentPlan keccak256 s.(database).(core) id = Ok plan →
     plan.(Planner.plan_SnapshotID) ≠ work.(Coordinator.work_SnapshotID)) →
  ∃ e, coordinating work s = (Err (ErrFrom (ErrProcess e)), s, []).
Proof.
  cbn zeta. intros Hload Hstate Hplan. unfold coordinate, Coordinator.Process.
  destruct (_ || _); [by eexists|].
  assert (work.(Coordinator.work_Request).(Coordinator.req_State) ≠ Coordinator.Observed) as Hobs.
  { intros He. rewrite He in Hstate. repeat (apply elem_of_cons in Hstate as [Hx|Hstate]; [discriminate Hx|]).
    by apply elem_of_nil in Hstate. }
  rewrite (bool_decide_eq_false_2 _ Hobs).
  unfold mbind, M_mbind, M_bind, Coordinator.M_read. cbn [Coordinator.LoadRequest app_services].
  rewrite Hload. cbn [map_err]. destruct (negb _); cbn [M_fail M_ret]; [by eexists|].
  destruct (process_step_refuses (SV := app_services (ENV := ENV) keccak256 pathTreeDepth profiles)
    keccak256 work (Coordinator.mkResult work.(Coordinator.work_Request) None None) s Hstate)
    as [e He].
  { intros plan Hl%map_err_Ok. by apply Hplan. }
  exists e. cbn [Coordinator.process_loop]. unfold mbind, M_mbind, M_bind. by rewrite He.
Qed.
End Landing.

End ExecutorRuns.
