(* ===== verification/ReplayView.v ===== *)
(** * Mapnode/replay: the graph of the offline replay

    replay_block.go, replay_cost_profile.go (the costs), replay_intra_chain_edge.go,
    replay_verified_dependency_edge.go and replay_trust_view.go: the replay tool
    rebuilds, event by event, a graph of the blocks of a trace, in which the
    neighbouring blocks of a chain are joined in both directions and a verified
    event adds a dependency edge.  The observed heights of a chain are kept in a
    treap.

    [strings.ToLower] is modelled on ASCII names; on the others it is the Unicode
    table of the standard library, a parameter.  The mutex of the view and its
    pool of scratch memory are left out (the scratch is an argument of the
    search, in ReplaySearch.v). *)

From Stdlib Require Import Strings.Byte.
From S2P Require Import Prelude.

Module ReplayView.

(** ** Chain names *)

(** [strings.TrimSpace]: the encodings of white space of Prelude.v, from the
    front, and backwards from the end. *)
Fixpoint trim_front (l : bytes) : bytes :=
  match l with
  | (x09 | x0a | x0b | x0c | x0d | x20) :: r => trim_front r
  | xc2 :: (x85 | xa0) :: r => trim_front r
  | xe1 :: x9a :: x80 :: r => trim_front r
  | xe2 :: x80 :: (x80 | x81 | x82 | x83 | x84 | x85 | x86 | x87 | x88 | x89 | x8a
                   | xa8 | xa9 | xaf) :: r => trim_front r
  | xe2 :: x81 :: x9f :: r => trim_front r
  | xe3 :: x80 :: x80 :: r => trim_front r
  | _ => l
  end.

Fixpoint trim_back (l : bytes) : bytes :=
  match l with
  | (x09 | x0a | x0b | x0c | x0d | x20) :: r => trim_back r
  | (x85 | xa0) :: xc2 :: r => trim_back r
  | x80 :: x9a :: xe1 :: r => trim_back r
  | (x80 | x81 | x82 | x83 | x84 | x85 | x86 | x87 | x88 | x89 | x8a
     | xa8 | xa9 | xaf) :: x80 :: xe2 :: r => trim_back r
  | x9f :: x81 :: xe2 :: r => trim_back r
  | x80 :: x80 :: xe3 :: r => trim_back r
  | _ => l
  end.

Definition TrimSpace (s : string) : string :=
  String.string_of_list_byte (rev (trim_back (rev (trim_front (bytes_of_string s))))).

Definition is_ascii (s : string) : bool :=
  forallb (λ b, byte_val b <? 128) (bytes_of_string s).

Definition lower_byte (b : Byte.byte) : Byte.byte :=
  if (65 <=? byte_val b) && (byte_val b <=? 90) then byte_of_Z (byte_val b + 32) else b.

Section Names.
(** [strings.ToLower] on a name that is not ASCII. *)
Context (unicode_ToLower : string → string).

Definition ToLower (s : string) : string :=
  if is_ascii s then String.string_of_list_byte (map lower_byte (bytes_of_string s))
  else unicode_ToLower s.

Definition canonicalChain (chain : string) : string := ToLower (TrimSpace chain).
End Names.

(** ** Costs *)

Inductive error :=
| ErrProfile
| ErrCostOverflow
| ErrChainEmpty
| ErrCrossEdges
| ErrNodeID
| ErrPredecessor
| ErrPathEdge
| ErrSetting
| ErrDuplicateSetting
| ErrCheckpoint
| ErrRestore (detail : string)
| ErrStore (detail : string)
| ErrCancelled
| OutOfFuel.

Record CostProfile := mkCostProfile {
  profile_ID : string;
  DirectStepCost : Z;
  PathStepCost : Z;
  TrustRootUpdateCost : Z
}.

Definition CostProfile_Validate (profile : CostProfile) : res error unit :=
  if blank profile.(profile_ID) then Err ErrProfile
  else if (profile.(DirectStepCost) =? 0) || (profile.(PathStepCost) =? 0)
          || (profile.(TrustRootUpdateCost) =? 0) then Err ErrProfile
  else Ok tt.

Definition LegacyV41CostProfile : CostProfile := mkCostProfile "legacy-v4.1" 3000000 30000 110000.
Definition PrototypeCalibratedCostProfile : CostProfile :=
  mkCostProfile "prototype-calibrated" 3000096 30713 108582.

Definition CheckedCost (delta step : Z) : res error Z :=
  if negb (delta =? 0) && (MaxUint64 / delta <? step) then Err ErrCostOverflow
  else Ok (delta * step).

Definition CheckedAdd (left right : Z) : res error Z :=
  if MaxUint64 - left <? right then Err ErrCostOverflow else Ok (left + right).

(** ** The index of heights: a treap

    Pointers into a tree that no one else holds: the functions that update nodes
    in place return the updated tree. *)

Inductive treap :=
| Leaf
| Node (key priority : Z) (left right : treap).

Definition mixHeight (value : Z) : Z :=
  let value := wrap64 (value + 0x9e3779b97f4a7c15) in
  let value := wrap64 (Z.lxor value (Z.shiftr value 30) * 0xbf58476d1ce4e5b9) in
  let value := wrap64 (Z.lxor value (Z.shiftr value 27) * 0x94d049bb133111eb) in
  Z.lxor value (Z.shiftr value 31).

Fixpoint Contains (t : treap) (key : Z) : bool :=
  match t with
  | Leaf => false
  | Node k _ l r => if key <? k then Contains l key else if k <? key then Contains r key else true
  end.

Fixpoint neighbours_loop (t : treap) (key : Z) (predecessor successor : option Z)
    : option Z * option Z :=
  match t with
  | Leaf => (predecessor, successor)
  | Node k _ l r =>
      if key <? k then neighbours_loop l key predecessor (Some k)
      else if k <? key then neighbours_loop r key (Some k) successor
      else (predecessor, successor)
  end.

Definition Neighbours (t : treap) (key : Z) : option Z * option Z :=
  neighbours_loop t key None None.

(** On nodes; a nil pointer does not occur. *)
Definition heightPriorityLess (left right : treap) : bool :=
  match left, right with
  | Node k p _ _, Node k' p' _ _ => (p <? p') || ((p =? p') && (k <? k'))
  | _, _ => false
  end.

Definition rotateHeightRight (root : treap) : treap :=
  match root with
  | Node k p (Node k' p' l' r') r => Node k' p' l' (Node k p r' r)
  | _ => root
  end.

Definition rotateHeightLeft (root : treap) : treap :=
  match root with
  | Node k p l (Node k' p' l' r') => Node k' p' (Node k p l l') r'
  | _ => root
  end.

Fixpoint insertHeightNode (root : treap) (key priority : Z) : treap :=
  match root with
  | Leaf => Node key priority Leaf Leaf
  | Node k p l r =>
      if key <? k then
        let l' := insertHeightNode l key priority in
        let root' := Node k p l' r in
        if heightPriorityLess l' root' then rotateHeightRight root' else root'
      else if k <? key then
        let r' := insertHeightNode r key priority in
        let root' := Node k p l r' in
        if heightPriorityLess r' root' then rotateHeightLeft root' else root'
      else root
  end.

Definition Insert (t : treap) (key : Z) : treap := insertHeightNode t key (mixHeight key).

(** ** Blocks, keys and edges *)

Record ReplayBlock := mkBlock {
  block_Chain : string;
  OriginalHeight : Z;
  NormalizedHeight : Z
}.

Record ReplayBlockKey := mkKey {
  key_Chain : string;
  key_Height : Z
}.

#[export] Instance ReplayBlockKey_eq_dec : EqDecision ReplayBlockKey.
Proof. solve_decision. Defined.

#[export] Instance ReplayBlockKey_countable : Countable ReplayBlockKey.
Proof.
  refine (inj_countable' (λ k, (k.(key_Chain), k.(key_Height))) (λ '(c, h), mkKey c h) _).
  by intros [].
Defined.

Abbreviation ReplayEdgeKind := string.
Definition ReplayIntraChainUpEdge : ReplayEdgeKind := "intra_chain_up".
Definition ReplayIntraChainDownEdge : ReplayEdgeKind := "intra_chain_down".
Definition ReplayVerifiedDependencyEdgeKind : ReplayEdgeKind := "verified_dependency".

Record ReplayEdge := mkEdge {
  edge_Kind : ReplayEdgeKind;
  edge_Weight : Z
}.

#[export] Instance ReplayEdge_eq_dec : EqDecision ReplayEdge.
Proof. solve_decision. Defined.

Record ReplayVerifiedDependencyEdge := mkDependencyEdge {
  dep_From : ReplayBlockKey;
  dep_To : ReplayBlockKey;
  dep_Weight : Z
}.

(** ** The view *)

Abbreviation Adjacency := (gmap ReplayBlockKey (gmap ReplayBlockKey ReplayEdge)).

Record ReplayTrustView := mkView {
  view_profile : CostProfile;
  heights : gmap string treap;
  adjacency : Adjacency;
  nodes : gset ReplayBlockKey;
  nodeIDs : gmap ReplayBlockKey Z;
  nodeKeys : list ReplayBlockKey;
  edgeCount : Z;
  crossEdgesAdded : Z
}.

Definition NewReplayTrustView (profile : CostProfile) : res error ReplayTrustView :=
  _ ← CostProfile_Validate profile;
  Ok (mkView profile ∅ ∅ ∅ ∅ [] 0 0).

Definition edge_at (a : Adjacency) (from to : ReplayBlockKey) : option ReplayEdge :=
  m ← a !! from; m !! to.

Definition set_edges (view : ReplayTrustView) (a : Adjacency) (count : Z) : ReplayTrustView :=
  mkView view.(view_profile) view.(heights) a view.(nodes) view.(nodeIDs) view.(nodeKeys) count
    view.(crossEdgesAdded).

Definition setEdgeLocked (view : ReplayTrustView) (from to : ReplayBlockKey) (edge : ReplayEdge)
    : ReplayTrustView :=
  let neighbours := default ∅ (view.(adjacency) !! from) in
  let count := if bool_decide (is_Some (neighbours !! to)) then view.(edgeCount)
               else wrap64 (view.(edgeCount) + 1) in
  set_edges view (<[from := <[to := edge]> neighbours]> view.(adjacency)) count.

Definition deleteEdgeLocked (view : ReplayTrustView) (from to : ReplayBlockKey) : ReplayTrustView :=
  match view.(adjacency) !! from with
  | Some neighbours =>
      if bool_decide (is_Some (neighbours !! to))
      then set_edges view (<[from := delete to neighbours]> view.(adjacency))
             (wrap64 (view.(edgeCount) - 1))
      else view
  | None => view
  end.

Record pendingEdge := mkPending {
  pending_from : ReplayBlockKey;
  pending_to : ReplayBlockKey;
  pending_edge : ReplayEdge
}.

(** [appendPair]: the edges between two neighbouring heights. *)
Definition pair_edges (profile : CostProfile) (chain : string) (lower higher : Z)
    : res error (list pendingEdge) :=
  let delta := higher - lower in
  up ← CheckedCost delta profile.(DirectStepCost);
  down ← CheckedCost delta profile.(PathStepCost);
  let lowKey := mkKey chain lower in
  let highKey := mkKey chain higher in
  Ok [mkPending lowKey highKey (mkEdge ReplayIntraChainUpEdge up);
      mkPending highKey lowKey (mkEdge ReplayIntraChainDownEdge down)].

(** The edges of a block between its neighbours. *)
Definition joined (profile : CostProfile) (chain : string) (h : Z) (pred succ : option Z)
    : res error (list pendingEdge) :=
  lower ← match pred with Some p => pair_edges profile chain p h | None => Ok [] end;
  upper ← match succ with Some s => pair_edges profile chain h s | None => Ok [] end;
  Ok (lower ++ upper).

Definition set_pending (view : ReplayTrustView) (pending : list pendingEdge) : ReplayTrustView :=
  foldl (λ v item, setEdgeLocked v item.(pending_from) item.(pending_to) item.(pending_edge))
    view pending.

Section View.
Context (unicode_ToLower : string → string).

Definition Key (block : ReplayBlock) : ReplayBlockKey :=
  mkKey (canonicalChain unicode_ToLower block.(block_Chain)) block.(OriginalHeight).

Definition canonicalKey (key : ReplayBlockKey) : ReplayBlockKey :=
  mkKey (canonicalChain unicode_ToLower key.(key_Chain)) key.(key_Height).

(** [activateLocked].  The index a new chain gets is stored before the edges
    are priced, so it stays when they are not. *)
Definition Activate (view : ReplayTrustView) (block : ReplayBlock)
    : res error ReplayBlockKey * ReplayTrustView :=
  let key := Key block in
  let chain := key.(key_Chain) in
  if chain =?= "" then (Err ErrChainEmpty, view)
  else
    let index := default Leaf (view.(heights) !! chain) in
    let indexed :=
      mkView view.(view_profile) (<[chain := index]> view.(heights)) view.(adjacency) view.(nodes)
        view.(nodeIDs) view.(nodeKeys) view.(edgeCount) view.(crossEdgesAdded) in
    if Contains index key.(key_Height) then (Ok key, indexed)
    else
      let '(predecessor, successor) := Neighbours index key.(key_Height) in
      match joined view.(view_profile) chain key.(key_Height) predecessor successor with
      | Err e => (Err e, indexed)
      | Ok pending =>
          let added :=
            mkView view.(view_profile) (<[chain := Insert index key.(key_Height)]> view.(heights))
              view.(adjacency) ({[key]} ∪ view.(nodes))
              (<[key := zlen view.(nodeKeys)]> view.(nodeIDs)) (view.(nodeKeys) ++ [key])
              view.(edgeCount) view.(crossEdgesAdded) in
          let cut :=
            match predecessor, successor with
            | Some p, Some s =>
                deleteEdgeLocked (deleteEdgeLocked added (mkKey chain p) (mkKey chain s))
                  (mkKey chain s) (mkKey chain p)
            | _, _ => added
            end in
          (Ok key, set_pending cut pending)
      end.

Definition AddVerifiedDependency (view : ReplayTrustView) (fromBlock toBlock : ReplayBlock)
    : res error ReplayVerifiedDependencyEdge * ReplayTrustView :=
  match Activate view fromBlock with
  | (Err e, view) => (Err e, view)
  | (Ok from, view) =>
      match Activate view toBlock with
      | (Err e, view) => (Err e, view)
      | (Ok to, view) =>
          if view.(crossEdgesAdded) =? MaxUint64 then (Err ErrCrossEdges, view)
          else
            let edge := mkDependencyEdge from to view.(view_profile).(PathStepCost) in
            let view := setEdgeLocked view from to
                          (mkEdge ReplayVerifiedDependencyEdgeKind edge.(dep_Weight)) in
            (Ok edge,
             mkView view.(view_profile) view.(heights) view.(adjacency) view.(nodes) view.(nodeIDs)
               view.(nodeKeys) view.(edgeCount) (view.(crossEdgesAdded) + 1))
      end
  end.

Definition Edge (view : ReplayTrustView) (from to : ReplayBlockKey) : option ReplayEdge :=
  edge_at view.(adjacency) (canonicalKey from) (canonicalKey to).

Definition NodeCount (view : ReplayTrustView) : Z := Z.of_nat (size view.(nodes)).
Definition EdgeCount (view : ReplayTrustView) : Z := view.(edgeCount).
Definition CrossEdgesAdded (view : ReplayTrustView) : Z := view.(crossEdgesAdded).
End View.

(** ** Lemmas: costs *)

Lemma CheckedCost_Ok delta step c :
  0 ≤ delta → 0 ≤ step → CheckedCost delta step = Ok c → c = delta * step ∧ c ≤ MaxUint64.
Proof.
  intros Hd Hs. unfold CheckedCost. intros [Hb [= <-]]%bind_bool. split; [done|].
  apply andb_false_iff in Hb as [Hb|Hb].
  - apply negb_false_iff, Z.eqb_eq in Hb. subst. unfold MaxUint64. lia.
  - apply Z.ltb_ge in Hb. destruct (decide (delta = 0)) as [->|]; [unfold MaxUint64; lia|].
    pose proof (Z.mul_div_le MaxUint64 delta ltac:(lia)). nia.
Qed.

Lemma CheckedAdd_Ok l r c : CheckedAdd l r = Ok c ↔ c = l + r ∧ c ≤ MaxUint64.
Proof.
  unfold CheckedAdd. destruct (Z.ltb_spec (MaxUint64 - l) r); split.
  - done.
  - intros [-> ?]. lia.
  - intros [= <-]. split; [done|lia].
  - by intros [-> _].
Qed.

Lemma CheckedAdd_exact l r : l + r ≤ MaxUint64 → CheckedAdd l r = Ok (l + r).
Proof. intros. by apply CheckedAdd_Ok. Qed.

(** ** Lemmas: the treap *)

Fixpoint mem (x : Z) (t : treap) : Prop :=
  match t with Leaf => False | Node k _ l r => x = k ∨ mem x l ∨ mem x r end.

(** A search tree. *)
Fixpoint bst (t : treap) : Prop :=
  match t with
  | Leaf => True
  | Node k _ l r => bst l ∧ bst r ∧ (∀ x, mem x l → x < k) ∧ (∀ x, mem x r → k < x)
  end.

(** A node with its priority, and the order of the heap. *)
Fixpoint memp (x p : Z) (t : treap) : Prop :=
  match t with Leaf => False | Node k q l r => (x = k ∧ p = q) ∨ memp x p l ∨ memp x p r end.

Definition before (k p k' p' : Z) : Prop := p < p' ∨ (p = p' ∧ k < k').

Fixpoint heaped (t : treap) : Prop :=
  match t with
  | Leaf => True
  | Node k p l r => heaped l ∧ heaped r ∧ ∀ x q, memp x q l ∨ memp x q r → ¬ before x q k p
  end.

Lemma memp_mem x p t : memp x p t → mem x t.
Proof. induction t; cbn; [done|]. intros [[-> _]|[?|?]]; auto. Qed.

Lemma heightPriorityLess_spec k p l r k' p' l' r' :
  heightPriorityLess (Node k p l r) (Node k' p' l' r') = true ↔ before k p k' p'.
Proof. unfold before. cbn. rewrite orb_true_iff, andb_true_iff, !Z.ltb_lt, Z.eqb_eq. done. Qed.

Lemma rotateHeightRight_mem x t : mem x (rotateHeightRight t) ↔ mem x t.
Proof. destruct t as [|k p [|k' p' l' r'] r]; cbn; tauto. Qed.

Lemma rotateHeightLeft_mem x t : mem x (rotateHeightLeft t) ↔ mem x t.
Proof. destruct t as [|k p l [|k' p' l' r']]; cbn; tauto. Qed.

Lemma rotateHeightRight_memp x q t : memp x q (rotateHeightRight t) ↔ memp x q t.
Proof. destruct t as [|k p [|k' p' l' r'] r]; cbn; tauto. Qed.

Lemma rotateHeightLeft_memp x q t : memp x q (rotateHeightLeft t) ↔ memp x q t.
Proof. destruct t as [|k p l [|k' p' l' r']]; cbn; tauto. Qed.

Lemma rotateHeightRight_bst t : bst t → bst (rotateHeightRight t).
Proof.
  destruct t as [|k p [|k' p' l' r'] r]; cbn; try tauto.
  intros ((Hl & Hr & H1 & H2) & Hr0 & H3 & H4). split_and!; auto.
  intros x [->|[Hx|Hx]]; [apply H3; tauto|by apply H2|].
  assert (k' < k) by (apply H3; tauto). apply H4 in Hx. lia.
Qed.

Lemma rotateHeightLeft_bst t : bst t → bst (rotateHeightLeft t).
Proof.
  destruct t as [|k p l [|k' p' l' r']]; cbn; try tauto.
  intros (Hl & (Hl' & Hr' & H1 & H2) & H3 & H4). split_and!; auto.
  intros x [->|[Hx|Hx]]; [apply H4; tauto| |by apply H1].
  assert (k < k') by (apply H4; tauto). apply H3 in Hx. lia.
Qed.

Lemma insert_memp x q t k p :
  ¬ mem k t → memp x q (insertHeightNode t k p) ↔ (x = k ∧ q = p) ∨ memp x q t.
Proof.
  induction t as [|k0 p0 l IHl r IHr]; cbn [insertHeightNode mem]; intros Hn; [cbn; tauto|].
  destruct (Z.ltb_spec k k0); [|destruct (Z.ltb_spec k0 k)].
  - match goal with |- context [if ?b then _ else _] => destruct b end;
      rewrite ?rotateHeightRight_memp; cbn [memp]; rewrite IHl by tauto; tauto.
  - match goal with |- context [if ?b then _ else _] => destruct b end;
      rewrite ?rotateHeightLeft_memp; cbn [memp]; rewrite IHr by tauto; tauto.
  - assert (k = k0) by lia. tauto.
Qed.

Lemma insert_mem x t k p : mem x (insertHeightNode t k p) ↔ x = k ∨ mem x t.
Proof.
  induction t as [|k0 p0 l IHl r IHr]; cbn [insertHeightNode]; [cbn; tauto|].
  destruct (Z.ltb_spec k k0); [|destruct (Z.ltb_spec k0 k)].
  - match goal with |- context [if ?b then _ else _] => destruct b end;
      rewrite ?rotateHeightRight_mem; cbn [mem]; rewrite IHl; tauto.
  - match goal with |- context [if ?b then _ else _] => destruct b end;
      rewrite ?rotateHeightLeft_mem; cbn [mem]; rewrite IHr; tauto.
  - assert (k = k0) as -> by lia. cbn [mem]. tauto.
Qed.

Lemma insert_bst t k p : bst t → bst (insertHeightNode t k p).
Proof.
  induction t as [|k0 p0 l IHl r IHr]; cbn [insertHeightNode]; [cbn; tauto|].
  intros (Hl & Hr & H1 & H2).
  destruct (Z.ltb_spec k k0); [|destruct (Z.ltb_spec k0 k)].
  - assert (bst (Node k0 p0 (insertHeightNode l k p) r)).
    { cbn. split_and!; auto. intros x [->|]%insert_mem; auto. }
    match goal with |- context [if ?b then _ else _] => destruct b end; [|done].
    by apply rotateHeightRight_bst.
  - assert (bst (Node k0 p0 l (insertHeightNode r k p))).
    { cbn. split_and!; auto. intros x [->|]%insert_mem; auto. }
    match goal with |- context [if ?b then _ else _] => destruct b end; [|done].
    by apply rotateHeightLeft_bst.
  - cbn. tauto.
Qed.

Lemma before_trans k p k' p' k2 p2 : before k p k' p' → ¬ before k2 p2 k' p' → ¬ before k2 p2 k p.
Proof. unfold before. lia. Qed.

(** A rotation brings up the only node that is before the root. *)
Lemma rotateHeightRight_heaped k p l r :
  bst (Node k p l r) → heaped l → heaped r → (∀ x q, memp x q r → ¬ before x q k p) →
  (∀ x q, memp x q l → before x q k p → ∃ l' r', l = Node x q l' r') →
  heightPriorityLess l (Node k p l r) = true → heaped (rotateHeightRight (Node k p l r)).
Proof.
  destruct l as [|k' p' l' r']; [done|]. intros ((_ & _ & B1 & B2) & _) (Hl & Hr & Hm) Hr0 H1 H2 Hb.
  apply heightPriorityLess_spec in Hb. cbn.
  assert (∀ x q, memp x q r' → ¬ before x q k p) as Hr'.
  { intros x q Hx Hbx. destruct (H2 x q) as (a & b & [= -> -> _ _]); [cbn; auto|done|].
    apply memp_mem, B2 in Hx. lia. }
  split_and!; auto.
  - intros x q [Hx|Hx]; [by apply Hr'|by apply H1].
  - intros x q [Hx|[[-> ->]|[Hx|Hx]]].
    + apply Hm. auto.
    + unfold before in *. lia.
    + apply Hm. auto.
    + eapply before_trans; [exact Hb|]. by apply H1.
Qed.

Lemma rotateHeightLeft_heaped k p l r :
  bst (Node k p l r) → heaped l → heaped r → (∀ x q, memp x q l → ¬ before x q k p) →
  (∀ x q, memp x q r → before x q k p → ∃ l' r', r = Node x q l' r') →
  heightPriorityLess r (Node k p l r) = true → heaped (rotateHeightLeft (Node k p l r)).
Proof.
  destruct r as [|k' p' l' r']; [done|]. intros (_ & (_ & _ & B1 & B2) & _) Hl0 (Hl & Hr & Hm) H1 H2 Hb.
  apply heightPriorityLess_spec in Hb. cbn.
  assert (∀ x q, memp x q l' → ¬ before x q k p) as Hl'.
  { intros x q Hx Hbx. destruct (H2 x q) as (a & b & [= -> -> _ _]); [cbn; auto|done|].
    apply memp_mem, B1 in Hx. lia. }
  split_and!; auto.
  - intros x q [Hx|Hx]; [by apply H1|by apply Hl'].
  - intros x q [[[-> ->]|[Hx|Hx]]|Hx].
    + unfold before in *. lia.
    + eapply before_trans; [exact Hb|]. by apply H1.
    + apply Hm. auto.
    + apply Hm. auto.
Qed.

(** In a heap, only the root can be before a pair that all other nodes are not
    before. *)
Lemma heaped_root t x q k p k0 p0 :
  heaped t → memp x q t → before x q k p →
  (∀ y r, memp y r t → before y r k p → y = k0 ∧ r = p0) →
  ∃ l' r', t = Node x q l' r'.
Proof.
  destruct t as [|k' p' l' r']; [done|]. cbn. intros (_ & _ & Hm) [[-> ->]|Hx] Hb Hu; [by eexists _, _|].
  pose proof (Hm x q Hx) as Hn. assert (before k' p' k p) as Hb' by (unfold before in *; lia).
  destruct (Hu x q) as [-> ->]; [auto|done|]. destruct (Hu k' p') as [-> ->]; [auto|done|].
  by eexists _, _.
Qed.

Lemma insert_heaped t k p : bst t → heaped t → ¬ mem k t → heaped (insertHeightNode t k p).
Proof.
  induction t as [|k0 p0 l IHl r IHr]; cbn [insertHeightNode]; [cbn; tauto|].
  intros HB HH Hn. pose proof (insert_bst _ k p HB) as HB'. revert HB'. cbn [insertHeightNode].
  destruct HB as (Bl & Br & B1 & B2). destruct HH as (Hl & Hr & Hm). cbn [mem] in Hn.
  destruct (Z.ltb_spec k k0); [|destruct (Z.ltb_spec k0 k)]; [| |exfalso; apply Hn; left; lia].
  - specialize (IHl Bl Hl ltac:(tauto)). pose proof (λ x q, insert_memp x q l k p ltac:(tauto)) as Hi.
    set (l' := insertHeightNode l k p) in *.
    assert (∀ y q, memp y q l' → before y q k0 p0 → y = k ∧ q = p) as Hu.
    { intros y q [?|Hy]%Hi Hb; [done|]. exfalso. apply (Hm y q); auto. }
    destruct (heightPriorityLess l' _) eqn:He.
    + intros _. apply rotateHeightRight_heaped; try done.
      * cbn. split_and!; auto; [by apply insert_bst|]. intros x [->|]%insert_mem; auto.
      * intros x q Hx. apply Hm. auto.
      * intros x q Hx Hb. by eapply (heaped_root l').
    + intros _. cbn. split_and!; auto. intros x q [Hx|Hx] Hb; [|by apply (Hm x q); auto].
      destruct (heaped_root l' x q k0 p0 k p IHl Hx Hb Hu) as (a & b & Hl').
      rewrite Hl' in He. by rewrite (proj2 (heightPriorityLess_spec x q a b k0 p0 _ _) Hb) in He.
  - specialize (IHr Br Hr ltac:(tauto)). pose proof (λ x q, insert_memp x q r k p ltac:(tauto)) as Hi.
    set (r' := insertHeightNode r k p) in *.
    assert (∀ y q, memp y q r' → before y q k0 p0 → y = k ∧ q = p) as Hu.
    { intros y q [?|Hy]%Hi Hb; [done|]. exfalso. apply (Hm y q); auto. }
    destruct (heightPriorityLess r' _) eqn:He.
    + intros _. apply rotateHeightLeft_heaped; try done.
      * cbn. split_and!; auto; [by apply insert_bst|]. intros x [->|]%insert_mem; auto.
      * intros x q Hx. apply Hm. auto.
      * intros x q Hx Hb. by eapply (heaped_root r').
    + intros _. cbn. split_and!; auto. intros x q [Hx|Hx] Hb; [by apply (Hm x q); auto|].
      destruct (heaped_root r' x q k0 p0 k p IHr Hx Hb Hu) as (a & b & Hr').
      rewrite Hr' in He. by rewrite (proj2 (heightPriorityLess_spec x q a b k0 p0 _ _) Hb) in He.
Qed.

Lemma Contains_mem t key : bst t → Contains t key = true ↔ mem key t.
Proof.
  induction t as [|k p l IHl r IHr]; [cbn; split; [discriminate|tauto]|].
  cbn [Contains bst mem]. intros (Hl & Hr & H1 & H2).
  destruct (Z.ltb_spec key k); [|destruct (Z.ltb_spec k key)].
  - rewrite IHl by done. split; [auto|]. intros [->|[?|Hx]]; [lia|done|]. apply H2 in Hx. lia.
  - rewrite IHr by done. split; [auto|]. intros [->|[Hx|?]]; [lia| |done]. apply H1 in Hx. lia.
  - split; [|done]. intros _. left. lia.
Qed.

(** The greatest element below, and the least above. *)
Definition is_predecessor (P : Z → Prop) (key : Z) (o : option Z) : Prop :=
  match o with
  | Some x => P x ∧ x < key ∧ ∀ y, P y → y < key → y ≤ x
  | None => ∀ y, P y → ¬ y < key
  end.

Definition is_successor (P : Z → Prop) (key : Z) (o : option Z) : Prop :=
  match o with
  | Some x => P x ∧ key < x ∧ ∀ y, P y → key < y → x ≤ y
  | None => ∀ y, P y → ¬ key < y
  end.

Lemma neighbours_loop_spec t key : ∀ P pred succ,
  bst t → ¬ mem key t → (∀ x, mem x t → P x) →
  is_predecessor (λ x, P x ∧ ¬ mem x t) key pred →
  is_successor (λ x, P x ∧ ¬ mem x t) key succ →
  (∀ x, pred = Some x → ∀ y, mem y t → x < y) →
  (∀ x, succ = Some x → ∀ y, mem y t → y < x) →
  let '(pred', succ') := neighbours_loop t key pred succ in
  is_predecessor P key pred' ∧ is_successor P key succ'.
Proof.
  induction t as [|k p l IHl r IHr]; intros P pred succ HB Hn HP Hpred Hsucc Hlo Hhi;
    cbn [neighbours_loop].
  { split.
    - destruct pred; cbn in *; [|firstorder]. destruct Hpred as ([? _] & ? & Hm). split_and!; auto.
    - destruct succ; cbn in *; [|firstorder]. destruct Hsucc as ([? _] & ? & Hm). split_and!; auto. }
  cbn in HB, Hn. destruct HB as (Bl & Br & B1 & B2).
  destruct (Z.ltb_spec key k); [|destruct (Z.ltb_spec k key)]; [| |exfalso; apply Hn; left; lia].
  - apply IHl; auto; [intros; apply HP; cbn; auto|..].
    + destruct pred as [x|]; cbn in *.
      * destruct Hpred as ([Hx Hnx] & Hlt & Hm). split_and!; auto.
        intros y [Hy Hny] Hlty. destruct (decide (y = k)) as [->|]; [lia|].
        apply Hm; [|done]. split; [done|]. intros [->|[?|Hyr]]; auto. apply B2 in Hyr. lia.
      * intros y [Hy Hny] Hlty. apply (Hpred y); [|done]. split; [done|].
        intros [->|[?|Hyr]]; auto; [lia|]. apply B2 in Hyr. lia.
    + cbn. split_and!; [apply HP; cbn; auto| |done|].
      * intros Hk. apply B1 in Hk. lia.
      * intros y [Hy Hny] Hlty. destruct (decide (y < k)) as [Hyk|]; [|lia]. exfalso.
        assert (¬ mem y (Node k p l r)) as Hout.
        { intros [->|[?|Hyr]]; auto; [lia|]. apply B2 in Hyr. lia. }
        destruct succ as [x|]; cbn in Hsucc.
        -- destruct Hsucc as (_ & _ & Hm). specialize (Hm y (conj Hy Hout) Hlty).
           specialize (Hhi x eq_refl k ltac:(cbn; auto)). lia.
        -- by apply (Hsucc y (conj Hy Hout)).
    + intros x Hx y Hy. apply (Hlo x Hx). cbn. auto.
    + intros x [= <-] y Hy. by apply B1.
  - apply IHr; auto; [intros; apply HP; cbn; auto|..].
    + cbn. split_and!; [apply HP; cbn; auto| |done|].
      * intros Hk. apply B2 in Hk. lia.
      * intros y [Hy Hny] Hlty. destruct (decide (k < y)) as [Hyk|]; [|lia]. exfalso.
        assert (¬ mem y (Node k p l r)) as Hout.
        { intros [->|[Hyl|?]]; auto; [lia|]. apply B1 in Hyl. lia. }
        destruct pred as [x|]; cbn in Hpred.
        -- destruct Hpred as (_ & _ & Hm). specialize (Hm y (conj Hy Hout) Hlty).
           specialize (Hlo x eq_refl k ltac:(cbn; auto)). lia.
        -- by apply (Hpred y (conj Hy Hout)).
    + destruct succ as [x|]; cbn in *.
      * destruct Hsucc as ([Hx Hnx] & Hlt & Hm). split_and!; auto.
        intros y [Hy Hny] Hlty. destruct (decide (y = k)) as [->|]; [lia|].
        apply Hm; [|done]. split; [done|]. intros [->|[Hyl|?]]; auto. apply B1 in Hyl. lia.
      * intros y [Hy Hny] Hlty. apply (Hsucc y); [|done]. split; [done|].
        intros [->|[Hyl|?]]; auto; [lia|]. apply B1 in Hyl. lia.
    + intros x [= <-] y Hy. by apply B2.
    + intros x Hx y Hy. apply (Hhi x Hx). cbn. auto.
Qed.

Lemma Neighbours_spec t key :
  bst t → ¬ mem key t →
  is_predecessor (λ x, mem x t) key (Neighbours t key).1 ∧
  is_successor (λ x, mem x t) key (Neighbours t key).2.
Proof.
  intros HB Hn. pose proof (neighbours_loop_spec t key (λ x, mem x t) None None HB Hn) as H.
  unfold Neighbours. destruct (neighbours_loop _ _ _ _) as [pred succ]. cbn in *.
  apply H; naive_solver.
Qed.

(** ** Lemmas: edges *)

Lemma edge_at_set view from to e f t :
  edge_at (setEdgeLocked view from to e).(adjacency) f t
  = if decide (f = from ∧ t = to) then Some e else edge_at view.(adjacency) f t.
Proof.
  unfold edge_at, setEdgeLocked. cbn [adjacency set_edges].
  destruct (decide (f = from)) as [->|Hf].
  - rewrite lookup_insert_eq. cbn. destruct (decide (t = to)) as [->|Ht].
    + rewrite lookup_insert_eq, decide_True; done.
    + rewrite lookup_insert_ne, decide_False by naive_solver.
      by destruct (adjacency view !! from).
  - rewrite lookup_insert_ne, decide_False by naive_solver. done.
Qed.

Lemma edge_at_delete view from to f t :
  edge_at (deleteEdgeLocked view from to).(adjacency) f t
  = if decide (f = from ∧ t = to) then None else edge_at view.(adjacency) f t.
Proof.
  unfold edge_at, deleteEdgeLocked.
  destruct (adjacency view !! from) as [m|] eqn:Hm.
  2: { case_decide as H; [|done]. destruct H as [-> ->]. by rewrite Hm. }
  case_bool_decide as Hto.
  - cbn [adjacency set_edges]. destruct (decide (f = from)) as [->|Hf].
    + rewrite lookup_insert_eq, Hm. cbn. destruct (decide (t = to)) as [->|Ht].
      * by rewrite lookup_delete_eq, decide_True.
      * rewrite lookup_delete_ne, decide_False by naive_solver. done.
    + rewrite lookup_insert_ne, decide_False by naive_solver. done.
  - case_decide as H; [|done]. destruct H as [-> ->]. rewrite Hm. cbn.
    by destruct (m !! to); [destruct Hto|].
Qed.

(** The number of edges. *)
Definition count_edges (a : Adjacency) : nat := map_fold (λ _ m n, (size m + n)%nat) 0%nat a.

Lemma count_edges_insert (a : Adjacency) from m :
  (count_edges (<[from := m]> a) + size (default ∅ (a !! from)) = count_edges a + size m)%nat.
Proof.
  unfold count_edges.
  assert (∀ (b : Adjacency) k n, b !! k = None →
    map_fold (λ _ m n, (size m + n)%nat) 0%nat (<[k := n]> b)
    = (size n + map_fold (λ _ m n, (size m + n)%nat) 0%nat b)%nat) as Hi.
  { intros b k n Hb. rewrite map_fold_insert_L; [done| |done]. intros. lia. }
  rewrite <-insert_delete_eq, Hi by apply lookup_delete_eq.
  destruct (a !! from) as [m0|] eqn:Ha; cbn.
  - rewrite <-(insert_delete_id a from m0) at 2 by done. rewrite Hi by apply lookup_delete_eq. lia.
  - rewrite delete_id by done. rewrite map_size_empty. lia.
Qed.

Definition counted (view : ReplayTrustView) : Prop :=
  view.(edgeCount) = wrap64 (Z.of_nat (count_edges view.(adjacency))).

Lemma wrap64_add a b : wrap64 (wrap64 a + b) = wrap64 (a + b).
Proof. unfold wrap64. by rewrite Zplus_mod_idemp_l. Qed.

Lemma counted_set view from to e : counted view → counted (setEdgeLocked view from to e).
Proof.
  unfold counted, setEdgeLocked. cbn [edgeCount adjacency set_edges]. intros ->.
  pose proof (count_edges_insert view.(adjacency) from
    (<[to := e]> (default ∅ (view.(adjacency) !! from)))) as H.
  case_bool_decide as Hto.
  - rewrite (map_size_insert_Some) in H by done. f_equal. lia.
  - rewrite map_size_insert_None in H by by apply eq_None_not_Some.
    rewrite wrap64_add. f_equal. lia.
Qed.

Lemma counted_delete view from to : counted view → counted (deleteEdgeLocked view from to).
Proof.
  unfold counted, deleteEdgeLocked. intros Hc.
  destruct (adjacency view !! from) as [m|] eqn:Hm; [|done].
  case_bool_decide as Hto; [|done]. cbn [edgeCount adjacency set_edges]. rewrite Hc.
  pose proof (count_edges_insert view.(adjacency) from (delete to m)) as H.
  rewrite Hm in H. cbn in H. destruct Hto as [e He].
  rewrite map_size_delete_Some in H by by eexists.
  assert (0 < size m)%nat.
  { destruct (size m) eqn:E; [|lia]. apply map_size_empty_inv in E. by rewrite E in He. }
  rewrite <-Z.add_opp_r, wrap64_add. f_equal. lia.
Qed.

Lemma set_frame view from to e :
  (setEdgeLocked view from to e).(heights) = view.(heights) ∧
  (setEdgeLocked view from to e).(nodes) = view.(nodes) ∧
  (setEdgeLocked view from to e).(nodeIDs) = view.(nodeIDs) ∧
  (setEdgeLocked view from to e).(nodeKeys) = view.(nodeKeys) ∧
  (setEdgeLocked view from to e).(view_profile) = view.(view_profile) ∧
  (setEdgeLocked view from to e).(crossEdgesAdded) = view.(crossEdgesAdded).
Proof. done. Qed.

(** ** What the view promises *)

(** Neighbouring heights of a chain. *)
Definition consecutive (ns : gset ReplayBlockKey) (chain : string) (lower higher : Z) : Prop :=
  mkKey chain lower ∈ ns ∧ mkKey chain higher ∈ ns ∧ lower < higher ∧
  ∀ h, mkKey chain h ∈ ns → ¬ (lower < h < higher).

(** An edge is priced for what it is. *)
Definition edge_ok (profile : CostProfile) (ns : gset ReplayBlockKey) (from to : ReplayBlockKey)
    (e : ReplayEdge) : Prop :=
  (e.(edge_Kind) = ReplayIntraChainUpEdge ∧ from.(key_Chain) = to.(key_Chain) ∧
   consecutive ns from.(key_Chain) from.(key_Height) to.(key_Height) ∧
   e.(edge_Weight) = (to.(key_Height) - from.(key_Height)) * profile.(DirectStepCost)) ∨
  (e.(edge_Kind) = ReplayIntraChainDownEdge ∧ from.(key_Chain) = to.(key_Chain) ∧
   consecutive ns from.(key_Chain) to.(key_Height) from.(key_Height) ∧
   e.(edge_Weight) = (from.(key_Height) - to.(key_Height)) * profile.(PathStepCost)) ∨
  (e.(edge_Kind) = ReplayVerifiedDependencyEdgeKind ∧ e.(edge_Weight) = profile.(PathStepCost)).

Definition profile_ok (profile : CostProfile) : Prop :=
  (0 < profile.(DirectStepCost) ≤ MaxUint64) ∧ (0 < profile.(PathStepCost) ≤ MaxUint64) ∧
  (0 < profile.(TrustRootUpdateCost) ≤ MaxUint64).

Record view_wf (v : ReplayTrustView) : Prop := {
  vw_profile : profile_ok v.(view_profile);
  vw_index chain t : v.(heights) !! chain = Some t →
    bst t ∧ heaped t ∧ ∀ h, mem h t ↔ mkKey chain h ∈ v.(nodes);
  vw_indexed k : k ∈ v.(nodes) → is_Some (v.(heights) !! k.(key_Chain));
  vw_nodes k : k ∈ v.(nodes) ↔ k ∈ v.(nodeKeys);
  vw_nodup : NoDup v.(nodeKeys);
  vw_ids k i : v.(nodeIDs) !! k = Some i ↔ 0 ≤ i ∧ v.(nodeKeys) !! Z.to_nat i = Some k;
  vw_edge f t e : edge_at v.(adjacency) f t = Some e →
    f ∈ v.(nodes) ∧ t ∈ v.(nodes) ∧ 0 < e.(edge_Weight) ≤ MaxUint64 ∧
    edge_ok v.(view_profile) v.(nodes) f t e;
  vw_pairs chain lo hi : consecutive v.(nodes) chain lo hi →
    is_Some (edge_at v.(adjacency) (mkKey chain lo) (mkKey chain hi)) ∧
    is_Some (edge_at v.(adjacency) (mkKey chain hi) (mkKey chain lo));
  vw_counted : counted v
}.

Definition same_nodes (v v' : ReplayTrustView) : Prop :=
  v'.(view_profile) = v.(view_profile) ∧ v'.(heights) = v.(heights) ∧ v'.(nodes) = v.(nodes) ∧
  v'.(nodeIDs) = v.(nodeIDs) ∧ v'.(nodeKeys) = v.(nodeKeys) ∧
  v'.(crossEdgesAdded) = v.(crossEdgesAdded).

Lemma same_nodes_trans a b c : same_nodes a b → same_nodes b c → same_nodes a c.
Proof. unfold same_nodes. intros (-> & -> & -> & -> & -> & ->) H. exact H. Qed.

Lemma delete_same v from to : same_nodes v (deleteEdgeLocked v from to).
Proof. unfold deleteEdgeLocked. repeat case_match; done. Qed.

Lemma set_pending_spec l : ∀ v,
  same_nodes v (set_pending v l) ∧ (counted v → counted (set_pending v l)) ∧
  ∀ f t,
    (∀ e, edge_at (set_pending v l).(adjacency) f t = Some e →
       (∃ it, it ∈ l ∧ it.(pending_from) = f ∧ it.(pending_to) = t ∧ it.(pending_edge) = e) ∨
       edge_at v.(adjacency) f t = Some e) ∧
    (is_Some (edge_at v.(adjacency) f t) ∨
     (∃ it, it ∈ l ∧ it.(pending_from) = f ∧ it.(pending_to) = t) →
     is_Some (edge_at (set_pending v l).(adjacency) f t)).
Proof.
  induction l as [|it l IH]; intros v; cbn [set_pending foldl].
  { split; [done|]. split; [done|]. intros f t. split; [by right|].
    intros [?|(it & Hin & _)]; [done|]. by apply elem_of_nil in Hin. }
  fold (set_pending (setEdgeLocked v it.(pending_from) it.(pending_to) it.(pending_edge)) l).
  destruct (IH (setEdgeLocked v it.(pending_from) it.(pending_to) it.(pending_edge))) as (Hs & Hc & He).
  split; [eapply same_nodes_trans; [|exact Hs]; done|]. split.
  { intros Hv. by apply Hc, counted_set. }
  intros f t. destruct (He f t) as [H1 H2]. rewrite edge_at_set in H1, H2. split.
  - intros e [(it' & Hin & Hrest)|H]%H1; [left; exists it'; split; [by right|done]|].
    case_decide as Hd; [|by right]. left. exists it. destruct Hd as [-> ->].
    injection H as ->. split; [by left|done].
  - intros H. apply H2. case_decide as Hd; [left; by eexists|].
    destruct H as [?|(it' & [->|Hin]%elem_of_cons & Hf & Ht)]; [by left| |].
    + destruct Hd. by split.
    + right. by exists it'.
Qed.

Lemma pair_edges_Ok profile chain lo hi l :
  profile_ok profile → lo < hi → pair_edges profile chain lo hi = Ok l →
  l = [mkPending (mkKey chain lo) (mkKey chain hi)
         (mkEdge ReplayIntraChainUpEdge ((hi - lo) * profile.(DirectStepCost)));
       mkPending (mkKey chain hi) (mkKey chain lo)
         (mkEdge ReplayIntraChainDownEdge ((hi - lo) * profile.(PathStepCost)))] ∧
  0 < (hi - lo) * profile.(DirectStepCost) ≤ MaxUint64 ∧
  0 < (hi - lo) * profile.(PathStepCost) ≤ MaxUint64.
Proof.
  intros (Hd & Hp & _) Hlt. unfold pair_edges.
  intros (up & [-> Hu]%CheckedCost_Ok & (down & [-> Hw]%CheckedCost_Ok & [= <-])%bind_Ok)%bind_Ok;
    try lia. split; [done|]. nia.
Qed.

Lemma index_ok v chain :
  view_wf v →
  let t := default Leaf (v.(heights) !! chain) in
  bst t ∧ heaped t ∧ ∀ h, mem h t ↔ mkKey chain h ∈ v.(nodes).
Proof.
  intros W. cbn zeta. destruct (v.(heights) !! chain) as [t|] eqn:Ht; cbn; [by apply W|].
  split_and!; [done|done|]. intros h. split; [done|]. intros [t Hc]%W. cbn in Hc. congruence.
Qed.

(** A new node between its neighbours: what is consecutive afterwards. *)
Section NewNode.
Context (v : ReplayTrustView) (chain : string) (h : Z) (pred succ : option Z).
Context (Hpred : is_predecessor (λ x, mkKey chain x ∈ v.(nodes)) h pred).
Context (Hsucc : is_successor (λ x, mkKey chain x ∈ v.(nodes)) h succ).
Abbreviation ns' := ({[mkKey chain h]} ∪ v.(nodes)).

Lemma new_below p : pred = Some p → consecutive ns' chain p h.
Proof.
  intros ->. cbn in Hpred. destruct Hpred as (Hp & Hlt & Hmax).
  split_and!; [set_solver|set_solver|done|]. intros x Hx [H1 H2].
  apply elem_of_union in Hx as [[= ->]%elem_of_singleton|Hx]; [lia|].
  specialize (Hmax x Hx H2). lia.
Qed.

Lemma new_above s : succ = Some s → consecutive ns' chain h s.
Proof.
  intros ->. cbn in Hsucc. destruct Hsucc as (Hs & Hlt & Hmin).
  split_and!; [set_solver|set_solver|done|]. intros x Hx [H1 H2].
  apply elem_of_union in Hx as [[= ->]%elem_of_singleton|Hx]; [lia|].
  specialize (Hmin x Hx H1). lia.
Qed.

(** Two old neighbours stay neighbours, or the new node is between them. *)
Lemma old_consecutive c lo hi :
  consecutive v.(nodes) c lo hi →
  consecutive ns' c lo hi ∨ (c = chain ∧ pred = Some lo ∧ succ = Some hi).
Proof.
  intros (Hlo & Hhi & Hlt & Hno).
  destruct (decide (c = chain ∧ lo < h < hi)) as [[-> [H1 H2]]|Hd].
  - right. split; [done|]. split.
    + destruct pred as [p|]; cbn in Hpred; [|by destruct (Hpred lo Hlo)].
      destruct Hpred as (Hp & Hplt & Hmax). pose proof (Hmax lo Hlo H1). f_equal.
      destruct (decide (p = lo)); [done|]. destruct (Hno p Hp). lia.
    + destruct succ as [s|]; cbn in Hsucc; [|by destruct (Hsucc hi Hhi)].
      destruct Hsucc as (Hs & Hslt & Hmin). pose proof (Hmin hi Hhi H2). f_equal.
      destruct (decide (s = hi)); [done|]. destruct (Hno s Hs). lia.
  - left. split_and!; [set_solver|set_solver|done|].
    intros x [[= -> ->]%elem_of_singleton|Hx]%elem_of_union; [tauto|by apply Hno].
Qed.

(** And what is consecutive afterwards is old, or has the new node as an end. *)
Lemma new_consecutive c lo hi :
  consecutive ns' c lo hi →
  (consecutive v.(nodes) c lo hi ∧ ¬ (c = chain ∧ lo < h < hi)) ∨
  (c = chain ∧ ((lo = h ∧ succ = Some hi) ∨ (hi = h ∧ pred = Some lo))).
Proof.
  intros (Hlo & Hhi & Hlt & Hno).
  apply elem_of_union in Hlo as [[= -> ->]%elem_of_singleton|Hlo];
    apply elem_of_union in Hhi as [Hhi|Hhi].
  - apply elem_of_singleton in Hhi as [= ->]. lia.
  - right. split; [done|]. left. split; [done|].
    destruct succ as [s|]; cbn in Hsucc; [|by destruct (Hsucc hi Hhi)].
    destruct Hsucc as (Hs & Hslt & Hmin). pose proof (Hmin hi Hhi Hlt). f_equal.
    destruct (decide (s = hi)); [done|]. destruct (Hno s); [set_solver|lia].
  - apply elem_of_singleton in Hhi as [= -> ->]. right. split; [done|]. right. split; [done|].
    destruct pred as [p|]; cbn in Hpred; [|by destruct (Hpred lo Hlo)].
    destruct Hpred as (Hp & Hplt & Hmax). pose proof (Hmax lo Hlo Hlt). f_equal.
    destruct (decide (p = lo)); [done|]. destruct (Hno p); [set_solver|lia].
  - left. split.
    + split_and!; [done|done|done|]. intros x Hx. apply Hno. set_solver.
    + intros [-> Hb]. apply (Hno h); [set_solver|done].
Qed.
End NewNode.

Lemma joined_spec profile chain h pred succ l :
  profile_ok profile → (∀ p, pred = Some p → p < h) → (∀ s, succ = Some s → h < s) →
  joined profile chain h pred succ = Ok l →
  (∀ it, it ∈ l → ∃ lo hi, (hi = h ∧ pred = Some lo ∨ lo = h ∧ succ = Some hi) ∧ lo < hi ∧
     0 < it.(pending_edge).(edge_Weight) ≤ MaxUint64 ∧
     ((it.(pending_from) = mkKey chain lo ∧ it.(pending_to) = mkKey chain hi ∧
       it.(pending_edge) = mkEdge ReplayIntraChainUpEdge ((hi - lo) * profile.(DirectStepCost))) ∨
      (it.(pending_from) = mkKey chain hi ∧ it.(pending_to) = mkKey chain lo ∧
       it.(pending_edge) = mkEdge ReplayIntraChainDownEdge ((hi - lo) * profile.(PathStepCost))))) ∧
  (∀ lo hi, (hi = h ∧ pred = Some lo ∨ lo = h ∧ succ = Some hi) →
     (∃ it, it ∈ l ∧ it.(pending_from) = mkKey chain lo ∧ it.(pending_to) = mkKey chain hi) ∧
     (∃ it, it ∈ l ∧ it.(pending_from) = mkKey chain hi ∧ it.(pending_to) = mkKey chain lo)).
Proof.
  intros Hok Hp Hs (lower & Hlower & (upper & Hupper & [= <-])%bind_Ok)%bind_Ok.
  assert (∀ (o : bool) lo hi l', lo < hi → pair_edges profile chain lo hi = Ok l' →
    (∀ it, it ∈ l' → 0 < it.(pending_edge).(edge_Weight) ≤ MaxUint64 ∧
     ((it.(pending_from) = mkKey chain lo ∧ it.(pending_to) = mkKey chain hi ∧
       it.(pending_edge) = mkEdge ReplayIntraChainUpEdge ((hi - lo) * profile.(DirectStepCost))) ∨
      (it.(pending_from) = mkKey chain hi ∧ it.(pending_to) = mkKey chain lo ∧
       it.(pending_edge) = mkEdge ReplayIntraChainDownEdge ((hi - lo) * profile.(PathStepCost))))) ∧
     (∃ it, it ∈ l' ∧ it.(pending_from) = mkKey chain lo ∧ it.(pending_to) = mkKey chain hi) ∧
     (∃ it, it ∈ l' ∧ it.(pending_from) = mkKey chain hi ∧ it.(pending_to) = mkKey chain lo)) as Hpair.
  { intros _ lo hi l' Hlt H. apply pair_edges_Ok in H as (-> & H1 & H2); [|done..]. split_and!.
    - intros it [->|[->|[]%elem_of_nil]%elem_of_cons]%elem_of_cons; cbn; auto.
    - eexists. split; [left|done].
    - eexists. split; [right; left|done]. }
  split.
  - intros it [Hin|Hin]%elem_of_app.
    + destruct pred as [p|]; [|injection Hlower as <-; by apply elem_of_nil in Hin].
      destruct (Hpair true p h _ (Hp p eq_refl) Hlower) as (H & _). destruct (H it Hin) as [Hw Hc].
      exists p, h. split_and!; auto; lia.
    + destruct succ as [s|]; [|injection Hupper as <-; by apply elem_of_nil in Hin].
      destruct (Hpair true h s _ (Hs s eq_refl) Hupper) as (H & _). destruct (H it Hin) as [Hw Hc].
      exists h, s. split_and!; auto; lia.
  - intros lo hi [[-> ->]|[-> ->]].
    + destruct (Hpair true lo h _ (Hp lo eq_refl) Hlower) as (_ & (i1 & H1 & ?) & (i2 & H2 & ?)).
      split; [exists i1|exists i2]; (split; [|done]); apply elem_of_app; by left.
    + destruct (Hpair true h hi _ (Hs hi eq_refl) Hupper) as (_ & (i1 & H1 & ?) & (i2 & H2 & ?)).
      split; [exists i1|exists i2]; (split; [|done]); apply elem_of_app; by right.
Qed.

Section Activating.
Context (unicode_ToLower : string → string).
Abbreviation Key := (Key unicode_ToLower).
Abbreviation Activate := (Activate unicode_ToLower).

(** What activating a block does to a view. *)
Record activated (v : ReplayTrustView) (b : ReplayBlock) (r : res error ReplayBlockKey)
    (v' : ReplayTrustView) : Prop := {
  ac_wf : view_wf v';
  ac_result k : r = Ok k → k = Key b ∧ v'.(nodes) = {[k]} ∪ v.(nodes);
  ac_nodes : v.(nodes) ⊆ v'.(nodes);
  ac_error e : r = Err e → v'.(nodes) = v.(nodes) ∧ v'.(adjacency) = v.(adjacency);
  ac_profile : v'.(view_profile) = v.(view_profile);
  ac_cross : v'.(crossEdgesAdded) = v.(crossEdgesAdded);
  ac_keys : v.(nodeKeys) `prefix_of` v'.(nodeKeys)
}.

Lemma indexed_wf v chain :
  view_wf v →
  view_wf (mkView v.(view_profile) (<[chain := default Leaf (v.(heights) !! chain)]> v.(heights))
             v.(adjacency) v.(nodes) v.(nodeIDs) v.(nodeKeys) v.(edgeCount) v.(crossEdgesAdded)).
Proof.
  intros W. pose proof (index_ok v chain W) as HI. destruct W. split; cbn; try done.
  - intros c t. destruct (decide (chain = c)) as [<-|Hc].
    + rewrite lookup_insert_eq. by intros [= <-].
    + rewrite lookup_insert_ne by done. apply vw_index0.
  - intros k Hk. destruct (decide (chain = k.(key_Chain))) as [->|Hc].
    + rewrite lookup_insert_eq. by eexists.
    + rewrite lookup_insert_ne by done. by apply vw_indexed0.
Qed.

(** The node joins the view. *)
Lemma linked_wf v chain h pred succ pending :
  view_wf v → mkKey chain h ∉ v.(nodes) →
  is_predecessor (λ x, mkKey chain x ∈ v.(nodes)) h pred →
  is_successor (λ x, mkKey chain x ∈ v.(nodes)) h succ →
  joined v.(view_profile) chain h pred succ = Ok pending →
  let key := mkKey chain h in
  let index := default Leaf (v.(heights) !! chain) in
  let added :=
    mkView v.(view_profile) (<[chain := Insert index h]> v.(heights)) v.(adjacency)
      ({[key]} ∪ v.(nodes)) (<[key := zlen v.(nodeKeys)]> v.(nodeIDs)) (v.(nodeKeys) ++ [key])
      v.(edgeCount) v.(crossEdgesAdded) in
  let cut :=
    match pred, succ with
    | Some p, Some s =>
        deleteEdgeLocked (deleteEdgeLocked added (mkKey chain p) (mkKey chain s))
          (mkKey chain s) (mkKey chain p)
    | _, _ => added
    end in
  view_wf (set_pending cut pending) ∧ same_nodes added (set_pending cut pending).
Proof.
  intros W Hnew Hp Hs Hj. cbn zeta.
  set (key := mkKey chain h). set (index := default Leaf _). set (added := mkView _ _ _ _ _ _ _ _).
  set (cut := match pred with Some _ => _ | None => _ end).
  pose proof (index_ok v chain W) as (HB & HH & HM). fold index in HB, HH, HM.
  assert (¬ mem h index) as Hni by by rewrite HM.
  assert (∀ p, pred = Some p → p < h) as Hp1 by (intros p ->; apply Hp).
  assert (∀ s, succ = Some s → h < s) as Hs1 by (intros s ->; apply Hs).
  destruct (joined_spec _ _ _ _ _ _ (vw_profile _ W) Hp1 Hs1 Hj) as [HJ1 HJ2].
  assert (same_nodes added cut) as Hcut.
  { unfold cut. destruct pred, succ; try done. eapply same_nodes_trans; apply delete_same. }
  destruct (set_pending_spec pending cut) as (Hset & Hcount & Hedge).
  pose proof (same_nodes_trans _ _ _ Hcut Hset) as Hsame. split; [|done].
  destruct Hsame as (Ep & Eh & En & Ei & Ek & Ec).
  assert (∀ f t e, edge_at cut.(adjacency) f t = Some e →
    edge_at v.(adjacency) f t = Some e ∧ ∀ p s, pred = Some p → succ = Some s →
      ¬ (f = mkKey chain p ∧ t = mkKey chain s) ∧ ¬ (f = mkKey chain s ∧ t = mkKey chain p)) as Hold.
  { intros f t e. unfold cut. destruct pred as [p|], succ as [s|]; try done.
    rewrite !edge_at_delete. do 2 (case_decide; [done|]). intros H'. split; [done|].
    by intros ? ? [= <-] [= <-]. }
  assert (∀ f t, is_Some (edge_at v.(adjacency) f t) →
    (∀ p s, pred = Some p → succ = Some s →
      ¬ (f = mkKey chain p ∧ t = mkKey chain s) ∧ ¬ (f = mkKey chain s ∧ t = mkKey chain p)) →
    is_Some (edge_at cut.(adjacency) f t)) as Hkept.
  { intros f t H Hn. unfold cut. destruct pred as [p|], succ as [s|]; try done.
    destruct (Hn p s eq_refl eq_refl). by rewrite !edge_at_delete, !decide_False. }
  split.
  - rewrite Ep. apply W.
  - intros c t. rewrite Eh, En. cbn. destruct (decide (chain = c)) as [<-|Hc].
    + rewrite lookup_insert_eq. intros [= <-]. unfold Insert. split_and!.
      * by apply insert_bst.
      * by apply insert_heaped.
      * intros x. rewrite insert_mem, HM, elem_of_union, elem_of_singleton. unfold key. naive_solver.
    + rewrite lookup_insert_ne by done. intros (H1 & H2 & H3)%W. split_and!; [done..|].
      intros x. rewrite H3, elem_of_union, elem_of_singleton. unfold key. naive_solver.
  - intros k. rewrite Eh, En. cbn. destruct (decide (chain = k.(key_Chain))) as [->|Hc].
    + rewrite lookup_insert_eq. by eexists.
    + rewrite lookup_insert_ne by done. intros [->%elem_of_singleton|Hk]%elem_of_union; [done|by apply W].
  - intros k. rewrite En, Ek. cbn.
    rewrite elem_of_union, elem_of_singleton, elem_of_app, list_elem_of_singleton, (vw_nodes _ W). tauto.
  - rewrite Ek. cbn. apply NoDup_app. split; [apply W|]. split; [|apply NoDup_singleton].
    intros k Hk ->%list_elem_of_singleton. apply Hnew. by apply W.
  - intros k j. rewrite Ei, Ek. cbn. unfold zlen. destruct (decide (key = k)) as [<-|Hk].
    + rewrite lookup_insert_eq. split.
      * intros [= <-]. rewrite Nat2Z.id, list_lookup_middle by done. split; [lia|done].
      * intros [Hj0 [Hl|[Hl [Heq _]%list_lookup_singleton_Some]]%lookup_app_Some].
        -- exfalso. apply Hnew. apply (vw_nodes _ W). by eapply list_elem_of_lookup_2.
        -- f_equal. lia.
    + rewrite lookup_insert_ne, (vw_ids _ W) by done. split; intros [Hj0 Hl]; (split; [done|]).
      * by apply lookup_app_l_Some.
      * apply lookup_app_Some in Hl as [?|[_ [_ ?]%list_lookup_singleton_Some]]; [done|congruence].
  - intros f t e. rewrite Ep, En. cbn [view_profile nodes added].
    intros [(it & Hin & <- & <- & <-)|Hc]%(proj1 (Hedge f t)).
    + destruct (HJ1 it Hin) as (lo & hi & Hcase & Hlt & Hw & Hit).
      assert (consecutive ({[key]} ∪ v.(nodes)) chain lo hi) as HC.
      { destruct Hcase as [[-> Hpr]|[-> Hsu]]; [by eapply new_below|by eapply new_above]. }
      destruct Hit as [(-> & -> & He)|(-> & -> & He)]; rewrite He in Hw |- *; cbn in Hw.
      * destruct HC as (C1 & C2 & HC). split_and!; [exact C1|exact C2|apply Hw..|]. left. by cbn.
      * destruct HC as (C1 & C2 & HC). split_and!; [exact C2|exact C1|apply Hw..|]. right; left. by cbn.
    + apply Hold in Hc as [Hc Hncut]. destruct (vw_edge _ W _ _ _ Hc) as (Hf & Ht & Hw & Hok).
      split_and!; [set_solver|set_solver|apply Hw..|].
      destruct Hok as [(H1 & H2 & H3 & H4)|[(H1 & H2 & H3 & H4)|[H1 H2]]].
      * left. split_and!; [done..| |done].
        destruct (old_consecutive v chain h pred succ Hp Hs _ _ _ H3) as [?|(Hc1 & Hc2 & Hc3)]; [done|].
        exfalso. destruct (Hncut _ _ Hc2 Hc3) as [Hx _]. apply Hx. destruct f, t. cbn in *. by subst.
      * right; left. split_and!; [done..| |done].
        destruct (old_consecutive v chain h pred succ Hp Hs _ _ _ H3) as [?|(Hc1 & Hc2 & Hc3)]; [done|].
        exfalso. destruct (Hncut _ _ Hc2 Hc3) as [_ Hx]. apply Hx. destruct f, t. cbn in *. by subst.
      * by right; right.
  - intros c lo hi. rewrite En. cbn [nodes added]. intros HC.
    destruct (new_consecutive v chain h pred succ Hp Hs _ _ _ HC) as [[HC' Hno]|[-> Hcase]].
    + destruct (vw_pairs _ W _ _ _ HC') as [H1 H2].
      assert (∀ p s, pred = Some p → succ = Some s → ¬ (c = chain ∧ lo = p ∧ hi = s) ∧ ¬ (c = chain ∧ lo = s ∧ hi = p)) as Hn.
      { intros p s -> ->. cbn in Hp, Hs. destruct Hp as (_ & ? & _), Hs as (_ & ? & _). split.
        - intros (-> & -> & ->). by apply Hno.
        - intros (-> & -> & ->). destruct HC' as (_ & _ & ? & _). lia. }
      split; apply (Hedge _ _); left; apply Hkept; try done; intros p s Hpr Hsu;
        destruct (Hn p s Hpr Hsu) as [N1 N2]; split; intros [[= -> ->] [= ->]]; tauto.
    + assert (hi = h ∧ pred = Some lo ∨ lo = h ∧ succ = Some hi) as Hcase' by tauto.
      destruct (HJ2 lo hi Hcase') as [H1 H2]. split; apply (Hedge _ _); by right.
  - apply Hcount. unfold cut. destruct pred, succ; repeat apply counted_delete; apply W.
Qed.
Lemma Activate_spec v b :
  view_wf v → activated v b (Activate v b).1 (Activate v b).2.
Proof.
  intros W. unfold Activate. destruct (Key b) as [chain h] eqn:HK. cbn zeta. cbn [key_Chain key_Height].
  destruct (bool_decide_reflect (chain = "")) as [He|Hne]; cbn [fst snd].
  { split; try done. }
  pose proof (index_ok v chain W) as (HB & HH & HM).
  pose proof (indexed_wf v chain W) as WI.
  destruct (Contains _ _) eqn:Hc; cbn [fst snd].
  { apply Contains_mem, HM in Hc; [|done]. split; try done.
    intros k [= <-]. split; [done|]. cbn. set_solver. }
  assert (¬ mem h (default Leaf (heights v !! chain))) as Hnm.
  { intros Hm%Contains_mem; [congruence|done]. }
  destruct (Neighbours_spec _ _ HB Hnm) as [Hp Hs].
  destruct (Neighbours _ _) as [pred succ]. cbn [fst snd] in Hp, Hs.
  assert (is_predecessor (λ x, mkKey chain x ∈ v.(nodes)) h pred) as Hp'.
  { destruct pred; cbn in *; setoid_rewrite <-HM; done. }
  assert (is_successor (λ x, mkKey chain x ∈ v.(nodes)) h succ) as Hs'.
  { destruct succ; cbn in *; setoid_rewrite <-HM; done. }
  assert (mkKey chain h ∉ v.(nodes)) as Hnew by by rewrite <-HM.
  destruct (joined _ _ _ _ _) as [pending|e] eqn:Hj; cbn [fst snd].
  2: { split; try done. }
  destruct (linked_wf v _ _ pred succ pending W Hnew Hp' Hs' Hj) as [WL (E1 & E2 & E3 & E4 & E5 & E6)].
  split.
  - exact WL.
  - intros k [= <-]. split; [done|]. exact E3.
  - rewrite E3. cbn. set_solver.
  - done.
  - exact E1.
  - exact E6.
  - rewrite E5. cbn. by eexists.
Qed.

(** A block that is a node is activated again without effect. *)
Lemma Activate_known v b :
  view_wf v → Key b ∈ v.(nodes) → key_Chain (Key b) ≠ "" → Activate v b = (Ok (Key b), v).
Proof.
  unfold Activate. destruct (Key b) as [chain h] eqn:HK. cbn zeta. cbn [key_Chain key_Height].
  intros W Hin Hne. rewrite bool_decide_eq_false_2 by done.
  pose proof (index_ok v chain W) as (HB & HH & HM).
  destruct (vw_indexed _ W _ Hin) as [t Ht]. cbn [key_Chain] in Ht. rewrite Ht in *. cbn [default from_option id] in *.
  rewrite (proj2 (Contains_mem t _ HB)) by (by apply HM).
  f_equal. destruct v. cbn in *. f_equal. by rewrite insert_id.
Qed.

Lemma new_view_wf profile v :
  profile_ok profile → NewReplayTrustView profile = Ok v → view_wf v.
Proof.
  intros Hp ([] & _ & [= <-])%bind_Ok. split; cbn.
  - done.
  - intros c t. by rewrite lookup_empty.
  - set_solver.
  - intros k. split; [set_solver|by intros ?%elem_of_nil].
  - constructor.
  - intros k i. rewrite lookup_empty, lookup_nil. naive_solver.
  - intros f t e. unfold edge_at. by rewrite lookup_empty.
  - intros c lo hi (H & _). set_solver.
  - done.
Qed.

(** A dependency edge between two nodes. *)
Lemma dependency_wf v from to :
  view_wf v → from ∈ v.(nodes) → to ∈ v.(nodes) →
  view_wf (setEdgeLocked v from to
    (mkEdge ReplayVerifiedDependencyEdgeKind v.(view_profile).(PathStepCost))).
Proof.
  intros W Hf Ht. pose proof (vw_profile _ W) as (_ & Hp & _).
  pose proof (edge_at_set v from to
    (mkEdge ReplayVerifiedDependencyEdgeKind v.(view_profile).(PathStepCost))) as He.
  assert (∀ f t, is_Some (edge_at v.(adjacency) f t) → is_Some (edge_at (setEdgeLocked v from to
    (mkEdge ReplayVerifiedDependencyEdgeKind v.(view_profile).(PathStepCost))).(adjacency) f t)) as Hkeep.
  { intros f t H. rewrite He. case_decide; [by eexists|done]. }
  split; try apply W.
  - intros f t e. rewrite He. case_decide as Hd; [|apply W].
    intros [= <-]. destruct Hd as [-> ->]. split_and!; [done|done|apply Hp..|]. by right; right.
  - intros c lo hi [H1 H2]%W. auto.
  - by apply counted_set, W.
Qed.

(** What adding a dependency does. *)
Record depended (v : ReplayTrustView) (b1 b2 : ReplayBlock) (r : res error ReplayVerifiedDependencyEdge)
    (v' : ReplayTrustView) : Prop := {
  dp_wf : view_wf v';
  dp_nodes : v.(nodes) ⊆ v'.(nodes);
  dp_profile : v'.(view_profile) = v.(view_profile);
  dp_edge e : r = Ok e →
    e = mkDependencyEdge (Key b1) (Key b2) v.(view_profile).(PathStepCost) ∧
    edge_at v'.(adjacency) (Key b1) (Key b2)
      = Some (mkEdge ReplayVerifiedDependencyEdgeKind v.(view_profile).(PathStepCost)) ∧
    v'.(crossEdgesAdded) = v.(crossEdgesAdded) + 1 ∧
    v'.(nodes) = {[Key b2]} ∪ ({[Key b1]} ∪ v.(nodes))
}.

Lemma AddVerifiedDependency_spec v b1 b2 :
  view_wf v →
  depended v b1 b2 (AddVerifiedDependency unicode_ToLower v b1 b2).1
    (AddVerifiedDependency unicode_ToLower v b1 b2).2.
Proof.
  intros W. unfold AddVerifiedDependency.
  pose proof (Activate_spec v b1 W) as A1. destruct (Activate v b1) as [[from|e] v1]; cbn in *.
  2: { destruct A1. by split. }
  pose proof (Activate_spec v1 b2 (ac_wf _ _ _ _ A1)) as A2.
  destruct (Activate v1 b2) as [[to|e] v2]; cbn in *.
  2: { destruct A1, A2. split; try done; [by etrans|congruence]. }
  destruct (ac_result _ _ _ _ A1 from eq_refl) as [-> N1].
  destruct (ac_result _ _ _ _ A2 to eq_refl) as [-> N2]. destruct A1, A2.
  destruct (Z.eqb_spec v2.(crossEdgesAdded) MaxUint64); cbn.
  { split; try done; [by etrans|congruence]. }
  assert (Key b1 ∈ v2.(nodes) ∧ Key b2 ∈ v2.(nodes)) as [H1 H2] by set_solver.
  pose proof (dependency_wf v2 (Key b1) (Key b2) ac_wf1 H1 H2) as WD. split.
  - destruct WD. by split.
  - cbn. by etrans.
  - cbn. congruence.
  - intros e [= <-]. assert (v2.(view_profile) = v.(view_profile)) as -> by congruence.
    split_and!; [done| | |].
    + cbn. pose proof (edge_at_set v2 (Key b1) (Key b2)
        (mkEdge ReplayVerifiedDependencyEdgeKind (PathStepCost (view_profile v))) (Key b1) (Key b2)) as He.
      rewrite decide_True in He by done. exact He.
    + cbn. congruence.
    + cbn. by rewrite N2, N1.
Qed.
End Activating.

End ReplayView.
