(* ===== verification/ReplaySearch.v ===== *)
(** * Mapnode/replay: the shortest path of the replay graph

    replay_dijkstra.go and replay_path.go: Dijkstra's search with a cost cutoff
    over the view of ReplayView.v.  Its tables are slices that are reused from
    search to search: an entry counts only when its stamp is the generation of
    the current search.  The queue is the heap of Heap.v.

    The order in which Go ranges over the neighbours of a node is a parameter,
    any list of them; it may differ from node to node.  The fuel of the search is
    one more than the number of edges, and that of the way back the number of
    nodes; both are shown to be enough. *)

From S2P Require Import Prelude Heap BestFirst ReplayView.
Import ReplayView.

Module ReplaySearch.

(** ** Scratch memory *)

Record replayQueueItem := mkItem {
  item_id : Z;
  item_key : ReplayBlockKey;
  item_cost : Z
}.

Record replaySearchScratch := mkScratch {
  generation : Z;
  distances : list Z;
  distanceGenerations : list Z;
  predecessors : list Z;
  predecessorGenerations : list Z;
  queue : list replayQueueItem
}.

Definition grow (l : list Z) (size : nat) : list Z := l ++ replicate (size - length l) 0.

Definition begin (size : nat) (scratch : replaySearchScratch) : replaySearchScratch :=
  let dg := grow scratch.(distanceGenerations) size in
  let pg := grow scratch.(predecessorGenerations) size in
  if scratch.(generation) =? MaxUint64
  then mkScratch 1 (grow scratch.(distances) size) (map (λ _, 0) dg)
         (grow scratch.(predecessors) size) (map (λ _, 0) pg) []
  else
    let next := wrap64 (scratch.(generation) + 1) in
    mkScratch (if next =? 0 then 1 else next) (grow scratch.(distances) size) dg
      (grow scratch.(predecessors) size) pg [].

(** The two slices of a table have one length. *)
Definition stamped (generation : Z) (values stamps : list Z) (id : Z) : option Z :=
  if id <? 0 then None
  else match stamps !! Z.to_nat id with
       | Some g => if g =? generation then values !! Z.to_nat id else None
       | None => None
       end.

Definition getDistance (scratch : replaySearchScratch) (id : Z) : option Z :=
  stamped scratch.(generation) scratch.(distances) scratch.(distanceGenerations) id.

Definition setDistance (scratch : replaySearchScratch) (id distance : Z) : replaySearchScratch :=
  mkScratch scratch.(generation) (<[Z.to_nat id := distance]> scratch.(distances))
    (<[Z.to_nat id := scratch.(generation)]> scratch.(distanceGenerations))
    scratch.(predecessors) scratch.(predecessorGenerations) scratch.(queue).

Definition getPredecessor (scratch : replaySearchScratch) (id : Z) : option Z :=
  stamped scratch.(generation) scratch.(predecessors) scratch.(predecessorGenerations) id.

Definition setPredecessor (scratch : replaySearchScratch) (id predecessor : Z)
    : replaySearchScratch :=
  mkScratch scratch.(generation) scratch.(distances) scratch.(distanceGenerations)
    (<[Z.to_nat id := predecessor]> scratch.(predecessors))
    (<[Z.to_nat id := scratch.(generation)]> scratch.(predecessorGenerations)) scratch.(queue).

Definition set_queue (scratch : replaySearchScratch) (q : list replayQueueItem)
    : replaySearchScratch :=
  mkScratch scratch.(generation) scratch.(distances) scratch.(distanceGenerations)
    scratch.(predecessors) scratch.(predecessorGenerations) q.

(** [Less]: strings are compared byte by byte. *)
Definition item_less (x y : replayQueueItem) : bool :=
  if negb (x.(item_cost) =? y.(item_cost)) then x.(item_cost) <? y.(item_cost)
  else if x.(item_key).(key_Chain) ≠?= y.(item_key).(key_Chain)
  then match bytes_compare (bytes_of_string x.(item_key).(key_Chain))
               (bytes_of_string y.(item_key).(key_Chain)) with Lt => true | _ => false end
  else x.(item_key).(key_Height) <? y.(item_key).(key_Height).

(** ** Paths *)

Record ReplayPathSegment := mkSegment {
  seg_From : ReplayBlockKey;
  seg_To : ReplayBlockKey;
  seg_Kind : ReplayEdgeKind;
  seg_Weight : Z
}.

#[export] Instance ReplayPathSegment_eq_dec : EqDecision ReplayPathSegment.
Proof. solve_decision. Defined.

Record ReplayPath := mkPath {
  path_Cost : Z;
  path_Nodes : list ReplayBlockKey;
  Segments : list ReplayPathSegment
}.

Definition no_path : ReplayPath := mkPath 0 [] [].

Definition path_NodeCount (path : ReplayPath) : Z := zlen path.(path_Nodes).
Definition HopCount (path : ReplayPath) : Z :=
  if zlen path.(path_Nodes) =? 0 then 0 else zlen path.(path_Nodes) - 1.

(** ** The search *)

Definition nodeIDLocked (view : ReplayTrustView) (key : ReplayBlockKey) : res error Z :=
  match view.(nodeIDs) !! key with
  | None => Err ErrNodeID
  | Some id =>
      if (id <? 0) || (zlen view.(nodeKeys) <=? id) then Err ErrNodeID
      else if view.(nodeKeys) !! Z.to_nat id ≠?= Some key then Err ErrNodeID
      else Ok id
  end.

Definition key_at (view : ReplayTrustView) (id : Z) : option ReplayBlockKey :=
  if id <? 0 then None else view.(nodeKeys) !! Z.to_nat id.

(** [reconstructPathLocked]: the nodes from the goal back to the start. *)
Fixpoint back_loop (fuel : nat) (view : ReplayTrustView) (scratch : replaySearchScratch)
    (start current : Z) (nodes : list ReplayBlockKey) : res error (list ReplayBlockKey) :=
  if current =? start then Ok nodes
  else
    match fuel with
    | O => Err OutOfFuel
    | S fuel' =>
        match getPredecessor scratch current with
        | None => Err ErrPredecessor
        | Some prior =>
            match key_at view prior with
            | None => Err ErrNodeID
            | Some key => back_loop fuel' view scratch start prior (nodes ++ [key])
            end
        end
    end.

Fixpoint segments_of (a : Adjacency) (nodes : list ReplayBlockKey)
    : res error (list ReplayPathSegment) :=
  match nodes with
  | from :: ((to :: _) as rest) =>
      match edge_at a from to with
      | None => Err ErrPathEdge
      | Some edge =>
          segments ← segments_of a rest;
          Ok (mkSegment from to edge.(edge_Kind) edge.(edge_Weight) :: segments)
      end
  | _ => Ok []
  end.

Definition reconstructPathLocked (view : ReplayTrustView) (start goal cost : Z)
    (scratch : replaySearchScratch) : res error (ReplayPath * bool) :=
  match key_at view goal with
  | None => Err ErrNodeID
  | Some key =>
      back ← back_loop (length view.(nodeKeys)) view scratch start goal [key];
      let nodes := rev back in
      segments ← segments_of view.(adjacency) nodes;
      Ok (mkPath cost nodes segments, true)
  end.

Section Search.
Context (range : nat → gmap ReplayBlockKey ReplayEdge → list (ReplayBlockKey * ReplayEdge)).
Context (view : ReplayTrustView) (cutoff : Z) (nodeOK : ReplayBlockKey → bool).

Definition push (scratch : replaySearchScratch) (item : replayQueueItem) (from : Z)
    : replaySearchScratch :=
  let scratch := setDistance scratch item.(item_id) item.(item_cost) in
  let scratch := setPredecessor scratch item.(item_id) from in
  set_queue scratch (heap_push item_less scratch.(queue) item).

(** [for neighbour, edge := range view.adjacency[item.key]] *)
Fixpoint relax_loop (item : replayQueueItem) (edges : list (ReplayBlockKey * ReplayEdge))
    (scratch : replaySearchScratch) : option error * replaySearchScratch :=
  match edges with
  | [] => (None, scratch)
  | (neighbour, edge) :: rest =>
      match CheckedAdd item.(item_cost) edge.(edge_Weight) with
      | Err e => (Some e, scratch)
      | Ok candidate =>
          if (cutoff <? candidate) || negb (nodeOK neighbour) then relax_loop item rest scratch
          else
            match nodeIDLocked view neighbour with
            | Err e => (Some e, scratch)
            | Ok id =>
                if match getDistance scratch id with
                   | Some known => known <=? candidate
                   | None => false
                   end
                then relax_loop item rest scratch
                else relax_loop item rest
                       (push scratch (mkItem id neighbour candidate) item.(item_id))
            end
      end
  end.

Fixpoint search_loop (fuel : nat) (start goal : Z) (scratch : replaySearchScratch)
    : res error (ReplayPath * bool) * replaySearchScratch :=
  match heap_pop item_less scratch.(queue) with
  | None => (Ok (no_path, false), scratch)
  | Some (item, rest) =>
      let scratch := set_queue scratch rest in
      match fuel with
      | O => (Err OutOfFuel, scratch)
      | S fuel' =>
          if match getDistance scratch item.(item_id) with
             | Some known => negb (known =? item.(item_cost))
             | None => true
             end
          then search_loop fuel' start goal scratch
          else if cutoff <? item.(item_cost) then (Ok (no_path, false), scratch)
          else if negb (nodeOK item.(item_key)) then search_loop fuel' start goal scratch
          else if item.(item_id) =? goal
          then (reconstructPathLocked view start goal item.(item_cost) scratch, scratch)
          else
            match relax_loop item
                    (range fuel' (default ∅ (view.(adjacency) !! item.(item_key)))) scratch with
            | (Some e, scratch) => (Err e, scratch)
            | (None, scratch) => search_loop fuel' start goal scratch
            end
      end
  end.
End Search.

Section Path.
Context (unicode_ToLower : string → string).
Context (range : nat → gmap ReplayBlockKey ReplayEdge → list (ReplayBlockKey * ReplayEdge)).

(** The lowest height of the target chain that is looked at. *)
Definition minTargetHeight (view : ReplayTrustView) (cutoff targetHeight : Z) : Z :=
  let steps := cutoff / view.(view_profile).(DirectStepCost) in
  if steps <? targetHeight then targetHeight - steps else 0.

Definition node_ok (chain : string) (lowest : Z) (key : ReplayBlockKey) : bool :=
  (key.(key_Chain) ≠?= chain) || (lowest <=? key.(key_Height)).

Definition ShortestPath (view : ReplayTrustView) (scratch : replaySearchScratch)
    (start goal : ReplayBlockKey) (cutoff : Z) (targetChain : string) (targetHeight : Z)
    : res error (ReplayPath * bool) * replaySearchScratch :=
  let start := canonicalKey unicode_ToLower start in
  let goal := canonicalKey unicode_ToLower goal in
  if start =?= goal then (Ok (mkPath 0 [start] [], true), scratch)
  else
    let scratch := begin (length view.(nodeKeys)) scratch in
    match nodeIDLocked view start with
    | Err e => (Err e, scratch)
    | Ok startID =>
        match nodeIDLocked view goal with
        | Err e => (Err e, scratch)
        | Ok goalID =>
            let lowest := minTargetHeight view cutoff targetHeight in
            let nodeOK := node_ok (canonicalChain unicode_ToLower targetChain) lowest in
            let scratch := setDistance scratch startID 0 in
            let scratch := set_queue scratch
              (heap_init item_less (scratch.(queue) ++ [mkItem startID start 0])) in
            search_loop range view cutoff nodeOK (S (count_edges view.(adjacency))) startID goalID
              scratch
        end
    end.
End Path.

(** ** Lemmas: the tables *)

(** What holds of the scratch memory between two searches. *)
Record scratch_ok (s : replaySearchScratch) : Prop := {
  so_generation : 0 ≤ s.(generation) ≤ MaxUint64;
  so_distances : length s.(distances) = length s.(distanceGenerations);
  so_predecessors : length s.(predecessors) = length s.(predecessorGenerations);
  so_stamps g : g ∈ s.(distanceGenerations) ∨ g ∈ s.(predecessorGenerations) →
    0 ≤ g ≤ s.(generation)
}.

(** The tables hold the nodes of the view. *)
Definition sized (size : nat) (s : replaySearchScratch) : Prop :=
  (size ≤ length s.(distanceGenerations))%nat ∧ (size ≤ length s.(predecessorGenerations))%nat.

Definition new_scratch : replaySearchScratch := mkScratch 0 [] [] [] [] [].

Lemma new_scratch_ok : scratch_ok new_scratch.
Proof. split; cbn; try done. by intros g [H|H]; apply elem_of_nil in H. Qed.

Lemma length_grow l n : length (grow l n) = Nat.max (length l) n.
Proof. unfold grow. rewrite length_app, length_replicate. lia. Qed.

Lemma grow_elem g l n : g ∈ grow l n → g ∈ l ∨ g = 0.
Proof. unfold grow. rewrite elem_of_app, elem_of_replicate. tauto. Qed.

Lemma stamped_None g values stamps id :
  (∀ x, x ∈ stamps → x ≠ g) → stamped g values stamps id = None.
Proof.
  intros H. unfold stamped. destruct (id <? 0); [done|].
  destruct (stamps !! _) as [x|] eqn:Hx; [|done].
  destruct (Z.eqb_spec x g); [|done]. subst. apply list_elem_of_lookup_2 in Hx. by apply H in Hx.
Qed.

Lemma begin_spec size s :
  scratch_ok s →
  scratch_ok (begin size s) ∧ sized size (begin size s) ∧ (begin size s).(queue) = [] ∧
  (∀ id, getDistance (begin size s) id = None) ∧ (∀ id, getPredecessor (begin size s) id = None).
Proof.
  intros [HG HD HP HS]. unfold begin, getDistance, getPredecessor.
  destruct (Z.eqb_spec s.(generation) MaxUint64) as [He|He].
  - cbn [generation distances distanceGenerations predecessors predecessorGenerations queue].
    assert (∀ x l, x ∈ map (λ _ : Z, 0) l → x = 0) as H0.
    { intros x l (y & -> & _)%list_elem_of_fmap. done. }
    split; [|split; [|split; [done|]]].
    + split; cbn; rewrite ?length_map, ?length_grow, ?HD, ?HP; try done.
      intros g [Hg|Hg]; apply H0 in Hg; subst; lia.
    + split; cbn; rewrite length_map, length_grow; lia.
    + split; intros id; apply stamped_None; intros x Hx%H0; lia.
  - assert (wrap64 (s.(generation) + 1) = s.(generation) + 1) as ->.
    { apply wrap64_small. unfold u64, MaxUint64 in *. lia. }
    destruct (Z.eqb_spec (s.(generation) + 1) 0) as [|_]; [lia|].
    cbn [generation distances distanceGenerations predecessors predecessorGenerations queue].
    assert (∀ g, g ∈ grow s.(distanceGenerations) size ∨ g ∈ grow s.(predecessorGenerations) size →
      0 ≤ g ≤ s.(generation)) as Hst.
    { intros g [[Hg|Hg]%grow_elem|[Hg|Hg]%grow_elem]; try (apply HS; tauto); lia. }
    split; [|split; [|split; [done|]]].
    + split; cbn; rewrite ?length_grow, ?HD, ?HP; try done; [lia|].
      intros g Hg%Hst. lia.
    + split; cbn; rewrite length_grow; lia.
    + split; intros id; apply stamped_None; intros x Hx.
      * assert (0 ≤ x ≤ s.(generation)) by auto. lia.
      * assert (0 ≤ x ≤ s.(generation)) by auto. lia.
Qed.

Lemma stamped_set g values stamps id v j :
  0 ≤ id < zlen stamps → length values = length stamps →
  stamped g (<[Z.to_nat id := v]> values) (<[Z.to_nat id := g]> stamps) j
  = if decide (j = id) then Some v else stamped g values stamps j.
Proof.
  unfold zlen. intros Hid Hl. unfold stamped. destruct (decide (j = id)) as [->|Hj].
  - destruct (Z.ltb_spec id 0); [lia|]. rewrite !list_lookup_insert_eq by lia.
    by rewrite Z.eqb_refl.
  - destruct (Z.ltb_spec j 0); [done|]. by rewrite !list_lookup_insert_ne by lia.
Qed.

Lemma elem_of_insert (l : list Z) i x g : g ∈ <[i := x]> l → g = x ∨ g ∈ l.
Proof.
  intros [j Hj]%list_elem_of_lookup. destruct (decide (i = j)) as [->|].
  - apply list_lookup_insert_Some in Hj as [(_ & <- & _)|(H & _)]; [by left|done].
  - rewrite list_lookup_insert_ne in Hj by done. right. by eapply list_elem_of_lookup_2.
Qed.

Lemma setDistance_ok s id d size :
  scratch_ok s → sized size s → scratch_ok (setDistance s id d) ∧ sized size (setDistance s id d).
Proof.
  intros [HG HD HP HS] [H1 H2]. split; [split|split]; cbn; rewrite ?length_insert; try done.
  intros g [[->|Hg]%elem_of_insert|Hg]; try (apply HS; tauto). lia.
Qed.

Lemma setPredecessor_ok s id p size :
  scratch_ok s → sized size s →
  scratch_ok (setPredecessor s id p) ∧ sized size (setPredecessor s id p).
Proof.
  intros [HG HD HP HS] [H1 H2]. split; [split|split]; cbn; rewrite ?length_insert; try done.
  intros g [Hg|[->|Hg]%elem_of_insert]; try (apply HS; tauto). lia.
Qed.

Lemma set_queue_ok s q size :
  scratch_ok s → sized size s → scratch_ok (set_queue s q) ∧ sized size (set_queue s q).
Proof. intros [H1 H2 H3 H4] [H5 H6]. split; [by split|done]. Qed.

Lemma getDistance_set s id d j size :
  scratch_ok s → sized size s → 0 ≤ id < Z.of_nat size →
  getDistance (setDistance s id d) j = if decide (j = id) then Some d else getDistance s j.
Proof.
  intros [] [] Hid. unfold getDistance. cbn. apply stamped_set; [unfold zlen; lia|done].
Qed.

Lemma getPredecessor_set s id p j size :
  scratch_ok s → sized size s → 0 ≤ id < Z.of_nat size →
  getPredecessor (setPredecessor s id p) j = if decide (j = id) then Some p else getPredecessor s j.
Proof.
  intros [] [] Hid. unfold getPredecessor. cbn. apply stamped_set; [unfold zlen; lia|done].
Qed.

(** ** Lemmas: the order of the queue *)

Definition item_cmp : replayQueueItem → replayQueueItem → comparison :=
  cmp_lex (cmp_on item_cost Z.compare)
    (cmp_lex (cmp_on (λ i, bytes_of_string i.(item_key).(key_Chain)) bytes_compare)
       (cmp_on (λ i, i.(item_key).(key_Height)) Z.compare)).

Lemma item_less_cmp x y : item_less x y = match item_cmp x y with Lt => true | _ => false end.
Proof.
  unfold item_less, item_cmp, cmp_lex, cmp_on.
  destruct (Z.eqb_spec x.(item_cost) y.(item_cost)) as [He|He]; cbn [negb].
  - rewrite He, Z.compare_refl.
    destruct (bool_decide_reflect (x.(item_key).(key_Chain) = y.(item_key).(key_Chain))) as [Hc|Hc];
      cbn [negb].
    + rewrite Hc, bytes_compare_refl. done.
    + destruct (bytes_compare _ _) eqn:Hb; try done.
      apply bytes_compare_eq in Hb. exfalso. apply Hc. by apply bytes_of_string_inj.
  - unfold Z.ltb. destruct (Z.compare_spec x.(item_cost) y.(item_cost)); done.
Qed.

#[export] Instance item_less_strict : StrictWeak item_less.
Proof.
  assert (Comparison item_cmp) as HC by apply _.
  split.
  - intros x y. rewrite !item_less_cmp. rewrite (cmp_antisym item_cmp x y). by destruct (item_cmp x y).
  - intros x y z. rewrite !item_less_cmp. intros Hyx Hzy.
    destruct (item_cmp z x) eqn:E; try done. exfalso.
    assert (item_cmp x y ≠ Gt) as H1 by (rewrite (cmp_antisym item_cmp y x); destruct (item_cmp y x); done).
    assert (item_cmp y z ≠ Gt) as H2 by (rewrite (cmp_antisym item_cmp z y); destruct (item_cmp z y); done).
    pose proof (cmp_trans item_cmp _ _ _ H1 H2) as H3. apply H3.
    rewrite (cmp_antisym item_cmp z x), E. done.
Qed.

Lemma item_less_cost x y : item_less y x = false → x.(item_cost) ≤ y.(item_cost).
Proof.
  unfold item_less. destruct (Z.eqb_spec y.(item_cost) x.(item_cost)); cbn [negb]; [lia|].
  intros H%Z.ltb_ge. lia.
Qed.

(** ** Routes: what the search looks for *)

(** A route along the edges of the view through nodes that are allowed. *)
Inductive route (a : Adjacency) (ok : ReplayBlockKey → bool) : list ReplayBlockKey → Z → Prop :=
| route_one k : ok k = true → route a ok [k] 0
| route_cons f t p e c :
    ok f = true → edge_at a f t = Some e → route a ok (t :: p) c →
    route a ok (f :: t :: p) (e.(edge_Weight) + c).

Lemma route_ok a ok p c k : route a ok p c → k ∈ p → ok k = true.
Proof.
  induction 1 as [|f t p e c Hf He Hr IH]; intros [->|Hin]%elem_of_cons; auto.
  by apply elem_of_nil in Hin.
Qed.

(** A path with its segments. *)
Record path_ok (a : Adjacency) (ok : ReplayBlockKey → bool) (start goal : ReplayBlockKey)
    (path : ReplayPath) : Prop := {
  po_route : route a ok path.(path_Nodes) path.(path_Cost);
  po_start : head path.(path_Nodes) = Some start;
  po_goal : last path.(path_Nodes) = Some goal;
  po_simple : NoDup path.(path_Nodes);
  po_length : S (length path.(Segments)) = length path.(path_Nodes);
  po_segment i s : path.(Segments) !! i = Some s →
    path.(path_Nodes) !! i = Some s.(seg_From) ∧ path.(path_Nodes) !! S i = Some s.(seg_To) ∧
    edge_at a s.(seg_From) s.(seg_To) = Some (mkEdge s.(seg_Kind) s.(seg_Weight))
}.

Lemma segments_of_route a ok p c :
  route a ok p c →
  ∃ l, segments_of a p = Ok l ∧ S (length l) = length p ∧
    ∀ i s, l !! i = Some s →
      p !! i = Some s.(seg_From) ∧ p !! S i = Some s.(seg_To) ∧
      edge_at a s.(seg_From) s.(seg_To) = Some (mkEdge s.(seg_Kind) s.(seg_Weight)).
Proof.
  induction 1 as [k Hk|f t p e c Hf He Hr (l & Hl & Hn & Hs)].
  - exists []. cbn. split_and!; try done. 
  - exists (mkSegment f t e.(edge_Kind) e.(edge_Weight) :: l). split_and!.
    + cbn [segments_of]. rewrite He. cbn [segments_of] in Hl. by rewrite Hl.
    + cbn in *. by rewrite Hn.
    + intros [|i] s H; [|by apply Hs in H].
      injection H as <-. cbn. by rewrite He; destruct e.
Qed.

Section Searching.
Context (range : nat → gmap ReplayBlockKey ReplayEdge → list (ReplayBlockKey * ReplayEdge)).
Context (view : ReplayTrustView) (cutoff : Z) (nodeOK : ReplayBlockKey → bool).
Context (start goal : ReplayBlockKey) (startID goalID : Z).
Hypothesis range_all : ∀ n m, range n m ≡ₚ map_to_list m.
Hypothesis W : view_wf view.
Hypothesis cutoff_u64 : u64 cutoff.
Hypothesis start_id : view.(nodeIDs) !! start = Some startID.
Hypothesis goal_id : view.(nodeIDs) !! goal = Some goalID.
Hypothesis distinct : start ≠ goal.

Definition out_edges (k : ReplayBlockKey) : list (ReplayBlockKey * ReplayEdge) :=
  if nodeOK k then map_to_list (default ∅ (view.(adjacency) !! k)) else [].

Definition extend (l : Z) (e : ReplayBlockKey * ReplayEdge) : option Z :=
  if nodeOK e.1 && (0 <=? e.2.(edge_Weight)) && (l + e.2.(edge_Weight) <=? cutoff)
  then Some (l + e.2.(edge_Weight)) else None.

Lemma extend_Some l e l' :
  extend l e = Some l' ↔
  nodeOK e.1 = true ∧ 0 ≤ e.2.(edge_Weight) ∧ l' = l + e.2.(edge_Weight) ∧ l' ≤ cutoff.
Proof.
  unfold extend. destruct (nodeOK e.1); cbn [andb]; [|naive_solver].
  destruct (Z.leb_spec 0 e.2.(edge_Weight)); cbn [andb]; [|naive_solver lia].
  destruct (Z.leb_spec (l + e.2.(edge_Weight)) cutoff); naive_solver lia.
Qed.

Lemma within_mono l k e k' :
  Z.compare l k ≠ Gt → extend k e = Some k' →
  ∃ l', extend l e = Some l' ∧ Z.compare l' k' ≠ Gt.
Proof.
  rewrite Z.compare_le_iff. intros Hl (H1 & H2 & -> & H3)%extend_Some.
  exists (l + e.2.(edge_Weight)). rewrite extend_Some, Z.compare_le_iff. repeat split; auto; lia.
Qed.

Lemma within_incr l e l' : extend l e = Some l' → Z.compare l l' ≠ Gt.
Proof. intros (H1 & H2 & -> & H3)%extend_Some. rewrite Z.compare_le_iff. lia. Qed.

Abbreviation reaches := (reach out_edges fst extend start 0).

Lemma reaches_bounds v l : reaches v l → 0 ≤ l ≤ cutoff.
Proof.
  induction 1 as [|u l e l' Hr IH He (H1 & H2 & -> & H3)%extend_Some]; unfold u64 in *; lia.
Qed.

Lemma out_edges_elem k n e :
  (n, e) ∈ out_edges k ↔ nodeOK k = true ∧ edge_at view.(adjacency) k n = Some e.
Proof.
  unfold out_edges, edge_at. destruct (nodeOK k); [|split; [by intros ?%elem_of_nil|naive_solver]].
  rewrite elem_of_map_to_list. destruct (view.(adjacency) !! k); cbn; [naive_solver|].
  rewrite lookup_empty. naive_solver.
Qed.

(** A route within the cutoff is a label of its end. *)
Lemma route_reaches p : ∀ f l c,
  route view.(adjacency) nodeOK (f :: p) c → reaches f l → l + c ≤ cutoff →
  ∀ g, last (f :: p) = Some g → reaches g (l + c).
Proof.
  induction p as [|t p IH]; intros f l c Hr Hf Hc g Hg; inversion Hr as [|? ? ? e c' H1 H2 H3]; subst.
  - injection Hg as <-. by rewrite Z.add_0_r.
  - assert (nodeOK t = true) as Ht by (eapply route_ok; [done|left]).
    pose proof (vw_edge _ W _ _ _ H2) as (_ & _ & Hw & _).
    assert (0 ≤ c') as Hc'.
    { clear -H3 W. remember (t :: p) as q. clear Heqq. induction H3 as [|f t' q e c Hf He Hr IH]; [lia|].
      pose proof (vw_edge _ W _ _ _ He) as (_ & _ & Hw & _). lia. }
    rewrite Z.add_assoc. eapply IH; [done| |lia|done].
    refine (reach_step _ _ _ _ _ f l (t, e) _ Hf _ _).
    + by apply out_edges_elem.
    + apply extend_Some. cbn. repeat split; auto; lia.
Qed.

(** ** The invariant of the search *)

Definition best (s : replaySearchScratch) (k : ReplayBlockKey) : option Z :=
  id ← view.(nodeIDs) !! k; getDistance s id.

Definition items (q : list replayQueueItem) : list (ReplayBlockKey * Z) :=
  map (λ i, (i.(item_key), i.(item_cost))) q.

Lemma elem_of_items q k c :
  (k, c) ∈ items q ↔ ∃ i, i ∈ q ∧ i.(item_key) = k ∧ i.(item_cost) = c.
Proof. unfold items. rewrite list_elem_of_fmap. naive_solver. Qed.

Lemma id_range k i : view.(nodeIDs) !! k = Some i → 0 ≤ i < Z.of_nat (length view.(nodeKeys)).
Proof.
  intros [H1 H2]%W. apply lookup_lt_Some in H2. lia.
Qed.

Lemma id_inj k k' i : view.(nodeIDs) !! k = Some i → view.(nodeIDs) !! k' = Some i → k = k'.
Proof. intros [_ H1]%W [_ H2]%W. congruence. Qed.

Lemma nodeIDLocked_Some k i : view.(nodeIDs) !! k = Some i → nodeIDLocked view k = Ok i.
Proof.
  intros H. pose proof (id_range _ _ H). unfold nodeIDLocked. rewrite H.
  apply W in H as [H1 H2]. unfold zlen. destruct (Z.ltb_spec i 0); [lia|].
  destruct (Z.leb_spec (Z.of_nat (length view.(nodeKeys))) i); [lia|].
  cbn [orb]. rewrite H2. by rewrite bool_decide_eq_true_2.
Qed.

Lemma nodeIDLocked_node k :
  match nodeIDLocked view k with
  | Ok i => view.(nodeIDs) !! k = Some i
  | Err e => e = ErrNodeID ∧ k ∉ view.(nodes)
  end.
Proof.
  destruct (view.(nodeIDs) !! k) as [i|] eqn:H; [by rewrite (nodeIDLocked_Some _ _ H)|].
  unfold nodeIDLocked. rewrite H. split; [done|]. intros Hk%(vw_nodes _ W).
  apply list_elem_of_lookup in Hk as [j Hj].
  assert (view.(nodeIDs) !! k = Some (Z.of_nat j)); [|congruence].
  apply W. rewrite Nat2Z.id. split; [lia|done].
Qed.

Lemma key_at_Some k i : view.(nodeIDs) !! k = Some i → key_at view i = Some k.
Proof.
  intros [H1 H2]%W. unfold key_at. by destruct (Z.ltb_spec i 0); [lia|].
Qed.

Record looking (n : nat) (s : replaySearchScratch) (settled : list ReplayBlockKey)
    (cur : ReplayBlockKey) (todo : list (ReplayBlockKey * ReplayEdge)) : Prop := {
  lk_ok : scratch_ok s;
  lk_sized : sized (length view.(nodeKeys)) s;
  lk_inv : search_inv out_edges fst extend Z.compare start 0 n (best s) (items s.(queue)) settled cur todo;
  lk_ids i : i ∈ s.(queue) → view.(nodeIDs) !! i.(item_key) = Some i.(item_id);
  lk_heap : is_heap item_less s.(queue);
  lk_back v b : best s v = Some b → v = start ∨
    ∃ iv u iu bu e,
      view.(nodeIDs) !! v = Some iv ∧ view.(nodeIDs) !! u = Some iu ∧
      getPredecessor s iv = Some iu ∧ u ∈ settled ∧ best s u = Some bu ∧
      nodeOK u = true ∧ edge_at view.(adjacency) u v = Some e ∧ b = bu + e.(edge_Weight)
}.

Lemma best_start n s settled cur todo : looking n s settled cur todo → best s start = Some 0.
Proof.
  intros L. destruct (lk_inv _ _ _ _ _ L). destruct inv_start as (b & Hb & Hle).
  apply inv_sound in Hb as Hr. apply reaches_bounds in Hr.
  rewrite Z.compare_le_iff in Hle. rewrite Hb. f_equal. lia.
Qed.

Lemma push_best s id k c from v :
  scratch_ok s → sized (length view.(nodeKeys)) s → view.(nodeIDs) !! k = Some id →
  best (push s (mkItem id k c) from) v = if decide (v = k) then Some c else best s v.
Proof.
  intros Hok Hsz Hid. unfold best. destruct (decide (v = k)) as [->|Hv].
  - rewrite Hid. cbn. change (getDistance (setDistance s id c) id = Some c).
    erewrite getDistance_set by eauto using id_range. by rewrite decide_True.
  - destruct (view.(nodeIDs) !! v) as [j|] eqn:Hj; [|done]. cbn.
    change (getDistance (setDistance s id c) j = getDistance s j).
    erewrite getDistance_set by eauto using id_range. rewrite decide_False; [done|].
    intros ->. apply Hv. by eapply id_inj.
Qed.

Lemma push_predecessor s id k c from j :
  scratch_ok s → sized (length view.(nodeKeys)) s → view.(nodeIDs) !! k = Some id →
  getPredecessor (push s (mkItem id k c) from) j
  = if decide (j = id) then Some from else getPredecessor s j.
Proof.
  intros Hok Hsz Hid. destruct (setDistance_ok s id c _ Hok Hsz) as [H1 H2].
  change (getPredecessor (setPredecessor (setDistance s id c) id from) j
    = if decide (j = id) then Some from else getPredecessor (setDistance s id c) j).
  by eapply getPredecessor_set; eauto using id_range.
Qed.

Lemma push_ok s item from :
  scratch_ok s → sized (length view.(nodeKeys)) s →
  scratch_ok (push s item from) ∧ sized (length view.(nodeKeys)) (push s item from).
Proof.
  intros H1 H2. unfold push.
  destruct (setDistance_ok s item.(item_id) item.(item_cost) _ H1 H2) as [H3 H4].
  destruct (setPredecessor_ok _ item.(item_id) from _ H3 H4). by apply set_queue_ok.
Qed.

Lemma queue_push_items q i : items (heap_push item_less q i) ≡ₚ (i.(item_key), i.(item_cost)) :: items q.
Proof. unfold items. by rewrite heap_push_perm. Qed.

Section Relaxing.
Context (n : nat) (settled : list ReplayBlockKey) (u : ReplayBlockKey) (iu c : Z).
Hypothesis u_settled : u ∈ settled.
Hypothesis u_id : view.(nodeIDs) !! u = Some iu.
Hypothesis u_ok : nodeOK u = true.
Hypothesis u_reach : reaches u c.

(** The state while the edges of [u] are looked at. *)
Definition relaxing (s : replaySearchScratch) (todo : list (ReplayBlockKey * ReplayEdge)) : Prop :=
  looking n s settled u todo ∧ best s u = Some c ∧
  (∀ v b, v ∈ settled → best s v = Some b → b ≤ c) ∧ todo ⊆ out_edges u.

Lemma relax_skip s nb e todo :
  relaxing s ((nb, e) :: todo) →
  (∀ l, extend c (nb, e) = Some l → ∃ k, best s nb = Some k ∧ k ≤ l) →
  relaxing s todo.
Proof.
  intros ([H1 H2 Hi H4 H5 H6] & Hb & Hle & Hin) Hskip.
  split; [|split_and!; [done..|by intros x Hx; apply Hin; right]]. split; try done.
  eapply (search_inv_skip out_edges fst extend Z.compare start 0 within_mono); try done.
  - apply Z.compare_refl.
  - intros l' (k & Hk & Hle')%Hskip. exists k. split; [done|]. by rewrite Z.compare_ge_iff.
Qed.

Lemma relax_push s nb e id todo :
  relaxing s ((nb, e) :: todo) → view.(nodeIDs) !! nb = Some id →
  extend c (nb, e) = Some (c + e.(edge_Weight)) →
  (∀ k, best s nb = Some k → c + e.(edge_Weight) < k) →
  relaxing (push s (mkItem id nb (c + e.(edge_Weight))) iu) todo.
Proof.
  intros ([H1 H2 Hi H4 H5 H6] & Hb & Hle & Hin) Hid Hx Hlt.
  set (s' := push s _ iu).
  assert (∀ v, best s' v = if decide (v = nb) then Some (c + e.(edge_Weight)) else best s v) as Hbest.
  { intros v. by apply push_best. }
  destruct (push_ok s (mkItem id nb (c + e.(edge_Weight))) iu H1 H2) as [O1 O2].
  destruct (search_inv_push out_edges fst extend Z.compare start 0 within_mono within_incr
    n (best s) (items s.(queue)) settled u c c (nb, e) todo Hi) with (best' := best s')
    (l' := c + e.(edge_Weight)) as [HI Hns]; try done.
  { apply Z.compare_refl. }
  { apply Hin. by left. }
  cbn in Hns. assert (∀ v, v ∈ settled → best s' v = best s v) as Hset.
  { intros v Hv. rewrite Hbest. rewrite decide_False; [done|]. by intros ->. }
  split; [|split_and!].
  - split; try done.
    + eapply search_inv_perm; [|exact HI]. symmetry. apply queue_push_items.
    + intros i Hi'.
      change (i ∈ heap_push item_less s.(queue) (mkItem id nb (c + e.(edge_Weight)))) in Hi'.
      rewrite heap_push_perm in Hi'.
      apply elem_of_cons in Hi' as [->|Hi']; [done|auto].
    + apply heap_push_heap; [exact strict_weak_asym|exact strict_weak_neg_trans|done].
    + intros v b. rewrite Hbest. case_decide as Hv.
      * intros [= <-]. subst v. right. exists id, u, iu, c, e.
        assert ((nb, e) ∈ out_edges u) as [_ He]%out_edges_elem by (apply Hin; by left).
        split_and!; try done.
        -- unfold s'. rewrite push_predecessor by done. by rewrite decide_True.
        -- by rewrite Hset.
      * intros Hbv. destruct (H6 v b Hbv) as [->|(iv & w & iw & bw & e' & A1 & A2 & A3 & A4 & A5 & A6 & A7 & A8)];
          [by left|right].
        exists iv, w, iw, bw, e'. split_and!; try done.
        -- unfold s'. rewrite push_predecessor, decide_False; try done.
           intros ->. apply Hv. by eapply id_inj.
        -- by rewrite Hset.
  - by rewrite Hset.
  - intros v b Hv. rewrite Hset by done. eauto.
  - intros x Hx'. apply Hin. by right.
Qed.

Lemma relax_loop_spec todo : ∀ s,
  relaxing s todo → 0 ≤ c →
  match relax_loop view cutoff nodeOK (mkItem iu u c) todo s with
  | (None, s') => relaxing s' []
  | (Some err, s') =>
      scratch_ok s' ∧ err = ErrCostOverflow ∧
      ∃ nb e, edge_at view.(adjacency) u nb = Some e ∧ MaxUint64 < c + e.(edge_Weight)
  end.
Proof.
  induction todo as [|[nb e] todo IH]; intros s R Hc; cbn [relax_loop]; [done|].
  assert ((nb, e) ∈ out_edges u) as [_ He]%out_edges_elem.
  { destruct R as (_ & _ & _ & H). apply H. by left. }
  pose proof (vw_edge _ W _ _ _ He) as (_ & Hn & Hw & _). cbn [item_cost item_id].
  destruct (CheckedAdd c e.(edge_Weight)) as [cand|err] eqn:HA.
  2: { unfold CheckedAdd in HA. destruct (Z.ltb_spec (MaxUint64 - c) e.(edge_Weight)); [|done].
       injection HA as <-. split; [apply R|]. split; [done|]. exists nb, e. split; [done|lia]. }
  apply CheckedAdd_Ok in HA as [-> Hmax].
  destruct (Z.ltb_spec cutoff (c + e.(edge_Weight))) as [Hcut|Hcut]; cbn [orb].
  { apply IH; [|done]. eapply relax_skip; [done|]. intros l (_ & _ & -> & ?)%extend_Some. cbn in *. lia. }
  destruct (nodeOK nb) eqn:Hok; cbn [negb].
  2: { apply IH; [|done]. eapply relax_skip; [done|]. intros l (Hok' & _)%extend_Some. cbn in *. congruence. }
  assert (extend c (nb, e) = Some (c + e.(edge_Weight))) as Hext.
  { apply extend_Some. cbn. repeat split; auto; lia. }
  pose proof (nodeIDLocked_node nb) as Hid.
  destruct (nodeIDLocked view nb) as [id|err]; [|by destruct Hid].
  assert (best s nb = getDistance s id) as Hbe by (unfold best; by rewrite Hid).
  destruct (getDistance s id) as [known|] eqn:Hd.
  - destruct (Z.leb_spec known (c + e.(edge_Weight))).
    + apply IH; [|done]. eapply relax_skip; [done|]. rewrite Hext. intros l [= <-]. by exists known.
    + apply IH; [|done]. apply relax_push; try done. intros k. rewrite Hbe. intros [= <-]. done.
  - apply IH; [|done]. apply relax_push; try done. by rewrite Hbe.
Qed.
End Relaxing.

(** ** The way back *)

Lemma last_rev_head {A} (l : list A) : last (rev l) = head l.
Proof. destruct l as [|x l]; [done|]. cbn. by rewrite last_snoc. Qed.

Lemma nodes_bound (l : list ReplayBlockKey) :
  NoDup l → (∀ x, x ∈ l → is_Some (view.(nodeIDs) !! x)) → (length l ≤ length view.(nodeKeys))%nat.
Proof.
  intros Hn Hl. apply submseteq_length, NoDup_submseteq; [done|].
  intros x [i [_ Hi]%W]%Hl. by eapply list_elem_of_lookup_2.
Qed.

Lemma back_loop_spec n s settled cur todo fuel : ∀ v iv b acc c,
  looking n s settled cur todo →
  best s v = Some b → view.(nodeIDs) !! v = Some iv → last acc = Some v →
  route view.(adjacency) nodeOK (rev acc) c → NoDup acc →
  (∀ x, x ∈ acc → ∃ bx, best s x = Some bx ∧ b ≤ bx) →
  (fuel + length acc = S (length view.(nodeKeys)))%nat →
  ∃ back, back_loop fuel view s startID iv acc = Ok back ∧
    route view.(adjacency) nodeOK (rev back) (b + c) ∧ head (rev back) = Some start ∧
    head back = head acc ∧ NoDup back.
Proof.
  induction fuel as [|fuel IH]; intros v iv b acc c L Hb Hid Hlast Hr Hnd Hle Hf; cbn [back_loop].
  all: destruct (Z.eqb_spec iv startID) as [->|Hne].
  1, 3: assert (v = start) as -> by (by eapply id_inj); rewrite (best_start _ _ _ _ _ L) in Hb;
    injection Hb as <-; exists acc; split_and!; try done; by rewrite <-last_rev_head, rev_involutive.
  - exfalso. assert (length acc ≤ length view.(nodeKeys))%nat; [|lia].
    apply nodes_bound; [done|]. intros x (bx & Hbx & _)%Hle. unfold best in Hbx.
    destruct (view.(nodeIDs) !! x); [by eexists|done].
  - destruct (lk_back _ _ _ _ _ L v b Hb) as [->|(iv' & u & iu & bu & e & A1 & A2 & A3 & A4 & A5 & A6 & A7 & ->)].
    { congruence. }
    assert (iv' = iv) as -> by congruence. rewrite A3, (key_at_Some _ _ A2).
    pose proof (vw_edge _ W _ _ _ A7) as (_ & _ & Hw & _).
    destruct (IH u iu bu (acc ++ [u]) (e.(edge_Weight) + c)) as (back & B1 & B2 & B3 & B4 & B5); try done.
    + by rewrite last_snoc.
    + rewrite rev_app_distr. cbn [rev app].
      apply last_Some in Hlast as [acc' ->]. rewrite rev_app_distr in Hr |- *. by constructor.
    + apply NoDup_app. split; [done|]. split; [|apply NoDup_singleton].
      intros x Hx ->%list_elem_of_singleton. apply Hle in Hx as (bx & Hbx & ?).
      assert (bx = bu) by congruence. lia.
    + intros x [Hx| ->%list_elem_of_singleton]%elem_of_app.
      * apply Hle in Hx as (bx & ? & ?). exists bx. split; [done|lia].
      * by exists bu.
    + rewrite length_app. cbn. lia.
    + exists back. split_and!; try done.
      * by rewrite <-Z.add_assoc.
      * rewrite B4. by destruct acc.
Qed.

Lemma reconstruct_spec n s settled cur todo b :
  looking n s settled cur todo → best s goal = Some b → nodeOK goal = true →
  ∃ p, reconstructPathLocked view startID goalID b s = Ok (p, true) ∧
    path_ok view.(adjacency) nodeOK start goal p ∧ p.(path_Cost) = b.
Proof.
  intros L Hb Hok. unfold reconstructPathLocked. rewrite (key_at_Some _ _ goal_id).
  destruct (back_loop_spec n s settled cur todo (length view.(nodeKeys)) goal goalID b [goal] 0)
    as (back & -> & B2 & B3 & B4 & B5); try done.
  - by constructor.
  - apply NoDup_singleton.
  - intros x ->%list_elem_of_singleton. by exists b.
  - cbn. lia.
  - destruct (segments_of_route _ _ _ _ B2) as (l & Hl & Hn & Hs). cbn.
    rewrite Hl. cbn. eexists. split; [done|]. split; [|done].
    split; cbn; try done.
    + by rewrite Z.add_0_r in B2.
    + by rewrite last_rev_head, B4.
    + by apply NoDup_ListNoDup, NoDup_rev, NoDup_ListNoDup.
Qed.

(** ** The loop *)

Lemma degrees_bound l : NoDup l → (out_degrees out_edges l ≤ count_edges view.(adjacency))%nat.
Proof.
  assert (∀ a : Adjacency, NoDup l →
    (sum_list_with (λ k, size (default ∅ (a !! k))) l ≤ count_edges a)%nat) as H.
  { induction l as [|k l IH]; intros a Hnd; [cbn; lia|]. apply NoDup_cons in Hnd as [Hk Hnd].
    cbn. specialize (IH (delete k a) Hnd).
    assert (sum_list_with (λ x, size (default ∅ (delete k a !! x))) l
      = sum_list_with (λ x, size (default ∅ (a !! x))) l) as He.
    { clear -Hk. induction l as [|x l IH]; [done|]. cbn.
      rewrite lookup_delete_ne by (intros ->; apply Hk; by left).
      rewrite IH; [done|]. intros ?. apply Hk. by right. }
    rewrite He in IH. destruct (a !! k) as [m|] eqn:Hm; cbn.
    - pose proof (count_edges_insert (delete k a) k m) as Hc.
      rewrite insert_delete_id in Hc by done. rewrite lookup_delete_eq in Hc. cbn in Hc.
      rewrite map_size_empty in Hc. lia.
    - rewrite delete_id in IH by done.
      replace (size (∅ : gmap ReplayBlockKey ReplayEdge)) with 0%nat by done. lia. }
  intros Hnd. etrans; [|apply (H _ Hnd)]. clear. unfold out_degrees, out_edges.
  induction l as [|k l IH]; [done|]. cbn. destruct (nodeOK k); cbn; [|lia].
  rewrite length_map_to_list. lia.
Qed.

Lemma reaches_allowed v l : reaches v l → v = start ∨ nodeOK v = true.
Proof. induction 1 as [|u l e l' Hr IH He (H1 & _)%extend_Some]; auto. Qed.

Definition search_result (r : res error (ReplayPath * bool)) : Prop :=
  match r with
  | Ok (p, true) =>
      path_ok view.(adjacency) nodeOK start goal p ∧ p.(path_Cost) ≤ cutoff ∧
      ∀ k, reaches goal k → p.(path_Cost) ≤ k
  | Ok (p, false) => p = no_path ∧ ∀ k, ¬ reaches goal k
  | Err e => e = ErrCostOverflow ∧
      ∃ f t e, edge_at view.(adjacency) f t = Some e ∧ MaxUint64 < cutoff + e.(edge_Weight)
  end.

Lemma search_inv_todo n b q settled cur todo todo' :
  todo ≡ₚ todo' →
  search_inv out_edges fst extend Z.compare start 0 n b q settled cur todo →
  search_inv out_edges fst extend Z.compare start 0 n b q settled cur todo'.
Proof.
  intros Hp []. split; try done.
  - intros v bv e l' H1 H2 H3 H4. rewrite <-Hp. eauto.
  - by rewrite <-(Permutation_length Hp).
Qed.

(** The next item of the queue. *)
Record popped (s : replaySearchScratch) (item : replayQueueItem) (q : list replayQueueItem) : Prop := {
  pp_ok : scratch_ok (set_queue s q) ∧ sized (length view.(nodeKeys)) (set_queue s q);
  pp_items : items s.(queue) ≡ₚ (item.(item_key), item.(item_cost)) :: items q;
  pp_ids i : i ∈ q → view.(nodeIDs) !! i.(item_key) = Some i.(item_id);
  pp_id : view.(nodeIDs) !! item.(item_key) = Some item.(item_id);
  pp_heap : is_heap item_less q;
  pp_least u k : (u, k) ∈ items q → Z.compare item.(item_cost) k ≠ Gt
}.

Lemma pop_popped n s settled cur todo item q :
  looking n s settled cur todo → heap_pop item_less s.(queue) = Some (item, q) → popped s item q.
Proof.
  intros [L1 L2 L3 L4 L5 L6] Hpop. pose proof (heap_pop_perm _ _ _ _ Hpop) as Hperm.
  destruct (heap_pop_heap item_less strict_weak_asym strict_weak_neg_trans _ _ _ L5 Hpop) as [Hheap Hmin].
  split; try done.
  - by apply set_queue_ok.
  - unfold items. by rewrite Hperm.
  - intros i Hi. apply L4. rewrite Hperm. by right.
  - apply L4. rewrite Hperm. by left.
  - intros u k (i & Hi & <- & <-)%elem_of_items. rewrite Z.compare_le_iff. by apply item_less_cost, Hmin.
Qed.

Lemma looking_popped n n' s settled settled' cur cur' todo' item q :
  looking n s settled cur [] → popped s item q → settled ⊆ settled' →
  search_inv out_edges fst extend Z.compare start 0 n' (best s) (items q) settled' cur' todo' →
  looking n' (set_queue s q) settled' cur' todo'.
Proof.
  intros [L1 L2 L3 L4 L5 L6] [[P1 P2] P3 P4 P5 P6 P7] Hs Hi. split; try done.
  intros v b Hb. destruct (L6 v b Hb) as [?|(iv & u & iu & bu & e & A)]; [by left|right].
  exists iv, u, iu, bu, e. destruct A as (A1 & A2 & A3 & A4 & A5 & A6 & A7 & A8).
  split_and!; auto.
Qed.

Lemma least_search_spec fuel : ∀ n s settled cur,
  looking n s settled cur [] → goal ∉ settled →
  (n + fuel = S (count_edges view.(adjacency)))%nat →
  let (r, s') := search_loop range view cutoff nodeOK fuel startID goalID s in
  scratch_ok s' ∧ search_result r.
Proof.
  induction fuel as [|fuel IH]; intros n s settled cur L Hg Hf; cbn [search_loop].
  all: destruct (heap_pop item_less s.(queue)) as [[item q]|] eqn:Hpop.
  2, 4: split; [apply L|]; split; [done|]; intros k Hk; apply Hg;
    apply heap_pop_None in Hpop; destruct L as [_ _ L3 _ _ _]; rewrite Hpop in L3;
    exact (search_inv_exhausted _ _ _ _ _ _ within_mono within_incr _ _ _ _ _ _ L3 Hk).
  { exfalso. destruct L as [_ _ L3 _ _ _]. apply heap_pop_perm in Hpop.
    pose proof (search_inv_pops _ _ _ _ _ _ _ _ _ _ _ _ _ L3 degrees_bound) as Hp.
    unfold items in Hp. rewrite length_map, (Permutation_length Hpop) in Hp. cbn in Hp. lia. }
  pose proof (pop_popped _ _ _ _ _ _ _ L Hpop) as P. pose proof P as [[P1 P2] P3 P4 P5 P6 P7].
  pose proof (search_inv_perm _ _ _ _ _ _ _ _ _ _ _ _ _ P3 (lk_inv _ _ _ _ _ L)) as Hinv.
  destruct item as [id key cost]. cbn [item_id item_key item_cost] in *.
  assert (best s key = getDistance s id) as Hbe by (unfold best; by rewrite P5).
  change (getDistance (set_queue s q) id) with (getDistance s id). rewrite <-Hbe.
  assert (reaches key cost) as Hr by (destruct Hinv; apply inv_reach; by left).
  pose proof (reaches_bounds _ _ Hr) as Hcost.
  destruct (decide (best s key = Some cost)) as [Hb|Hb].
  2: { replace (match best s key with Some known => negb (known =? cost) | None => true end) with true.
       2: { destruct (best s key) as [k|]; [|done]. destruct (Z.eqb_spec k cost); [|done].
            by subst. }
       eapply (IH (S n)); [|done|lia]. eapply looking_popped; [done|done|done|].
       eapply search_inv_stale; [done|]. intros (b & Hb1 & Hb2). cbn in *.
       apply Z.compare_eq in Hb2. congruence. }
  rewrite Hb, Z.eqb_refl. cbn [negb]. destruct (Z.ltb_spec cutoff cost); [lia|].
  assert (fresh Z.compare (best s) (key, cost)) as Hfr.
  { exists cost. split; [done|]. apply Z.compare_refl. }
  destruct (search_inv_settle _ _ _ _ _ _ _ _ _ _ _ _ _ Hinv Hfr P7) as (Hset & Hle & _).
  destruct (nodeOK key) eqn:Hok; cbn [negb].
  2: { assert (key = start) as -> by (destruct (reaches_allowed _ _ Hr); congruence).
       eapply (IH (S n)); [| |lia].
       - eapply looking_popped; [done|done|by apply list_subseteq_cons|].
         unfold out_edges in Hset at 2. rewrite Hok in Hset. exact Hset.
       - intros [?|?]%elem_of_cons; [congruence|done]. }
  destruct (Z.eqb_spec id goalID) as [->|Hid].
  - assert (key = goal) as -> by (by eapply id_inj).
    assert (looking (S n) (set_queue s q) (goal :: settled) goal (out_edges goal)) as L'.
    { eapply looking_popped; [done|done|by apply list_subseteq_cons|exact Hset]. }
    destruct (reconstruct_spec _ _ _ _ _ cost L' Hb Hok) as (p & -> & Hp & <-).
    split; [done|]. split_and!; [done|lia|]. intros k Hk.
    apply Z.compare_le_iff.
    by apply (search_inv_optimal _ _ _ _ _ _ within_mono within_incr _ _ _ _ _ _ _ Hinv Hfr P7).
  - set (es := range fuel _).
    assert (es ≡ₚ out_edges key) as Hes by (unfold out_edges; rewrite Hok; apply range_all).
    assert (relaxing (S n) (key :: settled) key cost (set_queue s q) es) as R.
    { split; [|split_and!; [done| |by rewrite Hes]].
      - eapply looking_popped; [done|done|by apply list_subseteq_cons|].
        by eapply search_inv_todo; [symmetry; exact Hes|].
      - intros v b Hv Hbv. rewrite <-Z.compare_le_iff. by eapply Hle. }
    pose proof (relax_loop_spec (S n) (key :: settled) key id cost
      ltac:(left) P5 Hok Hr es _ R ltac:(lia)) as HR.
    destruct (relax_loop _ _ _ _ _ _) as [[err|] s'].
    + destruct HR as (H1 & -> & nb & e & He & Hov). split; [done|]. split; [done|].
      exists key, nb, e. split; [done|lia].
    + destruct HR as (L' & _). eapply (IH (S n)); [exact L'| |lia].
      intros [->|?]%elem_of_cons; [|done]. apply Hid. congruence.
Qed.

Lemma looking_init scratch :
  scratch_ok scratch →
  let s := begin (length view.(nodeKeys)) scratch in
  let s := setDistance s startID 0 in
  looking 0 (set_queue s (heap_init item_less (s.(queue) ++ [mkItem startID start 0]))) [] start [].
Proof.
  intros Hs. cbn zeta.
  destruct (begin_spec (length view.(nodeKeys)) scratch Hs) as (B1 & B2 & B3 & B4 & B5).
  pose proof (id_range _ _ start_id) as Hid.
  destruct (setDistance_ok _ startID 0 _ B1 B2) as [D1 D2].
  set (s := setDistance _ _ _) in *. change (s.(queue)) with (begin (length view.(nodeKeys)) scratch).(queue).
  rewrite B3. cbn [app].
  assert (∀ v, best (set_queue s (heap_init item_less [mkItem startID start 0])) v
    = if decide (v = start) then Some 0 else None) as Hbest.
  { intros v. unfold best. destruct (decide (v = start)) as [->|Hv].
    - rewrite start_id. cbn. change (getDistance s startID = Some 0). unfold s.
      erewrite getDistance_set by eauto. by rewrite decide_True.
    - destruct (view.(nodeIDs) !! v) as [j|] eqn:Hj; [|done]. cbn. change (getDistance s j = None).
      unfold s. erewrite getDistance_set, B4 by eauto. rewrite decide_False; [done|].
      intros ->. apply Hv. by eapply id_inj. }
  split.
  - by eapply set_queue_ok.
  - by eapply set_queue_ok.
  - eapply search_inv_init; eauto using within_mono, within_incr. apply _.
  - by intros i ->%list_elem_of_singleton.
  - apply heap_init_singleton.
  - intros v b. rewrite Hbest. case_decide; [by left|done].
Qed.
End Searching.

(** The result of a search between two keys, in terms of routes. *)
Definition found_least (view : ReplayTrustView) (ok : ReplayBlockKey → bool) (cutoff : Z)
    (start goal : ReplayBlockKey) (r : res error (ReplayPath * bool)) : Prop :=
  match r with
  | Ok (p, true) =>
      path_ok view.(adjacency) ok start goal p ∧ p.(path_Cost) ≤ cutoff ∧
      ∀ q c, route view.(adjacency) ok q c → head q = Some start → last q = Some goal →
        p.(path_Cost) ≤ c
  | Ok (p, false) =>
      p = no_path ∧
      ∀ q c, route view.(adjacency) ok q c → head q = Some start → last q = Some goal → cutoff < c
  | Err ErrNodeID => start ∉ view.(nodes) ∨ goal ∉ view.(nodes)
  | Err e =>
      e = ErrCostOverflow ∧
      ∃ f t e, edge_at view.(adjacency) f t = Some e ∧ MaxUint64 < cutoff + e.(edge_Weight)
  end.

Section Least.
Context (unicode_ToLower : string → string).
Context (range : nat → gmap ReplayBlockKey ReplayEdge → list (ReplayBlockKey * ReplayEdge)).
Hypothesis range_all : ∀ n m, range n m ≡ₚ map_to_list m.

(** The nodes the search may enter. *)
Definition allowed (view : ReplayTrustView) (cutoff : Z) (chain : string) (height : Z) :
    ReplayBlockKey → bool :=
  node_ok (canonicalChain unicode_ToLower chain) (minTargetHeight view cutoff height).

Lemma ShortestPath_found view scratch start goal cutoff chain height :
  view_wf view → scratch_ok scratch → u64 cutoff →
  canonicalKey unicode_ToLower start ≠ canonicalKey unicode_ToLower goal →
  let '(r, scratch') :=
    ShortestPath unicode_ToLower range view scratch start goal cutoff chain height in
  found_least view (allowed view cutoff chain height) cutoff (canonicalKey unicode_ToLower start)
    (canonicalKey unicode_ToLower goal) r ∧ scratch_ok scratch'.
Proof.
  intros W Hs Hcut Hne. unfold ShortestPath.
  set (st := canonicalKey _ start) in *. set (gl := canonicalKey _ goal) in *. cbn zeta.
  rewrite bool_decide_eq_false_2 by done.
  pose proof (begin_spec (length view.(nodeKeys)) scratch Hs) as (B1 & _).
  pose proof (nodeIDLocked_node view W st) as Hst. destruct (nodeIDLocked view st) as [sid|e].
  2: { destruct Hst as [-> ?]. cbn. split; [by left|done]. }
  pose proof (nodeIDLocked_node view W gl) as Hgl. destruct (nodeIDLocked view gl) as [gid|e].
  2: { destruct Hgl as [-> ?]. cbn. split; [by right|done]. }
  fold (allowed view cutoff chain height). set (ok := allowed _ _ _ _).
  pose proof (least_search_spec range view cutoff ok st gl sid gid range_all W Hcut Hst Hgl Hne
    (S (count_edges view.(adjacency))) 0 _ [] st (looking_init view cutoff ok st gl sid W Hst Hne scratch Hs)
    ltac:(by intros ?%elem_of_nil) eq_refl) as HL.
  destruct (search_loop _ _ _ _ _ _ _ _) as [r s']. destruct HL as [H1 H2]. split; [|done].
  assert (∀ q c, route view.(adjacency) ok q c → head q = Some st → last q = Some gl → c ≤ cutoff →
    reach (out_edges view ok) fst (extend cutoff ok) st 0 gl c) as Hreach.
  { intros [|f q] c Hr Hh Hl Hc; [done|]. injection Hh as ->.
    rewrite <-(Z.add_0_l c). by eapply route_reaches; eauto using reach_start. }
  destruct r as [[p []]|e]; cbn in *.
  - destruct H2 as (P1 & P2 & P3). split_and!; [done..|]. intros q c Hr Hh Hl.
    destruct (Z.le_gt_cases c cutoff); [by eauto|lia].
  - destruct H2 as [-> H2]. split; [done|]. intros q c Hr Hh Hl.
    destruct (Z.le_gt_cases c cutoff); [exfalso; by eapply H2; eauto|lia].
  - by destruct H2 as [-> H2].
Qed.

(** C25. The search, on any view that is well formed, with any scratch memory left by
    earlier searches and any order of ranging over the neighbours: a path it
    returns is a route through allowed nodes, without repetition, whose segments
    are the edges of the view, and no allowed route between the two blocks is
    cheaper; when it returns none every allowed route costs more than the
    cutoff; it fails only when a block is not a node, or when some edge takes
    a cost within the cutoff past 64 bits. *)
Theorem ShortestPath_least view scratch start goal cutoff chain height :
  view_wf view → scratch_ok scratch → u64 cutoff →
  canonicalKey unicode_ToLower start ≠ canonicalKey unicode_ToLower goal →
  let ok := allowed view cutoff chain height in
  let from := canonicalKey unicode_ToLower start in
  let to := canonicalKey unicode_ToLower goal in
  let '(r, scratch') :=
    ShortestPath unicode_ToLower range view scratch start goal cutoff chain height in
  scratch_ok scratch' ∧
  (∀ p, r = Ok (p, true) →
     path_ok view.(adjacency) ok from to p ∧ p.(path_Cost) ≤ cutoff ∧
     ∀ q c, route view.(adjacency) ok q c → head q = Some from → last q = Some to →
       p.(path_Cost) ≤ c) ∧
  (∀ p, r = Ok (p, false) →
     p = no_path ∧
     ∀ q c, route view.(adjacency) ok q c → head q = Some from → last q = Some to → cutoff < c) ∧
  (∀ e, r = Err e →
     (e = ErrNodeID ∧ (from ∉ view.(nodes) ∨ to ∉ view.(nodes))) ∨
     (e = ErrCostOverflow ∧
      ∃ f t edge, edge_at view.(adjacency) f t = Some edge ∧
        MaxUint64 < cutoff + edge.(edge_Weight))).
Proof.
  intros W Hs Hcut Hne. cbn zeta.
  pose proof (ShortestPath_found view scratch start goal cutoff chain height W Hs Hcut Hne) as HF.
  destruct (ShortestPath _ _ _ _ _ _ _ _ _) as [r s']. destruct HF as [HF Hs']. split; [done|].
  split_and!; intros x ->; [exact HF|exact HF|].
  destruct x; cbn in HF; try (by left); right; by destruct HF.
Qed.
End Least.

End ReplaySearch.
