(* ===== verification/ReplayCoordinator.v ===== *)
(** * Mapnode/replay: baselines, planner and coordinator

    replay_baseline.go, replay_checkpoint_policy.go (the policy, without its
    file), replay_event.go (the events), replay_planner.go, replay_coordinator.go
    and the settings of config.go.  The coordinator of one setting prices each
    event of a trace: the cost of checking the source block directly from the
    baseline of the chain, and, in the settings with the trust map, the cost of
    the best path of the view of ReplayView.v plus one update of the root.
    [Restore] applies a committed decision again without planning.

    A Go map that is ranged over is given as the list of its entries in the order
    of the iteration.  The memory of a search and the order in which it ranges
    over neighbours are arguments of [Process]; the locks are left out. *)

From S2P Require Import Prelude ReplayView Heap ReplaySearch.
Import ReplayView ReplaySearch.

Module ReplayCoordinator.

(** ** Settings *)

Abbreviation Setting := string.
Definition SettingB0 : Setting := "B0".
Definition SettingB1 : Setting := "B1".
Definition SettingB2 : Setting := "B2".
Definition SettingB3 : Setting := "B3".

Definition UsesTrustMap (setting : Setting) : bool := (setting =?= SettingB2) || (setting =?= SettingB3).
Definition UsesCheckpoint (setting : Setting) : bool := (setting =?= SettingB1) || (setting =?= SettingB3).

Definition known_setting (setting : Setting) : bool :=
  (setting =?= SettingB0) || (setting =?= SettingB1) || (setting =?= SettingB2) || (setting =?= SettingB3).

(** ** Events *)

(** The volume, a float64, is carried by its bits. *)
Record ReplayEvent := mkEvent {
  event_ID : string;
  OriginalRow : Z;
  Sequence : Z;
  event_Source : ReplayBlock;
  Destination : ReplayBlock;
  SourceTime : Z;
  BridgeName : string;
  TxCount : Z;
  VolumeUSD : Z
}.

#[export] Instance ReplayBlock_eq_dec : EqDecision ReplayBlock.
Proof. solve_decision. Defined.

#[export] Instance ReplayEvent_eq_dec : EqDecision ReplayEvent.
Proof. solve_decision. Defined.

(** ** Decisions *)

Abbreviation ReplayDecisionKind := string.
Definition ReplayDecisionDirect : ReplayDecisionKind := "direct".
Definition ReplayDecisionTrustMap : ReplayDecisionKind := "trustmap".

Record ReplayDirectEstimate := mkEstimate {
  est_BaselineBefore : Z;
  est_DirectStart : Z;
  est_DirectBlocks : Z;
  est_CheckpointConfigured : bool;
  est_CheckpointPeriod : Z;
  est_CheckpointHeight : Z;
  est_CheckpointApplied : bool;
  est_Cost : Z
}.

#[export] Instance ReplayDirectEstimate_eq_dec : EqDecision ReplayDirectEstimate.
Proof. solve_decision. Defined.

#[export] Instance ReplayPath_eq_dec : EqDecision ReplayPath.
Proof. solve_decision. Defined.

(** The fields that repeat the estimate are kept as one. *)
Record ReplayDecision := mkDecision {
  dec_EventID : string;
  dec_Sequence : Z;
  dec_Setting : Setting;
  Decision : ReplayDecisionKind;
  PlanningEnabled : bool;
  Direct : ReplayDirectEstimate;
  BaselineAfter : Z;
  PathFound : bool;
  PathCost : Z;
  TrustMapTotalCost : Z;
  ChosenCost : Z;
  dec_Path : ReplayPath;
  GraphNodes : Z;
  GraphEdges : Z;
  dec_CrossEdgesAdded : Z
}.

#[export] Instance ReplayDecision_eq_dec : EqDecision ReplayDecision.
Proof. solve_decision. Defined.

(** ** The planner *)

Record ReplayPlanChoice := mkChoice {
  UseTrustMap : bool;
  ch_PathFound : bool;
  ch_Path : ReplayPath;
  TotalCost : Z
}.

Definition choose (profile : CostProfile) (directCost : Z) (path : ReplayPath) (found : bool)
    : res error ReplayPlanChoice :=
  let choice := mkChoice false found path directCost in
  if negb found then Ok choice
  else
    total ← CheckedAdd path.(path_Cost) profile.(TrustRootUpdateCost);
    if total <? directCost then Ok (mkChoice true found path total) else Ok choice.

(** ** The state *)

Record ReplayBaselines := mkBaselines {
  initHeights : gmap string Z;
  values : gmap (string * string) Z
}.

(** Nil is the empty map. *)
Abbreviation CheckpointPolicy := (gmap string Z).

Record ReplayCoordinator := mkCoordinator {
  setting : Setting;
  profile : CostProfile;
  policy : CheckpointPolicy;
  view : ReplayTrustView;
  baselines : ReplayBaselines
}.

Section Coordinator.
Context (unicode_ToLower : string → string).
Abbreviation canonicalChain := (canonicalChain unicode_ToLower).
Abbreviation Key := (Key unicode_ToLower).
Abbreviation Activate := (Activate unicode_ToLower).
Abbreviation AddVerifiedDependency := (AddVerifiedDependency unicode_ToLower).

(** ** Checkpoints *)

Fixpoint policy_loop (periods : list (string * Z)) (canonical : CheckpointPolicy)
    : res error CheckpointPolicy :=
  match periods with
  | [] => Ok canonical
  | (chain, period) :: rest =>
      let name := canonicalChain chain in
      if name =?= "" then Err ErrCheckpoint
      else if period =? 0 then Err ErrCheckpoint
      else if bool_decide (is_Some (canonical !! name)) then Err ErrCheckpoint
      else policy_loop rest (<[name := period]> canonical)
  end.

Definition NewCheckpointPolicy (periods : list (string * Z)) : res error CheckpointPolicy :=
  policy_loop periods ∅.

Definition CheckpointHeight (policy : CheckpointPolicy) (chain : string) (originalHeight : Z)
    : option Z :=
  period ← policy !! canonicalChain chain; Some (originalHeight / period * period).

Definition Period (policy : CheckpointPolicy) (chain : string) : option Z :=
  policy !! canonicalChain chain.

Definition EffectiveWorkloadChainCount (policy : CheckpointPolicy) (chains : list string) : Z :=
  zlen (remove_dups (filter (λ name, is_Some (policy !! name)) (map canonicalChain chains))).

(** ** Baselines *)

Definition NewReplayBaselines (init : list (string * Z)) : ReplayBaselines :=
  mkBaselines (foldl (λ m '(chain, height), <[canonicalChain chain := height]> m) ∅ init) ∅.

Definition baseline_key (verifierChain targetChain : string) : string * string :=
  (canonicalChain verifierChain, canonicalChain targetChain).

(** What [Get] reads: the value, else the initial height, else zero. *)
Definition current (b : ReplayBaselines) (key : string * string) : Z :=
  match b.(values) !! key with
  | Some v => v
  | None => default 0 (b.(initHeights) !! key.2)
  end.

Definition Get (b : ReplayBaselines) (verifierChain targetChain : string) : Z * ReplayBaselines :=
  let key := baseline_key verifierChain targetChain in
  match b.(values) !! key with
  | Some value => (value, b)
  | None =>
      let value := current b key in
      (value, mkBaselines b.(initHeights) (<[key := value]> b.(values)))
  end.

Definition Advance (b : ReplayBaselines) (verifierChain targetChain : string) (height : Z)
    : Z * ReplayBaselines :=
  let key := baseline_key verifierChain targetChain in
  let now := current b key in
  let now := if now <? height then height else now in
  (now, mkBaselines b.(initHeights) (<[key := now]> b.(values))).

(** [DirectStart], and whether a checkpoint is configured and used. *)
Definition from_checkpoint (policy : CheckpointPolicy) (useCheckpoint : bool) (targetChain : string)
    (baseline targetHeight : Z) : ReplayDirectEstimate :=
  match (if useCheckpoint then Period policy targetChain else None) with
  | Some period =>
      let checkpoint := targetHeight / period * period in
      let applied := baseline <? checkpoint in
      mkEstimate baseline (if applied then checkpoint else baseline) 0 true period checkpoint
        applied 0
  | None => mkEstimate baseline baseline 0 false 0 0 false 0
  end.

Definition priced (e : ReplayDirectEstimate) (blocks cost : Z) : ReplayDirectEstimate :=
  mkEstimate e.(est_BaselineBefore) e.(est_DirectStart) blocks e.(est_CheckpointConfigured)
    e.(est_CheckpointPeriod) e.(est_CheckpointHeight) e.(est_CheckpointApplied) cost.

(** The estimate from the baseline [Get] returned. *)
Definition estimate_from (baseline : Z) (targetChain : string) (targetHeight : Z)
    (profile : CostProfile) (policy : CheckpointPolicy) (useCheckpoint : bool)
    : res error ReplayDirectEstimate :=
  if baseline <=? targetHeight then
    let estimate := from_checkpoint policy useCheckpoint targetChain baseline targetHeight in
    let blocks := targetHeight - estimate.(est_DirectStart) in
    cost ← CheckedCost blocks profile.(DirectStepCost);
    Ok (priced estimate blocks cost)
  else
    let blocks := baseline - targetHeight in
    cost ← CheckedCost blocks profile.(ReplayView.PathStepCost);
    Ok (priced (mkEstimate baseline baseline 0 false 0 0 false 0) blocks cost).

Definition EstimateDirect (b : ReplayBaselines) (verifierChain targetChain : string)
    (targetHeight : Z) (profile : CostProfile) (policy : CheckpointPolicy) (useCheckpoint : bool)
    : res error ReplayDirectEstimate * ReplayBaselines :=
  let '(baseline, b) := Get b verifierChain targetChain in
  (estimate_from baseline targetChain targetHeight profile policy useCheckpoint, b).

(** ** Operations of the coordinator

    They keep what they have changed when they fail. *)

Definition St (A : Type) : Type := ReplayCoordinator → res error A * ReplayCoordinator.

#[export] Instance St_ret : MRet St := λ A x c, (Ok x, c).
#[export] Instance St_bind : MBind St := λ A B k m c,
  match m c with
  | (Ok x, c') => k x c'
  | (Err e, c') => (Err e, c')
  end.

Definition fail {A} (e : error) : St A := λ c, (Err e, c).
Definition lift {A} (r : res error A) : St A := λ c, (r, c).
Definition state : St ReplayCoordinator := λ c, (Ok c, c).

Definition set_view (c : ReplayCoordinator) (v : ReplayTrustView) : ReplayCoordinator :=
  mkCoordinator c.(setting) c.(profile) c.(policy) v c.(baselines).

Definition set_baselines (c : ReplayCoordinator) (b : ReplayBaselines) : ReplayCoordinator :=
  mkCoordinator c.(setting) c.(profile) c.(policy) c.(view) b.

Definition on_view {A} (f : ReplayTrustView → res error A * ReplayTrustView) : St A :=
  λ c, let '(r, v) := f c.(view) in (r, set_view c v).

Definition on_baselines {A} (f : ReplayBaselines → A * ReplayBaselines) : St A :=
  λ c, let '(a, b) := f c.(baselines) in (Ok a, set_baselines c b).

Definition NewReplayCoordinator (setting : Setting) (initHeights : list (string * Z))
    (profile : CostProfile) (policy : CheckpointPolicy) : res error ReplayCoordinator :=
  if negb (known_setting setting) then Err ErrSetting
  else
    view ← NewReplayTrustView profile;
    Ok (mkCoordinator setting profile policy view (NewReplayBaselines initHeights)).

Fixpoint coordinators_loop (settings : list Setting) (initHeights : list (string * Z))
    (profile : CostProfile) (policy : CheckpointPolicy)
    (coordinators : gmap Setting ReplayCoordinator) : res error (gmap Setting ReplayCoordinator) :=
  match settings with
  | [] => Ok coordinators
  | setting :: rest =>
      if bool_decide (is_Some (coordinators !! setting)) then Err ErrDuplicateSetting
      else
        coordinator ← NewReplayCoordinator setting initHeights profile policy;
        coordinators_loop rest initHeights profile policy (<[setting := coordinator]> coordinators)
  end.

Definition NewReplayCoordinators (settings : list Setting) (initHeights : list (string * Z))
    (profile : CostProfile) (policy : CheckpointPolicy)
    : res error (gmap Setting ReplayCoordinator) :=
  coordinators_loop settings initHeights profile policy ∅.

(** The two blocks of an event become nodes. *)
Definition activate_ends (event : ReplayEvent) : St (ReplayBlockKey * ReplayBlockKey) :=
  start ← on_view (λ v, Activate v event.(Destination));
  goal ← on_view (λ v, Activate v event.(event_Source));
  mret (start, goal).

Definition estimate_direct (event : ReplayEvent) : St ReplayDirectEstimate :=
  c ← state;
  r ← on_baselines (λ b,
    EstimateDirect b event.(Destination).(block_Chain) event.(event_Source).(block_Chain)
      event.(event_Source).(OriginalHeight) c.(profile) c.(policy) (UsesCheckpoint c.(setting)));
  lift r.

Definition advance (event : ReplayEvent) : St Z :=
  on_baselines (λ b,
    Advance b event.(Destination).(block_Chain) event.(event_Source).(block_Chain)
      event.(event_Source).(OriginalHeight)).

Definition add_dependency (event : ReplayEvent) : St ReplayVerifiedDependencyEdge :=
  on_view (λ v, AddVerifiedDependency v event.(Destination) event.(event_Source)).

Section Planning.
Context (range : nat → gmap ReplayBlockKey ReplayEdge → list (ReplayBlockKey * ReplayEdge)).
Context (scratch : replaySearchScratch).

Definition Plan (profile : CostProfile) (view : ReplayTrustView) (start goal : ReplayBlockKey)
    (directCost : Z) : res error ReplayPlanChoice :=
  if directCost <=? profile.(TrustRootUpdateCost) then Ok (mkChoice false false no_path directCost)
  else
    let cutoff := directCost - profile.(TrustRootUpdateCost) in
    '(path, found) ←
      (ShortestPath unicode_ToLower range view scratch start goal cutoff goal.(key_Chain)
         goal.(key_Height)).1;
    choose profile directCost path found.

(** The decision before the counters are read. *)
Definition decide_on (c : ReplayCoordinator) (event : ReplayEvent) (start goal : ReplayBlockKey)
    (estimate : ReplayDirectEstimate) : res error ReplayDecision :=
  let result := λ kind found pathCost total chosen path,
    mkDecision event.(event_ID) event.(Sequence) c.(setting) kind (UsesTrustMap c.(setting)) estimate
      0 found pathCost total chosen path 0 0 0 in
  if UsesTrustMap c.(setting) then
    choice ← Plan c.(profile) c.(view) start goal estimate.(est_Cost);
    '(pathCost, total) ←
      (if choice.(ch_PathFound) then
         total ← CheckedAdd choice.(ch_Path).(path_Cost) c.(profile).(TrustRootUpdateCost);
         Ok (choice.(ch_Path).(path_Cost), total)
       else Ok (0, 0));
    if choice.(UseTrustMap)
    then Ok (result ReplayDecisionTrustMap choice.(ch_PathFound) pathCost total choice.(TotalCost)
               choice.(ch_Path))
    else Ok (result ReplayDecisionDirect choice.(ch_PathFound) pathCost total estimate.(est_Cost)
               choice.(ch_Path))
  else Ok (result ReplayDecisionDirect false 0 0 estimate.(est_Cost) no_path).

Definition finished (d : ReplayDecision) (after nodes edges cross : Z) : ReplayDecision :=
  mkDecision d.(dec_EventID) d.(dec_Sequence) d.(dec_Setting) d.(Decision) d.(PlanningEnabled)
    d.(Direct) after d.(PathFound) d.(PathCost) d.(TrustMapTotalCost) d.(ChosenCost) d.(dec_Path)
    nodes edges cross.

Definition Process (event : ReplayEvent) : St ReplayDecision :=
  c ← state;
  '(start, goal) ←
    (if UsesTrustMap c.(setting) then activate_ends event
     else mret (Key event.(Destination), Key event.(event_Source)));
  estimate ← estimate_direct event;
  c ← state;
  result ← lift (decide_on c event start goal estimate);
  after ← advance event;
  if result.(PlanningEnabled) then
    _ ← add_dependency event;
    c ← state;
    mret (finished result after (NodeCount c.(view)) (EdgeCount c.(view)) (CrossEdgesAdded c.(view)))
  else mret (finished result after 0 0 0).
End Planning.

(** ** Restore *)

Fixpoint check_segments (v : ReplayTrustView) (nodes : list ReplayBlockKey)
    (segments : list ReplayPathSegment) (pathCost : Z) : res error Z :=
  match segments with
  | [] => Ok pathCost
  | segment :: rest =>
      match nodes with
      | from :: ((to :: _) as nodes') =>
          if (segment.(seg_From) ≠?= from) || (segment.(seg_To) ≠?= to)
          then Err (ErrRestore "path segment")
          else
            match Edge unicode_ToLower v segment.(seg_From) segment.(seg_To) with
            | None => Err (ErrRestore "path edge")
            | Some edge =>
                if (edge.(edge_Kind) ≠?= segment.(seg_Kind))
                   || negb (edge.(edge_Weight) =? segment.(seg_Weight))
                then Err (ErrRestore "path edge")
                else
                  match CheckedAdd pathCost segment.(seg_Weight) with
                  | Err _ => Err (ErrRestore "path cost overflow")
                  | Ok pathCost => check_segments v nodes' rest pathCost
                  end
            end
      | _ => Err (ErrRestore "path segment")
      end
  end.

Definition check_path (c : ReplayCoordinator) (event : ReplayEvent) (decision : ReplayDecision)
    : res error unit :=
  let path := decision.(dec_Path) in
  if (zlen path.(path_Nodes) =? 0) || negb (zlen path.(Segments) + 1 =? zlen path.(path_Nodes))
     || (head path.(path_Nodes) ≠?= Some (Key event.(Destination)))
     || (last path.(path_Nodes) ≠?= Some (Key event.(event_Source)))
  then Err (ErrRestore "path endpoints")
  else
    pathCost ← check_segments c.(view) path.(path_Nodes) path.(Segments) 0;
    if negb (path.(path_Cost) =? pathCost) || negb (decision.(PathCost) =? pathCost)
    then Err (ErrRestore "path cost")
    else
      match CheckedAdd pathCost c.(profile).(TrustRootUpdateCost) with
      | Err _ => Err (ErrRestore "TrustMap total")
      | Ok total =>
          let direct := decision.(Direct).(est_Cost) in
          if negb (decision.(TrustMapTotalCost) =? total) then Err (ErrRestore "TrustMap total")
          else if decision.(Decision) =?= ReplayDecisionTrustMap then
            if (direct <=? total) || negb (decision.(ChosenCost) =? total)
            then Err (ErrRestore "TrustMap selection") else Ok tt
          else if (total <? direct) || negb (decision.(ChosenCost) =? direct)
          then Err (ErrRestore "Direct selection")
          else Ok tt
      end.

(** A decision without a path. *)
Definition no_path_decision (decision : ReplayDecision) : bool :=
  (decision.(Decision) =?= ReplayDecisionDirect)
  && (decision.(ChosenCost) =? decision.(Direct).(est_Cost))
  && (decision.(PathCost) =? 0) && (decision.(TrustMapTotalCost) =? 0)
  && (zlen decision.(dec_Path).(path_Nodes) =? 0) && (zlen decision.(dec_Path).(Segments) =? 0).

Definition validateRestoredDecision (c : ReplayCoordinator) (event : ReplayEvent)
    (decision : ReplayDecision) (estimate : ReplayDirectEstimate) : res error unit :=
  if negb (Bool.eqb decision.(PlanningEnabled) (UsesTrustMap c.(setting)))
  then Err (ErrRestore "planning mode")
  else if decision.(Direct) ≠?= estimate then Err (ErrRestore "direct estimate")
  else
    let before := decision.(Direct).(est_BaselineBefore) in
    let height := event.(event_Source).(OriginalHeight) in
    let expectedAfter := if before <? height then height else before in
    if negb (decision.(BaselineAfter) =? expectedAfter) then Err (ErrRestore "baseline after")
    else if negb decision.(PlanningEnabled) then
      if negb (no_path_decision decision) || decision.(PathFound)
      then Err (ErrRestore "baseline-only result") else Ok tt
    else if (decision.(Decision) ≠?= ReplayDecisionDirect)
            && (decision.(Decision) ≠?= ReplayDecisionTrustMap)
    then Err (ErrRestore "kind")
    else if negb decision.(PathFound) then
      if negb (no_path_decision decision) then Err (ErrRestore "missing path") else Ok tt
    else check_path c event decision.

Definition counters_match (v : ReplayTrustView) (decision : ReplayDecision) : bool :=
  (NodeCount v =? decision.(GraphNodes)) && (EdgeCount v =? decision.(GraphEdges))
  && (CrossEdgesAdded v =? decision.(dec_CrossEdgesAdded)).

Definition Restore (event : ReplayEvent) (decision : ReplayDecision) : St unit :=
  c ← state;
  if (decision.(dec_EventID) ≠?= event.(event_ID)) || negb (decision.(dec_Sequence) =? event.(Sequence))
     || (decision.(dec_Setting) ≠?= c.(setting))
  then fail (ErrRestore "identity")
  else
    _ ← (if UsesTrustMap c.(setting) then
           _ ← activate_ends event; mret tt
         else mret tt);
    baseline ← on_baselines (λ b,
      Get b event.(Destination).(block_Chain) event.(event_Source).(block_Chain));
    if negb (baseline =? decision.(Direct).(est_BaselineBefore))
    then fail (ErrRestore "baseline before")
    else
      estimate ← estimate_direct event;
      c ← state;
      _ ← lift (validateRestoredDecision c event decision estimate);
      after ← advance event;
      if negb (after =? decision.(BaselineAfter)) then fail (ErrRestore "baseline after")
      else
        _ ← (if UsesTrustMap c.(setting) then
               _ ← add_dependency event; mret tt
             else mret tt);
        c ← state;
        if counters_match c.(view) decision then mret tt else fail (ErrRestore "counters").
End Coordinator.

(** ** Lemmas: baselines *)

Lemma Get_current ul b v t :
  (Get ul b v t).1 = current b (baseline_key ul v t) ∧
  current (Get ul b v t).2 (baseline_key ul v t) = current b (baseline_key ul v t).
Proof.
  unfold Get. destruct (b.(values) !! _) as [x|] eqn:Hx; cbn; (split; [|unfold current; cbn]).
  - unfold current. by rewrite Hx.
  - done.
  - done.
  - by rewrite lookup_insert_eq.
Qed.

Lemma Get_again ul b v t : Get ul (Get ul b v t).2 v t = ((Get ul b v t).1, (Get ul b v t).2).
Proof.
  unfold Get at 2 3 4. destruct (b.(values) !! _) as [x|] eqn:Hx; cbn.
  - unfold Get. by rewrite Hx.
  - unfold Get. cbn. by rewrite lookup_insert_eq.
Qed.

(** The baselines after an event. *)
Definition advanced (ul : string → string) (b : ReplayBaselines) (v t : string) (height : Z)
    : ReplayBaselines :=
  mkBaselines b.(initHeights)
    (<[baseline_key ul v t := Z.max (current b (baseline_key ul v t)) height]> b.(values)).

Lemma Advance_Get ul b v t height :
  Advance ul (Get ul b v t).2 v t height =
  (Z.max (current b (baseline_key ul v t)) height, advanced ul b v t height).
Proof.
  destruct (Get_current ul b v t) as [_ Hc]. unfold Advance. rewrite Hc.
  assert ((if current b (baseline_key ul v t) <? height then height
           else current b (baseline_key ul v t))
          = Z.max (current b (baseline_key ul v t)) height) as ->.
  { destruct (Z.ltb_spec (current b (baseline_key ul v t)) height); lia. }
  f_equal. unfold advanced, Get. destruct (b.(values) !! _); cbn; [done|]. f_equal. apply insert_insert_eq.
Qed.

(** ** Lemmas: the state *)

Section Coordinating.
Context (ul : string → string).

Record coordinator_ok (c : ReplayCoordinator) : Prop := {
  co_view : view_wf c.(view);
  co_profile : c.(view).(view_profile) = c.(profile);
  co_policy chain period : c.(policy) !! chain = Some period → 0 < period;
  co_canonical k : k ∈ c.(view).(nodes) → canonicalKey ul k = k;
  co_direct : UsesTrustMap c.(setting) = false →
    c.(view).(nodes) = ∅ ∧ c.(view).(edgeCount) = 0 ∧ c.(view).(crossEdgesAdded) = 0
}.

(** The names of a prepared event are canonical. *)
Definition event_canonical (event : ReplayEvent) : Prop :=
  canonicalChain ul event.(Destination).(block_Chain) = event.(Destination).(block_Chain) ∧
  canonicalChain ul event.(event_Source).(block_Chain) = event.(event_Source).(block_Chain).

Lemma Key_canonical b :
  canonicalChain ul b.(block_Chain) = b.(block_Chain) → canonicalKey ul (Key ul b) = Key ul b.
Proof. intros H. unfold canonicalKey, Key. cbn. by rewrite !H. Qed.

Lemma policy_loop_ok periods : ∀ p q,
  (∀ c n, (c, n) ∈ periods → 0 ≤ n) → (∀ c n, p !! c = Some n → 0 < n) →
  policy_loop ul periods p = Ok q → ∀ c n, q !! c = Some n → 0 < n.
Proof.
  induction periods as [|[c n] periods IH]; intros p q Hn Hp; cbn [policy_loop].
  { by intros [= <-]. }
  case_bool_decide; [done|]. destruct (Z.eqb_spec n 0) as [|Hz]; [done|].
  case_bool_decide; [done|]. apply IH.
  - intros c' n' H'. apply (Hn c'). by right.
  - intros c' n'. intros [[<- <-]|[_ H']]%lookup_insert_Some; [|eauto].
    specialize (Hn c n ltac:(left)). lia.
Qed.

Lemma new_coordinator_ok s init pr po c :
  profile_ok pr → (∀ chain period, po !! chain = Some period → 0 < period) →
  NewReplayCoordinator ul s init pr po = Ok c → coordinator_ok c.
Proof.
  unfold NewReplayCoordinator. intros Hpr Hpo. destruct (known_setting s); [|done].
  cbn [negb]. intros (v & Hv & [= <-])%bind_Ok. pose proof (new_view_wf pr v Hpr Hv) as Hw.
  apply bind_Ok in Hv as ([] & _ & [= <-]). split; cbn; try done.
Qed.

(** Views that hold canonical names only, and the step of one activation. *)
Record grown (c : ReplayCoordinator) (v : ReplayTrustView) : Prop := {
  gr_ok : UsesTrustMap c.(setting) = true → coordinator_ok (set_view c v);
  gr_nodes : c.(view).(nodes) ⊆ v.(nodes)
}.

Lemma Activate_grown c b :
  coordinator_ok c → canonicalChain ul b.(block_Chain) = b.(block_Chain) →
  grown c (Activate ul c.(view) b).2 ∧
  ∀ k, (Activate ul c.(view) b).1 = Ok k →
    k = Key ul b ∧ Key ul b ∈ (Activate ul c.(view) b).2.(nodes).
Proof.
  intros C Hb. pose proof (Activate_spec ul c.(view) b (co_view _ C)) as A.
  destruct (Activate ul c.(view) b) as [r v]; cbn in *. split; [split|].
  - intros HT. split; cbn; try apply C.
    + apply A.
    + rewrite (ac_profile _ _ _ _ _ A). apply C.
    + intros k Hk. destruct r as [k'|e].
      * destruct (ac_result _ _ _ _ _ A k' eq_refl) as [-> Hn]. rewrite Hn in Hk.
        apply elem_of_union in Hk as [->%elem_of_singleton|Hk]; [by apply Key_canonical|by apply C].
      * destruct (ac_error _ _ _ _ _ A e eq_refl) as [Hn _]. rewrite Hn in Hk. by apply C.
    + congruence.
  - apply A.
  - intros k ->. destruct (ac_result _ _ _ _ _ A k eq_refl) as [-> Hn]. split; [done|].
    rewrite Hn. set_solver.
Qed.

Lemma activate_ends_eq c event :
  activate_ends ul event c =
  match Activate ul c.(view) event.(Destination) with
  | (Err e, v) => (Err e, set_view c v)
  | (Ok start, v) =>
      match Activate ul v event.(event_Source) with
      | (Err e, v) => (Err e, set_view c v)
      | (Ok goal, v) => (Ok (start, goal), set_view c v)
      end
  end.
Proof.
  unfold activate_ends, mbind, St_bind, on_view.
  destruct (Activate ul c.(view) event.(Destination)) as [[k|e] v]; [|done].
  change (view (set_view c v)) with v.
  by destruct (Activate ul v event.(event_Source)) as [[k2|e] v2].
Qed.

(** What activating the ends of an event does. *)
Lemma activate_ends_spec c event :
  coordinator_ok c → event_canonical event → UsesTrustMap c.(setting) = true →
  ∃ v, (activate_ends ul event c).2 = set_view c v ∧ coordinator_ok (set_view c v) ∧
    ∀ r, (activate_ends ul event c).1 = Ok r →
       r = (Key ul event.(Destination), Key ul event.(event_Source)) ∧
       Key ul event.(Destination) ∈ v.(nodes) ∧ Key ul event.(event_Source) ∈ v.(nodes).
Proof.
  intros C [Hd Hs] HT.
  destruct (Activate_grown c event.(Destination) C Hd) as [G1 R1].
  rewrite activate_ends_eq.
  destruct (Activate ul c.(view) event.(Destination)) as [[k1|e] v1]; cbn in *.
  2: { exists v1. split_and!; [done|by apply G1|done]. }
  destruct (R1 k1 eq_refl) as [-> K1].
  destruct (Activate_grown (set_view c v1) event.(event_Source) (gr_ok _ _ G1 HT) Hs) as [G2 R2].
  cbn in *.
  destruct (Activate ul v1 event.(event_Source)) as [[k2|e] v2]; cbn in *.
  2: { exists v2. split_and!; [done|by apply G2|done]. }
  destruct (R2 k2 eq_refl) as [-> K2]. exists v2. split_and!; [done|by apply G2|].
  intros r [= <-]. split; [done|]. split; [|done]. by apply (gr_nodes _ _ G2).
Qed.

Lemma estimate_from_Ok baseline chain height pr po use e :
  (∀ c p, po !! c = Some p → 0 < p) →
  0 ≤ pr.(DirectStepCost) → 0 ≤ pr.(PathStepCost) →
  estimate_from ul baseline chain height pr po use = Ok e →
  e.(est_BaselineBefore) = baseline ∧ 0 ≤ e.(est_Cost) ≤ MaxUint64 ∧ 0 ≤ e.(est_DirectBlocks) ∧
  e.(est_Cost) = e.(est_DirectBlocks) *
    (if decide (baseline ≤ height) then pr.(DirectStepCost) else pr.(PathStepCost)) ∧
  e.(est_DirectBlocks) =
    (if decide (baseline ≤ height) then
       height - Z.max baseline
         (match (if use then Period ul po chain else None) with
          | Some p => height / p * p
          | None => baseline
          end)
     else baseline - height).
Proof.
  intros Hpo Hd Hp. unfold estimate_from. destruct (Z.leb_spec baseline height) as [Hle|Hlt].
  - rewrite !decide_True by lia. intros (cost & Hc & [= <-])%bind_Ok. cbn.
    unfold from_checkpoint in *.
    destruct (if use then Period ul po chain else None) as [p|] eqn:HP; cbn in *.
    + assert (0 < p) as Hpos by (destruct use; [by eapply Hpo|done]).
      pose proof (Z.mul_div_le height p Hpos) as Hm.
      assert (height / p * p ≤ height) as Hm' by lia.
      assert ((if baseline <? height / p * p then height / p * p else baseline)
        = Z.max baseline (height / p * p)) as Hmax.
      { destruct (Z.ltb_spec baseline (height / p * p)); lia. }
      rewrite Hmax in *. apply CheckedCost_Ok in Hc as [-> Hc]; [|lia|done].
      split_and!; [done|nia|done|lia|done|done].
    + apply CheckedCost_Ok in Hc as [-> Hc]; [|lia|done].
      split_and!; [done|nia|done|lia|done|lia].
  - rewrite !decide_False by lia. intros (cost & Hc & [= <-])%bind_Ok. cbn.
    apply CheckedCost_Ok in Hc as [-> Hc]; [|lia|done]. split_and!; [done|nia|done|lia|done|done].
Qed.

(** ** Lemmas: the decision *)

Definition anywhere : ReplayBlockKey → bool := λ _, true.

Lemma route_anywhere a ok q c : route a ok q c → route a anywhere q c.
Proof. induction 1; by constructor. Qed.

Lemma path_anywhere a ok start goal p : path_ok a ok start goal p → path_ok a anywhere start goal p.
Proof. intros []. split; try done. by eapply route_anywhere. Qed.

Lemma route_nonneg v ok q c : view_wf v → route v.(adjacency) ok q c → 0 ≤ c.
Proof.
  intros W. induction 1 as [|f t q e c Hf He Hr IH]; [done|].
  pose proof (vw_edge _ W _ _ _ He) as (_ & _ & Hw & _). lia.
Qed.

(** The routes the planner looks at when checking directly costs [direct]. *)
Definition offered (v : ReplayTrustView) (start goal : ReplayBlockKey) (direct : Z)
    (q : list ReplayBlockKey) (c : Z) : Prop :=
  route v.(adjacency)
    (allowed ul v (direct - v.(view_profile).(TrustRootUpdateCost)) goal.(key_Chain) goal.(key_Height))
    q c ∧ head q = Some start ∧ last q = Some goal.

(** The decision of an event with a trust map. *)
Record decided (v : ReplayTrustView) (start goal : ReplayBlockKey) (d : ReplayDecision) : Prop := {
  de_kind : d.(Decision) =
    (if d.(PathFound) && (d.(TrustMapTotalCost) <? d.(Direct).(est_Cost))
     then ReplayDecisionTrustMap else ReplayDecisionDirect);
  de_chosen : d.(ChosenCost) =
    (if d.(PathFound) then Z.min d.(TrustMapTotalCost) d.(Direct).(est_Cost)
     else d.(Direct).(est_Cost));
  de_found : d.(PathFound) = true →
    path_ok v.(adjacency) anywhere start goal d.(dec_Path) ∧
    d.(PathCost) = d.(dec_Path).(path_Cost) ∧
    d.(TrustMapTotalCost) = d.(PathCost) + v.(view_profile).(TrustRootUpdateCost) ∧
    d.(TrustMapTotalCost) ≤ d.(Direct).(est_Cost) ∧
    ∀ q c, offered v start goal d.(Direct).(est_Cost) q c → d.(PathCost) ≤ c;
  de_missing : d.(PathFound) = false →
    d.(dec_Path) = no_path ∧ d.(PathCost) = 0 ∧ d.(TrustMapTotalCost) = 0 ∧
    ∀ q c, offered v start goal d.(Direct).(est_Cost) q c →
      d.(Direct).(est_Cost) ≤ c + v.(view_profile).(TrustRootUpdateCost)
}.

Section Deciding.
Context (range : nat → gmap ReplayBlockKey ReplayEdge → list (ReplayBlockKey * ReplayEdge)).
Context (scratch : replaySearchScratch).
Hypothesis range_all : ∀ n m, range n m ≡ₚ map_to_list m.
Hypothesis scratch_good : scratch_ok scratch.

(** What the search gives below the cutoff. *)
Lemma search_least v start goal cutoff p found :
  view_wf v → u64 cutoff → canonicalKey ul start = start → canonicalKey ul goal = goal →
  (ShortestPath ul range v scratch start goal cutoff goal.(key_Chain) goal.(key_Height)).1
    = Ok (p, found) →
  let ok := allowed ul v cutoff goal.(key_Chain) goal.(key_Height) in
  if found then
    path_ok v.(adjacency) anywhere start goal p ∧ 0 ≤ p.(path_Cost) ≤ cutoff ∧
    ∀ q c, route v.(adjacency) ok q c → head q = Some start → last q = Some goal → p.(path_Cost) ≤ c
  else p = no_path ∧
    ∀ q c, route v.(adjacency) ok q c → head q = Some start → last q = Some goal → cutoff < c.
Proof.
  intros W Hc Hs Hg HP. cbn zeta. destruct (decide (start = goal)) as [<-|Hne].
  - unfold ShortestPath in HP. rewrite Hs, bool_decide_eq_true_2 in HP by done.
    injection HP as <- <-. cbn. split_and!.
    + split; cbn; try done; [by constructor|apply NoDup_singleton].
    + done.
    + apply Hc.
    + intros q c Hr _ _. by eapply route_nonneg.
  - pose proof (ShortestPath_found ul range range_all v scratch start goal cutoff
      goal.(key_Chain) goal.(key_Height) W scratch_good Hc ltac:(congruence)) as HF.
    destruct (ShortestPath _ _ _ _ _ _ _ _ _) as [r s']. cbn in HP. subst r.
    destruct HF as [HF _]. cbn in HF. rewrite Hs, Hg in HF. destruct found.
    + destruct HF as (H1 & H2 & H3). split_and!; [by eapply path_anywhere| |done|done].
      eapply route_nonneg; [done|apply H1].
    + done.
Qed.

Lemma decide_on_spec c event start goal est r :
  coordinator_ok c → UsesTrustMap c.(setting) = true → u64 est.(est_Cost) →
  canonicalKey ul start = start → canonicalKey ul goal = goal →
  decide_on ul range scratch c event start goal est = Ok r →
  decided c.(view) start goal r ∧ r.(Direct) = est ∧ r.(PlanningEnabled) = true ∧
  r.(dec_EventID) = event.(event_ID) ∧ r.(dec_Sequence) = event.(Sequence) ∧
  r.(dec_Setting) = c.(setting).
Proof.
  intros C HT [Hest0 Hest] Hs Hg. unfold decide_on. rewrite HT. unfold Plan.
  pose proof (vw_profile _ (co_view _ C)) as (_ & _ & Hu). rewrite <-(co_profile _ C).
  set (upd := TrustRootUpdateCost _) in *.
  destruct (Z.leb_spec est.(est_Cost) upd) as [Hle|Hgt].
  { cbn. intros [= <-]. split_and!; try done. split; cbn; try done.
    intros _. split_and!; [done..|]. intros q c' (R1 & _).
    pose proof (route_nonneg _ _ _ _ (co_view _ C) R1). fold upd. lia. }
  intros (ch & ([p found] & HP & HC)%bind_Ok & Hr)%bind_Ok.
  assert (u64 (est.(est_Cost) - upd)) as Hcut by (unfold u64 in *; lia).
  pose proof (search_least _ _ _ _ _ _ (co_view _ C) Hcut Hs Hg HP) as HL. cbn zeta in HL.
  destruct found.
  - destruct HL as (H1 & H2 & H3). cbn [choose negb] in HC. unfold choose in HC. cbn [negb] in HC.
    fold upd in HC. apply bind_Ok in HC as (total & HA & HC).
    apply CheckedAdd_Ok in HA as [-> HA].
    assert (CheckedAdd p.(path_Cost) upd = Ok (p.(path_Cost) + upd)) as HA'
      by (by apply CheckedAdd_Ok).
    destruct (Z.ltb_spec (p.(path_Cost) + upd) est.(est_Cost)) as [Hlt|Hge]; injection HC as <-;
      cbn in Hr; fold upd in Hr; rewrite HA' in Hr; cbn in Hr; injection Hr as <-;
      (split_and!; [|done..]); split; cbn; try done.
    + by rewrite (proj2 (Z.ltb_lt _ _) Hlt).
    + lia.
    + intros _. fold upd. split_and!; [done|done|done|lia|]. by intros q c' (R1 & R2 & R3); eauto.
    + by rewrite (proj2 (Z.ltb_ge _ _) Hge).
    + lia.
    + intros _. fold upd. split_and!; [done|done|done|lia|]. by intros q c' (R1 & R2 & R3); eauto.
  - destruct HL as [-> HL]. injection HC as <-. cbn in Hr. injection Hr as <-.
    split_and!; try done. split; cbn; try done. intros _. split_and!; [done..|].
    intros q c' (R1 & R2 & R3). fold upd. specialize (HL q c' R1 R2 R3). lia.
Qed.

(** ** One event *)

(** The effects of an event on a coordinator, as [Process] and [Restore] both
    have them: the view with the two blocks, the estimate, the baselines, and
    the view with the dependency. *)
Record stepped (c : ReplayCoordinator) (event : ReplayEvent) (v1 v2 : ReplayTrustView)
    (est : ReplayDirectEstimate) (c' : ReplayCoordinator) : Prop := {
  st_ends : if UsesTrustMap c.(setting)
    then activate_ends ul event c =
         (Ok (Key ul event.(Destination), Key ul event.(event_Source)), set_view c v1)
    else v1 = c.(view);
  st_ok : coordinator_ok (set_view c v1);
  st_estimate : estimate_from ul
    (current c.(baselines) (baseline_key ul event.(Destination).(block_Chain) event.(event_Source).(block_Chain)))
    event.(event_Source).(block_Chain) event.(event_Source).(OriginalHeight) c.(profile) c.(policy)
    (UsesCheckpoint c.(setting)) = Ok est;
  st_dependency : if UsesTrustMap c.(setting)
    then ∃ e, AddVerifiedDependency ul v1 event.(Destination) event.(event_Source) = (Ok e, v2)
    else v2 = v1;
  st_state : c' = set_baselines (set_view c v2)
    (advanced ul c.(baselines) event.(Destination).(block_Chain) event.(event_Source).(block_Chain)
       event.(event_Source).(OriginalHeight))
}.

(** What [Process] answers. *)
Definition answered (c : ReplayCoordinator) (event : ReplayEvent) (v1 v2 : ReplayTrustView)
    (est : ReplayDirectEstimate) (d : ReplayDecision) : Prop :=
  ∃ r, decide_on ul range scratch (set_view c v1) event (Key ul event.(Destination))
         (Key ul event.(event_Source)) est = Ok r ∧
    d = finished r (Z.max est.(est_BaselineBefore) event.(event_Source).(OriginalHeight))
          (if UsesTrustMap c.(setting) then NodeCount v2 else 0)
          (if UsesTrustMap c.(setting) then EdgeCount v2 else 0)
          (if UsesTrustMap c.(setting) then CrossEdgesAdded v2 else 0).

Lemma St_bind_Ok {A B} (m : St A) (k : A → St B) c y c' :
  (m ≫= k) c = (Ok y, c') ↔ ∃ x c1, m c = (Ok x, c1) ∧ k x c1 = (Ok y, c').
Proof.
  unfold mbind, St_bind. destruct (m c) as [[x|e] c1]; [|naive_solver].
  split; [eauto|]. by intros (? & ? & [= <- <-] & ?).
Qed.

(** The estimate leaves what [Get] leaves. *)
Lemma estimate_direct_eq event c :
  estimate_direct ul event c =
  (estimate_from ul
     (current c.(baselines) (baseline_key ul event.(Destination).(block_Chain) event.(event_Source).(block_Chain)))
     event.(event_Source).(block_Chain) event.(event_Source).(OriginalHeight) c.(profile) c.(policy)
     (UsesCheckpoint c.(setting)),
   set_baselines c (Get ul c.(baselines) event.(Destination).(block_Chain) event.(event_Source).(block_Chain)).2).
Proof.
  unfold estimate_direct, mbind, St_bind, state, on_baselines, EstimateDirect, lift.
  destruct (Get_current ul c.(baselines) event.(Destination).(block_Chain) event.(event_Source).(block_Chain))
    as [H _].
  destruct (Get _ _ _ _) as [x b]; cbn in *. by subst x.
Qed.

Lemma advance_eq event c b :
  c.(baselines) = (Get ul b event.(Destination).(block_Chain) event.(event_Source).(block_Chain)).2 →
  advance ul event c =
  (Ok (Z.max (current b (baseline_key ul event.(Destination).(block_Chain) event.(event_Source).(block_Chain)))
        event.(event_Source).(OriginalHeight)),
   set_baselines c (advanced ul b event.(Destination).(block_Chain) event.(event_Source).(block_Chain)
     event.(event_Source).(OriginalHeight))).
Proof. intros H. unfold advance, on_baselines. rewrite H, Advance_Get. done. Qed.

Lemma planning_enabled c event start goal est r :
  decide_on ul range scratch c event start goal est = Ok r →
  r.(PlanningEnabled) = UsesTrustMap c.(setting).
Proof.
  unfold decide_on. destruct (UsesTrustMap c.(setting)); [|by intros [= <-]].
  intros (ch & _ & ([pc t] & _ & H)%bind_Ok)%bind_Ok. destruct (UseTrustMap ch); by injection H as <-.
Qed.

Lemma ends_step c event start goal c1 :
  coordinator_ok c → event_canonical event →
  (if UsesTrustMap c.(setting) then activate_ends ul event
   else mret (Key ul event.(Destination), Key ul event.(event_Source))) c = (Ok (start, goal), c1) →
  ∃ v1, c1 = set_view c v1 ∧ coordinator_ok (set_view c v1) ∧
    start = Key ul event.(Destination) ∧ goal = Key ul event.(event_Source) ∧
    if UsesTrustMap c.(setting)
    then activate_ends ul event c =
         (Ok (Key ul event.(Destination), Key ul event.(event_Source)), set_view c v1)
    else v1 = c.(view).
Proof.
  intros C HC HE. destruct (UsesTrustMap c.(setting)) eqn:HT.
  - destruct (activate_ends_spec c event C HC HT) as (v1 & Hv & Hok & Hr). rewrite HE in Hv, Hr.
    cbn in Hv. subst c1. destruct (Hr _ eq_refl) as ([= -> ->] & _).
    exists v1. split_and!; [done|done|done|done|exact HE].
  - injection HE as <- <- <-. exists c.(view).
    assert (set_view c c.(view) = c) as -> by by destruct c. done.
Qed.

Lemma Process_stepped c event d c' :
  coordinator_ok c → event_canonical event →
  Process ul range scratch event c = (Ok d, c') →
  ∃ v1 v2 est, stepped c event v1 v2 est c' ∧ answered c event v1 v2 est d.
Proof.
  intros C HC HP. unfold Process in HP.
  apply St_bind_Ok in HP as (c0 & c1 & [= -> ->] & HP).
  apply St_bind_Ok in HP as ([start goal] & c1' & HE & HP).
  destruct (ends_step _ _ _ _ _ C HC HE) as (v1 & -> & CV & -> & -> & Hends).
  apply St_bind_Ok in HP as (est & c2 & HX & HP). rewrite estimate_direct_eq in HX.
  injection HX as HX <-. apply St_bind_Ok in HP as (c0 & c2 & [= <- <-] & HP).
  apply St_bind_Ok in HP as (r & c2 & [= Hr <-] & HP).
  pose proof (planning_enabled _ _ _ _ _ _ Hr) as Hpe. cbn in Hpe.
  apply St_bind_Ok in HP as (after & c3 & HA & HP).
  erewrite advance_eq in HA by done. injection HA as <- <-. rewrite Hpe in HP.
  pose proof (vw_profile _ (co_view _ C)) as (Hd1 & Hd2 & Hd3).
  rewrite (co_profile _ C) in Hd1, Hd2, Hd3.
  assert (est.(est_BaselineBefore) = current c1.(baselines)
    (baseline_key ul event.(Destination).(block_Chain) event.(event_Source).(block_Chain))) as Hb.
  { eapply estimate_from_Ok in HX; [by destruct HX|by eapply C|lia|lia]. }
  destruct (UsesTrustMap c1.(setting)) eqn:HT.
  - apply St_bind_Ok in HP as (e & c4 & HV & HP). unfold add_dependency, on_view in HV. cbn in HV.
    destruct (AddVerifiedDependency ul v1 _ _) as [re v2] eqn:HD. injection HV as -> <-.
    apply St_bind_Ok in HP as (c0 & c4 & [= <- <-] & [= <- <-]).
    exists v1, v2, est. split; [split|].
    + by rewrite HT.
    + done.
    + done.
    + rewrite HT. by exists e.
    + done.
    + exists r. split; [exact Hr|]. rewrite HT. cbn. by rewrite Hb.
  - injection HP as <- <-. exists v1, v1, est. split; [split|].
    + by rewrite HT.
    + done.
    + done.
    + by rewrite HT.
    + done.
    + exists r. split; [exact Hr|]. rewrite HT. cbn. by rewrite Hb.
Qed.

(** ** The checks of a committed decision pass *)

Lemma check_segments_ok v ok path c : ∀ segments acc,
  view_wf v → (∀ k, k ∈ v.(nodes) → canonicalKey ul k = k) →
  route v.(adjacency) ok path c → S (length segments) = length path →
  (∀ i s, segments !! i = Some s →
     path !! i = Some s.(seg_From) ∧ path !! S i = Some s.(seg_To) ∧
     edge_at v.(adjacency) s.(seg_From) s.(seg_To) = Some (mkEdge s.(seg_Kind) s.(seg_Weight))) →
  acc + c ≤ MaxUint64 → check_segments ul v path segments acc = Ok (acc + c).
Proof.
  intros segments acc W Hcan Hr. revert segments acc.
  induction Hr as [k Hk|f t p e c Hf He Hr IH]; intros segments acc Hlen Hseg Hmax.
  - destruct segments; [|done]. cbn. f_equal. lia.
  - destruct segments as [|s segments]; [done|]. cbn in Hlen.
    destruct (Hseg 0%nat s eq_refl) as ([= Hfrom] & [= Hto] & Hedge).
    pose proof (vw_edge _ W _ _ _ He) as (Hn1 & Hn2 & _).
    pose proof (route_nonneg _ _ _ _ W Hr) as Hc0.
    assert (mkEdge s.(seg_Kind) s.(seg_Weight) = e) as Hee by congruence. subst e. cbn in *.
    cbn [check_segments]. rewrite <-Hfrom, <-Hto, !bool_decide_eq_true_2 by done. cbn [negb orb].
    unfold Edge. rewrite !Hcan, He by done. cbn [edge_Kind edge_Weight].
    rewrite bool_decide_eq_true_2, Z.eqb_refl by done. cbn [negb orb].
    rewrite CheckedAdd_exact by lia.
    rewrite (IH segments).
    + f_equal. lia.
    + lia.
    + intros i s' Hs'. apply (Hseg (S i) s' Hs').
    + lia.
Qed.

Lemma no_path_decision_ok d :
  d.(Decision) = ReplayDecisionDirect → d.(ChosenCost) = d.(Direct).(est_Cost) → d.(PathCost) = 0 →
  d.(TrustMapTotalCost) = 0 → d.(dec_Path) = no_path → no_path_decision d = true.
Proof.
  intros H1 H2 H3 H4 H5. unfold no_path_decision. rewrite H1, H2, H3, H4, H5.
  rewrite bool_decide_eq_true_2, !Z.eqb_refl by done. done.
Qed.

Lemma check_path_ok c event d :
  coordinator_ok c → u64 d.(Direct).(est_Cost) → d.(PathFound) = true →
  decided c.(view) (Key ul event.(Destination)) (Key ul event.(event_Source)) d →
  check_path ul c event d = Ok tt.
Proof.
  intros C [Hc0 Hc] Hf [Hk Hch Hfound _]. destruct (Hfound Hf) as ([P1 P2 P3 P4 P5 P6] & Hp & Ht & Hle & _).
  pose proof (vw_profile _ (co_view _ C)) as (_ & _ & Hu).
  rewrite (co_profile _ C) in *. rewrite Hf in Hk, Hch. cbn [andb] in Hk.
  pose proof (route_nonneg _ _ _ _ (co_view _ C) P1) as Hp0.
  unfold check_path. rewrite P2, P3, !bool_decide_eq_true_2 by done.
  unfold zlen. rewrite <-P5. cbn [negb orb].
  destruct (Z.eqb_spec (Z.of_nat (S (length d.(dec_Path).(Segments)))) 0) as [|_]; [lia|].
  destruct (Z.eqb_spec (Z.of_nat (length d.(dec_Path).(Segments)) + 1)
    (Z.of_nat (S (length d.(dec_Path).(Segments))))) as [_|]; [|lia]. cbn [negb orb].
  rewrite (check_segments_ok _ _ _ _ _ 0 (co_view _ C) (co_canonical _ C) P1 P5 P6) by lia.
  rewrite Z.add_0_l.
  cbn. rewrite Hp, !Z.eqb_refl. cbn [negb orb].
  rewrite CheckedAdd_exact by lia. rewrite Ht, Hp, Z.eqb_refl. cbn [negb].
  rewrite Ht, Hp in Hk, Hch, Hle.
  destruct (Z.ltb_spec (d.(dec_Path).(path_Cost) + c.(profile).(TrustRootUpdateCost)) d.(Direct).(est_Cost));
    rewrite Hk, Hch.
  - rewrite bool_decide_eq_true_2 by done.
    destruct (Z.leb_spec d.(Direct).(est_Cost) (d.(dec_Path).(path_Cost) + c.(profile).(TrustRootUpdateCost)));
      [lia|]. cbn [orb]. rewrite Z.min_l, Z.eqb_refl by lia. done.
  - rewrite bool_decide_eq_false_2 by done. cbn [orb].
    rewrite Z.min_r, Z.eqb_refl by lia. done.
Qed.

Lemma validate_ok c event est r after nodes edges cross :
  coordinator_ok c → u64 est.(est_Cost) →
  canonicalKey ul (Key ul event.(Destination)) = Key ul event.(Destination) →
  canonicalKey ul (Key ul event.(event_Source)) = Key ul event.(event_Source) →
  decide_on ul range scratch c event (Key ul event.(Destination)) (Key ul event.(event_Source)) est = Ok r →
  after = Z.max est.(est_BaselineBefore) event.(event_Source).(OriginalHeight) →
  validateRestoredDecision ul c event (finished r after nodes edges cross) est = Ok tt.
Proof.
  intros C He Hd Hs HD ->. pose proof (planning_enabled _ _ _ _ _ _ HD) as Hpe.
  unfold validateRestoredDecision. cbn [finished PlanningEnabled Direct BaselineAfter PathFound Decision].
  rewrite Hpe, Bool.eqb_reflx. cbn [negb].
  assert (r.(Direct) = est) as Hdir.
  { destruct (UsesTrustMap c.(setting)) eqn:HT.
    - by apply (decide_on_spec _ _ _ _ _ _ C HT He Hd Hs) in HD as (_ & ? & _).
    - unfold decide_on in HD. rewrite HT in HD. by injection HD as <-. }
  rewrite Hdir, bool_decide_eq_true_2 by done. cbn [negb].
  assert (Z.max est.(est_BaselineBefore) event.(event_Source).(OriginalHeight)
    = if est.(est_BaselineBefore) <? event.(event_Source).(OriginalHeight)
      then event.(event_Source).(OriginalHeight) else est.(est_BaselineBefore)) as ->.
  { destruct (Z.ltb_spec est.(est_BaselineBefore) event.(event_Source).(OriginalHeight)); lia. }
  rewrite Z.eqb_refl. cbn [negb]. destruct (UsesTrustMap c.(setting)) eqn:HT; cbn [negb].
  - destruct (decide_on_spec _ _ _ _ _ _ C HT He Hd Hs HD) as (D & _).
    assert ((r.(Decision) ≠?= ReplayDecisionDirect) && (r.(Decision) ≠?= ReplayDecisionTrustMap) = false) as ->.
    { rewrite (de_kind _ _ _ _ D). by destruct (r.(PathFound) && _). }
    destruct r.(PathFound) eqn:Hf; cbn [negb].
    + apply check_path_ok; cbn; [done|by rewrite Hdir|done|]. by destruct D.
    + destruct (de_missing _ _ _ _ D Hf) as (M1 & M2 & M3 & _).
      rewrite no_path_decision_ok; cbn; try done.
      * rewrite (de_kind _ _ _ _ D). by rewrite Hf.
      * rewrite (de_chosen _ _ _ _ D). by rewrite Hf.
  - unfold decide_on in HD. rewrite HT in HD. injection HD as <-.
    by rewrite no_path_decision_ok.
Qed.

Lemma decide_on_ids c event start goal est r :
  decide_on ul range scratch c event start goal est = Ok r →
  r.(dec_EventID) = event.(event_ID) ∧ r.(dec_Sequence) = event.(Sequence) ∧
  r.(dec_Setting) = c.(setting).
Proof.
  unfold decide_on. destruct (UsesTrustMap c.(setting)); [|by intros [= <-]].
  intros (ch & _ & ([pc t] & _ & H)%bind_Ok)%bind_Ok. destruct (UseTrustMap ch); by injection H as <-.
Qed.

Lemma stepped_ok c event v1 v2 est c' :
  coordinator_ok c → event_canonical event → stepped c event v1 v2 est c' → coordinator_ok c'.
Proof.
  intros C [Hd Hs] [S1 S2 S3 S4 ->]. destruct (UsesTrustMap c.(setting)) eqn:HT.
  - destruct S4 as [e HD].
    pose proof (AddVerifiedDependency_spec ul v1 event.(Destination) event.(event_Source) (co_view _ S2)) as D.
    rewrite HD in D. cbn in D. destruct (dp_edge _ _ _ _ _ _ D e eq_refl) as (_ & _ & _ & Hn).
    split; cbn; try apply C.
    + apply D.
    + rewrite (dp_profile _ _ _ _ _ _ D). apply S2.
    + intros k. rewrite Hn, !elem_of_union, !elem_of_singleton.
      intros [->|[->|Hk]]; [by apply Key_canonical..|by apply S2].
    + congruence.
  - subst v2 v1. split; cbn; apply C.
Qed.

Lemma estimate_u64 c event v1 v2 est c' :
  coordinator_ok c → stepped c event v1 v2 est c' →
  u64 est.(est_Cost) ∧
  est.(est_BaselineBefore) = current c.(baselines)
    (baseline_key ul event.(Destination).(block_Chain) event.(event_Source).(block_Chain)).
Proof.
  intros C [_ _ S3 _ _]. pose proof (vw_profile _ (co_view _ C)) as (Hd1 & Hd2 & Hd3).
  rewrite (co_profile _ C) in Hd1, Hd2, Hd3.
  apply estimate_from_Ok in S3 as (H1 & H2 & _); [done|apply C|lia|lia].
Qed.

(** A decision that [Process] took is restored, to the same state. *)
Lemma Restore_stepped c event v1 v2 est d c' :
  coordinator_ok c → event_canonical event →
  stepped c event v1 v2 est c' → answered c event v1 v2 est d →
  Restore ul event d c = (Ok tt, c').
Proof.
  intros C HC ST (r & HD & ->). pose proof HC as [Hd Hs].
  destruct (estimate_u64 _ _ _ _ _ _ C ST) as [He Hb]. destruct ST as [S1 S2 S3 S4 ->].
  destruct (decide_on_ids _ _ _ _ _ _ HD) as (I1 & I2 & I3). cbn in I3.
  unfold Restore. apply St_bind_Ok. exists c, c. split; [done|].
  cbn [finished dec_EventID dec_Sequence dec_Setting]. rewrite I1, I2, I3, Z.eqb_refl.
  rewrite !bool_decide_eq_true_2 by done. cbn [negb orb].
  apply St_bind_Ok. exists tt, (set_view c v1). split.
  { destruct (UsesTrustMap c.(setting)).
    - apply St_bind_Ok. eexists _, _. split; [exact S1|done].
    - subst v1. by destruct c. }
  apply St_bind_Ok. unfold on_baselines at 1.
  destruct (Get_current ul c.(baselines) event.(Destination).(block_Chain) event.(event_Source).(block_Chain))
    as [G1 G2].
  pose proof (Get_again ul c.(baselines) event.(Destination).(block_Chain) event.(event_Source).(block_Chain)) as G3.
  destruct (Get ul (baselines (set_view c v1)) _ _) as [g b1] eqn:HG. cbn in HG. rewrite HG in G1, G2, G3.
  cbn in G1, G2, G3. eexists _, _. split; [done|].
  cbn [finished Direct]. assert (r.(Direct) = est) as Hdir.
  { destruct (UsesTrustMap c.(setting)) eqn:HT.
    - by apply (decide_on_spec (set_view c v1) _ _ _ _ _ S2 HT He (Key_canonical _ Hd) (Key_canonical _ Hs))
        in HD as (_ & ? & _).
    - unfold decide_on in HD. cbn in HD. rewrite HT in HD. by injection HD as <-. }
  rewrite Hdir, Hb, <-G1, Z.eqb_refl. cbn [negb].
  apply St_bind_Ok. rewrite estimate_direct_eq. cbn. rewrite G2, S3, G3. cbn. eexists _, _. split; [done|].
  apply St_bind_Ok. eexists _, _. split; [done|].
  apply St_bind_Ok. exists tt. eexists. split.
  { unfold lift. f_equal.
    refine (validate_ok (set_view c v1) event est r _ _ _ _ S2 He (Key_canonical _ Hd)
      (Key_canonical _ Hs) HD _). congruence. }
  apply St_bind_Ok. rewrite (advance_eq event _ c.(baselines)) by (cbn; by rewrite HG).
  eexists _, _. split; [done|]. cbn [finished BaselineAfter]. rewrite <-G1, Z.eqb_refl. cbn [negb].
  apply St_bind_Ok. exists tt, (set_baselines (set_view c v2) (advanced ul c.(baselines)
    event.(Destination).(block_Chain) event.(event_Source).(block_Chain) event.(event_Source).(OriginalHeight))).
  cbn [setting set_baselines set_view]. destruct (UsesTrustMap c.(setting)) eqn:HT.
  - destruct S4 as [e HV]. split.
    + apply St_bind_Ok. unfold add_dependency, on_view. cbn. rewrite HV. by eexists _, _.
    + apply St_bind_Ok. eexists _, _. split; [done|]. unfold counters_match. cbn. by rewrite !Z.eqb_refl.
  - subst v2. split; [done|]. apply St_bind_Ok. eexists _, _. split; [done|].
    destruct (co_direct _ S2 HT) as (N1 & N2 & N3). cbn in N1, N2, N3.
    unfold counters_match, NodeCount, EdgeCount, CrossEdgesAdded. cbn.
    rewrite N1, N2, N3, size_empty. done.
Qed.

Lemma Process_ok c event d c' :
  coordinator_ok c → event_canonical event → Process ul range scratch event c = (Ok d, c') →
  coordinator_ok c'.
Proof.
  intros C HC HP. destruct (Process_stepped c event d c' C HC HP) as (v1 & v2 & est & ST & _).
  by eapply stepped_ok.
Qed.

(** C26. What [Process] answers in a setting with the trust map: the direct cost is
    the number of blocks between the baseline, or a later checkpoint, and the
    source block at the price of a step (forwards or back); the cost chosen is
    the least of it and of the offered routes with one update of the root, the
    trust map is chosen exactly when it is strictly cheaper, on a path that
    exists; and the baseline moves to the source block, never back. *)
Theorem Process_chooses_least c event d c' :
  coordinator_ok c → event_canonical event → UsesTrustMap c.(setting) = true →
  Process ul range scratch event c = (Ok d, c') →
  let v := (activate_ends ul event c).2.(view) in
  let from := Key ul event.(Destination) in
  let to := Key ul event.(event_Source) in
  let key := baseline_key ul event.(Destination).(block_Chain) event.(event_Source).(block_Chain) in
  let direct := d.(Direct).(est_Cost) in
  let update := c.(profile).(TrustRootUpdateCost) in
  coordinator_ok c' ∧
  estimate_from ul (current c.(baselines) key) event.(event_Source).(block_Chain)
    event.(event_Source).(OriginalHeight) c.(profile) c.(policy) (UsesCheckpoint c.(setting))
    = Ok d.(Direct) ∧
  d.(BaselineAfter) = Z.max (current c.(baselines) key) event.(event_Source).(OriginalHeight) ∧
  current c'.(baselines) key = d.(BaselineAfter) ∧
  d.(ChosenCost) ≤ direct ∧
  (∀ q cost, offered v from to direct q cost → d.(ChosenCost) ≤ cost + update) ∧
  (d.(Decision) = ReplayDecisionDirect ∧ d.(ChosenCost) = direct ∨
   d.(Decision) = ReplayDecisionTrustMap ∧ d.(ChosenCost) < direct ∧
     d.(ChosenCost) = d.(dec_Path).(path_Cost) + update ∧
     path_ok v.(adjacency) anywhere from to d.(dec_Path)).
Proof.
  intros C HC HT HP. cbn zeta. pose proof HC as [Hd Hs].
  destruct (Process_stepped c event d c' C HC HP) as (v1 & v2 & est & ST & r & HD & ->).
  pose proof (stepped_ok _ _ _ _ _ _ C HC ST) as C'.
  destruct (estimate_u64 _ _ _ _ _ _ C ST) as [He Hb]. destruct ST as [S1 S2 S3 S4 ->].
  rewrite HT in S1. rewrite S1. cbn [snd view set_view finished Direct BaselineAfter ChosenCost Decision dec_Path].
  destruct (decide_on_spec (set_view c v1) _ _ _ _ _ S2 HT He (Key_canonical _ Hd) (Key_canonical _ Hs) HD)
    as ([D1 D2 D3 D4] & Hdir & _).
  pose proof (co_profile _ S2) as Hpr. cbn in Hpr, D1, D2, D3, D4. rewrite Hdir, Hpr in *.
  split_and!; try done.
  - by rewrite Hb.
  - unfold advanced, current. cbn. rewrite lookup_insert_eq. by rewrite Hb.
  - destruct (PathFound r); lia.
  - intros q cost Hq. destruct (PathFound r) eqn:Hf.
    + destruct (D3 eq_refl) as (_ & _ & Ht & _ & Hl). specialize (Hl q cost Hq). lia.
    + destruct (D4 eq_refl) as (_ & _ & _ & Hl). specialize (Hl q cost Hq). lia.
  - destruct (PathFound r) eqn:Hf; cbn [andb] in D1; [|by left].
    destruct (D3 eq_refl) as (Hp & Hc & Ht & Hle & _).
    destruct (Z.ltb_spec r.(TrustMapTotalCost) est.(est_Cost)).
    + right. split_and!; [done|lia|lia|done].
    + left. split; [done|lia].
Qed.

(** C27. A decision that was taken is restored: [Restore] accepts the decision
    [Process] returned, in every setting, checks all of it without planning, and
    leaves the coordinator in the state [Process] left. *)
Theorem Restore_replays c event d c' :
  coordinator_ok c → event_canonical event →
  Process ul range scratch event c = (Ok d, c') → Restore ul event d c = (Ok tt, c').
Proof.
  intros C HC HP. destruct (Process_stepped c event d c' C HC HP) as (v1 & v2 & est & ST & AN).
  by eapply Restore_stepped.
Qed.
End Deciding.
End Coordinating.

End ReplayCoordinator.
