(* ===== verification/ReplayRepository.v ===== *)
(** * Mapnode/replay: the database of a run

    replay_repository.go and the loop of run.go: every processed event is
    committed in one transaction, with its decision, its path, its edge and the
    baseline it leaves; a later run verifies the tables, restores the coordinator
    from the committed decisions and goes on.

    A table is a finite map from its primary key to the other columns.  A
    transaction that fails leaves the database as it was; the errors of the SQLite
    driver are left out, except those the arguments cause: a row whose key is
    there, an event identifier that is there, and an integer with the high bit
    set, which database/sql refuses.  The JSON encodings and sha256 are
    parameters; the export of the tables is not modelled. *)

From Stdlib Require Import Strings.Byte.
From S2P Require Import Prelude ReplayView Heap ReplaySearch ReplayCoordinator.
Import ReplayView ReplaySearch ReplayCoordinator.

Module ReplayRepository.

(** ** The tables *)

Definition ReplaySchemaVersion : Z := 2.

Record ReplayRunIdentity := mkIdentity {
  RunID : string;
  id_Setting : Setting;
  TraceDigest : string;
  PreparedRows : Z;
  ImplementationVersion : string;
  SchemaVersion : Z;
  GitCommit : string;
  CostProfileFingerprint : string;
  CheckpointPolicyFingerprint : string;
  SelectionFingerprint : string;
  RecordEvery : Z;
  LogEvery : Z
}.

Record ReplaySnapshot := mkSnapshot {
  snap_Sequence : Z;
  snap_Time : Z;
  snap_GraphNodes : Z;
  snap_GraphEdges : Z;
  snap_CrossEdgesAdded : Z
}.

#[export] Instance ReplaySnapshot_eq_dec : EqDecision ReplaySnapshot.
Proof. solve_decision. Defined.

Record decision_row := mkDecisionRow {
  decision_json : bytes;
  direct_cost : Z;
  chosen_cost : Z;
  decision_kind : string;
  integrity_digest : bytes
}.

Record cross_row := mkCrossRow {
  from_chain : string;
  from_height : Z;
  to_chain : string;
  to_height : Z
}.

#[export] Instance cross_row_eq_dec : EqDecision cross_row.
Proof. solve_decision. Defined.

(** An event row is its identifier and its JSON; the progress is the number of
    events and the last sequence. *)
Record DB := mkDB {
  replay_runs : option (string * bytes);
  replay_events : gmap Z (string * bytes);
  replay_progress : option (Z * option Z);
  replay_baselines : gmap (string * string) Z;
  replay_decisions : gmap Z decision_row;
  replay_paths : gmap Z bytes;
  replay_cross_edges : gmap Z cross_row;
  replay_snapshots : gmap Z bytes
}.

Definition empty_db : DB := mkDB None ∅ None ∅ ∅ ∅ ∅ ∅.

(** An unsigned argument of a statement. *)
Definition column (v : Z) : res error Z :=
  if v <? 2 ^ 63 then Ok v else Err (ErrStore "uint64 values with high bit set are not supported").

Definition insert_row {A} (table : gmap Z A) (key : Z) (row : A) : res error (gmap Z A) :=
  key ← column key;
  if bool_decide (is_Some (table !! key)) then Err (ErrStore "constraint failed")
  else Ok (<[key := row]> table).

(** [ORDER BY sequence] *)
Definition ordered {A} (table : gmap Z A) : list Z :=
  merge_sort Z.le (map fst (map_to_list table)).

Record ReplayCommittedEvent := mkCommitted {
  com_Event : ReplayEvent;
  com_Decision : ReplayDecision;
  com_Snapshot : option ReplaySnapshot
}.

Section Repository.
Context (unicode_ToLower : string → string) (sha256 : bytes → bytes).
Context (marshal_identity : ReplayRunIdentity → bytes).
Context (marshal_event : ReplayEvent → option bytes) (unmarshal_event : bytes → option ReplayEvent).
Context (marshal_decision : ReplayDecision → option bytes)
  (unmarshal_decision : bytes → option ReplayDecision).
Context (marshal_snapshot : ReplaySnapshot → option bytes)
  (unmarshal_snapshot : bytes → option ReplaySnapshot).
Context (marshal_path : ReplayPath → option bytes).
Abbreviation canonicalChain := (ReplayView.canonicalChain unicode_ToLower).

Definition encoded {A} (o : option A) : res error A := from_option Ok (Err (ErrStore "encode")) o.
Definition decoded {A} (o : option A) : res error A := from_option Ok (Err (ErrStore "decode")) o.

(** ** Opening *)

Definition initialize (identity : ReplayRunIdentity) (db : DB) : res error DB :=
  db ←
    match db.(replay_runs) with
    | None =>
        if bool_decide (is_Some db.(replay_progress)) then Err (ErrStore "constraint failed")
        else
          Ok (mkDB (Some (identity.(RunID), marshal_identity identity)) db.(replay_events)
                (Some (0, None)) db.(replay_baselines) db.(replay_decisions) db.(replay_paths)
                db.(replay_cross_edges) db.(replay_snapshots))
    | Some (_, existing) =>
        if existing ≠?= marshal_identity identity then Err (ErrStore "identity conflict") else Ok db
    end;
  if bool_decide (is_Some db.(replay_progress)) then Ok db else Err (ErrStore "progress").

(** Without the directory and the settings of the connection. *)
Definition OpenReplayRepository (identity : ReplayRunIdentity) (db : DB)
    : res error (ReplayRunIdentity * DB) :=
  let identity :=
    if identity.(SchemaVersion) =? 0 then
      mkIdentity identity.(RunID) identity.(id_Setting) identity.(TraceDigest) identity.(PreparedRows)
        identity.(ImplementationVersion) ReplaySchemaVersion identity.(GitCommit)
        identity.(CostProfileFingerprint) identity.(CheckpointPolicyFingerprint)
        identity.(SelectionFingerprint) identity.(RecordEvery) identity.(LogEvery)
    else identity in
  if negb (identity.(SchemaVersion) =? ReplaySchemaVersion) || (identity.(RunID) =?= "")
     || (identity.(TraceDigest) =?= "")
  then Err (ErrStore "identity")
  else if negb (known_setting identity.(id_Setting)) then Err (ErrStore "identity")
  else
    db ← initialize identity db;
    Ok (identity, db).

(** ** Committing an event *)

Definition replayDecisionIntegrityDigest (eventJSON decisionJSON : bytes) : bytes :=
  sha256 (bytes_of_string "trustmap/replay-committed-decision/v1" ++ [x0a] ++ eventJSON ++ [x00]
            ++ decisionJSON).

Definition snapshot_matches (snapshot : ReplaySnapshot) (event : ReplayEvent)
    (decision : ReplayDecision) : bool :=
  (snapshot.(snap_Sequence) =? event.(Sequence)) && (snapshot.(snap_Time) =? event.(SourceTime))
  && (snapshot.(snap_GraphNodes) =? decision.(GraphNodes))
  && (snapshot.(snap_GraphEdges) =? decision.(GraphEdges))
  && (snapshot.(snap_CrossEdgesAdded) =? decision.(dec_CrossEdgesAdded)).

(** The rows of an event, in the order the transaction writes them. *)
Definition insert_event (db : DB) (event : ReplayEvent) (decision : ReplayDecision)
    (eventJSON decisionJSON : bytes) (snapshotJSON : option bytes) : res error DB :=
  let sequence := event.(Sequence) in
  _ ← (if bool_decide (Exists (λ row, row.2.1 = event.(event_ID)) (map_to_list db.(replay_events)))
       then Err (ErrStore "constraint failed") else Ok tt);
  events ← insert_row db.(replay_events) sequence (event.(event_ID), eventJSON);
  direct ← column decision.(Direct).(est_Cost);
  chosen ← column decision.(ChosenCost);
  decisions ← insert_row db.(replay_decisions) sequence
    (mkDecisionRow decisionJSON direct chosen decision.(Decision)
       (replayDecisionIntegrityDigest eventJSON decisionJSON));
  paths ←
    (if decision.(Decision) =?= ReplayDecisionTrustMap then
       pathJSON ← encoded (marshal_path decision.(dec_Path));
       insert_row db.(replay_paths) sequence pathJSON
     else Ok db.(replay_paths));
  after ← column decision.(BaselineAfter);
  from ← column event.(Destination).(OriginalHeight);
  to ← column event.(event_Source).(OriginalHeight);
  edges ← insert_row db.(replay_cross_edges) sequence
    (mkCrossRow (canonicalChain event.(Destination).(block_Chain)) from
       (canonicalChain event.(event_Source).(block_Chain)) to);
  snapshots ←
    match snapshotJSON with
    | Some json => insert_row db.(replay_snapshots) sequence json
    | None => Ok db.(replay_snapshots)
    end;
  completed ← column (wrap64 (sequence + 1));
  Ok (mkDB db.(replay_runs) events (Some (completed, Some sequence))
        (<[(canonicalChain event.(Destination).(block_Chain),
            canonicalChain event.(event_Source).(block_Chain)) := after]> db.(replay_baselines))
        decisions paths edges snapshots).

Definition CommitEvent (identity : ReplayRunIdentity) (event : ReplayEvent)
    (decision : ReplayDecision) (snapshot : option ReplaySnapshot) (db : DB) : res error DB :=
  if (event.(event_ID) =?= "") || (decision.(dec_EventID) ≠?= event.(event_ID))
     || negb (decision.(dec_Sequence) =? event.(Sequence))
     || (decision.(dec_Setting) ≠?= identity.(id_Setting))
  then Err (ErrStore "identity mismatch")
  else
    eventJSON ← encoded (marshal_event event);
    decisionJSON ← encoded (marshal_decision decision);
    snapshotJSON ←
      match snapshot with
      | Some s =>
          if negb (snapshot_matches s event decision) then Err (ErrStore "snapshot conflict")
          else json ← encoded (marshal_snapshot s); Ok (Some json)
      | None => Ok None
      end;
    sequence ← column event.(Sequence);
    match db.(replay_events) !! sequence, db.(replay_decisions) !! sequence with
    | Some (_, existingEvent), Some row =>
        if (existingEvent =?= eventJSON) && (row.(decision_json) =?= decisionJSON)
           && (default [] (db.(replay_snapshots) !! sequence) =?= default [] snapshotJSON)
        then Ok db else Err (ErrStore "event conflict")
    | _, _ =>
        match db.(replay_progress) with
        | None => Err (ErrStore "progress")
        | Some (completed, _) =>
            if negb (event.(Sequence) =? completed) then Err (ErrStore "sequence conflict")
            else insert_event db event decision eventJSON decisionJSON snapshotJSON
        end
    end.

(** ** Reading a run back *)

Definition Progress (db : DB) : res error (Z * Z) :=
  match db.(replay_progress) with
  | Some (completed, last) => Ok (completed, default 0 last)
  | None => Err (ErrStore "progress")
  end.

(** The rows that the queries of [ForEachCompleted] and
    [verifyPersistedDerivedState] join. *)
Definition joined_rows (db : DB) : list (Z * bytes * decision_row) :=
  omap (λ s,
    event ← db.(replay_events) !! s;
    decision ← db.(replay_decisions) !! s;
    Some (s, event.2, decision)) (ordered db.(replay_events)).

Definition committed (db : DB) (expected : Z) (row : Z * bytes * decision_row)
    : res error ReplayCommittedEvent :=
  let '(s, eventJSON, d) := row in
  event ← decoded (unmarshal_event eventJSON);
  decision ← decoded (unmarshal_decision d.(decision_json));
  snapshot ←
    match db.(replay_snapshots) !! s with
    | Some json => snapshot ← decoded (unmarshal_snapshot json); Ok (Some snapshot)
    | None => Ok None
    end;
  if negb (event.(Sequence) =? expected) || negb (decision.(dec_Sequence) =? expected)
     || (event.(event_ID) ≠?= decision.(dec_EventID))
  then Err (ErrStore "inconsistent sequence")
  else Ok (mkCommitted event decision snapshot).

Section Visit.
Context {S : Type} (visit : ReplayCommittedEvent → S → res error S).

Fixpoint visit_rows (db : DB) (rows : list (Z * bytes * decision_row)) (expected : Z) (s : S)
    : res error S :=
  match rows with
  | [] => Ok s
  | row :: rest =>
      item ← committed db expected row;
      s ← visit item s;
      visit_rows db rest (wrap64 (expected + 1)) s
  end.

Definition ForEachCompleted (db : DB) (s : S) : res error S := visit_rows db (joined_rows db) 0 s.
End Visit.

Definition CompletedEvents (db : DB) : res error (list ReplayCommittedEvent) :=
  ForEachCompleted (λ item l, Ok (l ++ [item])) db [].

(** What the verification has counted: the rows, the paths, the snapshots and
    the baselines it expects. *)
Record verified := mkVerified {
  ver_completed : Z;
  ver_paths : Z;
  ver_snapshots : Z;
  ver_baselines : gmap (string * string) Z
}.

Definition check (b : bool) (detail : string) : res error unit :=
  if b then Ok tt else Err (ErrStore detail).

Definition records_snapshot (identity : ReplayRunIdentity) (sequence : Z) : bool :=
  UsesTrustMap identity.(id_Setting) && (0 <? identity.(RecordEvery))
  && (sequence mod identity.(RecordEvery) =? 0).

Definition verify_row (identity : ReplayRunIdentity) (db : DB) (row : Z * bytes * decision_row)
    (v : verified) : res error verified :=
  let '(sequence, eventJSON, d) := row in
  event ← decoded (unmarshal_event eventJSON);
  decision ← decoded (unmarshal_decision d.(decision_json));
  _ ← check ((sequence =? v.(ver_completed)) && (event.(Sequence) =? sequence)
             && (decision.(dec_Sequence) =? sequence)
             && (event.(event_ID) =?= decision.(dec_EventID))) "inconsistent sequence";
  _ ← check ((d.(direct_cost) =? decision.(Direct).(est_Cost))
             && (d.(chosen_cost) =? decision.(ChosenCost))
             && (d.(decision_kind) =?= decision.(Decision))) "scalar columns";
  _ ← check (d.(integrity_digest) =?= replayDecisionIntegrityDigest eventJSON d.(decision_json))
        "integrity digest";
  let baselines :=
    <[(canonicalChain event.(Destination).(block_Chain),
       canonicalChain event.(event_Source).(block_Chain)) := decision.(BaselineAfter)]>
      v.(ver_baselines) in
  _ ← check (db.(replay_cross_edges) !! sequence =?=
             Some (mkCrossRow (canonicalChain event.(Destination).(block_Chain))
                     event.(Destination).(OriginalHeight)
                     (canonicalChain event.(event_Source).(block_Chain))
                     event.(event_Source).(OriginalHeight))) "cross edge";
  paths ←
    (if decision.(Decision) =?= ReplayDecisionTrustMap then
       expectedPath ← encoded (marshal_path decision.(dec_Path));
       _ ← check (db.(replay_paths) !! sequence =?= Some expectedPath) "path";
       Ok (wrap64 (v.(ver_paths) + 1))
     else
       _ ← check (db.(replay_paths) !! sequence =?= None) "path";
       Ok v.(ver_paths));
  let snapshotJSON := db.(replay_snapshots) !! sequence in
  _ ← check (Bool.eqb (records_snapshot identity sequence) (bool_decide (is_Some snapshotJSON)))
        "record interval";
  snapshots ←
    match snapshotJSON with
    | Some json =>
        snapshot ← decoded (unmarshal_snapshot json);
        _ ← check (snapshot_matches snapshot event decision) "snapshot";
        Ok (wrap64 (v.(ver_snapshots) + 1))
    | None => Ok v.(ver_snapshots)
    end;
  Ok (mkVerified (wrap64 (v.(ver_completed) + 1)) paths snapshots baselines).

Fixpoint verify_rows (identity : ReplayRunIdentity) (db : DB) (rows : list (Z * bytes * decision_row))
    (v : verified) : res error verified :=
  match rows with
  | [] => Ok v
  | row :: rest => v ← verify_row identity db row v; verify_rows identity db rest v
  end.

Definition verifyPersistedDerivedState (identity : ReplayRunIdentity) (db : DB) : res error unit :=
  '(completedEvents, last) ← Progress db;
  v ← verify_rows identity db (joined_rows db) (mkVerified 0 0 0 ∅);
  _ ← check (completedEvents =? v.(ver_completed)) "progress";
  _ ← check ((v.(ver_completed) =? 0) || (last =? v.(ver_completed) - 1)) "progress";
  _ ← check (Z.of_nat (size db.(replay_cross_edges)) =? v.(ver_completed)) "cross-edge count";
  _ ← check (Z.of_nat (size db.(replay_paths)) =? v.(ver_paths)) "path count";
  _ ← check (Z.of_nat (size db.(replay_snapshots)) =? v.(ver_snapshots)) "snapshot count";
  _ ← check (forallb (λ row, v.(ver_baselines) !! row.1 =?= Some row.2)
               (map_to_list db.(replay_baselines))) "baseline";
  check (Nat.eqb (size db.(replay_baselines)) (size v.(ver_baselines))) "baseline count".

(** ** Recovery *)

(** The coordinator, the number of events and the number of trust map rows. *)
Definition recovered : Type := ReplayCoordinator * Z * Z.

Definition restore_item (identity : ReplayRunIdentity) (inspect : ReplayCommittedEvent → res error unit)
    (item : ReplayCommittedEvent) (s : recovered) : res error recovered :=
  let '(coordinator, completed, trustMapRows) := s in
  if identity.(PreparedRows) <=? completed then Err (ErrStore "rows exceed run identity")
  else
    _ ← inspect item;
    match Restore unicode_ToLower item.(com_Event) item.(com_Decision) coordinator with
    | (Err e, _) => Err e
    | (Ok _, coordinator) =>
        Ok (coordinator, wrap64 (completed + 1),
            if item.(com_Decision).(Decision) =?= ReplayDecisionTrustMap
            then wrap64 (trustMapRows + 1) else trustMapRows)
    end.

Definition recoverReplayCoordinator (identity : ReplayRunIdentity) (db : DB) (setting : Setting)
    (initHeights : list (string * Z)) (profile : CostProfile) (policy : CheckpointPolicy)
    (inspect : ReplayCommittedEvent → res error unit) : res error recovered :=
  if identity.(id_Setting) ≠?= setting then Err (ErrStore "setting")
  else
    coordinator ← NewReplayCoordinator unicode_ToLower setting initHeights profile policy;
    _ ← verifyPersistedDerivedState identity db;
    ForEachCompleted (restore_item identity inspect) db (coordinator, 0, 0).

(** ** A run *)

(** The committed event is the one of the trace. *)
Definition inspect_trace (events : list ReplayEvent) (item : ReplayCommittedEvent) : res error unit :=
  let index := item.(com_Event).(Sequence) in
  if zlen events <=? index then Err (ErrStore "progress exceeds prepared trace")
  else if events !! Z.to_nat index ≠?= Some item.(com_Event)
  then Err (ErrStore "conflicts with prepared trace")
  else Ok tt.

Section Run.
Context (ranges : Z → nat → gmap ReplayBlockKey ReplayEdge → list (ReplayBlockKey * ReplayEdge)).
Context (scratches : Z → replaySearchScratch).

Definition snapshot_of (identity : ReplayRunIdentity) (event : ReplayEvent) (decision : ReplayDecision)
    (sequence : Z) : option ReplaySnapshot :=
  if records_snapshot identity sequence
  then Some (mkSnapshot sequence event.(SourceTime) decision.(GraphNodes) decision.(GraphEdges)
               decision.(dec_CrossEdgesAdded))
  else None.

(** The loop of [RunReplayWithProgress] on the events that are left.  The context
    is cancelled after [live] more events; on an error the state of the database
    stays. *)
Fixpoint run_loop (live : nat) (identity : ReplayRunIdentity) (events : list ReplayEvent)
    (sequence : Z) (c : ReplayCoordinator) (db : DB) : res error ReplayCoordinator * DB :=
  match events with
  | [] => (Ok c, db)
  | event :: rest =>
      match live with
      | O => (Err ErrCancelled, db)
      | S live' =>
          match Process unicode_ToLower (ranges sequence) (scratches sequence) event c with
          | (Err e, _) => (Err e, db)
          | (Ok decision, c) =>
              match CommitEvent identity event decision
                      (snapshot_of identity event decision sequence) db with
              | Err e => (Err e, db)
              | Ok db => run_loop live' identity rest (sequence + 1) c db
              end
          end
      end
  end.

(** One setting of [RunReplayWithProgress]: open, recover, and process the events
    that are left. *)
Definition run_setting (live : nat) (identity : ReplayRunIdentity) (events : list ReplayEvent)
    (initHeights : list (string * Z)) (profile : CostProfile) (policy : CheckpointPolicy) (db : DB)
    : res error ReplayCoordinator * DB :=
  match OpenReplayRepository identity db with
  | Err e => (Err e, db)
  | Ok (identity, db) =>
      match recoverReplayCoordinator identity db identity.(id_Setting) initHeights profile policy
              (inspect_trace events) with
      | Err e => (Err e, db)
      | Ok (coordinator, next, _) =>
          run_loop live identity (drop (Z.to_nat next) events) next coordinator db
      end
  end.
End Run.
End Repository.

(** ** Lemmas: tables keyed by the sequence *)

(** The element of a list at a sequence number. *)
Definition at_ {A} (l : list A) (s : Z) : option A := if s <? 0 then None else l !! Z.to_nat s.

Lemma at_nil {A} s : at_ (@nil A) s = None.
Proof. unfold at_. by destruct (s <? 0). Qed.

Lemma at_snoc {A} (l : list A) x s :
  at_ (l ++ [x]) s = if decide (s = zlen l) then Some x else at_ l s.
Proof.
  unfold at_, zlen. destruct (Z.ltb_spec s 0); [by rewrite decide_False by lia|].
  destruct (decide (s = Z.of_nat (length l))) as [->|Hs].
  - rewrite Nat2Z.id. by rewrite list_lookup_middle.
  - destruct (decide (s < Z.of_nat (length l))).
    + by rewrite lookup_app_l by lia.
    + rewrite !lookup_ge_None_2; [done|lia|]. rewrite length_app. cbn. lia.
Qed.

Lemma at_app {A} (l k : list A) i :
  at_ (l ++ k) (zlen l + Z.of_nat i) = k !! i.
Proof.
  unfold at_, zlen. destruct (Z.ltb_spec (Z.of_nat (length l) + Z.of_nat i) 0); [lia|].
  rewrite lookup_app_r by lia. f_equal. lia.
Qed.

Lemma at_Some {A} (l : list A) s x : at_ l s = Some x → 0 ≤ s < zlen l.
Proof.
  unfold at_, zlen. destruct (Z.ltb_spec s 0); [done|]. intros Hl%lookup_lt_Some. lia.
Qed.

Lemma at_is_Some {A} (l : list A) s : is_Some (at_ l s) ↔ 0 ≤ s < zlen l.
Proof.
  split; [intros [x Hx]; by eapply at_Some|]. unfold at_, zlen. intros H.
  destruct (Z.ltb_spec s 0); [lia|]. apply lookup_lt_is_Some_2. lia.
Qed.

Lemma ordered_seq {A} (m : gmap Z A) n :
  0 ≤ n → (∀ s, is_Some (m !! s) ↔ 0 ≤ s < n) → ordered m = seqZ 0 n.
Proof.
  intros Hn Hm. unfold ordered. apply (StronglySorted_unique Z.le).
  - apply StronglySorted_merge_sort; apply _.
  - assert (∀ a k, StronglySorted Z.le (seqZ a (Z.of_nat k))) as H.
    { intros a k. revert a. induction k as [|k IH]; intros a; [by constructor|].
      rewrite Nat2Z.inj_succ, seqZ_cons by lia. replace (Z.pred (Z.succ (Z.of_nat k))) with (Z.of_nat k) by lia.
      constructor; [done|]. apply Forall_forall. intros x Hx%elem_of_seqZ. lia. }
    specialize (H 0 (Z.to_nat n)). by rewrite Z2Nat.id in H.
  - rewrite merge_sort_Permutation. apply NoDup_Permutation.
    + apply NoDup_fst_map_to_list.
    + apply NoDup_seqZ.
    + intros x. rewrite elem_of_seqZ, list_elem_of_fmap. rewrite Z.add_0_l, <-Hm. split.
      * intros ([k a] & -> & Hk). apply elem_of_map_to_list in Hk. by eexists.
      * intros [a Ha]. exists (x, a). split; [done|]. by apply elem_of_map_to_list.
Qed.

Lemma insert_row_Ok {A} (t t' : gmap Z A) k r :
  insert_row t k r = Ok t' → t !! k = None ∧ t' = <[k := r]> t ∧ k < 2 ^ 63.
Proof.
  unfold insert_row, column. destruct (Z.ltb_spec k (2 ^ 63)); [|done]. cbn.
  case_bool_decide as Hs; [done|]. intros [= <-]. split_and!; [|done|done].
  by apply eq_None_not_Some.
Qed.

Lemma column_Ok v w : column v = Ok w ↔ w = v ∧ v < 2 ^ 63.
Proof. unfold column. destruct (Z.ltb_spec v (2 ^ 63)); naive_solver lia. Qed.

Lemma encoded_Ok {A} (o : option A) x : encoded o = Ok x ↔ o = Some x.
Proof. destruct o; cbn; naive_solver. Qed.

(** ** The tables of a list of committed events *)

Section Recovering.
Context (ul : string → string) (sha256 : bytes → bytes).
Context (marshal_identity : ReplayRunIdentity → bytes).
Context (marshal_event : ReplayEvent → option bytes) (unmarshal_event : bytes → option ReplayEvent).
Context (marshal_decision : ReplayDecision → option bytes)
  (unmarshal_decision : bytes → option ReplayDecision).
Context (marshal_snapshot : ReplaySnapshot → option bytes)
  (unmarshal_snapshot : bytes → option ReplaySnapshot).
Context (marshal_path : ReplayPath → option bytes).
Context (identity : ReplayRunIdentity).

Abbreviation entry := (ReplayEvent * ReplayDecision)%type.
Abbreviation takes_path d := (d.(Decision) =?= ReplayDecisionTrustMap).

Definition event_json (e : ReplayEvent) : bytes := default [] (marshal_event e).
Definition dec_json (d : ReplayDecision) : bytes := default [] (marshal_decision d).

Definition event_row (p : entry) : string * bytes := (p.1.(event_ID), event_json p.1).

Definition row_of (p : entry) : decision_row :=
  mkDecisionRow (dec_json p.2) p.2.(Direct).(est_Cost) p.2.(ChosenCost) p.2.(Decision)
    (replayDecisionIntegrityDigest sha256 (event_json p.1) (dec_json p.2)).

Definition edge_of (p : entry) : cross_row :=
  mkCrossRow (canonicalChain ul p.1.(Destination).(block_Chain)) p.1.(Destination).(OriginalHeight)
    (canonicalChain ul p.1.(event_Source).(block_Chain)) p.1.(event_Source).(OriginalHeight).

Definition path_of (p : entry) : option bytes :=
  if takes_path p.2 then Some (default [] (marshal_path p.2.(dec_Path))) else None.

Definition snap_of (s : Z) (p : entry) : option bytes :=
  snap ← snapshot_of identity p.1 p.2 s; Some (default [] (marshal_snapshot snap)).

Definition baseline_of (m : gmap (string * string) Z) (p : entry) : gmap (string * string) Z :=
  <[(canonicalChain ul p.1.(Destination).(block_Chain), canonicalChain ul p.1.(event_Source).(block_Chain))
    := p.2.(BaselineAfter)]> m.

Definition count_paths (l : list entry) : nat := length (filter (λ p, takes_path p.2 = true) l).

Definition count_snapshots (n : Z) : nat :=
  length (filter (λ s, records_snapshot identity s = true) (seqZ 0 n)).

(** The pair can be encoded, and stands at its sequence number. *)
Record entry_ok (s : Z) (p : entry) : Prop := {
  en_event : p.1.(Sequence) = s;
  en_decision : p.2.(dec_Sequence) = s;
  en_id : p.2.(dec_EventID) = p.1.(event_ID);
  en_event_json : is_Some (marshal_event p.1);
  en_decision_json : is_Some (marshal_decision p.2);
  en_path : takes_path p.2 = true → is_Some (marshal_path p.2.(dec_Path));
  en_snapshot snap : snapshot_of identity p.1 p.2 s = Some snap → is_Some (marshal_snapshot snap)
}.

Record db_of (l : list entry) (db : DB) : Prop := {
  do_runs : ∃ id, db.(replay_runs) = Some (id, marshal_identity identity);
  do_progress : ∃ last, db.(replay_progress) = Some (zlen l, last) ∧
    (0 < zlen l → last = Some (zlen l - 1));
  do_events s : db.(replay_events) !! s = event_row <$> at_ l s;
  do_decisions s : db.(replay_decisions) !! s = row_of <$> at_ l s;
  do_paths s : db.(replay_paths) !! s = (at_ l s ≫= path_of);
  do_cross s : db.(replay_cross_edges) !! s = edge_of <$> at_ l s;
  do_snapshots s : db.(replay_snapshots) !! s = (at_ l s ≫= snap_of s);
  do_baselines : db.(replay_baselines) = foldl baseline_of ∅ l;
  do_cross_size : size db.(replay_cross_edges) = length l;
  do_path_size : size db.(replay_paths) = count_paths l;
  do_snapshot_size : size db.(replay_snapshots) = count_snapshots (zlen l);
  do_small : zlen l < 2 ^ 63;
  do_entry s p : at_ l s = Some p → entry_ok s p
}.

Lemma at_end {A} (l : list A) : at_ l (zlen l) = None.
Proof. apply eq_None_not_Some. rewrite at_is_Some. lia. Qed.

Lemma lookup_snoc {A B} (t : gmap Z B) (l : list A) x (f : Z → A → option B) b :
  (∀ s, t !! s = (at_ l s ≫= f s)) → f (zlen l) x = Some b →
  ∀ s, <[zlen l := b]> t !! s = (at_ (l ++ [x]) s ≫= f s).
Proof.
  intros Ht Hf s. rewrite at_snoc. destruct (decide (s = zlen l)) as [->|Hs].
  - rewrite lookup_insert_eq. cbn. by rewrite Hf.
  - by rewrite lookup_insert_ne, Ht.
Qed.

Lemma lookup_snoc_none {A B} (t : gmap Z B) (l : list A) x (f : Z → A → option B) :
  (∀ s, t !! s = (at_ l s ≫= f s)) → f (zlen l) x = None →
  ∀ s, t !! s = (at_ (l ++ [x]) s ≫= f s).
Proof.
  intros Ht Hf s. rewrite Ht, at_snoc. destruct (decide (s = zlen l)) as [->|Hs]; [|done].
  rewrite at_end. cbn. by rewrite Hf.
Qed.

Lemma fmap_as_bind {A B} (o : option A) (g : A → B) : g <$> o = (o ≫= λ x, Some (g x)).
Proof. by destruct o. Qed.

Lemma zlen_snoc {A} (l : list A) x : zlen (l ++ [x]) = zlen l + 1.
Proof. unfold zlen. rewrite length_app. cbn. lia. Qed.

Lemma count_snapshots_snoc n :
  0 ≤ n → count_snapshots (n + 1) = (count_snapshots n + if records_snapshot identity n then 1 else 0)%nat.
Proof.
  intros Hn. unfold count_snapshots. rewrite seqZ_app by lia. cbn. rewrite filter_app, length_app.
  replace (seqZ (0 + n) 1) with [n] by (by rewrite seqZ_cons by lia).
  rewrite filter_cons, filter_nil. f_equal. by destruct (records_snapshot identity n).
Qed.

Lemma count_paths_snoc l p :
  count_paths (l ++ [p]) = (count_paths l + if takes_path p.2 then 1 else 0)%nat.
Proof.
  unfold count_paths. rewrite filter_app, length_app, filter_cons, filter_nil. f_equal.
  by destruct (takes_path p.2).
Qed.

Definition insert_opt {A} (t : gmap Z A) (k : Z) (o : option A) : gmap Z A :=
  match o with Some b => <[k := b]> t | None => t end.

(** What the transaction writes. *)
Lemma insert_event_Ok db e d snapshotJSON db' :
  insert_event ul sha256 marshal_path db e d (event_json e) (dec_json d) snapshotJSON = Ok db' →
  let s := e.(Sequence) in
  db' = mkDB db.(replay_runs) (<[s := event_row (e, d)]> db.(replay_events))
          (Some (wrap64 (s + 1), Some s)) (baseline_of db.(replay_baselines) (e, d))
          (<[s := row_of (e, d)]> db.(replay_decisions))
          (insert_opt db.(replay_paths) s (path_of (e, d)))
          (<[s := edge_of (e, d)]> db.(replay_cross_edges))
          (insert_opt db.(replay_snapshots) s snapshotJSON) ∧
  db.(replay_cross_edges) !! s = None ∧
  (takes_path d = true → db.(replay_paths) !! s = None ∧ is_Some (marshal_path d.(dec_Path))) ∧
  (is_Some snapshotJSON → db.(replay_snapshots) !! s = None) ∧ wrap64 (s + 1) < 2 ^ 63.
Proof.
  unfold insert_event. cbn zeta.
  intros ([] & _ & (t1 & H1 & (dc & H2 & (cc & H3 & (t2 & H4 & (t3 & H5 & (af & H6 & (f & H7 & (t & H8 &
    (t4 & H9 & (t5 & H10 & (co & H11 & H12)%bind_Ok)%bind_Ok)%bind_Ok)%bind_Ok)%bind_Ok)%bind_Ok)%bind_Ok)%bind_Ok)
    %bind_Ok)%bind_Ok)%bind_Ok)%bind_Ok.
  apply column_Ok in H2 as [-> _], H3 as [-> _], H6 as [-> _], H7 as [-> _], H8 as [-> _], H11 as [-> H11].
  apply insert_row_Ok in H1 as (_ & -> & _), H4 as (_ & -> & _), H9 as (N9 & -> & _).
  injection H12 as <-.
  assert (t3 = insert_opt db.(replay_paths) e.(Sequence) (path_of (e, d)) ∧
    (takes_path d = true → db.(replay_paths) !! e.(Sequence) = None ∧ is_Some (marshal_path d.(dec_Path))))
    as [-> P5].
  { unfold path_of. cbn [snd]. destruct (takes_path d); [|injection H5 as <-; by split].
    apply bind_Ok in H5 as (pj & Hp%encoded_Ok & H5). apply insert_row_Ok in H5 as (N5 & -> & _).
    rewrite Hp. cbn. split; [done|]. intros _. split; [done|]. by eexists. }
  assert (t5 = insert_opt db.(replay_snapshots) e.(Sequence) snapshotJSON ∧
    (is_Some snapshotJSON → db.(replay_snapshots) !! e.(Sequence) = None)) as [-> P6].
  { destruct snapshotJSON as [j|]; [|injection H10 as <-; split; [done|by intros []]].
    by apply insert_row_Ok in H10 as (N10 & -> & _). }
  done.
Qed.

Lemma size_insert_opt {A} (t : gmap Z A) k o :
  (is_Some o → t !! k = None) → size (insert_opt t k o) = (size t + match o with Some _ => 1 | None => 0 end)%nat.
Proof.
  intros H. destruct o; cbn; [|lia]. rewrite map_size_insert_None by (apply H; by eexists). lia.
Qed.

Lemma lookup_opt {A B} (t : gmap Z B) (l : list A) x (f : Z → A → option B) s :
  (∀ s, t !! s = (at_ l s ≫= f s)) →
  insert_opt t (zlen l) (f (zlen l) x) !! s = (at_ (l ++ [x]) s ≫= f s).
Proof.
  intros Ht. destruct (f (zlen l) x) as [b|] eqn:Hf; cbn; [by apply lookup_snoc|by apply lookup_snoc_none].
Qed.

Lemma lookup_map {A B} (t : gmap Z B) (l : list A) x (g : A → B) s :
  (∀ s, t !! s = g <$> at_ l s) → <[zlen l := g x]> t !! s = g <$> at_ (l ++ [x]) s.
Proof.
  intros Ht. rewrite at_snoc. destruct (decide (s = zlen l)) as [->|Hs].
  - by rewrite lookup_insert_eq.
  - by rewrite lookup_insert_ne, Ht.
Qed.

(** The tables after a commit. *)
Lemma db_snoc l db e d :
  db_of l db → entry_ok (zlen l) (e, d) → zlen l + 1 < 2 ^ 63 →
  db_of (l ++ [(e, d)])
    (mkDB db.(replay_runs) (<[zlen l := event_row (e, d)]> db.(replay_events))
       (Some (zlen l + 1, Some (zlen l))) (baseline_of db.(replay_baselines) (e, d))
       (<[zlen l := row_of (e, d)]> db.(replay_decisions))
       (insert_opt db.(replay_paths) (zlen l) (path_of (e, d)))
       (<[zlen l := edge_of (e, d)]> db.(replay_cross_edges))
       (insert_opt db.(replay_snapshots) (zlen l) (snap_of (zlen l) (e, d)))).
Proof.
  intros D E Hn. pose proof (zlen_nonneg l) as Hl. destruct D. split; cbn.
  - done.
  - exists (Some (zlen l)). rewrite zlen_snoc. split; [done|]. intros _. f_equal. lia.
  - intros s. by apply lookup_map.
  - intros s. by apply lookup_map.
  - intros s. apply (lookup_opt db.(replay_paths) l (e, d) (λ _, path_of)); done.
  - intros s. by apply lookup_map.
  - intros s. by apply lookup_opt.
  - rewrite do_baselines0, foldl_snoc. done.
  - rewrite map_size_insert_None, do_cross_size0, length_app; [cbn; lia|].
    by rewrite do_cross0, at_end.
  - rewrite size_insert_opt by (intros _; by rewrite do_paths0, at_end).
    rewrite do_path_size0, count_paths_snoc. unfold path_of. cbn. by destruct (takes_path d).
  - rewrite size_insert_opt by (intros _; by rewrite do_snapshots0, at_end).
    rewrite do_snapshot_size0, zlen_snoc, count_snapshots_snoc by done.
    unfold snap_of, snapshot_of. cbn. by destruct (records_snapshot identity (zlen l)).
  - rewrite zlen_snoc. lia.
  - intros s p. rewrite at_snoc. destruct (decide (s = zlen l)) as [->|Hs]; [|eauto].
    by intros [= <-].
Qed.

(** A commit appends to the list. *)
Lemma CommitEvent_db l db e d db' :
  db_of l db → e.(Sequence) = zlen l →
  CommitEvent ul sha256 marshal_event marshal_decision marshal_snapshot marshal_path identity e d
    (snapshot_of identity e d (zlen l)) db = Ok db' →
  db_of (l ++ [(e, d)]) db' ∧ d.(dec_EventID) = e.(event_ID) ∧ d.(dec_Setting) = identity.(id_Setting).
Proof.
  intros D Hs. unfold CommitEvent. intros [Hc (ej & Hej%encoded_Ok & (dj & Hdj%encoded_Ok & HC)%bind_Ok)%bind_Ok]%bind_bool.
  bool_to_prop. apply bind_Ok in HC as (sj & Hsj & HC).
  assert (sj = snap_of (zlen l) (e, d) ∧
    ∀ snap, snapshot_of identity e d (zlen l) = Some snap → is_Some (marshal_snapshot snap)) as [-> Hsnap].
  { unfold snap_of. cbn [fst snd]. destruct (snapshot_of identity e d (zlen l)) as [snap|].
    - destruct (negb _); [done|]. apply bind_Ok in Hsj as (j & Hj%encoded_Ok & [= <-]).
      cbn. rewrite Hj. split; [done|]. intros ? [= <-]. by eexists.
    - injection Hsj as <-. done. }
  apply bind_Ok in HC as (? & [-> _]%column_Ok & HC). rewrite Hs in HC.
  rewrite (do_events _ _ D), at_end in HC. cbn in HC.
  destruct (do_progress _ _ D) as (last & Hp & _). rewrite Hp, Z.eqb_refl in HC. cbn [negb] in HC.
  assert (ej = event_json e) as -> by (unfold event_json; by rewrite Hej).
  assert (dj = dec_json d) as -> by (unfold dec_json; by rewrite Hdj).
  apply insert_event_Ok in HC as (-> & _ & Hpath & _ & Hsmall). rewrite Hs in *.
  pose proof (zlen_nonneg l) as Hl. pose proof (do_small _ _ D) as Hlt.
  rewrite wrap64_small in * by (unfold u64, MaxUint64; lia).
  split; [|done]. apply db_snoc; [done| |done]. split; cbn; try done; try by eexists.
  intros Ht. by apply Hpath.
Qed.

(** ** Reading the list back *)

Hypothesis event_kept : ∀ e b, marshal_event e = Some b → unmarshal_event b = Some e.
Hypothesis decision_kept : ∀ d b, marshal_decision d = Some b → unmarshal_decision b = Some d.
Hypothesis snapshot_kept : ∀ s b, marshal_snapshot s = Some b → unmarshal_snapshot b = Some s.

Abbreviation committed :=
  (committed unmarshal_event unmarshal_decision unmarshal_snapshot).
Abbreviation verify_row := (verify_row ul sha256 unmarshal_event unmarshal_decision unmarshal_snapshot
  marshal_path identity).
Abbreviation verify_rows := (verify_rows ul sha256 unmarshal_event unmarshal_decision unmarshal_snapshot
  marshal_path identity).

Fixpoint rows_from (s : Z) (l : list entry) : list (Z * bytes * decision_row) :=
  match l with
  | [] => []
  | p :: l => (s, event_json p.1, row_of p) :: rows_from (s + 1) l
  end.

Lemma joined_rows_db l db : db_of l db → joined_rows db = rows_from 0 l.
Proof.
  intros D. unfold joined_rows.
  rewrite (ordered_seq _ (zlen l)).
  2: apply zlen_nonneg.
  2: { intros s. rewrite (do_events _ _ D), fmap_is_Some. apply at_is_Some. }
  assert (∀ k pre, l = pre ++ k → omap (λ s,
    event ← db.(replay_events) !! s; decision ← db.(replay_decisions) !! s;
    Some (s, event.2, decision)) (seqZ (zlen pre) (zlen k)) = rows_from (zlen pre) k) as H.
  { induction k as [|p k IH]; intros pre Hl; [done|].
    pose proof (zlen_nonneg k). unfold zlen at 2. cbn [length]. rewrite Nat2Z.inj_succ.
    change (Z.of_nat (length k)) with (zlen k). rewrite seqZ_cons by lia. cbn [omap list_omap].
    rewrite (do_events _ _ D), (do_decisions _ _ D).
    pose proof (at_app pre (p :: k) 0) as Hat. rewrite <-Hl, Z.add_0_r in Hat. rewrite Hat. cbn.
    f_equal. specialize (IH (pre ++ [p])). rewrite zlen_snoc in IH.
    replace (Z.pred (Z.succ (zlen k))) with (zlen k) by lia. apply IH. by rewrite <-app_assoc. }
  exact (H l [] eq_refl).
Qed.

Lemma event_read e : is_Some (marshal_event e) → unmarshal_event (event_json e) = Some e.
Proof. intros [b Hb]. unfold event_json. rewrite Hb. by apply event_kept. Qed.

Lemma decision_read d : is_Some (marshal_decision d) → unmarshal_decision (dec_json d) = Some d.
Proof. intros [b Hb]. unfold dec_json. rewrite Hb. by apply decision_kept. Qed.

Lemma snapshot_read db l s p :
  db_of l db → at_ l s = Some p →
  match db.(replay_snapshots) !! s with
  | Some json => ∃ snap, unmarshal_snapshot json = Some snap ∧ snapshot_of identity p.1 p.2 s = Some snap
  | None => snapshot_of identity p.1 p.2 s = None
  end.
Proof.
  intros D Hp. destruct (do_entry _ _ D s p Hp) as [_ _ _ _ _ _ E].
  rewrite (do_snapshots _ _ D), Hp. cbn. unfold snap_of.
  destruct (snapshot_of identity p.1 p.2 s) as [snap|]; cbn; [|done].
  destruct (E snap eq_refl) as [j Hj]. exists snap. rewrite Hj. cbn. by rewrite (snapshot_kept _ _ Hj).
Qed.

Lemma committed_row db l s p :
  db_of l db → at_ l s = Some p →
  committed db s (s, event_json p.1, row_of p) = Ok (mkCommitted p.1 p.2 (snapshot_of identity p.1 p.2 s)).
Proof.
  intros D Hp. pose proof (snapshot_read db l s p D Hp) as HS.
  destruct (do_entry _ _ D s p Hp) as [E1 E2 E3 E4 E5 _ _].
  unfold ReplayRepository.committed, row_of. cbn [decision_json].
  rewrite (event_read _ E4), (decision_read _ E5). cbn.
  destruct (db.(replay_snapshots) !! s) as [j|].
  - destruct HS as (snap & -> & ->). cbn. by rewrite E1, E2, Z.eqb_refl, E3, bool_decide_eq_true_2.
  - rewrite HS. cbn. by rewrite E1, E2, Z.eqb_refl, E3, bool_decide_eq_true_2.
Qed.

(** What the verification has counted after a prefix. *)
Definition verified_of (l : list entry) : verified :=
  mkVerified (zlen l) (Z.of_nat (count_paths l)) (Z.of_nat (count_snapshots (zlen l)))
    (foldl baseline_of ∅ l).

Lemma count_paths_le l : (count_paths l ≤ length l)%nat.
Proof. apply length_filter. Qed.

Lemma count_snapshots_le n : 0 ≤ n → Z.of_nat (count_snapshots n) ≤ n.
Proof.
  intros Hn. unfold count_snapshots.
  pose proof (length_filter (λ s, records_snapshot identity s = true) (seqZ 0 n)) as H.
  rewrite length_seqZ in H. lia.
Qed.

Lemma wrap64_count n m : 0 ≤ n < 2 ^ 63 → 0 ≤ m ≤ 1 → wrap64 (n + m) = n + m.
Proof. intros. apply wrap64_small. unfold u64, MaxUint64. lia. Qed.

Lemma check_true (b : bool) detail : b = true → check b detail = Ok tt.
Proof. by intros ->. Qed.

Lemma check_then {A} (b : bool) detail (k : unit → res error A) r :
  b = true → k tt = r → (check b detail ≫= k) = r.
Proof. by intros ->. Qed.

(** The path and the snapshot of a row are counted. *)
Lemma verify_path db l pre p k :
  db_of l db → l = pre ++ p :: k → zlen pre < 2 ^ 63 → entry_ok (zlen pre) p →
  at_ l (zlen pre) = Some p →
  (if takes_path p.2 then
     expectedPath ← encoded (marshal_path p.2.(dec_Path));
     _ ← check (db.(replay_paths) !! zlen pre =?= Some expectedPath) "path";
     Ok (wrap64 (Z.of_nat (count_paths pre) + 1))
   else
     _ ← check (db.(replay_paths) !! zlen pre =?= None) "path";
     Ok (Z.of_nat (count_paths pre))) = Ok (Z.of_nat (count_paths (pre ++ [p]))).
Proof.
  intros D Hl Hsmall E Hp. rewrite count_paths_snoc, (do_paths _ _ D), Hp. cbn [mbind option_bind].
  pose proof (count_paths_le pre) as Hcp. unfold zlen in Hsmall.
  pose proof (en_path _ _ E) as EP. unfold path_of. destruct (takes_path p.2) eqn:Ht.
  - destruct (EP eq_refl) as [j Hj]. rewrite Hj. cbn.
    rewrite check_true by (by rewrite bool_decide_eq_true_2). cbn. rewrite wrap64_count by lia. f_equal. lia.
  - rewrite check_true by (by rewrite bool_decide_eq_true_2). cbn. f_equal. lia.
Qed.

Lemma verify_snapshot db l s p :
  db_of l db → at_ l s = Some p → 0 ≤ s < 2 ^ 63 →
  Bool.eqb (records_snapshot identity s) (bool_decide (is_Some (db.(replay_snapshots) !! s))) = true ∧
  match db.(replay_snapshots) !! s with
  | Some json =>
      snapshot ← decoded (unmarshal_snapshot json);
      _ ← check (snapshot_matches snapshot p.1 p.2) "snapshot";
      Ok (wrap64 (Z.of_nat (count_snapshots s) + 1))
  | None => Ok (Z.of_nat (count_snapshots s))
  end = Ok (Z.of_nat (count_snapshots (s + 1))).
Proof.
  intros D Hp Hs. pose proof (snapshot_read db l s p D Hp) as HS.
  pose proof (count_snapshots_le s ltac:(lia)) as Hcs. rewrite count_snapshots_snoc by lia.
  destruct (do_entry _ _ D s p Hp) as [E1 _ _ _ _ _ _].
  unfold snapshot_of in HS. destruct (db.(replay_snapshots) !! s) as [j|].
  - destruct HS as (snap & Hu & Hsn). destruct (records_snapshot identity s); [|done]. injection Hsn as <-.
    rewrite bool_decide_eq_true_2 by by eexists. split; [done|]. rewrite Hu. cbn.
    rewrite check_true.
    + cbn. rewrite wrap64_count by lia. f_equal. lia.
    + unfold snapshot_matches. cbn. by rewrite E1, !Z.eqb_refl.
  - destruct (records_snapshot identity s); [done|]. rewrite bool_decide_eq_false_2 by by intros [].
    split; [done|]. f_equal. lia.
Qed.

Lemma verify_row_db db l pre p k :
  db_of l db → l = pre ++ p :: k →
  verify_row db (zlen pre, event_json p.1, row_of p) (verified_of pre) = Ok (verified_of (pre ++ [p])).
Proof.
  intros D Hl. assert (at_ l (zlen pre) = Some p) as Hp.
  { pose proof (at_app pre (p :: k) 0) as Hat. by rewrite <-Hl, Z.add_0_r in Hat. }
  assert (zlen pre < 2 ^ 63) as Hsmall.
  { apply at_Some in Hp. pose proof (do_small _ _ D). lia. }
  pose proof (zlen_nonneg pre) as H0. pose proof (do_entry _ _ D _ p Hp) as E.
  destruct (verify_snapshot db l _ p D Hp (conj H0 Hsmall)) as [HR HS].
  pose proof (verify_path db l pre p k D Hl Hsmall E Hp) as HP.
  destruct E as [E1 E2 E3 E4 E5 _ _].
  unfold ReplayRepository.verify_row, row_of. cbn [decision_json].
  rewrite (event_read _ E4), (decision_read _ E5).
  cbn [decoded from_option mbind res_mbind res_bind verified_of ver_completed ver_paths ver_snapshots
    ver_baselines direct_cost chosen_cost decision_kind integrity_digest].
  apply check_then; [by rewrite E1, E2, E3, !Z.eqb_refl, bool_decide_eq_true_2|].
  apply check_then; [by rewrite !Z.eqb_refl, bool_decide_eq_true_2|].
  apply check_then; [by rewrite bool_decide_eq_true_2|].
  apply check_then; [rewrite (do_cross _ _ D), Hp; by rewrite bool_decide_eq_true_2|].
  cbn [mbind res_mbind res_bind] in HP, HS |- *. rewrite HP. cbn [mbind res_mbind res_bind].
  apply check_then; [done|]. rewrite HS. cbn [mbind res_mbind res_bind].
  f_equal. unfold verified_of. rewrite zlen_snoc, foldl_snoc, wrap64_count by lia. done.
Qed.

Lemma verify_rows_db db l k : ∀ pre,
  db_of l db → l = pre ++ k →
  verify_rows db (rows_from (zlen pre) k) (verified_of pre) = Ok (verified_of l).
Proof.
  induction k as [|p k IH]; intros pre D Hl; cbn [rows_from ReplayRepository.verify_rows].
  { by rewrite Hl, app_nil_r. }
  rewrite (verify_row_db db l pre p k D Hl). cbn [mbind res_mbind res_bind].
  rewrite <-(zlen_snoc pre p). apply IH; [done|]. by rewrite <-app_assoc.
Qed.

Lemma verify_db l db :
  db_of l db →
  verifyPersistedDerivedState ul sha256 unmarshal_event unmarshal_decision unmarshal_snapshot marshal_path
    identity db = Ok tt.
Proof.
  intros D. unfold verifyPersistedDerivedState, Progress.
  destruct (do_progress _ _ D) as (last & -> & Hlast). cbn [mbind res_mbind res_bind].
  rewrite (joined_rows_db l db D). change (mkVerified 0 0 0 ∅) with (verified_of []).
  pose proof (verify_rows_db db l l [] D eq_refl) as HV. change (zlen []) with 0 in HV. rewrite HV.
  cbn [mbind res_mbind res_bind verified_of ver_completed ver_paths ver_snapshots ver_baselines].
  apply check_then; [apply Z.eqb_refl|]. apply check_then.
  { destruct (Z.eqb_spec (zlen l) 0); [done|]. pose proof (zlen_nonneg l).
    rewrite Hlast by lia. cbn. by rewrite Z.eqb_refl. }
  apply check_then; [by rewrite (do_cross_size _ _ D), Z.eqb_refl|].
  apply check_then; [by rewrite (do_path_size _ _ D), Z.eqb_refl|].
  apply check_then; [by rewrite (do_snapshot_size _ _ D), Z.eqb_refl|].
  rewrite (do_baselines _ _ D). apply check_then.
  { apply forallb_forall. intros [key v] Hk%list_elem_of_In%elem_of_map_to_list.
    cbn. by apply bool_decide_eq_true_2. }
  apply check_true. by rewrite Nat.eqb_refl.
Qed.

(** ** Recovery *)

Abbreviation restore_item := (restore_item ul identity).

Fixpoint restore_all (l : list entry) (c : ReplayCoordinator) : option ReplayCoordinator :=
  match l with
  | [] => Some c
  | p :: l =>
      match Restore ul p.1 p.2 c with
      | (Ok _, c) => restore_all l c
      | _ => None
      end
  end.

Lemma restore_all_snoc l p c c1 c2 :
  restore_all l c = Some c1 → Restore ul p.1 p.2 c1 = (Ok tt, c2) → restore_all (l ++ [p]) c = Some c2.
Proof.
  revert c. induction l as [|q l IH]; intros c; cbn.
  - intros [= ->] H. by rewrite H.
  - destruct (Restore ul q.1 q.2 c) as [[u|e] c']; [|done]. apply IH.
Qed.

Lemma restore_item_db db l events pre p k c c1 :
  db_of l db → l = pre ++ p :: k → zlen l ≤ identity.(PreparedRows) →
  (∀ i p, l !! i = Some p → events !! i = Some p.1) →
  Restore ul p.1 p.2 c = (Ok tt, c1) →
  restore_item (inspect_trace events) (mkCommitted p.1 p.2 (snapshot_of identity p.1 p.2 (zlen pre)))
    (c, zlen pre, Z.of_nat (count_paths pre))
  = Ok (c1, zlen (pre ++ [p]), Z.of_nat (count_paths (pre ++ [p]))).
Proof.
  intros D Hl Hrows Htr Hre. pose proof (at_app pre (p :: k) 0) as Hp. rewrite <-Hl, Z.add_0_r in Hp.
  pose proof (at_Some _ _ _ Hp) as Hlt. pose proof (do_small _ _ D) as Hsmall.
  pose proof (count_paths_le pre) as Hcp.
  assert (l !! length pre = Some p) as Hlp by (rewrite Hl; by apply list_lookup_middle).
  pose proof (lookup_lt_Some _ _ _ (Htr _ _ Hlp)) as Hev.
  unfold ReplayRepository.restore_item. destruct (Z.leb_spec identity.(PreparedRows) (zlen pre)); [lia|].
  unfold inspect_trace. cbn [com_Event com_Decision].
  rewrite (en_event _ _ (do_entry _ _ D _ p Hp)).
  destruct (Z.leb_spec (zlen events) (zlen pre)); [unfold zlen in *; lia|].
  replace (Z.to_nat (zlen pre)) with (length pre) by (unfold zlen; lia).
  rewrite (Htr _ _ Hlp), (bool_decide_eq_true_2 (Some p.1 = Some p.1)) by done.
  cbn [negb mbind res_mbind res_bind]. rewrite Hre, zlen_snoc, count_paths_snoc, wrap64_count by lia.
  do 2 f_equal. unfold zlen in *. destruct (takes_path p.2); [rewrite wrap64_count by lia; lia|lia].
Qed.

Lemma visit_rows_db db l events k : ∀ pre c c',
  db_of l db → l = pre ++ k → zlen l ≤ identity.(PreparedRows) →
  (∀ i p, l !! i = Some p → events !! i = Some p.1) →
  restore_all k c = Some c' →
  visit_rows unmarshal_event unmarshal_decision unmarshal_snapshot
    (restore_item (inspect_trace events)) db (rows_from (zlen pre) k) (zlen pre)
    (c, zlen pre, Z.of_nat (count_paths pre)) = Ok (c', zlen l, Z.of_nat (count_paths l)).
Proof.
  induction k as [|p k IH]; intros pre c c' D Hl Hrows Htr Hre; cbn [rows_from visit_rows].
  { injection Hre as <-. by rewrite Hl, app_nil_r. }
  pose proof (at_app pre (p :: k) 0) as Hp. rewrite <-Hl, Z.add_0_r in Hp.
  pose proof (at_Some _ _ _ Hp) as Hlt. pose proof (do_small _ _ D) as Hsmall.
  rewrite (committed_row db l _ p D Hp). cbn [mbind res_mbind res_bind]. cbn [restore_all] in Hre.
  destruct (Restore ul p.1 p.2 c) as [[[]|e] c1] eqn:HR; [|done].
  rewrite (restore_item_db db l events pre p k c c1 D Hl Hrows Htr HR). cbn [mbind res_mbind res_bind].
  rewrite wrap64_count by lia. rewrite <-(zlen_snoc pre p).
  apply IH; [done| |done..]. by rewrite <-app_assoc.
Qed.

Lemma recover_db db l events init pr po c0 c :
  db_of l db → zlen l ≤ identity.(PreparedRows) →
  (∀ i p, l !! i = Some p → events !! i = Some p.1) →
  NewReplayCoordinator ul identity.(id_Setting) init pr po = Ok c0 → restore_all l c0 = Some c →
  recoverReplayCoordinator ul sha256 unmarshal_event unmarshal_decision unmarshal_snapshot marshal_path
    identity db identity.(id_Setting) init pr po (inspect_trace events)
  = Ok (c, zlen l, Z.of_nat (count_paths l)).
Proof.
  intros D Hrows Htr Hnew Hre. unfold recoverReplayCoordinator.
  rewrite bool_decide_eq_true_2 by done. cbn [negb]. rewrite Hnew. cbn [mbind res_mbind res_bind].
  rewrite (verify_db l db D). cbn [mbind res_mbind res_bind]. unfold ForEachCompleted.
  rewrite (joined_rows_db l db D).
  exact (visit_rows_db db l events l [] c0 c D eq_refl Hrows Htr Hre).
Qed.

(** ** The loop *)

Abbreviation CommitEvent := (CommitEvent ul sha256 marshal_event marshal_decision marshal_snapshot
  marshal_path identity).
Abbreviation run_loop := (λ ranges scratches live, run_loop ul sha256 marshal_event marshal_decision
  marshal_snapshot marshal_path ranges scratches live identity).

(** The orders of iteration and the memory of the searches, by sequence. *)
Definition oracle : Type :=
  (Z → nat → gmap ReplayBlockKey ReplayEdge → list (ReplayBlockKey * ReplayEdge)) *
  (Z → replaySearchScratch).

Definition oracle_ok (o : oracle) : Prop :=
  (∀ s n m, o.1 s n m ≡ₚ map_to_list m) ∧ ∀ s, scratch_ok (o.2 s).

Definition agree (o o' : oracle) (a b : Z) : Prop := ∀ s, a ≤ s < b → o.1 s = o'.1 s ∧ o.2 s = o'.2 s.

Section Loop.
Context (events : list ReplayEvent) (c0 : ReplayCoordinator).
Hypothesis trace_ok : ∀ i e, events !! i = Some e →
  e.(Sequence) = Z.of_nat i ∧ event_canonical ul e.

(** The state after the events of the list. *)
Record ran (l : list entry) (c : ReplayCoordinator) (db : DB) : Prop := {
  rn_db : db_of l db;
  rn_restored : restore_all l c0 = Some c;
  rn_ok : coordinator_ok ul c;
  rn_setting : c.(setting) = identity.(id_Setting);
  rn_trace i p : l !! i = Some p → events !! i = Some p.1
}.

Lemma run_step o l c db e d c1 db1 :
  oracle_ok o → ran l c db → events !! length l = Some e →
  Process ul (o.1 (zlen l)) (o.2 (zlen l)) e c = (Ok d, c1) →
  CommitEvent e d (snapshot_of identity e d (zlen l)) db = Ok db1 →
  ran (l ++ [(e, d)]) c1 db1.
Proof.
  intros [Ho1 Ho2] R He HP HC. destruct (trace_ok _ _ He) as [Hs Hcan]. fold (zlen l) in Hs.
  destruct R as [R1 R2 R3 R4 R5].
  destruct (CommitEvent_db l db e d db1 R1 Hs HC) as (D & _).
  destruct (Process_stepped ul _ _ c e d c1 R3 Hcan HP) as (v1 & v2 & est & ST & AN).
  split.
  - done.
  - eapply restore_all_snoc; [done|].
    exact (Restore_stepped ul _ _ (Ho1 _) (Ho2 _) c e v1 v2 est d c1 R3 Hcan ST AN).
  - by eapply stepped_ok.
  - destruct ST as [_ _ _ _ ->]. done.
  - intros i p Hi. apply lookup_app_Some in Hi as [?|[Hge [Hz <-]%list_lookup_singleton_Some]]; [by apply R5|].
    cbn. replace i with (length l) by lia. done.
Qed.

Lemma run_loop_live o rest : ∀ s c db n m,
  (length rest ≤ n)%nat → (length rest ≤ m)%nat →
  run_loop o.1 o.2 n rest s c db = run_loop o.1 o.2 m rest s c db.
Proof.
  induction rest as [|e rest IH]; intros s c db [|n] [|m] Hn Hm; cbn in *; try done; try lia.
  destruct (Process _ _ _ e c) as [[d|er] c1]; [|done].
  destruct (ReplayRepository.CommitEvent _ _ _ _ _ _ _ e d _ db); [|done]. apply IH; lia.
Qed.

Lemma run_loop_agree o o' rest n : ∀ s c db,
  agree o o' s (s + zlen rest) → run_loop o.1 o.2 n rest s c db = run_loop o'.1 o'.2 n rest s c db.
Proof.
  revert rest. induction n as [|n IH]; intros [|e rest] s c db Hag; cbn; try done.
  unfold zlen in Hag. cbn [length] in Hag.
  destruct (Hag s ltac:(lia)) as [-> ->]. destruct (Process _ _ _ e c) as [[d|er] c1]; [|done].
  destruct (ReplayRepository.CommitEvent _ _ _ _ _ _ _ e d _ db); [|done].
  apply IH. intros i Hi. apply Hag. unfold zlen in Hi. lia.
Qed.

(** A run that is cut after some events: where it stops, and that any run that
    ranges the same way up to there goes on from there. *)
Lemma run_loop_cut o live : ∀ l c db,
  oracle_ok o → ran l c db →
  ∃ l' c', ran l' c' (run_loop o.1 o.2 live (drop (length l) events) (zlen l) c db).2 ∧
    zlen l ≤ zlen l' ∧
    ∀ o' n m, agree o' o (zlen l) (zlen l') → (length events ≤ n)%nat → (length events ≤ m)%nat →
      run_loop o'.1 o'.2 n (drop (length l) events) (zlen l) c db =
      run_loop o'.1 o'.2 m (drop (length l') events) (zlen l') c'
        (run_loop o.1 o.2 live (drop (length l) events) (zlen l) c db).2.
Proof.
  induction live as [|live IH]; intros l c db Ho R.
  all: assert (∀ db', db' = db → ∃ l' c', ran l' c' db' ∧ zlen l ≤ zlen l' ∧
    ∀ o' n m, agree o' o (zlen l) (zlen l') → (length events ≤ n)%nat → (length events ≤ m)%nat →
      run_loop o'.1 o'.2 n (drop (length l) events) (zlen l) c db =
      run_loop o'.1 o'.2 m (drop (length l') events) (zlen l') c' db') as Hstop by
    (intros ? ->; exists l, c; split_and!; [done|done|]; intros o' n m _ Hn Hm;
     apply run_loop_live; rewrite length_drop; lia).
  { destruct (drop (length l) events) as [|e rest] eqn:Hd; by apply Hstop. }
  destruct (drop (length l) events) as [|e rest] eqn:Hd; [by apply Hstop|].
  assert (events !! length l = Some e) as He.
  { rewrite <-(Nat.add_0_r (length l)), <-lookup_drop, Hd. done. }
  cbn [ReplayRepository.run_loop].
  destruct (Process ul (o.1 (zlen l)) (o.2 (zlen l)) e c) as [[d|er] c1] eqn:HP; [|by apply Hstop].
  destruct (CommitEvent e d (snapshot_of identity e d (zlen l)) db) as [db1|er] eqn:HC; [|by apply Hstop].
  pose proof (run_step o l c db e d c1 db1 Ho R He HP HC) as R1.
  destruct (IH (l ++ [(e, d)]) c1 db1 Ho R1) as (l' & c' & Hl' & Hle & Hrun).
  assert (drop (length (l ++ [(e, d)])) events = rest) as Hd1.
  { rewrite length_app. cbn. rewrite <-drop_drop, Hd. done. }
  rewrite Hd1, zlen_snoc in *. exists l', c'. split_and!; [done|lia|].
  intros o' n m Hag Hn Hm. destruct n as [|n].
  { apply lookup_lt_Some in He. lia. }
  cbn [ReplayRepository.run_loop]. destruct (Hag (zlen l) ltac:(lia)) as [-> ->]. rewrite HP, HC.
  rewrite (run_loop_live o' rest _ _ _ n m).
  - apply Hrun; [|lia|lia]. intros s Hs. apply Hag. lia.
  - apply (f_equal length) in Hd. rewrite length_drop in Hd. cbn in Hd. lia.
  - apply (f_equal length) in Hd. rewrite length_drop in Hd. cbn in Hd. lia.
Qed.
End Loop.

End Recovering.

(** ** Attempts at a run *)

Section Attempts.
Context (ul : string → string) (sha256 : bytes → bytes).
Context (marshal_identity : ReplayRunIdentity → bytes).
Context (marshal_event : ReplayEvent → option bytes) (unmarshal_event : bytes → option ReplayEvent).
Context (marshal_decision : ReplayDecision → option bytes)
  (unmarshal_decision : bytes → option ReplayDecision).
Context (marshal_snapshot : ReplaySnapshot → option bytes)
  (unmarshal_snapshot : bytes → option ReplaySnapshot).
Context (marshal_path : ReplayPath → option bytes).
Context (identity : ReplayRunIdentity) (events : list ReplayEvent) (init : list (string * Z))
  (profile : CostProfile) (policy : CheckpointPolicy).

Definition attempt (o : oracle) (live : nat) (db : DB) : res error ReplayCoordinator * DB :=
  run_setting ul sha256 marshal_identity marshal_event unmarshal_event marshal_decision unmarshal_decision
    marshal_snapshot unmarshal_snapshot marshal_path o.1 o.2 live identity events init profile policy db.

(** The databases that any number of attempts leaves, each with its own orders
    of iteration, and each stopped by its context at some event or by an error. *)
Inductive attempted : DB → Prop :=
| attempted_none : attempted empty_db
| attempted_more db o live : attempted db → oracle_ok o → attempted (attempt o live db).2.

Hypothesis event_kept : ∀ e b, marshal_event e = Some b → unmarshal_event b = Some e.
Hypothesis decision_kept : ∀ d b, marshal_decision d = Some b → unmarshal_decision b = Some d.
Hypothesis snapshot_kept : ∀ s b, marshal_snapshot s = Some b → unmarshal_snapshot b = Some s.
Hypothesis trace_ok : ∀ i e, events !! i = Some e → e.(Sequence) = Z.of_nat i ∧ event_canonical ul e.
Hypothesis rows_ok : identity.(PreparedRows) = zlen events.
Hypothesis profile_good : profile_ok profile.
Hypothesis policy_good : ∀ chain period, policy !! chain = Some period → 0 < period.

Abbreviation Open := (OpenReplayRepository marshal_identity identity).
Abbreviation run_loop := (λ ranges scratches live, run_loop ul sha256 marshal_event marshal_decision
  marshal_snapshot marshal_path ranges scratches live).
Abbreviation recover id db := (recoverReplayCoordinator ul sha256 unmarshal_event unmarshal_decision
  unmarshal_snapshot marshal_path id db id.(id_Setting) init profile policy (inspect_trace events)).
Abbreviation db_of := (db_of ul sha256 marshal_identity marshal_event marshal_decision marshal_snapshot
  marshal_path).
Abbreviation ran := (λ id, ran ul sha256 marshal_identity marshal_event marshal_decision marshal_snapshot
  marshal_path id events).

Lemma open_db id db1 :
  Open empty_db = Ok (id, db1) →
  db_of id [] db1 ∧ id.(PreparedRows) = zlen events ∧ ∀ l db, db_of id l db → Open db = Ok (id, db).
Proof.
  unfold OpenReplayRepository. set (id' := if _ =? 0 then _ else _).
  assert (id'.(PreparedRows) = zlen events) as Hrows.
  { unfold id'. by destruct (_ =? 0). }
  destruct (_ || _ || _) eqn:H1; [done|]. destruct (negb (known_setting _)) eqn:H2; [done|].
  cbn. intros [= <- <-]. split_and!; [|done|].
  - split; cbn; try done; [by eexists|by eexists|..].
    1-5: intros s; rewrite at_nil; apply lookup_empty.
    intros s p. by rewrite at_nil.
  - intros l db D. destruct (do_runs _ _ _ _ _ _ _ _ _ _ D) as [rid Hr].
    destruct (do_progress _ _ _ _ _ _ _ _ _ _ D) as (last & Hp & _).
    unfold initialize. rewrite Hr, bool_decide_eq_true_2 by done. cbn [negb mbind res_mbind res_bind].
    rewrite bool_decide_eq_true_2 by (rewrite Hp; by eexists). done.
Qed.

(** The orders of [o] up to a sequence number, those of [o'] after. *)
Definition splice (n : Z) (o o' : oracle) : oracle :=
  (λ s, if s <? n then o.1 s else o'.1 s, λ s, if s <? n then o.2 s else o'.2 s).

Lemma splice_ok n o o' : oracle_ok o → oracle_ok o' → oracle_ok (splice n o o').
Proof.
  intros [H1 H2] [H3 H4]. split; cbn.
  - intros s k m. by destruct (s <? n).
  - intros s. by destruct (s <? n).
Qed.

Lemma splice_left n o o' a b : b ≤ n → agree (splice n o o') o a b.
Proof. intros Hb s Hs. cbn. by destruct (Z.ltb_spec s n); [|lia]. Qed.

Lemma splice_right n o o' a b : n ≤ a → agree (splice n o o') o' a b.
Proof. intros Hb s Hs. cbn. by destruct (Z.ltb_spec s n); [lia|]. Qed.

Lemma agree_trans o1 o2 o3 a b a' b' :
  agree o1 o2 a b → agree o2 o3 a' b' → a ≤ a' → b' ≤ b → agree o1 o3 a' b'.
Proof.
  intros H1 H2 Ha Hb s Hs. destruct (H1 s ltac:(lia)) as [-> ->]. by apply H2.
Qed.

(** Where an attempted run stands: not opened, opened without a coordinator, or
    after some events, from which a run goes on as one that was never stopped. *)
Definition stands (db : DB) : Prop :=
  db = empty_db ∨ ∃ id db1, Open empty_db = Ok (id, db1) ∧
    ((∃ e, NewReplayCoordinator ul id.(id_Setting) init profile policy = Err e ∧ db = db1) ∨
     ∃ c0 l c o1, NewReplayCoordinator ul id.(id_Setting) init profile policy = Ok c0 ∧
       ran id c0 l c db ∧ oracle_ok o1 ∧
       ∀ o' n m, agree o' o1 0 (zlen l) → (length events ≤ n)%nat → (length events ≤ m)%nat →
         run_loop o'.1 o'.2 n id events 0 c0 db1 =
         run_loop o'.1 o'.2 m id (drop (length l) events) (zlen l) c db).

Lemma stands_opened id db1 c0 :
  Open empty_db = Ok (id, db1) → NewReplayCoordinator ul id.(id_Setting) init profile policy = Ok c0 →
  ran id c0 [] c0 db1.
Proof.
  intros HO HN. destruct (open_db _ _ HO) as (D & _ & _). split; try done.
  - by eapply new_coordinator_ok.
  - revert HN. unfold NewReplayCoordinator. destruct (negb _); [done|].
    by intros (v & _ & [= <-])%bind_Ok.
Qed.

Lemma attempt_from o live id db1 c0 l c db :
  Open empty_db = Ok (id, db1) → NewReplayCoordinator ul id.(id_Setting) init profile policy = Ok c0 →
  ran id c0 l c db →
  attempt o live db = run_loop o.1 o.2 live id (drop (length l) events) (zlen l) c db.
Proof.
  intros HO HN R. destruct (open_db _ _ HO) as (_ & Hrows & Hopen). unfold attempt, run_setting.
  rewrite (Hopen l db) by apply R.
  rewrite (recover_db ul sha256 marshal_identity marshal_event unmarshal_event marshal_decision
    unmarshal_decision marshal_snapshot unmarshal_snapshot marshal_path id event_kept decision_kept
    snapshot_kept db l events init profile policy c0 c); [| |..].
  - cbn. unfold zlen at 1. by rewrite Nat2Z.id.
  - apply R.
  - rewrite Hrows. unfold zlen. destruct (decide (length l ≤ length events)%nat); [lia|].
    assert (is_Some (l !! length events)) as [p Hp] by (apply lookup_lt_is_Some_2; lia).
    apply (rn_trace _ _ _ _ _ _ _ _ _ _ _ _ _ R), lookup_lt_Some in Hp. lia.
  - apply R.
  - done.
  - apply R.
Qed.

Lemma attempt_new_fails o live id db1 e :
  Open empty_db = Ok (id, db1) → NewReplayCoordinator ul id.(id_Setting) init profile policy = Err e →
  attempt o live empty_db = (Err e, db1) ∧ attempt o live db1 = (Err e, db1).
Proof.
  intros HO HN. destruct (open_db _ _ HO) as (D & _ & Hopen). unfold attempt, run_setting.
  rewrite HO, (Hopen [] db1 D). unfold recoverReplayCoordinator.
  rewrite bool_decide_eq_true_2 by done. cbn [negb]. rewrite HN. done.
Qed.

Lemma attempt_open o live id db1 :
  Open empty_db = Ok (id, db1) → attempt o live empty_db = attempt o live db1.
Proof.
  intros HO. destruct (open_db _ _ HO) as (D & _ & Hopen). unfold attempt, run_setting.
  by rewrite HO, (Hopen [] db1 D).
Qed.

Lemma stands_ran o live id db1 c0 l c o1 db :
  Open empty_db = Ok (id, db1) → NewReplayCoordinator ul id.(id_Setting) init profile policy = Ok c0 →
  ran id c0 l c db → oracle_ok o1 → oracle_ok o →
  (∀ o' n m, agree o' o1 0 (zlen l) → (length events ≤ n)%nat → (length events ≤ m)%nat →
    run_loop o'.1 o'.2 n id events 0 c0 db1 =
    run_loop o'.1 o'.2 m id (drop (length l) events) (zlen l) c db) →
  stands (attempt o live db).2.
Proof.
  intros HO HN R Ho1 Ho Hrun.
  destruct (run_loop_cut ul sha256 marshal_identity marshal_event marshal_decision marshal_snapshot marshal_path
    id events c0 trace_ok o live l c db Ho R) as (l' & c' & R' & Hle & Hgo).
  rewrite (attempt_from o live id db1 c0 l c db HO HN R). right. exists id, db1. split; [done|]. right.
  exists c0, l', c', (splice (zlen l) o1 o). split_and!; [done|exact R'|by apply splice_ok|].
  intros o' n m Hag Hn Hm. rewrite (Hrun o' n n).
  - apply Hgo; [|done..]. eapply agree_trans; [exact Hag|by apply splice_right|by apply zlen_nonneg|done].
  - eapply agree_trans; [exact Hag|by apply splice_left|done|done].
  - done.
  - done.
Qed.

Lemma attempted_stands db : attempted db → stands db.
Proof.
  induction 1 as [|db o live Hdb IH Ho]; [by left|].
  assert (∀ id db1, Open empty_db = Ok (id, db1) → stands (attempt o live db1).2) as Hfirst.
  { intros id db1 HO. destruct (NewReplayCoordinator ul id.(id_Setting) init profile policy) as [c0|e] eqn:HN.
    - eapply stands_ran; [done|done|by eapply stands_opened|exact Ho|done|].
      intros o' n m _ Hn Hm. by apply run_loop_live.
    - destruct (attempt_new_fails o live id db1 e HO HN) as [_ ->].
      right. exists id, db1. split; [done|]. left. by exists e. }
  destruct IH as [->|(id & db1 & HO & [(e & HN & ->)|(c0 & l & c & o1 & HN & R & Ho1 & Hrun)])].
  - destruct (Open empty_db) as [[id db1]|e] eqn:HO.
    + rewrite (attempt_open o live id db1 HO). by eapply Hfirst.
    + left. unfold attempt, run_setting. by rewrite HO.
  - by eapply Hfirst.
  - by eapply stands_ran.
Qed.

(** C7. A run can be stopped any number of times, between two events or by an error,
    and started again: the next attempt, which restores the committed events from
    the tables, ends with the answer, the coordinator and the tables of a run that
    was never stopped. *)
Theorem run_resumes db o n :
  attempted db → oracle_ok o → (length events ≤ n)%nat →
  ∃ o', oracle_ok o' ∧ attempt o n db = attempt o' n empty_db.
Proof.
  intros Hdb Ho Hn.
  destruct (attempted_stands db Hdb) as
    [->|(id & db1 & HO & [(e & HN & ->)|(c0 & l & c & o1 & HN & R & Ho1 & Hrun)])].
  - by exists o.
  - exists o. split; [done|]. symmetry. by eapply attempt_open.
  - exists (splice (zlen l) o1 o). split; [by apply splice_ok|].
    rewrite (attempt_open _ n id db1 HO).
    rewrite (attempt_from _ n id db1 c0 [] c0 db1 HO HN (stands_opened _ _ _ HO HN)).
    rewrite (attempt_from o n id db1 c0 l c db HO HN R).
    rewrite (Hrun _ n n) by (try done; by apply splice_left).
    symmetry. by eapply run_loop_agree, splice_right.
Qed.

End Attempts.

End ReplayRepository.
