(* ===== verification/ReplayNames.v ===== *)
(** * Mapnode/replay: canonical chain names

    The replay names a chain by [canonicalChain], trimmed and in lower case, and
    applies it again wherever a name comes in: it changes a name only once. *)

From Stdlib Require Import Strings.Byte.
From S2P Require Import Prelude ReplayView.
Import ReplayView.

Module ReplayNames.

(** Trimming drops some first bytes, whatever follows, or nothing. *)
Definition drops_first (f : bytes → bytes) (l : bytes) : Prop :=
  f l = l ∨ ∃ pre k, l = pre ++ k ∧ pre ≠ [] ∧ ∀ r, f (l ++ r) = f (k ++ r).

Lemma trim_front_drops l : drops_first trim_front l.
Proof.
  destruct l as [|b r]; [by left|].
  destruct b; try (by left); try (right; eexists [_], r; by split_and!).
  all: destruct r as [|b2 r]; [by left|]; destruct b2; try (by left);
    try (right; eexists [_; _], r; by split_and!).
  all: destruct r as [|b3 r]; [by left|]; destruct b3; try (by left);
    try (right; eexists [_; _; _], r; by split_and!).
Qed.

Lemma trim_back_drops l : drops_first trim_back l.
Proof.
  destruct l as [|b r]; [by left|].
  destruct b; try (by left); try (right; eexists [_], r; by split_and!).
  all: destruct r as [|b2 r]; [by left|]; destruct b2; try (by left);
    try (right; eexists [_; _], r; by split_and!).
  all: destruct r as [|b3 r]; [by left|]; destruct b3; try (by left);
    try (right; eexists [_; _; _], r; by split_and!).
Qed.

Section Trimming.
Context (f : bytes → bytes).
Hypothesis f_drops : ∀ l, drops_first f l.

Lemma trim_suffix l : f l `suffix_of` l ∧ f (f l) = f l.
Proof.
  remember (length l) as n eqn:Hn. revert l Hn. induction (lt_wf n) as [n _ IH]. intros l ->.
  destruct (f_drops l) as [E|(pre & k & -> & Hne & Hr)]; [by rewrite !E|].
  specialize (Hr []). rewrite !app_nil_r in Hr. rewrite Hr.
  destruct (IH (length k)) with (l := k) as [H1 H2]; [|done|].
  { rewrite length_app. destruct pre; [done|]. cbn. lia. }
  split; [|done]. by apply suffix_app_r.
Qed.

(** A text without white space in front has none after its end is cut. *)
Lemma trim_prefix p r : f (p ++ r) = p ++ r → f p = p.
Proof.
  intros H. destruct (f_drops p) as [E|(pre & k & -> & Hne & Hr)]; [done|].
  specialize (Hr r). rewrite H in Hr. destruct (trim_suffix (k ++ r)) as [Hs _].
  apply suffix_length in Hs. rewrite <-Hr, !length_app in Hs. destruct pre; [done|]. cbn in Hs. lia.
Qed.
End Trimming.

Lemma bytes_of_trimmed l : bytes_of_string (String.string_of_list_byte l) = l.
Proof. apply String.list_byte_of_string_of_list_byte. Qed.

Lemma TrimSpace_twice s : TrimSpace (TrimSpace s) = TrimSpace s.
Proof.
  unfold TrimSpace. rewrite bytes_of_trimmed. set (l := bytes_of_string s).
  destruct (trim_suffix trim_front trim_front_drops l) as [_ F].
  set (m := trim_front l) in *.
  destruct (trim_suffix trim_back trim_back_drops (rev m)) as [[p Hp] B].
  set (k := trim_back (rev m)) in *.
  assert (m = rev k ++ rev p) as Hm by (by rewrite <-rev_app_distr, <-Hp, rev_involutive).
  rewrite Hm in F. rewrite (trim_prefix trim_front trim_front_drops _ _ F).
  by rewrite rev_involutive, B.
Qed.

(** Lower case keeps the white space of an ASCII text where it is. *)
Definition ascii (l : bytes) : Prop := forallb (λ b, byte_val b <? 128) l = true.

Lemma lower_trim_front l : ascii l → trim_front (map lower_byte l) = map lower_byte (trim_front l).
Proof.
  induction l as [|b l IH]; [done|]. unfold ascii. cbn [forallb]. intros [Hb Hl]%andb_true_iff.
  destruct b; try discriminate Hb; try reflexivity; by apply IH.
Qed.

Lemma lower_trim_back l : ascii l → trim_back (map lower_byte l) = map lower_byte (trim_back l).
Proof.
  induction l as [|b l IH]; [done|]. unfold ascii. cbn [forallb]. intros [Hb Hl]%andb_true_iff.
  destruct b; try discriminate Hb; try reflexivity; by apply IH.
Qed.

Lemma ascii_suffix l k : k `suffix_of` l → ascii l → ascii k.
Proof. intros [p ->]. unfold ascii. rewrite forallb_app. by intros [_ H]%andb_true_iff. Qed.

Lemma ascii_rev l : ascii l → ascii (rev l).
Proof.
  unfold ascii. rewrite !forallb_forall. intros H b Hb. apply H. by apply in_rev.
Qed.

Lemma lower_byte_ascii b : byte_val b < 128 → byte_val (lower_byte b) < 128 ∧ lower_byte (lower_byte b) = lower_byte b.
Proof. intros H. destruct b; try (exfalso; revert H; by vm_compute); by split. Qed.

Lemma lower_ascii l : ascii l → ascii (map lower_byte l) ∧ map lower_byte (map lower_byte l) = map lower_byte l.
Proof.
  unfold ascii. induction l as [|b l IH]; [done|]. cbn. intros [Hb Hl]%andb_true_iff.
  apply Z.ltb_lt in Hb. destruct (lower_byte_ascii b Hb) as [H1 H2]. destruct (IH Hl) as [I1 I2].
  split; [|by rewrite H2, I2]. apply andb_true_iff. split; [by apply Z.ltb_lt|done].
Qed.

Lemma TrimSpace_lower l :
  ascii l →
  TrimSpace (String.string_of_list_byte (map lower_byte l))
  = String.string_of_list_byte (map lower_byte (bytes_of_string (TrimSpace (String.string_of_list_byte l)))).
Proof.
  intros Ha. unfold TrimSpace. rewrite !bytes_of_trimmed, lower_trim_front by done.
  assert (ascii (trim_front l)) as Hf.
  { by apply (ascii_suffix l); [apply trim_suffix, trim_front_drops|]. }
  by rewrite <-map_rev, lower_trim_back, map_rev by (by apply ascii_rev).
Qed.

Section Canonical.
Context (unicode_ToLower : string → string).
(** On a name that is not ASCII, already trimmed, [strings.ToLower] gives a
    canonical one. *)
Hypothesis unicode_canonical : ∀ s,
  is_ascii s = false → TrimSpace s = s →
  canonicalChain unicode_ToLower (unicode_ToLower s) = unicode_ToLower s.

Lemma canonicalChain_twice s :
  canonicalChain unicode_ToLower (canonicalChain unicode_ToLower s) = canonicalChain unicode_ToLower s.
Proof.
  unfold canonicalChain at 2 3. set (t := TrimSpace s).
  assert (TrimSpace t = t) as Ht by apply TrimSpace_twice.
  unfold ToLower at 1 2. destruct (is_ascii t) eqn:Ha; [|by apply unicode_canonical].
  unfold is_ascii in Ha. fold (ascii (bytes_of_string t)) in Ha. unfold canonicalChain.
  rewrite (TrimSpace_lower _ Ha). unfold bytes_of_string at 3.
  rewrite String.string_of_list_byte_of_string, Ht.
  destruct (lower_ascii _ Ha) as [H1 H2]. unfold ToLower, is_ascii. rewrite bytes_of_trimmed.
  fold (ascii (map lower_byte (bytes_of_string t))).
  rewrite H1, H2. done.
Qed.
End Canonical.

End ReplayNames.
