(* ===== verification/ReplayHeight.v ===== *)
(** * Mapnode/replay: the heights of a trace

    [parseLegacyHeight] of replay_trace.go: block numbers come as decimal text,
    often in scientific notation, and become unsigned 64-bit heights.  The
    theorem relates the parser to the grammar of numerals. *)

From Stdlib Require Import Strings.Byte.
From S2P Require Import Prelude ReplayView.
Import ReplayView.

Module ReplayHeight.

(** ** Heights *)

Definition is_digit (b : Byte.byte) : bool := (48 <=? byte_val b) && (byte_val b <=? 57).
Definition is_exponent (b : Byte.byte) : bool := (byte_val b =? 101) || (byte_val b =? 69).
Definition is_point (b : Byte.byte) : bool := byte_val b =? 46.

Definition decimal (l : bytes) : Z := foldl (λ n b, n * 10 + (byte_val b - 48)) 0 l.

(** What stands before and after the first byte of a kind. *)
Fixpoint cut_at (p : Byte.byte → bool) (l : bytes) : bytes * option bytes :=
  match l with
  | [] => ([], None)
  | b :: r => if p b then ([], Some r) else let '(before, after) := cut_at p r in (b :: before, after)
  end.

(** [strconv.ParseInt(s, 10, 32)] *)
Definition ParseInt32 (l : bytes) : option Z :=
  let '(negative, digits) :=
    match l with
    | x2d :: r => (true, r)
    | x2b :: r => (false, r)
    | _ => (false, l)
    end in
  if (zlen digits =? 0) || negb (forallb is_digit digits) then None
  else
    let n := if negative : bool then - decimal digits else decimal digits in
    if (n <? - 2 ^ 31) || (2 ^ 31 - 1 <? n) then None else Some n.

(** The quotient, rounded half to even. *)
Definition round_half_even (coefficient divisor : Z) : Z :=
  let quotient := coefficient / divisor in
  let twice := 2 * (coefficient mod divisor) in
  if (divisor <? twice) || ((twice =? divisor) && Z.odd quotient) then quotient + 1 else quotient.

Definition parseLegacyHeight (value : string) : option Z :=
  let text := bytes_of_string (TrimSpace value) in
  if (zlen text =? 0) || (1024 <? zlen text) then None
  else if match text with x2d :: _ => true | _ => false end then None
  else
    let text := match text with x2b :: r => r | _ => text end in
    let '(mantissa, after) := cut_at is_exponent text in
    exponent ←
      match after with
      | None => Some 0
      | Some exponent =>
          if existsb is_exponent exponent then None
          else
            e ← ParseInt32 exponent;
            if (e <? -1024) || (1024 <? e) then None else Some e
      end;
    let '(whole, rest) := cut_at is_point mantissa in
    let fraction := default [] rest in
    if existsb is_point fraction then None
    else if (zlen whole =? 0) && (zlen fraction =? 0) then None
    else if negb (forallb is_digit (whole ++ fraction)) then None
    else
      let coefficient := decimal (whole ++ fraction) in
      let scale := zlen fraction - exponent in
      let result :=
        if scale <=? 0 then coefficient * 10 ^ (- scale)
        else round_half_even coefficient (10 ^ scale) in
      if MaxUint64 <? result then None else Some result.

Example height_plain : parseLegacyHeight " 1234 " = Some 1234.
Proof. reflexivity. Qed.
Example height_scientific : parseLegacyHeight "+1.25e3" = Some 1250.
Proof. reflexivity. Qed.
Example height_half_down : parseLegacyHeight "2.5" = Some 2.
Proof. reflexivity. Qed.
Example height_half_up : parseLegacyHeight "35e-1" = Some 4.
Proof. reflexivity. Qed.
Example height_max : parseLegacyHeight "18446744073709551615" = Some MaxUint64.
Proof. reflexivity. Qed.
Example height_over : parseLegacyHeight "18446744073709551616" = None.
Proof. reflexivity. Qed.
Example height_negative : parseLegacyHeight "-1" = None.
Proof. reflexivity. Qed.

(** ** Lemmas: the grammar of heights *)

Definition none (p : Byte.byte → bool) (l : bytes) : Prop := ∀ b, b ∈ l → p b = false.
Definition digits (l : bytes) : Prop := ∀ b, b ∈ l → is_digit b = true.

Lemma cut_at_spec p l :
  match cut_at p l with
  | (a, None) => l = a ∧ none p a
  | (a, Some r) => ∃ x, l = a ++ x :: r ∧ p x = true ∧ none p a
  end.
Proof.
  induction l as [|b l IH]; cbn; [split; [done|]; by intros ? ?%elem_of_nil|].
  destruct (p b) eqn:Hb.
  - exists b. split_and!; [done|done|]. by intros ? ?%elem_of_nil.
  - destruct (cut_at p l) as [a [r|]].
    + destruct IH as (x & -> & Hx & Hn). exists x. split_and!; [done|done|].
      by intros c [->|Hc]%elem_of_cons; [|apply Hn].
    + destruct IH as [-> Hn]. split; [done|]. by intros c [->|Hc]%elem_of_cons; [|apply Hn].
Qed.

Lemma cut_at_none p a : none p a → cut_at p a = (a, None).
Proof.
  induction a as [|b a IH]; intros Hn; cbn; [done|].
  rewrite (Hn b) by left. by rewrite IH; [|intros c Hc; apply Hn; right].
Qed.

Lemma cut_at_some p a x r : none p a → p x = true → cut_at p (a ++ x :: r) = (a, Some r).
Proof.
  induction a as [|b a IH]; intros Hn Hx; cbn; [by rewrite Hx|].
  rewrite (Hn b) by left. by rewrite IH; [|intros c Hc; apply Hn; right|].
Qed.

Lemma existsb_none p l : existsb p l = false ↔ none p l.
Proof.
  induction l as [|b l IH]; cbn; [split; [by intros _ ? ?%elem_of_nil|done]|].
  rewrite orb_false_iff, IH. split.
  - intros [H1 H2] c [->|Hc]%elem_of_cons; auto.
  - intros H. split; [apply H; left|]. intros c Hc. apply H. by right.
Qed.

Lemma forallb_digits l : forallb is_digit l = true ↔ digits l.
Proof.
  induction l as [|b l IH]; cbn; [split; [by intros _ ? ?%elem_of_nil|done]|].
  rewrite andb_true_iff, IH. split.
  - intros [H1 H2] c [->|Hc]%elem_of_cons; auto.
  - intros H. split; [apply H; left|]. intros c Hc. apply H. by right.
Qed.

Lemma digits_none p l : (∀ b, is_digit b = true → p b = false) → digits l → none p l.
Proof. intros Hp Hl b Hb. by apply Hp, Hl. Qed.

Lemma digit_exponent b : is_digit b = true → is_exponent b = false.
Proof. by destruct b. Qed.

Lemma digit_point b : is_digit b = true → is_point b = false.
Proof. by destruct b. Qed.

Lemma point_exponent b : is_point b = true → is_exponent b = false.
Proof. by destruct b. Qed.

Lemma is_point_spec b : is_point b = true ↔ b = x2e.
Proof. by destruct b. Qed.

Lemma decimal_acc l : ∀ n, 0 ≤ n → digits l → 0 ≤ foldl (λ n b, n * 10 + (byte_val b - 48)) n l.
Proof.
  induction l as [|b l IH]; intros n Hn Hd; cbn; [done|]. apply IH.
  - pose proof (Hd b ltac:(left)) as Hb. unfold is_digit in Hb. bool_to_prop. lia.
  - intros c Hc. apply Hd. by right.
Qed.

Lemma decimal_nonneg l : digits l → 0 ≤ decimal l.
Proof. by apply decimal_acc. Qed.

(** The exponent that a mark, a sign and digits write. *)
Definition exponent_text (l : bytes) (e : Z) : Prop :=
  (l = [] ∧ e = 0) ∨
  ∃ mark sign ds, l = mark :: sign ++ ds ∧ is_exponent mark = true ∧ ds ≠ [] ∧ digits ds ∧
    ((sign = [] ∨ sign = [x2b]) ∧ e = decimal ds ∨ sign = [x2d] ∧ e = - decimal ds).

(** The numeral [text] writes [coefficient / 10 ^ scale]. *)
Definition numeral (text : bytes) (coefficient scale : Z) : Prop :=
  ∃ plus whole point fraction exponent e,
    text = plus ++ whole ++ point ++ fraction ++ exponent ∧
    (plus = [] ∨ plus = [x2b]) ∧ digits (whole ++ fraction) ∧ whole ++ fraction ≠ [] ∧
    (point = [] ∧ fraction = [] ∨ point = [x2e]) ∧ exponent_text exponent e ∧ -1024 ≤ e ≤ 1024 ∧
    coefficient = decimal (whole ++ fraction) ∧ scale = zlen fraction - e.

(** [n] is the integer nearest to [coefficient / 10 ^ scale], and the even one of
    two that are. *)
Definition rounded (coefficient scale n : Z) : Prop :=
  if scale <=? 0 then n = coefficient * 10 ^ (- scale)
  else 2 * Z.abs (n * 10 ^ scale - coefficient) ≤ 10 ^ scale ∧
    (2 * Z.abs (n * 10 ^ scale - coefficient) = 10 ^ scale → Z.Even n).

Lemma round_half_even_rounded c d :
  0 < d → 0 ≤ c →
  2 * Z.abs (round_half_even c d * d - c) ≤ d ∧
  (2 * Z.abs (round_half_even c d * d - c) = d → Z.Even (round_half_even c d)).
Proof.
  intros Hd Hc. unfold round_half_even.
  pose proof (Z.div_mod c d ltac:(lia)) as Hdm. pose proof (Z.mod_pos_bound c d Hd) as Hm.
  set (q := c / d) in *. set (m := c mod d) in *.
  destruct (Z.ltb_spec d (2 * m)) as [H1|H1]; cbn [orb].
  - split; [nia|]. intros H. exfalso. nia.
  - destruct (Z.eqb_spec (2 * m) d) as [H2|H2]; cbn [andb].
    + destruct (Z.odd q) eqn:Ho.
      * split; [nia|]. intros _. apply Z.odd_spec in Ho as [k Hk]. exists (k + 1). lia.
      * split; [nia|]. intros _. rewrite <-Z.negb_even in Ho. apply negb_false_iff in Ho.
        by apply Z.even_spec.
    + split; [nia|]. intros H. exfalso. nia.
Qed.

Lemma rounding_unique c d n m :
  0 < d →
  2 * Z.abs (n * d - c) ≤ d → (2 * Z.abs (n * d - c) = d → Z.Even n) →
  2 * Z.abs (m * d - c) ≤ d → (2 * Z.abs (m * d - c) = d → Z.Even m) → n = m.
Proof.
  intros Hd Hn Hne Hm Hme. destruct (Z.eq_dec n m) as [|Hnm]; [done|]. exfalso.
  assert (n = m + 1 ∨ m = n + 1) as Hor by nia.
  assert (2 * Z.abs (n * d - c) = d ∧ 2 * Z.abs (m * d - c) = d) as [H1 H2].
  { destruct Hor as [-> | ->]; split; nia. }
  destruct (Hne H1) as [k Hk], (Hme H2) as [j Hj]. lia.
Qed.

(** ** The parser accepts the grammar *)

Lemma ParseInt32_text l e :
  -1024 ≤ e ≤ 1024 →
  ParseInt32 l = Some e ↔
  ∃ sign ds, l = sign ++ ds ∧ ds ≠ [] ∧ digits ds ∧
    ((sign = [] ∨ sign = [x2b]) ∧ e = decimal ds ∨ sign = [x2d] ∧ e = - decimal ds).
Proof.
  intros He. split.
  - unfold ParseInt32. intros H.
    assert (∃ sign ds (neg : bool), l = sign ++ ds ∧
      (if neg then sign = [x2d] else sign = [] ∨ sign = [x2b]) ∧
      (if (zlen ds =? 0) || negb (forallb is_digit ds) then None
       else let n := if neg then - decimal ds else decimal ds in
            if (n <? - 2 ^ 31) || (2 ^ 31 - 1 <? n) then None else Some n) = Some e)
      as (sign & ds & neg & -> & Hs & H').
    { destruct l as [|b r]; [exists [], [], false; by auto|].
      destruct (decide (b = x2d)) as [->|H1]; [exists [x2d], r, true; by auto|].
      destruct (decide (b = x2b)) as [->|H2]; [exists [x2b], r, false; by auto|].
      exists [], (b :: r), false. split_and!; [done|by left|].
      rewrite <-H. by destruct b. }
    clear H. exists sign, ds. split; [done|].
    destruct (Z.eqb_spec (zlen ds) 0) as [|Hz]; [done|]. cbn [orb] in H'.
    destruct (forallb is_digit ds) eqn:Hd; [|done]. cbn [negb] in H'.
    apply forallb_digits in Hd. split; [by intros ->|]. split; [done|].
    cbv zeta in H'. destruct (_ || _); [done|]. injection H' as <-.
    destruct neg; [by right|by left].
  - intros (sign & ds & -> & Hne & Hd & Hs). unfold ParseInt32.
    assert ((match sign ++ ds with x2d :: r => (true, r) | x2b :: r => (false, r) | _ => (false, sign ++ ds) end)
      = ((if decide (sign = [x2d]) then true else false), ds)) as ->.
    { destruct Hs as [[[-> | ->] _]|[-> _]]; cbn; try done.
      destruct ds as [|b r]; [done|]. pose proof (Hd b ltac:(left)) as Hb. by destruct b. }
    destruct (Z.eqb_spec (zlen ds) 0) as [Hz|_]; [destruct ds; [done|unfold zlen in Hz; cbn in Hz; lia]|].
    cbn [orb]. rewrite (proj2 (forallb_digits ds) Hd). cbn [negb].
    assert ((if (if decide (sign = [x2d]) then true else false) then - decimal ds else decimal ds) = e) as ->.
    { destruct Hs as [[[-> | ->] ->]|[-> ->]]; done. }
    destruct (Z.ltb_spec e (- 2 ^ 31)); [lia|]. destruct (Z.ltb_spec (2 ^ 31 - 1) e); [lia|]. done.
Qed.

(** The steps of the parser after the signs: mantissa and exponent, the exponent
    a number, and the two parts of the mantissa. *)
Definition read_numeral (text : bytes) : option (Z * Z) :=
  let '(mantissa, after) := cut_at is_exponent text in
  exponent ←
    match after with
    | None => Some 0
    | Some exponent =>
        if existsb is_exponent exponent then None
        else
          e ← ParseInt32 exponent;
          if (e <? -1024) || (1024 <? e) then None else Some e
    end;
  let '(whole, rest) := cut_at is_point mantissa in
  let fraction := default [] rest in
  if existsb is_point fraction then None
  else if (zlen whole =? 0) && (zlen fraction =? 0) then None
  else if negb (forallb is_digit (whole ++ fraction)) then None
  else Some (decimal (whole ++ fraction), zlen fraction - exponent).

Lemma none_app p a b : none p (a ++ b) ↔ none p a ∧ none p b.
Proof. unfold none. setoid_rewrite elem_of_app. naive_solver. Qed.

Lemma digits_app a b : digits (a ++ b) ↔ digits a ∧ digits b.
Proof. unfold digits. setoid_rewrite elem_of_app. naive_solver. Qed.

Lemma exponent_none sign ds :
  digits ds → sign = [] ∨ sign = [x2b] ∨ sign = [x2d] → none is_exponent (sign ++ ds).
Proof.
  intros Hd Hs. apply none_app. split; [|by apply digits_none; [apply digit_exponent|]].
  destruct Hs as [->|[->| ->]]; intros b Hb; [by apply elem_of_nil in Hb|..];
    by apply list_elem_of_singleton in Hb as ->.
Qed.

(** The unsigned texts that are read. *)
Definition unsigned_text (text : bytes) (coefficient scale : Z) : Prop :=
  ∃ whole point fraction exponent e,
    text = whole ++ point ++ fraction ++ exponent ∧ digits (whole ++ fraction) ∧
    whole ++ fraction ≠ [] ∧ (point = [] ∧ fraction = [] ∨ point = [x2e]) ∧
    exponent_text exponent e ∧ -1024 ≤ e ≤ 1024 ∧
    coefficient = decimal (whole ++ fraction) ∧ scale = zlen fraction - e.

Lemma read_numeral_sound text c s : read_numeral text = Some (c, s) → unsigned_text text c s.
Proof.
  unfold read_numeral. pose proof (cut_at_spec is_exponent text) as HX.
  destruct (cut_at is_exponent text) as [mantissa after].
  intros (e & He & H)%bind_Some.
  assert (∃ exponent, text = mantissa ++ exponent ∧ exponent_text exponent e ∧ -1024 ≤ e ≤ 1024)
    as (exponent & -> & HE & Hr).
  { destruct after as [ex|].
    - destruct HX as (mark & -> & Hm & _). destruct (existsb is_exponent ex); [done|].
      apply bind_Some in He as (e' & HP & He). destruct (Z.ltb_spec e' (-1024)); [done|].
      destruct (Z.ltb_spec 1024 e'); [done|]. injection He as ->.
      apply ParseInt32_text in HP as (sign & ds & -> & Hds); [|lia].
      exists (mark :: sign ++ ds). split_and!; [done| |lia|lia].
      right. exists mark, sign, ds. tauto.
    - destruct HX as [-> _]. injection He as <-. exists []. rewrite app_nil_r.
      split_and!; [done|by left|lia|lia]. }
  clear HX He. pose proof (cut_at_spec is_point mantissa) as HX.
  destruct (cut_at is_point mantissa) as [whole rest].
  destruct (existsb is_point _); [done|]. destruct (_ && _) eqn:Hz; [done|].
  destruct (forallb _ _) eqn:Hd; [|done]. apply forallb_digits in Hd. injection H as <- <-.
  assert (whole ++ default [] rest ≠ []) as Hne.
  { intros [-> Hrest]%app_eq_nil. by rewrite Hrest in Hz. }
  destruct rest as [fraction|]; cbn in *.
  - destruct HX as (x & -> & Hx & _). apply is_point_spec in Hx as ->.
    exists whole, [x2e], fraction, exponent, e. split_and!; try done; [by rewrite <-app_assoc|by right|lia|lia].
  - destruct HX as [-> _]. exists whole, [], [], exponent, e. split_and!; try done; [by left|lia|lia].
Qed.

Lemma read_numeral_complete text c s : unsigned_text text c s → read_numeral text = Some (c, s).
Proof.
  intros (whole & point & fraction & exponent & e & -> & Hd & Hne & Hp & HE & Hr & -> & ->).
  unfold read_numeral. pose proof Hd as [Hw Hf]%digits_app.
  assert (none is_exponent (whole ++ point ++ fraction)) as Hmant.
  { rewrite !none_app. split_and!; try (apply digits_none; [apply digit_exponent|done]).
    destruct Hp as [[-> _]| ->]; intros b Hb; [by apply elem_of_nil in Hb|].
    by apply list_elem_of_singleton in Hb as ->. }
  assert (∃ after, cut_at is_exponent (whole ++ point ++ fraction ++ exponent)
      = (whole ++ point ++ fraction, after) ∧
    match after with
    | None => Some 0
    | Some exponent =>
        if existsb is_exponent exponent then None
        else e ← ParseInt32 exponent; if (e <? -1024) || (1024 <? e) then None else Some e
    end = Some e) as (after & -> & ->).
  { destruct HE as [[-> ->]|(mark & sign & ds & -> & Hm & Hds & Hdd & Hs)].
    - exists None. rewrite app_nil_r. split; [by apply cut_at_none|done].
    - exists (Some (sign ++ ds)). rewrite !app_assoc, <-(app_assoc whole). split; [by apply cut_at_some|].
      rewrite (proj2 (existsb_none _ _)) by (apply exponent_none; [done|tauto]).
      rewrite (proj2 (ParseInt32_text (sign ++ ds) e Hr)) by (exists sign, ds; tauto).
      cbn. destruct (Z.ltb_spec e (-1024)); [lia|]. by destruct (Z.ltb_spec 1024 e); [lia|]. }
  cbn [mbind option_bind].
  assert (∃ rest, cut_at is_point (whole ++ point ++ fraction) = (whole, rest) ∧ default [] rest = fraction)
    as (rest & -> & ->).
  { assert (none is_point whole) as Hnw by (apply digits_none; [apply digit_point|done]).
    destruct Hp as [[-> ->]| ->].
    - exists None. rewrite app_nil_r. split; [by apply cut_at_none|done].
    - exists (Some fraction). split; [by apply cut_at_some|done]. }
  rewrite (proj2 (existsb_none _ _)) by (apply digits_none; [apply digit_point|done]).
  destruct (_ && _) eqn:Hz.
  { bool_to_prop. exfalso. apply Hne. destruct whole; [|done]. by destruct fraction. }
  by rewrite (proj2 (forallb_digits _) Hd).
Qed.

Lemma unsigned_head u c s :
  unsigned_text u c s → ∃ b r, u = b :: r ∧ (is_digit b = true ∨ b = x2e).
Proof.
  intros (whole & point & fraction & exponent & e & -> & Hd & Hne & Hp & _).
  destruct whole as [|b whole].
  - destruct Hp as [[-> ->]| ->]; [done|]. exists x2e. eexists. split; [done|by right].
  - exists b. eexists. split; [done|]. left. apply Hd. by left.
Qed.

Lemma numeral_unsigned text c s :
  numeral text c s ↔
  ∃ plus u, text = plus ++ u ∧ (plus = [] ∨ plus = [x2b]) ∧ unsigned_text u c s.
Proof.
  split.
  - intros (plus & w & pt & f & ex & e & -> & Hp & H). exists plus. eexists.
    split_and!; [done|done|]. by exists w, pt, f, ex, e.
  - intros (plus & u & -> & Hp & w & pt & f & ex & e & -> & H). by exists plus, w, pt, f, ex, e.
Qed.

(** What the parser makes of a numeral it has read. *)
Definition height_of (numeral : Z * Z) : option Z :=
  let '(coefficient, scale) := numeral in
  let result :=
    if scale <=? 0 then coefficient * 10 ^ (- scale)
    else round_half_even coefficient (10 ^ scale) in
  if MaxUint64 <? result then None else Some result.

Lemma parseLegacyHeight_read value plus u :
  let text := bytes_of_string (TrimSpace value) in
  text = plus ++ u → plus = [] ∨ plus = [x2b] →
  (plus = [] → match u with x2d :: _ | x2b :: _ => false | _ => true end = true) →
  parseLegacyHeight value =
  if (zlen text =? 0) || (1024 <? zlen text) then None else n ← read_numeral u; height_of n.
Proof.
  cbn zeta. intros HT Hp Hu. unfold parseLegacyHeight. rewrite HT. cbv zeta.
  destruct (_ || _); [done|].
  assert ((match plus ++ u with x2d :: _ => true | _ => false end) = false) as ->.
  { destruct Hp as [-> | ->]; [|done]. specialize (Hu eq_refl). destruct u as [|b u]; [done|]. by destruct b. }
  assert ((match plus ++ u with x2b :: r => r | _ => plus ++ u end) = u) as ->.
  { destruct Hp as [-> | ->]; [|done]. specialize (Hu eq_refl). destruct u as [|b u]; [done|]. by destruct b. }
  unfold read_numeral. destruct (cut_at is_exponent u) as [m a].
  destruct (match a with None => _ | Some _ => _ end) as [e|]; cbn [mbind option_bind]; [|done].
  destruct (cut_at is_point m) as [w r]. cbv zeta.
  destruct (existsb _ _); [done|]. destruct (_ && _); [done|]. by destruct (forallb _ _).
Qed.

Lemma height_of_rounded c s n :
  0 ≤ c → height_of (c, s) = Some n ↔ rounded c s n ∧ n ≤ MaxUint64.
Proof.
  intros Hc. unfold height_of, rounded. destruct (Z.leb_spec s 0).
  - destruct (Z.ltb_spec MaxUint64 (c * 10 ^ (- s))); naive_solver lia.
  - pose proof (Z.pow_pos_nonneg 10 s ltac:(lia) ltac:(lia)) as Hd.
    pose proof (round_half_even_rounded c (10 ^ s) Hd Hc) as [R1 R2].
    destruct (Z.ltb_spec MaxUint64 (round_half_even c (10 ^ s))); split.
    + done.
    + intros [[N1 N2] Hn]. rewrite (rounding_unique c (10 ^ s) _ n Hd R1 R2 N1 N2) in *. lia.
    + by intros [= <-].
    + intros [[N1 N2] _]. f_equal. exact (rounding_unique c (10 ^ s) _ n Hd R1 R2 N1 N2).
Qed.

Lemma unsigned_nonneg u c s : unsigned_text u c s → 0 ≤ c.
Proof. intros (w & pt & f & ex & e & _ & Hd & _ & _ & _ & _ & -> & _). by apply decimal_nonneg. Qed.

Lemma parseLegacyHeight_range value n : parseLegacyHeight value = Some n → 0 ≤ n ≤ MaxUint64.
Proof.
  unfold parseLegacyHeight. cbv zeta. destruct (_ || _); [done|].
  destruct (match bytes_of_string _ with x2d :: _ => _ | _ => _ end); [done|].
  destruct (cut_at _ _) as [m a]. intros (e & _ & H)%bind_Some.
  destruct (cut_at _ _) as [w r]. destruct (existsb _ _); [done|]. destruct (_ && _); [done|].
  destruct (forallb is_digit (w ++ default [] r)) eqn:Hd; [|done]. cbn [negb] in H.
  apply forallb_digits, decimal_nonneg in Hd.
  set (c := decimal _) in *. set (s := zlen _ - e) in *.
  change (height_of (c, s) = Some n) in H.
  apply height_of_rounded in H as [HR Hn]; [|done]. split; [|done]. unfold rounded in HR.
  destruct (Z.leb_spec s 0).
  - subst n. pose proof (Z.pow_nonneg 10 (- s) ltac:(lia)). nia.
  - pose proof (Z.pow_pos_nonneg 10 s ltac:(lia) ltac:(lia)). destruct HR as [HR _]. nia.
Qed.

(** C29. A height is read exactly when its text, without the white space around it and
    at most 1024 bytes long, is an unsigned decimal numeral with an optional
    fraction and an exponent of at most 1024, and the nearest integer (of two
    the even one) fits in 64 bits: that integer is the height. *)
Theorem parseLegacyHeight_spec value n :
  let text := bytes_of_string (TrimSpace value) in
  parseLegacyHeight value = Some n ↔
  zlen text ≤ 1024 ∧ (∃ coefficient scale, numeral text coefficient scale ∧ rounded coefficient scale n) ∧
  n ≤ MaxUint64.
Proof.
  cbn zeta. split.
  - intros H. destruct (bytes_of_string (TrimSpace value)) as [|b r] eqn:HT.
    { unfold parseLegacyHeight in H. by rewrite HT in H. }
    destruct (decide (b = x2d)) as [->|Hm].
    { unfold parseLegacyHeight in H. rewrite HT in H. by destruct (_ || _) in H. }
    assert (∃ plus u, b :: r = plus ++ u ∧ (plus = [] ∨ plus = [x2b]) ∧
      (plus = [] → match u with x2d :: _ | x2b :: _ => false | _ => true end = true))
      as (plus & u & Hu & Hp & Hn).
    { destruct (decide (b = x2b)) as [->|Hb]; [exists [x2b], r; split_and!; [done|by right|done]|].
      exists [], (b :: r). split_and!; [done|by left|]. intros _. by destruct b. }
    rewrite (parseLegacyHeight_read value plus u) in H by (by rewrite ?HT).
    rewrite HT in H. destruct (_ =? 0); [done|]. destruct (Z.ltb_spec 1024 (zlen (b :: r))); [done|].
    apply bind_Some in H as ([c s] & HR & H). apply read_numeral_sound in HR.
    apply height_of_rounded in H as [H1 H2]; [|by eapply unsigned_nonneg].
    split_and!; [lia| |done]. exists c, s. split; [|done]. apply numeral_unsigned. by exists plus, u.
  - intros (Hl & (c & s & (plus & u & HT & Hp & HU)%numeral_unsigned & HR) & Hn).
    destruct (unsigned_head _ _ _ HU) as (b & r & -> & Hb).
    rewrite (parseLegacyHeight_read value plus (b :: r) HT Hp) by (intros _; by destruct Hb as [Hb| ->]; [destruct b|]).
    rewrite HT. destruct (Z.eqb_spec (zlen (plus ++ b :: r)) 0) as [Hz|_].
    { rewrite zlen_app in Hz. unfold zlen in Hz. cbn in Hz. lia. }
    rewrite <-HT. destruct (Z.ltb_spec 1024 (zlen (bytes_of_string (TrimSpace value)))); [lia|]. cbn [orb].
    rewrite (read_numeral_complete _ _ _ HU). cbn. change (height_of (c, s) = Some n).
    apply height_of_rounded; [by eapply unsigned_nonneg|done].
Qed.

End ReplayHeight.
