(* ===== verification/ReplayTrace.v ===== *)
(** * Mapnode/replay: preparing a trace

    replay_trace.go and [ComputeEventID] of replay_event.go: the rows of a CSV
    file become the events of a run, sorted, numbered and measured from the first
    height of each chain.

    [strings.ToLower] beyond ASCII, encoding/csv (the results of the calls of
    [Read] up to io.EOF), [time.Parse], [Time.Format], [strconv.ParseFloat] and
    SHA-256 are parameters; an instant is an integer, a float64 its bits. *)

From Stdlib Require Import Strings.Byte.
From stdpp Require Import pretty.
From S2P Require Import Prelude BestFirst ReplayView ReplayNames ReplayHeight Heap ReplaySearch ReplayCoordinator.
Import ReplayView ReplayNames ReplayHeight ReplaySearch ReplayCoordinator.

Module ReplayTrace.

(** ** Rows *)

Inductive trace_error :=
| ErrReadTrace
| ErrReadHeader
| ErrMissingColumn (name : string)
| ErrInvalidRowPolicy (policy : string)
| ErrReadRow (originalRow : Z)
| ErrInvalidRow (originalRow : Z) (e : string)
| ErrNoEvents.

Definition InvalidRowReject : string := "reject".
Definition InvalidRowDrop : string := "drop".

Record TraceOptions := mkOptions {
  InvalidRowPolicy : string;
  ChainAllowlist : list string;
  MaxEvents : Z
}.

Record PreparedTrace := mkTrace {
  trace_Digest : string;
  SourceRows : Z;
  DroppedRows : Z;
  Chains : list string;
  InitHeights : gmap string Z;
  Events : list ReplayEvent
}.

(** The magnitude of a finite float64, as a fraction of [2 ^ 1074]. *)
Definition float_scaled (bits : Z) : Z :=
  let exponent := Z.land (Z.shiftr bits 52) 2047 in
  let mantissa := Z.land bits (2 ^ 52 - 1) in
  if exponent =? 0 then mantissa else (2 ^ 52 + mantissa) * 2 ^ (exponent - 1).

Definition float_finite (bits : Z) : bool := negb (Z.land (Z.shiftr bits 52) 2047 =? 2047).

(** [math.Round] of a finite float64: half away from zero. *)
Definition float_round (bits : Z) : Z :=
  let magnitude := (2 * float_scaled bits + 2 ^ 1074) / 2 ^ 1075 in
  if Z.testbit bits 63 then - magnitude else magnitude.

(** The lower-case digits of [hex.EncodeToString]. *)
Definition hex_digit (n : Z) : Byte.byte := byte_of_Z (if n <? 10 then 48 + n else 87 + n).

Definition EncodeToString (l : bytes) : string :=
  String.string_of_list_byte
    (flat_map (λ b, [hex_digit (byte_val b / 16); hex_digit (byte_val b mod 16)]) l).

Definition newline : string := String.string_of_list_byte [x0a].

(** [a < b] on strings. *)
Definition string_less (a b : string) : bool :=
  match bytes_compare (bytes_of_string a) (bytes_of_string b) with Lt => true | _ => false end.

(** The order of the events of a trace. *)
Definition event_less (a b : ReplayEvent) : bool :=
  if negb (a.(SourceTime) =? b.(SourceTime)) then a.(SourceTime) <? b.(SourceTime)
  else if a.(Destination).(block_Chain) ≠?= b.(Destination).(block_Chain)
  then string_less a.(Destination).(block_Chain) b.(Destination).(block_Chain)
  else if negb (a.(Destination).(OriginalHeight) =? b.(Destination).(OriginalHeight))
  then a.(Destination).(OriginalHeight) <? b.(Destination).(OriginalHeight)
  else if a.(event_Source).(block_Chain) ≠?= b.(event_Source).(block_Chain)
  then string_less a.(event_Source).(block_Chain) b.(event_Source).(block_Chain)
  else if negb (a.(event_Source).(OriginalHeight) =? b.(event_Source).(OriginalHeight))
  then a.(event_Source).(OriginalHeight) <? b.(event_Source).(OriginalHeight)
  else a.(OriginalRow) <? b.(OriginalRow).

Definition event_le (a b : ReplayEvent) : Prop := event_less b a = false.

#[export] Instance event_le_dec a b : base.Decision (event_le a b).
Proof. unfold event_le. apply _. Defined.

(** [sort.SliceStable]; two events of a trace are never in the same place
    ([event_order]), so that no two sorts differ. *)
Definition sort_events (events : list ReplayEvent) : list ReplayEvent :=
  merge_sort event_le events.

Definition updateMinimum (values : gmap string Z) (key : string) (candidate : Z) : gmap string Z :=
  match values !! key with
  | Some current => if candidate <? current then <[key := candidate]> values else values
  | None => <[key := candidate]> values
  end.

Definition minimum_heights (events : list ReplayEvent) : gmap string Z :=
  foldl (λ m event,
    updateMinimum
      (updateMinimum m event.(event_Source).(block_Chain) event.(event_Source).(OriginalHeight))
      event.(Destination).(block_Chain) event.(Destination).(OriginalHeight)) ∅ events.

(** [sort.Strings] of the keys, in whatever order the map gives them. *)
Definition chain_names (init : gmap string Z) : list string :=
  sort_by bytes_of_string (map fst (map_to_list init)).

Section Preparing.
Context (unicode_ToLower : string → string) (sha256 : bytes → bytes).
Context (csv_read : bytes → list (option (list string))).
Context (time_Parse : string → string → option Z) (time_Format : Z → string).
Context (ParseFloat : string → option Z).
(** [int64(f)] of a float64 that is not in the range of int64. *)
Context (int64_outside : Z → Z).

Abbreviation canonicalChain := (canonicalChain unicode_ToLower).

Definition ComputeEventID (traceDigest : string) (event : ReplayEvent) : string :=
  let material :=
    ("trustmap/replay-event/v1" +:+ newline
     +:+ traceDigest +:+ newline
     +:+ pretty event.(OriginalRow) +:+ newline
     +:+ pretty event.(Sequence) +:+ newline
     +:+ event.(event_Source).(block_Chain) +:+ newline
     +:+ pretty event.(event_Source).(OriginalHeight) +:+ newline
     +:+ event.(Destination).(block_Chain) +:+ newline
     +:+ pretty event.(Destination).(OriginalHeight) +:+ newline
     +:+ time_Format event.(SourceTime))%string in
  EncodeToString (sha256 (bytes_of_string material)).

(** [strings.TrimSuffix(s, " UTC")] *)
Definition trim_UTC (s : string) : string :=
  let l := bytes_of_string s in
  if decide (drop (length l - 4) l = [x20; x55; x54; x43])
  then String.string_of_list_byte (take (length l - 4) l) else s.

Definition layouts : list string :=
  ["2006-01-02T15:04:05.999999999Z07:00"; "2006-01-02 15:04:05.999999999Z07:00";
   "2006-01-02 15:04:05.999999999"].

Definition parseLegacyTime (value : string) : option Z :=
  let trimmed := TrimSpace (trim_UTC (TrimSpace value)) in
  head (omap (λ layout, time_Parse layout trimmed) layouts).

Definition parseLegacyFloatDefaultZero (value : string) : Z :=
  match ParseFloat value with
  | Some parsed => if float_finite parsed then parsed else 0
  | None => 0
  end.

Definition parseLegacyIntDefaultZero (value : string) : Z :=
  match ParseFloat value with
  | Some parsed =>
      if float_finite parsed then
        let n := float_round parsed in
        if (- 2 ^ 63 <=? n) && (n <? 2 ^ 63) then n else int64_outside parsed
      else 0
  | None => 0
  end.

Definition parseTraceRecord (record : list string) (columns : gmap string nat) (originalRow : Z)
    : res string ReplayEvent :=
  let value := λ column,
    match (index ← columns !! column; record !! index) with
    | Some v => TrimSpace v
    | None => ""
    end in
  let need := λ (o : option Z) e, match o with Some v => Ok v | None => Err e end in
  let sourceChain := canonicalChain (value "src_chain") in
  let destinationChain := canonicalChain (value "dst_chain") in
  if (sourceChain =?= "") || (destinationChain =?= "") then Err "chains"
  else
    sourceHeight ← need (parseLegacyHeight (value "src_block_number")) "source height";
    destinationHeight ← need (parseLegacyHeight (value "dst_block_number")) "destination height";
    sourceTime ← need (parseLegacyTime (value "src_block_time")) "source time";
    let txCount :=
      if bool_decide (is_Some (columns !! "tx_count")) then parseLegacyIntDefaultZero (value "tx_count")
      else 1 in
    let volumeUSD :=
      if bool_decide (is_Some (columns !! "volume_usd"))
      then parseLegacyFloatDefaultZero (value "volume_usd") else 0 in
    Ok (mkEvent "" originalRow 0 (mkBlock sourceChain sourceHeight 0)
          (mkBlock destinationChain destinationHeight 0) sourceTime
          (TrimSpace (value "bridge_name")) txCount volumeUSD).

Definition columns_of (header : list string) : gmap string nat :=
  foldl (λ m '(index, name), <[TrimSpace name := index]> m) ∅ (imap (λ i n, (i, n)) header).

Definition required : list string :=
  ["src_chain"; "dst_chain"; "src_block_number"; "dst_block_number"; "src_block_time"].

Definition allowlist_of (chains : list string) : gset string :=
  foldl (λ m chain, let name := canonicalChain chain in if name =?= "" then m else {[name]} ∪ m)
    ∅ chains.

Definition admits (allowlist : gset string) (event : ReplayEvent) : bool :=
  bool_decide (allowlist = ∅)
  || bool_decide (event.(event_Source).(block_Chain) ∈ allowlist)
     && bool_decide (event.(Destination).(block_Chain) ∈ allowlist).

(** The loop over the rows: the counters and the events so far. *)
Fixpoint read_rows (policy : string) (columns : gmap string nat) (allowlist : gset string)
    (rows : list (option (list string))) (originalRow source dropped : Z) (events : list ReplayEvent)
    : res trace_error (Z * Z * list ReplayEvent) :=
  match rows with
  | [] => Ok (source, dropped, events)
  | row :: rest =>
      let continue := read_rows policy columns allowlist rest (wrap64 (originalRow + 1))
                        (wrap64 (source + 1)) in
      match row with
      | None =>
          if policy =?= InvalidRowDrop then continue (wrap64 (dropped + 1)) events
          else Err (ErrReadRow originalRow)
      | Some record =>
          match parseTraceRecord record columns originalRow with
          | Err e =>
              if policy =?= InvalidRowDrop then continue (wrap64 (dropped + 1)) events
              else Err (ErrInvalidRow originalRow e)
          | Ok event =>
              if admits allowlist event then continue dropped (events ++ [event])
              else continue dropped events
          end
      end
  end.

(** A block and an event with their derived fields. *)
Definition normalized (init : gmap string Z) (b : ReplayBlock) : ReplayBlock :=
  mkBlock b.(block_Chain) b.(OriginalHeight)
    (wrap64 (b.(OriginalHeight) - default 0 (init !! b.(block_Chain)))).

Definition numbered (digest : string) (init : gmap string Z) (index : nat) (event : ReplayEvent)
    : ReplayEvent :=
  let set_ID := λ id e, mkEvent id e.(OriginalRow) e.(Sequence) e.(event_Source) e.(Destination)
                          e.(SourceTime) e.(BridgeName) e.(TxCount) e.(VolumeUSD) in
  let event :=
    mkEvent event.(event_ID) event.(OriginalRow) (Z.of_nat index)
      (normalized init event.(event_Source)) (normalized init event.(Destination))
      event.(SourceTime) event.(BridgeName) event.(TxCount) event.(VolumeUSD) in
  set_ID (ComputeEventID digest event) event.

(** [file] is what [os.ReadFile] returns. *)
Definition PrepareTrace (file : option bytes) (options : TraceOptions)
    : res trace_error PreparedTrace :=
  match file with
  | None => Err ErrReadTrace
  | Some data =>
      let digest := EncodeToString (sha256 data) in
      match csv_read data with
      | [] | None :: _ => Err ErrReadHeader
      | Some header :: rows =>
          let columns := columns_of header in
          match filter (λ name, columns !! name = None) required with
          | name :: _ => Err (ErrMissingColumn name)
          | [] =>
              let policy :=
                if options.(InvalidRowPolicy) =?= "" then InvalidRowReject
                else options.(InvalidRowPolicy) in
              if (policy ≠?= InvalidRowReject) && (policy ≠?= InvalidRowDrop)
              then Err (ErrInvalidRowPolicy policy)
              else
                '(source, dropped, events) ←
                  read_rows policy columns (allowlist_of options.(ChainAllowlist)) rows 1 0 0 [];
                let events := sort_events events in
                let events :=
                  if (0 <? options.(MaxEvents)) && (options.(MaxEvents) <? zlen events)
                  then take (Z.to_nat options.(MaxEvents)) events else events in
                if zlen events =? 0 then Err ErrNoEvents
                else
                  let init := minimum_heights events in
                  Ok (mkTrace digest source dropped (chain_names init) init
                        (imap (numbered digest init) events))
          end
      end
  end.
End Preparing.


(** ** Lemmas: the order of events *)

Abbreviation dst_chain e := (bytes_of_string e.(Destination).(block_Chain)).
Abbreviation src_chain e := (bytes_of_string e.(event_Source).(block_Chain)).

Definition event_cmp : ReplayEvent → ReplayEvent → comparison :=
  cmp_lex (cmp_on SourceTime Z.compare)
    (cmp_lex (cmp_on (λ e, dst_chain e) bytes_compare)
       (cmp_lex (cmp_on (λ e, e.(Destination).(OriginalHeight)) Z.compare)
          (cmp_lex (cmp_on (λ e, src_chain e) bytes_compare)
             (cmp_lex (cmp_on (λ e, e.(event_Source).(OriginalHeight)) Z.compare)
                (cmp_on OriginalRow Z.compare))))).

#[export] Instance event_comparison : Comparison event_cmp.
Proof. unfold event_cmp. apply _. Qed.

Definition is_lt (c : comparison) : bool := match c with Lt => true | _ => false end.

Lemma less_by_Z (f : ReplayEvent → Z) c a b :
  (if negb (f a =? f b) then f a <? f b else is_lt (c a b)) = is_lt (cmp_lex (cmp_on f Z.compare) c a b).
Proof.
  unfold cmp_lex, cmp_on. rewrite Z.eqb_compare, Z.ltb_compare. by destruct (f a ?= f b).
Qed.

Lemma less_by_name (f : ReplayEvent → string) c a b :
  (if f a ≠?= f b then string_less (f a) (f b) else is_lt (c a b))
  = is_lt (cmp_lex (cmp_on (λ e, bytes_of_string (f e)) bytes_compare) c a b).
Proof.
  unfold cmp_lex, cmp_on, string_less. case_bool_decide as H; cbn [negb].
  - by rewrite H, bytes_compare_refl.
  - destruct (bytes_compare _ _) eqn:E; [|done|done].
    by apply bytes_compare_eq, bytes_of_string_inj in E.
Qed.

Lemma event_less_cmp a b : event_less a b = is_lt (event_cmp a b).
Proof.
  unfold event_less, event_cmp.
  rewrite <-(less_by_Z SourceTime), <-(less_by_name (λ e, e.(Destination).(block_Chain))).
  rewrite <-(less_by_Z (λ e, e.(Destination).(OriginalHeight))).
  rewrite <-(less_by_name (λ e, e.(event_Source).(block_Chain))).
  by rewrite <-(less_by_Z (λ e, e.(event_Source).(OriginalHeight))).
Qed.

Lemma event_le_cmp a b : event_le a b ↔ event_cmp a b ≠ Gt.
Proof.
  unfold event_le. rewrite event_less_cmp, (cmp_antisym event_cmp a b).
  by destruct (event_cmp a b).
Qed.

#[export] Instance event_le_total : Total event_le.
Proof.
  intros a b. rewrite !event_le_cmp, (cmp_antisym event_cmp a b).
  destruct (event_cmp a b); cbn; auto.
Qed.

#[export] Instance event_le_trans : Transitive event_le.
Proof. intros a b c. rewrite !event_le_cmp. apply (cmp_trans event_cmp). Qed.

(** The place of an event in the trace is its own: the rows differ. *)
Definition event_before (a b : ReplayEvent) : Prop := event_less a b = true.

Lemma event_before_cmp a b : event_before a b ↔ event_cmp a b = Lt.
Proof. unfold event_before. rewrite event_less_cmp. by destruct (event_cmp a b). Qed.

#[export] Instance event_before_antisymm : AntiSymm (=) event_before.
Proof.
  intros a b. rewrite !event_before_cmp, (cmp_antisym event_cmp a b).
  by destruct (event_cmp a b).
Qed.

Lemma same_place a b : event_cmp a b = Eq → a.(OriginalRow) = b.(OriginalRow).
Proof.
  unfold event_cmp, cmp_lex, cmp_on. repeat case_match; try done. by intros ?%Z.compare_eq.
Qed.

Lemma event_order l :
  NoDup (OriginalRow <$> l) → StronglySorted event_before (sort_events l).
Proof.
  intros Hd. assert (StronglySorted event_le (sort_events l)) as Hs.
  { apply StronglySorted_merge_sort; apply _. }
  assert (NoDup (OriginalRow <$> sort_events l)) as Hd'.
  { unfold sort_events. by rewrite (merge_sort_Permutation event_le l). }
  induction Hs as [|a k Hs IH Ha]; [constructor|].
  cbn in Hd'. apply NoDup_cons in Hd' as [Hn Hd']. constructor; [by apply IH|].
  apply Forall_forall. intros b Hb. rewrite Forall_forall in Ha. specialize (Ha b Hb).
  apply event_before_cmp. apply event_le_cmp in Ha.
  destruct (event_cmp a b) eqn:E; [|done|done].
  apply same_place in E. destruct Hn. rewrite E. by apply list_elem_of_fmap_2.
Qed.

Lemma event_before_irreflexive a : ¬ event_before a a.
Proof. rewrite event_before_cmp, (cmp_refl event_cmp). done. Qed.

(** ** Lemmas: the first heights *)

Definition blocks_of (events : list ReplayEvent) : list ReplayBlock :=
  flat_map (λ e, [e.(event_Source); e.(Destination)]) events.

(** [h] is the least height of the chain in the trace. *)
Definition least_height (events : list ReplayEvent) (chain : string) (h : Z) : Prop :=
  (∃ b, b ∈ blocks_of events ∧ b.(block_Chain) = chain ∧ b.(OriginalHeight) = h) ∧
  ∀ b, b ∈ blocks_of events → b.(block_Chain) = chain → h ≤ b.(OriginalHeight).

Definition minima_of (blocks : list ReplayBlock) (m : gmap string Z) : Prop :=
  ∀ chain,
    match m !! chain with
    | Some h =>
        (∃ b, b ∈ blocks ∧ b.(block_Chain) = chain ∧ b.(OriginalHeight) = h) ∧
        ∀ b, b ∈ blocks → b.(block_Chain) = chain → h ≤ b.(OriginalHeight)
    | None => ∀ b, b ∈ blocks → b.(block_Chain) ≠ chain
    end.

Lemma minima_of_other blocks m b chain o :
  minima_of blocks m → b.(block_Chain) ≠ chain → o = m !! chain →
  match o with
  | Some h =>
      (∃ b', b' ∈ blocks ++ [b] ∧ b'.(block_Chain) = chain ∧ b'.(OriginalHeight) = h) ∧
      ∀ b', b' ∈ blocks ++ [b] → b'.(block_Chain) = chain → h ≤ b'.(OriginalHeight)
  | None => ∀ b', b' ∈ blocks ++ [b] → b'.(block_Chain) ≠ chain
  end.
Proof.
  intros HM Hne ->. specialize (HM chain). destruct (m !! chain) as [h|].
  - destruct HM as [(b0 & H0 & Hc & Hh) Hle]. split.
    + exists b0. split; [|done]. apply elem_of_app. by left.
    + intros b' [Hb'|Hb'%list_elem_of_singleton]%elem_of_app Hc'; [by apply Hle|by subst].
  - intros b' [Hb'|Hb'%list_elem_of_singleton]%elem_of_app; [by apply HM|by subst].
Qed.

Lemma updateMinimum_spec blocks m b :
  minima_of blocks m →
  minima_of (blocks ++ [b]) (updateMinimum m b.(block_Chain) b.(OriginalHeight)).
Proof.
  intros HM chain. destruct (decide (b.(block_Chain) = chain)) as [<-|Hne].
  2: { apply (minima_of_other _ m); [done|done|]. unfold updateMinimum.
       destruct (m !! block_Chain b); [|by apply lookup_insert_ne].
       destruct (_ <? _); [by apply lookup_insert_ne|done]. }
  pose proof (HM b.(block_Chain)) as Hb. unfold updateMinimum.
  assert (b ∈ blocks ++ [b]) as Hin by (apply elem_of_app; right; left).
  destruct (m !! b.(block_Chain)) as [cur|] eqn:Hm.
  - destruct Hb as [(b0 & H0 & Hc & Hh) Hle]. destruct (Z.ltb_spec b.(OriginalHeight) cur).
    + rewrite lookup_insert_eq. split; [by exists b|].
      intros b' [Hb'|Hb'%list_elem_of_singleton]%elem_of_app Hc'; [|subst; lia].
      specialize (Hle b' Hb' Hc'). lia.
    + rewrite Hm. split; [exists b0; split; [apply elem_of_app; by left|done]|].
      intros b' [Hb'|Hb'%list_elem_of_singleton]%elem_of_app Hc'; [by apply Hle|subst; lia].
  - rewrite lookup_insert_eq. split; [by exists b|].
    intros b' [Hb'|Hb'%list_elem_of_singleton]%elem_of_app Hc'; [by destruct (Hb b' Hb')|subst; lia].
Qed.

Lemma blocks_of_app l k : blocks_of (l ++ k) = blocks_of l ++ blocks_of k.
Proof. apply flat_map_app. Qed.

Lemma minimum_heights_minima events : minima_of (blocks_of events) (minimum_heights events).
Proof.
  unfold minimum_heights. induction events as [|e events IH] using rev_ind.
  { intros chain. cbn. rewrite lookup_empty. by intros b ?%elem_of_nil. }
  rewrite foldl_snoc, blocks_of_app. cbn [blocks_of flat_map app].
  change [e.(event_Source); e.(Destination)] with ([e.(event_Source)] ++ [e.(Destination)]).
  rewrite (assoc_L (++)). by apply updateMinimum_spec, updateMinimum_spec.
Qed.

Lemma minimum_heights_spec events chain h :
  minimum_heights events !! chain = Some h ↔ least_height events chain h.
Proof.
  pose proof (minimum_heights_minima events chain) as HM. unfold least_height.
  destruct (minimum_heights events !! chain) as [h0|].
  - destruct HM as [(b0 & H0 & Hc0 & <-) Hle]. split; [by intros [= <-]; split; [exists b0|]|].
    intros [(b & Hb & Hc & <-) Hle']. f_equal. specialize (Hle b Hb Hc). specialize (Hle' b0 H0 Hc0). lia.
  - split; [done|]. intros [(b & Hb & Hc & _) _]. by destruct (HM b Hb).
Qed.

Lemma chain_names_spec (init : gmap string Z) :
  StronglySorted (key_lt bytes_of_string) (chain_names init) ∧
  ∀ chain, chain ∈ chain_names init ↔ is_Some (init !! chain).
Proof.
  unfold chain_names. assert (NoDup (map fst (map_to_list init))) as Hd by apply NoDup_fst_map_to_list.
  split.
  - apply sort_by_sorted. apply NoDup_fmap_2; [|done]. exact bytes_of_string_inj.
  - intros chain. rewrite sort_by_perm, list_elem_of_fmap. split.
    + intros ([c h] & -> & Hin%elem_of_map_to_list). by exists h.
    + intros [h Hh]. exists (chain, h). by rewrite elem_of_map_to_list.
Qed.

(** Heights are measured from the least one: nothing wraps around. *)
Lemma normalized_exact events b :
  b ∈ blocks_of events → 0 ≤ b.(OriginalHeight) ≤ MaxUint64 →
  (∀ b', b' ∈ blocks_of events → 0 ≤ b'.(OriginalHeight)) →
  ∃ h, minimum_heights events !! b.(block_Chain) = Some h ∧ 0 ≤ h ≤ b.(OriginalHeight) ∧
    normalized (minimum_heights events) b = mkBlock b.(block_Chain) b.(OriginalHeight) (b.(OriginalHeight) - h).
Proof.
  intros Hin Hb Hall. pose proof (minimum_heights_minima events b.(block_Chain)) as HM. unfold normalized.
  destruct (minimum_heights events !! b.(block_Chain)) as [h|]; [|by destruct (HM b Hin)].
  destruct HM as [(b0 & H0 & _ & <-) Hle]. specialize (Hle b Hin eq_refl). specialize (Hall b0 H0).
  exists b0.(OriginalHeight). cbn [default from_option id].
  rewrite wrap64_small by (unfold u64, MaxUint64 in *; lia).
  split_and!; [done|lia|lia|done].
Qed.

(** ** Lemmas: identifiers *)

Fixpoint one_line (s : string) : Prop :=
  match s with
  | EmptyString => True
  | String c s => String c EmptyString ≠ newline ∧ one_line s
  end.

Lemma first_line_inj a b r r' :
  one_line a → one_line b → (a +:+ newline +:+ r = b +:+ newline +:+ r')%string → a = b.
Proof.
  revert b. induction a as [|c a IH]; intros [|d b]; cbn; [done|..].
  - intros _ [Hd _] [= <- _]. by destruct Hd.
  - intros [Hc _] _ [= -> _]. by destruct Hc.
  - intros [_ Ha] [_ Hb] [= -> H]. f_equal. by apply IH.
Qed.

Lemma pretty_go_line x : ∀ s, one_line s → one_line (pretty_N_go x s).
Proof.
  induction (N.lt_wf_0 x) as [x _ IH]. intros s Hs.
  destruct (decide (x = 0%N)) as [->|]; [by rewrite pretty_N_go_0|].
  rewrite pretty_N_go_step by lia. apply IH; [apply N.div_lt; lia|]. split; [|done].
  unfold pretty_N_char. by repeat case_match.
Qed.

Lemma pretty_line (z : Z) : one_line (pretty z).
Proof.
  destruct z as [|p|p]; [by split| |split; [done|]];
    change (one_line (pretty (N.pos p))); unfold pretty, pretty_N;
    (case_decide; [done|]); by apply pretty_go_line.
Qed.

Lemma app_string_inj a (r r' : string) : (a +:+ r = a +:+ r')%string → r = r'.
Proof. induction a as [|c a IH]; [done|]. cbn. intros [= H]. by apply IH. Qed.

Lemma hex_digit_inj n m : 0 ≤ n < 16 → 0 ≤ m < 16 → hex_digit n = hex_digit m → n = m.
Proof.
  intros Hn Hm H%(f_equal byte_val). unfold hex_digit in H. rewrite !byte_val_of_Z in H.
  destruct (Z.ltb_spec n 10), (Z.ltb_spec m 10); rewrite !Z.mod_small in H; lia.
Qed.

Lemma EncodeToString_inj l k : EncodeToString l = EncodeToString k → l = k.
Proof.
  unfold EncodeToString. intros H%(f_equal bytes_of_string). rewrite !bytes_of_trimmed in H.
  revert k H. induction l as [|a l IH]; intros [|b k]; cbn; try done.
  intros [= H1 H2 H3]. pose proof (byte_val_range a) as Ha. pose proof (byte_val_range b) as Hb.
  assert (∀ c, 0 ≤ byte_val c / 16 < 16 ∧ 0 ≤ byte_val c mod 16 < 16) as Hr.
  { intros c. pose proof (byte_val_range c). split; [|by apply Z.mod_pos_bound].
    split; [apply Z.div_pos; lia|apply Z.div_lt_upper_bound; lia]. }
  apply hex_digit_inj in H1, H2; try apply Hr.
  f_equal; [|by apply IH]. apply byte_val_inj.
  rewrite (Z.div_mod (byte_val a) 16), (Z.div_mod (byte_val b) 16) by lia. congruence.
Qed.

(** ** Lemmas: the rows *)

Section Rows.
Context (ul : string → string) (sha256 : bytes → bytes).
Context (csv_read : bytes → list (option (list string))).
Context (time_Parse : string → string → option Z) (time_Format : Z → string).
Context (ParseFloat : string → option Z) (int64_outside : Z → Z).

Abbreviation parseTraceRecord := (parseTraceRecord ul time_Parse ParseFloat int64_outside).
Abbreviation read_rows := (read_rows ul time_Parse ParseFloat int64_outside).
Abbreviation PrepareTrace :=
  (PrepareTrace ul sha256 csv_read time_Parse time_Format ParseFloat int64_outside).

(** What is read from each row. *)
Definition row_event (columns : gmap string nat) (originalRow : Z) (row : option (list string))
    : option ReplayEvent :=
  record ← row;
  match parseTraceRecord record columns originalRow with Ok e => Some e | Err _ => None end.

Fixpoint row_events (columns : gmap string nat) (originalRow : Z) (rows : list (option (list string)))
    : list (option ReplayEvent) :=
  match rows with
  | [] => []
  | row :: rest => row_event columns originalRow row :: row_events columns (originalRow + 1) rest
  end.

Definition unread (o : option ReplayEvent) : Prop := o = None.

(** The events that a row gives: canonical names, heights of 64 bits. *)
Record from_row (originalRow : Z) (e : ReplayEvent) : Prop := {
  fr_row : e.(OriginalRow) = originalRow;
  fr_source : ∃ name, e.(event_Source).(block_Chain) = canonicalChain ul name;
  fr_destination : ∃ name, e.(Destination).(block_Chain) = canonicalChain ul name;
  fr_named : e.(event_Source).(block_Chain) ≠ "" ∧ e.(Destination).(block_Chain) ≠ "";
  fr_heights : 0 ≤ e.(event_Source).(OriginalHeight) ≤ MaxUint64 ∧
    0 ≤ e.(Destination).(OriginalHeight) ≤ MaxUint64
}.

Lemma parseTraceRecord_row record columns n e :
  parseTraceRecord record columns n = Ok e → from_row n e.
Proof.
  unfold ReplayTrace.parseTraceRecord. cbv zeta.
  destruct (_ || _) eqn:Hc; [done|]. bool_to_prop.
  intros (h1 & H1 & (h2 & H2 & (tm & _ & [= <-])%bind_Ok)%bind_Ok)%bind_Ok.
  destruct (parseLegacyHeight _) as [k1|] eqn:K1 in H1; [|done]. injection H1 as ->.
  destruct (parseLegacyHeight _) as [k2|] eqn:K2 in H2; [|done]. injection H2 as ->.
  split; cbn.
  - done.
  - by eexists.
  - by eexists.
  - tauto.
  - split; by eapply parseLegacyHeight_range.
Qed.

Lemma row_events_elem columns rows : ∀ n e,
  Some e ∈ row_events columns n rows → ∃ i, from_row (n + i) e ∧ 0 ≤ i < zlen rows.
Proof.
  induction rows as [|row rows IH]; intros n e; cbn [row_events]; [by intros ?%elem_of_nil|].
  intros [He|He]%elem_of_cons.
  - exists 0. rewrite Z.add_0_r. split; [|unfold zlen; cbn; lia].
    destruct row as [r|]; [|done]. cbn in He.
    destruct (parseTraceRecord r columns n) eqn:HP; [|done]. injection He as ->.
    by eapply parseTraceRecord_row.
  - apply IH in He as (i & Hi & Hb). exists (i + 1). replace (n + (i + 1)) with (n + 1 + i) by lia.
    split; [done|]. unfold zlen in *. cbn. lia.
Qed.

Lemma row_events_distinct columns rows : ∀ n,
  NoDup (OriginalRow <$> omap id (row_events columns n rows)).
Proof.
  induction rows as [|row rows IH]; intros n; cbn [row_events]; [constructor|].
  destruct (row_event columns n row) as [e|] eqn:He; cbn; [|done].
  constructor; [|done]. intros (e' & Hrow & ([e''|] & Hin & [= ->])%list_elem_of_omap)%list_elem_of_fmap.
  apply row_events_elem in Hin as (i & Hi & Hb).
  assert (from_row n e) as Hn.
  { destruct row as [r|]; [|done]. cbn in He.
    destruct (parseTraceRecord r columns n) eqn:HP; [|done]. injection He as ->.
    by eapply parseTraceRecord_row. }
  rewrite (fr_row _ _ Hn), (fr_row _ _ Hi) in Hrow. lia.
Qed.

Definition admitted (allow : gset string) (read : list (option ReplayEvent)) : list ReplayEvent :=
  List.filter (admits allow) (omap id read).

Lemma read_rows_spec policy columns allow rows : ∀ n source dropped events,
  0 ≤ n → 0 ≤ source → 0 ≤ dropped ≤ source → n + zlen rows < 2 ^ 64 → source + zlen rows < 2 ^ 64 →
  let read := row_events columns n rows in
  (policy = InvalidRowDrop ∨ Forall is_Some read →
     read_rows policy columns allow rows n source dropped events
     = Ok (source + zlen rows, dropped + zlen (filter unread read), events ++ admitted allow read)) ∧
  (policy ≠ InvalidRowDrop → ¬ Forall is_Some read →
     ∃ e, read_rows policy columns allow rows n source dropped events = Err e).
Proof.
  cbn zeta. induction rows as [|row rows IH]; intros n source dropped events Hn Hs Hd H1 H2;
    cbn [row_events ReplayTrace.read_rows].
  { split; [intros _|by intros _ []]. unfold zlen, admitted. cbn. by rewrite !Z.add_0_r, app_nil_r. }
  unfold zlen in H1, H2. cbn [length] in H1, H2. rewrite Nat2Z.inj_succ in H1, H2.
  assert (Z.of_nat (length rows) = zlen rows) as Hlen by done.
  rewrite (wrap64_small (n + 1)), (wrap64_small (source + 1)), (wrap64_small (dropped + 1))
    by (unfold u64, MaxUint64; lia).
  assert (zlen (row :: rows) = zlen rows + 1) as -> by (unfold zlen; cbn; lia).
  assert ((match row with
    | None => (if policy =?= InvalidRowDrop
        then read_rows policy columns allow rows (n + 1) (source + 1) (dropped + 1) events
        else Err (ErrReadRow n))
    | Some record => match parseTraceRecord record columns n with
        | Err e => (if policy =?= InvalidRowDrop
          then read_rows policy columns allow rows (n + 1) (source + 1) (dropped + 1) events
          else Err (ErrInvalidRow n e))
        | Ok event => (if admits allow event
          then read_rows policy columns allow rows (n + 1) (source + 1) dropped (events ++ [event])
          else read_rows policy columns allow rows (n + 1) (source + 1) dropped events)
        end
    end = match row_event columns n row with
      | Some event => read_rows policy columns allow rows (n + 1) (source + 1) dropped
          (events ++ List.filter (admits allow) [event])
      | None => if policy =?= InvalidRowDrop
          then read_rows policy columns allow rows (n + 1) (source + 1) (dropped + 1) events
          else Err (match row with
            | None => ErrReadRow n
            | Some r => ErrInvalidRow n (match parseTraceRecord r columns n with Err e => e | _ => "" end)
            end)
      end)) as ->.
  { destruct row as [r|]; [|done]. cbn. destruct (parseTraceRecord r columns n) as [e|e]; [|done].
    destruct (admits allow e); [done|]. by rewrite app_nil_r. }
  destruct (row_event columns n row) as [e|] eqn:He.
  - destruct (IH (n + 1) (source + 1) dropped (events ++ List.filter (admits allow) [e])
      ltac:(lia) ltac:(lia) ltac:(lia) ltac:(lia) ltac:(lia)) as [I1 I2]. split.
    + intros Hor. rewrite I1 by (destruct Hor as [?|?%Forall_cons]; [by left|right; tauto]).
      rewrite filter_cons_False by done. unfold admitted. cbn [omap list_omap id List.filter].
      rewrite <-(assoc_L (++)). f_equal. f_equal; [f_equal; lia|]. f_equal. by destruct (admits allow e).
    + intros Hp Hf. apply I2; [done|]. intros Ha. apply Hf. by constructor.
  - destruct (IH (n + 1) (source + 1) (dropped + 1) events
      ltac:(lia) ltac:(lia) ltac:(lia) ltac:(lia) ltac:(lia)) as [I1 I2]. split.
    + intros Hor. assert (policy = InvalidRowDrop) as Hp.
      { destruct Hor as [?|[[? ?] _]%Forall_cons]; done. }
      rewrite bool_decide_eq_true_2 by done. rewrite I1 by by left.
      rewrite filter_cons_True by done. unfold admitted. cbn [omap list_omap id].
      f_equal. f_equal. f_equal; [lia|]. unfold zlen. cbn. lia.
    + intros Hp _. rewrite bool_decide_eq_false_2 by done. by eexists.
Qed.

(** ** The prepared trace *)

(** The policy of the options: the empty one rejects. *)
Definition drops (options : TraceOptions) : Prop := options.(InvalidRowPolicy) = InvalidRowDrop.
Definition rejects (options : TraceOptions) : Prop :=
  options.(InvalidRowPolicy) = InvalidRowReject ∨ options.(InvalidRowPolicy) = "".

Definition kept (options : TraceOptions) (order : list ReplayEvent) : list ReplayEvent :=
  if options.(MaxEvents) =? 0 then order else take (Z.to_nat options.(MaxEvents)) order.

(** An event with its place, and its heights above the first of their chains. *)
Definition placed (digest : string) (init : gmap string Z) (index : nat) (e : ReplayEvent)
    : ReplayEvent :=
  let above b := mkBlock b.(block_Chain) b.(OriginalHeight)
                   (b.(OriginalHeight) - default 0 (init !! b.(block_Chain))) in
  let id := ComputeEventID sha256 time_Format digest
              (mkEvent "" e.(OriginalRow) (Z.of_nat index) e.(event_Source) e.(Destination)
                 e.(SourceTime) "" 0 0) in
  mkEvent id e.(OriginalRow) (Z.of_nat index) (above e.(event_Source)) (above e.(Destination))
    e.(SourceTime) e.(BridgeName) e.(TxCount) e.(VolumeUSD).

(** The trace of the events [order] that are kept. *)
Record prepared (data : bytes) (options : TraceOptions) (read : list (option ReplayEvent))
    (order : list ReplayEvent) (t : PreparedTrace) : Prop := {
  pr_digest : t.(trace_Digest) = EncodeToString (sha256 data);
  pr_rows : t.(SourceRows) = zlen read;
  pr_dropped : t.(DroppedRows) = zlen (filter unread read);
  pr_admitted : order ≡ₚ admitted (allowlist_of ul options.(ChainAllowlist)) read;
  pr_sorted : StronglySorted event_before order;
  pr_some : kept options order ≠ [];
  pr_heights chain h : t.(InitHeights) !! chain = Some h ↔ least_height (kept options order) chain h;
  pr_names : StronglySorted (key_lt bytes_of_string) t.(Chains);
  pr_chains chain : chain ∈ t.(Chains) ↔ is_Some (t.(InitHeights) !! chain);
  pr_events : t.(Events) = imap (placed t.(trace_Digest) t.(InitHeights)) (kept options order)
}.

Lemma length_row_events columns rows : ∀ n, length (row_events columns n rows) = length rows.
Proof. induction rows as [|r rows IH]; intros n; cbn; [done|]. by rewrite IH. Qed.

Lemma before_NoDup l : StronglySorted event_before l → NoDup l.
Proof.
  induction 1 as [|a l Hs IH Ha]; constructor; [|done].
  intros Hin. rewrite Forall_forall in Ha. by apply (event_before_irreflexive a), Ha.
Qed.

Lemma admitted_distinct allow columns n rows :
  NoDup (OriginalRow <$> admitted allow (row_events columns n rows)).
Proof.
  unfold admitted. pose proof (row_events_distinct columns rows n) as Hd.
  induction (omap id _) as [|e l IH]; cbn in *; [constructor|].
  apply NoDup_cons in Hd as [Hn Hd]. destruct (admits allow e); cbn; [|by apply IH].
  constructor; [|by apply IH]. intros (e' & Hrow & Hin)%list_elem_of_fmap.
  rewrite Hrow in Hn. apply Hn, list_elem_of_fmap_2. apply list_elem_of_In, filter_In in Hin as [Hin _].
  by apply list_elem_of_In.
Qed.

(** The kept events come from rows. *)
Lemma kept_from_row options columns rows order e :
  order ≡ₚ admitted (allowlist_of ul options.(ChainAllowlist)) (row_events columns 1 rows) →
  e ∈ kept options order → ∃ n, from_row n e.
Proof.
  intros Hp He. assert (e ∈ order) as Hin.
  { unfold kept in He. destruct (_ =? 0); [done|]. by eapply elem_of_take in He as (i & He & _); apply list_elem_of_lookup_2 in He. }
  rewrite Hp in Hin. unfold admitted in Hin. apply list_elem_of_In, filter_In in Hin as [Hin _].
  apply list_elem_of_In, list_elem_of_omap in Hin as ([e'|] & Hin & [= ->]).
  apply row_events_elem in Hin as (i & Hi & _). by eexists.
Qed.

Lemma blocks_of_elem l b :
  b ∈ blocks_of l ↔ ∃ e, e ∈ l ∧ (b = e.(event_Source) ∨ b = e.(Destination)).
Proof.
  unfold blocks_of. rewrite list_elem_of_In, in_flat_map. setoid_rewrite <-list_elem_of_In.
  setoid_rewrite elem_of_cons. setoid_rewrite list_elem_of_singleton. done.
Qed.

Lemma numbered_placed digest l i e :
  (∀ e, e ∈ l → ∃ n, from_row n e) → l !! i = Some e →
  numbered sha256 time_Format digest (minimum_heights l) i e
  = placed digest (minimum_heights l) i e.
Proof.
  intros Hl He%list_elem_of_lookup_2.
  assert (∀ b, b ∈ blocks_of l → 0 ≤ b.(OriginalHeight) ≤ MaxUint64) as Hb.
  { intros b (e' & [n He']%Hl & Hor)%blocks_of_elem. destruct (fr_heights _ _ He').
    by destruct Hor as [-> | ->]. }
  assert (∀ b, b ∈ blocks_of l → normalized (minimum_heights l) b
    = mkBlock b.(block_Chain) b.(OriginalHeight)
        (b.(OriginalHeight) - default 0 (minimum_heights l !! b.(block_Chain)))) as Hn.
  { intros b H. destruct (normalized_exact l b H (Hb b H)) as (h & -> & _ & ->); [|done].
    intros b' H'. by apply Hb. }
  unfold numbered, placed. rewrite !Hn by (apply blocks_of_elem; eauto). done.
Qed.

Lemma required_present (columns : gmap string nat) :
  filter (λ name, columns !! name = None) required = [] ↔
  ∀ name, name ∈ required → is_Some (columns !! name).
Proof.
  split.
  - intros H name Hin. apply not_eq_None_Some. intros Hn.
    by apply (filter_nil_not_elem_of (λ name, columns !! name = None) required name).
  - intros H. destruct (filter _ required) as [|name l] eqn:E; [done|]. exfalso.
    assert (name ∈ filter (λ name, columns !! name = None) required) as Hin by (rewrite E; left).
    apply list_elem_of_filter in Hin as [Hn Hin]. destruct (H name Hin). congruence.
Qed.

Lemma kept_take options order :
  0 ≤ options.(MaxEvents) →
  (if (0 <? options.(MaxEvents)) && (options.(MaxEvents) <? zlen order)
   then take (Z.to_nat options.(MaxEvents)) order else order) = kept options order.
Proof.
  intros Hm. unfold kept, zlen. destruct (Z.eqb_spec options.(MaxEvents) 0) as [->|]; [done|].
  destruct (Z.ltb_spec 0 options.(MaxEvents)); [|lia]. cbn [andb].
  destruct (Z.ltb_spec options.(MaxEvents) (Z.of_nat (length order))); [done|].
  by rewrite take_ge by lia.
Qed.

Lemma policy_cases options (good : Prop) :
  let policy :=
    if options.(InvalidRowPolicy) =?= "" then InvalidRowReject else options.(InvalidRowPolicy) in
  (drops options ∨ rejects options ∧ good) ↔
  (policy = InvalidRowReject ∨ policy = InvalidRowDrop) ∧ (policy = InvalidRowDrop ∨ good).
Proof.
  cbn zeta. unfold drops, rejects. case_bool_decide as He.
  - rewrite He. naive_solver.
  - naive_solver congruence.
Qed.

(** A trace is determined by its options and its rows. *)
Lemma prepared_unique data options read o o' t t' :
  prepared data options read o t → prepared data options read o' t' → t = t'.
Proof.
  intros [A1 A2 A3 A4 A5 A6 A7 A8 A9 A10] [B1 B2 B3 B4 B5 B6 B7 B8 B9 B10].
  assert (o = o') as <-.
  { eapply StronglySorted_unique; [apply _|done|done|]. by rewrite A4, B4. }
  assert (t.(InitHeights) = t'.(InitHeights)) as Hi.
  { apply map_eq. intros chain. apply option_eq. intros h. by rewrite A7, B7. }
  assert (t.(Chains) = t'.(Chains)) as Hc.
  { apply (sorted_by_unique bytes_of_string); [done|done|]. intros c. by rewrite A9, B9, Hi. }
  rewrite A1 in A10. rewrite B1, <-Hi in B10. rewrite <-A10 in B10.
  destruct t, t'. cbn in *. congruence.
Qed.

Lemma finished_prepared data options columns rows order :
  order ≡ₚ admitted (allowlist_of ul options.(ChainAllowlist)) (row_events columns 1 rows) →
  StronglySorted event_before order → kept options order ≠ [] →
  let read := row_events columns 1 rows in
  let init := minimum_heights (kept options order) in
  let digest := EncodeToString (sha256 data) in
  prepared data options read order
    (mkTrace digest (zlen read) (zlen (filter unread read)) (chain_names init) init
       (imap (numbered sha256 time_Format digest init) (kept options order))).
Proof.
  intros Hp Hs Hk. cbn zeta. destruct (chain_names_spec (minimum_heights (kept options order))) as [N1 N2].
  split; cbn; try done.
  - intros chain h. apply minimum_heights_spec.
  - apply imap_ext. intros i e He. apply numbered_placed; [|done].
    intros e' He'. by eapply kept_from_row.
Qed.

(** What a run relies on. *)
Lemma prepared_event data options columns rows order t i e :
  prepared data options (row_events columns 1 rows) order t → t.(Events) !! i = Some e →
  ∃ e0 n, kept options order !! i = Some e0 ∧ from_row n e0 ∧
    e = placed t.(trace_Digest) t.(InitHeights) i e0.
Proof.
  intros P. rewrite (pr_events _ _ _ _ _ P), list_lookup_imap.
  destruct (kept options order !! i) as [e0|] eqn:He; [|done]. intros [= <-].
  destruct (kept_from_row options columns rows order e0 (pr_admitted _ _ _ _ _ P)) as [n Hn].
  { by eapply list_elem_of_lookup_2. }
  by exists e0, n.
Qed.

Lemma prepared_trace_ok data options columns rows order t :
  (∀ s, is_ascii s = false → TrimSpace s = s → canonicalChain ul (ul s) = ul s) →
  prepared data options (row_events columns 1 rows) order t →
  ∀ i e, t.(Events) !! i = Some e → e.(Sequence) = Z.of_nat i ∧ event_canonical ul e.
Proof.
  intros Hul P i e He. destruct (prepared_event _ _ _ _ _ _ _ _ P He) as (e0 & n & _ & Hr & ->).
  split; [done|]. destruct (fr_source _ _ Hr) as [a Ha], (fr_destination _ _ Hr) as [b Hb].
  split; cbn; rewrite ?Ha, ?Hb; by apply canonicalChain_twice.
Qed.

Lemma ComputeEventID_row digest e e' :
  ComputeEventID sha256 time_Format digest e = ComputeEventID sha256 time_Format digest e' →
  e.(OriginalRow) = e'.(OriginalRow) ∨ ∃ x y, x ≠ y ∧ sha256 x = sha256 y.
Proof.
  unfold ComputeEventID. cbv zeta. intros H%EncodeToString_inj.
  destruct (decide (e.(OriginalRow) = e'.(OriginalRow))) as [|Hne]; [by left|right].
  eexists _, _. split; [|exact H]. intros HB%bytes_of_string_inj.
  do 4 apply app_string_inj in HB. apply first_line_inj in HB; [|apply pretty_line..].
  by apply Hne, (inj pretty).
Qed.

Lemma PrepareTrace_iff data header rows options t :
  csv_read data = Some header :: rows → zlen rows < 2 ^ 64 - 1 → 0 ≤ options.(MaxEvents) →
  let columns := columns_of header in
  let read := row_events columns 1 rows in
  PrepareTrace (Some data) options = Ok t ↔
  (∀ name, name ∈ required → is_Some (columns !! name)) ∧
  (drops options ∨ rejects options ∧ Forall is_Some read) ∧
  ∃ order, prepared data options read order t.
Proof.
  intros Hcsv Hrows Hmax. cbn zeta. unfold ReplayTrace.PrepareTrace. rewrite Hcsv.
  rewrite <-required_present.
  destruct (filter _ required) as [|name l]; [|by split; [|intros [[=] _]]].
  set (policy := if _ =?= "" then _ else _).
  set (read := row_events (columns_of header) 1 rows).
  set (allow := allowlist_of ul options.(ChainAllowlist)).
  assert (zlen rows = zlen read) as Hlen by (unfold zlen, read; by rewrite length_row_events).
  destruct (read_rows_spec policy (columns_of header) allow rows 1 0 0 []
    ltac:(lia) ltac:(lia) ltac:(lia) ltac:(lia) ltac:(lia)) as [R1 R2]. fold read in R1, R2.
  pose proof (admitted_distinct allow (columns_of header) 1 rows) as Hd. fold read in Hd.
  pose proof (event_order _ Hd) as Hs.
  pose proof (merge_sort_Permutation event_le (admitted allow read)) as Hp.
  fold (sort_events (admitted allow read)) in Hp.
  set (order := sort_events (admitted allow read)) in *.
  rewrite (policy_cases options (Forall is_Some read)). fold policy.
  destruct (decide (policy = InvalidRowReject ∨ policy = InvalidRowDrop)) as [Hpol|Hpol].
  2: { rewrite !bool_decide_eq_false_2 by tauto. cbn [negb andb]. split; [done|]. tauto. }
  assert ((policy ≠?= InvalidRowReject) && (policy ≠?= InvalidRowDrop) = false) as ->.
  { destruct Hpol as [-> | ->]; done. }
  destruct (decide (policy = InvalidRowDrop ∨ Forall is_Some read)) as [Hgood|Hbad].
  2: { destruct R2 as [e ->]; [tauto|tauto|]. cbn. split; [done|]. tauto. }
  rewrite (R1 Hgood), !Z.add_0_l. cbn [mbind res_mbind res_bind app]. fold order.
  rewrite (kept_take options order Hmax), Hlen.
  destruct (Z.eqb_spec (zlen (kept options order)) 0) as [Hz|Hz].
  { split; [done|]. intros (_ & _ & o & [A1 A2 A3 A4 A5 A6 A7 A8 A9 A10]). exfalso. apply A6.
    assert (o = order) as ->.
    { eapply StronglySorted_unique; [apply _|done|done|]. by rewrite A4, Hp. }
    apply length_zero_iff_nil. unfold zlen in Hz. lia. }
  assert (kept options order ≠ []) as Hne by (intros E; by rewrite E in Hz).
  pose proof (finished_prepared data options (columns_of header) rows order Hp Hs Hne) as P.
  split.
  - intros [= <-]. split_and!; [done|done|done|]. exists order. exact P.
  - intros (_ & _ & o & P'). f_equal. exact (prepared_unique _ _ _ _ _ _ _ P P').
Qed.

(** C28. A trace is prepared exactly when every required column is there, the policy
    is known, and no row is unreadable unless such rows are dropped.  The result
    is determined: the counts of rows, and the admitted events in the order of
    time (then destination, source and row), the first of them when there are
    too many, each with its place, its identifier and its heights above the
    least height of its chain, which never wrap around; the chains are the sorted
    names of those events.  Its events can be run: they are numbered from zero
    and their names are canonical. *)
Theorem PrepareTrace_spec data header rows options t :
  csv_read data = Some header :: rows → zlen rows < 2 ^ 64 - 1 → 0 ≤ options.(MaxEvents) →
  (∀ s, is_ascii s = false → TrimSpace s = s → canonicalChain ul (ul s) = ul s) →
  let columns := columns_of header in
  let read := row_events columns 1 rows in
  (PrepareTrace (Some data) options = Ok t ↔
   (∀ name, name ∈ required → is_Some (columns !! name)) ∧
   (drops options ∨ rejects options ∧ Forall is_Some read) ∧
   ∃ order, prepared data options read order t) ∧
  (PrepareTrace (Some data) options = Ok t → ∀ i e, t.(Events) !! i = Some e →
   e.(Sequence) = Z.of_nat i ∧ event_canonical ul e).
Proof.
  intros Hcsv Hrows Hmax Hul. cbn zeta.
  pose proof (PrepareTrace_iff data header rows options t Hcsv Hrows Hmax) as HI. cbn zeta in HI.
  split; [exact HI|]. intros (_ & _ & order & P)%HI. by eapply prepared_trace_ok.
Qed.

(** Two events of a prepared trace have different identifiers, whatever the rows:
    when two are equal, SHA-256 has a collision. *)
Theorem event_IDs_distinct data header rows options t i j e e' :
  csv_read data = Some header :: rows → zlen rows < 2 ^ 64 - 1 → 0 ≤ options.(MaxEvents) →
  PrepareTrace (Some data) options = Ok t →
  t.(Events) !! i = Some e → t.(Events) !! j = Some e' → e.(event_ID) = e'.(event_ID) →
  i = j ∨ ∃ x y, x ≠ y ∧ sha256 x = sha256 y.
Proof.
  intros Hcsv Hrows Hmax HT Hi Hj HID.
  apply (PrepareTrace_iff _ _ _ _ _ Hcsv Hrows Hmax) in HT as (_ & _ & order & P).
  destruct (prepared_event _ _ _ _ _ _ _ _ P Hi) as (e1 & n & K1 & _ & ->).
  destruct (prepared_event _ _ _ _ _ _ _ _ P Hj) as (e2 & m & K2 & _ & ->).
  cbn in HID. apply ComputeEventID_row in HID as [Hrow|?]; [left|by right]. cbn in Hrow.
  assert (NoDup (OriginalRow <$> kept options order)) as Hd.
  { assert (NoDup (OriginalRow <$> order)) as Ho.
    { rewrite (pr_admitted _ _ _ _ _ P). apply admitted_distinct. }
    unfold kept. destruct (_ =? 0); [done|].
    rewrite <-(take_drop (Z.to_nat options.(MaxEvents)) order), fmap_app in Ho.
    by apply NoDup_app in Ho as [? _]. }
  eapply (NoDup_lookup _ _ _ e1.(OriginalRow) Hd); rewrite list_lookup_fmap.
  - by rewrite K1.
  - rewrite K2. cbn. by rewrite Hrow.
Qed.

End Rows.

End ReplayTrace.
