(* ===== verification/ReplayPreflight.v ===== *)
(** * Mapnode/replay: the preflight of a trace

    [ValidatePreparedTrace] of config.go checks, before anything is replayed, the
    costs that the heights of a trace can give rise to.  A trace that
    replay_trace.go prepared and the preflight accepted is replayed to its end,
    without an error, unless the search of the planner adds two costs that each
    fit in 64 bits and whose sum does not. *)

From Stdlib Require Import Strings.Byte.
From S2P Require Import Prelude ReplayView ReplayNames ReplayHeight Heap ReplaySearch ReplayCoordinator ReplayTrace.
Import ReplayView ReplayNames ReplaySearch ReplayCoordinator ReplayTrace.

Module ReplayPreflight.

(** ** The check *)

Record heightRange := mkHeightRange {
  minimum : Z;
  maximum : Z
}.

Definition observe (ranges : gmap string heightRange) (block : ReplayBlock) : gmap string heightRange :=
  let h := block.(OriginalHeight) in
  match ranges !! block.(block_Chain) with
  | None => <[block.(block_Chain) := mkHeightRange h h]> ranges
  | Some current =>
      let current := if h <? current.(minimum) then mkHeightRange h current.(maximum) else current in
      let current := if current.(maximum) <? h then mkHeightRange current.(minimum) h else current in
      <[block.(block_Chain) := current]> ranges
  end.

Definition check_range (profile : CostProfile) (heights : heightRange) : res error unit :=
  let span := heights.(maximum) - heights.(minimum) in
  _ ← CheckedCost span profile.(DirectStepCost);
  pathSegment ← CheckedCost span profile.(PathStepCost);
  _ ← CheckedAdd pathSegment profile.(TrustRootUpdateCost);
  Ok tt.

Fixpoint check_ranges (profile : CostProfile) (ranges : list heightRange) : res error unit :=
  match ranges with
  | [] => Ok tt
  | heights :: rest => _ ← check_range profile heights; check_ranges profile rest
  end.

Definition observe_all (ranges : gmap string heightRange) (blocks : list ReplayBlock)
    : gmap string heightRange := foldl observe ranges blocks.

(** The profile is the one of the configuration.  The two loops over maps end the
    same way in every order. *)
Definition ValidatePreparedTrace (profile : CostProfile) (trace : PreparedTrace) : res error unit :=
  _ ← CostProfile_Validate profile;
  let ranges := foldl (λ r event, observe (observe r event.(event_Source)) event.(Destination)) ∅
                  trace.(Events) in
  let ranges := foldl (λ r '(chain, height), observe r (mkBlock chain height 0)) ranges
                  (map_to_list trace.(InitHeights)) in
  _ ← check_ranges profile (map snd (map_to_list ranges));
  _ ← CheckedAdd profile.(PathStepCost) profile.(TrustRootUpdateCost);
  Ok tt.

(** ** Lemmas: the ranges *)

Definition ranges_ok (blocks : list ReplayBlock) (ranges : gmap string heightRange) : Prop :=
  ∀ b, b ∈ blocks → ∃ r, ranges !! b.(block_Chain) = Some r ∧
    r.(minimum) ≤ b.(OriginalHeight) ≤ r.(maximum).

Lemma observe_ok blocks ranges b :
  ranges_ok blocks ranges → ranges_ok (blocks ++ [b]) (observe ranges b).
Proof.
  intros HR b' Hb'. apply elem_of_app in Hb'. unfold observe.
  destruct (decide (b.(block_Chain) = b'.(block_Chain))) as [Hc|Hc].
  - rewrite Hc. assert (∀ r, r.(minimum) ≤ b'.(OriginalHeight) ≤ r.(maximum) ∨ b' = b →
      let r1 := if b.(OriginalHeight) <? r.(minimum) then mkHeightRange b.(OriginalHeight) r.(maximum) else r in
      let r2 := if r1.(maximum) <? b.(OriginalHeight) then mkHeightRange r1.(minimum) b.(OriginalHeight) else r1 in
      r2.(minimum) ≤ b'.(OriginalHeight) ≤ r2.(maximum)) as Hgrow.
    { intros r Hr. cbv zeta. destruct (Z.ltb_spec b.(OriginalHeight) r.(minimum)); cbn;
        match goal with |- context [?x <? ?y] => destruct (Z.ltb_spec x y) end; cbn; destruct Hr as [?| ->]; lia. }
    destruct (ranges !! b'.(block_Chain)) as [r|] eqn:Hl; rewrite lookup_insert_eq; eexists.
    + split; [done|]. apply Hgrow. destruct Hb' as [Hb'|Hb'%list_elem_of_singleton]; [left|by right].
      destruct (HR b' Hb') as (r' & Hr' & ?). congruence.
    + split; [done|]. destruct Hb' as [Hb'|Hb'%list_elem_of_singleton]; [|by subst].
      destruct (HR b' Hb') as (r' & Hr' & _). congruence.
  - destruct Hb' as [Hb'|Hb'%list_elem_of_singleton]; [|by subst].
    destruct (HR b' Hb') as (r & Hr & Hle). exists r. split; [|done].
    destruct (ranges !! b.(block_Chain)); by rewrite lookup_insert_ne.
Qed.

Lemma observe_events_ok events :
  ranges_ok (blocks_of events)
    (foldl (λ r event, observe (observe r event.(event_Source)) event.(Destination)) ∅ events).
Proof.
  induction events as [|e events IH] using rev_ind; [by intros b ?%elem_of_nil|].
  rewrite foldl_snoc, blocks_of_app. cbn [blocks_of flat_map app].
  change [e.(event_Source); e.(Destination)] with ([e.(event_Source)] ++ [e.(Destination)]).
  rewrite (assoc_L (++)). by apply observe_ok, observe_ok.
Qed.

Lemma observe_init_ok l : ∀ blocks ranges,
  ranges_ok blocks ranges →
  ranges_ok blocks (foldl (λ r '(chain, height), observe r (mkBlock chain height 0)) ranges l).
Proof.
  induction l as [|[c h] l IH]; intros blocks ranges HR; cbn; [done|]. apply IH.
  intros b Hb. apply (observe_ok _ _ (mkBlock c h 0) HR). apply elem_of_app. by left.
Qed.

Lemma CheckedCost_exact delta step :
  0 ≤ delta → 0 ≤ step → delta * step ≤ MaxUint64 → CheckedCost delta step = Ok (delta * step).
Proof.
  intros Hd Hs Hm. unfold CheckedCost. destruct (Z.eqb_spec delta 0) as [|Hne]; [done|]. cbn [negb andb].
  destruct (Z.ltb_spec (MaxUint64 / delta) step) as [Hlt|]; [|done]. exfalso.
  assert (step ≤ MaxUint64 / delta) by (apply Z.div_le_lower_bound; lia). lia.
Qed.

Lemma check_ranges_elem profile ranges r :
  check_ranges profile ranges = Ok tt → r ∈ ranges → check_range profile r = Ok tt.
Proof.
  induction ranges as [|r' ranges IH]; cbn [check_ranges]; [by intros _ ?%elem_of_nil|].
  intros ([] & H1 & H2)%bind_Ok [->|Hin]%elem_of_cons; [done|by apply IH].
Qed.

(** What the preflight has checked: the costs between any two heights of a chain. *)
Definition spans_fit (profile : CostProfile) (blocks : list ReplayBlock) : Prop :=
  ∀ b b', b ∈ blocks → b' ∈ blocks → b.(block_Chain) = b'.(block_Chain) →
    b.(OriginalHeight) ≤ b'.(OriginalHeight) →
    let span := b'.(OriginalHeight) - b.(OriginalHeight) in
    span * profile.(DirectStepCost) ≤ MaxUint64 ∧
    span * profile.(PathStepCost) + profile.(TrustRootUpdateCost) ≤ MaxUint64.

Lemma ValidatePreparedTrace_spans profile t :
  profile_ok profile → ValidatePreparedTrace profile t = Ok tt →
  spans_fit profile (blocks_of t.(Events)).
Proof.
  intros (Hd & Hp & Hu). unfold ValidatePreparedTrace. cbv zeta.
  set (ranges := foldl (λ r '(chain, height), _) _ _).
  intros ([] & _ & ([] & HC & _)%bind_Ok)%bind_Ok b b' Hb Hb' Hc Hle. cbn zeta.
  pose proof (observe_init_ok (map_to_list t.(InitHeights)) _ _ (observe_events_ok t.(Events))) as HR.
  fold ranges in HR. destruct (HR b Hb) as (r & Hr & Hb1). destruct (HR b' Hb') as (r' & Hr' & Hb2).
  assert (r' = r) as -> by congruence.
  assert (check_range profile r = Ok tt) as HK.
  { eapply check_ranges_elem; [exact HC|]. apply list_elem_of_fmap. exists (b.(block_Chain), r).
    split; [done|]. by apply elem_of_map_to_list. }
  unfold check_range in HK. cbv zeta in HK.
  apply bind_Ok in HK as (x & H1 & (y & H2 & (z & H3 & _)%bind_Ok)%bind_Ok).
  apply CheckedCost_Ok in H1 as [-> H1]; [|lia|lia]. apply CheckedCost_Ok in H2 as [-> H2]; [|lia|lia].
  apply CheckedAdd_Ok in H3 as [-> H3]. nia.
Qed.

(** ** Lemmas: a replay within the preflight *)

Section Within.
Context (ul : string → string) (pr : CostProfile) (blocks : list ReplayBlock).
Hypothesis profile_good : profile_ok pr.
Hypothesis names_ok : ∀ b, b ∈ blocks →
  canonicalChain ul b.(block_Chain) = b.(block_Chain) ∧ b.(block_Chain) ≠ "".
Hypothesis spans : spans_fit pr blocks.

Abbreviation Key := (Key ul).

(** The nodes of a view are blocks of the trace. *)
Definition nodes_within (v : ReplayTrustView) : Prop :=
  ∀ k, k ∈ v.(nodes) → ∃ b, b ∈ blocks ∧ k = mkKey b.(block_Chain) b.(OriginalHeight).

Lemma Key_within b : b ∈ blocks → Key b = mkKey b.(block_Chain) b.(OriginalHeight).
Proof. intros Hb. unfold ReplayView.Key. by destruct (names_ok b Hb) as [-> _]. Qed.

Lemma pair_edges_within b b' :
  b ∈ blocks → b' ∈ blocks → b.(block_Chain) = b'.(block_Chain) →
  b.(OriginalHeight) ≤ b'.(OriginalHeight) →
  ∃ l, pair_edges pr b.(block_Chain) b.(OriginalHeight) b'.(OriginalHeight) = Ok l.
Proof.
  intros Hb Hb' Hc Hle. destruct profile_good as (Hd & Hp & Hu).
  destruct (spans b b' Hb Hb' Hc Hle) as [H1 H2]. unfold pair_edges.
  rewrite !CheckedCost_exact by lia. by eexists.
Qed.

Lemma Activate_within v b :
  view_wf v → v.(view_profile) = pr → nodes_within v → b ∈ blocks →
  ∃ v', Activate ul v b = (Ok (Key b), v') ∧ nodes_within v' ∧
    v'.(crossEdgesAdded) = v.(crossEdgesAdded) ∧ v'.(view_profile) = pr ∧ view_wf v' ∧
    v'.(nodes) = {[Key b]} ∪ v.(nodes).
Proof.
  intros W Hpr Hin Hb. pose proof (Activate_spec ul v b W) as A.
  destruct (Activate ul v b) as [r v'] eqn:HA. cbn in A.
  assert (r = Ok (Key b)) as ->.
  { revert HA. unfold Activate. rewrite (Key_within b Hb). cbn [key_Chain key_Height].
    destruct (names_ok b Hb) as [_ Hne]. rewrite bool_decide_eq_false_2 by done. cbv zeta.
    pose proof (index_ok v b.(block_Chain) W) as (HB & _ & HM).
    destruct (Contains _ _) eqn:Hc; [by intros [= <- _]|].
    assert (¬ mem b.(OriginalHeight) (default Leaf (heights v !! b.(block_Chain)))) as Hnm
      by (intros Hm%Contains_mem; [congruence|done]).
    destruct (Neighbours_spec _ _ HB Hnm) as [Hp Hs]. destruct (Neighbours _ _) as [pred succ].
    cbn [fst snd] in Hp, Hs. rewrite Hpr.
    assert (∃ l, joined pr b.(block_Chain) b.(OriginalHeight) pred succ = Ok l) as [l ->];
      [|by intros [= <- _]].
    unfold joined.
    assert (∃ l, match pred with
      | Some p => pair_edges pr b.(block_Chain) p b.(OriginalHeight) | None => Ok [] end = Ok l) as [l1 ->].
    { destruct pred as [p|]; [|by eexists]. destruct Hp as (Hm & Hlt & _). apply HM in Hm.
      destruct (Hin _ Hm) as (b0 & Hb0 & [= Hc0 ->]). rewrite Hc0. apply pair_edges_within; [done|done|done|lia]. }
    assert (∃ l, match succ with
      | Some s => pair_edges pr b.(block_Chain) b.(OriginalHeight) s | None => Ok [] end = Ok l) as [l2 ->].
    { destruct succ as [s|]; [|by eexists]. destruct Hs as (Hm & Hlt & _). apply HM in Hm.
      destruct (Hin _ Hm) as (b0 & Hb0 & [= Hc0 ->]). apply pair_edges_within; [done|done|done|lia]. }
    by eexists. }
  destruct (ac_result _ _ _ _ _ A _ eq_refl) as [_ Hn]. exists v'. split_and!; [done| | | | |done].
  - intros k. rewrite Hn. intros [->%elem_of_singleton|Hk]%elem_of_union; [|by apply Hin].
    exists b. split; [done|by apply Key_within].
  - apply A.
  - rewrite (ac_profile _ _ _ _ _ A). done.
  - apply A.
Qed.

Lemma estimate_within baseline b po use :
  (∀ chain period, po !! chain = Some period → 0 < period) → b ∈ blocks →
  (∃ b', b' ∈ blocks ∧ b'.(block_Chain) = b.(block_Chain) ∧ b'.(OriginalHeight) = baseline) →
  ∃ est, estimate_from ul baseline b.(block_Chain) b.(OriginalHeight) pr po use = Ok est.
Proof.
  intros Hpo Hb (b' & Hb' & Hc & <-). destruct profile_good as (Hd & Hp & Hu). unfold estimate_from.
  destruct (Z.leb_spec b'.(OriginalHeight) b.(OriginalHeight)) as [Hle|Hlt].
  - destruct (spans b' b Hb' Hb Hc Hle) as [H1 _]. unfold from_checkpoint.
    destruct (if use then Period ul po b.(block_Chain) else None) as [p|] eqn:HP; cbn.
    + assert (0 < p) as Hpos by (destruct use; [by eapply Hpo|done]).
      pose proof (Z.mul_div_le b.(OriginalHeight) p Hpos) as Hm.
      assert (b.(OriginalHeight) / p * p ≤ b.(OriginalHeight)) by lia.
      destruct (Z.ltb_spec b'.(OriginalHeight) (b.(OriginalHeight) / p * p));
        rewrite CheckedCost_exact by nia; by eexists.
    + rewrite CheckedCost_exact by nia. by eexists.
  - destruct (spans b b' Hb Hb' ltac:(done) ltac:(lia)) as [_ H2].
    rewrite CheckedCost_exact by nia. by eexists.
Qed.

(** The costs that the search may add fit: a direct cost, less the update, and the
    weight of an edge. *)
Definition room : Prop :=
  ∀ b1 b1' b2 b2', b1 ∈ blocks → b1' ∈ blocks → b2 ∈ blocks → b2' ∈ blocks →
    b1.(block_Chain) = b1'.(block_Chain) → b2.(block_Chain) = b2'.(block_Chain) →
    let step := Z.max pr.(DirectStepCost) pr.(PathStepCost) in
    Z.abs (b1'.(OriginalHeight) - b1.(OriginalHeight)) * step
    + Z.max pr.(PathStepCost) (Z.abs (b2'.(OriginalHeight) - b2.(OriginalHeight)) * step)
    ≤ MaxUint64 + pr.(TrustRootUpdateCost).

(** The weight of an edge, between blocks of the trace. *)
Lemma edge_weight_within v f t e :
  view_wf v → v.(view_profile) = pr → nodes_within v → edge_at v.(adjacency) f t = Some e →
  ∃ b b', b ∈ blocks ∧ b' ∈ blocks ∧ b.(block_Chain) = b'.(block_Chain) ∧
    e.(edge_Weight) ≤ Z.max pr.(PathStepCost)
      (Z.abs (b'.(OriginalHeight) - b.(OriginalHeight)) * Z.max pr.(DirectStepCost) pr.(PathStepCost)).
Proof.
  intros W Hpr Hin He. destruct profile_good as (Hd & Hp & Hu).
  destruct (vw_edge _ W _ _ _ He) as (Hf & Ht & _ & HK). rewrite Hpr in HK.
  destruct (Hin f Hf) as (b & Hb & ->). destruct (Hin t Ht) as (b' & Hb' & ->). cbn in HK.
  destruct HK as [(_ & Hc & (_ & _ & Hlt & _) & ->)|[(_ & Hc & (_ & _ & Hlt & _) & ->)|[_ ->]]].
  - cbn in Hlt |- *. exists b, b'. split_and!; [done..|]. etrans; [|apply Z.le_max_r].
    rewrite Z.abs_eq by lia. apply Z.mul_le_mono_nonneg_l; lia.
  - cbn in Hlt |- *. exists b, b'. split_and!; [done..|]. etrans; [|apply Z.le_max_r].
    rewrite Z.abs_neq by lia. rewrite Z.opp_sub_distr, Z.add_comm, Z.add_opp_r.
    apply Z.mul_le_mono_nonneg_l; lia.
  - exists b, b. split_and!; [done..|]. lia.
Qed.

Section Planning.
Context (range : nat → gmap ReplayBlockKey ReplayEdge → list (ReplayBlockKey * ReplayEdge)).
Context (scratch : replaySearchScratch).
Hypothesis range_all : ∀ n m, range n m ≡ₚ map_to_list m.
Hypothesis scratch_good : scratch_ok scratch.

Lemma search_within v start goal b b' direct :
  view_wf v → v.(view_profile) = pr → nodes_within v → room →
  b ∈ blocks → b' ∈ blocks → b.(block_Chain) = b'.(block_Chain) →
  pr.(TrustRootUpdateCost) < direct ≤ MaxUint64 →
  direct ≤ Z.abs (b'.(OriginalHeight) - b.(OriginalHeight))
    * Z.max pr.(DirectStepCost) pr.(PathStepCost) →
  canonicalKey ul start = start → canonicalKey ul goal = goal →
  start ∈ v.(nodes) → goal ∈ v.(nodes) →
  ∃ p found, (ShortestPath ul range v scratch start goal (direct - pr.(TrustRootUpdateCost))
     goal.(key_Chain) goal.(key_Height)).1 = Ok (p, found) ∧
    (found = true → p.(path_Cost) ≤ direct - pr.(TrustRootUpdateCost)).
Proof.
  intros W Hpr Hin HR Hb Hb' Hc [Hlo Hhi] Hdirect Hs Hg Hns Hng.
  destruct profile_good as (Hd & Hp & Hu). set (cutoff := direct - _) in *.
  destruct (decide (start = goal)) as [<-|Hne].
  { unfold ShortestPath. rewrite Hs, bool_decide_eq_true_2 by done. eexists _, _. split; [done|]. cbn. lia. }
  pose proof (ShortestPath_found ul range range_all v scratch start goal cutoff goal.(key_Chain)
    goal.(key_Height) W scratch_good ltac:(unfold u64; lia) ltac:(congruence)) as HF.
  destruct (ShortestPath _ _ _ _ _ _ _ _ _) as [r s']. destruct HF as [HF _]. cbn.
  rewrite Hs, Hg in HF. destruct r as [[p found]|e].
  - exists p, found. split; [done|]. intros ->. by destruct HF as (_ & HF & _).
  - exfalso. assert (∃ f t e', edge_at v.(adjacency) f t = Some e' ∧ MaxUint64 < cutoff + e'.(edge_Weight))
      as (f & t & e' & He & Hov).
    { destruct e; cbn in HF; by destruct HF. }
    destruct (edge_weight_within v f t e' W Hpr Hin He) as (b2 & b2' & H2 & H2' & Hc2 & Hw).
    pose proof (HR b b' b2 b2' Hb Hb' H2 H2' Hc Hc2) as HR'. cbn zeta in HR'. lia.
Qed.

Lemma decide_within c event est b b' :
  coordinator_ok ul c → c.(profile) = pr → nodes_within c.(view) →
  (UsesTrustMap c.(setting) = true →
     room ∧ Key event.(Destination) ∈ c.(view).(nodes) ∧ Key event.(event_Source) ∈ c.(view).(nodes)) →
  b ∈ blocks → b' ∈ blocks → b.(block_Chain) = b'.(block_Chain) → u64 est.(est_Cost) →
  est.(est_Cost) ≤ Z.abs (b'.(OriginalHeight) - b.(OriginalHeight))
    * Z.max pr.(DirectStepCost) pr.(PathStepCost) →
  ∃ r, decide_on ul range scratch c event (Key event.(Destination)) (Key event.(event_Source)) est = Ok r.
Proof.
  intros C Hpr Hin HT Hb Hb' Hc [He0 He] Hest. unfold decide_on.
  destruct (UsesTrustMap c.(setting)); [|by eexists]. destruct (HT eq_refl) as (HR & Hn1 & Hn2).
  unfold Plan. rewrite Hpr. destruct profile_good as (Hd & Hp & Hu).
  destruct (Z.leb_spec est.(est_Cost) pr.(TrustRootUpdateCost)) as [|Hgt].
  { cbn. by eexists. }
  destruct (search_within c.(view) (Key event.(Destination)) (Key event.(event_Source)) b b' est.(est_Cost)
    (co_view _ _ C) ltac:(rewrite (co_profile _ _ C); done) Hin HR Hb Hb' Hc ltac:(lia) Hest
    (co_canonical _ _ C _ Hn1) (co_canonical _ _ C _ Hn2) Hn1 Hn2) as (p & found & HS & Hcost).
  rewrite HS. cbn [mbind res_mbind res_bind]. unfold choose. destruct found; cbn [negb].
  - specialize (Hcost eq_refl). rewrite CheckedAdd_exact by lia. cbn [mbind res_mbind res_bind].
    destruct (_ <? est.(est_Cost)); cbn; rewrite CheckedAdd_exact by lia; cbn; by eexists.
  - cbn. by eexists.
Qed.

(** ** Lemmas: the events of a trace, one after the other *)

(** The baselines are heights of the trace, on every chain of it. *)
Record baselines_within (b : ReplayBaselines) : Prop := {
  bw_values key v : b.(values) !! key = Some v →
    ∃ bb, bb ∈ blocks ∧ bb.(block_Chain) = key.2 ∧ bb.(OriginalHeight) = v;
  bw_init bb : bb ∈ blocks →
    ∃ b0, b0 ∈ blocks ∧ b0.(block_Chain) = bb.(block_Chain) ∧
      b.(initHeights) !! bb.(block_Chain) = Some b0.(OriginalHeight)
}.

Record within (c : ReplayCoordinator) (added : Z) : Prop := {
  wi_ok : coordinator_ok ul c;
  wi_profile : c.(profile) = pr;
  wi_nodes : nodes_within c.(view);
  wi_baselines : baselines_within c.(baselines);
  wi_added : c.(view).(crossEdgesAdded) ≤ added
}.

Lemma current_within b chain bb :
  baselines_within b → bb ∈ blocks →
  ∃ b', b' ∈ blocks ∧ b'.(block_Chain) = bb.(block_Chain) ∧
    b'.(OriginalHeight) = current b (baseline_key ul chain bb.(block_Chain)).
Proof.
  intros B Hb. unfold current. destruct (b.(values) !! _) as [v|] eqn:Hv.
  - destruct (bw_values _ B _ _ Hv) as (b' & H1 & H2 & H3). exists b'. split_and!; [done| |done].
    rewrite H2. cbn. by destruct (names_ok bb Hb).
  - destruct (bw_init _ B bb Hb) as (b0 & H1 & H2 & H3). exists b0. split_and!; [done|done|].
    cbn. destruct (names_ok bb Hb) as [-> _]. by rewrite H3.
Qed.

Lemma advanced_within b chain bb :
  baselines_within b → bb ∈ blocks →
  baselines_within (advanced ul b chain bb.(block_Chain) bb.(OriginalHeight)).
Proof.
  intros B Hb. destruct (current_within b chain bb B Hb) as (b' & H1 & H2 & H3). split.
  - intros key v. unfold advanced. cbn. intros [[<- <-]|[_ Hv]]%lookup_insert_Some; [|by apply (bw_values _ B)].
    cbn. destruct (names_ok bb Hb) as [-> _]. rewrite <-H3.
    destruct (Z.max_spec b'.(OriginalHeight) bb.(OriginalHeight)) as [[_ ->]|[_ ->]]; eauto.
  - apply B.
Qed.

Lemma estimate_bound b b' po use est :
  (∀ chain period, po !! chain = Some period → 0 < period) →
  estimate_from ul b'.(OriginalHeight) b.(block_Chain) b.(OriginalHeight) pr po use = Ok est →
  u64 est.(est_Cost) ∧
  est.(est_Cost) ≤ Z.abs (b.(OriginalHeight) - b'.(OriginalHeight))
    * Z.max pr.(DirectStepCost) pr.(PathStepCost).
Proof.
  intros Hpo HE. destruct profile_good as (Hd & Hp & Hu).
  apply estimate_from_Ok in HE as (_ & Hc & Hn & Hcost & Hbl); [|done|lia|lia]. split; [done|].
  rewrite Hcost. case_decide.
  - rewrite Z.abs_eq by lia. apply Z.mul_le_mono_nonneg; lia.
  - rewrite Z.abs_neq by lia. apply Z.mul_le_mono_nonneg; lia.
Qed.

Lemma ends_within c event n :
  within c n → event.(event_Source) ∈ blocks → event.(Destination) ∈ blocks →
  ∃ v, (if UsesTrustMap c.(setting) then activate_ends ul event
        else mret (Key event.(Destination), Key event.(event_Source))) c
       = (Ok (Key event.(Destination), Key event.(event_Source)), set_view c v) ∧
    nodes_within v ∧ view_wf v ∧ v.(view_profile) = pr ∧
    v.(crossEdgesAdded) = c.(view).(crossEdgesAdded) ∧
    (UsesTrustMap c.(setting) = true →
     Key event.(Destination) ∈ v.(nodes) ∧ Key event.(event_Source) ∈ v.(nodes)).
Proof.
  intros [C Hpr Hn B Ha] Hs Hd.
  assert (view_profile c.(view) = pr) as Hvp by (rewrite (co_profile _ _ C); done).
  destruct (UsesTrustMap c.(setting)).
  2: { exists c.(view). split_and!; try done; [by destruct c|apply C]. }
  rewrite activate_ends_eq.
  destruct (Activate_within _ _ (co_view _ _ C) Hvp Hn Hd) as (v1 & -> & N1 & X1 & P1 & W1 & E1).
  destruct (Activate_within _ _ W1 P1 N1 Hs) as (v2 & -> & N2 & X2 & P2 & W2 & E2).
  exists v2. split_and!; try done; [congruence|]. intros _. set_solver.
Qed.

Lemma dependency_within v event n :
  view_wf v → v.(view_profile) = pr → nodes_within v → v.(crossEdgesAdded) ≤ n → n < MaxUint64 →
  event.(event_Source) ∈ blocks → event.(Destination) ∈ blocks →
  ∃ e v', AddVerifiedDependency ul v event.(Destination) event.(event_Source) = (Ok e, v') ∧
    nodes_within v' ∧ v'.(crossEdgesAdded) ≤ n + 1.
Proof.
  intros W Hp Hn Ha Hlt Hs Hd.
  pose proof (AddVerifiedDependency_spec ul v event.(Destination) event.(event_Source) W) as D.
  destruct (AddVerifiedDependency _ _ _ _) as [r v'] eqn:HA. cbn in D.
  assert (∃ e, r = Ok e) as [e ->].
  { revert HA. unfold AddVerifiedDependency.
    destruct (Activate_within _ _ W Hp Hn Hd) as (v1 & -> & N1 & X1 & P1 & W1 & E1).
    destruct (Activate_within _ _ W1 P1 N1 Hs) as (v2 & -> & N2 & X2 & P2 & W2 & E2).
    destruct (Z.eqb_spec v2.(crossEdgesAdded) MaxUint64); [lia|]. intros [= <- _]. by eexists. }
  destruct (dp_edge _ _ _ _ _ _ D e eq_refl) as (_ & _ & Hx & HN). exists e, v'.
  split_and!; [done| |lia]. intros k. rewrite HN, !elem_of_union, !elem_of_singleton.
  intros [->|[->|Hk]]; [rewrite Key_within by done; eauto..|by apply Hn].
Qed.

Lemma Process_within c event n :
  within c n → event.(event_Source) ∈ blocks → event.(Destination) ∈ blocks → n < MaxUint64 →
  (UsesTrustMap c.(setting) = true → room) →
  ∃ d c', Process ul range scratch event c = (Ok d, c') ∧ within c' (n + 1) ∧
    c'.(setting) = c.(setting).
Proof.
  intros WI Hs Hd Hlt HR. pose proof WI as [C Hpr Hn B Ha].
  assert (event_canonical ul event) as HC by (split; by apply names_ok).
  destruct (ends_within c event n WI Hs Hd) as (v & HE & N1 & W1 & P1 & X1 & K1).
  destruct (current_within c.(baselines) event.(Destination).(block_Chain) event.(event_Source) B Hs)
    as (b' & Hb' & Hbc & Hbh).
  destruct (estimate_within (current c.(baselines) (baseline_key ul event.(Destination).(block_Chain)
      event.(event_Source).(block_Chain))) event.(event_Source) c.(policy) (UsesCheckpoint c.(setting))
      (co_policy _ _ C) Hs ltac:(by exists b')) as [est Hest].
  destruct (estimate_bound event.(event_Source) b' c.(policy) (UsesCheckpoint c.(setting)) est
    (co_policy _ _ C) ltac:(by rewrite Hbh)) as [Hu Hbound].
  destruct (dependency_within v event n W1 P1 N1 ltac:(lia) Hlt Hs Hd) as (e & v' & HD & N2 & X2).
  assert (∃ d c', Process ul range scratch event c = (Ok d, c')) as (d & c' & HP).
  { destruct (ends_step ul c event _ _ _ C HC HE) as (v1 & Hv1 & CV & _). rewrite <-Hv1 in CV.
    destruct (decide_within (set_baselines (set_view c v) (Get ul c.(baselines)
      event.(Destination).(block_Chain) event.(event_Source).(block_Chain)).2) event est b' event.(event_Source))
      as [r Hr]; [by destruct CV|done|done|by auto|done|done|done|done|done|].
    pose proof (planning_enabled _ _ _ _ _ _ _ _ _ Hr) as Hpe. cbn in Hpe.
    destruct (UsesTrustMap c.(setting)) eqn:HT; eexists _, _; unfold Process;
      (apply St_bind_Ok; exists c, c; split; [done|]); rewrite HT;
      (apply St_bind_Ok; eexists _, _; split; [exact HE|]);
      (apply St_bind_Ok; eexists est, _; split;
        [rewrite estimate_direct_eq; cbn; rewrite Hpr, Hest; done|]);
      (apply St_bind_Ok; eexists _, _; split; [done|]);
      (apply St_bind_Ok; eexists r, _; split; [unfold lift; by rewrite Hr|]);
      (apply St_bind_Ok; eexists _, _; split; [by apply (advance_eq ul event _ c.(baselines))|]);
      rewrite Hpe.
    - apply St_bind_Ok. eexists _, _. split; [unfold add_dependency, on_view; cbn; rewrite HD; done|].
      apply St_bind_Ok. by eexists _, _.
    - done. }
  exists d, c'. split; [done|].
  destruct (Process_stepped ul range scratch c event d c' C HC HP) as (v1 & v2 & est' & ST & _).
  pose proof (stepped_ok ul c event v1 v2 est' c' C HC ST) as C'. destruct ST as [S1 S2 S3 S4 ->].
  assert (nodes_within v2 ∧ v2.(crossEdgesAdded) ≤ n + 1) as [N3 X3].
  { destruct (UsesTrustMap c.(setting)).
    - rewrite HE in S1. injection S1 as Hv. assert (v1 = v) as -> by done.
      destruct S4 as [e' HD']. rewrite HD in HD'. by injection HD' as _ <-.
    - subst v2 v1. split; [done|lia]. }
  split; [|done]. split; cbn; try done. by apply advanced_within.
Qed.

End Planning.

Lemma init_lookup l :
  NoDup (map fst l) → (∀ chain h, (chain, h) ∈ l → canonicalChain ul chain = chain) →
  ∀ chain h, (chain, h) ∈ l → (NewReplayBaselines ul l).(initHeights) !! chain = Some h.
Proof.
  unfold NewReplayBaselines. cbn. induction l as [|[c0 h0] l IH] using rev_ind; [by intros _ _ ? ? ?%elem_of_nil|].
  rewrite map_app, foldl_snoc. cbn. intros (Hd & Hn & _)%NoDup_app Hcan chain h Hin.
  rewrite (Hcan c0 h0) by (apply elem_of_app; right; by left).
  apply elem_of_app in Hin as [Hin|[= -> ->]%list_elem_of_singleton]; [|by rewrite lookup_insert_eq].
  rewrite lookup_insert_ne.
  - apply IH; [done| |done]. intros c1 h1 H1. apply (Hcan c1 h1). apply elem_of_app. by left.
  - intros ->. apply (Hn chain); [|by left]. apply list_elem_of_fmap. by exists (chain, h).
Qed.

End Within.

(** ** The replay of a trace *)

Section Replay.
Context (ul : string → string) (sha256 : bytes → bytes).
Context (csv_read : bytes → list (option (list string))).
Context (time_Parse : string → string → option Z) (time_Format : Z → string).
Context (ParseFloat : string → option Z) (int64_outside : Z → Z).
(** The order in which each search ranges over its neighbours, and the scratch
    memory it is given. *)
Context (ranges : Z → nat → gmap ReplayBlockKey ReplayEdge → list (ReplayBlockKey * ReplayEdge)).
Context (scratches : Z → replaySearchScratch).
Hypothesis unicode_canonical : ∀ s,
  is_ascii s = false → TrimSpace s = s → canonicalChain ul (ul s) = ul s.
Hypothesis ranges_all : ∀ i n m, ranges i n m ≡ₚ map_to_list m.
Hypothesis scratches_good : ∀ i, scratch_ok (scratches i).

(** [Process] on the events, one after the other. *)
Fixpoint process_all (sequence : Z) (events : list ReplayEvent) (c : ReplayCoordinator)
    : res error (list ReplayDecision) * ReplayCoordinator :=
  match events with
  | [] => (Ok [], c)
  | event :: rest =>
      match Process ul (ranges sequence) (scratches sequence) event c with
      | (Err e, c) => (Err e, c)
      | (Ok d, c) =>
          match process_all (sequence + 1) rest c with
          | (Err e, c) => (Err e, c)
          | (Ok ds, c) => (Ok (d :: ds), c)
          end
      end
  end.

Lemma process_all_within pr blocks events : ∀ sequence c n,
  profile_ok pr →
  (∀ b, b ∈ blocks → canonicalChain ul b.(block_Chain) = b.(block_Chain) ∧ b.(block_Chain) ≠ "") →
  spans_fit pr blocks → within ul pr blocks c n →
  (∀ e, e ∈ events → e.(event_Source) ∈ blocks ∧ e.(Destination) ∈ blocks) →
  n + zlen events ≤ MaxUint64 → (UsesTrustMap c.(setting) = true → room pr blocks) →
  ∃ ds c', process_all sequence events c = (Ok ds, c') ∧ length ds = length events.
Proof.
  induction events as [|e events IH]; intros sequence c n Hpr Hn Hsp WI Hin Hlen HR; cbn [process_all].
  { by exists [], c. }
  destruct (Hin e ltac:(by left)) as [Hs Hd].
  assert (zlen (e :: events) = zlen events + 1) as Hz by (unfold zlen; cbn; lia).
  assert (0 ≤ zlen events) by (unfold zlen; lia).
  destruct (Process_within ul pr blocks Hpr Hn Hsp (ranges sequence) (scratches sequence)
    (ranges_all sequence) (scratches_good sequence) c e n WI Hs Hd ltac:(lia) HR) as (d & c1 & -> & WI1 & Hset).
  destruct (IH (sequence + 1) c1 (n + 1) Hpr Hn Hsp WI1) as (ds & c' & -> & Hds).
  - intros e' He'. apply Hin. by right.
  - lia.
  - by rewrite Hset.
  - exists (d :: ds), c'. split; [done|]. cbn. by f_equal.
Qed.

Abbreviation row_events := (row_events ul time_Parse ParseFloat int64_outside).

Lemma prepared_blocks data options columns rows order t b :
  prepared ul sha256 time_Format data options (row_events columns 1 rows) order t →
  b ∈ blocks_of t.(Events) →
  canonicalChain ul b.(block_Chain) = b.(block_Chain) ∧ b.(block_Chain) ≠ "" ∧
  ∃ b0, b0 ∈ blocks_of (kept options order) ∧ b0.(block_Chain) = b.(block_Chain) ∧
    b0.(OriginalHeight) = b.(OriginalHeight).
Proof.
  intros P (e & [i He]%list_elem_of_lookup & Hb)%blocks_of_elem.
  destruct (prepared_event _ _ _ _ _ _ _ _ _ _ _ _ _ _ P He) as (e0 & n & H0 & Hr & ->).
  apply list_elem_of_lookup_2 in H0.
  destruct (fr_source _ _ _ Hr) as [x Hx], (fr_destination _ _ _ Hr) as [y Hy], (fr_named _ _ _ Hr) as [N1 N2].
  destruct Hb as [-> | ->]; cbn.
  - split_and!; [rewrite Hx; by apply canonicalChain_twice|done|].
    exists e0.(event_Source). split; [|done]. apply blocks_of_elem. by eauto.
  - split_and!; [rewrite Hy; by apply canonicalChain_twice|done|].
    exists e0.(Destination). split; [|done]. apply blocks_of_elem. by eauto.
Qed.

Lemma prepared_length data options columns rows order t :
  prepared ul sha256 time_Format data options (row_events columns 1 rows) order t →
  zlen t.(Events) ≤ zlen rows.
Proof.
  intros P. rewrite (pr_events _ _ _ _ _ _ _ _ P). unfold zlen. rewrite length_imap.
  assert (length (kept options order) ≤ length order)%nat as H1.
  { unfold kept. destruct (_ =? 0); [done|]. rewrite length_take. lia. }
  assert (length order ≤ length rows)%nat; [|lia].
  rewrite (pr_admitted _ _ _ _ _ _ _ _ P). unfold admitted.
  etrans; [apply filter_length_le|]. rewrite <-(length_row_events ul time_Parse ParseFloat int64_outside columns rows 1).
  generalize (row_events columns 1 rows). intros l. induction l as [|[e|] l IH]; cbn; lia.
Qed.

(** The first heights are heights of the events. *)
Lemma prepared_first data options columns rows order t chain h :
  prepared ul sha256 time_Format data options (row_events columns 1 rows) order t →
  t.(InitHeights) !! chain = Some h →
  ∃ b, b ∈ blocks_of t.(Events) ∧ b.(block_Chain) = chain ∧ b.(OriginalHeight) = h.
Proof.
  intros P [(b & (e & [i He]%list_elem_of_lookup & Hb)%blocks_of_elem & <- & <-) _]%(pr_heights _ _ _ _ _ _ _ _ P).
  pose proof (list_lookup_imap (placed sha256 time_Format t.(trace_Digest) t.(InitHeights)) (kept options order) i) as HI.
  rewrite <-(pr_events _ _ _ _ _ _ _ _ P), He in HI. cbn in HI. apply list_elem_of_lookup_2 in HI.
  destruct Hb as [-> | ->].
  - eexists. split; [apply blocks_of_elem; eexists; split; [exact HI|by left]|done].
  - eexists. split; [apply blocks_of_elem; eexists; split; [exact HI|by right]|done].
Qed.

Lemma first_within data options columns rows order t setting pr policy c :
  prepared ul sha256 time_Format data options (row_events columns 1 rows) order t →
  profile_ok pr → (∀ chain period, policy !! chain = Some period → 0 < period) →
  NewReplayCoordinator ul setting (map_to_list t.(InitHeights)) pr policy = Ok c →
  within ul pr (blocks_of t.(Events)) c 0 ∧ c.(ReplayCoordinator.setting) = setting.
Proof.
  intros P Hpr Hpo HN. pose proof (new_coordinator_ok ul setting _ pr policy c Hpr Hpo HN) as C.
  unfold NewReplayCoordinator in HN. destruct (known_setting setting); [|done]. cbn in HN.
  apply bind_Ok in HN as (v & (u & _ & [= <-])%bind_Ok & [= <-]). split; [|done]. split; cbn; try done.
  split; cbn.
  - by intros key v; rewrite lookup_empty.
  - intros bb Hbb. destruct (prepared_blocks _ _ _ _ _ _ _ P Hbb) as (_ & _ & b0 & H0 & Hc0 & Hh0).
    assert (is_Some (t.(InitHeights) !! bb.(block_Chain))) as [h Hh].
    { pose proof (minimum_heights_minima (kept options order) bb.(block_Chain)) as HM.
      destruct (minimum_heights (kept options order) !! bb.(block_Chain)) as [h|] eqn:Hl.
      - exists h. apply (pr_heights _ _ _ _ _ _ _ _ P). by apply minimum_heights_spec.
      - by destruct (HM b0 H0). }
    destruct (prepared_first _ _ _ _ _ _ _ _ P Hh) as (b1 & H1 & Hc1 & Hh1).
    exists b1. split_and!; [done|done|].
    rewrite Hh1. apply (init_lookup ul (map_to_list t.(InitHeights))).
    + apply NoDup_fst_map_to_list.
    + intros chain h' Hin%elem_of_map_to_list.
      destruct (prepared_first _ _ _ _ _ _ _ _ P Hin) as (b2 & H2 & <- & _).
      by apply (prepared_blocks _ _ _ _ _ _ _ P H2).
    + by apply elem_of_map_to_list.
Qed.

(** C8. A prepared trace that the preflight accepts is replayed to its end, in every
    setting and with every checkpoint policy: no event fails.  In the settings with
    the trust map this needs the room for the sum of a direct cost and the weight
    of one edge, which the preflight does not look at. *)
Theorem validated_replay data header rows options t setting pr policy c :
  csv_read data = Some header :: rows → zlen rows < 2 ^ 64 - 1 → 0 ≤ options.(MaxEvents) →
  PrepareTrace ul sha256 csv_read time_Parse time_Format ParseFloat int64_outside (Some data) options = Ok t →
  profile_ok pr → (∀ chain period, policy !! chain = Some period → 0 < period) →
  ValidatePreparedTrace pr t = Ok tt →
  NewReplayCoordinator ul setting (map_to_list t.(InitHeights)) pr policy = Ok c →
  (UsesTrustMap setting = true → room pr (blocks_of t.(Events))) →
  ∃ ds c', process_all 0 t.(Events) c = (Ok ds, c') ∧ length ds = length t.(Events).
Proof.
  intros Hcsv Hrows Hmax HT Hpr Hpo HV HN HR.
  apply (PrepareTrace_iff _ _ _ _ _ _ _ _ _ _ _ _ Hcsv Hrows Hmax) in HT as (_ & _ & order & P).
  pose proof (prepared_length _ _ _ _ _ _ P) as Hlen.
  destruct (first_within _ _ _ _ _ _ _ _ _ _ P Hpr Hpo HN) as [WI Hset].
  apply (process_all_within pr (blocks_of t.(Events)) t.(Events) 0 c 0); try done.
  - intros b Hb. destruct (prepared_blocks _ _ _ _ _ _ _ P Hb) as (H1 & H2 & _). done.
  - by apply ValidatePreparedTrace_spans.
  - intros e He. split; apply blocks_of_elem; eauto.
  - unfold MaxUint64. lia.
  - by rewrite Hset.
Qed.

End Replay.

End ReplayPreflight.
