(* ===== verification/NodeScenario.v ===== *)
(** * A concrete federation of two nodes

    Node A serves chain 1, node B chain 2; both run the application of
    Operational.v with the toy hash of Prelude.v, against one simulated pair of
    chains.  Node A indexes the event of a request, observes its end points,
    plans it, submits a transaction, indexes the receipt of that transaction
    with the dependency it records, and confirms the submission; its outbox
    then holds the message about the dependency, which node B receives,
    validates against chain 1 and activates.  The run provides the witnesses of
    the properties of the node and of the application. *)

From Stdlib Require Import Strings.Byte.
From S2P Require Import Prelude Domain Evidence TrustView Registry Reorg Planner Coordinator.
From S2P Require Import ChainABI Receipt Indexer Envelope Submission Store GraphStore.
From S2P Require Import LiveStore System RemoteValidator Tables TransactionStore IndexerStore.
From S2P Require Import IndexerApply Mailbox ChainReader Node Wiring Operational OperationalRuns.
Import Domain Tables LiveStore Operational.

Module NodeScenario.

(** ** The chains *)

Definition word (n : Z) : bytes32 := be_vec 32 n.
Definition code_hash : Hash := Eval vm_compute in sample_hash [x01].

Definition catalog_of (home : bool) : list Store.LiveChain :=
  [Store.mkLiveChain "one" (word 1) "http://one" 2 "one.json" home;
   Store.mkLiveChain "two" (word 2) "http://two" 4 "two.json" (negb home)].

Definition http_url (s : string) : bool := true.
Definition catalog (home : bool) : Catalog :=
  default_ok (mkCatalog ∅ ∅ zero32) (NewRegistry http_url (catalog_of home)).

Definition manifest (chain : string) (block : Z) (gateway : string)
    : ChainReader.gatewayManifest :=
  ChainReader.mkManifest 1 "deployed" chain block 3 gateway None "0x".
Definition read_manifest (path : string)
    : res (ChainReader.error string) ChainReader.gatewayManifest :=
  if path =?= "one.json" then Ok (manifest "1" 48 "7") else Ok (manifest "2" 5 "9").
Definition is_hex (s : string) : bool := true.
Definition to_address (s : string) : Address := if s =?= "7" then be_vec 20 7 else be_vec 20 9.
Definition from_hex (s : string) : bytes := code_hash.
Definition peer_String (id : Envelope.PeerID) : string := String.string_of_list_byte id.
Definition peer_Decode (s : string) : option Envelope.PeerID := Some (bytes_of_string s).
Definition peer_A : Envelope.PeerID := bytes_of_string "peer A".

(** Chain 1 has the blocks of RemoteValidator.v, chain 2 a block 10. *)
Definition receipt : Receipt.EthReceipt := Eval vm_compute in RemoteValidator.sample_receipt.
Definition request_log : ChainABI.Log := Eval vm_compute in RemoteValidator.sample_request_log.
Definition new_root : Hash := Eval vm_compute in
  ChainABI.tu_NewTrustRoot (RemoteValidator.sample_update 1).
Definition logs : list ChainABI.Log := Eval vm_compute in
  request_log :: filter (λ l, Indexer.supportedTopic (ChainABI.topic l 0))
                   (omap id receipt.(Receipt.Logs)).

Definition header (first : bool) (number : Z) : Indexer.Header :=
  if first then RemoteValidator.sample_header number
  else Indexer.mkHeader (Some number) (word (number + 89)) (word (number + 88)).
Definition root_at (first : bool) (hash : Hash) : Hash :=
  if negb first then word 222 else if hash =?= word 88 then new_root else word 333.

(** The state of the world is the head of chain 1; a client is the chain it
    talks to. *)
Definition head (first : bool) (s : Z) : Z := if first then s else 14.

Definition reader (first : bool) : ChainReader.TrustRootRPC Z string := {|
  ChainReader.reader_HeaderByNumber number s :=
    (Ok (Some (header first (default (head first s) number))), s);
  ChainReader.reader_ChainID s := (Ok (Some (if first then 1 else 2)), s);
  ChainReader.reader_CodeAtHash _ _ s := (Ok [x01], s);
  ChainReader.reader_CallContractAtHash _ _ hash s :=
    (Ok (vec_to_list (root_at first hash)), s);
  ChainReader.reader_Now s := (5, s)
|}.
Definition home_rpc (first : bool) : Indexer.EventRPC Z string := {|
  Indexer.rpc_BlockNumber s := (Ok (head first s), s);
  Indexer.rpc_ChainID s := (Ok (Some (if first then 1 else 2)), s);
  Indexer.rpc_HeaderByNumber n s := (Ok (Some (header first n)), s);
  Indexer.rpc_CodeAtHash _ _ s := (Ok [x01], s);
  Indexer.rpc_FilterLogs from to _ s :=
    (Ok (filter (λ l, from ≤ l.(ChainABI.log_BlockNumber) ≤ to) logs), s);
  Indexer.rpc_TransactionReceipt _ s := (Ok (Some receipt), s);
  Indexer.time_Now s := (Some 5, s)
|}.
Definition remote_rpc (first : bool) : RemoteValidator.RemoteDependencyRPC Z string := {|
  RemoteValidator.remote_ChainID s := (Ok (Some (if first then 1 else 2)), s);
  RemoteValidator.remote_BlockNumber s := (Ok (head first s), s);
  RemoteValidator.remote_HeaderByNumber n s := (Ok (Some (header first n)), s);
  RemoteValidator.remote_CodeAtHash _ _ s := (Ok [x01], s);
  RemoteValidator.remote_TransactionReceipt _ s := (Ok (Some receipt), s);
  RemoteValidator.remote_FilterLogs _ _ _ _ s := (Ok [request_log], s)
|}.
#[export] Instance env : Environment Z bool string := {
  dial url s := (Ok (url =?= "http://one"), s);
  reader_of := reader;
  remote_of := remote_rpc;
  home_of := home_rpc;
  clock s := (7, s)
}.

Abbreviation hash := sample_hash.
Abbreviation ids := Envelope.sample_ids.

(** What [Open] writes: the catalogue, the home Gateway, the indexer. *)
Definition open_node (first : bool) (chain gateway block : Z) : res Tables.error Database :=
  let deployment := mkDeployment (word chain) (be_vec 20 gateway) code_hash in
  c ← map_err ErrStore (Sync (catalog first) Store.empty_db);
  c ← map_err ErrStore (BindDeployment 3 deployment (word block) c);
  IndexerStore.Configure
    (mkIndexerConfig (word chain) (be_vec 20 gateway) code_hash (word block) 3 30713)
    (set_core empty_database c).

(** ** Node A *)

Abbreviation open_A := (open_node true 1 7 48).

Definition app (first : bool) (s : Z) (db : Database) : App Z bool :=
  mkApp db true true false false false true
    {[ word (if first then 1 else 2) :=
         mkBinding (Some first) None (mkDeployment zero32 zero_address zero32) zero32 ]} s.

Definition config : Indexer.ConfirmedEventIndexerConfig :=
  Indexer.mkConfig (word 1) (be_vec 20 7) code_hash (word 48) 2 10 3 30713.

Abbreviation index_A s db :=
  (StepConfirmedIndexer hash hash ids peer_String (ENV := env) http_url read_manifest is_hex
    to_address from_hex (catalog true) (Some peer_A) true true (λ _, "error"%string) config false
    (app true s db)).

Definition db0 : Database := default_ok empty_database open_A.
Definition db1 : Database := (index_A 51 db0).1.2.(database).

Definition request : Coordinator.Request :=
  default_ok Store.sample_request (Store.LoadRequest db1.(core) RemoteValidator.sample_request_id).

(** It observes the end points of the request, seals a snapshot of the graph
    and processes the request. *)
Abbreviation observing :=
  (ObserveRequestEndpoints hash (ENV := env) http_url read_manifest is_hex to_address from_hex
     (catalog true) true).
Abbreviation observe_A := (observing request (app true 51 db1)).

(** The database a transaction leaves. *)
Definition left_by {A} (db : Database) (r : res Tables.error (A * Database)) : Database :=
  match r with Ok (_, db') => db' | Err _ => db end.

Definition no_node : TrustView.TrustNode :=
  TrustView.mkTrustNode zero32 (TrustView.mkNodeKey zero32 zero32 zero32) zero32 zero32.
Definition endpoints : TrustView.TrustNode * TrustView.TrustNode :=
  default_ok (no_node, no_node) observe_A.1.1.
Definition db2 : Database := observe_A.1.2.(database).

Abbreviation seal_A :=
  (TransactionStore.CreateSnapshot hash request 0 endpoints.1 endpoints.2 db2).

Definition db3 : Database := left_by db2 seal_A.
Definition snapshot_id (r : res Tables.error (TrustView.TrustViewSnapshot * Database)) : Hash :=
  match r with Ok (s, _) => s.(TrustView.snap_ID) | Err _ => zero32 end.
Definition snapshotID : TrustView.SnapshotID := snapshot_id seal_A.

Definition profile : Registry.ValidatedDirectProfile :=
  Registry.mkValidatedProfile "profile" (word 4) 5000 true.
Definition profiles (id : ChainID) : option Registry.ValidatedDirectProfile :=
  if id =?= word 1 then Some profile else None.

Definition work : Coordinator.Work :=
  Coordinator.mkWork request 0 snapshotID endpoints.1.(TrustView.node_Root).
Abbreviation processing := (Process hash (ENV := env) 3 profiles true).
Abbreviation process_A := (processing work (app true 51 db3)).
Definition db4 : Database := process_A.1.2.(database).

Definition no_plan : Planner.Plan :=
  Planner.mkPlan zero32 zero32 0 zero32 "" zero32 "" zero32 zero32 [] 0 None None "" None.
Definition plan : Planner.Plan :=
  default no_plan
    (default_ok (Coordinator.mkResult request None None) process_A.1.1).(Coordinator.result_Plan).

(** It submits a transaction, whose bytes have the hash the receipt names,
    indexes that receipt, and confirms the submission. *)
Definition raw : bytes := be_bytes 8 68.
Definition prepared : TransactionStore.Submission :=
  let s id := Submission.mkSubmission id request.(Coordinator.req_ID) 0 plan.(Planner.plan_ID)
    plan.(Planner.plan_Type) snapshotID None (word 1) (be_vec 20 7) (be_vec 20 5) 0 (word 9) raw
    (word 77) (Some 20) (Some 2) 100000 Submission.Prepared "" (Some 8) (Some 8) None in
  s (Submission.ComputeSubmissionID hash (s zero32)).
Definition db5 : Database := (TransactionStore.SavePrepared hash 8 prepared db4).2.
Abbreviation submit_A :=
  (TransactionStore.Transition 9 prepared.(Submission.sub_ID) Submission.Prepared
     Submission.Submitted "" (Some 9) db5).
Definition db6 : Database := left_by db5 submit_A.
Definition db7 : Database := (index_A 52 db6).1.2.(database).
Definition confirmed : Submission.ConfirmedTransactionReceipt :=
  Submission.mkConfirmed prepared.(Submission.sub_ID) request.(Coordinator.req_ID) (word 77) 50
    (word 88) 1 3 (Some 10).
Abbreviation confirm_A := (TransactionStore.Confirm 10 confirmed db7).
Definition db8 : Database := default_ok db7 confirm_A.

(** ** Node B *)

Abbreviation open_B := (open_node false 2 9 5).
Definition dbB0 : Database := default_ok empty_database open_B.

Definition message : Envelope.DependencyEvidenceEnvelope :=
  hd Envelope.sample_envelope (default_ok [] (Mailbox.PendingEnvelopes hash ids 64 100 db8.(mail))).
Abbreviation receive_B := (Mailbox.Receive hash hash ids peer_String 6 message peer_A dbB0).
Definition dbB1 : Database := left_by dbB0 receive_B.
Abbreviation evidence_B :=
  (StepRemoteDependencyEvidence hash hash ids peer_Decode (ENV := env) http_url read_manifest is_hex
    to_address from_hex (catalog false) true (λ _, "error"%string) (λ _, "invalid"%string)
    (app false 52 dbB1)).
Definition dbB2 : Database := evidence_B.1.2.(database).

(** ** What the run computes *)

Definition foreign (ev : Indexer.event) : bool :=
  match ev with
  | Indexer.Applied b =>
      forallb (λ m, m.(Indexer.mat_To).(TrustView.node_Key).(TrustView.key_ChainID)
                      ≠?= b.(Indexer.cb_ChainID)) b.(Indexer.Dependencies)
  | _ => true
  end.

Definition joins (ev : app_event) : bool :=
  match ev with
  | Activated _ v _ _ =>
      v.(RemoteValidator.SourceObservation).(RemoteValidator.vo_ChainID)
        ≠?= v.(RemoteValidator.HomeObservation).(RemoteValidator.vo_ChainID)
  end.

Lemma opened_A : is_ok open_A = true.
Proof. vm_compute. reflexivity. Qed.

Lemma indexed_A : forallb foreign (index_A 51 db0).2 && is_ok (index_A 51 db0).1.1 = true.
Proof. vm_compute. reflexivity. Qed.

Lemma observed_A : is_ok observe_A.1.1 = true.
Proof. vm_compute. reflexivity. Qed.

Lemma sealed_A : is_ok seal_A = true.
Proof. vm_compute. reflexivity. Qed.

Lemma submitted_A : is_ok submit_A = true.
Proof. vm_compute. reflexivity. Qed.

Lemma resolved_A : forallb foreign (index_A 52 db6).2 = true.
Proof. vm_compute. reflexivity. Qed.

Lemma confirmed_A : is_ok confirm_A = true.
Proof. vm_compute. reflexivity. Qed.

Lemma opened_B : is_ok open_B = true.
Proof. vm_compute. reflexivity. Qed.

Lemma received_B : is_ok receive_B = true.
Proof. vm_compute. reflexivity. Qed.

Lemma message_in_range : Envelope.in_range message.
Proof. vm_compute. repeat split; intros H; discriminate H. Qed.

Lemma activated_B :
  forallb joins evidence_B.2 && (zlen evidence_B.2 =? 1) && is_ok evidence_B.1.1 = true.
Proof. vm_compute. reflexivity. Qed.

(** ** Every database of the run is reachable *)

Abbreviation reachable := (Node.node_reachable hash hash ids peer_String peer_Decode).
Abbreviation steps := (rtc (Node.node_step hash hash ids peer_String peer_Decode)).

Lemma left_by_Ok {A} db (r : res Tables.error (A * Database)) :
  is_ok r = true → ∃ a, r = Ok (a, left_by db r).
Proof. destruct r as [[a db']|]; [by exists a|done]. Qed.

Lemma foreign_log log b :
  forallb foreign log = true → Indexer.Applied b ∈ log → IndexerApply.foreign_sources b.
Proof.
  rewrite forallb_forall. intros H Hb%list_elem_of_In m Hm%list_elem_of_In.
  pose proof (proj1 (forallb_forall _ _) (H _ Hb) m Hm) as Hn. cbn beta in Hn.
  by apply negb_true_iff, bool_decide_eq_false in Hn.
Qed.

Lemma joined_log log : forallb joins log = true → Forall OperationalRuns.two_chains log.
Proof.
  rewrite forallb_forall. intros H. apply Forall_forall.
  intros [item v config answers] Hin%list_elem_of_In.
  pose proof (H _ Hin) as Hn. cbn in Hn |- *. by apply negb_true_iff, bool_decide_eq_false in Hn.
Qed.

(** Opening a node. *)
Lemma opening first chain gateway block :
  is_ok (open_node first chain gateway block) = true →
  is_ok (NewRegistry http_url (catalog_of first)) = true →
  reachable (default_ok empty_database (open_node first chain gateway block)).
Proof.
  intros H%(default_ok_eq empty_database) Hn. revert H.
  generalize (default_ok empty_database (open_node first chain gateway block)) as db.
  intros db (c & H1%map_err_Ok & (c' & H2%map_err_Ok & H3)%bind_Ok)%bind_Ok.
  eapply (rtc_l _ _ (set_core empty_database c)).
  { eapply Node.node_core; [|done]. eapply System.step_sync; [|exact H1].
    apply (default_ok_eq (mkCatalog ∅ ∅ zero32)), Hn. }
  eapply (rtc_l _ _ (set_core empty_database c')).
  { eapply Node.node_core; [eapply System.step_bind; exact H2|reflexivity]. }
  apply rtc_once. eapply Node.node_configure. exact H3.
Qed.

Lemma db0_reachable : reachable db0.
Proof. apply (opening true 1 7 48); [exact opened_A|vm_compute; reflexivity]. Qed.

Lemma index_steps s db :
  forallb foreign (index_A s db).2 = true → steps db (index_A s db).1.2.(database).
Proof.
  intros H. exact (OperationalRuns.index_step_moves hash hash ids peer_String peer_Decode http_url
    read_manifest is_hex to_address from_hex (catalog true) (Some peer_A) true true
    (λ _, "error"%string) config false (app true s db) (λ b, foreign_log _ b H)).
Qed.

(** What a method of the application leads to. *)
Lemma method_steps {F A} (m : M (App Z bool) app_event F A) a :
  keeps (OperationalRuns.moves hash hash ids peer_String peer_Decode) (λ _, True) m →
  steps a.(database) (m a).1.2.(database).
Proof. intros Hm. apply Hm, Forall_forall. by intros. Qed.

Lemma observe_steps db q : steps db (observing q (app true 51 db)).1.2.(database).
Proof. apply (method_steps (observing q) (app true 51 db)), OperationalRuns.endpoints_moving. Qed.

Lemma process_steps db q : steps db (processing q (app true 51 db)).1.2.(database).
Proof. apply (method_steps (processing q) (app true 51 db)), OperationalRuns.process_moving. Qed.

Lemma seal_step q attempt home target db s db' :
  0 ≤ attempt → TransactionStore.CreateSnapshot hash q attempt home target db = Ok (s, db') →
  Node.node_step hash hash ids peer_String peer_Decode db db'.
Proof.
  intros Ha ([s' c] & Hc%map_err_Ok & [= _ <-])%bind_Ok.
  eapply Node.node_core; [eapply System.step_snapshot; [|exact Hc]; exact Ha|done].
Qed.

Lemma submitted_not_confirmed : Submission.Submitted ≠ Submission.Confirmed.
Proof. discriminate. Qed.

Lemma db0_db1 : steps db0 db1.
Proof. apply index_steps, (proj1 (andb_prop _ _ indexed_A)). Qed.

Lemma db1_db2 : steps db1 db2.
Proof. exact (observe_steps db1 request). Qed.

Lemma db2_db3 : steps db2 db3.
Proof.
  apply rtc_once. destruct (left_by_Ok db2 _ sealed_A) as [s H].
  eapply seal_step; [|exact H]. discriminate.
Qed.

Lemma db3_db4 : steps db3 db4.
Proof. exact (process_steps db3 work). Qed.

Lemma db4_db5 : steps db4 db5.
Proof.
  apply rtc_once. exact (Node.node_prepare _ _ _ _ _ db4 db5 8 prepared _ (surjective_pairing _)).
Qed.

Lemma db5_db6 : steps db5 db6.
Proof.
  apply rtc_once. destruct (left_by_Ok db5 _ submitted_A) as [[s b] H].
  exact (Node.node_transition _ _ _ _ _ db5 db6 9 _ _ _ _ (Some 9) s b submitted_not_confirmed H).
Qed.

Lemma db6_db7 : steps db6 db7.
Proof. exact (index_steps 52 db6 resolved_A). Qed.

Lemma db7_db8 : steps db7 db8.
Proof.
  apply rtc_once. pose proof (default_ok_eq db7 _ confirmed_A) as H.
  exact (Node.node_confirm _ _ _ _ _ db7 db8 10 confirmed H).
Qed.

Lemma db4_db8 : steps db4 db8.
Proof.
  etrans; [exact db4_db5|]. etrans; [exact db5_db6|]. etrans; [exact db6_db7|exact db7_db8].
Qed.

Lemma db0_db4 : steps db0 db4.
Proof.
  etrans; [exact db0_db1|]. etrans; [exact db1_db2|]. etrans; [exact db2_db3|exact db3_db4].
Qed.

Lemma reachable_steps db db' : reachable db → steps db db' → reachable db'.
Proof. intros H H'. unfold Node.node_reachable. by etrans. Qed.

Lemma db1_reachable : reachable db1.
Proof. exact (reachable_steps _ _ db0_reachable db0_db1). Qed.

Lemma db4_reachable : reachable db4.
Proof. exact (reachable_steps _ _ db0_reachable db0_db4). Qed.

Lemma db8_reachable : reachable db8.
Proof. exact (reachable_steps _ _ db4_reachable db4_db8). Qed.

Lemma dbB0_reachable : reachable dbB0.
Proof. apply (opening false 2 9 5); [exact opened_B|vm_compute; reflexivity]. Qed.

Lemma dbB1_reachable : reachable dbB1.
Proof.
  apply (reachable_steps dbB0); [exact dbB0_reachable|apply rtc_once].
  destruct (left_by_Ok dbB0 _ received_B) as [[r b] H].
  exact (Node.node_receive _ _ _ _ _ dbB0 dbB1 6 message peer_A r b message_in_range H).
Qed.

Lemma depth_sane path m : read_manifest path = Ok m → 0 ≤ m.(ChainReader.man_MerkleDepth).
Proof. unfold read_manifest. case_bool_decide; intros [= <-]; cbn; discriminate. Qed.

Lemma activated_parts :
  Forall OperationalRuns.two_chains evidence_B.2 ∧ is_ok evidence_B.1.1 = true.
Proof.
  pose proof activated_B as H. apply andb_prop in H as [H Hok]. apply andb_prop in H as [H _].
  exact (conj (joined_log _ H) Hok).
Qed.

Lemma evidence_run :
  steps dbB1 dbB2.
Proof.
  pose proof (OperationalRuns.evidence_step_run hash hash ids peer_String peer_Decode http_url
    read_manifest is_hex to_address from_hex (catalog false) true (λ _, "error"%string)
    (λ _, "invalid"%string) (app false 52 dbB1) evidence_B.1.1 evidence_B.1.2 evidence_B.2
    sample_hash_nonzero depth_sane) as H.
  destruct H as (_ & _ & H); [by destruct evidence_B as [[? ?] ?]|].
  exact (proj1 (H (proj1 activated_parts))).
Qed.

Lemma dbB2_reachable : reachable dbB2.
Proof. exact (reachable_steps _ _ dbB1_reachable evidence_run). Qed.

Lemma split_run {A B C} (x : A * B * C) : x = (x.1.1, x.1.2, x.2).
Proof. by destruct x as [[]]. Qed.

Lemma run_split {A B C} (x : A * B * C) a : x.1.1 = a → x = (a, x.1.2, x.2).
Proof. intros <-. apply split_run. Qed.

Lemma db3_reachable : reachable db3.
Proof.
  apply (reachable_steps db1); [exact db1_reachable|]. etrans; [exact db1_db2|exact db2_db3].
Qed.

(** ** Witnesses *)

Lemma some_row {A} (o : option A) :
  match o with Some _ => true | None => false end = true → ∃ a, o = Some a.
Proof. destruct o as [a|]; [by exists a|done]. Qed.

Lemma submission_found db id chain tx q :
  match db.(txs).(transaction_submissions) !! id with
  | Some s => (s.(Submission.sub_State) =?= Submission.Confirmed)
              && (s.(Submission.sub_HomeChainID) =?= chain) && (s.(Submission.sub_TxHash) =?= tx)
              && (s.(Submission.sub_RequestID) =?= q)
  | None => false
  end = true →
  ∃ s, db.(txs).(transaction_submissions) !! id = Some s ∧
    s.(Submission.sub_State) = Submission.Confirmed ∧ s.(Submission.sub_HomeChainID) = chain ∧
    s.(Submission.sub_TxHash) = tx ∧ s.(Submission.sub_RequestID) = q.
Proof.
  destruct (transaction_submissions (txs db) !! id) as [s|]; [|done].
  intros H. exists s. bool_to_prop. by split_and!.
Qed.

Lemma confirmed_backed_witness :
  ∃ receipt, db8.(index).(verification_receipts) !! (word 1, word 77) = Some receipt ∧
    receipt.(vr_RequestID) = request.(Coordinator.req_ID).
Proof.
  assert (∃ s, db8.(txs).(transaction_submissions) !! prepared.(Submission.sub_ID) = Some s ∧
    s.(Submission.sub_State) = Submission.Confirmed ∧ s.(Submission.sub_HomeChainID) = word 1 ∧
    s.(Submission.sub_TxHash) = word 77 ∧
    s.(Submission.sub_RequestID) = request.(Coordinator.req_ID)) as (s & Hs & Hc & H1 & H2 & H3).
  { apply (submission_found db8). vm_compute. reflexivity. }
  destruct (Node.confirmed_backed hash hash ids peer_String peer_Decode db8
    prepared.(Submission.sub_ID) s sample_hash_nonzero db8_reachable Hs Hc)
    as [(row & receipt & resolution & p & _ & Hr & Hq & _) _].
  exists receipt. rewrite <-H1, <-H2, <-H3. exact (conj Hr Hq).
Defined.


Lemma node_never_forgets_witness : Node.node_kept db4 db8.
Proof.
  exact (Node.node_never_forgets hash hash ids peer_String peer_Decode db4 db8 sample_hash_nonzero
    db4_reachable db4_db8).
Defined.

Lemma mailboxes_explained_witness :
  ∃ row, dbB2.(mail).(evidence_inbox) !! message.(Envelope.MessageID) = Some row ∧
    Mailbox.received hash hash ids peer_String dbB2.(core) message.(Envelope.MessageID) row.
Proof.
  assert (∃ row, dbB2.(mail).(evidence_inbox) !! message.(Envelope.MessageID) = Some row)
    as [row Hrow] by (apply some_row; vm_compute; reflexivity).
  exists row. split; [exact Hrow|].
  exact (proj1 (Node.mailboxes_explained hash hash ids peer_String peer_Decode dbB2
    sample_hash_nonzero dbB2_reachable) _ _ Hrow).
Defined.


Lemma app_reachable s db : reachable db → reachable (app true s db).(database).
Proof. by intros. Qed.


(** Node A configured with the code of another Gateway. *)
Definition wrong_config : Indexer.ConfirmedEventIndexerConfig :=
  Indexer.mkConfig (word 1) (be_vec 20 7) (word 13) (word 48) 2 10 3 30713.

Abbreviation misled :=
  (StepConfirmedIndexer hash hash ids peer_String (ENV := env) http_url read_manifest is_hex
     to_address from_hex (catalog true) (Some peer_A) true true (λ _, "error"%string)
     wrong_config false (app true 51 db0)).

Lemma misled_steps : forallb foreign misled.2 = true → steps db0 misled.1.2.(database).
Proof.
  intros H. exact (OperationalRuns.index_step_moves hash hash ids peer_String peer_Decode http_url
    read_manifest is_hex to_address from_hex (catalog true) (Some peer_A) true true
    (λ _, "error"%string) wrong_config false (app true 51 db0) (λ b, foreign_log _ b H)).
Qed.

Lemma misled_fails :
  match misled.1.1 with
  | Err (_, Indexer.ErrDeterministicIndexing _ None) => forallb foreign misled.2
  | _ => false
  end = true.
Proof. vm_compute. reflexivity. Qed.

Lemma deterministic_failure_is_durable_witness :
  is_ok (indexerWorkerGate (E := string) true (app true 60 misled.1.2.(database))) = false.
Proof.
  pose proof misled_fails as H.
  destruct misled.1.1 as [r|[result [| |cause persist|]]] eqn:He; try discriminate H.
  destruct persist; [discriminate H|].
  assert (reachable misled.1.2.(database)) as Hr.
  { apply (reachable_steps db0); [exact db0_reachable|]. exact (misled_steps H). }
  exact (proj2 (OperationalRuns.deterministic_failure_is_durable hash hash ids peer_String
    peer_Decode http_url read_manifest is_hex to_address from_hex (catalog true) (Some peer_A) true true
    (λ _, "error"%string) wrong_config false (app true 51 db0) result cause misled.1.2 misled.2
    sample_hash_nonzero Hr (run_split _ _ He)) misled.1.2.(database) (rtc_refl _ _)
    (app true 60 misled.1.2.(database)) eq_refl).
Defined.

(** Node A before it is ready. *)
Definition closed : App Z bool :=
  mkApp db3 false true false false false true (app true 51 db3).(observers) 51.

Lemma gate_fails_closed_witness :
  processing work closed = (Err ErrOperationalUnavailable, closed, []) ∧
  (run (observing request) closed).2.(database) = db3.
Proof.
  destruct (OperationalRuns.gate_fails_closed hash hash ids peer_String http_url read_manifest
    is_hex to_address from_hex (catalog true) 3 profiles (Some peer_A) true closed
    ErrOperationalUnavailable eq_refl) as (_ & Hp & _ & _ & He).
  exact (conj (Hp work) (He request)).
Defined.


End NodeScenario.
