(* ===== verification/ExecutorScenario.v ===== *)
(** * The request worker of node A

    The executor of Executor.v on the federation of NodeScenario.v, with a toy
    serialisation of transactions: the worker takes the observed request of
    chain 1, plans it, signs and sends its transaction; restarted on the database
    of the plan at a later head, it fails.  The runs are the witnesses of
    ExecutorRuns.v. *)

From Stdlib Require Import Strings.Byte.
From S2P Require Import Prelude Domain Evidence TrustView Registry Reorg Planner Coordinator.
From S2P Require Import ChainABI Receipt Indexer Envelope Submission Store GraphStore PlanStore.
From S2P Require Import LiveStore System RemoteValidator Tables TransactionStore IndexerStore.
From S2P Require Import IndexerApply Mailbox ChainReader Node Wiring Operational OperationalRuns.
From S2P Require Import Executor ExecutorRuns NodeScenario.
Import Domain Tables LiveStore Operational Executor NodeScenario.

Module ExecutorScenario.

(** ** The clients of chain 1 *)

Definition pack (arguments : list ChainABI.argument) : bytes :=
  mjoin (map (λ a, match a with
                   | ChainABI.ABytes32 v => vec_to_list v
                   | ChainABI.AUint256 z => be_bytes 32 z
                   | ChainABI.ABytes b => b
                   | ChainABI.ABytesArray l => mjoin l
                   | ChainABI.ABytes32Array l => mjoin (map vec_to_list l)
                   | ChainABI.AWitnessArray l => be_bytes 8 (zlen l)
                   end) arguments).

(** The Gateway says its root at a block, and no to its other questions. *)
Definition call_at (data : bytes) (block : Hash) : bytes :=
  if data =?= ChainABI.EncodeCurrentTrustRootCall then vec_to_list (root_at true block)
  else be_bytes 32 0.

#[export] Instance guard_rpc : HomeRootRPC Z string := {
  guard_HeaderByNumber number s := (Ok (Some (header true (default (head true s) number))), s);
  guard_CallContractAtHash _ data block s := (Ok (call_at data block), s)
}.

#[export] Instance caller : ContractCaller Z string := {
  CallContract _ _ s := (Ok (be_bytes 32 5), s)
}.

#[export] Instance submission_rpc : SubmissionRPC Z string DynamicFeeTx := {
  PendingNonceAt _ s := (Ok 0, s);
  SuggestGasTipCap s := (Ok (Some 2), s);
  exec_HeaderByNumber number s :=
    (Ok (Some (mkFeeHeader (header true (default (head true s) number)) (Some 9))), s);
  EstimateGas _ _ _ s := (Ok 100000, s);
  SendTransaction _ s := (Ok tt, s);
  TransactionByHash _ s := (Err "not found", s);
  exec_TransactionReceipt _ s := (Err "not found", s);
  RequestResolvedAtHash _ _ _ s := (Ok false, s);
  is_not_found e := e =?= "not found";
  exec_Now s := (8, s)
}.

Definition Sign_tx (tx : DynamicFeeTx) : res (app_error string) DynamicFeeTx := Ok tx.
Definition bytes_of_tx (tx : DynamicFeeTx) : bytes := be_bytes 8 tx.(tx_Nonce) ++ tx.(tx_Data).
Definition Marshal (tx : DynamicFeeTx) : res (app_error string) bytes := Ok (bytes_of_tx tx).
Definition Unmarshal (raw : bytes) : option DynamicFeeTx := None.
Definition hash_tx (tx : DynamicFeeTx) : Hash := sample_hash (bytes_of_tx tx).
Definition Sign (digest : Hash) (key : unit) : res (app_error string) bytes := Ok (be_bytes 65 3).
Definition Recovered (digest : Hash) (signature : bytes) : option Address := Some (be_vec 20 6).

Abbreviation worker_step :=
  (Step (ENV := env) (HRPC := guard_rpc) (CALL := caller) (SRPC := submission_rpc) hash pack
     http_url read_manifest is_hex to_address from_hex (catalog true) 3 profiles true Sign_tx Marshal
     Unmarshal hash_tx Sign Recovered (word 1) (be_vec 20 7) (be_vec 20 4) (be_vec 20 5) 3
     [mkSigner (be_vec 20 6) tt] 1).

Abbreviation step_A := (worker_step (app true 51 db1)).

Definition sent (log : list (event DynamicFeeTx)) : list DynamicFeeTx :=
  omap (λ ev, match ev with Sent tx => Some tx | _ => None end) log.

(** The coordinator's error of a step. *)
Definition binding_error (r : res (error (app_error string)) bool) : bool :=
  match r with Err (ErrFrom (ErrProcess Coordinator.ErrPlanBinding)) => true | _ => false end.

(** ** What the runs compute *)

Lemma step_A_sends : is_ok step_A.1.1 && (zlen (sent step_A.2) =? 1) = true.
Proof. vm_compute. reflexivity. Qed.

(** The plan of [db4] was made at block 51: a worker that starts again at that
    head goes on, one that starts at the next head fails. *)
Example resumed_at_the_same_head : is_ok (worker_step (app true 51 db4)).1.1 = true.
Proof. vm_compute. reflexivity. Qed.

Example resumed_at_the_next_head : binding_error (worker_step (app true 52 db4)).1.1 = true.
Proof. vm_compute. reflexivity. Qed.

(** ** Witnesses *)

Lemma one_sent log :
  (zlen (sent log) =? 1) = true → ∃ tx, (Sent tx : event DynamicFeeTx) ∈ log.
Proof.
  intros H%Z.eqb_eq. destruct (sent log) as [|tx l] eqn:E; [discriminate H|]. exists tx.
  assert (tx ∈ sent log) as Hin by (rewrite E; left).
  apply list_elem_of_omap in Hin as ([root|p|tx'] & Hin & Hx); try discriminate Hx.
  by injection Hx as ->.
Qed.

Lemma Step_broadcasts_stored_witness :
  steps (app true 51 db1).(database) step_A.1.2.(database) ∧
  ∃ id row, step_A.1.2.(database).(txs).(transaction_submissions) !! id = Some row.
Proof.
  destruct (ExecutorRuns.Step_broadcasts_stored hash hash ids peer_String peer_Decode pack
    http_url read_manifest is_hex to_address from_hex (catalog true) 3 profiles true Sign_tx Marshal
    Unmarshal hash_tx Sign Recovered (word 1) (be_vec 20 7) (be_vec 20 4) (be_vec 20 5) 3
    [mkSigner (be_vec 20 6) tt] 1 sample_hash_nonzero (app true 51 db1) step_A.1.1 step_A.1.2
    step_A.2 (app_reachable 51 _ db1_reachable) (split_run _)) as (H & Hs & _).
  destruct (one_sent step_A.2 (proj2 (andb_prop _ _ step_A_sends))) as [tx Hin].
  destruct (Hs tx Hin) as (id & row & Hrow & _). split; [exact H|]. exists id, row. exact Hrow.
Defined.

(** The worker at the next head: what it reads, observes and seals. *)
Definition request_4 : Coordinator.Request :=
  default_ok request (Store.LoadRequest db4.(core) request.(Coordinator.req_ID)).
Abbreviation observe_4 := (observing request_4 (app true 52 db4)).
Definition endpoints_4 : TrustView.TrustNode * TrustView.TrustNode :=
  default_ok (no_node, no_node) observe_4.1.1.
Definition db4' : Database := observe_4.1.2.(database).
Abbreviation seal_4 :=
  (TransactionStore.CreateSnapshot hash request_4 0 endpoints_4.1 endpoints_4.2 db4').
Definition late : App Z bool := app true 52 (left_by db4' seal_4).
Definition work_4 : Coordinator.Work :=
  Coordinator.mkWork request_4 0 (snapshot_id seal_4) endpoints_4.1.(TrustView.node_Root).

Lemma request_4_stored :
  Store.LoadRequest late.(database).(core) request_4.(Coordinator.req_ID) = Ok request_4.
Proof. vm_compute. reflexivity. Qed.

Definition other_snapshot (p : res Store.error Planner.Plan) (id : Hash) : bool :=
  match p with Ok p => p.(Planner.plan_SnapshotID) ≠?= id | Err _ => true end.

Lemma other_snapshot_ne p id plan :
  other_snapshot p id = true → p = Ok plan → plan.(Planner.plan_SnapshotID) ≠ id.
Proof. intros H ->. by apply negb_true_iff, bool_decide_eq_false in H. Qed.

Lemma planned_state r :
  (r.(Coordinator.req_State) =?= Coordinator.Planned) = true →
  r.(Coordinator.req_State) ∈ [Coordinator.Planned; Coordinator.DirectFallback; Coordinator.ProofReady].
Proof. intros ->%bool_decide_eq_true. left. Qed.

Lemma plan_of_another_snapshot :
  other_snapshot (PlanStore.LoadCurrentPlan hash late.(database).(core) request_4.(Coordinator.req_ID))
    work_4.(Coordinator.work_SnapshotID) = true.
Proof. vm_compute. reflexivity. Qed.

Lemma request_4_planned : (request_4.(Coordinator.req_State) =?= Coordinator.Planned) = true.
Proof. vm_compute. reflexivity. Qed.

Lemma resume_needs_its_snapshot_witness :
  ∃ e, coordinate (ENV := env) (Tx := DynamicFeeTx) hash 3 profiles work_4 late
         = (Err (ErrFrom (ErrProcess e)), late, []).
Proof.
  exact (ExecutorRuns.resume_needs_its_snapshot hash 3 profiles work_4 late
    request_4_stored
    (planned_state request_4 request_4_planned)
    (λ plan, other_snapshot_ne _ _ plan plan_of_another_snapshot)).
Defined.

End ExecutorScenario.
