(* ===== verification/ReplayScenario.v ===== *)
(** * The replay of a trace, on concrete events

    Three events between three chains under [LegacyV41CostProfile]: the first two
    are cheaper to check directly and leave dependency edges, the third takes the
    path these edges make.  The runs are evaluated, and the theorems on the
    replay are applied to them.  The JSON encodings of the witnesses are tables
    of these events and of the decisions on them. *)

From Stdlib Require Import Strings.Byte.
From S2P Require Import Prelude ReplayView Heap ReplaySearch ReplayCoordinator ReplayRepository.
Import ReplayView ReplaySearch ReplayCoordinator ReplayRepository.

Module ReplayScenario.

Definition lower (s : string) : string := s.
Definition block (chain : string) (height : Z) : ReplayBlock := mkBlock chain height 0.

Definition event_of (id : string) (sequence : Z) (destination source : ReplayBlock) : ReplayEvent :=
  mkEvent id (sequence + 1) sequence source destination sequence "" 1 0.

Definition event0 : ReplayEvent := event_of "e0" 0 (block "eth" 100) (block "poly" 50).
Definition event1 : ReplayEvent := event_of "e1" 1 (block "bnb" 5) (block "eth" 100).
Definition event2 : ReplayEvent := event_of "e2" 2 (block "bnb" 5) (block "poly" 50).
Definition trace : list ReplayEvent := [event0; event1; event2].

Definition heights0 : list (string * Z) := [("eth", 70); ("poly", 10); ("bnb", 5)].
Definition periods0 : CheckpointPolicy := {["poly" := 20]}.

Definition ordered_range (n : nat) (m : gmap ReplayBlockKey ReplayEdge) :
    list (ReplayBlockKey * ReplayEdge) := map_to_list m.

Lemma ordered_range_all n m : ordered_range n m ≡ₚ map_to_list m.
Proof. done. Qed.

Definition coordinator0 : ReplayCoordinator :=
  match NewReplayCoordinator lower SettingB2 heights0 LegacyV41CostProfile periods0 with
  | Ok c => c
  | Err _ => mkCoordinator "" LegacyV41CostProfile ∅ (mkView LegacyV41CostProfile ∅ ∅ ∅ ∅ [] 0 0)
               (mkBaselines ∅ ∅)
  end.

Abbreviation processed event c := (Process lower ordered_range new_scratch event c).

Definition coordinator1 : ReplayCoordinator := (processed event0 coordinator0).2.
Definition coordinator2 : ReplayCoordinator := (processed event1 coordinator1).2.
Definition decision_of (event : ReplayEvent) (c : ReplayCoordinator) : option ReplayDecision :=
  match (processed event c).1 with Ok d => Some d | Err _ => None end.

Example decisions_evaluated :
  map (λ p, (λ d, (d.(Decision), d.(Direct).(est_Cost), d.(ChosenCost), d.(GraphNodes), d.(GraphEdges)))
              <$> decision_of p.1 p.2)
    [(event0, coordinator0); (event1, coordinator1); (event2, coordinator2)]
  = [Some ("direct", 120000000, 120000000, 2, 1); Some ("direct", 90000000, 90000000, 3, 2);
     Some ("trustmap", 120000000, 170000, 3, 3)].
Proof. vm_compute. reflexivity. Qed.

Definition no_decision : ReplayDecision :=
  mkDecision "" 0 "" "" false (mkEstimate 0 0 0 false 0 0 false 0) 0 false 0 0 0 no_path 0 0 0.

Definition decision0 : ReplayDecision := default no_decision (decision_of event0 coordinator0).
Definition decision1 : ReplayDecision := default no_decision (decision_of event1 coordinator1).
Definition decision2 : ReplayDecision := default no_decision (decision_of event2 coordinator2).
Definition coordinator3 : ReplayCoordinator := (processed event2 coordinator2).2.

Lemma processed0 : processed event0 coordinator0 = (Ok decision0, coordinator1).
Proof. vm_compute. reflexivity. Qed.

Lemma processed1 : processed event1 coordinator1 = (Ok decision1, coordinator2).
Proof. vm_compute. reflexivity. Qed.

Lemma processed2 : processed event2 coordinator2 = (Ok decision2, coordinator3).
Proof. vm_compute. reflexivity. Qed.

Lemma legacy_ok : profile_ok LegacyV41CostProfile.
Proof. unfold profile_ok, MaxUint64. cbn. lia. Qed.

Lemma periods0_ok chain period : periods0 !! chain = Some period → 0 < period.
Proof. unfold periods0. intros [_ <-]%lookup_singleton_Some. lia. Qed.

Lemma coordinator0_ok : coordinator_ok lower coordinator0.
Proof.
  apply (new_coordinator_ok lower SettingB2 heights0 LegacyV41CostProfile periods0).
  - exact legacy_ok.
  - exact periods0_ok.
  - vm_compute. reflexivity.
Qed.

Lemma event0_canonical : event_canonical lower event0.
Proof. split; vm_compute; reflexivity. Qed.

Lemma event1_canonical : event_canonical lower event1.
Proof. split; vm_compute; reflexivity. Qed.

Lemma event2_canonical : event_canonical lower event2.
Proof. split; vm_compute; reflexivity. Qed.

Lemma coordinator1_ok : coordinator_ok lower coordinator1.
Proof.
  exact (Process_ok lower ordered_range new_scratch coordinator0 event0 decision0 coordinator1
    coordinator0_ok event0_canonical processed0).
Qed.

Lemma coordinator2_ok : coordinator_ok lower coordinator2.
Proof.
  exact (Process_ok lower ordered_range new_scratch coordinator1 event1 decision1 coordinator2
    coordinator1_ok event1_canonical processed1).
Qed.

(** ** The search *)

Definition from2 : ReplayBlockKey := mkKey "bnb" 5.
Definition to2 : ReplayBlockKey := mkKey "poly" 50.

Definition path2 : ReplayPath :=
  mkPath 60000 [from2; mkKey "eth" 100; to2]
    [mkSegment from2 (mkKey "eth" 100) ReplayVerifiedDependencyEdgeKind 30000;
     mkSegment (mkKey "eth" 100) to2 ReplayVerifiedDependencyEdgeKind 30000].

Lemma ShortestPath_least_witness :
  (ShortestPath lower ordered_range coordinator2.(view) new_scratch from2 to2 119890000 "poly" 50).1
    = Ok (path2, true) ∧
  path_ok coordinator2.(view).(adjacency) (allowed lower coordinator2.(view) 119890000 "poly" 50)
    from2 to2 path2 ∧
  60000 ≤ 119890000.
Proof.
  assert ((ShortestPath lower ordered_range coordinator2.(view) new_scratch from2 to2 119890000 "poly" 50).1
    = Ok (path2, true)) as HP by (vm_compute; reflexivity).
  pose proof (ShortestPath_least lower ordered_range ordered_range_all coordinator2.(view) new_scratch
    from2 to2 119890000 "poly" 50 (co_view _ _ coordinator2_ok) new_scratch_ok
    ltac:(unfold u64, MaxUint64; lia) ltac:(vm_compute; discriminate)) as HL. cbn zeta in HL.
  split; [exact HP|].
  destruct (ShortestPath lower ordered_range coordinator2.(view) new_scratch from2 to2 119890000 "poly" 50)
    as [r s']. cbn [fst] in HP.
  destruct HL as (_ & HF & _). destruct (HF path2 HP) as (H1 & H2 & _). split; [exact H1|exact H2].
Defined.

(** ** The coordinator *)

Lemma Process_chooses_least_witness :
  processed event2 coordinator2 = (Ok decision2, coordinator3) ∧
  decision2.(Decision) = ReplayDecisionTrustMap ∧
  decision2.(ChosenCost) = 170000 ∧ decision2.(ChosenCost) ≤ decision2.(Direct).(est_Cost) ∧
  coordinator_ok lower coordinator3.
Proof.
  pose proof (Process_chooses_least lower ordered_range new_scratch ordered_range_all new_scratch_ok
    coordinator2 event2 decision2 coordinator3 coordinator2_ok event2_canonical eq_refl processed2) as HP.
  cbn zeta in HP. destruct HP as (H1 & _ & _ & _ & H5 & _).
  split; [exact processed2|]. split; [vm_compute; reflexivity|]. split; [vm_compute; reflexivity|].
  split; [exact H5|exact H1].
Defined.

Lemma Restore_replays_witness :
  processed event2 coordinator2 = (Ok decision2, coordinator3) ∧
  Restore lower event2 decision2 coordinator2 = (Ok tt, coordinator3).
Proof.
  split; [exact processed2|].
  exact (Restore_replays lower ordered_range new_scratch ordered_range_all new_scratch_ok
    coordinator2 event2 decision2 coordinator3 coordinator2_ok event2_canonical processed2).
Defined.

(** ** Runs *)

(** A table of encodings. *)
Definition marshal_in {A} `{EqDecision A} (table : list A) (x : A) : option bytes :=
  match list_find (eq x) table with
  | Some (i, _) => Some (be_bytes 8 (Z.of_nat i))
  | None => None
  end.

Definition unmarshal_in {A} (table : list A) (b : bytes) : option A := table !! Z.to_nat (be_value b).

Lemma table_kept {A} `{EqDecision A} (table : list A) x b :
  (length table < 256)%nat → marshal_in table x = Some b → unmarshal_in table b = Some x.
Proof.
  intros Hl. unfold marshal_in, unmarshal_in. destruct (list_find (eq x) table) as [[i y]|] eqn:Hf; [|done].
  intros [= <-]. apply list_find_Some in Hf as (Hi & <- & _). pose proof (lookup_lt_Some _ _ _ Hi).
  rewrite be_value_be_bytes, Z.mod_small by lia. by rewrite Nat2Z.id.
Qed.

Definition decisions : list ReplayDecision := [decision0; decision1; decision2].

Definition snapshot_at (s : Z) (d : ReplayDecision) : ReplaySnapshot :=
  mkSnapshot s s d.(GraphNodes) d.(GraphEdges) d.(dec_CrossEdgesAdded).

Definition snapshots : list ReplaySnapshot :=
  [snapshot_at 0 decision0; snapshot_at 1 decision1; snapshot_at 2 decision2].

Definition identity0 : ReplayRunIdentity :=
  mkIdentity "run" SettingB2 "digest" 3 "replay-v1" ReplaySchemaVersion "unknown" "" "" "" 1 0.

Definition marshal_id (id : ReplayRunIdentity) : bytes := bytes_of_string id.(RunID).
Definition marshal_cost (p : ReplayPath) : option bytes := Some (be_bytes 8 p.(path_Cost)).
Definition digest (l : bytes) : bytes := l.

Definition oracle0 : oracle := (λ _, ordered_range, λ _, new_scratch).

Lemma oracle0_ok : oracle_ok oracle0.
Proof. split; [done|]. intros s. exact new_scratch_ok. Qed.

Abbreviation attempt0 := (attempt lower digest marshal_id (marshal_in trace) (unmarshal_in trace)
  (marshal_in decisions) (unmarshal_in decisions) (marshal_in snapshots) (unmarshal_in snapshots)
  marshal_cost identity0 trace heights0 LegacyV41CostProfile periods0).

Abbreviation attempted0 := (attempted lower digest marshal_id (marshal_in trace) (unmarshal_in trace)
  (marshal_in decisions) (unmarshal_in decisions) (marshal_in snapshots) (unmarshal_in snapshots)
  marshal_cost identity0 trace heights0 LegacyV41CostProfile periods0).

(** The tables of an attempt that is cancelled after one event. *)
Definition cut_db : DB := (attempt0 oracle0 1 empty_db).2.

Lemma trace_ordered i e : trace !! i = Some e → e.(Sequence) = Z.of_nat i ∧ event_canonical lower e.
Proof.
  destruct i as [|[|[|i]]]; intros [= <-];
    (split; [vm_compute; reflexivity|split; vm_compute; reflexivity]).
Qed.

Example cut_and_resumed :
  cut_db.(replay_progress) = Some (1, Some 0) ∧
  (attempt0 oracle0 1 empty_db).1 = Err ErrCancelled ∧
  attempt0 oracle0 3 cut_db = attempt0 oracle0 3 empty_db ∧
  (attempt0 oracle0 3 cut_db).1 = Ok coordinator3.
Proof. repeat split; vm_compute; reflexivity. Qed.

Lemma run_resumes_witness :
  cut_db.(replay_progress) = Some (1, Some 0) ∧
  ∃ o', oracle_ok o' ∧ attempt0 oracle0 3 cut_db = attempt0 o' 3 empty_db.
Proof.
  split; [vm_compute; reflexivity|].
  apply (run_resumes lower digest marshal_id (marshal_in trace) (unmarshal_in trace)
    (marshal_in decisions) (unmarshal_in decisions) (marshal_in snapshots) (unmarshal_in snapshots)
    marshal_cost identity0 trace heights0 LegacyV41CostProfile periods0).
  - intros e b. apply table_kept. cbn. lia.
  - intros d b. apply table_kept. cbn. lia.
  - intros d b. apply table_kept. cbn. lia.
  - exact trace_ordered.
  - reflexivity.
  - exact legacy_ok.
  - exact periods0_ok.
  - apply attempted_more; [apply attempted_none|exact oracle0_ok].
  - exact oracle0_ok.
  - cbn. lia.
Defined.

End ReplayScenario.
