(* ===== verification/ReplayTraceScenario.v ===== *)
(** * The preparation of a trace, on a concrete file

    Four rows, of which one is not readable, become the three events of a run,
    in another order, and are replayed.  The theorems on the preparation are
    applied to them, and a trace is shown that the preflight accepts and the
    search of the planner cannot finish.  The parameters are small concrete
    functions: a file is its rows, a time is a decimal number. *)

From Stdlib Require Import Strings.Byte.
From S2P Require Import Prelude ReplayView ReplayNames ReplayHeight Heap ReplaySearch ReplayCoordinator ReplayTrace ReplayPreflight ReplayScenario.
Import ReplayView ReplayNames ReplayHeight ReplaySearch ReplayCoordinator ReplayTrace ReplayPreflight ReplayScenario.

Module ReplayTraceScenario.

Definition header : list string :=
  ["src_chain"; "dst_chain"; "src_block_number"; "dst_block_number"; "src_block_time"].

Definition row (src dst src_height dst_height time : string) : option (list string) :=
  Some [src; dst; src_height; dst_height; time].

Definition rows : list (option (list string)) :=
  [row "poly" "bnb" "50" "5" "9"; row "Poly " "ETH" "10" "1e2" "1"; row "poly" "bnb" "-4" "5" "2";
   row "eth" "bnb" "100" "5.0" "4"].

Definition read_file (rows : list (option (list string))) (data : bytes) :
    list (option (list string)) := Some header :: rows.
Definition read_time (layout value : string) : option Z := parseLegacyHeight value.
Definition print_time (t : Z) : string := "".
Definition no_float (s : string) : option Z := None.
Definition no_int (z : Z) : Z := 0.

(** Every text has one digest: identifiers are equal. *)
Definition one_hash (data : bytes) : bytes := [].
Definition all_of (data : bytes) : bytes := data.

Definition options : TraceOptions := mkOptions "drop" [] 0.

Abbreviation prepare rows hash :=
  (PrepareTrace lower hash (read_file rows) read_time print_time no_float no_int (Some []) options).

Definition trace_of (r : res trace_error PreparedTrace) : PreparedTrace :=
  match r with Ok t => t | Err _ => mkTrace "" 0 0 [] ∅ [] end.

Definition prepared_trace : PreparedTrace := trace_of (prepare rows all_of).

Example trace_evaluated :
  (prepared_trace.(SourceRows), prepared_trace.(DroppedRows), prepared_trace.(Chains),
   map_to_list prepared_trace.(InitHeights),
   map (λ e, (e.(Sequence), e.(OriginalRow), e.(event_Source).(block_Chain),
              e.(event_Source).(NormalizedHeight), e.(Destination).(block_Chain),
              e.(Destination).(NormalizedHeight))) prepared_trace.(Events))
  = (4, 1, ["bnb"; "eth"; "poly"], map_to_list prepared_trace.(InitHeights),
     [(0, 2, "poly", 0, "eth", 0); (1, 4, "eth", 0, "bnb", 0); (2, 1, "poly", 40, "bnb", 0)]).
Proof. vm_compute. reflexivity. Qed.

Lemma lower_canonical s :
  is_ascii s = false → TrimSpace s = s → canonicalChain lower (lower s) = lower s.
Proof. intros Ha Ht. unfold canonicalChain, lower. rewrite Ht. unfold ToLower. by rewrite Ha. Qed.

Lemma prepared_trace_ok_Ok : prepare rows all_of = Ok prepared_trace.
Proof. vm_compute. reflexivity. Qed.

Lemma PrepareTrace_spec_witness :
  prepare rows all_of = Ok prepared_trace ∧
  (∃ order, prepared lower all_of print_time [] options
     (row_events lower read_time no_float no_int (columns_of header) 1 rows) order prepared_trace) ∧
  ∀ i e, prepared_trace.(Events) !! i = Some e → e.(Sequence) = Z.of_nat i ∧ event_canonical lower e.
Proof.
  destruct (PrepareTrace_spec lower all_of (read_file rows) read_time print_time no_float no_int
    [] header rows options prepared_trace eq_refl ltac:(vm_compute; done) ltac:(cbn; lia) lower_canonical)
    as [HI HE].
  destruct (proj1 HI prepared_trace_ok_Ok) as (_ & _ & HO).
  split; [exact prepared_trace_ok_Ok|]. split; [exact HO|exact (HE prepared_trace_ok_Ok)].
Defined.

(** ** Identifiers *)

Definition hashed_trace : PreparedTrace := trace_of (prepare rows one_hash).

Lemma event_IDs_distinct_witness :
  (event_ID <$> hashed_trace.(Events) !! 0%nat) = (event_ID <$> hashed_trace.(Events) !! 1%nat) ∧
  ∃ x y, x ≠ y ∧ one_hash x = one_hash y.
Proof.
  assert (prepare rows one_hash = Ok hashed_trace) as HP by (vm_compute; reflexivity).
  split; [vm_compute; reflexivity|].
  destruct (hashed_trace.(Events) !! 0%nat) as [e0|] eqn:H0; [|vm_compute in H0; discriminate].
  destruct (hashed_trace.(Events) !! 1%nat) as [e1|] eqn:H1; [|vm_compute in H1; discriminate].
  assert (e0.(event_ID) = e1.(event_ID)) as HE.
  { assert ((event_ID <$> hashed_trace.(Events) !! 0%nat) = (event_ID <$> hashed_trace.(Events) !! 1%nat))
      as HE by (vm_compute; reflexivity).
    rewrite H0, H1 in HE. by injection HE. }
  destruct (event_IDs_distinct lower one_hash (read_file rows) read_time print_time no_float no_int
    [] header rows options hashed_trace 0 1 e0 e1 eq_refl ltac:(vm_compute; done) ltac:(cbn; lia) HP H0 H1 HE)
    as [H|H]; [discriminate H|exact H].
Defined.

(** ** The replay *)

Definition first_coordinator (pr : CostProfile) (t : PreparedTrace) : ReplayCoordinator :=
  match NewReplayCoordinator lower SettingB2 (map_to_list t.(InitHeights)) pr periods0 with
  | Ok c => c
  | Err _ => coordinator0
  end.

Definition ordered_ranges (i : Z) := ordered_range.
Definition new_scratches (i : Z) := new_scratch.

(** All heights of the trace are below 101. *)
Lemma prepared_room : room LegacyV41CostProfile (blocks_of prepared_trace.(Events)).
Proof.
  assert (Forall (λ b, 0 ≤ b.(OriginalHeight) ≤ 100) (blocks_of prepared_trace.(Events))) as HF.
  { refine (proj1 (bool_decide_eq_true _) _). vm_compute. reflexivity. }
  rewrite Forall_forall in HF. intros b1 b1' b2 b2' H1%HF H1'%HF H2%HF H2'%HF _ _. cbn.
  unfold MaxUint64. lia.
Qed.

Lemma validated_replay_witness :
  ValidatePreparedTrace LegacyV41CostProfile prepared_trace = Ok tt ∧
  ∃ ds c', process_all lower ordered_ranges new_scratches 0 prepared_trace.(Events)
      (first_coordinator LegacyV41CostProfile prepared_trace) = (Ok ds, c') ∧
    length ds = 3%nat.
Proof.
  assert (ValidatePreparedTrace LegacyV41CostProfile prepared_trace = Ok tt) as HV
    by (vm_compute; reflexivity).
  split; [exact HV|].
  assert (NewReplayCoordinator lower SettingB2 (map_to_list prepared_trace.(InitHeights))
    LegacyV41CostProfile periods0 = Ok (first_coordinator LegacyV41CostProfile prepared_trace)) as HN
    by (vm_compute; reflexivity).
  exact (validated_replay lower all_of (read_file rows) read_time print_time no_float no_int
    ordered_ranges new_scratches lower_canonical (λ _, ordered_range_all) (λ _, new_scratch_ok)
    [] header rows options prepared_trace SettingB2 LegacyV41CostProfile periods0
    (first_coordinator LegacyV41CostProfile prepared_trace) eq_refl ltac:(vm_compute; done) ltac:(cbn; lia)
    prepared_trace_ok_Ok legacy_ok periods0_ok HV HN (λ _, prepared_room)).
Defined.

(** ** What the preflight does not see *)

Definition heavy_profile : CostProfile := mkCostProfile "heavy" (2 ^ 62) 1 1.

Definition heavy_rows : list (option (list string)) :=
  [row "c" "b" "0" "1" "1"; row "a" "c" "0" "3" "2"; row "a" "b" "3" "0" "3"].

Definition heavy_trace : PreparedTrace := trace_of (prepare heavy_rows all_of).

(** The preflight accepts a trace whose replay then fails: the third event costs
    three steps of a direct verification, the search comes within one step to
    the chain [c], and adds the three steps of an edge there: more than 64 bits.
    Each of the two costs was checked, their sum was not. *)
Theorem preflight_misses_search :
  prepare heavy_rows all_of = Ok heavy_trace ∧
  ValidatePreparedTrace heavy_profile heavy_trace = Ok tt ∧
  NewReplayCoordinator lower SettingB2 (map_to_list heavy_trace.(InitHeights)) heavy_profile periods0
    = Ok (first_coordinator heavy_profile heavy_trace) ∧
  (process_all lower ordered_ranges new_scratches 0 heavy_trace.(Events)
     (first_coordinator heavy_profile heavy_trace)).1 = Err ErrCostOverflow.
Proof. split_and!; vm_compute; reflexivity. Qed.

End ReplayTraceScenario.
